(* ===== verification/_CoqProject ===== *)
-Q . S2P
Prelude.v
Orders.v
PyDict.v
PyFloat.v
PyStats.v
Canonical.v
Sample.v
Models.v
Store.v
Metrics.v
MetricsFacts.v
Verifier.v
VerifierFacts.v
LeaseScheduler.v
LeaseSchedulerFacts.v
Access.v
Lineage.v
ArenaMetrics.v
Controller.v
ControllerFacts.v
Status.v
StatusFacts.v
Swarm.v
SwarmDocs.v
SwarmFacts.v
Ledger.v
SwarmControl.v
SwarmControlFacts.v
SwarmRecovery.v
SwarmSafety.v
SwarmGate.v
SwarmGateFacts.v
Json.v
PyText.v
Regex.v
JsonLines.v
Control.v
ControlFile.v
ControlCodec.v
ControlRefinement.v
ControlLifecycle.v
ControlSample.v
Activity.v
ActivityFile.v
ActivityCodec.v
ActivityFacts.v
ActivityHistory.v
ActivityFleet.v
Pool.v
PoolFacts.v
Autoscale.v
AutoscaleFacts.v
Catalog.v
CatalogFacts.v
Refinement.v
RefinementFacts.v
Grading.v
Buckets.v
RoutingFacts.v
GoldenSet.v
Sovereignty.v
FailureMemory.v
WalletCorrection.v
Sensitivity.v
SensitivityFacts.v
AutopilotTypes.v
CarveOut.v
BuildWorld.v
MergeGate.v
GatedBuild.v
Finalize.v
BuildFacts.v
AutopilotRun.v
Phase2.v
Phase2Facts.v
Triage.v
ArenaSamples.v
SwarmSamples.v
ServiceSamples.v
AutopilotSamples.v
