(* ===== verification/Prelude.v ===== *)
(** * A verification library for SKHarness

    SKHarness runs agents in experiments, in teams, in sessions and on a task board.
    Its core decides who may run, what a run may spend, what is recorded, when work
    counts as done and what may be merged without a human.  This library models that
    core from the sources under src/src/skharness and proves it correct; what it found
    on the way is stated as theorems too.

    ** The program and the files that model it

    The evolution arena.
    - arena/models.py, the immutable documents: [Models] (records and pydantic
      validators), over [Canonical] (JSON values, canonical text, content hashes).
    - arena/store.py, event segments, artifacts and records on disk: [Store].
    - arena/scheduler.py, leases against a resource capacity: [LeaseScheduler],
      proofs in [LeaseSchedulerFacts].
    - arena/access.py, ownership of attempts, grants and inboxes: [Access].
    - arena/lineage.py, the parent links of experiments: [Lineage].
    - arena/controller.py, the lifecycle of attempts over store, scheduler and
      metrics: [Controller], proofs in [ControllerFacts].
    - arena/metrics.py, repeated trials, constraints and fronts: [Metrics] over
      [PyStats] (mean and standard deviation), proofs in [MetricsFacts].
    - arena/verifier.py, the independent verification policy: [Verifier],
      [VerifierFacts].
    - arena/status.py, the metrics registry and the views: [ArenaMetrics], [Status],
      [StatusFacts].
    - arena/collaboration.py, the research catalog: [Catalog], [CatalogFacts]; the
      refinement journal on its two files: [Refinement], [RefinementFacts].

    Teams of agents.
    - arena/swarm.py, the documents of a team: [Swarm] (records and validators),
      [SwarmDocs] (hashes and derivations), proofs in [SwarmFacts]; the team budget:
      [Ledger].
    - arena/swarm_control.py, the durable scheduler of a team: [SwarmControl];
      invariants in [SwarmControlFacts], recovery in [SwarmRecovery], properties in
      [SwarmSafety].
    - arena/swarm_verifier.py, the completion gate: [SwarmGate], [SwarmGateFacts].

    Session services.
    - control.py, commands and receipts on a JSON-lines file: [Control] (documents and
      methods over an interface of rows), [ControlFile] (the file), [ControlCodec]
      (lines read back), [ControlRefinement] (the file refines a list of rows),
      [ControlLifecycle] (what callers may rely on).
    - activity.py, the activity journal of a node: [Activity] (documents and
      redaction), [ActivityFile] (the files), [ActivityCodec], [ActivityFacts],
      [ActivityHistory] (histories of publications and kills), [ActivityFleet] (the
      reading of all nodes).
    - pool.py, the controller of panes: [Pool], [PoolFacts]; autoscale_policy.py and
      autocode/autoscale.py: [Autoscale], [AutoscaleFacts].

    The autopilot, autocode/.
    - types.py, config.py and the usage of a build in joules.py: [AutopilotTypes].
    - grading.py: [Grading]; buckets.py, routing_guard.py and escalation.py:
      [Buckets], proofs in [RoutingFacts]; golden_set.py: [GoldenSet];
      sovereignty.py: [Sovereignty]; failure_memory.py: [FailureMemory];
      wallet_correction.py: [WalletCorrection].
    - sensitivity.py: [Sensitivity], [SensitivityFacts], its patterns read by [Regex].
    - engineering.py and direct.py: [BuildWorld] (the requests to git, gh, the model,
      the suite and the board, and the logic of their traces), [MergeGate] (checks and
      merge, with merge_method.py), [GatedBuild] (the rounds), [CarveOut]
      (protected.py), [Finalize]; what a build may do: [BuildFacts].
    - orchestrator.py, journal.py and grader_pin.py: [AutopilotRun] (caps, outcome
      rows, the journal of a run), [Phase2] (the swarm of builds as interleaved
      threads), [Phase2Facts], [Triage] (quality, kind, grade, work item, phase 1, with
      the axes of an assessment from adapters/base.py).

    [Prelude], [Orders], [PyDict], [PyFloat], [PyText], [Json] and [JsonLines] hold what
    the components share: exceptions, state programs, orders of text, dictionaries,
    floats, the methods of str, the text of JSON and files of lines.  [Sample] and
    [ControlSample] are platforms that compute; [ArenaSamples], [SwarmSamples],
    [ServiceSamples] and [AutopilotSamples] run the models on them, one module per
    component: the witnesses of the theorems and the runs that show a defect.

    The parts meet as the code makes them meet: the controller calls the store, the
    scheduler and the metrics; the completion gate reads the documents of a team; the
    pool publishes to the activity journal; the autoscale policy acts on the pool; a
    card passes triage ([Triage]), is built by a thread of the swarm ([Phase2], for any
    executor) or in detail ([GatedBuild], [Finalize]), is routed by [Buckets] and
    remembered by [FailureMemory].

    ** How Python is read

    - A method is a [prog S A], a function from the state to the state after the
      call and a [result A]: an exception keeps the changes made before it.  A method
      that holds its lock throughout is one step; a history of calls from any threads
      is a sequence of steps.
    - An exception is its class and message; [except] clauses follow [exn_parent].
    - [validate_X x] is the construction of a pydantic or dataclass value: [x], or
      the error of the check that fails first.
    - A [str] holds code points below 256.  [str] operations on whitespace and case
      are those of that range; the ellipsis of a cut text stands as code point 183.
    - A finite [float] is the integer multiple of 2^-1074 it is; sums round to
      nearest even ([PyFloat]), means and deviations as in CPython 3.11 ([PyStats]).
      In [Metrics] and [Verifier] a value may also be an infinity or nan ([xfloat]), and
      what leaves the range overflows as in the interpreter; elsewhere values are finite
      and the upper end of the range is not modelled.
    - A [dict] remembers insertion order ([PyDict]).  A card and the payload of an item
      are JSON objects, what is read from them any JSON value.
    - Readings of an injected clock are [clock 0], [clock 1], ...: every theorem holds
      for every clock unless it says that the clock does not run backwards.
    - Files are byte strings; a writer killed inside an append leaves any prefix of
      its record.
    - A numeral of more than 4300 digits is refused as by the interpreter, and so is
      such an integer in the payload of a control command; elsewhere the printing of
      integers has no limit, and the limit on recursion is not modelled.

    Code outside the repository is a parameter with its documented laws, each
    instantiated in a Sample file: [Platform] (sha256, the text of a float and of a
    datetime), [FloatText] (that text reads back), [EventCodec], [RecordCodec] and
    [LineCodec] (pydantic's JSON text of a model), [Entropy] (uuid4: identifiers do not
    repeat), [Tokens] (secrets.token_hex), the harness of the pool and its fresh names,
    and [World], which answers every request of a build and has no law but, for the wait
    on checks, a clock that does not run backwards.

    ** What the theorems show

    - Documents: digests do not depend on the order of object members; a plan that
      can be constructed is a directed acyclic graph with disjoint contracts; a
      contract never lets a worker write a protected path; events travel along their
      edge; receipts, authorizations and bound inputs fit each other and nothing else.
    - Store: an append extends exactly one segment, whatever bytes it held; over
      accepted and refused appends and writers killed after any byte ([store_step])
      segments only grow, and stay readable unless a kill lost exactly the newline of a
      whole record; what reads back is one hash chain; artifacts and records round-trip.
    - Lineage: whatever is added ([lineage_built]), links to non-empty parents close no
      cycle.
    - Leases: integer capacity is never exceeded, one live lease per key, the outcome
      of every branch of [admit], dead leases stay dead.
    - Controller: over a wall clock that moves strictly forward and any number of
      controllers of one store ([world_step], append by append) the stored events of an
      attempt are a path of its state machine; terminal states are final; no second
      worker is admitted, whoever else used the scheduler and the store
      ([shared_reachable]).  Within one call [admit_attempt] is a single step, though
      the code holds its lock only where it reads and writes.
    - Statistics, verification, views: the front is the set of undominated candidates,
      a verdict is valid exactly when every condition holds, and nothing but the
      overflow of a summary escapes it; the views agree with the state the controller
      acts on.
    - Catalog and refinement: derived experiments fit their parent; over interleaved
      and killed calls every promotion was governed, and once the proposals do not read
      back nothing is written again.
    - Team scheduler, over any calls, errors and restarts from what the checkpoint file
      holds ([swarm_run]): the ledger is never overbooked, leases only move forward
      (across a restart, those the file has), one attempt per contract, usage counted
      once and bounded, cancellation is final, an authorization is used once, and a
      checkpoint that [recover] accepts restores every field of the scheduler that wrote
      it, with the ledger of its leases.
    - Completion gate: it authorizes exactly a complete, commit-consistent, trusted
      and independently attested lineage.
    - Control journal: the file with its torn lines refines the list of its rows, and
      over that list a command is granted once, before its expiry, and a terminal
      receipt is final.
    - Activity journal: a numbered suffix over any history, publications decided by
      their event, replay that ends with every retained event seen once.
    - Pool and autoscale: a scale that returns made exactly the calls that its target
      asks for, one for each victim or each missing pane; execution is guarded by the
      parked proposal.
    - Autopilot policies: the routing layer writes one of twelve addresses to the model
      and nothing else; a graded card goes to the bucket of its larger rank and of the
      sensitivity the rules give it, whatever the reply proposes ([Triage]); reports
      count what happened, the memory keeps the newest distinct causes, a sensitivity is
      what its patterns say.
    - Autopilot builds: every automatic merge was earned in the same build
      ([merge_is_earned]), a verdict is passed only on evidence, the direct executor
      never merges, the carve-out cannot be opened from its manifest, the wait on checks
      ends; a card cannot weaken its own gate; over any interleaving of threads the
      swarm writes one row per item that ends, overshoots its caps by one round of
      threads at most, and stores how each item ended.

    Theorems that state a defect of the code: [Store.lost_newline_corrupts],
    [empty_parent_makes_cycle], [backwards_clock_revives_attempt],
    [rounding_breaks_admission], [rounding_blocks_settlement],
    [delivery_order_breaks_recovery], [rebuild_order_breaks_recovery],
    [late_overage_breaks_recovery], [crash_between_rows_blocks_pending],
    [rounding_rejects_exact_trials], [tolerance_empties_frontier],
    [second_verification_breaks_frontier], [redaction_outgrows_bound],
    [backwards_clock_skips_event], [long_numeral_escapes],
    [malformed_row_hides_the_rest], [detail_never_matches],
    [deep_credential_is_internal], [cancelled_counts_as_green],
    [failed_diff_is_not_held], [malformed_rule_allows], [stripped_promise_promises],
    [peer_drops_worktree], [crossed_handles_lose], [raising_run_vanishes],
    [tag_cannot_lower], [overflow_escapes], [expiry_is_not_saved],
    [foreign_letters_match], [newline_passes_validation].

    ** Fuel and bounds

    - [Lineage] walks with three more fuel than the number of experiments;
      [ancestors_complete] and [descendants_complete] show that it is enough.
    - [Json] parses with fuel twice the length of the text plus two;
      [json_loads_dumps] shows that it is enough for every printed value.
    - [redact], the parser of patterns and the parser of globs take the length of the
      text as fuel; each step consumes a character.
    - The rounds of a build count down from [_MAX_ROUNDS]; the polls of the checks from
      a number given, and [polls_enough] shows that 76 decide.
    - The exception hierarchy is walked to a fixed depth, that of the classes there.

    ** Not modelled

    File modes, fsync, temporary files and locks (an operation is atomic, or killed or
    interleaved where a theorem says so); the JSON text of the team scheduler's
    checkpoint and of the journal of a run, which are held as the values they encode;
    health events and prints.  Of the autopilot: assessment and decomposition of cards,
    the report, reverting, the joule and cost ledgers, the run records, the mutation
    probe and the confinement of builds, which read the services and files of other
    packages, syntax trees, containers or keys.  The rest of the program drives processes, sockets,
    containers and terminals around this core: the experiment runner, the threads of a
    team, the container boundary of the verifier, evaluation and qualification, the
    harness adapters, the session plane, the daemon, the gateway and the wiring
    detector. *)
From stdpp Require Export base tactics option list strings sorting gmap.
From Stdlib Require Export ZArith Lia.
From Stdlib Require Import Ascii.

(** ** Exceptions

    Python exceptions are values of [exn]: the class that was raised and its
    message.  [exn_parent] is the class hierarchy the [except] clauses of the
    program observe ([ValidationError] is pydantic's, a [ValueError]). *)
Inductive exn_class :=
  | BaseException_ | Exception_
  | ValueError | TypeError | KeyError | IndexError | RuntimeError | OSError | PermissionError
  | ValidationError
  | SwarmContractError | BudgetExceededError | SwarmStateError
  | InvalidTransitionError | CorruptEventLogError | EventConflictError
  | AccessDeniedError
  | ControlError | ControlConflictError | ControlCorruptionError
  | ActivityError | ActivityCorruptionError
  | SpawnRejected
  | CollaborationError
  | BucketError | RoutingScopeViolation | GoldenSetSchemaError | SensitivityOverrideError
  | AttributeError | ClaimRaced | SubprocessError | ConfigError | OverflowError.

#[export] Instance exn_class_eq_dec : EqDecision exn_class.
Proof. solve_decision. Defined.

Definition exn_parent (k : exn_class) : exn_class :=
  match k with
  | BaseException_ | Exception_ => BaseException_
  | ValueError | TypeError | KeyError | IndexError | RuntimeError | OSError => Exception_
  | PermissionError => OSError
  | ValidationError | SwarmContractError | SpawnRejected
  | BucketError | GoldenSetSchemaError | SensitivityOverrideError | ConfigError => ValueError
  | BudgetExceededError => SwarmContractError
  | AttributeError | ClaimRaced | SubprocessError | OverflowError => Exception_
  | SwarmStateError | InvalidTransitionError | CorruptEventLogError
  | EventConflictError | ControlError | ActivityError
  | CollaborationError | RoutingScopeViolation => RuntimeError
  | AccessDeniedError => PermissionError
  | ControlConflictError | ControlCorruptionError => ControlError
  | ActivityCorruptionError => ActivityError
  end.

(** [isinstance(e, k)]: the hierarchy above is at most four classes deep. *)
Fixpoint exn_isa_upto (fuel : nat) (k target : exn_class) : bool :=
  bool_decide (k = target) ||
  match fuel with
  | O => false
  | S fuel => exn_isa_upto fuel (exn_parent k) target
  end.
Definition exn_isa : exn_class → exn_class → bool := exn_isa_upto 4.

Record exn := Exn { exn_kind : exn_class; exn_msg : string }.

#[export] Instance exn_eq_dec : EqDecision exn.
Proof. solve_decision. Defined.

(** ** Fallible and stateful computations *)
Inductive result (A : Type) :=
  | Ok (a : A)
  | Err (e : exn).
Arguments Ok {A} _.
Arguments Err {A} _.

#[export] Instance result_eq_dec `{EqDecision A} : EqDecision (result A).
Proof. solve_decision. Defined.

#[export] Instance result_ret : MRet result := λ A a, Ok a.
#[export] Instance result_bind : MBind result := λ A B f m,
  match m with Ok a => f a | Err e => Err e end.
#[export] Instance result_fmap : FMap result := λ A B f m,
  match m with Ok a => Ok (f a) | Err e => Err e end.

Definition is_ok {A} (r : result A) : bool :=
  match r with Ok _ => true | Err _ => false end.

(** A method of a stateful object: the state survives an exception, as the
    fields of a Python object do. *)
Definition prog (S A : Type) : Type := S → S * result A.

#[export] Instance prog_ret {S} : MRet (prog S) := λ A a s, (s, Ok a).
#[export] Instance prog_bind {S} : MBind (prog S) := λ A B f m s,
  match m s with
  | (s', Ok a) => f a s'
  | (s', Err e) => (s', Err e)
  end.

Definition raise {S A} (k : exn_class) (msg : string) : prog S A :=
  λ s, (s, Err (Exn k msg)).
Definition lift {S A} (r : result A) : prog S A := λ s, (s, r).
Definition gets {S A} (f : S → A) : prog S A := λ s, (s, Ok (f s)).
Definition modify {S} (f : S → S) : prog S unit := λ s, (f s, Ok tt).

(** [if cond: raise ...] *)
Definition raise_if {S} (b : bool) (k : exn_class) (msg : string) : prog S unit :=
  if b then raise k msg else mret tt.
Definition err_if (b : bool) (k : exn_class) (msg : string) : result unit :=
  if b then Err (Exn k msg) else Ok tt.

(** [try: m  except ...]: the handler sees the outcome. *)
Definition try_ {S A B} (m : prog S A) (handler : result A → prog S B) : prog S B :=
  λ s, let '(s', r) := m s in handler r s'.

(** [for x in xs: body(x)] *)
Fixpoint for_each {S A} (xs : list A) (body : A → prog S unit) : prog S unit :=
  match xs with
  | [] => mret tt
  | x :: xs => body x ;; for_each xs body
  end.
Fixpoint check_each {A} (xs : list A) (body : A → result unit) : result unit :=
  match xs with
  | [] => Ok tt
  | x :: xs => body x ;; check_each xs body
  end.

(** [[f(x) for x in xs]] for a fallible [f] *)
Fixpoint map_result {A B} (f : A → result B) (xs : list A) : result (list B) :=
  match xs with
  | [] => Ok []
  | x :: xs => y ← f x; ys ← map_result f xs; Ok (y :: ys)
  end.

(** One step of a run, without unfolding the rest of it. *)
Lemma prog_bind_eq {S A B} (m : prog S A) (k : A → prog S B) s :
  (m ≫= k) s = match m s with (s', Ok a) => k a s' | (s', Err e) => (s', Err e) end.
Proof. reflexivity. Qed.

Ltac prog_step :=
  rewrite prog_bind_eq;
  cbv beta iota delta [mret prog_ret raise_if gets modify lift raise negb].
(** The next statement of a run is [raise_if b ...]: the raising case is closed by
    [done] where it can be, the other goes on knowing that [b] is false. *)
Ltac prog_raise H :=
  rewrite prog_bind_eq; unfold raise_if at 1;
  match goal with |- context [(if ?b then raise _ _ else mret _) _] => destruct b eqn:H end;
  [try done|]; cbn [mret prog_ret]; cbv beta match.
(** The next statement reads the state or sets it. *)
Ltac prog_gets := rewrite prog_bind_eq; unfold gets at 1; cbv beta match.
Ltac prog_modify := rewrite prog_bind_eq; unfold modify at 1; cbv beta match.
(** The next statement is [lift r]. *)
Ltac prog_lift H a :=
  rewrite prog_bind_eq; unfold lift at 1;
  match goal with |- context [match ?r with Ok _ => _ | Err _ => _ end] => destruct r as [a|] eqn:H end;
  [|try done]; cbv beta match.
Lemma run_ok {S A} (m : prog S A) s : is_ok (m s).2 = true → ∃ s' a, m s = (s', Ok a).
Proof. destruct (m s) as [s' [a|e]]; [by eauto|done]. Qed.

(** ** Reasoning about computations

    [Evolves R m]: whatever [m] does, an exception included, relates the state
    before to the state after by [R].  An invariant is the relation
    [λ s s', I s → I s'], so one set of lemmas serves invariants, monotone
    fields and history properties. *)
Definition Evolves {S A} (R : S → S → Prop) (m : prog S A) : Prop :=
  ∀ s, R s (m s).1.
Abbreviation Preserves I m := (Evolves (λ s s', I s → I s') m).

(** Normalise a run of a [prog] to the tests and updates it performs. *)
Ltac prog_simpl :=
  cbv beta iota zeta delta
    [mbind prog_bind result_bind gets modify mret prog_ret result_ret raise lift
     raise_if err_if fmap result_fmap is_ok fst snd].
Ltac prog_simpl_in H :=
  cbv beta iota zeta delta
    [mbind prog_bind result_bind gets modify mret prog_ret result_ret raise lift
     raise_if err_if fmap result_fmap is_ok fst snd] in H.
(** ... and split on the tests of the goal or of a hypothesis. *)
Ltac prog_cases := prog_simpl; repeat (case_match; simplify_eq/=; try done).
Ltac prog_inv H := prog_simpl_in H; repeat (case_match; simplify_eq/=; try done).

Section evolves.
Context {S : Type} (R : S → S → Prop) `{!PreOrder R}.

Lemma evolves_ret {A} (a : A) : Evolves R (mret a : prog S A).
Proof. intros s; simpl; reflexivity. Qed.
Lemma evolves_raise {A} k msg : Evolves R (raise k msg : prog S A).
Proof. intros s; simpl; reflexivity. Qed.
Lemma evolves_lift {A} (r : result A) : Evolves R (lift r : prog S A).
Proof. intros s; simpl; reflexivity. Qed.
Lemma evolves_gets {A} (f : S → A) : Evolves R (gets f).
Proof. intros s; simpl; reflexivity. Qed.
Lemma evolves_raise_if b k msg : Evolves R (raise_if b k msg : prog S unit).
Proof. destruct b; [apply evolves_raise | apply evolves_ret]. Qed.
Lemma evolves_modify (f : S → S) : (∀ s, R s (f s)) → Evolves R (modify f).
Proof. intros Hf s; apply Hf. Qed.
Lemma evolves_bind {A B} (m : prog S A) (k : A → prog S B) :
  Evolves R m → (∀ a, Evolves R (k a)) → Evolves R (m ≫= k).
Proof.
  intros Hm Hk s. specialize (Hm s). unfold mbind, prog_bind.
  destruct (m s) as [s' [a|e]]; simpl in *; [|done].
  transitivity s'; [done | apply Hk].
Qed.
Lemma evolves_for_each {A} (xs : list A) (body : A → prog S unit) :
  (∀ x, x ∈ xs → Evolves R (body x)) → Evolves R (for_each xs body).
Proof.
  induction xs as [|x xs IH]; intros Hb; simpl; [apply evolves_ret|].
  apply evolves_bind; [apply Hb; left | intros _; apply IH].
  intros y Hy; apply Hb; by right.
Qed.
Lemma evolves_try {A B} (m : prog S A) (h : result A → prog S B) :
  Evolves R m → (∀ r, Evolves R (h r)) → Evolves R (try_ m h).
Proof.
  intros Hm Hh s. specialize (Hm s). unfold try_. destruct (m s) as [s' r]. simpl in *.
  transitivity s'; [done | apply Hh].
Qed.
Lemma evolves_if {A} (b : bool) (m1 m2 : prog S A) :
  Evolves R m1 → Evolves R m2 → Evolves R (if b then m1 else m2).
Proof. by destruct b. Qed.
End evolves.

#[export] Instance preserves_preorder {S} (I : S → Prop) :
  PreOrder (λ s s' : S, I s → I s').
Proof. split; [by intros ? | intros ???; eauto]. Qed.

Create HintDb evolves.
#[export] Hint Resolve evolves_ret evolves_raise evolves_lift evolves_gets
  evolves_raise_if evolves_if : evolves.

(** Structural recursion over a loop keeps the first exception. *)
Lemma check_each_ok {A} (xs : list A) (body : A → result unit) :
  check_each xs body = Ok tt ↔ Forall (λ x, body x = Ok tt) xs.
Proof.
  induction xs as [|x xs IH]; simpl; [by split; constructor|].
  rewrite Forall_cons, <- IH. prog_simpl.
  destruct (body x) as [[]|]; naive_solver.
Qed.

Lemma map_result_ok {A B} (f : A → result B) xs ys :
  map_result f xs = Ok ys ↔ Forall2 (λ x y, f x = Ok y) xs ys.
Proof.
  revert ys. induction xs as [|x xs IH]; intros ys; simpl.
  - split; [intros [= <-]; constructor | by inversion 1].
  - split.
    + intros H. prog_inv H. constructor; [done | by apply IH].
    + inversion_clear 1 as [|? y ? ys' Hf Hall]. apply IH in Hall.
      prog_simpl. by rewrite Hf, Hall.
Qed.

Lemma map_result_elem {A B} (f : A → result B) xs ys y :
  map_result f xs = Ok ys → y ∈ ys ↔ ∃ x, x ∈ xs ∧ f x = Ok y.
Proof.
  intros H%map_result_ok. induction H as [|x z xs ys Hx _ IH].
  - split; [by intros ?%elem_of_nil|]. by intros (? & ?%elem_of_nil & _).
  - rewrite elem_of_cons, IH. split.
    + intros [->|(x' & ? & ?)]; [exists x|exists x']; (split; [|done]); [left|by right].
    + intros (x' & [->|Hin]%elem_of_cons & Hf); [left; congruence|right; by exists x'].
Qed.

Lemma map_result_err {A B} (f : A → result B) xs e :
  map_result f xs = Err e → ∃ x, x ∈ xs ∧ f x = Err e.
Proof.
  induction xs as [|x xs IH]; cbn [map_result]; [done|]. destruct (f x) as [y|e'] eqn:Hx; cbn [mbind result_bind].
  - destruct (map_result f xs); cbn [mbind result_bind]; [done|]. intros [= ->]. destruct IH as (z & ? & ?); [done|].
    exists z. split; [by right|done].
  - intros [= ->]. exists x. split; [by left|done].
Qed.
Lemma err_if_ok b k msg : err_if b k msg = Ok tt ↔ b = false.
Proof. by destruct b. Qed.

Lemma bind_ok {A B} (m : result A) (k : A → result B) b : (m ≫= k) = Ok b ↔ ∃ a, m = Ok a ∧ k a = Ok b.
Proof. destruct m; simpl; naive_solver. Qed.
Lemma bind_unit_ok {A} (m : result unit) (k : result A) a :
  (m ≫= λ _, k) = Ok a ↔ m = Ok tt ∧ k = Ok a.
Proof. destruct m as [[]|]; simpl; naive_solver. Qed.

(** ** Strings

    A Python [str] is a sequence of code points; the model covers the code
    points below 256, one [ascii] each. *)

(** [str.isspace] of one character below 256. *)
Definition is_space (c : ascii) : bool :=
  let n := N_of_ascii c in
  ((9 <=? n) && (n <=? 13) || (28 <=? n) && (n <=? 32) || (n =? 133) || (n =? 160))%N.

Fixpoint lstrip (s : string) : string :=
  match s with
  | EmptyString => EmptyString
  | String c s' => if is_space c then lstrip s' else s
  end.
Definition rstrip (s : string) : string := String.rev (lstrip (String.rev s)).
(** [str.strip()] *)
Definition strip (s : string) : string := rstrip (lstrip s).
(** [not s.strip()] *)
Definition blank (s : string) : bool := bool_decide (strip s = "").
(** [not s] *)
Definition is_empty_str (s : string) : bool := match s with EmptyString => true | _ => false end.
(** [any(c.isspace() for c in s)] *)
Fixpoint has_space (s : string) : bool :=
  match s with
  | EmptyString => false
  | String c s' => is_space c || has_space s'
  end.
Fixpoint str_forallb (p : ascii → bool) (s : string) : bool :=
  match s with
  | EmptyString => true
  | String c s' => p c && str_forallb p s'
  end.
(** [needle in s] for a one character needle. *)
Definition str_mem (c : ascii) (s : string) : bool :=
  negb (str_forallb (λ d, negb (Ascii.eqb c d)) s).
Fixpoint str_split_on (sep : ascii) (cur : string) (s : string) : list string :=
  match s with
  | EmptyString => [String.rev cur]
  | String c s' =>
      if Ascii.eqb c sep then String.rev cur :: str_split_on sep "" s'
      else str_split_on sep (String c cur) s'
  end.
(** [s.split(sep)] for a one character separator. *)
Definition str_split (sep : ascii) (s : string) : list string := str_split_on sep "" s.
(** [sep.join(xs)] *)
Fixpoint str_join (sep : string) (xs : list string) : string :=
  match xs with
  | [] => ""
  | [x] => x
  | x :: xs => x +:+ sep +:+ str_join sep xs
  end.
(** [s.startswith(p)] *)
Definition startswith (s p : string) : bool := String.prefix p s.

(** [needle in text] *)
Fixpoint str_contains (needle s : string) : bool :=
  startswith s needle || match s with EmptyString => false | String _ s => str_contains needle s end.
(** [str.lower()] *)
Definition latin_lower (c : ascii) : ascii :=
  let n := N_of_ascii c in
  if ((65 <=? n) && (n <=? 90) || (192 <=? n) && (n <=? 222) && negb (n =? 215))%N then ascii_of_N (n + 32) else c.
Fixpoint py_lower (s : string) : string :=
  match s with EmptyString => "" | String c s => String (latin_lower c) (py_lower s) end.

(** [s.encode()]: UTF-8, two bytes for the code points from 128 on; a [bytes]
    value is held as a [string] too, one byte per [ascii]. *)
Fixpoint utf8_encode (s : string) : string :=
  match s with
  | EmptyString => ""
  | String c s =>
      let n := N_of_ascii c in
      if (n <? 128)%N then String c (utf8_encode s)
      else String (ascii_of_N (192 + n / 64)) (String (ascii_of_N (128 + n mod 64)) (utf8_encode s))
  end.

(** The regular expressions [sha256:[0-9a-f]{64}\Z] and
    [(?:[0-9a-f]{40}|[0-9a-f]{64})\Z], applied with [fullmatch]. *)
Definition is_hex (c : ascii) : bool :=
  let n := N_of_ascii c in ((48 <=? n) && (n <=? 57) || (97 <=? n) && (n <=? 102))%N.
Definition hex_of_length (n : nat) (s : string) : bool :=
  (String.length s =? n)%nat && str_forallb is_hex s.
Definition is_digest (s : string) : bool :=
  startswith s "sha256:" && hex_of_length 64 (String.substring 7 (String.length s - 7) s).
Definition is_commit (s : string) : bool := hex_of_length 40 s || hex_of_length 64 s.

(** [sorted(xs)] of strings, [len(xs) == len(set(xs))], [set(xs) == set(ys)]. *)
Definition sorted_str (xs : list string) : list string := merge_sort String.le xs.
Definition all_unique (xs : list string) : bool :=
  (length xs =? length (remove_dups xs))%nat.
Definition str_set (xs : list string) : gset string := list_to_set xs.

Lemma str_app_nil_r s : s +:+ "" = s.
Proof. induction s as [|c s IH]; [done|]. change (String c (s +:+ "") = String c s). by rewrite IH. Qed.
Lemma str_app_assoc s t u : (s +:+ t) +:+ u = s +:+ t +:+ u.
Proof.
  induction s as [|c s IH]; [done|].
  change (String c ((s +:+ t) +:+ u) = String c (s +:+ t +:+ u)). by rewrite IH.
Qed.
Lemma str_app_cons c s t : String c s +:+ t = String c (s +:+ t).
Proof. done. Qed.
Lemma str_length_app s t : String.length (s +:+ t) = (String.length s + String.length t)%nat.
Proof. induction s as [|c s IH]; [done|]. rewrite str_app_cons. simpl. by rewrite IH. Qed.
Lemma str_rev_app s t : String.rev_app s t = String.rev s +:+ t.
Proof.
  unfold String.rev. revert t. induction s as [|c s IH]; intros t; simpl; [done|].
  rewrite IH, (IH (String c "")). by rewrite str_app_assoc.
Qed.
Lemma str_rev_cons c s : String.rev (String c s) = String.rev s +:+ String c "".
Proof. unfold String.rev at 1. simpl. apply str_rev_app. Qed.
Lemma str_rev_app_distr s t : String.rev (s +:+ t) = String.rev t +:+ String.rev s.
Proof.
  induction s as [|c s IH]; [by rewrite str_app_nil_r|]. by rewrite str_app_cons, !str_rev_cons, IH, str_app_assoc.
Qed.
Lemma str_rev_involutive s : String.rev (String.rev s) = s.
Proof. induction s as [|c s IH]; [done|]. rewrite str_rev_cons, str_rev_app_distr, IH. done. Qed.
Lemma str_app_inj_r s t u : s +:+ u = t +:+ u → s = t.
Proof.
  intros H. assert (String.length s = String.length t) as Hlen.
  { apply (f_equal String.length) in H. rewrite !str_length_app in H. lia. }
  revert t H Hlen. induction s as [|c s IH]; intros [|d t]; simpl; intros H Hlen; try lia; [done|].
  rewrite !str_app_cons in H. injection H as -> H. f_equal. apply IH; [done|lia].
Qed.
Lemma str_forallb_app p s t : str_forallb p (s +:+ t) = str_forallb p s && str_forallb p t.
Proof. induction s as [|c s IH]; [done|]. rewrite str_app_cons. simpl. by rewrite IH, andb_assoc. Qed.
Lemma str_forallb_weaken (p q : ascii → bool) s :
  (∀ c, p c = true → q c = true) → str_forallb p s = true → str_forallb q s = true.
Proof.
  intros Hpq. induction s as [|c s IH]; simpl; [done|].
  intros [Hc Hs]%andb_prop. by rewrite Hpq, IH.
Qed.

Lemma length_remove_dups `{EqDecision A} (xs : list A) :
  (length (remove_dups xs) ≤ length xs)%nat.
Proof. induction xs; simpl; [done|]. case_decide; simpl; lia. Qed.

Lemma remove_dups_NoDup_id `{EqDecision A} (xs : list A) : NoDup xs → remove_dups xs = xs.
Proof.
  induction 1 as [|x xs Hx _ IH]; simpl; [done|].
  case_decide as Hin; [|by rewrite IH].
  by destruct Hx.
Qed.

Lemma all_unique_NoDup xs : all_unique xs = true ↔ NoDup xs.
Proof.
  unfold all_unique. rewrite Nat.eqb_eq. split.
  - induction xs as [|x xs IH]; simpl; [constructor|].
    pose proof (length_remove_dups xs). case_decide as Hx; simpl; intros Hlen; [lia|].
    constructor; [|apply IH; lia]. intros Hin; apply Hx. by apply elem_of_remove_dups.
  - intros H. by rewrite remove_dups_NoDup_id.
Qed.

Lemma elem_of_str_set x xs : x ∈ str_set xs ↔ x ∈ xs.
Proof. apply elem_of_list_to_set. Qed.

Lemma size_str_set xs : size (str_set xs) = length (remove_dups xs).
Proof.
  assert (str_set xs = list_to_set (remove_dups xs)) as ->.
  { unfold str_set. apply set_eq. intros x. rewrite !elem_of_list_to_set. by rewrite elem_of_remove_dups. }
  apply size_list_to_set, NoDup_remove_dups.
Qed.
Lemma str_set_NoDup xs : length xs = size (str_set xs) → NoDup xs.
Proof. rewrite size_str_set. intros H. apply all_unique_NoDup. unfold all_unique. by apply Nat.eqb_eq. Qed.

Lemma sorted_str_perm xs : sorted_str xs ≡ₚ xs.
Proof. apply merge_sort_Permutation. Qed.

Lemma sorted_str_sorted xs : StronglySorted String.le (sorted_str xs).
Proof. apply StronglySorted_merge_sort; apply _. Qed.

Lemma sorted_str_Permutation xs ys : xs ≡ₚ ys → sorted_str xs = sorted_str ys.
Proof.
  intros Hp. apply (StronglySorted_unique String.le); try apply sorted_str_sorted.
  by rewrite !sorted_str_perm.
Qed.

Lemma elem_of_sorted_str x xs : x ∈ sorted_str xs ↔ x ∈ xs.
Proof. by rewrite sorted_str_perm. Qed.

(** Sorting records by a string key. *)
Definition key_le {A} (key : A → string) (x y : A) : Prop := String.le (key x) (key y).
#[export] Instance key_le_dec {A} (key : A → string) : RelDecision (key_le key).
Proof. intros x y. apply String.le_dec. Defined.
#[export] Instance key_le_trans {A} (key : A → string) : Transitive (key_le key).
Proof. intros x y z. unfold key_le. apply transitivity. Qed.
#[export] Instance key_le_total {A} (key : A → string) : Total (key_le key).
Proof. intros x y. apply (total String.le). Qed.
(** [sorted(xs, key=key)] *)
Definition sort_by {A} (key : A → string) (xs : list A) : list A := merge_sort (key_le key) xs.

Lemma sort_by_perm {A} (key : A → string) xs : sort_by key xs ≡ₚ xs.
Proof. apply merge_sort_Permutation. Qed.

Lemma elem_of_sort_by {A} (key : A → string) x xs : x ∈ sort_by key xs ↔ x ∈ xs.
Proof. by rewrite sort_by_perm. Qed.

(** With distinct keys the sorted list does not depend on the input order. *)
Lemma sort_by_Permutation {A} (key : A → string) xs ys :
  NoDup (key <$> xs) → xs ≡ₚ ys → sort_by key xs = sort_by key ys.
Proof.
  intros Hnd Hp.
  apply (StronglySorted_unique_strong (key_le key));
    [|apply StronglySorted_merge_sort; apply _ ..|by rewrite !sort_by_perm].
  intros x y Hx Hy Hxy Hyx.
  rewrite elem_of_sort_by in Hx. rewrite elem_of_sort_by, <- Hp in Hy.
  assert (key x = key y) as Hk by (by apply (anti_symm String.le)).
  clear Hxy Hyx Hp. induction xs as [|z xs IH]; [by apply elem_of_nil in Hx|].
  rewrite fmap_cons in Hnd. apply NoDup_cons in Hnd as [Hz Hnd].
  apply elem_of_cons in Hx as [->|Hx], Hy as [->|Hy]; try done.
  - destruct Hz. rewrite Hk. by apply list_elem_of_fmap_2.
  - destruct Hz. rewrite <- Hk. by apply list_elem_of_fmap_2.
  - by apply IH.
Qed.

Lemma sort_by_sorted {A} (key : A → string) xs : StronglySorted (key_le key) (sort_by key xs).
Proof. apply StronglySorted_merge_sort; apply _. Qed.

(** Where a new key lands in the sorted list. *)
Lemma sort_by_snoc {A} (key : A → string) `{!Inj (=) (=) key} xs w :
  ∃ l1 l2, sort_by key xs = l1 ++ l2 ∧ sort_by key (xs ++ [w]) = l1 ++ w :: l2.
Proof.
  destruct (list_elem_of_split (sort_by key (xs ++ [w])) w) as (l1 & l2 & Hl).
  { apply elem_of_sort_by, elem_of_app. right. by left. }
  exists l1, l2. split; [|done]. pose proof (sort_by_sorted key (xs ++ [w])) as Hs. rewrite Hl in Hs.
  apply (StronglySorted_unique_strong (key_le key)).
  - intros x y _ _ Hxy Hyx. apply (inj key). by apply (anti_symm String.le).
  - apply sort_by_sorted.
  - apply StronglySorted_app in Hs as (H12 & H1 & H2). apply StronglySorted_app. split_and!; [|done|].
    + intros x y Hx Hy. apply H12; [done|by right].
    + by inversion H2.
  - rewrite sort_by_perm. apply (Permutation_cons_inv (a:=w)).
    rewrite Permutation_middle, <- Hl, sort_by_perm. apply Permutation_cons_append.
Qed.

(** [next((x for x in xs if p(x)), None)] *)
Fixpoint find_first {A} (p : A → bool) (xs : list A) : option A :=
  match xs with
  | [] => None
  | x :: xs => if p x then Some x else find_first p xs
  end.

Lemma find_first_Some {A} (p : A → bool) xs x :
  find_first p xs = Some x → x ∈ xs ∧ p x = true.
Proof.
  induction xs as [|y xs IH]; simpl; [done|].
  destruct (p y) eqn:Hp; intros H; simplify_eq; [by split; [left|]|].
  destruct (IH H). split; [by right|done].
Qed.

Lemma find_first_None {A} (p : A → bool) xs :
  find_first p xs = None ↔ ∀ x, x ∈ xs → p x = false.
Proof.
  induction xs as [|y xs IH]; simpl.
  - split; [intros _ x Hx; by apply elem_of_nil in Hx | done].
  - destruct (p y) eqn:Hp.
    + split; [done|]. intros H. specialize (H y (list_elem_of_here _ _)). congruence.
    + rewrite IH. split.
      * intros H x Hx. apply elem_of_cons in Hx as [->|Hx]; auto.
      * intros H x Hx. apply H. by right.
Qed.

Lemma forallb_elem_of {A} (p : A → bool) xs :
  forallb p xs = true ↔ ∀ x, x ∈ xs → p x = true.
Proof. rewrite forallb_forall. split; intros H x Hx; apply H; by apply list_elem_of_In. Qed.

Lemma existsb_elem_of {A} (p : A → bool) xs :
  existsb p xs = true ↔ ∃ x, x ∈ xs ∧ p x = true.
Proof.
  rewrite existsb_exists. split; intros (x & Hx & Hp); exists x; split; try done;
    by apply list_elem_of_In.
Qed.

Lemma existsb_elem_of_false {A} (p : A → bool) xs :
  existsb p xs = false ↔ ∀ x, x ∈ xs → p x = false.
Proof.
  rewrite <- not_true_iff_false, existsb_elem_of. split.
  - intros H x Hx. destruct (p x) eqn:Hp; [|done]. destruct H; eauto.
  - intros H (x & Hx & Hp). rewrite H in Hp by done. done.
Qed.

Lemma elem_of_filter_bool {A} (p : A → bool) xs x : x ∈ List.filter p xs ↔ p x = true ∧ x ∈ xs.
Proof. rewrite !list_elem_of_In, filter_In. tauto. Qed.
Lemma filter_nil_iff {A} (p : A → bool) xs : List.filter p xs = [] ↔ ∀ x, x ∈ xs → p x = false.
Proof.
  split.
  - intros H x Hx. destruct (p x) eqn:Hp; [|done]. assert (x ∈ List.filter p xs) as Hin by (by apply elem_of_filter_bool).
    rewrite H in Hin. by apply elem_of_nil in Hin.
  - induction xs as [|x xs IH]; intros H; [done|]. simpl. rewrite H by (by left). apply IH. intros; apply H; by right.
Qed.
Lemma filter_id {A} (p : A → bool) xs : (∀ x, x ∈ xs → p x = true) → List.filter p xs = xs.
Proof.
  induction xs as [|x xs IH]; intros H; [done|]. simpl. rewrite H by (by left). f_equal. apply IH. intros; apply H; by right.
Qed.
Lemma StronglySorted_filter {A} (R : A → A → Prop) (p : A → bool) xs :
  StronglySorted R xs → StronglySorted R (List.filter p xs).
Proof.
  induction 1 as [|x xs _ IH Hx]; simpl; [constructor|]. destruct (p x); [|done]. constructor; [done|].
  rewrite Forall_forall in *. intros y [_ Hy]%elem_of_filter_bool. by apply Hx.
Qed.
Lemma elem_of_concat {A} (x : A) ls : x ∈ concat ls ↔ ∃ l, x ∈ l ∧ l ∈ ls.
Proof.
  induction ls as [|l ls IH]; simpl.
  - split; [by intros ?%elem_of_nil|]. by intros (? & _ & ?%elem_of_nil).
  - rewrite elem_of_app, IH. split.
    + intros [H|(l' & ? & ?)]; [exists l|exists l']; (split; [done|]); [left|by right].
    + intros (l' & H & [->|?]%elem_of_cons); [by left|right; by exists l'].
Qed.

Create Rewrite HintDb pylist.
#[export] Hint Rewrite @forallb_elem_of @existsb_elem_of @existsb_elem_of_false
  all_unique_NoDup elem_of_str_set elem_of_sorted_str : pylist.

(** [sum(f(x) for x in xs)] *)
Local Open Scope Z_scope.
Definition zsum {A} (f : A → Z) (xs : list A) : Z := foldr (λ x acc, f x + acc) 0 xs.

Lemma zsum_app {A} (f : A → Z) xs ys : zsum f (xs ++ ys) = zsum f xs + zsum f ys.
Proof. induction xs as [|x xs IH]; simpl; [done|]. rewrite IH. lia. Qed.
Lemma zsum_mono {A} (f g : A → Z) xs : (∀ x, x ∈ xs → f x <= g x) → zsum f xs <= zsum g xs.
Proof.
  induction xs as [|x xs IH]; simpl; intros H; [done|].
  pose proof (H x (list_elem_of_here _ _)). assert (zsum f xs <= zsum g xs); [|lia].
  apply IH. intros y Hy. apply H. by right.
Qed.
Lemma zsum_filter {A} (f : A → Z) (p : A → bool) xs :
  zsum f (List.filter p xs) = zsum (λ x, if p x then f x else 0) xs.
Proof. induction xs as [|x xs IH]; simpl; [done|]. case_match; simpl; lia. Qed.
Lemma zsum_update {A} (f g : A → Z) l1 l2 x y :
  (∀ z, z ∈ l1 ++ x :: l2 → g z <= f z) → g y <= f x →
  zsum g (l1 ++ y :: l2) <= zsum f (l1 ++ x :: l2).
Proof.
  intros H Hy. rewrite !zsum_app. simpl.
  assert (zsum g l1 <= zsum f l1) by (apply zsum_mono; intros z Hz; apply H; apply elem_of_app; by left).
  assert (zsum g l2 <= zsum f l2); [|lia].
  apply zsum_mono; intros z Hz; apply H; apply elem_of_app; right; by right.
Qed.
