(* ===== verification/Orders.v ===== *)
(** * Python's order on tuples

    Tuples compare component by component; here the triples of a number, a text and a
    number that the program sorts by. *)
From S2P Require Import Prelude.
Local Open Scope Z_scope.

Lemma compare_refl s : String.compare s s = Eq.
Proof.
  pose proof (String.compare_antisym s s) as H. destruct (String.compare s s); simpl in H; congruence.
Qed.
Lemma compare_lt s t : String.compare s t = Lt ↔ String.le s t ∧ s ≠ t.
Proof.
  unfold String.le, String.leb. destruct (String.compare s t) eqn:Hc.
  - apply String.compare_eq_iff in Hc. naive_solver.
  - split; [intros _|done]. split; [done|]. intros ->. by rewrite compare_refl in Hc.
  - split; [done|by intros []].
Qed.
Lemma compare_gt s t : String.compare s t = Gt ↔ String.le t s ∧ s ≠ t.
Proof.
  pose proof (compare_lt t s) as H. rewrite String.compare_antisym in H. destruct (String.compare s t); simpl in *; naive_solver.
Qed.

Definition triple : Type := Z * string * Z.
Definition lex_leb (a b : triple) : bool :=
  match a.1.1 ?= b.1.1 with
  | Lt => true
  | Gt => false
  | Eq => match String.compare a.1.2 b.1.2 with Lt => true | Gt => false | Eq => a.2 <=? b.2 end
  end.
Lemma lex_leb_spec a b : lex_leb a b = true ↔
  a.1.1 < b.1.1 ∨
  (a.1.1 = b.1.1 ∧ ((String.le a.1.2 b.1.2 ∧ a.1.2 ≠ b.1.2) ∨ (a.1.2 = b.1.2 ∧ a.2 <= b.2))).
Proof.
  unfold lex_leb. destruct (Z.compare_spec a.1.1 b.1.1) as [Ht|Ht|Ht].
  - destruct (String.compare _ _) eqn:Hc.
    + apply String.compare_eq_iff in Hc. rewrite Z.leb_le. naive_solver lia.
    + apply compare_lt in Hc. naive_solver lia.
    + apply compare_gt in Hc as [Hc Hne]. split; [done|].
      intros [?|(_ & [[Hle _]|[? _]])]; [lia| |done]. destruct Hne. by apply (anti_symm String.le).
  - split; [by left|done].
  - split; [done|]. intros [?|[? _]]; lia.
Qed.
Lemma lex_leb_total a b : lex_leb a b = true ∨ lex_leb b a = true.
Proof.
  rewrite !lex_leb_spec. destruct (Z.lt_trichotomy a.1.1 b.1.1) as [?|[?|?]]; [by auto| |by auto].
  destruct (decide (a.1.2 = b.1.2)) as [Hw|Hw].
  - destruct (Z.le_ge_cases a.2 b.2); [left|right]; right; split; auto.
  - destruct (total String.le a.1.2 b.1.2); [left|right]; right; split; auto.
Qed.
Lemma lex_leb_trans a b c : lex_leb a b = true → lex_leb b c = true → lex_leb a c = true.
Proof.
  rewrite !lex_leb_spec. intros [?|[Hab Wab]] [?|[Hbc Wbc]]; [left; lia..|]. right. split; [lia|].
  destruct Wab as [[L1 N1]|[E1 S1]], Wbc as [[L2 N2]|[E2 S2]].
  - left. split; [by trans b.1.2|]. intros E. destruct N1. rewrite <- E in L2. by apply (anti_symm String.le).
  - left. by rewrite <- E2.
  - left. by rewrite E1.
  - right. split; [congruence|lia].
Qed.
Lemma lex_leb_antisym a b : lex_leb a b = true → lex_leb b a = true → a = b.
Proof.
  destruct a as [[x s] n], b as [[y t] m]. rewrite !lex_leb_spec. simpl.
  intros [?|[? [[L1 N1]|[E1 ?]]]] [?|[? [[L2 N2]|[E2 ?]]]]; try lia; try congruence.
  - destruct N1. by apply (anti_symm String.le).
  - subst. f_equal. lia.
Qed.

(** Sorting by such a key. *)
Section sorting.
Context {A : Type} (key : A → triple).
Definition lex_le (x y : A) : Prop := lex_leb (key x) (key y) = true.
#[export] Instance lex_le_dec : RelDecision lex_le.
Proof. intros x y. unfold lex_le. apply _. Defined.
#[export] Instance lex_le_trans : Transitive lex_le.
Proof. intros x y z. apply lex_leb_trans. Qed.
#[export] Instance lex_le_total : Total lex_le.
Proof. intros x y. apply lex_leb_total. Qed.
Definition lex_sort (xs : list A) : list A := merge_sort lex_le xs.
Lemma lex_sort_perm xs : lex_sort xs ≡ₚ xs.
Proof. apply merge_sort_Permutation. Qed.
Lemma lex_sort_sorted xs : StronglySorted lex_le (lex_sort xs).
Proof. apply StronglySorted_merge_sort; apply _. Qed.
(** An element with a strictly smaller key than one in a prefix is in the prefix. *)
Lemma lex_sort_prefix xs n x y : x ∈ xs → y ∈ take n (lex_sort xs) → lex_le x y → key x ≠ key y → x ∈ take n (lex_sort xs).
Proof.
  intros Hx Hy Hle Hne. rewrite <- (lex_sort_perm xs) in Hx. rewrite <- (take_drop n (lex_sort xs)) in Hx.
  apply elem_of_app in Hx as [?|Hx]; [done|]. pose proof (lex_sort_sorted xs) as Hs. rewrite <- (take_drop n (lex_sort xs)) in Hs.
  apply StronglySorted_app in Hs as (Hs & _). destruct Hne. apply lex_leb_antisym; [done|]. exact (Hs y x Hy Hx).
Qed.
End sorting.
