(* ===== verification/PyDict.v ===== *)
(** * Python dictionaries

    A [dict] remembers insertion order: assigning to a present key keeps its
    position, deleting and re-inserting moves it to the end.  The program folds
    over [.values()] (float sums, [next(...)]), so the order is part of the
    model.  Lookup, assignment and deletion are the stdpp operational classes:
    [d !! k], [<[k:=v]> d] and [delete k d]. *)
From S2P Require Import Prelude.

Record dict (K V : Type) := Dict { items : list (K * V) }.
Arguments Dict {K V} _.
Arguments items {K V} _.

#[export] Instance dict_eq_dec `{EqDecision K, EqDecision V} : EqDecision (dict K V).
Proof. solve_decision. Defined.
#[export] Instance dict_empty {K V} : Empty (dict K V) := Dict [].

Section dict.
Context {K : Type} `{!EqDecision K} {V : Type}.
Implicit Types (d : dict K V) (k : K) (v : V) (l : list (K * V)).

Fixpoint alist_get (k : K) l : option V :=
  match l with
  | [] => None
  | (k', v) :: l => if decide (k' = k) then Some v else alist_get k l
  end.
Fixpoint alist_set (k : K) (v : V) l : list (K * V) :=
  match l with
  | [] => [(k, v)]
  | (k', v') :: l => if decide (k' = k) then (k', v) :: l else (k', v') :: alist_set k v l
  end.
Fixpoint alist_del (k : K) l : list (K * V) :=
  match l with
  | [] => []
  | (k', v') :: l => if decide (k' = k) then l else (k', v') :: alist_del k l
  end.

#[export] Instance dict_lookup : Lookup K V (dict K V) := λ k d, alist_get k (items d).
#[export] Instance dict_insert : Insert K V (dict K V) := λ k v d, Dict (alist_set k v (items d)).
#[export] Instance dict_delete : Delete K (dict K V) := λ k d, Dict (alist_del k (items d)).
#[export] Instance dict_size : Size (dict K V) := λ d, length (items d).

(** [k in d], [d.keys()], [d.values()] *)
Definition has_key (k : K) (d : dict K V) : bool := bool_decide (is_Some (d !! k)).
Definition keys (d : dict K V) : list K := (items d).*1.
Definition vals (d : dict K V) : list V := (items d).*2.

(** What Python guarantees of a dictionary: no key occurs twice. *)
Definition dict_wf (d : dict K V) : Prop := NoDup (keys d).

Lemma dict_lookup_empty k : (∅ : dict K V) !! k = None.
Proof. done. Qed.

Lemma dict_lookup_insert_eq d k v : <[k:=v]> d !! k = Some v.
Proof.
  destruct d as [l]; unfold lookup, dict_lookup, insert, dict_insert; simpl.
  induction l as [|[k' v'] l IH]; simpl; [by rewrite decide_True|].
  case_decide; simpl; [by rewrite decide_True | by rewrite decide_False].
Qed.

Lemma dict_lookup_insert_ne d k k' v : k ≠ k' → <[k:=v]> d !! k' = d !! k'.
Proof.
  intros Hne. destruct d as [l]; unfold lookup, dict_lookup, insert, dict_insert; simpl.
  induction l as [|[j w] l IH]; simpl; [by rewrite decide_False|].
  case_decide as Hj; simpl.
  - subst j. by rewrite !decide_False.
  - case_decide; done.
Qed.

Lemma dict_lookup_insert d k k' v :
  <[k:=v]> d !! k' = if decide (k = k') then Some v else d !! k'.
Proof.
  case_decide; [subst; apply dict_lookup_insert_eq | by apply dict_lookup_insert_ne].
Qed.

Lemma dict_lookup_Some_elem d k v : d !! k = Some v → (k, v) ∈ items d.
Proof.
  destruct d as [l]; unfold lookup, dict_lookup; simpl.
  induction l as [|[j w] l IH]; simpl; [done|].
  case_decide as Hj; [intros [= ->]; subst; left | intros H; right; auto].
Qed.

Lemma dict_elem_lookup d k v : dict_wf d → (k, v) ∈ items d → d !! k = Some v.
Proof.
  destruct d as [l]; unfold dict_wf, keys, lookup, dict_lookup; simpl.
  induction l as [|[j w] l IH]; simpl; intros Hnd Hin; [by apply elem_of_nil in Hin|].
  apply NoDup_cons in Hnd as [Hj Hnd]. apply elem_of_cons in Hin as [[= -> ->]|Hin].
  - by rewrite decide_True.
  - rewrite decide_False; [by apply IH|]. intros ->. destruct Hj.
    apply list_elem_of_fmap. by exists (k, v).
Qed.

Lemma elem_of_items d k v : dict_wf d → (k, v) ∈ items d ↔ d !! k = Some v.
Proof. intros; split; [by apply dict_elem_lookup | apply dict_lookup_Some_elem]. Qed.

Lemma elem_of_vals d v : dict_wf d → v ∈ vals d ↔ ∃ k, d !! k = Some v.
Proof.
  intros Hwf. unfold vals. rewrite list_elem_of_fmap. split.
  - intros ([k w] & -> & Hin). exists k. by apply dict_elem_lookup.
  - intros (k & Hk). exists (k, v). split; [done|]. by apply dict_lookup_Some_elem.
Qed.

Lemma dict_lookup_vals d k v : d !! k = Some v → v ∈ vals d.
Proof. intros H%dict_lookup_Some_elem. apply list_elem_of_fmap. by exists (k, v). Qed.

Lemma elem_of_keys d k : k ∈ keys d ↔ is_Some (d !! k).
Proof.
  unfold keys. rewrite list_elem_of_fmap. split.
  - intros ([j w] & -> & Hin). simpl. destruct d as [l].
    unfold lookup, dict_lookup; simpl in *. induction l as [|[i u] l IH];
      [by apply elem_of_nil in Hin|]. simpl. case_decide; [by eauto|].
    apply elem_of_cons in Hin as [[= -> ->]|Hin]; [done|auto].
  - intros [v Hv%dict_lookup_Some_elem]. by exists (k, v).
Qed.

Lemma has_key_true d k : has_key k d = true ↔ is_Some (d !! k).
Proof. unfold has_key. apply bool_decide_eq_true. Qed.
Lemma has_key_false d k : has_key k d = false ↔ d !! k = None.
Proof. unfold has_key. rewrite bool_decide_eq_false, eq_None_not_Some. done. Qed.

Lemma keys_insert_present d k v : is_Some (d !! k) → keys (<[k:=v]> d) = keys d.
Proof.
  destruct d as [l]; unfold keys, insert, dict_insert, lookup, dict_lookup; simpl.
  induction l as [|[j w] l IH]; simpl; [by intros [? ?]|].
  case_decide; simpl; [done|]. intros Hg. f_equal; auto.
Qed.

Lemma items_insert_fresh d k v : d !! k = None → items (<[k:=v]> d) = items d ++ [(k, v)].
Proof.
  destruct d as [l]; unfold insert, dict_insert, lookup, dict_lookup; simpl.
  induction l as [|[j w] l IH]; simpl; [done|].
  case_decide; simpl; [done|]. intros Hg. f_equal; auto.
Qed.

Lemma keys_insert_fresh d k v : d !! k = None → keys (<[k:=v]> d) = keys d ++ [k].
Proof. intros H. unfold keys. by rewrite items_insert_fresh, fmap_app. Qed.

Lemma vals_insert_fresh d k v : d !! k = None → vals (<[k:=v]> d) = vals d ++ [v].
Proof. intros H. unfold vals. by rewrite items_insert_fresh, fmap_app. Qed.

(** Assigning to a present key replaces the value where it stands. *)
Lemma items_insert_split d k v w :
  d !! k = Some w →
  ∃ l1 l2, items d = l1 ++ (k, w) :: l2 ∧ items (<[k:=v]> d) = l1 ++ (k, v) :: l2
           ∧ items (delete k d) = l1 ++ l2.
Proof.
  destruct d as [l]; unfold insert, dict_insert, lookup, dict_lookup, delete, dict_delete; simpl.
  induction l as [|[j u] l IH]; simpl; [done|].
  case_decide as Hj; simpl.
  - intros [= ->]. subst j. by exists [], l.
  - intros Hg. destruct (IH Hg) as (l1 & l2 & H1 & H2 & H3).
    exists ((j, u) :: l1), l2. rewrite H2, H3. by rewrite H1 at 1.
Qed.

Lemma dict_wf_empty : dict_wf (∅ : dict K V).
Proof. constructor. Qed.

Lemma dict_wf_insert d k v : dict_wf d → dict_wf (<[k:=v]> d).
Proof.
  unfold dict_wf. intros Hwf. destruct (d !! k) as [w|] eqn:Hk.
  - rewrite keys_insert_present; [done|]. by rewrite Hk.
  - rewrite keys_insert_fresh by done. apply NoDup_app. split_and!; [done| |by apply NoDup_singleton].
    intros j Hj Hin. apply list_elem_of_singleton in Hin as ->.
    apply elem_of_keys in Hj as [w Hw]. congruence.
Qed.

Lemma dict_delete_None d k : d !! k = None → delete k d = d.
Proof.
  destruct d as [l]; unfold delete, dict_delete, lookup, dict_lookup; simpl.
  intros H. f_equal. induction l as [|[j w] l IH]; simpl in *; [done|].
  case_decide as Hj; [done|]. f_equal; auto.
Qed.

Lemma dict_delete_insert_fresh d k v : d !! k = None → delete k (<[k:=v]> d) = d.
Proof.
  destruct d as [l]; unfold delete, dict_delete, insert, dict_insert, lookup, dict_lookup; simpl.
  intros H. f_equal. induction l as [|[j w] l IH]; simpl in *; [by rewrite decide_True|].
  case_decide as Hj; [done|]. simpl. rewrite decide_False by done. f_equal; auto.
Qed.

(** Distinct values of [f] tell the keys apart. *)
Lemma vals_NoDup_inj {B} (f : V → B) d i j v w :
  NoDup (f <$> vals d) → d !! i = Some v → d !! j = Some w → f v = f w → i = j.
Proof.
  intros Hnd Hi%dict_lookup_Some_elem Hj%dict_lookup_Some_elem. unfold vals in Hnd. clear -Hnd Hi Hj.
  induction (items d) as [|[k u] l IH]; [by apply elem_of_nil in Hi|]. intros E.
  rewrite !fmap_cons in Hnd. apply NoDup_cons in Hnd as [Hk Hnd]. simpl in Hk.
  assert (∀ k' u', (k', u') ∈ l → f u ≠ f u') as Hne.
  { intros k' u' Hin Eu. apply Hk. rewrite Eu. apply list_elem_of_fmap_2. exact (list_elem_of_fmap_2 snd l (k', u') Hin). }
  apply elem_of_cons in Hi as [[= -> ->]|Hi], Hj as [[= -> ->]|Hj]; [done| | |by apply IH].
  - by apply Hne in Hj.
  - by apply Hne in Hi.
Qed.

Lemma dict_insert_insert d k v w : <[k:=v]> (<[k:=w]> d) = <[k:=v]> d.
Proof.
  destruct d as [l]; unfold insert, dict_insert; simpl. f_equal.
  induction l as [|[j u] l IH]; simpl; [by rewrite decide_True|].
  case_decide as Hj; simpl; [by rewrite decide_True|]. rewrite decide_False by done. by rewrite IH.
Qed.

Lemma dict_wf_delete d k : dict_wf d → dict_wf (delete k d).
Proof.
  unfold dict_wf, keys. intros Hwf. destruct (d !! k) as [w|] eqn:Hk.
  - destruct (items_insert_split d k w w Hk) as (l1 & l2 & H1 & _ & ->).
    rewrite H1, fmap_app, fmap_cons in Hwf. rewrite fmap_app.
    apply NoDup_app in Hwf as (? & Hd & Hnd). apply NoDup_cons in Hnd as [? ?].
    apply NoDup_app. split_and!; [done| |done]. intros x Hx Hin. apply (Hd x Hx). by right.
  - by rewrite dict_delete_None.
Qed.

Lemma dict_lookup_delete_ne d k k' : k ≠ k' → delete k d !! k' = d !! k'.
Proof.
  intros Hne. destruct d as [l]; unfold lookup, dict_lookup, delete, dict_delete; simpl.
  induction l as [|[j w] l IH]; simpl; [done|].
  case_decide as Hj; simpl; [subst; by rewrite decide_False | by case_decide].
Qed.

Lemma dict_lookup_delete_eq d k : dict_wf d → delete k d !! k = None.
Proof.
  destruct d as [l]; unfold dict_wf, keys, lookup, dict_lookup, delete, dict_delete; simpl.
  induction l as [|[j w] l IH]; simpl; intros Hnd; [done|].
  apply NoDup_cons in Hnd as [Hj Hnd]. case_decide as Hjk; simpl.
  - subst j. destruct (alist_get k l) eqn:Hg; [|done]. destruct Hj.
    change (alist_get k l) with (Dict l !! k) in Hg.
    apply dict_lookup_Some_elem in Hg. apply list_elem_of_fmap. by eexists (_, _).
  - rewrite decide_False by done. auto.
Qed.

Lemma dict_lookup_delete d k k' :
  dict_wf d → delete k d !! k' = if decide (k = k') then None else d !! k'.
Proof.
  intros Hwf. case_decide; [subst; by apply dict_lookup_delete_eq | by apply dict_lookup_delete_ne].
Qed.
(** [{key(x): x for x in xs}] *)
Definition dict_by (key : V → K) (xs : list V) : dict K V := foldl (λ d x, <[key x := x]> d) ∅ xs.

Lemma foldl_insert_lookup (key : V → K) xs d k :
  NoDup (key <$> xs) →
  foldl (λ d x, <[key x := x]> d) d xs !! k =
    match find_first (λ x, bool_decide (key x = k)) xs with Some x => Some x | None => d !! k end.
Proof.
  revert d. induction xs as [|x xs IH]; intros d Hnd; [done|].
  rewrite fmap_cons in Hnd. apply NoDup_cons in Hnd as [Hx Hnd].
  cbn [foldl find_first]. rewrite IH by done. case_bool_decide as Hk.
  - assert (find_first (λ y, bool_decide (key y = k)) xs = None) as ->.
    { apply find_first_None. intros y Hy. apply bool_decide_eq_false. intros Hky. destruct Hx.
      rewrite Hk, <- Hky. by apply list_elem_of_fmap_2. }
    subst k. by rewrite dict_lookup_insert_eq.
  - by rewrite dict_lookup_insert_ne.
Qed.
Lemma dict_by_lookup (key : V → K) xs k x :
  NoDup (key <$> xs) → dict_by key xs !! k = Some x ↔ x ∈ xs ∧ key x = k.
Proof.
  intros Hnd. unfold dict_by. rewrite foldl_insert_lookup by done. split.
  - destruct (find_first _ xs) as [y|] eqn:Hf; [|done]. intros [= ->].
    apply find_first_Some in Hf as [? Hk]. by apply bool_decide_eq_true in Hk.
  - intros [Hx <-]. destruct (find_first _ xs) as [y|] eqn:Hf.
    + apply find_first_Some in Hf as [Hy Hk]. apply bool_decide_eq_true in Hk. f_equal.
      clear -Hnd Hx Hy Hk. induction xs as [|z xs IH]; [by apply elem_of_nil in Hx|].
      rewrite fmap_cons in Hnd. apply NoDup_cons in Hnd as [Hz Hnd].
      apply elem_of_cons in Hx as [->|Hx], Hy as [->|Hy]; [done| | |by apply IH].
      * destruct Hz. rewrite <- Hk. by apply list_elem_of_fmap_2.
      * destruct Hz. rewrite Hk. by apply list_elem_of_fmap_2.
    + rewrite find_first_None in Hf. specialize (Hf x Hx). by apply bool_decide_eq_false in Hf.
Qed.
(** [{f(x): g(x) for x in xs}] with distinct keys *)
Lemma foldl_insert_map_lookup {A} (f : A → K) (g : A → V) xs d x :
  NoDup (f <$> xs) → x ∈ xs → foldl (λ d x, <[f x := g x]> d) d xs !! f x = Some (g x).
Proof.
  revert d. induction xs as [|y xs IH]; intros d Hnd Hx; [by apply elem_of_nil in Hx|].
  rewrite fmap_cons in Hnd. apply NoDup_cons in Hnd as [Hy Hnd]. cbn [foldl].
  apply elem_of_cons in Hx as [->|Hx]; [|by apply IH].
  assert (∀ d, d !! f y = Some (g y) → foldl (λ d x, <[f x := g x]> d) d xs !! f y = Some (g y)) as Hkeep;
    [|apply Hkeep, dict_lookup_insert_eq].
  clear IH Hnd. induction xs as [|z xs IH]; intros d' Hd; [done|]. cbn [foldl].
  rewrite fmap_cons in Hy. apply not_elem_of_cons in Hy as [Hz Hy].
  apply (IH Hy). by rewrite dict_lookup_insert_ne.
Qed.
Lemma dict_wf_foldl (key : V → K) xs d : dict_wf d → dict_wf (foldl (λ d x, <[key x := x]> d) d xs).
Proof. revert d. induction xs as [|x xs IH]; intros d H; simpl; [done|]. by apply IH, dict_wf_insert. Qed.

(** Lookups do not depend on the insertion order. *)
Lemma elem_of_keys_foldl (key : V → K) xs d k :
  k ∈ keys (foldl (λ d x, <[key x := x]> d) d xs) ↔ k ∈ keys d ∨ k ∈ key <$> xs.
Proof.
  revert d. induction xs as [|x xs IH]; intros d; cbn [foldl]; [by rewrite elem_of_nil; intuition|].
  rewrite IH, fmap_cons, elem_of_cons, !elem_of_keys, dict_lookup_insert. case_decide; naive_solver.
Qed.
(** As many entries as elements: the keys are distinct. *)
Lemma dict_by_length (key : V → K) xs : length (keys (dict_by key xs)) = length xs ↔ NoDup (key <$> xs).
Proof.
  assert (∀ k, k ∈ keys (dict_by key xs) ↔ k ∈ key <$> xs) as Hk.
  { intros k. unfold dict_by. rewrite elem_of_keys_foldl. split; [by intros [?%elem_of_nil|?]|by right]. }
  assert (NoDup (keys (dict_by key xs))) as Hnd by (apply dict_wf_foldl, dict_wf_empty).
  split; intros H.
  - apply NoDup_ListNoDup. apply (List.NoDup_incl_NoDup (l:=keys (dict_by key xs))).
    + by apply NoDup_ListNoDup.
    + by rewrite length_fmap, H.
    + intros k. rewrite <- !list_elem_of_In. apply Hk.
  - rewrite <- (length_fmap key xs). apply Permutation_length, NoDup_Permutation; done.
Qed.
Lemma dict_lookup_perm d d' k : dict_wf d → items d ≡ₚ items d' → d !! k = d' !! k.
Proof.
  intros Hwf Hp. assert (dict_wf d') as Hwf' by (unfold dict_wf, keys in *; by rewrite <- Hp).
  destruct (d !! k) as [v|] eqn:Hd.
  - symmetry. apply dict_elem_lookup; [done|]. rewrite <- Hp. by apply dict_lookup_Some_elem.
  - destruct (d' !! k) as [v|] eqn:Hd'; [|done]. apply dict_lookup_Some_elem in Hd'.
    rewrite <- Hp in Hd'. apply dict_elem_lookup in Hd'; [congruence|done].
Qed.
End dict.

Create HintDb dict.
#[export] Hint Resolve dict_wf_empty dict_wf_insert dict_wf_delete : dict.
Create Rewrite HintDb dict.
#[export] Hint Rewrite @dict_lookup_insert_eq @dict_lookup_empty : dict.

(** Case analysis on the lookups of updated dictionaries in the context. *)
Ltac dict_cases :=
  repeat match goal with
  | H : context [ <[?k:=?v]> ?d !! ?k ] |- _ => rewrite (dict_lookup_insert_eq d k v) in H
  | |- context [ <[?k:=?v]> ?d !! ?k ] => rewrite (dict_lookup_insert_eq d k v)
  | H : context [ <[?k:=?v]> ?d !! ?k' ] |- _ =>
      rewrite (dict_lookup_insert d k k' v) in H; case_decide; simplify_eq/=
  | |- context [ <[?k:=?v]> ?d !! ?k' ] =>
      rewrite (dict_lookup_insert d k k' v); case_decide; simplify_eq/=
  end.
