(* ===== verification/PyFloat.v ===== *)
(** * Python floats

    A Python [float] is an IEEE 754 binary64.  Every finite binary64 is an
    integer multiple of [2^-1074], the least subnormal, so the model holds a
    finite float as that integer: comparisons, [min] and [max] are the ones of
    [Z], and [a + b] and [a - b] are the exact sum and difference rounded to
    the nearest integer with a 53-bit significand, ties to even ([rnd]).  Sums
    below [2^53] units are exact, which is binary64's gradual underflow.  The sign of
    zero is not modelled.  The exponent of a rounded integer is not bounded: where
    the program can leave the range of binary64 the model asks [in_range] and the
    result is an [xfloat], a finite float, an infinity or [nan]. *)
From S2P Require Import Prelude.
Local Open Scope Z_scope.

Abbreviation float := Z.

(** The integer multiple of [2^e] nearest to [z], ties to even. *)
Definition rne (e z : Z) : Z :=
  let m := z / 2 ^ e in
  let r := z mod 2 ^ e in
  let h := 2 ^ (e - 1) in
  (if r <? h then m else if h <? r then m + 1 else if Z.even m then m else m + 1) * 2 ^ e.

Definition rnd_nonneg (z : Z) : Z :=
  let e := Z.log2 z - 52 in
  if e <=? 0 then z else rne e z.
Definition rnd (z : Z) : float := if z <? 0 then - rnd_nonneg (- z) else rnd_nonneg z.

Definition fadd (a b : float) : float := rnd (a + b).
Definition fsub (a b : float) : float := rnd (a - b).

(** [1.0], [float(n)] and the literal [n/d]. *)
Definition f_unit : float := 2 ^ 1074.
Definition f_of_Z (n : Z) : float := rnd (n * f_unit).
Definition f_ratio (n d : Z) : float :=
  let q := n * (4 * f_unit) / d in
  rnd (if n * (4 * f_unit) mod d =? 0 then q else Z.lor q 1) / 4.

(** The largest finite float. *)
Definition f_max : float := (2 ^ 53 - 1) * 2 ^ (971 + 1074).
Definition in_range (x : float) : bool := Z.abs x <=? f_max.
(** A float that may be an infinity or [nan]. *)
Inductive xfloat := Fin (x : float) | PosInf | NegInf | NaN.
#[export] Instance xfloat_eq_dec : EqDecision xfloat.
Proof. solve_decision. Defined.
(** The binary64 result of an operation whose rounded result is [x]. *)
Definition to_range (x : float) : xfloat :=
  if in_range x then Fin x else if x <? 0 then NegInf else PosInf.
(** [math.isfinite] *)
Definition finite (x : xfloat) : option float := match x with Fin x => Some x | _ => None end.

Arguments rne : simpl never.
Arguments rnd : simpl never.
Arguments fadd : simpl never.
Arguments fsub : simpl never.
Arguments f_unit : simpl never.
Arguments f_max : simpl never.
Arguments in_range : simpl never.
Arguments to_range : simpl never.
Arguments f_of_Z : simpl never.
Arguments f_ratio : simpl never.

Declare Scope float_scope.
Delimit Scope float_scope with float.
Infix "⊕" := fadd (at level 50, left associativity) : float_scope.
Infix "⊖" := fsub (at level 50, left associativity) : float_scope.

(** 0.1 + 0.2 is not 0.3, and addition does not reassociate. *)
Example f_point_three :
  fadd (f_ratio 1 10) (f_ratio 2 10) ≠ f_ratio 3 10.
Proof. vm_compute. discriminate. Qed.
Example f_not_assoc :
  fadd (fadd (f_ratio 1 10) (f_ratio 2 10)) (f_ratio 3 10)
  ≠ fadd (fadd (f_ratio 3 10) (f_ratio 2 10)) (f_ratio 1 10).
Proof. vm_compute. discriminate. Qed.

(** ** Rounding is monotone *)
Lemma rne_multiple e z : 0 <= e → ∃ k, rne e z = k * 2 ^ e.
Proof. intros. unfold rne. eauto. Qed.

Lemma rne_lower e z k : 0 < e → k * 2 ^ e <= z → k * 2 ^ e <= rne e z.
Proof.
  intros He Hk. assert (0 < 2 ^ e) as Hp by (apply Z.pow_pos_nonneg; lia).
  assert (k <= z / 2 ^ e) by (apply Z.div_le_lower_bound; lia).
  unfold rne. repeat case_match; nia.
Qed.

Lemma rne_upper e z k : 0 < e → z <= k * 2 ^ e → rne e z <= k * 2 ^ e.
Proof.
  intros He Hk. assert (0 < 2 ^ e) as Hp by (apply Z.pow_pos_nonneg; lia).
  pose proof (Z.div_mod z (2 ^ e) ltac:(lia)) as Hdm.
  pose proof (Z.mod_pos_bound z (2 ^ e) Hp) as Hm.
  assert (0 < 2 ^ (e - 1)) as Hh by (apply Z.pow_pos_nonneg; lia).
  unfold rne. set (m := z / 2 ^ e) in *. set (r := z mod 2 ^ e) in *.
  assert (m <= k) by nia.
  destruct (Z.eq_dec m k) as [->|].
  - assert (r = 0) as -> by nia. rewrite (proj2 (Z.ltb_lt 0 _)) by lia. lia.
  - repeat case_match; nia.
Qed.

Lemma rne_mono e x y : 0 < e → x <= y → rne e x <= rne e y.
Proof.
  intros He Hxy. assert (0 < 2 ^ e) as Hp by (apply Z.pow_pos_nonneg; lia).
  assert (x / 2 ^ e <= y / 2 ^ e) by (apply Z.div_le_mono; lia).
  pose proof (Z.div_mod x (2 ^ e) ltac:(lia)) as Hx.
  pose proof (Z.div_mod y (2 ^ e) ltac:(lia)) as Hy.
  unfold rne. apply Z.mul_le_mono_nonneg_r; [lia|].
  set (m := x / 2 ^ e) in *. set (n := y / 2 ^ e) in *.
  destruct (Z.eq_dec m n) as [Hmn|]; [|repeat case_match; lia].
  rewrite <- Hmn in *. assert (x mod 2 ^ e <= y mod 2 ^ e) by lia.
  repeat case_match; try lia.
Qed.

Lemma rnd_nonneg_mono x y : 0 <= x → x <= y → rnd_nonneg x <= rnd_nonneg y.
Proof.
  intros H0 Hxy. unfold rnd_nonneg.
  pose proof (Z.log2_le_mono x y Hxy) as Hlog.
  set (ex := Z.log2 x - 52) in *. set (ey := Z.log2 y - 52) in *.
  destruct (Z.leb_spec ex 0), (Z.leb_spec ey 0); [done| |lia|].
  - (* x exact, y rounded: x stays below the power of two under y *)
    destruct (Z.eq_dec y 0) as [->|]; [unfold ey in *; simpl in *; lia|].
    pose proof (Z.log2_spec y ltac:(lia)) as [Hy _].
    pose proof (Z.log2_spec_alt y ltac:(lia)).
    destruct (Z.eq_dec x 0) as [->|];
      [apply (rne_lower ey y 0); lia|].
    pose proof (Z.log2_spec x ltac:(lia)) as [_ Hx].
    transitivity (2 ^ Z.log2 y).
    + transitivity (2 ^ (Z.succ (Z.log2 x))); [lia|]. apply Z.pow_le_mono_r; lia.
    + replace (2 ^ Z.log2 y) with (2 ^ 52 * 2 ^ ey)
        by (rewrite <- Z.pow_add_r by lia; f_equal; lia).
      apply rne_lower; [lia|]. rewrite <- Z.pow_add_r by lia.
      replace (52 + ey) with (Z.log2 y) by lia. lia.
  - destruct (Z.eq_dec ex ey) as [->|]; [by apply rne_mono|].
    assert (0 < x) by (destruct (Z.eq_dec x 0) as [->|]; [unfold ex in *; simpl in *; lia|lia]).
    pose proof (Z.log2_spec y ltac:(lia)) as [Hy _].
    pose proof (Z.log2_spec x ltac:(lia)) as [_ Hx].
    transitivity (2 ^ 53 * 2 ^ ex).
    + apply rne_upper; [lia|]. rewrite <- Z.pow_add_r by lia.
      replace (53 + ex) with (Z.succ (Z.log2 x)) by lia. lia.
    + transitivity (2 ^ 52 * 2 ^ ey).
      * rewrite <- !Z.pow_add_r by lia. apply Z.pow_le_mono_r; lia.
      * apply rne_lower; [lia|]. rewrite <- Z.pow_add_r by lia.
        replace (52 + ey) with (Z.log2 y) by lia. lia.
Qed.

Lemma rnd_nonneg_0 : rnd_nonneg 0 = 0.
Proof. reflexivity. Qed.

Lemma rnd_nonneg_nonneg z : 0 <= z → 0 <= rnd_nonneg z.
Proof. intros. rewrite <- rnd_nonneg_0. by apply rnd_nonneg_mono. Qed.

Lemma rnd_mono x y : x <= y → rnd x <= rnd y.
Proof.
  intros Hxy. unfold rnd. destruct (Z.ltb_spec x 0), (Z.ltb_spec y 0); try lia.
  - pose proof (rnd_nonneg_mono (- y) (- x)). lia.
  - pose proof (rnd_nonneg_nonneg (- x)). pose proof (rnd_nonneg_nonneg y). lia.
  - by apply rnd_nonneg_mono.
Qed.

Lemma rnd_0 : rnd 0 = 0.
Proof. reflexivity. Qed.

Lemma rnd_nonneg_of z : 0 <= z → 0 <= rnd z.
Proof. intros. rewrite <- rnd_0. by apply rnd_mono. Qed.

Lemma fadd_mono a b c d : a <= b → c <= d → fadd a c <= fadd b d.
Proof. intros. apply rnd_mono. lia. Qed.

Lemma fsub_mono a b c d : a <= b → d <= c → fsub a c <= fsub b d.
Proof. intros. apply rnd_mono. lia. Qed.

Lemma fadd_nonneg a b : 0 <= a → 0 <= b → 0 <= fadd a b.
Proof. intros. apply rnd_nonneg_of. lia. Qed.

Lemma fadd_comm a b : fadd a b = fadd b a.
Proof. unfold fadd. by rewrite Z.add_comm. Qed.

(** A float is a representable value: adding zero or taking nothing away
    leaves it alone. *)
Definition is_float (z : Z) : Prop := rnd z = z.
Lemma fadd_0_l z : is_float z → fadd 0 z = z.
Proof. done. Qed.

Create HintDb float.
#[export] Hint Resolve fadd_mono fsub_mono fadd_nonneg rnd_mono rnd_nonneg_of : float.
