(* ===== verification/PyStats.v ===== *)
(** * Correctly rounded division, square root and statistics

    Python's [*], [/], [math.sqrt], [statistics.fmean] and [statistics.stdev] on
    finite floats.  Each is the exact real result rounded once to the nearest
    float, ties to even, except [fmean], which rounds the exact sum and then the
    quotient.  A real [n / d] of float units is rounded by [rnd_q n d].

    [math.fsum] raises when a partial sum leaves the range of binary64, even where
    the whole sum would not, and [statistics.stdev] raises when its result does. *)
From S2P Require Import Prelude PyFloat.
Local Open Scope Z_scope.

(** The multiple of [2^e] nearest to [n / d], ties to even. *)
Definition rne_q (e n d : Z) : Z :=
  let m := n / (d * 2 ^ e) in
  (match 2 * (n mod (d * 2 ^ e)) ?= d * 2 ^ e with
   | Lt => m | Gt => m + 1 | Eq => if Z.even m then m else m + 1 end) * 2 ^ e.
(** The exponent of the last place of a number with integer part [v]. *)
Definition last_place (v : Z) : Z := Z.max 0 (Z.log2 v - 52).
Definition rnd_frac (n d : Z) : Z := rne_q (last_place (n / d)) n d.
Definition rnd_q (n d : Z) : float := if n <? 0 then - rnd_frac (- n) d else rnd_frac n d.

Definition fmul (a b : float) : float := rnd_q (a * b) f_unit.
(** [a / b] for [b > 0] *)
Definition fdiv (a b : float) : float := rnd_q (a * f_unit) b.
(** The float nearest to the square root of [n / d] units squared. *)
Definition fsqrt_q (n d : Z) : float :=
  let e := last_place (Z.sqrt (n / d)) in
  let q := d * 4 ^ e in
  let m := Z.sqrt (n / q) in
  (match 4 * n ?= (4 * m * m + 4 * m + 1) * q with
   | Lt => m | Gt => m + 1 | Eq => if Z.even m then m else m + 1 end) * 2 ^ e.
Definition fsqrt_Z (n : Z) : float := fsqrt_q (n * f_unit * f_unit) 1.

(** [x + y] and what its rounding lost; the larger operand comes first. *)
Definition two_sum (x y : float) : float * float :=
  let '(x, y) := if Z.abs x <? Z.abs y then (y, x) else (x, y) in
  let hi := fadd x y in (hi, fsub y (fsub hi x)).
(** [math.fsum] keeps the sum so far as a list of partial sums that do not overlap;
    a value runs through them and becomes the last.  [None]: a sum left the range. *)
Fixpoint run_through (x : float) (partials : list float) : option (list float * float) :=
  match partials with
  | [] => Some ([], x)
  | y :: partials =>
      let '(hi, lo) := two_sum x y in
      if in_range hi then
        '(rest, last) ← run_through hi partials;
        Some (if lo =? 0 then rest else lo :: rest, last)
      else None
  end.
Fixpoint partial_sums (xs partials : list float) : option (list float) :=
  match xs with
  | [] => Some partials
  | x :: xs =>
      '(rest, last) ← run_through x partials;
      partial_sums xs (if last =? 0 then rest else rest ++ [last])
  end.
Definition exact_sum (xs : list float) : Z := zsum (λ x, x) xs.
(** The partial sums add up to the exact sum, which is rounded once. *)
Definition fsum (xs : list float) : result float :=
  match partial_sums xs [] with
  | None => Err (Exn OverflowError "intermediate overflow in fsum")
  | Some _ => Ok (rnd (exact_sum xs))
  end.
(** [statistics.fmean], of at least one value. *)
Definition fmean (xs : list float) : result float :=
  total ← fsum xs; mret (rnd_q total (Z.of_nat (length xs))).
(** [statistics.stdev], of at least two values: the exact sample variance under
    one correctly rounded square root (CPython from 3.11 on). *)
Definition sample_deviation (xs : list float) : float :=
  let n := Z.of_nat (length xs) in
  fsqrt_q (n * zsum (λ x, x * x) xs - exact_sum xs * exact_sum xs) (n * (n - 1)).
Definition fstdev (xs : list float) : result float :=
  let deviation := sample_deviation xs in
  if in_range deviation then Ok deviation
  else Err (Exn OverflowError "integer division result too large for a float").

Arguments rne_q : simpl never.
Arguments rnd_frac : simpl never.
Arguments rnd_q : simpl never.
Arguments fmul : simpl never.
Arguments fdiv : simpl never.
Arguments fsqrt_q : simpl never.
Arguments fsqrt_Z : simpl never.
Arguments fsum : simpl never.
Arguments fmean : simpl never.
Arguments sample_deviation : simpl never.
Arguments fstdev : simpl never.

(** ** Rounding a quotient *)
Lemma last_place_nonneg v : 0 <= last_place v.
Proof. unfold last_place. lia. Qed.
#[local] Hint Resolve last_place_nonneg : core.

Lemma scaled_pos e d : 0 <= e → 0 < d → 0 < d * 2 ^ e.
Proof. intros. assert (0 < 2 ^ e) by (apply Z.pow_pos_nonneg; lia). nia. Qed.

Lemma rne_q_lower e n d k : 0 <= e → 0 < d → k * 2 ^ e * d <= n → k * 2 ^ e <= rne_q e n d.
Proof.
  intros He Hd Hk. assert (0 < 2 ^ e) by (apply Z.pow_pos_nonneg; lia). pose proof (scaled_pos e d He Hd).
  assert (k <= n / (d * 2 ^ e)) by (apply Z.div_le_lower_bound; nia).
  unfold rne_q. repeat case_match; nia.
Qed.
Lemma rne_q_upper e n d k : 0 <= e → 0 < d → n <= k * 2 ^ e * d → rne_q e n d <= k * 2 ^ e.
Proof.
  intros He Hd Hk. assert (0 < 2 ^ e) by (apply Z.pow_pos_nonneg; lia). pose proof (scaled_pos e d He Hd) as Hp.
  pose proof (Z.div_mod n (d * 2 ^ e) ltac:(lia)) as Hdm.
  pose proof (Z.mod_pos_bound n (d * 2 ^ e) Hp) as Hm.
  unfold rne_q. set (m := n / (d * 2 ^ e)) in *. set (r := n mod (d * 2 ^ e)) in *.
  assert (m <= k) by nia. destruct (Z.eq_dec m k) as [->|].
  - assert (r = 0) as -> by nia. rewrite Z.mul_0_r. rewrite (proj2 (Z.compare_lt_iff 0 _)) by lia. lia.
  - repeat case_match; nia.
Qed.
Lemma rne_q_mono e x y d : 0 <= e → 0 < d → x <= y → rne_q e x d <= rne_q e y d.
Proof.
  intros He Hd Hxy. assert (0 < 2 ^ e) by (apply Z.pow_pos_nonneg; lia). pose proof (scaled_pos e d He Hd) as Hp.
  assert (x / (d * 2 ^ e) <= y / (d * 2 ^ e)) by (apply Z.div_le_mono; lia).
  pose proof (Z.div_mod x (d * 2 ^ e) ltac:(lia)) as Hx.
  pose proof (Z.div_mod y (d * 2 ^ e) ltac:(lia)) as Hy.
  unfold rne_q. apply Z.mul_le_mono_nonneg_r; [lia|].
  set (m := x / (d * 2 ^ e)) in *. set (k := y / (d * 2 ^ e)) in *.
  destruct (Z.eq_dec m k) as [Hmk|]; [|repeat case_match; lia].
  rewrite <- Hmk in *. assert (x mod (d * 2 ^ e) <= y mod (d * 2 ^ e)) by lia.
  repeat case_match; try lia; rewrite ?Z.compare_eq_iff, ?Z.compare_lt_iff, ?Z.compare_gt_iff in *; lia.
Qed.

Lemma rnd_frac_mono x y d : 0 < d → 0 <= x → x <= y → rnd_frac x d <= rnd_frac y d.
Proof.
  intros Hd H0 Hxy. unfold rnd_frac.
  assert (0 <= x / d) as Hx0 by (apply Z.div_pos; lia).
  assert (x / d <= y / d) as Hxy' by (apply Z.div_le_mono; lia).
  pose proof (Z.log2_le_mono _ _ Hxy') as Hlog.
  destruct (Z.eq_dec (last_place (x / d)) (last_place (y / d))) as [->|Hne]; [by apply rne_q_mono|].
  (* y lies in a higher binade: a power of two separates them *)
  assert (last_place (y / d) = Z.log2 (y / d) - 52 ∧ Z.log2 (x / d) < Z.log2 (y / d)
    ∧ last_place (x / d) <= last_place (y / d)) as (Hy & Hlt & Hle) by (unfold last_place in *; lia).
  pose proof (last_place_nonneg (x / d)) as Hxp. assert (0 < last_place (y / d)) as Hpos by lia.
  pose proof (Z.log2_nonneg (x / d)).
  assert (0 < y / d) as Hyp. { destruct (Z.leb_spec (y / d) 0); [|done]. rewrite (Z.log2_nonpos (y / d)) in Hlt by done. lia. }
  pose proof (Z.log2_spec _ Hyp) as [Hyl _].
  transitivity (2 ^ Z.log2 (y / d)).
  - replace (2 ^ Z.log2 (y / d)) with (2 ^ (Z.log2 (y / d) - last_place (x / d)) * 2 ^ last_place (x / d))
      by (rewrite <- Z.pow_add_r by lia; f_equal; lia).
    apply rne_q_upper; [done..|]. rewrite <- Z.pow_add_r by lia.
    replace (Z.log2 (y / d) - last_place (x / d) + last_place (x / d)) with (Z.log2 (y / d)) by lia.
    assert (x / d < 2 ^ Z.log2 (y / d)).
    { destruct (Z.eq_dec (x / d) 0) as [->|]; [apply Z.pow_pos_nonneg; lia|]. apply Z.log2_lt_pow2; lia. }
    pose proof (Z.div_mod x d ltac:(lia)). pose proof (Z.mod_pos_bound x d Hd). nia.
  - replace (2 ^ Z.log2 (y / d)) with (2 ^ 52 * 2 ^ last_place (y / d))
      by (rewrite Hy, <- Z.pow_add_r by lia; f_equal; lia).
    apply rne_q_lower; [done..|]. rewrite <- Z.pow_add_r by lia.
    replace (52 + last_place (y / d)) with (Z.log2 (y / d)) by lia.
    pose proof (Z.div_mod y d ltac:(lia)). pose proof (Z.mod_pos_bound y d Hd). nia.
Qed.

(** A quotient that is a whole number of units is rounded as a sum is. *)
Lemma rnd_frac_exact z d : 0 < d → 0 <= z → rnd_frac (z * d) d = rnd_nonneg z.
Proof.
  intros Hd Hz. unfold rnd_frac, rnd_nonneg. rewrite Z.div_mul by lia. unfold last_place.
  assert (∀ e, 0 <= e → z * d / (d * 2 ^ e) = z / 2 ^ e ∧ z * d mod (d * 2 ^ e) = d * (z mod 2 ^ e)) as Hq.
  { intros e He. assert (0 < 2 ^ e) by (apply Z.pow_pos_nonneg; lia). rewrite (Z.mul_comm z d).
    split; [apply Z.div_mul_cancel_l; lia|apply Z.mul_mod_distr_l; lia]. }
  destruct (Z.leb_spec (Z.log2 z - 52) 0).
  - rewrite Z.max_l by lia. unfold rne_q. destruct (Hq 0 ltac:(lia)) as [-> ->].
    rewrite Z.pow_0_r, Z.div_1_r, Z.mod_1_r, !Z.mul_1_r, !Z.mul_0_r. by rewrite (proj2 (Z.compare_lt_iff 0 d)).
  - rewrite Z.max_r by lia. set (e := Z.log2 z - 52) in *. unfold rne_q, rne. destruct (Hq e ltac:(lia)) as [-> ->].
    assert (2 ^ e = 2 * 2 ^ (e - 1)) as He by (rewrite <- Z.pow_succ_r by lia; f_equal; lia).
    assert (0 < 2 ^ (e - 1)) by (apply Z.pow_pos_nonneg; lia). f_equal.
    set (r := z mod 2 ^ e). rewrite He. set (h := 2 ^ (e - 1)) in *.
    destruct (Z.ltb_spec r h); [rewrite (proj2 (Z.compare_lt_iff _ _)) by nia; done|].
    destruct (Z.ltb_spec h r); [rewrite (proj2 (Z.compare_gt_iff _ _)) by nia; done|].
    rewrite (proj2 (Z.compare_eq_iff _ _)) by nia. done.
Qed.

Lemma rnd_frac_nonneg n d : 0 < d → 0 <= n → 0 <= rnd_frac n d.
Proof.
  intros. transitivity (rnd_frac (0 * d) d); [by rewrite rnd_frac_exact|]. by apply rnd_frac_mono.
Qed.
Lemma rnd_q_mono x y d : 0 < d → x <= y → rnd_q x d <= rnd_q y d.
Proof.
  intros Hd Hxy. unfold rnd_q. destruct (Z.ltb_spec x 0), (Z.ltb_spec y 0); try lia.
  - pose proof (rnd_frac_mono (- y) (- x) d). lia.
  - pose proof (rnd_frac_nonneg (- x) d). pose proof (rnd_frac_nonneg y d). lia.
  - by apply rnd_frac_mono.
Qed.
Lemma rnd_q_exact z d : 0 < d → rnd_q (z * d) d = rnd z.
Proof.
  intros Hd. unfold rnd_q, rnd. destruct (Z.ltb_spec z 0), (Z.ltb_spec (z * d) 0); try nia.
  - rewrite <- Z.mul_opp_l, rnd_frac_exact by lia. done.
  - by rewrite rnd_frac_exact.
Qed.
Lemma rnd_q_nonneg n d : 0 < d → 0 <= n → 0 <= rnd_q n d.
Proof. intros. transitivity (rnd_q (0 * d) d); [by rewrite rnd_q_exact|]. by apply rnd_q_mono. Qed.

(** ** Results of rounding are floats *)
Lemma rne_exact e k : 0 < e → rne e (k * 2 ^ e) = k * 2 ^ e.
Proof. intros He. apply Z.le_antisymm; [by apply rne_upper|by apply rne_lower]. Qed.
Lemma rnd_nonneg_representable m e : 0 <= e → 0 <= m <= 2 ^ 53 → rnd_nonneg (m * 2 ^ e) = m * 2 ^ e.
Proof.
  intros He [H0 Hm]. unfold rnd_nonneg. destruct (Z.leb_spec (Z.log2 (m * 2 ^ e) - 52) 0) as [|Hpos]; [done|].
  assert (0 < m) as Hm0. { destruct (Z.eq_dec m 0) as [->|]; [simpl in Hpos; lia|lia]. }
  rewrite Z.log2_mul_pow2 in * by lia. set (k := Z.log2 m) in *.
  assert (k <= 53) as Hk by (unfold k; rewrite <- (Z.log2_pow2 53) by lia; by apply Z.log2_le_mono).
  destruct (Z.eq_dec k 53) as [Hk53|].
  - assert (m = 2 ^ 53) as ->.
    { pose proof (Z.log2_spec m Hm0) as [? _]. fold k in H. rewrite Hk53 in H. lia. }
    replace (2 ^ 53 * 2 ^ e) with (2 ^ 52 * 2 ^ (e + k - 52)) by (rewrite <- !Z.pow_add_r by lia; f_equal; lia).
    apply rne_exact. lia.
  - replace (m * 2 ^ e) with (m * 2 ^ (52 - k) * 2 ^ (e + k - 52))
      by (rewrite <- Z.mul_assoc, <- Z.pow_add_r by lia; do 2 f_equal; lia).
    apply rne_exact. lia.
Qed.
Lemma rnd_frac_representable n d : 0 < d → 0 <= n → ∃ m e, 0 <= e ∧ 0 <= m <= 2 ^ 53 ∧ rnd_frac n d = m * 2 ^ e.
Proof.
  intros Hd Hn. pose proof (rnd_frac_nonneg n d Hd Hn) as H0. unfold rnd_frac in *. set (e := last_place (n / d)) in *.
  assert (rne_q e n d <= 2 ^ 53 * 2 ^ e) as H1.
  { apply rne_q_upper; [apply last_place_nonneg|done|].
    assert (n / d < 2 ^ 53 * 2 ^ e) as Hlt; [|pose proof (Z.div_mod n d ltac:(lia)); pose proof (Z.mod_pos_bound n d Hd); nia].
    pose proof (last_place_nonneg (n / d)). rewrite <- Z.pow_add_r by lia. destruct (Z.leb_spec (n / d) 0).
    - pose proof (Z.pow_pos_nonneg 2 (53 + e)). lia.
    - pose proof (Z.log2_spec (n / d) ltac:(done)) as [_ Hs]. eapply Z.lt_le_trans; [exact Hs|].
      apply Z.pow_le_mono_r; unfold e, last_place; lia. }
  unfold rne_q in *. eexists _, e. split; [apply last_place_nonneg|]. split; [|reflexivity].
  assert (0 < 2 ^ e) by (apply Z.pow_pos_nonneg; [lia|apply last_place_nonneg]). nia.
Qed.
Lemma rnd_q_float n d : 0 < d → is_float (rnd_q n d).
Proof.
  intros Hd. unfold rnd_q, is_float, rnd. destruct (Z.ltb_spec n 0).
  - destruct (rnd_frac_representable (- n) d) as (m & e & He & Hm & ->); [lia..|].
    assert (0 <= m * 2 ^ e) by (pose proof (Z.pow_pos_nonneg 2 e); nia).
    destruct (Z.ltb_spec (- (m * 2 ^ e)) 0).
    + by rewrite Z.opp_involutive, rnd_nonneg_representable.
    + assert (m * 2 ^ e = 0) as -> by lia. done.
  - destruct (rnd_frac_representable n d) as (m & e & He & Hm & ->); [lia..|].
    assert (0 <= m * 2 ^ e) by (pose proof (Z.pow_pos_nonneg 2 e); nia).
    destruct (Z.ltb_spec (m * 2 ^ e) 0); [lia|]. by apply rnd_nonneg_representable.
Qed.
Lemma rnd_float z : is_float (rnd z).
Proof. rewrite <- (rnd_q_exact z 1) by lia. by apply rnd_q_float. Qed.

Lemma fsqrt_q_nonneg n d : 0 <= fsqrt_q n d.
Proof.
  unfold fsqrt_q. set (e := last_place _). assert (0 < 2 ^ e) by (apply Z.pow_pos_nonneg; [lia|apply last_place_nonneg]).
  pose proof (Z.sqrt_nonneg (n / (d * 4 ^ e))). repeat case_match; nia.
Qed.
Lemma fsqrt_Z_pos n : 0 < n → 0 < fsqrt_Z n.
Proof.
  intros Hn. unfold fsqrt_Z, fsqrt_q. rewrite Z.div_1_r. set (s := Z.sqrt (n * f_unit * f_unit)).
  set (e := last_place s). assert (0 < f_unit) as Hu by done.
  assert (0 < s) as Hs. { apply Z.sqrt_pos. nia. }
  assert (0 < 2 ^ e) by (apply Z.pow_pos_nonneg; [lia|apply last_place_nonneg]).
  rewrite Z.mul_1_l. assert (0 < Z.sqrt (n * f_unit * f_unit / 4 ^ e)) as Hm; [|repeat case_match; nia].
  apply Z.sqrt_pos. pose proof (last_place_nonneg s). assert (4 ^ e = 2 ^ e * 2 ^ e) as Hf.
  { rewrite <- Z.pow_mul_l. done. }
  assert (2 ^ e <= s) as Hle.
  { transitivity (2 ^ Z.log2 s); [apply Z.pow_le_mono_r; unfold e, last_place; pose proof (Z.log2_nonneg s); lia|by apply Z.log2_spec]. }
  assert (s * s <= n * f_unit * f_unit) as Hss by (apply Z.sqrt_spec; nia).
  apply Z.div_str_pos. rewrite Hf. nia.
Qed.
Lemma fmul_nonneg a b : 0 <= a → 0 <= b → 0 <= fmul a b.
Proof. intros. apply rnd_q_nonneg; [done|nia]. Qed.
Lemma fdiv_nonneg a b : 0 <= a → 0 < b → 0 <= fdiv a b.
Proof. intros Ha Hb. apply rnd_q_nonneg; [done|]. assert (0 < f_unit) by done. nia. Qed.

(** ** The mean *)
Lemma exact_sum_bounds lo hi xs : (∀ x, x ∈ xs → lo <= x <= hi) →
  Z.of_nat (length xs) * lo <= exact_sum xs <= Z.of_nat (length xs) * hi.
Proof.
  unfold exact_sum. induction xs as [|x xs IH]; intros H; [simpl; lia|]. cbn [zsum foldr length].
  pose proof (H x ltac:(by left)). specialize (IH (λ y Hy, H y ltac:(by right))). unfold zsum in IH. lia.
Qed.
Lemma fsum_err xs e : fsum xs = Err e → exn_kind e = OverflowError.
Proof. unfold fsum. case_match; [done|]. by intros [= <-]. Qed.
(** The mean of [n] copies of a bound. *)
Definition copies_mean (n : nat) (x : float) : float := rnd_q (rnd (Z.of_nat n * x)) (Z.of_nat n).
(** A mean is a float between the means of as many copies of the bounds, ... *)
Lemma fmean_bounds lo hi xs m : xs ≠ [] → (∀ x, x ∈ xs → lo <= x <= hi) → fmean xs = Ok m →
  is_float m ∧ copies_mean (length xs) lo <= m <= copies_mean (length xs) hi.
Proof.
  intros Hne H. unfold fmean, fsum, copies_mean. pose proof (exact_sum_bounds lo hi xs H) as [H1 H2].
  assert (0 < Z.of_nat (length xs)) by (destruct xs; [done|simpl; lia]).
  case_match; [|done]. intros [= <-]. split; [by apply rnd_q_float|]. split; apply rnd_q_mono, rnd_mono; lia.
Qed.
(** ... and that of copies is the value itself when their sum is a float. *)
Lemma copies_mean_exact x n : (0 < n)%nat → is_float x → is_float (Z.of_nat n * x) → copies_mean n x = x.
Proof. intros Hn Hx Hs. unfold copies_mean. rewrite Hs, Z.mul_comm, rnd_q_exact by lia. done. Qed.
Lemma sample_deviation_nonneg xs : 0 <= sample_deviation xs.
Proof. apply fsqrt_q_nonneg. Qed.

Example fmean_of_tenths : fmean [f_ratio 3 1000; f_ratio 3 1000; f_ratio 3 1000] = Ok (f_ratio 3 1000 + 2 ^ 1013).
Proof. vm_compute. reflexivity. Qed.
(** 1e308 three times: the sum leaves the range, so does a sum that comes back, but
    not one that alternates. *)
Definition e308 : float := rnd (10 ^ 308 * f_unit).
Example fsum_overflows : map (is_ok ∘ fsum) [[e308; e308; e308]; [e308; e308; - e308]; [e308; - e308; e308]] = [false; false; true].
Proof. vm_compute. reflexivity. Qed.
Example fstdev_overflows : map (is_ok ∘ fstdev) [[f_max; - f_max]; [e308; - e308]] = [false; true].
Proof. vm_compute. reflexivity. Qed.
