(* ===== verification/Canonical.v ===== *)
(** * Canonical JSON and content digests

    [arena/models.py] [canonical_bytes] and [canonical_digest]: every immutable
    record of the arena is identified by the sha256 of its key-sorted JSON.
    JSON values, [json.dumps(sort_keys=True, separators=(",", ":"),
    ensure_ascii=False)] and the digest are executable; the hash function, the
    shortest decimal rendering of a float and pydantic's rendering of a
    datetime come with the [Platform]. *)
From S2P Require Import Prelude PyDict PyFloat.
From stdpp Require Import pretty.
From Stdlib Require Import Ascii.

(** ** Datetimes: microseconds since the epoch; aware values are held by their
    UTC instant, so comparing two aware values compares the instants. *)
Inductive datetime := Naive (us : Z) | Aware (us : Z).
#[export] Instance datetime_eq_dec : EqDecision datetime.
Proof. solve_decision. Defined.

Definition is_aware (t : datetime) : bool := match t with Aware _ => true | Naive _ => false end.

(** [a < b] raises [TypeError] between a naive and an aware value. *)
Definition dt_lt (a b : datetime) : result bool :=
  match a, b with
  | Aware x, Aware y | Naive x, Naive y => Ok (x <? y)%Z
  | _, _ => Err (Exn TypeError "can't compare offset-naive and offset-aware datetimes")
  end.

(** ** JSON *)
Inductive json :=
  | JNull
  | JBool (b : bool)
  | JInt (z : Z)
  | JFloat (f : float)
  | JStr (s : string)
  | JArr (xs : list json)
  | JObj (ms : list (string * json)).

(** What the interpreter and its libraries supply: [hashlib.sha256(data).hexdigest()],
    [float.__repr__] and pydantic's [mode="json"] datetime text. *)
Class Platform := {
  sha256_hex : string → string;
  float_repr : float → string;
  datetime_iso : datetime → string;
  sha256_hex_shape s : hex_of_length 64 (sha256_hex s) = true;
}.

Definition quote_char : ascii := ascii_of_nat 34.
Definition hex_digit (n : N) : ascii :=
  ascii_of_N (if (n <? 10)%N then n + 48 else n + 87).
Definition escape_char (c : ascii) : string :=
  let n := N_of_ascii c in
  if (n =? 34)%N then String "\" (String quote_char "")
  else if (n =? 92)%N then "\\"
  else if (n =? 8)%N then "\b"
  else if (n =? 9)%N then "\t"
  else if (n =? 10)%N then "\n"
  else if (n =? 12)%N then "\f"
  else if (n =? 13)%N then "\r"
  else if (n <? 32)%N then "\u00" +:+ String (hex_digit (n / 16)) (String (hex_digit (n mod 16)) "")
  else String c "".
Fixpoint escape (s : string) : string :=
  match s with
  | EmptyString => ""
  | String c s => escape_char c +:+ escape s
  end.
Definition dumps_str (s : string) : string :=
  String quote_char (escape s +:+ String quote_char "").

Fixpoint sort_keys (j : json) : json :=
  match j with
  | JArr xs => JArr (map sort_keys xs)
  | JObj ms => JObj (sort_by fst (map (λ m, (m.1, sort_keys m.2)) ms))
  | _ => j
  end.

Section digest.
Context {PF : Platform}.

(** [json.dumps(j, separators=(",", ":"), ensure_ascii=False)] *)
Fixpoint dumps (j : json) : string :=
  match j with
  | JNull => "null"
  | JBool true => "true"
  | JBool false => "false"
  | JInt z => pretty z
  | JFloat f => float_repr f
  | JStr s => dumps_str s
  | JArr xs => "[" +:+ str_join "," (map dumps xs) +:+ "]"
  | JObj ms =>
      "{" +:+ str_join "," (map (λ m, dumps_str m.1 +:+ ":" +:+ dumps m.2) ms) +:+ "}"
  end.

Definition canonical_bytes (value : json) : string := utf8_encode (dumps (sort_keys value)).
Definition canonical_digest (value : json) : string :=
  "sha256:" +:+ sha256_hex (canonical_bytes value).
End digest.

(** ** Objects up to the order of their members *)
Inductive json_eqv : json → json → Prop :=
  | eqv_same j : json_eqv j j
  | eqv_arr xs ys : Forall2 json_eqv xs ys → json_eqv (JArr xs) (JArr ys)
  | eqv_obj ms ms' ns :
      NoDup ms.*1 → ms ≡ₚ ms' →
      Forall2 (λ m n, m.1 = n.1 ∧ json_eqv m.2 n.2) ms' ns →
      json_eqv (JObj ms) (JObj ns).

Lemma sort_keys_eqv j k : json_eqv j k → sort_keys j = sort_keys k.
Proof.
  revert j k. fix IH 3. intros j k [l|xs ys Hall|ms ms' ns Hnd Hp Hall]; simpl; [done|..].
  - f_equal. induction Hall as [|x y xs ys Hxy _ IHl]; simpl; [done|].
    by rewrite (IH x y Hxy), IHl.
  - f_equal. transitivity (sort_by fst (map (λ m, (m.1, sort_keys m.2)) ms')).
    + apply sort_by_Permutation.
      * rewrite <- list_fmap_compose. exact Hnd.
      * by rewrite Hp.
    + f_equal. clear Hp Hnd. induction Hall as [|[a m] [b n] ms' ns [Hab Hmn] _ IHl]; simpl in *; [done|].
      by rewrite Hab, (IH m n Hmn), IHl.
Qed.

#[export] Instance json_eq_dec : EqDecision json.
Proof.
  refine (fix go (j k : json) :=
    let dec_json : EqDecision json := @go in
    match j, k with
    | JNull, JNull => left eq_refl
    | JBool a, JBool b => cast_if (decide (a = b))
    | JInt a, JInt b => cast_if (decide (a = b))
    | JFloat a, JFloat b => cast_if (decide (a = b))
    | JStr a, JStr b => cast_if (decide (a = b))
    | JArr a, JArr b => cast_if (decide (a = b))
    | JObj a, JObj b => cast_if (decide (a = b))
    | _, _ => right _
    end); clear dec_json go; abstract congruence.
Defined.

(** ** Dumping models: [model_dump(mode="json")] lists the fields in order;
    [exclude_none=True] leaves out the fields that are [None]. *)
Definition field (k : string) (j : json) : list (string * json) := [(k, j)].
Definition field_opt {A} (exclude_none : bool) (k : string) (f : A → json) (o : option A) :
    list (string * json) :=
  match o with
  | Some a => [(k, f a)]
  | None => if exclude_none then [] else [(k, JNull)]
  end.
Definition jstrs (xs : list string) : json := JArr (map JStr xs).

Section digest_facts.
Context {PF : Platform}.

Lemma substring_app_r (p s : string) n :
  String.substring (String.length p) n (p +:+ s) = String.substring 0 n s.
Proof. induction p as [|c p IH]; [done|]. simpl. apply IH. Qed.

Lemma substring_all s : String.substring 0 (String.length s) s = s.
Proof. induction s as [|c s IH]; [done|]. simpl. by rewrite IH. Qed.

Lemma is_digest_sha256 s : hex_of_length 64 s = true → is_digest ("sha256:" +:+ s) = true.
Proof.
  intros Hs. unfold is_digest. apply andb_true_intro. split; [by destruct s|].
  replace (String.length ("sha256:" +:+ s) - 7)%nat with (String.length s)
    by (change (String.length ("sha256:" +:+ s)) with (7 + String.length s)%nat; lia).
  change 7%nat with (String.length "sha256:"). by rewrite substring_app_r, substring_all.
Qed.

(** A content digest always passes the digest check of the contracts. *)
Lemma canonical_digest_is_digest v : is_digest (canonical_digest v) = true.
Proof. apply is_digest_sha256, sha256_hex_shape. Qed.

#[export] Instance canonical_digest_proper : Proper (json_eqv ==> eq) canonical_digest.
Proof. intros j k H. unfold canonical_digest, canonical_bytes. by rewrite (sort_keys_eqv j k H). Qed.

(** C1: the digest of a value does not depend on the order in which the
    members of its objects were inserted, at any depth. *)
Theorem canonical_digest_key_order j k :
  json_eqv j k → canonical_digest j = canonical_digest k.
Proof. intros H. by rewrite H. Qed.
End digest_facts.
