(* ===== verification/Sample.v ===== *)
(** * A concrete platform

    The witnesses evaluate the model at concrete inputs.  They run it on a
    platform whose hash is a 256-bit polynomial hash, printed as 64 hexadecimal
    digits, and whose float and datetime renderings print the model's integers. *)
From S2P Require Import Prelude PyFloat Canonical.
From stdpp Require Import pretty.
From Stdlib Require Import Ascii.

Fixpoint poly_hash (h : N) (s : string) : N :=
  match s with
  | EmptyString => h
  | String c s => poly_hash ((h * 1000003 + N_of_ascii c + 1) mod 2 ^ 256)%N s
  end.
Fixpoint hex_digits (n : nat) (h : N) (acc : string) : string :=
  match n with
  | O => acc
  | S n => hex_digits n (h / 16)%N (String (hex_digit (h mod 16)) acc)
  end.

Lemma is_hex_digit n : (n < 16)%N → is_hex (hex_digit n) = true.
Proof.
  intros Hn.
  assert (n = 0 ∨ n = 1 ∨ n = 2 ∨ n = 3 ∨ n = 4 ∨ n = 5 ∨ n = 6 ∨ n = 7 ∨ n = 8 ∨ n = 9 ∨
    n = 10 ∨ n = 11 ∨ n = 12 ∨ n = 13 ∨ n = 14 ∨ n = 15)%N as Hc by lia.
  by destruct_or! Hc; subst n.
Qed.

Lemma hex_digits_shape n h acc m :
  hex_of_length m acc = true → hex_of_length (n + m) (hex_digits n h acc) = true.
Proof.
  revert h acc m. induction n as [|n IH]; intros h acc m Hacc; simpl; [done|].
  replace (S (n + m)) with (n + S m)%nat by lia. apply IH.
  unfold hex_of_length in *. simpl. apply andb_prop in Hacc as [Hl Hh].
  apply Nat.eqb_eq in Hl. rewrite Hl, Nat.eqb_refl, Hh.
  rewrite is_hex_digit; [done | by apply N.mod_lt].
Qed.

#[export] Instance sample_platform : Platform := {|
  sha256_hex s := hex_digits 64 (poly_hash 7 s) "";
  float_repr f := pretty f;
  datetime_iso t := match t with Naive us => pretty us | Aware us => pretty us +:+ "Z" end;
  sha256_hex_shape s := hex_digits_shape 64 (poly_hash 7 s) "" 0 eq_refl;
|}.

(** A platform that is cheap to evaluate on large documents: a 16-bit checksum,
    floats printed by their integer part. *)
Fixpoint checksum (h : N) (s : string) : N :=
  match s with
  | EmptyString => h
  | String c s => checksum (N.land (h * 31 + N_of_ascii c + 1) 65535) s
  end.
Definition small_platform : Platform := {|
  sha256_hex s := hex_digits 64 (checksum 7 s) "";
  float_repr f := hex_digits 8 (Z.to_N (Z.shiftr f 1074)) "";
  datetime_iso t := match t with
    | Naive us => hex_digits 8 (Z.to_N us) "" | Aware us => hex_digits 8 (Z.to_N us) "Z" end;
  sha256_hex_shape s := hex_digits_shape 64 (checksum 7 s) "" 0 eq_refl;
|}.

Example key_order_example :
  json_eqv (JObj [("b", JInt 2); ("a", JArr [JStr "x"])])
           (JObj [("a", JArr [JStr "x"]); ("b", JInt 2)]).
Proof.
  eapply eqv_obj with (ms' := [("a", JArr [JStr "x"]); ("b", JInt 2)]).
  - vm_compute. repeat constructor; set_solver.
  - apply Permutation_swap.
  - repeat constructor.
Qed.

Lemma canonical_digest_key_order_witness :
  canonical_digest (JObj [("b", JInt 2); ("a", JArr [JStr "x"])]) =
  canonical_digest (JObj [("a", JArr [JStr "x"]); ("b", JInt 2)]).
Proof. apply canonical_digest_key_order, key_order_example. Defined.
