(* ===== verification/Models.v ===== *)
(** * Immutable arena contracts ([arena/models.py])

    The pydantic models of the Evolution Arena as records, their field
    constraints and validators as executable checks, and their content hashes.
    [validate_X x] is the construction of an [X]: the value, or pydantic's
    [ValidationError] carrying the message of the check that failed. *)
From S2P Require Import Prelude PyDict PyFloat Canonical.
Local Open Scope Z_scope.

Definition invalid {A} (msg : string) : result A := Err (Exn ValidationError msg).
(** Constraints on one field, e.g. [Field(gt=0)]. *)
Definition require (b : bool) (msg : string) : result unit :=
  if b then Ok tt else invalid msg.
Definition opt_forallb {A} (p : A → bool) (o : option A) : bool :=
  match o with Some a => p a | None => true end.

Lemma require_ok b msg : require b msg = Ok tt ↔ b = true.
Proof. by destruct b. Qed.

(** ** Challenge ingredients *)
Record DatasetRef := { dr_uri : string; dr_digest : string }.

Record ModelRef := {
  mr_model_id : string;
  mr_digest : string;
  mr_tokenizer_id : option string;
  mr_tokenizer_digest : option string;
  mr_allowed_variants : list string;
  mr_required_modalities : list string;
}.

Record HardwareSpec := {
  hw_hardware_class : string;
  hw_gpu_count : Z;
  hw_vram_bytes : option Z;
  hw_image_digest : string;
  hw_driver_constraints : list string;
  hw_runtime_constraints : list string;
}.
Definition validate_HardwareSpec (h : HardwareSpec) : result HardwareSpec :=
  require (0 <=? hw_gpu_count h) "gpu_count" ;;
  require (opt_forallb (Z.leb 0) (hw_vram_bytes h)) "vram_bytes" ;;
  mret h.

Inductive Objective := minimize | maximize | constraint.
Record MetricSpec := {
  ms_name : string;
  ms_unit : string;
  ms_objective : Objective;
  ms_aggregation : string;
  ms_threshold : option float;
}.

Record BudgetSpec := {
  bs_wall_seconds : option float;
  bs_token_limit : option Z;
  bs_cost_limit : option float;
  bs_energy_joules : option float;
  bs_concurrency : Z;
}.
Definition validate_BudgetSpec (b : BudgetSpec) : result BudgetSpec :=
  require (opt_forallb (Z.ltb 0) (bs_wall_seconds b)) "wall_seconds" ;;
  require (opt_forallb (Z.ltb 0) (bs_token_limit b)) "token_limit" ;;
  require (opt_forallb (Z.leb 0) (bs_cost_limit b)) "cost_limit" ;;
  require (opt_forallb (Z.leb 0) (bs_energy_joules b)) "energy_joules" ;;
  require (0 <? bs_concurrency b) "concurrency" ;;
  mret b.

Record ChallengeSpec := {
  cs_id : string;
  cs_version : string;
  cs_title : string;
  cs_owner : string;
  cs_created_at : datetime;
  cs_repository_url : string;
  cs_base_commit : string;
  cs_writable_paths : list string;
  cs_protected_paths : list string;
  cs_task_template : string;
  cs_model : ModelRef;
  cs_hardware : HardwareSpec;
  cs_public_dataset : DatasetRef;
  cs_withheld_dataset_ref : DatasetRef;
  cs_metrics : list MetricSpec;
  cs_warmup_runs : Z;
  cs_repetitions : Z;
  cs_seeds : list Z;
  cs_confidence_rule : string;
  cs_budgets : BudgetSpec;
  cs_allowed_optimizations : list string;
  cs_prohibited_optimizations : list string;
  cs_network_capabilities : list string;
  cs_tool_capabilities : list string;
  cs_verifier_version : string;
  cs_rubric_version : string;
  cs_policy_version : string;
  cs_promotion_requirements : list string;
  cs_rollback_requirements : list string;
}.

(** [set(xs) & set(ys)] is non-empty *)
Definition intersects (xs ys : list string) : bool :=
  existsb (λ x, bool_decide (x ∈ ys)) xs.

Definition validate_paths_and_metrics (c : ChallengeSpec) : result ChallengeSpec :=
  err_if (intersects (cs_writable_paths c) (cs_protected_paths c)) ValidationError
    "writable_paths and protected_paths must not overlap" ;;
  (let names := ms_name <$> cs_metrics c in
   err_if (bool_decide (names = []) || negb (all_unique names)) ValidationError
     "metrics must be non-empty and uniquely named") ;;
  err_if (intersects (cs_allowed_optimizations c) (cs_prohibited_optimizations c)) ValidationError
    "optimization classes cannot be both allowed and prohibited" ;;
  mret c.
Definition validate_ChallengeSpec (c : ChallengeSpec) : result ChallengeSpec :=
  validate_HardwareSpec (cs_hardware c) ;;
  require (0 <=? cs_warmup_runs c) "warmup_runs" ;;
  require (0 <? cs_repetitions c) "repetitions" ;;
  validate_BudgetSpec (cs_budgets c) ;;
  validate_paths_and_metrics c.

(** ** Experiments and results *)
Inductive ExperimentState :=
  | PROPOSED | ADMITTED | RUNNING | PROVISIONAL | VERIFYING
  | VALID | INVALID | INCONCLUSIVE | FAILED | CANCELLED.
#[export] Instance ExperimentState_eq_dec : EqDecision ExperimentState.
Proof. solve_decision. Defined.
Definition ExperimentState_value (s : ExperimentState) : string :=
  match s with
  | PROPOSED => "proposed" | ADMITTED => "admitted" | RUNNING => "running"
  | PROVISIONAL => "provisional" | VERIFYING => "verifying" | VALID => "valid"
  | INVALID => "invalid" | INCONCLUSIVE => "inconclusive" | FAILED => "failed"
  | CANCELLED => "cancelled"
  end.

Module VerificationState.
Inductive t := UNVERIFIED | VERIFYING | VALID | INVALID | INCONCLUSIVE.
#[export] Instance eq_dec : EqDecision t.
Proof. solve_decision. Defined.
Definition value (s : t) : string :=
  match s with
  | UNVERIFIED => "unverified" | VERIFYING => "verifying" | VALID => "valid"
  | INVALID => "invalid" | INCONCLUSIVE => "inconclusive"
  end.
End VerificationState.
Export (hints) VerificationState.

Record ArtifactRef := {
  ar_digest : string; ar_media_type : string; ar_size : Z; ar_role : string }.
#[export] Instance ArtifactRef_eq_dec : EqDecision ArtifactRef.
Proof. solve_decision. Defined.
Definition validate_ArtifactRef (a : ArtifactRef) : result ArtifactRef :=
  require (0 <=? ar_size a) "size" ;; mret a.

Record Provenance := {
  pv_actor : string;
  pv_node : string;
  pv_session_id : string;
  pv_action : string;
  pv_target : string;
  pv_observed_prior_state : option string;
  pv_signature : option string;
}.
#[export] Instance Provenance_eq_dec : EqDecision Provenance.
Proof. solve_decision. Defined.

Record Experiment := {
  ex_id : string;
  ex_attempt : Z;
  ex_parent_id : option string;
  ex_reproduces_id : option string;
  ex_changed_dimensions : list string;
  ex_challenge_hash : string;
  ex_actor : string;
  ex_harness : string;
  ex_card_id : string;
  ex_run_id : string;
  ex_repository_url : string;
  ex_repository_base_sha : string;
  ex_repository_result_sha : option string;
  ex_image_digest : string;
  ex_sbom_digest : string;
  ex_requested_route : string;
  ex_requested_model : string;
  ex_served_model : option string;
  ex_gateway_request_id : option string;
  ex_gateway_backend_id : option string;
  ex_configuration : list (string * json);
  ex_seeds : list Z;
  ex_hardware_telemetry : list (string * json);
  ex_budgets : BudgetSpec;
  ex_created_at : datetime;
  ex_artifacts : list ArtifactRef;
}.

Definition validate_lineage (e : Experiment) : result Experiment :=
  err_if (bool_decide (Some (ex_id e) = ex_parent_id e)
          || bool_decide (Some (ex_id e) = ex_reproduces_id e)) ValidationError
    "an experiment cannot be its own parent or reproduction target" ;;
  err_if (bool_decide (is_Some (ex_parent_id e)) && bool_decide (ex_changed_dimensions e = []))
    ValidationError "a mutation with parent_id must identify changed_dimensions" ;;
  mret e.
Definition validate_Experiment (e : Experiment) : result Experiment :=
  require (0 <? ex_attempt e) "attempt" ;;
  validate_BudgetSpec (ex_budgets e) ;;
  check_each (ex_artifacts e) (λ a, validate_ArtifactRef a ;; Ok tt) ;;
  validate_lineage e.

Record Observation := {
  ob_value : float; ob_seed : option Z; ob_warm : bool; ob_recorded_at : datetime }.

Record Measurement := {
  me_metric : string;
  me_unit : string;
  me_observations : list Observation;
  me_mean : float;
  me_standard_deviation : float;
  me_confidence_low : option float;
  me_confidence_high : option float;
  me_best_of_n : option float;
}.
Definition validate_sample_count (m : Measurement) : result Measurement :=
  err_if (match me_observations m with [] => true | _ => false end) ValidationError
    "measurements require raw observations" ;;
  err_if (me_standard_deviation m <? 0) ValidationError "standard_deviation cannot be negative" ;;
  mret m.

Record Result := {
  re_experiment_id : string;
  re_experiment_hash : string;
  re_challenge_hash : string;
  re_verification : VerificationState.t;
  re_verification_reason : option string;
  re_measurements : list Measurement;
  re_artifacts : list ArtifactRef;
  re_created_at : datetime;
}.
Definition validate_Result (r : Result) : result Result :=
  check_each (re_measurements r) (λ m, validate_sample_count m ;; Ok tt) ;;
  check_each (re_artifacts r) (λ a, validate_ArtifactRef a ;; Ok tt) ;;
  mret r.

(** ** [model_dump(mode="json", exclude_none=...)] *)
Definition jints (xs : list Z) : json := JArr (map JInt xs).

Section dump.
Variable xn : bool. (* exclude_none *)

Definition dump_DatasetRef (d : DatasetRef) : json :=
  JObj (field "uri" (JStr (dr_uri d)) ++ field "digest" (JStr (dr_digest d))).
Definition dump_ModelRef (m : ModelRef) : json :=
  JObj (field "model_id" (JStr (mr_model_id m)) ++ field "digest" (JStr (mr_digest m)) ++
    field_opt xn "tokenizer_id" JStr (mr_tokenizer_id m) ++
    field_opt xn "tokenizer_digest" JStr (mr_tokenizer_digest m) ++
    field "allowed_variants" (jstrs (mr_allowed_variants m)) ++
    field "required_modalities" (jstrs (mr_required_modalities m))).
Definition dump_HardwareSpec (h : HardwareSpec) : json :=
  JObj (field "hardware_class" (JStr (hw_hardware_class h)) ++
    field "gpu_count" (JInt (hw_gpu_count h)) ++
    field_opt xn "vram_bytes" JInt (hw_vram_bytes h) ++
    field "image_digest" (JStr (hw_image_digest h)) ++
    field "driver_constraints" (jstrs (hw_driver_constraints h)) ++
    field "runtime_constraints" (jstrs (hw_runtime_constraints h))).
Definition Objective_value (o : Objective) : string :=
  match o with minimize => "minimize" | maximize => "maximize" | constraint => "constraint" end.
Definition dump_MetricSpec (m : MetricSpec) : json :=
  JObj (field "name" (JStr (ms_name m)) ++ field "unit" (JStr (ms_unit m)) ++
    field "objective" (JStr (Objective_value (ms_objective m))) ++
    field "aggregation" (JStr (ms_aggregation m)) ++
    field_opt xn "threshold" JFloat (ms_threshold m)).
Definition dump_BudgetSpec (b : BudgetSpec) : json :=
  JObj (field_opt xn "wall_seconds" JFloat (bs_wall_seconds b) ++
    field_opt xn "token_limit" JInt (bs_token_limit b) ++
    field_opt xn "cost_limit" JFloat (bs_cost_limit b) ++
    field_opt xn "energy_joules" JFloat (bs_energy_joules b) ++
    field "concurrency" (JInt (bs_concurrency b))).
Definition dump_ArtifactRef (a : ArtifactRef) : json :=
  JObj (field "digest" (JStr (ar_digest a)) ++ field "media_type" (JStr (ar_media_type a)) ++
    field "size" (JInt (ar_size a)) ++ field "role" (JStr (ar_role a))).
Definition dump_Provenance (p : Provenance) : json :=
  JObj (field "actor" (JStr (pv_actor p)) ++ field "node" (JStr (pv_node p)) ++
    field "session_id" (JStr (pv_session_id p)) ++ field "action" (JStr (pv_action p)) ++
    field "target" (JStr (pv_target p)) ++
    field_opt xn "observed_prior_state" JStr (pv_observed_prior_state p) ++
    field_opt xn "signature" JStr (pv_signature p)).

Context {PF : Platform}.
Definition jtime (t : datetime) : json := JStr (datetime_iso t).

Definition dump_ChallengeSpec (c : ChallengeSpec) : json :=
  JObj (field "schema_version" (JStr "arena.challenge.v1") ++
    field "id" (JStr (cs_id c)) ++ field "version" (JStr (cs_version c)) ++
    field "title" (JStr (cs_title c)) ++ field "owner" (JStr (cs_owner c)) ++
    field "created_at" (jtime (cs_created_at c)) ++
    field "repository_url" (JStr (cs_repository_url c)) ++
    field "base_commit" (JStr (cs_base_commit c)) ++
    field "writable_paths" (jstrs (cs_writable_paths c)) ++
    field "protected_paths" (jstrs (cs_protected_paths c)) ++
    field "task_template" (JStr (cs_task_template c)) ++
    field "model" (dump_ModelRef (cs_model c)) ++
    field "hardware" (dump_HardwareSpec (cs_hardware c)) ++
    field "public_dataset" (dump_DatasetRef (cs_public_dataset c)) ++
    field "withheld_dataset_ref" (dump_DatasetRef (cs_withheld_dataset_ref c)) ++
    field "metrics" (JArr (map dump_MetricSpec (cs_metrics c))) ++
    field "warmup_runs" (JInt (cs_warmup_runs c)) ++
    field "repetitions" (JInt (cs_repetitions c)) ++
    field "seeds" (jints (cs_seeds c)) ++
    field "confidence_rule" (JStr (cs_confidence_rule c)) ++
    field "budgets" (dump_BudgetSpec (cs_budgets c)) ++
    field "allowed_optimizations" (jstrs (cs_allowed_optimizations c)) ++
    field "prohibited_optimizations" (jstrs (cs_prohibited_optimizations c)) ++
    field "network_capabilities" (jstrs (cs_network_capabilities c)) ++
    field "tool_capabilities" (jstrs (cs_tool_capabilities c)) ++
    field "verifier_version" (JStr (cs_verifier_version c)) ++
    field "rubric_version" (JStr (cs_rubric_version c)) ++
    field "policy_version" (JStr (cs_policy_version c)) ++
    field "promotion_requirements" (jstrs (cs_promotion_requirements c)) ++
    field "rollback_requirements" (jstrs (cs_rollback_requirements c))).

Definition dump_Experiment (e : Experiment) : json :=
  JObj (field "schema_version" (JStr "arena.experiment.v1") ++
    field "id" (JStr (ex_id e)) ++ field "attempt" (JInt (ex_attempt e)) ++
    field_opt xn "parent_id" JStr (ex_parent_id e) ++
    field_opt xn "reproduces_id" JStr (ex_reproduces_id e) ++
    field "changed_dimensions" (jstrs (ex_changed_dimensions e)) ++
    field "challenge_hash" (JStr (ex_challenge_hash e)) ++
    field "actor" (JStr (ex_actor e)) ++ field "harness" (JStr (ex_harness e)) ++
    field "card_id" (JStr (ex_card_id e)) ++ field "run_id" (JStr (ex_run_id e)) ++
    field "repository_url" (JStr (ex_repository_url e)) ++
    field "repository_base_sha" (JStr (ex_repository_base_sha e)) ++
    field_opt xn "repository_result_sha" JStr (ex_repository_result_sha e) ++
    field "image_digest" (JStr (ex_image_digest e)) ++
    field "sbom_digest" (JStr (ex_sbom_digest e)) ++
    field "requested_route" (JStr (ex_requested_route e)) ++
    field "requested_model" (JStr (ex_requested_model e)) ++
    field_opt xn "served_model" JStr (ex_served_model e) ++
    field_opt xn "gateway_request_id" JStr (ex_gateway_request_id e) ++
    field_opt xn "gateway_backend_id" JStr (ex_gateway_backend_id e) ++
    field "configuration" (JObj (ex_configuration e)) ++
    field "seeds" (jints (ex_seeds e)) ++
    field "hardware_telemetry" (JObj (ex_hardware_telemetry e)) ++
    field "budgets" (dump_BudgetSpec (ex_budgets e)) ++
    field "created_at" (jtime (ex_created_at e)) ++
    field "artifacts" (JArr (map dump_ArtifactRef (ex_artifacts e)))).

Definition dump_Observation (o : Observation) : json :=
  JObj (field "value" (JFloat (ob_value o)) ++ field_opt xn "seed" JInt (ob_seed o) ++
    field "warm" (JBool (ob_warm o)) ++ field "recorded_at" (jtime (ob_recorded_at o))).
Definition dump_Measurement (m : Measurement) : json :=
  JObj (field "metric" (JStr (me_metric m)) ++ field "unit" (JStr (me_unit m)) ++
    field "observations" (JArr (map dump_Observation (me_observations m))) ++
    field "mean" (JFloat (me_mean m)) ++
    field "standard_deviation" (JFloat (me_standard_deviation m)) ++
    field_opt xn "confidence_low" JFloat (me_confidence_low m) ++
    field_opt xn "confidence_high" JFloat (me_confidence_high m) ++
    field_opt xn "best_of_n" JFloat (me_best_of_n m)).
Definition dump_Result (r : Result) : json :=
  JObj (field "schema_version" (JStr "arena.result.v1") ++
    field "experiment_id" (JStr (re_experiment_id r)) ++
    field "experiment_hash" (JStr (re_experiment_hash r)) ++
    field "challenge_hash" (JStr (re_challenge_hash r)) ++
    field "verification" (JStr (VerificationState.value (re_verification r))) ++
    field_opt xn "verification_reason" JStr (re_verification_reason r) ++
    field "measurements" (JArr (map dump_Measurement (re_measurements r))) ++
    field "artifacts" (JArr (map dump_ArtifactRef (re_artifacts r))) ++
    field "created_at" (jtime (re_created_at r))).
End dump.

(** ** Lifecycle events *)
Record ExperimentEvent := {
  ev_event_id : string;
  ev_writer_id : string;
  ev_sequence : Z;
  ev_experiment_id : string;
  ev_attempt : Z;
  ev_from_state : option ExperimentState;
  ev_to_state : ExperimentState;
  ev_timestamp : datetime;
  ev_provenance : Provenance;
  ev_payload : list (string * json);
  ev_prior_event_hash : option string;
  ev_event_hash : option string;
}.
#[export] Instance ExperimentEvent_eq_dec : EqDecision ExperimentEvent.
Proof. solve_decision. Defined.

(** The [allowed] table of [ExperimentEvent.validate_transition]. *)
Definition allowed (from : option ExperimentState) : list ExperimentState :=
  match from with
  | None => [PROPOSED]
  | Some PROPOSED => [ADMITTED; CANCELLED]
  | Some ADMITTED => [RUNNING; CANCELLED; FAILED]
  | Some RUNNING => [PROVISIONAL; CANCELLED; FAILED]
  | Some PROVISIONAL => [VERIFYING]
  | Some VERIFYING => [VALID; INVALID; INCONCLUSIVE]
  | Some _ => []
  end.
Definition validate_transition (e : ExperimentEvent) : result ExperimentEvent :=
  err_if (negb (bool_decide (ev_to_state e ∈ allowed (ev_from_state e)))) ValidationError
    "illegal experiment transition" ;;
  mret e.
Definition validate_ExperimentEvent (e : ExperimentEvent) : result ExperimentEvent :=
  require (1 <=? ev_sequence e) "sequence" ;;
  require (0 <? ev_attempt e) "attempt" ;;
  validate_transition e.

Definition with_event_hash (h : option string) (e : ExperimentEvent) : ExperimentEvent := {|
  ev_event_id := ev_event_id e; ev_writer_id := ev_writer_id e;
  ev_sequence := ev_sequence e; ev_experiment_id := ev_experiment_id e;
  ev_attempt := ev_attempt e; ev_from_state := ev_from_state e;
  ev_to_state := ev_to_state e; ev_timestamp := ev_timestamp e;
  ev_provenance := ev_provenance e; ev_payload := ev_payload e;
  ev_prior_event_hash := ev_prior_event_hash e; ev_event_hash := h |}.

Section hashes.
Context {PF : Platform}.

Definition Challenge_content_hash (c : ChallengeSpec) : string :=
  canonical_digest (dump_ChallengeSpec true c).
Definition Experiment_content_hash (e : Experiment) : string :=
  canonical_digest (dump_Experiment true e).
Definition Result_content_hash (r : Result) : string :=
  canonical_digest (dump_Result true r).

(** [model_dump(mode="json", exclude={"event_hash"})] keeps the [None]s. *)
Definition dump_event_body (e : ExperimentEvent) : json :=
  JObj (field "schema_version" (JStr "arena.event.v1") ++
    field "event_id" (JStr (ev_event_id e)) ++ field "writer_id" (JStr (ev_writer_id e)) ++
    field "sequence" (JInt (ev_sequence e)) ++
    field "experiment_id" (JStr (ev_experiment_id e)) ++
    field "attempt" (JInt (ev_attempt e)) ++
    field_opt false "from_state" (JStr ∘ ExperimentState_value) (ev_from_state e) ++
    field "to_state" (JStr (ExperimentState_value (ev_to_state e))) ++
    field "timestamp" (jtime (ev_timestamp e)) ++
    field "provenance" (dump_Provenance false (ev_provenance e)) ++
    field "payload" (JObj (ev_payload e)) ++
    field_opt false "prior_event_hash" JStr (ev_prior_event_hash e)).
Definition calculated_hash (e : ExperimentEvent) : string :=
  canonical_digest (dump_event_body e).
Definition sealed (e : ExperimentEvent) : result ExperimentEvent :=
  err_if (match ev_event_hash e with
          | Some h => negb (bool_decide (h = calculated_hash e)) | None => false end)
    ValueError "event_hash does not match canonical event content" ;;
  mret (with_event_hash (Some (calculated_hash e)) e).

Lemma calculated_hash_with h e : calculated_hash (with_event_hash h e) = calculated_hash e.
Proof. reflexivity. Qed.

Lemma sealed_ok e e' :
  sealed e = Ok e' → e' = with_event_hash (Some (calculated_hash e)) e.
Proof. unfold sealed. intros H. prog_inv H. Qed.
End hashes.
