(* ===== verification/Store.v ===== *)
(** * Append-only event segments and content-addressed records ([arena/store.py])

    The filesystem below the store's root: one byte string per event segment,
    artifact and record file.  An append is one atomic step (the segment is
    locked); a writer killed mid-append is the step [torn_append], which leaves
    any prefix of the record it was writing. *)
From S2P Require Import Prelude PyDict PyFloat Canonical Models.
From Stdlib Require Import Ascii.

Definition nl : ascii := ascii_of_nat 10.
Definition cr : ascii := ascii_of_nat 13.

(** [bytes.splitlines(keepends=True)]: lines end at LF, CR or CR LF. *)
Fixpoint splitlines_from (cur : string) (s : string) : list string :=
  match s with
  | EmptyString => if decide (cur = "") then [] else [String.rev cur]
  | String c s' =>
      if Ascii.eqb c nl then String.rev (String c cur) :: splitlines_from "" s'
      else if Ascii.eqb c cr then
        match s' with
        | String d s'' =>
            if Ascii.eqb d nl then String.rev (String d (String c cur)) :: splitlines_from "" s''
            else String.rev (String c cur) :: splitlines_from "" s'
        | EmptyString => [String.rev (String c cur)]
        end
      else splitlines_from (String c cur) s'
  end.
Definition splitlines (s : string) : list string := splitlines_from "" s.

(** [s.endswith(b"\n")] *)
Fixpoint ends_nl (s : string) : bool :=
  match s with
  | EmptyString => false
  | String c EmptyString => Ascii.eqb c nl
  | String _ s' => ends_nl s'
  end.
(** [s[: s.rfind(b"\n") + 1]]: the bytes up to the last newline. *)
Fixpoint complete_prefix (s : string) : string :=
  match s with
  | EmptyString => ""
  | String c s' =>
      let p := complete_prefix s' in
      if negb (is_empty_str p) || Ascii.eqb c nl then String c p else ""
  end.

(** pydantic's JSON text of the stored models.  What the store relies on: the
    text of a valid event is one line, parses back to that event with or without
    the line's newline, and a proper prefix of it is not JSON. *)
Class EventCodec := {
  event_dump_json : ExperimentEvent → string;
  event_parse_json : string → option ExperimentEvent;
  event_dump_one_line e :
    str_forallb (λ c, negb (Ascii.eqb c nl) && negb (Ascii.eqb c cr)) (event_dump_json e) = true;
  event_dump_nonempty e : event_dump_json e ≠ "";
  event_roundtrip e :
    validate_ExperimentEvent e = Ok e → event_parse_json (event_dump_json e +:+ String nl "") = Some e;
  event_unterminated_roundtrip e :
    validate_ExperimentEvent e = Ok e → event_parse_json (event_dump_json e) = Some e;
  event_parse_cut_short e k :
    k < String.length (event_dump_json e) →
    event_parse_json (String.substring 0 k (event_dump_json e)) = None;
  event_parse_valid s e : event_parse_json s = Some e → validate_ExperimentEvent e = Ok e;
}.

Record fs := {
  fs_events : dict string string;
  fs_artifacts : dict string string;
  fs_specs : dict string string;
  fs_experiments : dict string string;
  fs_results : dict string string;
}.
Definition empty_fs : fs := {|
  fs_events := ∅; fs_artifacts := ∅; fs_specs := ∅; fs_experiments := ∅; fs_results := ∅ |}.

Definition with_events d (s : fs) : fs := {|
  fs_events := d; fs_artifacts := fs_artifacts s; fs_specs := fs_specs s;
  fs_experiments := fs_experiments s; fs_results := fs_results s |}.
Definition with_artifacts d (s : fs) : fs := {|
  fs_events := fs_events s; fs_artifacts := d; fs_specs := fs_specs s;
  fs_experiments := fs_experiments s; fs_results := fs_results s |}.
Definition with_specs d (s : fs) : fs := {|
  fs_events := fs_events s; fs_artifacts := fs_artifacts s; fs_specs := d;
  fs_experiments := fs_experiments s; fs_results := fs_results s |}.
Definition with_experiments d (s : fs) : fs := {|
  fs_events := fs_events s; fs_artifacts := fs_artifacts s; fs_specs := fs_specs s;
  fs_experiments := d; fs_results := fs_results s |}.
Definition with_results d (s : fs) : fs := {|
  fs_events := fs_events s; fs_artifacts := fs_artifacts s; fs_specs := fs_specs s;
  fs_experiments := fs_experiments s; fs_results := d |}.

(** [_SAFE_WRITER.fullmatch]: one or more of [A-Za-z0-9_.-]. *)
Definition safe_writer_char (c : ascii) : bool :=
  let n := N_of_ascii c in
  ((65 <=? n) && (n <=? 90) || (97 <=? n) && (n <=? 122) || (48 <=? n) && (n <=? 57)
   || (n =? 95) || (n =? 46) || (n =? 45))%N.
Definition safe_writer (w : string) : bool := negb (is_empty_str w) && str_forallb safe_writer_char w.

Section store.
Context {PF : Platform} {EC : EventCodec}.

Definition _segment (writer_id : string) : result string :=
  err_if (negb (safe_writer writer_id)) ValueError "writer_id contains unsafe path characters" ;;
  mret writer_id.

(** The loop of [_read_path] over the raw lines: [n] events read so far, the
    hash of the last one, and whether the line at hand is the final one. *)
Fixpoint read_lines (raw_lines : list string) (n : Z) (prior_hash : option string) :
    result (list ExperimentEvent) :=
  match raw_lines with
  | [] => Ok []
  | raw :: rest =>
      let final_incomplete := bool_decide (rest = []) && negb (ends_nl raw) in
      match event_parse_json raw with
      | None =>
          if final_incomplete then Ok []
          else Err (Exn CorruptEventLogError "invalid event")
      | Some event =>
          err_if (negb (bool_decide (ev_sequence event = n + 1)%Z)) CorruptEventLogError
            "non-contiguous sequence" ;;
          err_if (negb (bool_decide (ev_prior_event_hash event = prior_hash))) CorruptEventLogError
            "broken hash link" ;;
          err_if (negb (bool_decide (ev_event_hash event = Some (calculated_hash event))))
            CorruptEventLogError "invalid event hash" ;;
          events ← read_lines rest (n + 1) (ev_event_hash event);
          mret (event :: events)
      end
  end.

Definition _read_path (content : option string) : result (list ExperimentEvent) :=
  match content with
  | None => Ok []
  | Some data => read_lines (splitlines data) 0 None
  end.

Definition read_segment (writer_id : string) (s : fs) : result (list ExperimentEvent) :=
  path ← _segment writer_id;
  _read_path (fs_events s !! path).

Definition last_hash (events : list ExperimentEvent) : option string :=
  match last events with Some e => ev_event_hash e | None => None end.

(** [append_event] up to the write: read the segment, drop a torn tail, check
    that the event extends the head, seal it. *)
Definition prepare_append (event : ExperimentEvent) : prog fs (string * string * ExperimentEvent) :=
  path ← lift (_segment (ev_writer_id event));
  s ← gets (λ s, s);
  let raw := default "" (fs_events s !! path) in
  let put := λ content, modify (λ s, with_events (<[path := content]> (fs_events s)) s) in
  put raw ;;                                  (* open("a+b") creates the file *)
  existing ← lift (_read_path (Some raw));
  let raw' := if negb (is_empty_str raw) && negb (ends_nl raw) then complete_prefix raw else raw in
  put raw' ;;
  let expected_sequence := (Z.of_nat (length existing) + 1)%Z in
  let expected_prior := last_hash existing in
  raise_if (negb (bool_decide (ev_sequence event = expected_sequence)
                  && bool_decide (ev_prior_event_hash event = expected_prior)))
    EventConflictError "unexpected sequence or prior" ;;
  sealed ← lift (sealed event);
  mret (path, raw', sealed).

Definition record_of (e : ExperimentEvent) : string := event_dump_json e +:+ String nl "".

Definition append_event (event : ExperimentEvent) : prog fs ExperimentEvent :=
  p ← prepare_append event;
  let '(path, raw, sealed) := p in
  modify (λ s, with_events (<[path := raw +:+ record_of sealed]> (fs_events s)) s) ;;
  mret sealed.

(** A writer killed inside [append_event] when the first [k] bytes of its
    record had reached the file. *)
Definition torn_append (event : ExperimentEvent) (k : nat) : prog fs unit :=
  p ← prepare_append event;
  let '(path, raw, sealed) := p in
  modify (λ s, with_events (<[path := raw +:+ String.substring 0 k (record_of sealed)]>
                              (fs_events s)) s).

(** [sorted(events, key=lambda e: (e.timestamp, e.writer_id, e.sequence))];
    comparing a naive with an aware timestamp raises [TypeError]. *)
Definition dt_us (t : datetime) : Z := match t with Naive us | Aware us => us end.
Definition event_le (a b : ExperimentEvent) : bool :=
  match (dt_us (ev_timestamp a) ?= dt_us (ev_timestamp b))%Z with
  | Lt => true
  | Gt => false
  | Eq =>
      match String.compare (ev_writer_id a) (ev_writer_id b) with
      | Lt => true
      | Gt => false
      | Eq => (ev_sequence a <=? ev_sequence b)%Z
      end
  end.
(** A stable insertion sort by that key. *)
Fixpoint insert_event (e : ExperimentEvent) (es : list ExperimentEvent) : list ExperimentEvent :=
  match es with
  | [] => [e]
  | f :: es' => if event_le e f then e :: es else f :: insert_event e es'
  end.
Definition sort_events (es : list ExperimentEvent) : list ExperimentEvent :=
  foldr insert_event [] es.

Definition read_all_events (s : fs) : result (list ExperimentEvent) :=
  segments ← map_result (λ w, _read_path (fs_events s !! w))
               (sort_by (λ w, w +:+ ".jsonl") (keys (fs_events s)));
  let events := concat segments in
  err_if (existsb (λ e, is_aware (ev_timestamp e)) events
          && existsb (λ e, negb (is_aware (ev_timestamp e))) events)
    TypeError "can't compare offset-naive and offset-aware datetimes" ;;
  mret (sort_events events).

(** ** Artifacts *)
Definition put_artifact (content : string) : prog fs string :=
  let hex_digest := sha256_hex content in
  s ← gets (λ s, s);
  match fs_artifacts s !! hex_digest with
  | Some present =>
      raise_if (negb (bool_decide (present = content))) CorruptEventLogError
        "artifact digest collision" ;;
      mret ("sha256:" +:+ hex_digest)
  | None =>
      modify (λ s, with_artifacts (<[hex_digest := content]> (fs_artifacts s)) s) ;;
      mret ("sha256:" +:+ hex_digest)
  end.

Definition remove_sha256_prefix (d : string) : string :=
  if startswith d "sha256:" then String.substring 7 (String.length d - 7) d else d.

Definition get_artifact (digest : string) (s : fs) : result string :=
  err_if (negb (is_digest digest)) ValueError
    "artifact digest must be sha256:<64 lowercase hex characters>" ;;
  let value := remove_sha256_prefix digest in
  match fs_artifacts s !! value with
  | None => Err (Exn OSError "no such artifact file")
  | Some content =>
      err_if (negb (bool_decide (sha256_hex content = value))) CorruptEventLogError
        "artifact content does not match digest" ;;
      mret content
  end.

(** ** Records under their content hash

    [put_spec] and [_put_record]: the payload is the indented JSON text of the
    record; an existing file must hold the same bytes. *)
Definition put_record (digest payload : string) (dir : dict string string) :
    result (dict string string) :=
  let stem := remove_sha256_prefix digest in
  match dir !! stem with
  | Some present =>
      err_if (negb (bool_decide (present = payload))) CorruptEventLogError
        "record content does not match existing hash" ;;
      mret dir
  | None => mret (<[stem := payload]> dir)
  end.

(** [_read_records]: every file must parse and be named by its content hash. *)
Definition read_records {A} (parse : string → option A) (content_hash : A → string)
    (dir : dict string string) : result (list A) :=
  map_result (λ stem,
    match dir !! stem with
    | None => Err (Exn OSError "file vanished")
    | Some payload =>
        match parse payload with
        | None => Err (Exn CorruptEventLogError "invalid immutable record")
        | Some record =>
            err_if (negb (bool_decide (stem = remove_sha256_prefix (content_hash record))))
              CorruptEventLogError "immutable record hash mismatch" ;;
            mret record
        end
    end) (sort_by (λ stem, stem +:+ ".json") (keys dir)).

(** pydantic's [model_dump_json(exclude_none=True, indent=2)] and its inverse. *)
Class RecordCodec {A : Type} (validate : A → result A) := {
  record_dump_json : A → string;
  record_parse_json : string → option A;
  record_roundtrip r :
    validate r = Ok r → record_parse_json (record_dump_json r +:+ String nl "") = Some r;
}.
Context {SC : RecordCodec validate_ChallengeSpec} {XC : RecordCodec validate_Experiment}
  {RC : RecordCodec validate_Result}.

Definition put_spec (spec : ChallengeSpec) : prog fs string :=
  s ← gets (λ s, s);
  d ← lift (put_record (Challenge_content_hash spec)
              (record_dump_json spec +:+ String nl "") (fs_specs s));
  modify (with_specs d) ;;
  mret (Challenge_content_hash spec).
Definition put_experiment (e : Experiment) : prog fs string :=
  s ← gets (λ s, s);
  d ← lift (put_record (Experiment_content_hash e)
              (record_dump_json e +:+ String nl "") (fs_experiments s));
  modify (with_experiments d) ;;
  mret (Experiment_content_hash e).
Definition put_result (r : Result) : prog fs string :=
  s ← gets (λ s, s);
  d ← lift (put_record (Result_content_hash r)
              (record_dump_json r +:+ String nl "") (fs_results s));
  modify (with_results d) ;;
  mret (Result_content_hash r).
Definition read_experiments (s : fs) : result (list Experiment) :=
  read_records record_parse_json Experiment_content_hash (fs_experiments s).
Definition read_results (s : fs) : result (list Result) :=
  read_records record_parse_json Result_content_hash (fs_results s).
End store.

(** ** Lines and tails *)
Definition no_eol (s : string) : bool :=
  str_forallb (λ c, negb (Ascii.eqb c nl) && negb (Ascii.eqb c cr)) s.

Lemma ascii_eqb_refl c : Ascii.eqb c c = true.
Proof. apply Ascii.eqb_refl. Qed.

Lemma splitlines_from_line cur line rest :
  no_eol line = true →
  splitlines_from cur (line +:+ String nl rest)
  = (String.rev cur +:+ line +:+ String nl "") :: splitlines rest.
Proof.
  unfold no_eol. revert cur. induction line as [|c line IH]; intros cur.
  - intros _. change ("" +:+ String nl rest) with (String nl rest).
    change ("" +:+ String nl "") with (String nl ""). simpl.
    by rewrite str_rev_cons.
  - simpl. intros [[Hn Hr]%andb_prop Hl]%andb_prop. rewrite !str_app_cons.
    apply negb_true_iff in Hn, Hr. cbn [splitlines_from]. rewrite Hn, Hr, IH by done.
    by rewrite str_rev_cons, str_app_assoc.
Qed.

Lemma splitlines_from_tail cur tail :
  no_eol tail = true →
  splitlines_from cur tail = if decide (String.rev cur +:+ tail = "") then []
                             else [String.rev cur +:+ tail].
Proof.
  unfold no_eol. revert cur. induction tail as [|c tail IH]; intros cur.
  - intros _. rewrite str_app_nil_r. cbn [splitlines_from]. destruct cur as [|c cur]; [done|].
    rewrite !decide_False; [done|by rewrite str_rev_cons; destruct (String.rev cur)|done].
  - simpl. intros [[Hn Hr]%andb_prop Hl]%andb_prop.
    apply negb_true_iff in Hn, Hr. rewrite Hn, Hr, IH by done.
    by rewrite str_rev_cons, str_app_assoc.
Qed.

Lemma ends_nl_app s t : t ≠ "" → ends_nl (s +:+ t) = ends_nl t.
Proof.
  intros Ht. induction s as [|c s IH]; [done|]. rewrite str_app_cons. simpl.
  rewrite IH. destruct s, t; done.
Qed.
Lemma ends_nl_no_eol s : no_eol s = true → ends_nl s = false.
Proof.
  unfold no_eol. induction s as [|c s IH]; simpl; [done|].
  intros [[Hn _]%andb_prop Hs]%andb_prop. destruct s; [by apply negb_true_iff|auto].
Qed.
Lemma complete_prefix_no_eol s : no_eol s = true → complete_prefix s = "".
Proof.
  unfold no_eol. induction s as [|c s IH]; simpl; [done|].
  intros [[Hn _]%andb_prop Hs]%andb_prop. rewrite IH by done. simpl.
  by apply negb_true_iff in Hn as ->.
Qed.
Lemma complete_prefix_app s t :
  no_eol t = true → (s = "" ∨ ends_nl s = true) → complete_prefix (s +:+ t) = s.
Proof.
  intros Ht. induction s as [|c s IH].
  - intros _. by apply complete_prefix_no_eol.
  - intros [?|Hs]; [done|]. rewrite str_app_cons. cbn [complete_prefix].
    destruct s as [|d s].
    + change ("" +:+ t) with t. rewrite complete_prefix_no_eol by done. simpl in *. by rewrite Hs.
    + rewrite IH by (by right). done.
Qed.

Section store_facts.
Context {PF : Platform} {EC : EventCodec}.

(** The hash chain of a segment: sequence numbers count from [n + 1], each
    event names its predecessor's hash and carries its own. *)
Fixpoint chained (n : Z) (prior : option string) (es : list ExperimentEvent) : Prop :=
  match es with
  | [] => True
  | e :: es =>
      validate_ExperimentEvent e = Ok e ∧ ev_sequence e = (n + 1)%Z ∧
      ev_prior_event_hash e = prior ∧ ev_event_hash e = Some (calculated_hash e) ∧
      chained (n + 1) (ev_event_hash e) es
  end.
Fixpoint committed (es : list ExperimentEvent) : string :=
  match es with [] => "" | e :: es => record_of e +:+ committed es end.
(** What a segment holds: committed records, then a tail that is no record. *)
Definition log_repr (raw : string) (es : list ExperimentEvent) : Prop :=
  ∃ tail, raw = committed es +:+ tail ∧ chained 0 None es ∧ no_eol tail = true ∧
          (tail = "" ∨ event_parse_json tail = None).
Definition log_state (s : fs) (w : string) (es : list ExperimentEvent) : Prop :=
  log_repr (default "" (fs_events s !! w)) es.

Lemma record_ends_nl e : ends_nl (record_of e) = true.
Proof. unfold record_of. by rewrite ends_nl_app. Qed.
Lemma record_nonempty e : record_of e ≠ "".
Proof. intros H. pose proof (record_ends_nl e) as He. by rewrite H in He. Qed.
Lemma committed_app es fs : committed (es ++ fs) = committed es +:+ committed fs.
Proof. induction es as [|e es IH]; simpl; [done|]. by rewrite IH, str_app_assoc. Qed.
Lemma committed_ends es : committed es = "" ∨ ends_nl (committed es) = true.
Proof.
  induction es as [|e es IH]; simpl; [by left|]. right.
  destruct IH as [->|IH]; [by rewrite str_app_nil_r, record_ends_nl|].
  rewrite ends_nl_app; [done|]. intros H. by rewrite H in IH.
Qed.

Lemma splitlines_committed es tail :
  no_eol tail = true →
  splitlines (committed es +:+ tail)
  = map record_of es ++ (if decide (tail = "") then [] else [tail]).
Proof.
  intros Ht. induction es as [|e es IH]; simpl.
  - change ("" +:+ tail) with tail. unfold splitlines. by rewrite splitlines_from_tail.
  - unfold record_of at 1. rewrite !str_app_assoc, str_app_cons.
    change ("" +:+ ?x) with x. unfold splitlines.
    rewrite splitlines_from_line by apply event_dump_one_line.
    by rewrite IH.
Qed.

(** Reading committed records, then whatever follows them. *)
Lemma read_lines_app es rest n prior :
  chained n prior es →
  read_lines (map record_of es ++ rest) n prior =
  (λ fs, es ++ fs) <$> read_lines rest (n + Z.of_nat (length es))
    (match last es with Some e => ev_event_hash e | None => prior end).
Proof.
  revert n prior. induction es as [|e es IH]; intros n prior; simpl.
  - intros _. rewrite Z.add_0_r. by destruct (read_lines rest n prior).
  - intros (Hv & Hs & Hh & He & Hc). unfold record_of at 1.
    rewrite event_roundtrip, Hs, Hh, He, !bool_decide_true by done. simpl. rewrite <- He.
    rewrite (IH _ _ Hc). replace (n + 1 + Z.of_nat (length es))%Z
      with (n + Z.of_nat (S (length es)))%Z by lia.
    destruct es as [|f es]; simpl; [by destruct (read_lines rest _ _)|].
    destruct (last (f :: es)) eqn:Hl; [by destruct (read_lines rest _ _)|].
    by apply last_None in Hl.
Qed.

Lemma read_lines_records es tail n prior :
  chained n prior es → no_eol tail = true → (tail = "" ∨ event_parse_json tail = None) →
  read_lines (map record_of es ++ (if decide (tail = "") then [] else [tail])) n prior = Ok es.
Proof.
  intros Hc Ht Hp. rewrite read_lines_app by done.
  case_decide; simpl; [by rewrite app_nil_r|]. destruct Hp as [?| ->]; [done|].
  rewrite (ends_nl_no_eol tail) by done. simpl. by rewrite app_nil_r.
Qed.

Lemma read_log raw es : log_repr raw es → _read_path (Some raw) = Ok es.
Proof.
  intros (tail & -> & Hc & Ht & Hp). simpl. rewrite splitlines_committed by done.
  by apply read_lines_records.
Qed.

Lemma read_lines_chained raws n prior es : read_lines raws n prior = Ok es → chained n prior es.
Proof.
  revert n prior es. induction raws as [|raw raws IH]; intros n prior es H; simpl in H.
  - by simplify_eq.
  - destruct (event_parse_json raw) as [e|] eqn:Hparse; [|by case_match; simplify_eq].
    apply bind_unit_ok in H as [Hs%err_if_ok H]. apply bind_unit_ok in H as [Hh%err_if_ok H].
    apply bind_unit_ok in H as [He%err_if_ok H]. apply negb_false_iff, bool_decide_eq_true in Hs, Hh, He.
    prog_inv H. split_and!; try done; [by eapply event_parse_valid | by apply IH].
Qed.

Lemma log_repr_empty : log_repr "" [].
Proof. exists "". split_and!; try done. by left. Qed.

Lemma chained_snoc n prior es e :
  chained n prior (es ++ [e]) ↔
  chained n prior es ∧ chained (n + Z.of_nat (length es)) (match last es with
    | Some e' => ev_event_hash e' | None => prior end) [e].
Proof.
  revert n prior. induction es as [|f es IH]; intros n prior; simpl.
  - rewrite Z.add_0_r. simpl. tauto.
  - rewrite IH. replace (n + Z.of_nat (S (length es)))%Z
      with (n + 1 + Z.of_nat (length es))%Z by lia.
    assert (match last (f :: es) with Some e' => ev_event_hash e' | None => prior end =
            match last es with Some e' => ev_event_hash e' | None => ev_event_hash f end) as ->.
    { destruct es as [|g es]; [done|]. change (last (f :: g :: es)) with (last (g :: es)).
      destruct (last (g :: es)) eqn:Hl; [done|]. by apply last_None in Hl. }
    simpl. tauto.
Qed.

Lemma substring_no_eol k line :
  no_eol line = true → no_eol (String.substring 0 k line) = true.
Proof.
  unfold no_eol. revert k. induction line as [|c line IH]; intros [|k]; simpl; try done.
  intros [Hc Hl]%andb_prop. by rewrite Hc, IH.
Qed.
Lemma substring_record k e :
  (k < String.length (event_dump_json e))%nat →
  String.substring 0 k (record_of e) = String.substring 0 k (event_dump_json e).
Proof.
  unfold record_of. generalize (event_dump_json e). intros s. revert k.
  induction s as [|c s IH]; intros k Hk; [simpl in Hk; lia|].
  rewrite str_app_cons. destruct k as [|k]; [done|]. simpl in *. rewrite IH; [done|lia].
Qed.

Lemma truncate_tail es tail (raw := committed es +:+ tail) :
  no_eol tail = true →
  (if negb (is_empty_str raw) && negb (ends_nl raw) then complete_prefix raw else raw) = committed es.
Proof.
  subst raw. intros Ht. destruct (decide (tail = "")) as [->|Hne].
  - rewrite str_app_nil_r. destruct (committed_ends es) as [-> | ->]; [done|].
    by rewrite andb_false_r.
  - rewrite ends_nl_app, ends_nl_no_eol by done. rewrite complete_prefix_app by (done || apply committed_ends).
    destruct (committed es +:+ tail) eqn:Hc; [|done]. by destruct (committed es), tail.
Qed.

(** What [prepare_append] established when it returns. *)
Lemma prepare_append_ok e s s' path raw sl es :
  log_state s (ev_writer_id e) es →
  prepare_append e s = (s', Ok (path, raw, sl)) →
  path = ev_writer_id e ∧ raw = committed es ∧ sl = with_event_hash (Some (calculated_hash e)) e ∧
  ev_sequence e = (Z.of_nat (length es) + 1)%Z ∧ ev_prior_event_hash e = last_hash es ∧
  (∀ w, w ≠ path → fs_events s' !! w = fs_events s !! w).
Proof.
  intros Hlog H. pose proof Hlog as (tail & Hraw & _ & Ht & _).
  unfold prepare_append, _segment in H. prog_simpl_in H.
  destruct (safe_writer (ev_writer_id e)); simpl in H; [|done].
  change (read_lines (splitlines ?raw) 0 None) with (_read_path (Some raw)) in H.
  unfold log_state in Hlog. rewrite (read_log _ _ Hlog) in H.
  destruct (bool_decide (ev_sequence e = _)) eqn:Hs; [|done].
  destruct (bool_decide (ev_prior_event_hash e = _)) eqn:Hp; [|done]. simpl in H.
  apply bool_decide_eq_true in Hs, Hp.
  destruct (sealed e) as [sl'|] eqn:Hsl; simplify_eq/=. apply sealed_ok in Hsl.
  split_and!; try done; [|intros w Hw; by dict_cases].
  rewrite Hraw. by apply truncate_tail.
Qed.

Lemma validate_with_event_hash h e :
  validate_ExperimentEvent e = Ok e →
  validate_ExperimentEvent (with_event_hash h e) = Ok (with_event_hash h e).
Proof.
  unfold validate_ExperimentEvent, validate_transition, require. simpl. intros H. prog_inv H.
Qed.

Lemma append_event_inv e s s' r :
  append_event e s = (s', Ok r) →
  ∃ s1 path raw, prepare_append e s = (s1, Ok (path, raw, r)) ∧
    s' = with_events (<[path := raw +:+ record_of r]> (fs_events s1)) s1.
Proof.
  unfold append_event. intros H. prog_simpl_in H.
  destruct (prepare_append e s) as [s1 [[[path raw] sl]|]]; simplify_eq/=. eauto.
Qed.

Lemma log_state_append e s s' r es :
  validate_ExperimentEvent e = Ok e →
  log_state s (ev_writer_id e) es → append_event e s = (s', Ok r) →
  r = with_event_hash (Some (calculated_hash e)) e ∧
  log_state s' (ev_writer_id e) (es ++ [r]) ∧
  (∀ w, w ≠ ev_writer_id e → fs_events s' !! w = fs_events s !! w).
Proof.
  intros Hv Hlog (s1 & path & raw & Hprep & ->)%append_event_inv.
  destruct (prepare_append_ok _ _ _ _ _ _ _ Hlog Hprep) as (-> & -> & Hr & Hseq & Hprior & Hframe).
  split; [done|]. split; [|intros w Hw; simpl; by rewrite dict_lookup_insert_ne, Hframe].
  unfold log_state. simpl. rewrite dict_lookup_insert_eq. simpl.
  exists "". rewrite str_app_nil_r. split_and!; [..|by left]; [|
    |done].
  - rewrite committed_app. simpl. by rewrite str_app_nil_r.
  - destruct Hlog as (tail & _ & Hc & _). apply chained_snoc. split; [done|].
    rewrite Hr. simpl. split_and!; try done. by apply validate_with_event_hash.
Qed.

(** The positive counterpart: on whatever the file holds, an event that extends
    what was read is sealed and written after the last newline. *)
Lemma append_event_run e s es tail rd (w := ev_writer_id e) :
  safe_writer w = true → default "" (fs_events s !! w) = committed es +:+ tail →
  no_eol tail = true → _read_path (Some (committed es +:+ tail)) = Ok rd →
  ev_sequence e = (Z.of_nat (length rd) + 1)%Z → ev_prior_event_hash e = last_hash rd →
  ev_event_hash e = None →
  ∃ s', append_event e s = (s', Ok (with_event_hash (Some (calculated_hash e)) e)) ∧
        fs_events s' !! w
        = Some (committed es +:+ record_of (with_event_hash (Some (calculated_hash e)) e)).
Proof.
  subst w. intros Hsafe Hraw Ht Hrd Hseq Hprior Hnone.
  unfold append_event, prepare_append, _segment, sealed. prog_simpl.
  rewrite Hsafe, Hnone. cbn iota beta delta [negb]. rewrite Hraw.
  change (read_lines (splitlines ?raw) 0 None) with (_read_path (Some raw)).
  rewrite Hrd, Hseq, Hprior, !bool_decide_true by done. simpl.
  rewrite truncate_tail by done. eexists. split; [done|]. simpl. by rewrite dict_lookup_insert_eq.
Qed.

Lemma torn_append_run e k s s' es (w := ev_writer_id e) :
  log_state s w es → torn_append e k s = (s', Ok tt) →
  safe_writer w = true ∧ ev_sequence e = (Z.of_nat (length es) + 1)%Z ∧
  ev_prior_event_hash e = last_hash es ∧ fs_events s' !! w
    = Some (committed es +:+ String.substring 0 k (record_of (with_event_hash (Some (calculated_hash e)) e))).
Proof.
  subst w. intros Hlog H. unfold torn_append in H. prog_simpl_in H.
  destruct (prepare_append e s) as [s1 [[[path raw] sl]|]] eqn:Hprep; simplify_eq/=.
  destruct (prepare_append_ok _ _ _ _ _ _ _ Hlog Hprep) as (-> & -> & -> & Hs & Hp & _).
  rewrite dict_lookup_insert_eq. split_and!; [|done..].
  unfold prepare_append, _segment in Hprep. prog_simpl_in Hprep.
  by destruct (safe_writer (ev_writer_id e)).
Qed.

Lemma substring_record_all e :
  String.substring 0 (String.length (event_dump_json e)) (record_of e) = event_dump_json e.
Proof.
  unfold record_of. induction (event_dump_json e) as [|c s IH]; [done|].
  rewrite str_app_cons. simpl. by rewrite IH.
Qed.

(** An unterminated but complete record still reads as an event. *)
Lemma read_unterminated es e :
  chained 0 None (es ++ [e]) → _read_path (Some (committed es +:+ event_dump_json e)) = Ok (es ++ [e]).
Proof.
  intros Hc. pose proof (proj1 (chained_snoc _ _ _ _) Hc) as (Hes & Hv & Hs & Hp & He & _).
  simpl. rewrite splitlines_committed by apply event_dump_one_line.
  rewrite read_lines_app, decide_False by (done || apply event_dump_nonempty). simpl.
  rewrite event_unterminated_roundtrip, Hs, Hp, He, !bool_decide_true by done. done.
Qed.

(** ** Appending to whatever bytes a segment holds *)
Lemma str_app_inj_l s t u : s +:+ t = s +:+ u → t = u.
Proof. induction s as [|c s IH]; [done|]. rewrite !str_app_cons. intros [= H]. by apply IH. Qed.
Lemma complete_prefix_ends s : complete_prefix s = "" ∨ ends_nl (complete_prefix s) = true.
Proof.
  induction s as [|c s IH]; [by left|]. cbn [complete_prefix].
  destruct (complete_prefix s) as [|d p] eqn:Hp; cbn [is_empty_str negb orb].
  - destruct (Ascii.eqb c nl) eqn:Hc; [right|by left]. by simpl.
  - right. by destruct IH.
Qed.
Lemma complete_prefix_app_full s t :
  s = "" ∨ ends_nl s = true → complete_prefix (s +:+ t) = s +:+ complete_prefix t.
Proof.
  induction s as [|c s IH]; [done|]. intros [?|Hs]; [done|].
  rewrite !str_app_cons. cbn [complete_prefix]. destruct s as [|d s].
  - simpl in Hs. change ("" +:+ t) with t. by rewrite Hs, orb_true_r.
  - rewrite IH by (by right). by rewrite str_app_cons.
Qed.
Lemma complete_prefix_full s : s = "" ∨ ends_nl s = true → complete_prefix s = s.
Proof.
  intros Hs. pose proof (complete_prefix_app_full s "" Hs) as H. by rewrite !str_app_nil_r in H.
Qed.
Lemma complete_prefix_split s : ∃ tail, s = complete_prefix s +:+ tail.
Proof.
  induction s as [|c s [tail IH]]; [by exists ""|]. cbn [complete_prefix].
  case_match; [|by exists (String c s)]. exists tail. by rewrite str_app_cons, <- IH.
Qed.
Lemma truncate_complete s :
  (if negb (is_empty_str s) && negb (ends_nl s) then complete_prefix s else s) = complete_prefix s.
Proof.
  destruct (ends_nl s) eqn:He; [rewrite andb_false_r, complete_prefix_full by (by right); done|].
  by destruct s.
Qed.

(** A newline always ends a line, so the lines of what precedes it and of what
    follows it can be split apart. *)
Lemma splitlines_from_app s t cur :
  ends_nl s = true → splitlines_from cur (s +:+ t) = splitlines_from cur s ++ splitlines t.
Proof.
  remember (String.length s) as len eqn:Hlen. revert s cur Hlen.
  induction (lt_wf len) as [len _ IH]; intros s cur ->. destruct s as [|c s]; [done|].
  intros Hs. rewrite str_app_cons. cbn [splitlines_from]. destruct (Ascii.eqb c nl) eqn:Hc.
  - destruct s as [|d s]; [done|]. rewrite (IH (String.length (String d s))); [done|simpl; lia|done|done].
  - destruct s as [|d s]; [simpl in Hs; congruence|]. change (ends_nl (String d s) = true) in Hs.
    destruct (Ascii.eqb c cr).
    + rewrite str_app_cons. destruct (Ascii.eqb d nl) eqn:Hd.
      * destruct s as [|d' s]; [done|].
        rewrite (IH (String.length (String d' s))); [done|simpl; lia|done|done].
      * rewrite <- str_app_cons, (IH (String.length (String d s))); [done|simpl; lia|done|done].
    + rewrite (IH (String.length (String d s))); [done|simpl; lia|done|done].
Qed.
Lemma splitlines_from_snoc s cur :
  ends_nl s = true → ∃ ls l, splitlines_from cur s = ls ++ [l] ∧ ends_nl l = true.
Proof.
  remember (String.length s) as len eqn:Hlen. revert s cur Hlen.
  induction (lt_wf len) as [len _ IH]; intros s cur ->. destruct s as [|c s]; [done|].
  assert (∀ s' l0, (String.length s' < String.length (String c s))%nat →
            s' = "" ∧ ends_nl l0 = true ∨ ends_nl s' = true →
            ∃ ls l, l0 :: splitlines_from "" s' = ls ++ [l] ∧ ends_nl l = true) as Hrec.
  { intros s' l0 Hl [[-> Hl0]|Hs']; [by exists [], l0|].
    destruct (IH _ Hl s' "" eq_refl Hs') as (ls & l & -> & He). by exists (l0 :: ls), l. }
  assert (∀ d t s', Ascii.eqb d nl = true → ends_nl (String d s') = true →
            s' = "" ∧ ends_nl (String.rev (String d t)) = true ∨ ends_nl s' = true) as Hnl.
  { intros d t s' Hd Hs'. destruct s' as [|d' s']; [left|by right]. split; [done|].
    by rewrite str_rev_cons, ends_nl_app. }
  intros Hs. cbn [splitlines_from]. destruct (Ascii.eqb c nl) eqn:Hc; [apply Hrec; [simpl; lia|by apply Hnl]|].
  destruct s as [|d s]; [simpl in Hs; congruence|]. change (ends_nl (String d s) = true) in Hs.
  destruct (Ascii.eqb c cr); [|apply (IH (String.length (String d s))); [simpl; lia|done|done]].
  destruct (Ascii.eqb d nl) eqn:Hd; apply Hrec; try (simpl; lia); [by apply Hnl|by right].
Qed.

Definition hash_after (prior : option string) (es : list ExperimentEvent) : option string :=
  match last es with Some e => ev_event_hash e | None => prior end.
Lemma hash_after_cons prior e es : hash_after prior (e :: es) = hash_after (ev_event_hash e) es.
Proof.
  unfold hash_after. destruct es as [|f es]; [done|].
  change (last (e :: f :: es)) with (last (f :: es)).
  destruct (last (f :: es)) eqn:Hl; [done|]. by apply last_None in Hl.
Qed.
(** Terminated lines are read one by one, whatever follows them. *)
Lemma read_lines_split l1 l2 n prior :
  (∀ l, last l1 = Some l → ends_nl l = true) →
  read_lines (l1 ++ l2) n prior =
  (es1 ← read_lines l1 n prior;
   es2 ← read_lines l2 (n + Z.of_nat (length es1)) (hash_after prior es1);
   mret (es1 ++ es2)).
Proof.
  revert n prior. induction l1 as [|raw l1 IH]; intros n prior Hl; simpl.
  - rewrite Z.add_0_r. change (hash_after prior []) with prior. by destruct (read_lines l2 n prior).
  - assert (∀ rest : list string, bool_decide (l1 ++ rest = []) && negb (ends_nl raw) = false) as Hfin.
    { intros rest. destruct l1; [|done]. rewrite (Hl raw) by done. by rewrite andb_false_r. }
    rewrite (Hfin l2). pose proof (Hfin []) as Hnil. rewrite app_nil_r in Hnil. rewrite Hnil.
    destruct (event_parse_json raw) as [e|]; [|done].
    destruct (bool_decide (ev_sequence e = _)); [|done].
    destruct (bool_decide (ev_prior_event_hash e = _)); [|done].
    destruct (bool_decide (ev_event_hash e = _)); [|done]. simpl.
    rewrite IH by (intros l Hlast; apply Hl; by destruct l1).
    destruct (read_lines l1 (n + 1) (ev_event_hash e)) as [es1|]; [|done]. simpl.
    rewrite hash_after_cons.
    replace (n + Z.of_nat (S (length es1)))%Z with (n + 1 + Z.of_nat (length es1))%Z by lia.
    by destruct (read_lines l2 _ _).
Qed.
Lemma read_path_app s t :
  s = "" ∨ ends_nl s = true →
  _read_path (Some (s +:+ t)) =
  (es1 ← _read_path (Some s);
   es2 ← read_lines (splitlines t) (Z.of_nat (length es1)) (hash_after None es1);
   mret (es1 ++ es2)).
Proof.
  intros [->|Hs]; simpl.
  - change ("" +:+ t) with t. change (hash_after None []) with (@None string).
    change (Z.of_nat 0) with 0%Z. by destruct (read_lines (splitlines t) 0 None).
  - unfold splitlines at 1. rewrite splitlines_from_app by done.
    destruct (splitlines_from_snoc s "" Hs) as (ls & l & Hls & Hl).
    rewrite read_lines_split; [done|]. rewrite Hls, last_snoc. by intros ? [= <-].
Qed.

Lemma splitlines_record e : splitlines (record_of e) = [record_of e].
Proof.
  pose proof (splitlines_committed [e] "" eq_refl) as H. simpl in H. by rewrite !str_app_nil_r in H.
Qed.

Definition segment_bytes (w : string) (s : fs) : string := default "" (fs_events s !! w).

Lemma read_segment_bytes w s :
  safe_writer w = true → read_segment w s = _read_path (Some (segment_bytes w s)).
Proof.
  intros Hw. unfold read_segment, _segment, segment_bytes. rewrite Hw.
  by destruct (fs_events s !! w) eqn:Hs; simpl; rewrite ?Hs.
Qed.

(** [prepare_append] on any file: a torn tail may go, even when the event is
    refused; when it returns, the event extends what was read. *)
Lemma prepare_append_any e s s' res :
  prepare_append e s = (s', res) →
  (segment_bytes (ev_writer_id e) s' = segment_bytes (ev_writer_id e) s ∨
   segment_bytes (ev_writer_id e) s' = complete_prefix (segment_bytes (ev_writer_id e) s)) ∧
  (∀ w, w ≠ ev_writer_id e → fs_events s' !! w = fs_events s !! w) ∧
  ∀ path raw sl, res = Ok (path, raw, sl) →
    safe_writer path = true ∧ path = ev_writer_id e ∧ raw = complete_prefix (segment_bytes path s) ∧
    sl = with_event_hash (Some (calculated_hash e)) e ∧
    ∃ es, _read_path (Some (segment_bytes path s)) = Ok es ∧
      ev_sequence e = (Z.of_nat (length es) + 1)%Z ∧ ev_prior_event_hash e = last_hash es.
Proof.
  unfold prepare_append, _segment, segment_bytes. intros H. prog_simpl_in H.
  destruct (safe_writer (ev_writer_id e)) eqn:Hsafe; simpl in H; [|simplify_eq; split_and!; [by left|done|done]].
  change (read_lines (splitlines ?raw) 0 None) with (_read_path (Some raw)) in H.
  destruct (_read_path _) as [es|x] eqn:Hread in H; simpl in H; [|simplify_eq/=; split_and!;
    [left; by rewrite dict_lookup_insert_eq|by intros; rewrite dict_lookup_insert_ne|done]].
  rewrite truncate_complete in H.
  assert (∀ w, w ≠ ev_writer_id e → s'.(fs_events) !! w = fs_events s !! w) as Hframe.
  { intros w Hw. repeat case_match; simplify_eq/=; by rewrite !dict_lookup_insert_ne. }
  assert (fs_events s' !! ev_writer_id e
          = Some (complete_prefix (default "" (fs_events s !! ev_writer_id e)))) as Hbytes.
  { repeat case_match; simplify_eq/=; by rewrite dict_lookup_insert_eq. }
  split; [right; by rewrite Hbytes|]. split; [exact Hframe|]. intros path raw sl ->.
  destruct (bool_decide (ev_sequence e = _)) eqn:Hs; [|done].
  destruct (bool_decide (ev_prior_event_hash e = _)) eqn:Hp; [|done]. simpl in H.
  apply bool_decide_eq_true in Hs, Hp.
  destruct (sealed e) as [sl'|] eqn:Hsl; simplify_eq/=. apply sealed_ok in Hsl. eauto 10.
Qed.

#[local] Arguments _read_path {_ _} _ : simpl never.

(** C2: a successful [append_event], on whatever bytes the segment holds:
    the segment was readable, the event extends what was read, it is sealed
    with its own content hash and written after the last newline, and other
    segments are untouched.  The segment then reads back extended by exactly
    that event when the bytes after the last newline held no event, and no
    longer reads at all when they did (a record that lost its newline, which
    the append cuts off although it was counted). *)
Theorem append_event_extends e s s' r (w := ev_writer_id e) (raw := segment_bytes w s) :
  validate_ExperimentEvent e = Ok e →
  append_event e s = (s', Ok r) →
  ∃ es kept,
    read_segment w s = Ok es ∧ _read_path (Some (complete_prefix raw)) = Ok kept ∧
    kept `prefix_of` es ∧
    ev_sequence e = (Z.of_nat (length es) + 1)%Z ∧ ev_prior_event_hash e = last_hash es ∧
    r = with_event_hash (Some (calculated_hash e)) e ∧ ev_event_hash r = Some (calculated_hash r) ∧
    fs_events s' !! w = Some (complete_prefix raw +:+ record_of r) ∧
    (∀ w', w' ≠ w → fs_events s' !! w' = fs_events s !! w') ∧
    read_segment w s' = (if decide (kept = es) then Ok (es ++ [r])
                         else Err (Exn CorruptEventLogError "non-contiguous sequence")) ∧
    (∀ tail, raw = complete_prefix raw +:+ tail → no_eol tail = true →
      kept = es ↔ tail = "" ∨ event_parse_json tail = None).
Proof.
  intros Hv H. subst w raw. destruct (append_event_inv _ _ _ _ H) as (s1 & path & raw & Hprep & ->).
  destruct (prepare_append_any _ _ _ _ Hprep) as (_ & Hframe & Hok).
  destruct (Hok _ _ _ eq_refl) as (Hsafe & -> & -> & Hr & es & Hread & Hseq & Hprior).
  pose proof (complete_prefix_ends (segment_bytes (ev_writer_id e) s)) as Hends.
  destruct (complete_prefix_split (segment_bytes (ev_writer_id e) s)) as [tail0 Htail0].
  pose proof Hread as Hsplit. rewrite Htail0 in Hsplit. rewrite read_path_app in Hsplit by done.
  destruct (_read_path (Some (complete_prefix _))) as [kept|] eqn:Hkept in Hsplit; [|done].
  simpl in Hsplit. destruct (read_lines (splitlines tail0) _ _) as [more|] eqn:Hmore; [|done].
  injection Hsplit as <-.
  assert (kept = kept ++ more ↔ more = []) as Hmore_nil.
  { split; [|by intros ->; rewrite app_nil_r]. intros Heq%(f_equal length).
    rewrite length_app in Heq. apply nil_length_inv. lia. }
  subst r. set (r := with_event_hash _ e) in *.
  assert (ev_event_hash r = Some (calculated_hash r)) as Hhash by done.
  exists (kept ++ more), kept. rewrite !read_segment_bytes, Hread, Hkept by done.
  split_and!; try done; [by eexists|simpl; by rewrite dict_lookup_insert_eq
    |intros w' Hw'; simpl; by rewrite dict_lookup_insert_ne, Hframe| |].
  - unfold segment_bytes at 1. simpl. rewrite dict_lookup_insert_eq. simpl.
    rewrite read_path_app, Hkept by done. cbn [mbind result_bind].
    rewrite (splitlines_record r). cbn [read_lines].
    unfold record_of at 1. rewrite event_roundtrip by by apply validate_with_event_hash.
    case_decide as Hd.
    + apply Hmore_nil in Hd. rewrite Hd, app_nil_r in Hseq, Hprior |- *.
      by rewrite (bool_decide_true (ev_sequence r = _)), (bool_decide_true (ev_prior_event_hash r = _)),
        (bool_decide_true (ev_event_hash r = _)).
    + rewrite (bool_decide_false (ev_sequence r = _)); [done|]. change (ev_sequence r) with (ev_sequence e).
      rewrite Hseq, length_app. intros Hlen. apply Hd, Hmore_nil, nil_length_inv. lia.
  - intros tail Htail Hno. assert (tail = tail0) as -> by (eapply str_app_inj_l; by rewrite <- Htail).
    rewrite Hmore_nil. unfold splitlines in Hmore. rewrite splitlines_from_tail in Hmore by done.
    change (String.rev "" +:+ tail0) with tail0 in Hmore.
    case_decide as Ht; [simplify_eq/=; by split; [left|]|]. simpl in Hmore.
    rewrite ends_nl_no_eol in Hmore by done. simpl in Hmore.
    destruct (event_parse_json tail0) as [f|]; [|injection Hmore as <-; by split; [right|]].
    split; [|by intros [?|?]]. intros ->. exfalso. prog_inv Hmore.
Qed.

(** ** The executions of the writers of a store

    An append that returns or is refused, a writer killed after [open("a+b")]
    created its file, and a writer killed after any number [k] of the bytes of
    its record had reached the file ([0]: after the torn tail was cut off).
    The label says whether the kill lost exactly the newline of a whole
    record. *)
Inductive store_step : bool → fs → fs → Prop :=
  | step_append e s s' res :
      validate_ExperimentEvent e = Ok e → append_event e s = (s', res) → store_step false s s'
  | step_opened w s :
      safe_writer w = true →
      store_step false s (with_events (<[w := segment_bytes w s]> (fs_events s)) s)
  | step_torn e k s s' res :
      validate_ExperimentEvent e = Ok e → torn_append e k s = (s', res) →
      store_step (bool_decide (k = String.length (event_dump_json
                    (with_event_hash (Some (calculated_hash e)) e)))) s s'.
Definition any_step (s s' : fs) : Prop := ∃ lost, store_step lost s s'.

Lemma torn_append_inv e k s s' res :
  torn_append e k s = (s', res) →
  ∃ s1 r1, prepare_append e s = (s1, r1) ∧
    match r1 with
    | Err x => s' = s1 ∧ res = Err x
    | Ok (path, raw, sl) => res = Ok tt ∧
        s' = with_events (<[path := raw +:+ String.substring 0 k (record_of sl)]> (fs_events s1)) s1
    end.
Proof.
  unfold torn_append. intros H. prog_simpl_in H.
  destruct (prepare_append e s) as [s1 r1]. exists s1, r1. split; [done|].
  by destruct r1 as [[[path raw] sl]|x]; simplify_eq/=.
Qed.
Lemma append_event_cases e s s' res :
  append_event e s = (s', res) →
  ∃ s1 r1, prepare_append e s = (s1, r1) ∧
    match r1 with
    | Err x => s' = s1 ∧ res = Err x
    | Ok (path, raw, sl) => res = Ok sl ∧
        s' = with_events (<[path := raw +:+ record_of sl]> (fs_events s1)) s1
    end.
Proof.
  unfold append_event. intros H. prog_simpl_in H.
  destruct (prepare_append e s) as [s1 r1]. exists s1, r1. split; [done|].
  by destruct r1 as [[[path raw] sl]|x]; simplify_eq/=.
Qed.

(** What a step does to one segment: nothing, the cut of its torn tail, or
    that cut followed by the first bytes of one sealed record, none of them
    lost, only the newline, or more. *)
Inductive segment_change (s s' : fs) (w : string) (lost : bool) : Prop :=
  | change_none : segment_bytes w s' = segment_bytes w s → segment_change s s' w lost
  | change_cut : segment_bytes w s' = complete_prefix (segment_bytes w s) → segment_change s s' w lost
  | change_record e es k (sl := with_event_hash (Some (calculated_hash e)) e) :
      validate_ExperimentEvent e = Ok e → safe_writer w = true →
      _read_path (Some (segment_bytes w s)) = Ok es →
      ev_sequence e = (Z.of_nat (length es) + 1)%Z → ev_prior_event_hash e = last_hash es →
      lost = bool_decide (k = String.length (event_dump_json sl)) →
      segment_bytes w s'
      = complete_prefix (segment_bytes w s) +:+ String.substring 0 k (record_of sl) →
      segment_change s s' w lost.

Lemma substring_full k s : (String.length s ≤ k)%nat → String.substring 0 k s = s.
Proof.
  revert k. induction s as [|c s IH]; intros [|k] Hk; simpl in *; try done; [lia|].
  rewrite IH by lia. done.
Qed.
Lemma record_length e :
  String.length (record_of e) = S (String.length (event_dump_json e)).
Proof. unfold record_of. rewrite str_length_app. simpl. lia. Qed.

Lemma prepare_append_change e s s1 r1 s' w k lost
    (sl := with_event_hash (Some (calculated_hash e)) e) :
  validate_ExperimentEvent e = Ok e → prepare_append e s = (s1, r1) →
  match r1 with
  | Err _ => s' = s1
  | Ok (path, raw, sl) =>
      s' = with_events (<[path := raw +:+ String.substring 0 k (record_of sl)]> (fs_events s1)) s1
  end →
  lost = bool_decide (k = String.length (event_dump_json sl)) → segment_change s s' w lost.
Proof.
  intros Hv Hprep Hs' Hlost. destruct (prepare_append_any _ _ _ _ Hprep) as (Hbytes & Hframe & Hok).
  destruct r1 as [[[path raw] sl']|x].
  - destruct (Hok _ _ _ eq_refl) as (Hsafe & -> & -> & -> & es & Hread & Hseq & Hprior). subst s'.
    destruct (decide (w = ev_writer_id e)) as [->|Hw].
    + eapply change_record with (e := e) (k := k); try done.
      unfold segment_bytes at 1. simpl. by rewrite dict_lookup_insert_eq.
    + apply change_none. unfold segment_bytes. simpl.
      by rewrite dict_lookup_insert_ne, Hframe.
  - subst s'. destruct (decide (w = ev_writer_id e)) as [->|Hw].
    + destruct Hbytes; [by apply change_none|by apply change_cut].
    + apply change_none. unfold segment_bytes. by rewrite Hframe.
Qed.

Lemma store_step_change lost s s' w : store_step lost s s' → segment_change s s' w lost.
Proof.
  intros [e s1 s2 res Hv H|w' s1 Hw'|e k s1 s2 res Hv H].
  - destruct (append_event_cases _ _ _ _ H) as (s0 & r1 & Hprep & Hr).
    eapply (prepare_append_change e _ _ _ _ _ (String.length (record_of
      (with_event_hash (Some (calculated_hash e)) e)))); [done|done| |].
    + destruct (prepare_append_any _ _ _ _ Hprep) as (_ & _ & Hok).
      destruct r1 as [[[path raw] sl]|x]; [|by destruct Hr].
      destruct (Hok _ _ _ eq_refl) as (_ & -> & _ & -> & _). rewrite substring_all. by destruct Hr.
    + rewrite bool_decide_false; [done|]. rewrite record_length. lia.
  - apply change_none. unfold segment_bytes. simpl. destruct (decide (w = w')) as [->|Hw].
    + by rewrite dict_lookup_insert_eq.
    + by rewrite dict_lookup_insert_ne.
  - destruct (torn_append_inv _ _ _ _ _ H) as (s0 & r1 & Hprep & Hr).
    eapply prepare_append_change; [done|done| |done].
    destruct r1 as [[[path raw] sl]|x]; by destruct Hr.
Qed.

(** The complete lines of a segment are never changed, only followed by more. *)
Lemma store_step_lines lost s s' w :
  store_step lost s s' →
  ∃ more, complete_prefix (segment_bytes w s') = complete_prefix (segment_bytes w s) +:+ more.
Proof.
  intros Hstep. pose proof (complete_prefix_ends (segment_bytes w s)) as Hends.
  destruct (store_step_change _ _ _ w Hstep) as [->| -> |e es k sl _ _ _ _ _ _ ->].
  - exists "". by rewrite str_app_nil_r.
  - exists "". by rewrite str_app_nil_r, complete_prefix_full.
  - eexists. by apply complete_prefix_app_full.
Qed.

Lemma log_repr_complete raw es :
  log_repr raw es → complete_prefix raw = committed es ∧ _read_path (Some raw) = Ok es.
Proof.
  intros Hlog. split; [|by apply read_log]. destruct Hlog as (tail & -> & _ & Ht & _).
  by apply complete_prefix_app, committed_ends.
Qed.

(** A step that does not lose a newline keeps every segment a chain of whole
    records and a tail that is none. *)
Lemma store_step_log s s' w es :
  store_step false s s' → log_repr (segment_bytes w s) es →
  ∃ es', log_repr (segment_bytes w s') (es ++ es').
Proof.
  intros Hstep Hlog. destruct (log_repr_complete _ _ Hlog) as (Hc & Hread).
  pose proof Hlog as (tail & _ & Hes & _ & _).
  destruct (store_step_change _ _ _ w Hstep) as [->| -> |e es0 k sl Hv _ Hr Hseq Hprior Hk ->].
  - exists []. by rewrite app_nil_r.
  - exists []. rewrite app_nil_r, Hc. exists "". rewrite str_app_nil_r. split_and!; try done. by left.
  - rewrite Hread in Hr. injection Hr as <-. rewrite Hc.
    symmetry in Hk. apply bool_decide_eq_false in Hk.
    destruct (decide (k < String.length (event_dump_json sl))%nat) as [Hlt|Hge].
    + exists []. rewrite app_nil_r, substring_record by done. eexists. split_and!; [done|done| |].
      * apply substring_no_eol, event_dump_one_line.
      * right. by apply event_parse_cut_short.
    + exists [sl]. rewrite substring_full by (rewrite record_length; lia).
      exists "". rewrite str_app_nil_r, committed_app. simpl. rewrite str_app_nil_r.
      split_and!; [done| |done|by left]. apply chained_snoc. split; [done|].
      simpl. split_and!; try done. by apply validate_with_event_hash.
Qed.

(** C3: over any sequence of appends that return or are refused and of writers
    killed after any byte of their record, from any store, the complete lines
    of every segment only grow, and so do the events read from them as long as
    they read.  From an empty store, as long as no kill lost exactly the
    newline of a whole record, every segment stays readable and what it read
    at one moment is a prefix of what it reads at any later one. *)
Theorem segments_append_only s1 s2 w :
  rtc any_step s1 s2 →
  (∃ more, complete_prefix (segment_bytes w s2) = complete_prefix (segment_bytes w s1) +:+ more) ∧
  (∀ es1 es2, _read_path (Some (complete_prefix (segment_bytes w s1))) = Ok es1 →
     _read_path (Some (complete_prefix (segment_bytes w s2))) = Ok es2 → es1 `prefix_of` es2) ∧
  (safe_writer w = true → rtc (store_step false) empty_fs s1 → rtc (store_step false) s1 s2 →
     ∃ es1 es2, read_segment w s1 = Ok es1 ∧ read_segment w s2 = Ok (es1 ++ es2)).
Proof.
  intros Hsteps.
  assert (∃ more, complete_prefix (segment_bytes w s2)
                  = complete_prefix (segment_bytes w s1) +:+ more) as Hmore.
  { induction Hsteps as [s|s s' s'' [lost Hs] _ [more IH]]; [exists ""; by rewrite str_app_nil_r|].
    destruct (store_step_lines _ _ _ w Hs) as [m Hm]. exists (m +:+ more).
    by rewrite IH, Hm, str_app_assoc. }
  split; [done|]. destruct Hmore as [more Hmore]. split.
  { intros es1 es2 H1 H2. rewrite Hmore, read_path_app, H1 in H2 by apply complete_prefix_ends.
    prog_inv H2. by eexists. }
  intros Hw H1 H2. rewrite !read_segment_bytes by done.
  assert (∀ s s' es, rtc (store_step false) s s' → log_repr (segment_bytes w s) es →
            ∃ es', log_repr (segment_bytes w s') (es ++ es')) as Hrun.
  { intros s s' es Hr. revert es. induction Hr as [s|s s0 s' Hs _ IH]; intros es Hes.
    - exists []. by rewrite app_nil_r.
    - destruct (store_step_log _ _ _ _ Hs Hes) as [e1 He1]. destruct (IH _ He1) as [e2 He2].
      exists (e1 ++ e2). by rewrite app_assoc. }
  destruct (Hrun _ _ [] H1) as [es1 Hes1]; [apply log_repr_empty|].
  destruct (Hrun _ _ _ H2 Hes1) as [es2 Hes2]. exists es1, es2.
  split; by apply read_log.
Qed.

(** whatever bytes a segment holds, the events it reads back form one hash
    chain: valid transitions, sequence 1, 2, 3, ..., each naming the hash of
    its predecessor and carrying the hash of its own content. *)
Theorem read_segment_chained w s es : read_segment w s = Ok es → chained 0 None es.
Proof.
  unfold read_segment, _segment. intros H. destruct (safe_writer w); [|done].
  simpl in H. unfold _read_path in H. destruct (fs_events s !! w); simplify_eq; [|done].
  by eapply read_lines_chained.
Qed.

(** a crash that loses only the newline of a record corrupts the segment.
    The record still reads back as committed, so a writer extends it; its
    append first truncates to the last newline, which drops the record, and
    leaves a segment with a missing sequence number that no longer reads. *)
Theorem lost_newline_corrupts e1 e2 s s1 es (w := ev_writer_id e1)
    (sl := with_event_hash (Some (calculated_hash e1)) e1) :
  validate_ExperimentEvent e1 = Ok e1 → validate_ExperimentEvent e2 = Ok e2 →
  ev_writer_id e2 = w → ev_event_hash e2 = None →
  ev_sequence e2 = (ev_sequence e1 + 1)%Z → ev_prior_event_hash e2 = Some (calculated_hash e1) →
  log_state s w es →
  torn_append e1 (String.length (event_dump_json sl)) s = (s1, Ok tt) →
  read_segment w s1 = Ok (es ++ [sl]) ∧
  ∃ s2 r, append_event e2 s1 = (s2, Ok r) ∧
    read_segment w s2 = Err (Exn CorruptEventLogError "non-contiguous sequence").
Proof.
  subst w. intros Hv1 Hv2 Hw Hn Hseq Hprior Hlog Htorn.
  destruct (torn_append_run _ _ _ _ _ Hlog Htorn) as (Hsafe & Hs1 & Hp1 & Hfile).
  fold sl in Hfile. rewrite substring_record_all in Hfile.
  destruct Hlog as (tail & _ & Hc & _ & _).
  assert (chained 0 None (es ++ [sl])) as Hcs.
  { apply chained_snoc. split; [done|].
    split_and!; [by apply validate_with_event_hash|done..]. }
  pose proof (read_unterminated _ _ Hcs) as Hread.
  assert (∀ s', read_segment (ev_writer_id e1) s' = _read_path (fs_events s' !! ev_writer_id e1))
    as Hseg by (intros s'; unfold read_segment, _segment; by rewrite Hsafe).
  rewrite Hseg, Hfile. split; [done|].
  destruct (append_event_run e2 s1 es (event_dump_json sl) (es ++ [sl])) as (s2 & H2 & Hf2);
    rewrite ?Hw, ?length_app, ?Hseq, ?Hs1; try done.
  - by rewrite Hfile.
  - apply event_dump_one_line.
  - simpl. lia.
  - unfold last_hash. by rewrite last_snoc.
  - exists s2, (with_event_hash (Some (calculated_hash e2)) e2). split; [done|].
    rewrite Hseg. rewrite Hw in Hf2. rewrite Hf2. unfold _read_path.
    set (sl2 := with_event_hash _ e2).
    replace (committed es +:+ record_of sl2) with (committed (es ++ [sl2]) +:+ "")
      by (rewrite committed_app; simpl; by rewrite !str_app_nil_r).
    rewrite splitlines_committed, map_app, <- app_assoc, read_lines_app by done. simpl.
    unfold record_of. rewrite event_roundtrip by by apply validate_with_event_hash.
    rewrite (bool_decide_false (ev_sequence sl2 = _)); [done|]. simpl. lia.
Qed.

(** ** Artifacts and records *)
Lemma remove_prefix_digest h : remove_sha256_prefix ("sha256:" +:+ h) = h.
Proof.
  unfold remove_sha256_prefix.
  replace (startswith ("sha256:" +:+ h) "sha256:") with true by (by destruct h).
  replace (String.length ("sha256:" +:+ h) - 7)%nat with (String.length h)
    by (change (String.length ("sha256:" +:+ h)) with (7 + String.length h)%nat; lia).
  change 7%nat with (String.length "sha256:"). by rewrite substring_app_r, substring_all.
Qed.

(** an artifact that [put_artifact] accepted reads back as the same bytes
    under the digest it returned, every artifact readable before is still
    readable as it was, and storing the same bytes again changes nothing. *)
Theorem put_artifact_roundtrip content s s' digest :
  put_artifact content s = (s', Ok digest) →
  get_artifact digest s' = Ok content ∧
  (∀ d c, get_artifact d s = Ok c → get_artifact d s' = Ok c) ∧
  put_artifact content s' = (s', Ok digest).
Proof.
  unfold put_artifact. prog_simpl. intros H.
  assert (∀ s, fs_artifacts s !! sha256_hex content = Some content →
            get_artifact ("sha256:" +:+ sha256_hex content) s = Ok content) as Hget.
  { intros s0 Hl. unfold get_artifact. rewrite is_digest_sha256 by apply sha256_hex_shape.
    simpl. rewrite remove_prefix_digest, Hl, bool_decide_true by done. done. }
  destruct (fs_artifacts s !! sha256_hex content) as [present|] eqn:Hp.
  - destruct (bool_decide (present = content)) eqn:Hb; simplify_eq/=.
    apply bool_decide_eq_true in Hb as ->. split_and!; [by apply Hget|done|].
    by rewrite Hp, bool_decide_true.
  - simplify_eq/=. rewrite dict_lookup_insert_eq, bool_decide_true by done.
    split_and!; [|intros d c|done].
    + apply Hget. simpl. by rewrite dict_lookup_insert_eq.
    + unfold get_artifact. destruct (is_digest d); [|done]. simpl. intros Hg.
      destruct (fs_artifacts s !! remove_sha256_prefix d) eqn:Hd; [|done].
      rewrite dict_lookup_insert_ne, Hd by congruence. done.
Qed.

(** A directory of records: every file is the text of a valid record, under
    the hash of that record. *)
Definition records_ok {A} (validate : A → result A) {C : RecordCodec validate}
    (content_hash : A → string) (dir : dict string string) : Prop :=
  ∀ stem payload, dir !! stem = Some payload → ∃ r, validate r = Ok r ∧
    payload = record_dump_json r +:+ String nl "" ∧ stem = remove_sha256_prefix (content_hash r).

Lemma records_ok_empty {A} (validate : A → result A) {C : RecordCodec validate} content_hash :
  records_ok validate content_hash ∅.
Proof. by intros stem payload H. Qed.

Lemma read_records_ok {A} (validate : A → result A) {C : RecordCodec validate} content_hash dir :
  records_ok validate content_hash dir →
  ∃ rs, read_records record_parse_json content_hash dir = Ok rs ∧
    ∀ r, validate r = Ok r → r ∈ rs ↔
      dir !! remove_sha256_prefix (content_hash r) = Some (record_dump_json r +:+ String nl "").
Proof.
  intros Hok. unfold read_records.
  set (read := λ stem, match dir !! stem with Some payload => _ | None => _ end).
  assert (∀ stem, is_Some (dir !! stem) → ∃ r, read stem = Ok r ∧ validate r = Ok r ∧
            stem = remove_sha256_prefix (content_hash r) ∧
            dir !! stem = Some (record_dump_json r +:+ String nl "")) as Hread.
  { intros stem [payload Hp]. destruct (Hok _ _ Hp) as (r & Hv & -> & Hs). exists r.
    unfold read. rewrite Hp, record_roundtrip, bool_decide_true by done. done. }
  assert (∀ stems, (∀ x, x ∈ stems → is_Some (dir !! x)) →
            ∃ rs, map_result read stems = Ok rs ∧ ∀ r, r ∈ rs ↔ ∃ x, x ∈ stems ∧ read x = Ok r) as Hall.
  { induction stems as [|x stems IH]; intros Hx.
    - exists []. split; [done|]. intros r.
      split; [by intros ?%elem_of_nil | by intros (x & ?%elem_of_nil & _)].
    - destruct IH as (rs & Hrs & Hin); [intros y Hy; apply Hx; by right|].
      destruct (Hread x) as (r & Hr & _); [apply Hx; by left|].
      exists (r :: rs). simpl. rewrite Hr, Hrs. split; [done|]. intros r'.
      rewrite elem_of_cons, Hin. split.
      + intros [->|(y & ? & ?)]; [exists x|exists y]; split; try done; [left|by right].
      + intros (y & [->|Hy]%elem_of_cons & Hr'); [left; congruence|right; by exists y]. }
  destruct (Hall (sort_by (λ stem, stem +:+ ".json") (keys dir))) as (rs & Hrs & Hin).
  { intros x. rewrite elem_of_sort_by. apply elem_of_keys. }
  exists rs. split; [done|]. intros r Hv. rewrite Hin. split.
  - intros (x & Hx & Hr). rewrite elem_of_sort_by, elem_of_keys in Hx.
    destruct (Hread x Hx) as (r' & Hr' & _ & -> & Hd). congruence.
  - intros Hd. exists (remove_sha256_prefix (content_hash r)).
    rewrite elem_of_sort_by, elem_of_keys. split; [by eexists|].
    unfold read. rewrite Hd, record_roundtrip, bool_decide_true by done. done.
Qed.

Lemma put_record_ok {A} (validate : A → result A) {C : RecordCodec validate} content_hash dir dir' r :
  validate r = Ok r → records_ok validate content_hash dir →
  put_record (content_hash r) (record_dump_json r +:+ String nl "") dir = Ok dir' →
  records_ok validate content_hash dir' ∧
  dir' !! remove_sha256_prefix (content_hash r) = Some (record_dump_json r +:+ String nl "") ∧
  (∀ stem payload, dir !! stem = Some payload → dir' !! stem = Some payload).
Proof.
  intros Hv Hok. unfold put_record. set (stem := remove_sha256_prefix (content_hash r)).
  destruct (dir !! stem) as [present|] eqn:Hp; intros H; prog_simpl_in H.
  - destruct (bool_decide (present = _)) eqn:Hb; simplify_eq/=.
    by apply bool_decide_eq_true in Hb as ->.
  - simplify_eq/=. rewrite dict_lookup_insert_eq. split_and!; [|done|].
    + intros x payload. rewrite dict_lookup_insert. case_decide as Hx; [|apply Hok].
      intros [= <-]. subst x. by exists r.
    + intros x payload Hx. rewrite dict_lookup_insert_ne by congruence. done.
Qed.

(** [put_experiment] keeps the record directory readable, never loses a
    record, and [read_experiments] afterwards returns the new experiment. *)
Theorem put_experiment_roundtrip {XC : RecordCodec validate_Experiment} e s s' digest :
  validate_Experiment e = Ok e → records_ok validate_Experiment Experiment_content_hash (fs_experiments s) →
  put_experiment e s = (s', Ok digest) →
  digest = Experiment_content_hash e ∧
  records_ok validate_Experiment Experiment_content_hash (fs_experiments s') ∧
  ∃ before after, read_experiments s = Ok before ∧ read_experiments s' = Ok after ∧
    e ∈ after ∧ (∀ r, validate_Experiment r = Ok r → r ∈ before → r ∈ after).
Proof.
  intros Hv Hok H. unfold put_experiment in H. prog_simpl_in H.
  destruct (put_record _ _ _) as [d|] eqn:Hput; simplify_eq/=.
  destruct (put_record_ok _ _ _ _ _ Hv Hok Hput) as (Hok' & Hd & Hkeep).
  destruct (read_records_ok _ _ _ Hok) as (before & Hb & Hbin).
  destruct (read_records_ok _ _ _ Hok') as (after & Ha & Hain).
  split_and!; [done|done|]. exists before, after. split_and!; [done|done|by apply Hain|].
  intros r Hr. rewrite Hbin, Hain by done. apply Hkeep.
Qed.
End store_facts.
