(* ===== verification/Metrics.v ===== *)
(** * Repeated-trial statistics and Pareto fronts ([arena/metrics.py])

    Summaries of observations, admissibility intervals, dominance with a tolerance
    and the front of the candidates no admissible one dominates.  Observations
    may be infinite or [nan]; objectives are finite, as their constructor demands,
    and so is a mean, which [fmean] returns or raises.  A mapping of
    summaries is a [dict]; [KeyError] of a missing metric is part of [_dominates]. *)
From S2P Require Import Prelude PyDict PyFloat PyStats Canonical Models.
Local Open Scope Z_scope.

Inductive MetricDirection := MAXIMIZE | MINIMIZE.
#[export] Instance MetricDirection_eq_dec : EqDecision MetricDirection.
Proof. solve_decision. Defined.

Record MetricObjective := {
  mo_name : string; mo_direction : MetricDirection; mo_minimum : option float;
  mo_maximum : option float; mo_tolerance : float }.
Definition validate_MetricObjective (o : MetricObjective) : result MetricObjective :=
  err_if (blank (mo_name o)) ValueError "metric objective name must not be empty" ;;
  err_if (match mo_minimum o, mo_maximum o with Some lo, Some hi => hi <? lo | _, _ => false end)
    ValueError "minimum must not exceed maximum" ;;
  err_if (mo_tolerance o <? 0) ValueError "tolerance must be non-negative" ;;
  mret o.
Definition accepts (o : MetricObjective) (value : float) : bool :=
  negb (match mo_minimum o with Some lo => value <? fsub lo (mo_tolerance o) | None => false end) &&
  negb (match mo_maximum o with Some hi => fadd hi (mo_tolerance o) <? value | None => false end).

Record MetricSummary := {
  su_count : Z; su_mean : float; su_standard_deviation : float; su_minimum : float;
  su_maximum : float; su_confidence_low : xfloat; su_confidence_high : xfloat }.
#[export] Instance MetricSummary_eq_dec : EqDecision MetricSummary.
Proof. solve_decision. Defined.

(** [min] and [max] of a non-empty tuple *)
Definition fmin (x : float) (xs : list float) : float := foldl Z.min x xs.
Definition fmax (x : float) (xs : list float) : float := foldl Z.max x xs.
(** [mean - margin] and [mean + margin] *)
Definition below (mean : float) (margin : xfloat) : xfloat :=
  match margin with Fin m => to_range (fsub mean m) | PosInf => NegInf | NegInf => PosInf | NaN => NaN end.
Definition above (mean : float) (margin : xfloat) : xfloat :=
  match margin with Fin m => to_range (fadd mean m) | x => x end.
(** [z * deviation / math.sqrt(n)]: an overflowing product is an infinity, no error. *)
Definition margin_of (z deviation : float) (n : nat) : xfloat :=
  match to_range (fmul z deviation) with Fin p => Fin (fdiv p (fsqrt_Z (Z.of_nat n))) | x => x end.
(** [math.isfinite] of every observation *)
Fixpoint all_finite (values : list xfloat) : option (list float) :=
  match values with
  | [] => Some []
  | v :: values => x ← finite v; xs ← all_finite values; Some (x :: xs)
  end.
Definition summarize (values : list xfloat) (confidence_z : xfloat) : result MetricSummary :=
  err_if (bool_decide (values = [])) ValueError "at least one observation is required" ;;
  match finite confidence_z with
  | None => Err (Exn ValueError "confidence_z must be finite and non-negative")
  | Some z =>
      err_if (z <? 0) ValueError "confidence_z must be finite and non-negative" ;;
      match all_finite values with
      | None | Some [] => Err (Exn ValueError "metric observations must all be finite")
      | Some ((x :: xs) as observations) =>
          mean ← fmean observations;
          deviation ← (if (1 <? length observations)%nat then fstdev observations else mret 0);
          let margin := margin_of z deviation (length observations) in
          mret {| su_count := Z.of_nat (length observations); su_mean := mean; su_standard_deviation := deviation;
                  su_minimum := fmin x xs; su_maximum := fmax x xs;
                  su_confidence_low := below mean margin; su_confidence_high := above mean margin |}
      end
  end.
(** The default [confidence_z=1.96]. *)
Definition default_z : float := f_ratio 196 100.

Record ParetoCandidate := { pc_experiment_id : string; pc_metrics : dict string MetricSummary }.
Record VerifiedParetoCandidate := { vc_candidate : ParetoCandidate; vc_result_hash : string }.

(** [candidate.metrics[name].mean] *)
Definition mean_of (c : ParetoCandidate) (name : string) : result float :=
  match pc_metrics c !! name with Some s => Ok (su_mean s) | None => Err (Exn KeyError name) end.
(** What one objective contributes: weakly better, strictly better. *)
Definition compares (o : MetricObjective) (left_value right_value : float) : bool * bool :=
  let tolerance := mo_tolerance o in
  match mo_direction o with
  | MAXIMIZE => (fsub right_value tolerance <=? left_value, fadd right_value tolerance <? left_value)
  | MINIMIZE => (left_value <=? fadd right_value tolerance, left_value <? fsub right_value tolerance)
  end.
Fixpoint dominance (left right : ParetoCandidate) (objectives : list MetricObjective) (weakly strictly : bool) : result bool :=
  match objectives with
  | [] => Ok (weakly && strictly)
  | o :: objectives =>
      left_value ← mean_of left (mo_name o);
      right_value ← mean_of right (mo_name o);
      let '(w, s) := compares o left_value right_value in
      dominance left right objectives (weakly && w) (strictly || s)
  end.
Definition _dominates (left right : ParetoCandidate) (objectives : list MetricObjective) : result bool :=
  dominance left right objectives true false.

(** The test of one candidate in the loop over [ordered]. *)
Definition admissible (objectives : list MetricObjective) (c : ParetoCandidate) : bool :=
  forallb (λ o, match pc_metrics c !! mo_name o with Some s => accepts o (su_mean s) | None => false end) objectives.
(** [any(_dominates(other, candidate, objectives) for other in others if ...)] *)
Fixpoint any_dominates (candidate : ParetoCandidate) (objectives : list MetricObjective)
    (others : list ParetoCandidate) : result bool :=
  match others with
  | [] => Ok false
  | other :: others =>
      if bool_decide (pc_experiment_id other = pc_experiment_id candidate) then any_dominates candidate objectives others
      else
        dominated ← _dominates other candidate objectives;
        match dominated with true => Ok true | false => any_dominates candidate objectives others end
  end.
Fixpoint undominated (objectives : list MetricObjective) (all candidates : list ParetoCandidate) : result (list ParetoCandidate) :=
  match candidates with
  | [] => Ok []
  | c :: candidates =>
      dominated ← any_dominates c objectives all;
      rest ← undominated objectives all candidates;
      Ok (match dominated with true => rest | false => c :: rest end)
  end.
Definition pareto_frontier (candidates : list ParetoCandidate) (objectives : list MetricObjective) :
    result (list ParetoCandidate) :=
  err_if (bool_decide (objectives = [])) ValueError "at least one Pareto objective is required" ;;
  err_if (negb (all_unique (mo_name <$> objectives))) ValueError "Pareto objective names must be unique" ;;
  let ordered := sort_by pc_experiment_id candidates in
  err_if (existsb blank (pc_experiment_id <$> ordered)) ValueError "experiment IDs must not be empty" ;;
  err_if (negb (all_unique (pc_experiment_id <$> ordered))) ValueError "experiment IDs must be unique" ;;
  let all := List.filter (admissible objectives) ordered in
  undominated objectives all all.

Section verified.
Context {PF : Platform}.
Definition from_verified_result (r : Result) (metrics : dict string MetricSummary) : result VerifiedParetoCandidate :=
  err_if (negb (bool_decide (re_verification r = VerificationState.VALID))) ValueError
    "Pareto admission requires a verified-valid result" ;;
  mret {| vc_candidate := {| pc_experiment_id := re_experiment_id r; pc_metrics := metrics |};
          vc_result_hash := Result_content_hash r |}.
End verified.

(** [by_id[key]] *)
Definition by_experiment (d : dict string VerifiedParetoCandidate) (id : string) : result VerifiedParetoCandidate :=
  match d !! id with Some v => Ok v | None => Err (Exn KeyError id) end.
Definition verified_pareto_frontier (candidates : list VerifiedParetoCandidate) (objectives : list MetricObjective) :
    result (list VerifiedParetoCandidate) :=
  let by_id := dict_by (λ v, pc_experiment_id (vc_candidate v)) candidates in
  err_if (negb (length (keys by_id) =? length candidates)%nat) ValueError
    "verified candidate experiment IDs must be unique" ;;
  frontier ← pareto_frontier (vc_candidate <$> candidates) objectives;
  map_result (λ c, by_experiment by_id (pc_experiment_id c)) frontier.
