(* ===== verification/MetricsFacts.v ===== *)
(** * What summaries and Pareto fronts guarantee

    A summary brackets its mean; the front is exactly the admissible candidates no
    other admissible one beats, whatever order they come in; without tolerances the
    front covers every admissible candidate, with them it may be empty. *)
From S2P Require Import Prelude PyDict PyFloat PyStats Canonical Models Metrics.
Local Open Scope Z_scope.

(** ** Dominance without the exceptions *)
Definition value_of (c : ParetoCandidate) (o : MetricObjective) : float :=
  match pc_metrics c !! mo_name o with Some s => su_mean s | None => 0 end.
Definition beats (os : list MetricObjective) (l r : ParetoCandidate) : bool :=
  forallb (λ o, (compares o (value_of l o) (value_of r o)).1) os &&
  existsb (λ o, (compares o (value_of l o) (value_of r o)).2) os.
(** [d] is another candidate that beats [c]. *)
Definition beaten_by (os : list MetricObjective) (c d : ParetoCandidate) : bool :=
  negb (bool_decide (pc_experiment_id d = pc_experiment_id c)) && beats os d c.

Lemma admissible_cons o os c : admissible (o :: os) c = true →
  mean_of c (mo_name o) = Ok (value_of c o) ∧ accepts o (value_of c o) = true ∧ admissible os c = true.
Proof.
  unfold admissible, mean_of, value_of. simpl. destruct (pc_metrics c !! mo_name o); [|done].
  by intros [? ?]%andb_prop.
Qed.
Lemma dominance_ok l r os w s : admissible os l = true → admissible os r = true →
  dominance l r os w s = Ok ((w && forallb (λ o, (compares o (value_of l o) (value_of r o)).1) os) &&
                             (s || existsb (λ o, (compares o (value_of l o) (value_of r o)).2) os)).
Proof.
  revert w s. induction os as [|o os IH]; intros w s Hl Hr; simpl.
  - by rewrite andb_true_r, orb_false_r.
  - apply admissible_cons in Hl as (Hl & _ & Hl'), Hr as (Hr & _ & Hr'). rewrite Hl, Hr. cbn -[compares].
    destruct (compares _ _ _) as [w' s']. rewrite IH by done. by rewrite andb_assoc, orb_assoc.
Qed.
Lemma dominates_ok l r os : admissible os l = true → admissible os r = true → _dominates l r os = Ok (beats os l r).
Proof. intros. unfold _dominates. by rewrite dominance_ok. Qed.

Lemma any_dominates_ok os c all : admissible os c = true → (∀ d, d ∈ all → admissible os d = true) →
  any_dominates c os all = Ok (existsb (beaten_by os c) all).
Proof.
  intros Hc. induction all as [|d all IH]; intros Hall; [done|]. cbn [any_dominates existsb]. unfold beaten_by at 1.
  rewrite IH by (intros; apply Hall; by right). case_bool_decide; [done|].
  rewrite dominates_ok by (done || (apply Hall; by left)). by destruct (beats os d c).
Qed.
Lemma undominated_ok os all cs : (∀ d, d ∈ all → admissible os d = true) → (∀ c, c ∈ cs → admissible os c = true) →
  undominated os all cs = Ok (List.filter (λ c, negb (existsb (beaten_by os c) all)) cs).
Proof.
  intros Hall. induction cs as [|c cs IH]; intros Hcs; [done|]. cbn [undominated List.filter].
  rewrite any_dominates_ok, IH by (done || (intros; apply Hcs; by (left || right))). simpl. by destruct (existsb _ _).
Qed.

(** ** The front *)
Definition ids (cs : list ParetoCandidate) : list string := pc_experiment_id <$> cs.
Definition well_posed (cs : list ParetoCandidate) (os : list MetricObjective) : Prop :=
  os ≠ [] ∧ NoDup (mo_name <$> os) ∧ (∀ c, c ∈ cs → blank (pc_experiment_id c) = false) ∧ NoDup (ids cs).
#[export] Instance well_posed_dec cs os : Decision (well_posed cs os).
Proof.
  refine (cast_if (decide (os ≠ [] ∧ NoDup (mo_name <$> os) ∧ Forall (λ c, blank (pc_experiment_id c) = false) cs ∧ NoDup (ids cs))));
    unfold well_posed; by rewrite <- Forall_forall.
Defined.
Definition front (cs : list ParetoCandidate) (os : list MetricObjective) : list ParetoCandidate :=
  let all := List.filter (admissible os) (sort_by pc_experiment_id cs) in
  List.filter (λ c, negb (existsb (beaten_by os c) all)) all.

Lemma all_unique_false xs : all_unique xs = false ↔ ¬ NoDup xs.
Proof. rewrite <- all_unique_NoDup. by destruct (all_unique xs). Qed.
Lemma ids_sorted cs : ids (sort_by pc_experiment_id cs) ≡ₚ ids cs.
Proof. unfold ids. by rewrite sort_by_perm. Qed.
Lemma blank_ids_sorted cs : existsb blank (ids (sort_by pc_experiment_id cs)) = false ↔
  ∀ c, c ∈ cs → blank (pc_experiment_id c) = false.
Proof.
  rewrite existsb_elem_of_false. unfold ids. setoid_rewrite list_elem_of_fmap. split.
  - intros H c Hc. apply H. exists c. by rewrite elem_of_sort_by.
  - intros H y (c & -> & Hc). apply H. by rewrite elem_of_sort_by in Hc.
Qed.

Lemma frontier_ok cs os : well_posed cs os → pareto_frontier cs os = Ok (front cs os).
Proof.
  intros (H1 & H2 & H3 & H4). unfold pareto_frontier. rewrite bool_decide_eq_false_2 by done. cbn [err_if].
  rewrite (proj2 (all_unique_NoDup _) H2). change (pc_experiment_id <$> ?x) with (ids x).
  rewrite (proj2 (blank_ids_sorted cs) H3), (proj2 (all_unique_NoDup _)) by (by rewrite ids_sorted).
  cbn -[undominated]. apply undominated_ok; intros c [? _]%elem_of_filter_bool; done.
Qed.
Lemma frontier_err cs os : ¬ well_posed cs os → ∃ e, pareto_frontier cs os = Err e ∧ exn_kind e = ValueError ∧
  ∀ cs', cs ≡ₚ cs' → pareto_frontier cs' os = Err e.
Proof.
  intros Hw. unfold pareto_frontier. change (pc_experiment_id <$> ?x) with (ids x).
  assert (∀ cs', cs ≡ₚ cs' → existsb blank (ids (sort_by pc_experiment_id cs')) = existsb blank (ids (sort_by pc_experiment_id cs)) ∧
    all_unique (ids (sort_by pc_experiment_id cs')) = all_unique (ids (sort_by pc_experiment_id cs))) as Hp.
  { intros cs' Hp. split; apply eq_bool_prop_intro.
    - rewrite !Is_true_true, !existsb_elem_of. setoid_rewrite ids_sorted. unfold ids. by setoid_rewrite Hp.
    - rewrite !Is_true_true, !all_unique_NoDup, !ids_sorted. unfold ids. by rewrite Hp. }
  case_bool_decide as H1; [eexists; split_and!; done|]. cbn [negb err_if].
  destruct (all_unique (mo_name <$> os)) eqn:H2; [|eexists; split_and!; done].
  destruct (existsb blank _) eqn:H3.
  { eexists. split_and!; [done..|]. intros cs' Hc. destruct (Hp cs' Hc) as [-> _]. done. }
  destruct (all_unique (ids _)) eqn:H4.
  { destruct Hw. split_and!; [done|by apply all_unique_NoDup|by apply blank_ids_sorted|].
    apply all_unique_NoDup in H4. by rewrite ids_sorted in H4. }
  eexists. split_and!; [done..|]. intros cs' Hc. destruct (Hp cs' Hc) as [-> ->]. done.
Qed.
Lemma frontier_ok_inv cs os f : pareto_frontier cs os = Ok f → well_posed cs os ∧ f = front cs os.
Proof.
  intros Hf. destruct (decide (well_posed cs os)) as [Hw|Hw].
  - rewrite frontier_ok in Hf by done. by injection Hf.
  - destruct (frontier_err cs os Hw) as (e & He & _). congruence.
Qed.
Lemma front_Permutation cs cs' os : NoDup (ids cs) → cs ≡ₚ cs' → front cs os = front cs' os.
Proof. intros. unfold front. by rewrite (sort_by_Permutation pc_experiment_id cs cs'). Qed.
Lemma elem_of_front cs os c : c ∈ front cs os ↔
  c ∈ cs ∧ admissible os c = true ∧ ∀ d, d ∈ cs → admissible os d = true → beaten_by os c d = false.
Proof.
  unfold front. rewrite elem_of_filter_bool, negb_true_iff, existsb_elem_of_false.
  setoid_rewrite elem_of_filter_bool. setoid_rewrite elem_of_sort_by. naive_solver.
Qed.
Lemma front_sorted cs os : StronglySorted (key_le pc_experiment_id) (front cs os).
Proof. apply StronglySorted_filter, StronglySorted_filter, sort_by_sorted. Qed.

(** C29: [pareto_frontier] returns, in the order of their identifiers, exactly the
    candidates that have every metric within its admissible interval and that no
    other such candidate beats; it raises [ValueError], and nothing else, when
    there is no objective, an objective name or an identifier occurs twice, or an
    identifier is blank; and the outcome does not depend on the order of the input. *)
Theorem frontier_exact cs os :
  match pareto_frontier cs os with
  | Ok f => well_posed cs os ∧ StronglySorted (key_le pc_experiment_id) f ∧
      ∀ c, c ∈ f ↔ c ∈ cs ∧ admissible os c = true ∧
        ∀ d, d ∈ cs → admissible os d = true → pc_experiment_id d ≠ pc_experiment_id c → beats os d c = false
  | Err e => ¬ well_posed cs os ∧ exn_kind e = ValueError
  end ∧ ∀ cs', cs ≡ₚ cs' → pareto_frontier cs' os = pareto_frontier cs os.
Proof.
  destruct (decide (well_posed cs os)) as [Hw|Hw].
  - rewrite frontier_ok by done. split.
    + split_and!; [done|apply front_sorted|]. intros c. rewrite elem_of_front. unfold beaten_by.
      split; intros (H1 & H2 & H3); split_and!; try done; intros d Hd Ha.
      * intros Hne. specialize (H3 d Hd Ha). by rewrite bool_decide_eq_false_2 in H3.
      * case_bool_decide; [done|]. by apply H3.
    + intros cs' Hp. destruct Hw as (H1 & H2 & H3 & H4). rewrite (front_Permutation cs cs') by done. apply frontier_ok.
      split_and!; try done; [intros c Hc; apply H3; by rewrite Hp|]. unfold ids in *. by rewrite <- Hp.
  - destruct (frontier_err cs os Hw) as (e & He & Hk & Hp). rewrite He. split; [done|]. intros cs' Hc. rewrite <- He, He. by apply Hp.
Qed.

(** ** Covering *)
Lemma filter_length_le {A} (p q : A → bool) xs : (∀ x, x ∈ xs → p x = true → q x = true) →
  (length (List.filter p xs) ≤ length (List.filter q xs))%nat.
Proof.
  induction xs as [|x xs IH]; intros Hpq; [done|]. specialize (IH (λ y Hy, Hpq y ltac:(by right))). simpl.
  destruct (p x) eqn:Hp; [rewrite (Hpq x ltac:(by left) Hp); simpl; lia|]. destruct (q x); simpl; lia.
Qed.
Lemma filter_length_lt {A} (p q : A → bool) xs y : (∀ x, x ∈ xs → p x = true → q x = true) →
  y ∈ xs → q y = true → p y = false → (length (List.filter p xs) < length (List.filter q xs))%nat.
Proof.
  intros Hpq Hy Hq Hp. apply list_elem_of_split in Hy as (l1 & l2 & ->). rewrite !List.filter_app, !length_app. simpl.
  rewrite Hq, Hp. simpl. pose proof (filter_length_le p q l1). pose proof (filter_length_le p q l2).
  assert (∀ x, x ∈ l1 → p x = true → q x = true) by (intros x Hx; apply Hpq; set_solver).
  assert (∀ x, x ∈ l2 → p x = true → q x = true) by (intros x Hx; apply Hpq; set_solver).
  specialize (H ltac:(done)). specialize (H0 ltac:(done)). lia.
Qed.
Section maximal.
Context {A : Type} (b : A → A → bool) (xs : list A).
Context (b_irrefl : ∀ x, x ∈ xs → b x x = false).
Context (b_trans : ∀ x y z, x ∈ xs → y ∈ xs → z ∈ xs → b x y = true → b y z = true → b x z = true).

(** Under a strict order every element of a list is a maximal one or below one. *)
Lemma maximal_above (x : A) : x ∈ xs → ∃ y, y ∈ xs ∧ (y = x ∨ b y x = true) ∧ ∀ z, z ∈ xs → b z y = false.
Proof.
  remember (length (List.filter (λ z, b z x) xs)) as n eqn:Hn. revert x Hn.
  induction (lt_wf n) as [n _ IH]. intros x Hn Hx.
  destruct (existsb (λ z, b z x) xs) eqn:He.
  - apply existsb_elem_of in He as (z & Hz & Hzx).
    destruct (IH (length (List.filter (λ w, b w z) xs))) with (x := z) as (y & Hy & Hyz & Hmax); [|done|done|].
    + subst n. apply filter_length_lt with (y := z); [intros w Hw ?; by eapply (b_trans w z x)|done|done|by apply b_irrefl].
    + exists y. split_and!; [done| |done]. right. destruct Hyz as [->|Hyz]; [done|]. by eapply (b_trans y z x).
  - exists x. split_and!; [done|by left|]. intros z Hz. rewrite existsb_elem_of_false in He. by apply He.
Qed.
End maximal.

(** The means of a candidate are floats. *)
Definition float_means (c : ParetoCandidate) : Prop :=
  ∀ k s, pc_metrics c !! k = Some s → is_float (su_mean s).
Lemma float_value c o : float_means c → is_float (value_of c o).
Proof. unfold value_of. destruct (pc_metrics c !! mo_name o) eqn:Hs; [by intros H; eapply H|done]. Qed.
(** Without tolerance an objective compares the means themselves. *)
Lemma compares_exact o l r : mo_tolerance o = 0 → is_float r →
  compares o l r = match mo_direction o with MAXIMIZE => (r <=? l, r <? l) | MINIMIZE => (l <=? r, l <? r) end.
Proof.
  intros Ht Hr. unfold compares, fsub, fadd. rewrite Ht, Z.sub_0_r, Z.add_0_r, Hr. done.
Qed.
Lemma beats_irrefl os c : (∀ o, o ∈ os → mo_tolerance o = 0) → float_means c → beats os c c = false.
Proof.
  intros Ht Hc. unfold beats. apply andb_false_iff. right. apply existsb_elem_of_false. intros o Ho.
  rewrite compares_exact by (auto using float_value). destruct (mo_direction o); simpl; lia.
Qed.
Lemma beats_trans os x y z : (∀ o, o ∈ os → mo_tolerance o = 0) → float_means x → float_means y → float_means z →
  beats os x y = true → beats os y z = true → beats os x z = true.
Proof.
  intros Ht Hx Hy Hz. unfold beats. rewrite !andb_true_iff, !forallb_elem_of, !existsb_elem_of.
  intros [Hxy (o & Ho & Hs)] [Hyz _].
  assert (∀ o, o ∈ os → (compares o (value_of x o) (value_of z o)).1 = true ∧
    ((compares o (value_of x o) (value_of y o)).2 = true → (compares o (value_of x o) (value_of z o)).2 = true)) as Hall.
  { intros o' Ho'. specialize (Hxy o' Ho'). specialize (Hyz o' Ho'). revert Hxy Hyz.
    rewrite !compares_exact by (auto using float_value). destruct (mo_direction o'); simpl; lia. }
  split; [intros o' Ho'; by apply Hall|]. exists o. split; [done|]. by apply Hall.
Qed.

(** without tolerances the front covers: every admissible candidate is on it or
    is beaten by a candidate on it, so a front of admissible candidates is not empty. *)
Theorem frontier_covers cs os f c :
  pareto_frontier cs os = Ok f → (∀ o, o ∈ os → mo_tolerance o = 0) → (∀ d, d ∈ cs → float_means d) →
  c ∈ cs → admissible os c = true → ∃ d, d ∈ f ∧ (d = c ∨ beats os d c = true).
Proof.
  intros [Hw ->]%frontier_ok_inv Ht Hm Hc Ha.
  set (adm := List.filter (admissible os) cs).
  assert (∀ x, x ∈ adm → float_means x) as Hfl by (intros x [_ Hx]%elem_of_filter_bool; by apply Hm).
  destruct (maximal_above (beats os) adm) with (x := c) as (d & Hd & Hdc & Hmax).
  - intros x Hx. apply beats_irrefl; auto.
  - intros x y z Hx Hy Hz. apply beats_trans; auto.
  - by apply elem_of_filter_bool.
  - exists d. split; [|by destruct Hdc; [left|right]].
    apply elem_of_filter_bool in Hd. apply elem_of_front. split_and!; [apply Hd..|].
    intros e He Hae. unfold beaten_by. rewrite Hmax by (by apply elem_of_filter_bool). by rewrite andb_false_r.
Qed.

(** ** Verified fronts *)
Lemma frontier_subset cs os f : pareto_frontier cs os = Ok f → ∀ c, c ∈ f → c ∈ cs.
Proof. intros [_ ->]%frontier_ok_inv c Hc. by apply elem_of_front in Hc as [? _]. Qed.

Definition vids (vs : list VerifiedParetoCandidate) : list string := (pc_experiment_id ∘ vc_candidate) <$> vs.
Lemma by_experiment_ok vs v id : NoDup (vids vs) →
  by_experiment (dict_by (λ v, pc_experiment_id (vc_candidate v)) vs) id = Ok v ↔ v ∈ vs ∧ pc_experiment_id (vc_candidate v) = id.
Proof.
  intros Hnd. rewrite <- (dict_by_lookup (λ v, pc_experiment_id (vc_candidate v)) vs id v) by done.
  unfold by_experiment. destruct (_ !! id); naive_solver.
Qed.
(** The verified front: the front of the candidates, each with its own evidence. *)
Lemma verified_frontier_spec (vs : list VerifiedParetoCandidate) os :
  match verified_pareto_frontier vs os with
  | Ok out => well_posed (vc_candidate <$> vs) os ∧ NoDup (vids vs) ∧ vc_candidate <$> out = front (vc_candidate <$> vs) os ∧
      ∀ v, v ∈ out ↔ v ∈ vs ∧ vc_candidate v ∈ front (vc_candidate <$> vs) os
  | Err e => exn_kind e = ValueError ∧ ¬ well_posed (vc_candidate <$> vs) os
  end.
Proof.
  unfold verified_pareto_frontier. set (d := dict_by _ vs).
  assert (vids vs = ids (vc_candidate <$> vs)) as Hids by (unfold vids, ids; by rewrite list_fmap_compose).
  destruct (Nat.eqb_spec (length (keys d)) (length vs)) as [Hl|Hl]; cbn [negb err_if mbind result_bind].
  2:{ split; [done|]. intros (_ & _ & _ & Hnd). destruct Hl. apply dict_by_length. by rewrite <- Hids in Hnd. }
  apply dict_by_length in Hl. change (NoDup (vids vs)) in Hl.
  destruct (decide (well_posed (vc_candidate <$> vs) os)) as [Hw|Hw].
  2:{ destruct (frontier_err _ _ Hw) as (e & -> & He & _). by split. }
  rewrite frontier_ok by done. cbn [mbind result_bind].
  assert (∀ f, (∀ c, c ∈ f → c ∈ vc_candidate <$> vs) → ∃ out, map_result (λ c, by_experiment d (pc_experiment_id c)) f = Ok out ∧
    vc_candidate <$> out = f) as Hmap.
  { induction f as [|c f IH]; intros Hf; [by exists []|]. destruct IH as (out & Ho & Hc); [intros; apply Hf; by right|].
    destruct (proj1 (list_elem_of_fmap _ _ _) (Hf c ltac:(by left))) as (v & -> & Hv). exists (v :: out).
    cbn [map_result]. rewrite (proj2 (by_experiment_ok vs v _ Hl)) by done. cbn [mbind result_bind]. rewrite Ho. split; [done|]. exact (f_equal (cons _) Hc). }
  destruct (Hmap (front (vc_candidate <$> vs) os)) as (out & Hout & Hc); [intros c Hc; by apply elem_of_front in Hc as [? _]|].
  rewrite Hout. split_and!; [done..|]. intros v. rewrite (map_result_elem _ _ _ v Hout). setoid_rewrite (λ id, by_experiment_ok vs v id Hl : by_experiment d id = Ok v ↔ _). split.
  - intros (c & Hin & Hv & Hid). split; [done|].
    assert (vc_candidate v = c) as ->; [|done]. apply elem_of_front in Hin as (Hin & _).
    apply list_elem_of_fmap in Hin as (w & -> & Hw'). f_equal.
    assert (∀ x, x ∈ vs → d !! pc_experiment_id (vc_candidate x) = Some x) as Hd by (intros; by apply dict_by_lookup).
    pose proof (Hd v Hv) as Hdv. rewrite Hid, Hd in Hdv by done. congruence.
  - intros [Hv Hin]. by exists (vc_candidate v).
Qed.

(** ** Summaries *)
Lemma fmin_spec xs : ∀ x, fmin x xs <= x ∧ (∀ y, y ∈ xs → fmin x xs <= y) ∧ fmin x xs ∈ x :: xs.
Proof.
  induction xs as [|y xs IH]; intros x; unfold fmin; simpl.
  - split_and!; [lia|intros y Hy; by apply elem_of_nil in Hy|by left].
  - destruct (IH (Z.min x y)) as (H1 & H2 & H3). fold (fmin (Z.min x y) xs). split_and!; [lia| |].
    + intros z [->|Hz]%elem_of_cons; [lia|by apply H2].
    + apply elem_of_cons in H3 as [->|H3]; [destruct (Z.min_spec x y) as [[_ ->]|[_ ->]]; set_solver|set_solver].
Qed.
Lemma fmax_spec xs : ∀ x, x <= fmax x xs ∧ (∀ y, y ∈ xs → y <= fmax x xs) ∧ fmax x xs ∈ x :: xs.
Proof.
  induction xs as [|y xs IH]; intros x; unfold fmax; simpl.
  - split_and!; [lia|intros y Hy; by apply elem_of_nil in Hy|by left].
  - destruct (IH (Z.max x y)) as (H1 & H2 & H3). fold (fmax (Z.max x y) xs). split_and!; [lia| |].
    + intros z [->|Hz]%elem_of_cons; [lia|by apply H2].
    + apply elem_of_cons in H3 as [->|H3]; [destruct (Z.max_spec x y) as [[_ ->]|[_ ->]]; set_solver|set_solver].
Qed.

#[export] Instance Fin_inj : Inj (=) (=) Fin.
Proof. by intros x y [= ->]. Qed.
Lemma all_finite_spec vs xs : all_finite vs = Some xs ↔ vs = Fin <$> xs.
Proof.
  revert xs. induction vs as [|v vs IH]; intros xs; simpl; [split; [by intros [= <-]|by destruct xs]|].
  destruct v as [x| | |]; simpl; [|split; [done|by destruct xs]..].
  destruct (all_finite vs) as [ys|]; simpl.
  - destruct (IH ys) as [H _]. rewrite (H eq_refl). split; [by intros [= <-]|].
    destruct xs as [|y xs]; [done|]. intros [= -> He]. change (Fin <$> ys = Fin <$> xs) in He. by apply (inj (fmap Fin)) in He as ->.
  - split; [done|]. destruct xs as [|y xs]; [done|]. intros [= _ He]. change (vs = Fin <$> xs) in He. by apply IH in He.
Qed.
(** The order of extended floats, where it is defined. *)
Definition xfloat_le (x y : xfloat) : Prop :=
  match x, y with
  | NaN, _ | _, NaN => False
  | NegInf, _ | _, PosInf => True
  | Fin a, Fin b => a <= b
  | _, _ => False
  end.
Lemma xfloat_le_below m x : in_range m = true → x <= m → xfloat_le (to_range x) (Fin m).
Proof.
  unfold to_range, in_range. intros Hm%Z.leb_le Hx. assert (0 <= f_max) by done.
  destruct (Z.leb_spec (Z.abs x) f_max); [done|]. destruct (Z.ltb_spec x 0); [done|lia].
Qed.
Lemma xfloat_le_above m x : in_range m = true → m <= x → xfloat_le (Fin m) (to_range x).
Proof.
  unfold to_range, in_range. intros Hm%Z.leb_le Hx. assert (0 <= f_max) by done.
  destruct (Z.leb_spec (Z.abs x) f_max); [done|]. destruct (Z.ltb_spec x 0); [lia|done].
Qed.
Lemma margin_nonneg z d n : (0 < n)%nat → 0 <= z → 0 <= d →
  margin_of z d n = PosInf ∨ ∃ m, margin_of z d n = Fin m ∧ 0 <= m.
Proof.
  intros Hn Hz Hd. pose proof (fmul_nonneg z d Hz Hd) as Hp. unfold margin_of, to_range.
  destruct (in_range _); [right|left; by rewrite (proj2 (Z.ltb_ge _ _))].
  eexists. split; [done|]. apply fdiv_nonneg; [done|]. apply fsqrt_Z_pos. lia.
Qed.
Lemma interval_brackets mean margin : is_float mean → in_range mean = true →
  margin = PosInf ∨ (∃ m, margin = Fin m ∧ 0 <= m) →
  xfloat_le (below mean margin) (Fin mean) ∧ xfloat_le (Fin mean) (above mean margin).
Proof.
  intros Hf Hr [->|(m & -> & Hm)]; [done|]. simpl. split.
  - apply xfloat_le_below; [done|]. transitivity (rnd mean); [apply rnd_mono; lia|by rewrite Hf].
  - apply xfloat_le_above; [done|]. transitivity (rnd mean); [by rewrite Hf|apply rnd_mono; lia].
Qed.
(** A result of [summarize], argument by argument. *)
Lemma summarize_ok vs z0 s : summarize vs z0 = Ok s → ∃ x xs z mean deviation,
  vs = Fin <$> x :: xs ∧ z0 = Fin z ∧ 0 <= z ∧ fmean (x :: xs) = Ok mean ∧ 0 <= deviation ∧
  s = {| su_count := Z.of_nat (length (x :: xs)); su_mean := mean; su_standard_deviation := deviation;
         su_minimum := fmin x xs; su_maximum := fmax x xs;
         su_confidence_low := below mean (margin_of z deviation (length (x :: xs)));
         su_confidence_high := above mean (margin_of z deviation (length (x :: xs))) |}.
Proof.
  unfold summarize. intros H. apply bind_ok in H as ([] & _ & H). destruct z0 as [z| | |]; [|done..]. cbn [finite] in H.
  destruct (Z.ltb_spec z 0) as [|Hz]; [done|]. cbn [err_if mbind result_bind] in H.
  destruct (all_finite vs) as [[|x xs]|] eqn:Hvs; [done| |done]. apply all_finite_spec in Hvs.
  apply bind_ok in H as (mean & Hm & H). apply bind_ok in H as (d & Hd & H). injection H as <-.
  exists x, xs, z, mean, d. split_and!; try done.
  destruct (1 <? _)%nat; [|by injection Hd as <-]. unfold fstdev in Hd. destruct (in_range _); [|done].
  injection Hd as <-. apply sample_deviation_nonneg.
Qed.
Lemma summarize_err vs z e : summarize vs z = Err e → exn_kind e = ValueError ∨ exn_kind e = OverflowError.
Proof.
  unfold summarize. case_bool_decide; [intros [= <-]; by left|]. cbn [err_if mbind result_bind].
  destruct (finite z) as [y|]; [|intros [= <-]; by left]. destruct (y <? 0); [intros [= <-]; by left|].
  cbn [err_if mbind result_bind]. destruct (all_finite vs) as [[|x xs]|]; [intros [= <-]; by left| |intros [= <-]; by left].
  unfold fmean. destruct (fsum _) as [t|e'] eqn:Hs; cbn; [|intros [= ->]; right; by eapply fsum_err].
  destruct xs as [|x' xs]; cbn; [done|]. unfold fstdev. destruct (in_range _); cbn; [done|]. intros [= <-]. by right.
Qed.

(** A summary is refused with [ValueError] exactly when there is no observation,
    one is not finite, or the confidence factor is not finite or negative; otherwise
    only an overflow can fail it.  Its extremes are observations and bound all of
    them, its deviation is not negative, and the mean lies between the means of as
    many copies of the extremes, hence between the extremes when the sums of those
    copies are floats.  Its interval contains a mean within the range. *)
Theorem summarize_brackets vs z :
  match summarize vs z with
  | Ok s => ∃ xs, vs = Fin <$> xs ∧ su_count s = Z.of_nat (length xs) ∧ su_minimum s ∈ xs ∧ su_maximum s ∈ xs ∧
      (∀ x, x ∈ xs → su_minimum s <= x <= su_maximum s) ∧ 0 <= su_standard_deviation s ∧
      (in_range (su_mean s) = true → xfloat_le (su_confidence_low s) (Fin (su_mean s)) ∧ xfloat_le (Fin (su_mean s)) (su_confidence_high s)) ∧
      copies_mean (length xs) (su_minimum s) <= su_mean s <= copies_mean (length xs) (su_maximum s) ∧
      (is_float (su_minimum s) → is_float (Z.of_nat (length xs) * su_minimum s) → su_minimum s <= su_mean s) ∧
      (is_float (su_maximum s) → is_float (Z.of_nat (length xs) * su_maximum s) → su_mean s <= su_maximum s)
  | Err e => exn_kind e = ValueError ∨ exn_kind e = OverflowError
  end.
Proof.
  destruct (summarize vs z) as [s|e] eqn:Hs; [|by eapply summarize_err].
  apply summarize_ok in Hs as (x & xs & y & mean & dev & -> & -> & Hy & Hm & Hd & ->). exists (x :: xs).
  destruct (fmin_spec xs x) as (Hl1 & Hl2 & Hl3), (fmax_spec xs x) as (Hh1 & Hh2 & Hh3).
  cbn [su_count su_mean su_standard_deviation su_minimum su_maximum su_confidence_low su_confidence_high].
  assert (∀ y, y ∈ x :: xs → fmin x xs <= y <= fmax x xs) as Hbr.
  { intros w [->|Hw]%elem_of_cons; [lia|]. specialize (Hl2 w Hw). specialize (Hh2 w Hw). lia. }
  destruct (fmean_bounds (fmin x xs) (fmax x xs) (x :: xs) mean) as (Hf & Hb1 & Hb2); [done..|].
  assert (0 < length (x :: xs))%nat as Hn by (simpl; lia).
  split_and!; try done.
  - intros Hr. by apply interval_brackets; [..|apply margin_nonneg].
  - intros H1 H2. by rewrite copies_mean_exact in Hb1.
  - intros H1 H2. by rewrite copies_mean_exact in Hb2.
Qed.
