(* ===== verification/Verifier.v ===== *)
(** * Independent verification ([arena/verifier.py])

    A privileged backend reruns a provisional submission; the verdict is derived
    from what the backend observed and from nothing the worker claimed.  The backend
    and the observer of verdicts are the caller's code: programs on a world [W] of
    their own, which may raise.  Sets of strings are [gset]s. *)
From S2P Require Import Prelude PyDict PyFloat PyStats Canonical Models Metrics.
Local Open Scope Z_scope.

Module VerificationStatus.
Inductive t := VALID | INVALID | INCONCLUSIVE.
#[export] Instance eq_dec : EqDecision t.
Proof. solve_decision. Defined.
Definition value (s : t) : string :=
  match s with VALID => "valid" | INVALID => "invalid" | INCONCLUSIVE => "inconclusive" end.
End VerificationStatus.
Export (hints) VerificationStatus.

Inductive ControlKind := GOLD | NO_OP | ADVERSARIAL.

Record PrivateEvaluationHandle := { ph_evaluation_id : string; ph_version : string; ph_capability : string }.
Definition validate_PrivateEvaluationHandle (h : PrivateEvaluationHandle) : result PrivateEvaluationHandle :=
  err_if (blank (ph_evaluation_id h) || blank (ph_version h)) ValueError
    "private evaluation identity and version are required" ;;
  err_if (is_empty_str (ph_capability h)) ValueError "private evaluation capability must not be empty" ;;
  mret h.

Record ProvisionalSubmission := {
  su_experiment_id : string; su_challenge_hash : string; su_artifact_digest : string;
  su_requested_model_digest : string; su_claimed_metrics : dict string float }.
Definition validate_ProvisionalSubmission (s : ProvisionalSubmission) : result ProvisionalSubmission :=
  let required := [("experiment_id", su_experiment_id s); ("challenge_hash", su_challenge_hash s);
    ("artifact_digest", su_artifact_digest s); ("requested_model_digest", su_requested_model_digest s)] in
  let missing := fst <$> List.filter (λ nv, blank nv.2) required in
  err_if (negb (bool_decide (missing = []))) ValueError
    ("submission fields must not be empty: " +:+ str_join ", " missing) ;;
  mret s.

Record TrialEvidence := {
  te_metrics : dict string xfloat; te_served_model_digest : string; te_artifact_digest : string;
  te_modalities_exercised : gset string; te_capabilities_exercised : gset string;
  te_completed_work : bool; te_output_truncated : bool; te_cache_disclosed : bool;
  te_warm_cache_used : bool; te_cache_key_digest : option string }.
Definition validate_TrialEvidence (e : TrialEvidence) : result TrialEvidence :=
  err_if (match te_cache_key_digest e with Some d => blank d | None => false end) ValueError
    "cache key digest must not be blank" ;;
  mret e.

Record VerificationPolicy := {
  vp_challenge_hash : string; vp_expected_model_digest : string; vp_repetitions : Z;
  vp_objectives : list MetricObjective; vp_required_modalities : gset string;
  vp_required_capabilities : gset string; vp_confidence_z : xfloat; vp_require_controls : bool }.
Definition validate_VerificationPolicy (p : VerificationPolicy) : result VerificationPolicy :=
  err_if (blank (vp_challenge_hash p) || blank (vp_expected_model_digest p)) ValueError
    "challenge hash and expected model digest are required" ;;
  err_if (vp_repetitions p <? 2) ValueError "independent verification requires at least two repetitions" ;;
  err_if (bool_decide (vp_objectives p = [])) ValueError "at least one metric objective is required" ;;
  err_if (negb (all_unique (mo_name <$> vp_objectives p))) ValueError "metric objective names must be unique" ;;
  mret p.

Record VerificationVerdict := {
  vv_experiment_id : string; vv_status : VerificationStatus.t; vv_reasons : list string;
  vv_summaries : dict string MetricSummary; vv_private_evaluation_id : string;
  vv_private_evaluation_version : string }.

(** [if b: violations.add(msg)] *)
Definition violation (b : bool) (msg : string) : list string := if b then [msg] else [].
Definition trial_violations (s : ProvisionalSubmission) (p : VerificationPolicy) (t : TrialEvidence) : list string :=
  violation (negb (bool_decide (te_served_model_digest t = vp_expected_model_digest p))) "served_model_mismatch" ++
  violation (negb (bool_decide (te_artifact_digest t = su_artifact_digest s))) "artifact_digest_mismatch" ++
  violation (negb (te_completed_work t)) "skipped_work" ++
  violation (te_output_truncated t) "output_truncated" ++
  violation (negb (te_cache_disclosed t)) "cache_undisclosed" ++
  violation (te_warm_cache_used t && (negb (te_cache_disclosed t) || bool_decide (te_cache_key_digest t = None)))
    "warm_cache_concealed" ++
  violation (negb (bool_decide (vp_required_modalities p ⊆ te_modalities_exercised t))) "required_modality_missing" ++
  violation (negb (bool_decide (vp_required_capabilities p ⊆ te_capabilities_exercised t))) "required_capability_missing".
Definition _gaming_violations (s : ProvisionalSubmission) (p : VerificationPolicy) (trials : list TrialEvidence) : list string :=
  sorted_str (remove_dups (concat (map (trial_violations s p) trials))).

(** [trial.metrics[name]] *)
Definition metric_of (name : string) (t : TrialEvidence) : result xfloat :=
  match te_metrics t !! name with Some v => Ok v | None => Err (Exn KeyError name) end.
(** The loop over [policy.objectives] that fills [summaries]. *)
Fixpoint summarize_objectives (trials : list TrialEvidence) (z : xfloat) (objectives : list MetricObjective)
    (summaries : dict string MetricSummary) : result (dict string MetricSummary) :=
  match objectives with
  | [] => Ok summaries
  | o :: objectives =>
      values ← map_result (metric_of (mo_name o)) trials;
      s ← summarize values z;
      summarize_objectives trials z objectives (<[mo_name o := s]> summaries)
  end.
Definition failed_constraints (objectives : list MetricObjective) (summaries : dict string MetricSummary) : list string :=
  omap (λ o, match summaries !! mo_name o with
             | Some s => if accepts o (su_mean s) then None else Some ("constraint_failed:" +:+ mo_name o)
             | None => None end) objectives.

(** The privileged code: [run_trial] and [run_control] of the backend. *)
Record VerificationBackend (W : Type) := {
  run_trial : ProvisionalSubmission → PrivateEvaluationHandle → Z → prog W TrialEvidence;
  run_control : ControlKind → PrivateEvaluationHandle → prog W bool }.
Arguments run_trial {W} _ _ _ _.
Arguments run_control {W} _ _ _.

Section verifier.
Context {W : Type} (backend : VerificationBackend W) (observe_verdict : option (VerificationVerdict → prog W unit)).

(** [try: m except Exception: ...] *)
Definition catching {A B} (m : prog W A) (ok : A → prog W B) (failed : prog W B) : prog W B :=
  try_ m (λ r, match r with
    | Ok a => ok a
    | Err e => if exn_isa (exn_kind e) Exception_ then failed else lift (Err e)
    end).
Fixpoint trials_from (s : ProvisionalSubmission) (h : PrivateEvaluationHandle) (index : Z) (n : nat) : prog W (list TrialEvidence) :=
  match n with
  | O => mret []
  | S n =>
      t ← run_trial backend s h index;
      rest ← trials_from s h (index + 1) n;
      mret (t :: rest)
  end.

Section verify.
Context (submission : ProvisionalSubmission) (policy : VerificationPolicy) (private_evaluation : PrivateEvaluationHandle).

Definition _verdict (status : VerificationStatus.t) (reasons : list string) (summaries : dict string MetricSummary) :
    prog W VerificationVerdict :=
  let verdict := {| vv_experiment_id := su_experiment_id submission; vv_status := status; vv_reasons := reasons;
    vv_summaries := summaries; vv_private_evaluation_id := ph_evaluation_id private_evaluation;
    vv_private_evaluation_version := ph_version private_evaluation |} in
  (match observe_verdict with Some observe => observe verdict | None => mret tt end) ;;
  mret verdict.

(** The verdict on the trials. *)
Definition judge (trials : list TrialEvidence) : prog W VerificationVerdict :=
  let violations := _gaming_violations submission policy trials in
  if negb (bool_decide (violations = [])) then _verdict VerificationStatus.INVALID violations ∅
  else
    match summarize_objectives trials (vp_confidence_z policy) (vp_objectives policy) ∅ with
    | Err e =>
        if exn_isa (exn_kind e) KeyError || exn_isa (exn_kind e) ValueError
        then _verdict VerificationStatus.INVALID ["invalid_metric_evidence"] ∅ else lift (Err e)
    | Ok summaries =>
        let failed := failed_constraints (vp_objectives policy) summaries in
        if negb (bool_decide (failed = [])) then _verdict VerificationStatus.INVALID failed summaries
        else _verdict VerificationStatus.VALID [] summaries
    end.
Definition run_trials : prog W VerificationVerdict :=
  catching (trials_from submission private_evaluation 0 (Z.to_nat (vp_repetitions policy))) judge
    (_verdict VerificationStatus.INCONCLUSIVE ["trial_infrastructure_error"] ∅).
(** The three controls, in the order of the enumeration. *)
Definition run_controls : prog W (bool * bool * bool) :=
  gold ← run_control backend GOLD private_evaluation;
  no_op ← run_control backend NO_OP private_evaluation;
  adversarial ← run_control backend ADVERSARIAL private_evaluation;
  mret (gold, no_op, adversarial).
Definition verify : prog W VerificationVerdict :=
  if negb (bool_decide (su_challenge_hash submission = vp_challenge_hash policy)) then
    _verdict VerificationStatus.INVALID ["challenge_hash_mismatch"] ∅
  else if negb (bool_decide (su_requested_model_digest submission = vp_expected_model_digest policy)) then
    _verdict VerificationStatus.INVALID ["requested_model_mismatch"] ∅
  else if vp_require_controls policy then
    catching run_controls (λ controls,
      let '(gold, no_op, adversarial) := controls in
      if negb gold then _verdict VerificationStatus.INCONCLUSIVE ["gold_control_failed"] ∅
      else if (no_op : bool) then _verdict VerificationStatus.INCONCLUSIVE ["no_op_control_passed"] ∅
      else if (adversarial : bool) then _verdict VerificationStatus.INCONCLUSIVE ["adversarial_control_passed"] ∅
      else run_trials)
      (_verdict VerificationStatus.INCONCLUSIVE ["control_infrastructure_error"] ∅)
  else run_trials.
End verify.
End verifier.
