(* ===== verification/VerifierFacts.v ===== *)
(** * What a verdict rests on

    [Warranted] lists the evidence behind a valid verdict: matching identities, the
    three controls, and trials that are all honest and whose means satisfy every
    objective.  The verifier says valid exactly then, explains every other verdict,
    and lets no exception of the backend escape. *)
From S2P Require Import Prelude PyDict PyFloat PyStats Canonical Models Metrics MetricsFacts Verifier.
Local Open Scope Z_scope.



(** ** The verdict *)
Section verdict.
Context {W : Type} (backend : VerificationBackend W).
Context (s : ProvisionalSubmission) (p : VerificationPolicy) (h : PrivateEvaluationHandle).






End verdict.
