(* ===== verification/LeaseScheduler.v ===== *)
(** * Lease-based admission ([arena/scheduler.py])

    The volatile resource scheduler: its leases and the idempotency index are
    the state, every method is an atomic step (the object holds one lock), and
    each reading of the injected clock is a separate reading: the [n]-th one
    returns [clock n]. *)
From S2P Require Import Prelude PyDict PyFloat Canonical.
Local Open Scope Z_scope.

Inductive AdmissionReason := CAPACITY | DUPLICATE | INVALID.
#[export] Instance AdmissionReason_eq_dec : EqDecision AdmissionReason.
Proof. solve_decision. Defined.
Definition AdmissionReason_value (r : AdmissionReason) : string :=
  match r with CAPACITY => "capacity" | DUPLICATE => "duplicate" | INVALID => "invalid" end.

(** ** Resource vectors *)
Record ResourceRequest := {
  cpu : float; ram_gb : float; gpu : Z; vram_gb : float;
  gateway_slots : Z; budget_units : float; verifier_slots : Z }.
#[export] Instance ResourceRequest_eq_dec : EqDecision ResourceRequest.
Proof. solve_decision. Defined.

(** [vars(self).items()], in field order. *)
Definition resource_vars (r : ResourceRequest) : list (string * Z) :=
  [("cpu", cpu r); ("ram_gb", ram_gb r); ("gpu", gpu r); ("vram_gb", vram_gb r);
   ("gateway_slots", gateway_slots r); ("budget_units", budget_units r);
   ("verifier_slots", verifier_slots r)].

Definition validate_ResourceRequest (r : ResourceRequest) : result ResourceRequest :=
  check_each (resource_vars r) (λ nv, err_if (nv.2 <? 0) ValueError (nv.1 +:+ " must be non-negative")) ;;
  mret r.

Definition fits (r available : ResourceRequest) : bool :=
  forallb (λ ab, ab.1.2 <=? ab.2.2) (zip (resource_vars r) (resource_vars available)).
Definition plus (a b : ResourceRequest) : result ResourceRequest :=
  validate_ResourceRequest {|
    cpu := fadd (cpu a) (cpu b); ram_gb := fadd (ram_gb a) (ram_gb b);
    gpu := gpu a + gpu b; vram_gb := fadd (vram_gb a) (vram_gb b);
    gateway_slots := gateway_slots a + gateway_slots b;
    budget_units := fadd (budget_units a) (budget_units b);
    verifier_slots := verifier_slots a + verifier_slots b |}.
Definition minus (a b : ResourceRequest) : result ResourceRequest :=
  validate_ResourceRequest {|
    cpu := fsub (cpu a) (cpu b); ram_gb := fsub (ram_gb a) (ram_gb b);
    gpu := gpu a - gpu b; vram_gb := fsub (vram_gb a) (vram_gb b);
    gateway_slots := gateway_slots a - gateway_slots b;
    budget_units := fsub (budget_units a) (budget_units b);
    verifier_slots := verifier_slots a - verifier_slots b |}.
Definition no_resources : ResourceRequest :=
  {| cpu := 0; ram_gb := 0; gpu := 0; vram_gb := 0; gateway_slots := 0; budget_units := 0;
     verifier_slots := 0 |}.
(** [ResourceRequest()] *)
Definition default_resources : ResourceRequest :=
  {| cpu := f_unit; ram_gb := f_unit; gpu := 0; vram_gb := 0; gateway_slots := 1;
     budget_units := 0; verifier_slots := 0 |}.

Record AttemptRequest := {
  ar_challenge_id : string; ar_experiment_id : string; ar_attempt_id : string;
  ar_idempotency_key : string; ar_resources : ResourceRequest }.
#[export] Instance AttemptRequest_eq_dec : EqDecision AttemptRequest.
Proof. solve_decision. Defined.
Definition validate_AttemptRequest (r : AttemptRequest) : result AttemptRequest :=
  check_each [("challenge_id", ar_challenge_id r); ("experiment_id", ar_experiment_id r);
              ("attempt_id", ar_attempt_id r); ("idempotency_key", ar_idempotency_key r)]
    (λ nv, err_if (blank nv.2) ValueError (nv.1 +:+ " must not be empty")) ;;
  mret r.

(** ** Leases.  [lease_obj] is the identity of the mutable Python object. *)
Record Lease := {
  lease_obj : nat; lease_id : string; lease_request : AttemptRequest;
  acquired_at : float; expires_at : float; lease_cancelled : bool }.
#[export] Instance Lease_eq_dec : EqDecision Lease.
Proof. solve_decision. Defined.

Definition active (l : Lease) (now : float) : bool :=
  negb (lease_cancelled l) && (now <? expires_at l).
Definition lease_key (l : Lease) : string := ar_idempotency_key (lease_request l).

Definition with_expires (t : float) (l : Lease) : Lease := {|
  lease_obj := lease_obj l; lease_id := lease_id l; lease_request := lease_request l;
  acquired_at := acquired_at l; expires_at := t; lease_cancelled := lease_cancelled l |}.
Definition with_cancelled (l : Lease) : Lease := {|
  lease_obj := lease_obj l; lease_id := lease_id l; lease_request := lease_request l;
  acquired_at := acquired_at l; expires_at := expires_at l; lease_cancelled := true |}.

Record Admission := {
  admitted : bool; adm_lease : option Lease; adm_reason : option AdmissionReason;
  adm_duplicate : bool; blocked_resources : list string }.
Definition adm_refused (r : AdmissionReason) (blocked : list string) : Admission :=
  {| admitted := false; adm_lease := None; adm_reason := Some r; adm_duplicate := false;
     blocked_resources := blocked |}.
Definition adm_granted (dup : bool) (l : Lease) : Admission :=
  {| admitted := true; adm_lease := Some l; adm_reason := None; adm_duplicate := dup;
     blocked_resources := [] |}.

(** The random identifiers of the interpreter: the [n]-th [uuid.uuid4().hex]. *)
Class Entropy := {
  uuid4_hex : nat → string;
  uuid4_hex_nonempty n : uuid4_hex n ≠ "";
  uuid4_hex_inj :: Inj (=) (=) uuid4_hex;
}.

Record LeaseScheduler := {
  capacity : ResourceRequest;
  lease_ttl_s : float;
  _leases : dict string Lease;
  _by_key : dict string string;
  ticks : nat;     (* clock readings so far *)
  next_obj : nat;  (* lease objects and uuids made so far *)
}.
Definition with_leases d (s : LeaseScheduler) : LeaseScheduler := {|
  capacity := capacity s; lease_ttl_s := lease_ttl_s s; _leases := d; _by_key := _by_key s;
  ticks := ticks s; next_obj := next_obj s |}.
Definition with_by_key d (s : LeaseScheduler) : LeaseScheduler := {|
  capacity := capacity s; lease_ttl_s := lease_ttl_s s; _leases := _leases s; _by_key := d;
  ticks := ticks s; next_obj := next_obj s |}.
Definition with_tick (s : LeaseScheduler) : LeaseScheduler := {|
  capacity := capacity s; lease_ttl_s := lease_ttl_s s; _leases := _leases s; _by_key := _by_key s;
  ticks := S (ticks s); next_obj := next_obj s |}.
Definition with_new_obj (s : LeaseScheduler) : LeaseScheduler := {|
  capacity := capacity s; lease_ttl_s := lease_ttl_s s; _leases := _leases s; _by_key := _by_key s;
  ticks := ticks s; next_obj := S (next_obj s) |}.

Definition new_LeaseScheduler (cap : ResourceRequest) (ttl : float) : result LeaseScheduler :=
  err_if (ttl <=? 0) ValueError "lease_ttl_s must be positive" ;;
  mret {| capacity := cap; lease_ttl_s := ttl; _leases := ∅; _by_key := ∅; ticks := 0; next_obj := 0 |}.

Section scheduler.
Context {EN : Entropy} (clock : nat → float).

Definition read_clock : prog LeaseScheduler float :=
  λ s, (with_tick s, Ok (clock (ticks s))).

Definition active_leases (now : float) (s : LeaseScheduler) : list Lease :=
  List.filter (λ l, active l now) (vals (_leases s)).

Fixpoint sum_resources (total : ResourceRequest) (ls : list Lease) : result ResourceRequest :=
  match ls with
  | [] => mret total
  | l :: ls => total' ← plus total (ar_resources (lease_request l)); sum_resources total' ls
  end.
Definition used : prog LeaseScheduler ResourceRequest :=
  now ← read_clock;
  ls ← gets (active_leases now);
  lift (sum_resources no_resources ls).
Definition available : prog LeaseScheduler ResourceRequest :=
  u ← used;
  cap ← gets capacity;
  lift (minus cap u).

Definition blocked_by (req avail : ResourceRequest) : list string :=
  (List.filter (λ ab, ab.2.2 <? ab.1.2) (zip (resource_vars req) (resource_vars avail))).*1.*1.

(** The reservation at the end of [admit]. *)
Definition grant_new (request : AttemptRequest) (now : float) : prog LeaseScheduler Admission :=
  av ← available;
  if negb (fits (ar_resources request) av) then
    av' ← available;
    mret (adm_refused CAPACITY (blocked_by (ar_resources request) av'))
  else
    s ← gets (λ s, s);
    let lease := {|
      lease_obj := next_obj s; lease_id := uuid4_hex (next_obj s); lease_request := request;
      acquired_at := now; expires_at := fadd now (lease_ttl_s s); lease_cancelled := false |} in
    modify (λ s, with_leases (<[lease_id lease := lease]> (_leases s)) s) ;;
    modify (λ s, with_by_key (<[ar_idempotency_key request := lease_id lease]> (_by_key s)) s) ;;
    modify with_new_obj ;;
    mret (adm_granted false lease).

Definition admit_ (request : AttemptRequest) : prog LeaseScheduler Admission :=
  now ← read_clock;
  s ← gets (λ s, s);
  match _by_key s !! ar_idempotency_key request with
  | Some existing_id =>
      if is_empty_str existing_id then grant_new request now else
      match _leases s !! existing_id with
      | None => raise KeyError existing_id
      | Some existing =>
          if negb (bool_decide (lease_request existing = request)) then
            mret (adm_refused DUPLICATE [])
          else if active existing now then mret (adm_granted true existing)
          else grant_new request now
      end
  | None => grant_new request now
  end.

Definition heartbeat (id : string) : prog LeaseScheduler (option Lease) :=
  now ← read_clock;
  s ← gets (λ s, s);
  match _leases s !! id with
  | None => mret None
  | Some lease =>
      if negb (active lease now) then mret None
      else
        let lease' := with_expires (fadd now (lease_ttl_s s)) lease in
        modify (λ s, with_leases (<[id := lease']> (_leases s)) s) ;;
        mret (Some lease')
  end.

(** [lease if lease is not None and lease.active(self._clock()) else None]:
    the clock is only read when the lease exists. *)
Definition active_lease (id : string) : prog LeaseScheduler (option Lease) :=
  s ← gets (λ s, s);
  match _leases s !! id with
  | None => mret None
  | Some lease =>
      now ← read_clock;
      mret (if active lease now then Some lease else None)
  end.

Definition cancel (id : string) : prog LeaseScheduler bool :=
  s ← gets (λ s, s);
  match _leases s !! id with
  | None => mret false
  | Some lease =>
      modify (λ s, with_leases (<[id := with_cancelled lease]> (_leases s)) s) ;;
      mret true
  end.

Definition release (id : string) : prog LeaseScheduler bool :=
  s ← gets (λ s, s);
  match _leases s !! id with
  | None => mret false
  | Some lease =>
      modify (λ s, with_leases (delete id (_leases s)) s) ;;
      (if bool_decide (_by_key s !! lease_key lease = Some id)
       then modify (λ s, with_by_key (delete (lease_key lease) (_by_key s)) s)
       else mret tt) ;;
      mret true
  end.

Definition reclaim_expired : prog LeaseScheduler (list Lease) :=
  now ← read_clock;
  s ← gets (λ s, s);
  let expired := List.filter (λ l, negb (lease_cancelled l) && (expires_at l <=? now))
                   (vals (_leases s)) in
  for_each expired (λ l, release (lease_id l) ;; mret tt) ;;
  mret expired.

(** [snapshot()]: the counters; [None] for no active lease. *)
Record Snapshot := {
  sn_active : nat; sn_capacity : ResourceRequest; sn_used : ResourceRequest;
  sn_available : ResourceRequest; sn_next_expiry_s : option float }.
Fixpoint min_list (xs : list float) : option float :=
  match xs with
  | [] => None
  | x :: xs => Some (match min_list xs with Some m => Z.min x m | None => x end)
  end.
Definition snapshot : prog LeaseScheduler Snapshot :=
  now ← read_clock;
  ls ← gets (active_leases now);
  cap ← gets capacity;
  u ← used;
  av ← available;
  mret {| sn_active := length ls; sn_capacity := cap; sn_used := u; sn_available := av;
          sn_next_expiry_s := min_list (map (λ l, Z.max 0 (fsub (expires_at l) now)) ls) |}.
Definition lease_records : prog LeaseScheduler (list (Lease * float)) :=
  now ← read_clock;
  ls ← gets (active_leases now);
  mret (map (λ l, (l, Z.max 0 (fsub (expires_at l) now))) (sort_by lease_id ls)).
End scheduler.
