(* ===== verification/LeaseSchedulerFacts.v ===== *)
(** * Correctness of lease admission

    The invariant of the scheduler's two dictionaries, its preservation by every
    method, and what it gives: integer capacities are never exceeded, at most one
    live lease per idempotency key, and lookups that never fail. *)
From S2P Require Import Prelude PyDict PyFloat Canonical LeaseScheduler.
Local Open Scope Z_scope.

Definition valid_request (r : AttemptRequest) : Prop :=
  validate_AttemptRequest r = Ok r ∧ validate_ResourceRequest (ar_resources r) = Ok (ar_resources r).

(** The dimensions that are counted in whole units. *)
Inductive int_dim : (ResourceRequest → Z) → Prop :=
  | dim_gpu : int_dim gpu
  | dim_gateway : int_dim gateway_slots
  | dim_verifier : int_dim verifier_slots.

(** Position of a dimension in [vars(self)]. *)
Lemma int_dim_vars q : int_dim q → ∃ i name, ∀ r, resource_vars r !! i = Some (name, q r).
Proof. intros []; [exists 2%nat, "gpu"|exists 4%nat, "gateway_slots"|exists 6%nat, "verifier_slots"]; done. Qed.

Section facts.
Context {EN : Entropy} (clock : nat → float).
Hypothesis clock_mono : ∀ m n, (m ≤ n)%nat → clock m <= clock n.

(** What a lease takes of dimension [q] at the [n]-th clock reading. *)
Definition weight (q : ResourceRequest → Z) (n : nat) (l : Lease) : Z :=
  if active l (clock n) then q (ar_resources (lease_request l)) else 0.
Definition in_use (q : ResourceRequest → Z) (n : nat) (s : LeaseScheduler) : Z :=
  zsum (weight q n) (vals (_leases s)).

Record sched_inv (s : LeaseScheduler) : Prop := {
  inv_leases_wf : dict_wf (_leases s);
  inv_keys_wf : dict_wf (_by_key s);
  inv_id id l : _leases s !! id = Some l →
    lease_id l = id ∧ id = uuid4_hex (lease_obj l) ∧ (lease_obj l < next_obj s)%nat;
  inv_req id l : _leases s !! id = Some l → valid_request (lease_request l);
  inv_index k id : _by_key s !! k = Some id → ∃ l, _leases s !! id = Some l ∧ lease_key l = k;
  inv_stale id l n : _leases s !! id = Some l → _by_key s !! lease_key l ≠ Some id →
    (ticks s ≤ n)%nat → active l (clock n) = false;
  inv_cap q n : int_dim q → (ticks s ≤ n)%nat → in_use q n s <= q (capacity s);
}.

Lemma inactive_later l m n : (m ≤ n)%nat → active l (clock m) = false → active l (clock n) = false.
Proof.
  unfold active. intros Hmn. pose proof (clock_mono m n Hmn).
  destruct (lease_cancelled l); simpl; [done|]. rewrite !Z.ltb_ge. lia.
Qed.

Lemma valid_dim_nonneg r q : valid_request r → int_dim q → 0 <= q (ar_resources r).
Proof.
  intros [_ Hr] Hq. unfold validate_ResourceRequest in Hr.
  apply bind_unit_ok in Hr as [Hr _]. apply check_each_ok in Hr.
  rewrite Forall_forall in Hr.
  assert (∀ nv, nv ∈ resource_vars (ar_resources r) → 0 <= nv.2) as Hall.
  { intros nv Hnv. pose proof (Hr nv Hnv) as H. apply err_if_ok, Z.ltb_ge in H. done. }
  destruct (int_dim_vars q Hq) as (i & name & Hi). specialize (Hi (ar_resources r)).
  exact (Hall (name, q (ar_resources r)) (list_elem_of_lookup_2 _ _ _ Hi)).
Qed.

Lemma weight_later q m n l :
  valid_request (lease_request l) → int_dim q → (m ≤ n)%nat → weight q n l <= weight q m l.
Proof.
  intros Hv Hq Hmn. unfold weight. pose proof (valid_dim_nonneg _ _ Hv Hq).
  destruct (active l (clock m)) eqn:Hm; [case_match; lia|].
  by rewrite (inactive_later l m n).
Qed.

Lemma weight_bounds q n l :
  valid_request (lease_request l) → int_dim q →
  0 <= weight q n l <= q (ar_resources (lease_request l)).
Proof.
  intros Hv Hq. unfold weight. pose proof (valid_dim_nonneg _ _ Hv Hq). case_match; lia.
Qed.

Lemma inv_vals s l : sched_inv s → l ∈ vals (_leases s) → ∃ id, _leases s !! id = Some l.
Proof. intros Hi. apply elem_of_vals, Hi. Qed.

Lemma in_use_later s q m n :
  sched_inv s → int_dim q → (m ≤ n)%nat → in_use q n s <= in_use q m s.
Proof.
  intros Hi Hq Hmn. apply zsum_mono. intros l (id & Hl)%inv_vals; [|done].
  apply weight_later; [by eapply inv_req|done..].
Qed.

(** *** The updates a method is made of *)
Lemma inv_tick s : sched_inv s → sched_inv (with_tick s).
Proof.
  intros [Hlw Hkw Hid Hreq Hidx Hst Hcap]. split; try done.
  - intros id l n Hl Hk Hn. eapply Hst; [done..|]. simpl in Hn. lia.
  - intros q n Hq Hn. apply Hcap; [done|]. simpl in Hn. lia.
Qed.

Lemma vals_split s id l (Hl : _leases s !! id = Some l) l' :
  ∃ l1 l2, vals (_leases s) = l1 ++ l :: l2 ∧ vals (<[id:=l']> (_leases s)) = l1 ++ l' :: l2 ∧
           vals (delete id (_leases s)) = l1 ++ l2.
Proof.
  destruct (items_insert_split _ _ l' _ Hl) as (i1 & i2 & H1 & H2 & H3).
  exists i1.*2, i2.*2. unfold vals. by rewrite H1, H2, H3, !fmap_app.
Qed.

(** A new version of a stored lease, live at no reading where the old one,
    looked at from reading [m], was not. *)
Lemma inv_update s m id l l' (s' := with_leases (<[id:=l']> (_leases s)) s) :
  sched_inv s → _leases s !! id = Some l → (m ≤ ticks s)%nat →
  lease_id l' = lease_id l → lease_obj l' = lease_obj l → lease_request l' = lease_request l →
  (∀ n, (ticks s ≤ n)%nat → active l' (clock n) = true → active l (clock m) = true) →
  (∀ q, int_dim q → in_use q m s <= q (capacity s)) →
  (_by_key s !! lease_key l ≠ Some id → active l (clock m) = false) →
  sched_inv s'.
Proof.
  intros Hi Hl Hm Hid Hobj Hreq Hact Hcap Hst. pose proof Hi as Hi0.
  destruct Hi as [Hlw Hkw Hids Hreqs Hidx Hstale _]. subst s'. split; simpl.
  - by apply dict_wf_insert.
  - done.
  - intros i x Hx. dict_cases; [|by apply Hids]. rewrite Hid, Hobj. by apply Hids.
  - intros i x Hx. dict_cases; [|by eapply Hreqs]. rewrite Hreq. by eapply Hreqs.
  - intros k i Hk. destruct (Hidx k i Hk) as (x & Hx & Hkx). dict_cases; [|by eauto].
    eexists. split; [done|]. unfold lease_key in *. by rewrite Hreq.
  - intros i x n Hx Hk Hn. dict_cases; [|by eapply Hstale].
    destruct (active x (clock n)) eqn:Ha; [|done].
    rewrite (Hact _ Hn Ha) in Hst. unfold lease_key in *. rewrite Hreq in Hk. by specialize (Hst Hk).
  - intros q n Hq Hn. unfold in_use. simpl.
    destruct (vals_split s id l Hl l') as (l1 & l2 & Hv & -> & _).
    etransitivity; [|apply (Hcap q Hq)]. unfold in_use. rewrite Hv. apply zsum_update.
    + intros x Hx. rewrite <- Hv in Hx. apply inv_vals in Hx as (i & Hx); [|done].
      apply weight_later; [by eapply Hreqs|done|lia].
    + unfold weight at 1. destruct (active l' (clock n)) eqn:Ha.
      * unfold weight. by rewrite (Hact _ Hn Ha), Hreq.
      * apply weight_bounds; [by eapply Hreqs|done].
Qed.

Lemma inv_heartbeat s id l e :
  sched_inv s → _leases s !! id = Some l → active l (clock (ticks s)) = true →
  sched_inv (with_leases (<[id:=with_expires e l]> (_leases s)) (with_tick s)).
Proof.
  intros Hi Hl Ha. apply (inv_update (with_tick s) (ticks s) id l); simpl; try done.
  - by apply inv_tick.
  - lia.
  - intros q Hq. by apply Hi.
  - intros Hk. eapply inv_stale in Hk; [|done..]. congruence.
Qed.

Lemma inv_cancel s id l :
  sched_inv s → _leases s !! id = Some l →
  sched_inv (with_leases (<[id:=with_cancelled l]> (_leases s)) s).
Proof.
  intros Hi Hl. apply (inv_update s (ticks s) id l); try done.
  - intros q Hq. by apply Hi.
  - intros Hk. by eapply inv_stale.
Qed.

Lemma inv_release s id l :
  sched_inv s → _leases s !! id = Some l →
  sched_inv (with_leases (delete id (_leases s))
    (with_by_key (if bool_decide (_by_key s !! lease_key l = Some id)
                  then delete (lease_key l) (_by_key s) else _by_key s) s)).
Proof.
  intros Hi Hl. pose proof Hi as [Hlw Hkw Hids Hreqs Hidx Hstale Hcap].
  set (bk := if bool_decide _ then _ else _).
  assert (∀ k i, bk !! k = Some i ↔ _by_key s !! k = Some i ∧ i ≠ id) as Hbk.
  { intros k i. subst bk. case_bool_decide as Hk.
    - rewrite dict_lookup_delete by done. case_decide as Hkk.
      + subst k. split; [done|]. intros [H1 H2]. congruence.
      + split; [|naive_solver]. intros H. split; [done|]. intros ->.
        destruct (Hidx _ _ H) as (x & Hx & <-). congruence.
    - split; [|naive_solver]. intros H. split; [done|]. intros ->.
      destruct (Hidx _ _ H) as (x & Hx & <-). simplify_eq. }
  split; simpl.
  - by apply dict_wf_delete.
  - subst bk. case_match; [by apply dict_wf_delete|done].
  - intros i x. rewrite dict_lookup_delete by done. case_decide; [done|]. apply Hids.
  - intros i x. rewrite dict_lookup_delete by done. case_decide; [done|]. apply Hreqs.
  - intros k i [Hk Hne]%Hbk. rewrite dict_lookup_delete_ne by done. by apply Hidx.
  - intros i x n. rewrite dict_lookup_delete by done. case_decide; [done|].
    intros Hx Hk. apply (Hstale i x); [done|]. intros Hk'. by apply Hk, Hbk.
  - intros q n Hq Hn. unfold in_use. simpl.
    destruct (vals_split s id l Hl l) as (l1 & l2 & Hv & _ & ->).
    etransitivity; [|by apply (Hcap q n Hq Hn)]. unfold in_use. rewrite Hv, !zsum_app. simpl.
    pose proof (weight_bounds q n l (Hreqs _ _ Hl) Hq). lia.
Qed.

(** A lease added for a key whose indexed lease, if any, is dead. *)
Lemma inv_grant s r now ttl (l := {|
    lease_obj := next_obj s; lease_id := uuid4_hex (next_obj s); lease_request := r;
    acquired_at := now; expires_at := ttl; lease_cancelled := false |}) :
  sched_inv s → valid_request r →
  (∀ id x n, _by_key s !! ar_idempotency_key r = Some id → _leases s !! id = Some x →
    (ticks s ≤ n)%nat → active x (clock n) = false) →
  (∀ q n, int_dim q → (ticks s ≤ n)%nat →
    in_use q n s + q (ar_resources r) <= q (capacity s)) →
  sched_inv (with_new_obj (with_by_key (<[ar_idempotency_key r := lease_id l]> (_by_key s))
    (with_leases (<[lease_id l := l]> (_leases s)) s))).
Proof.
  intros Hi Hr Hdead Hfit. pose proof Hi as [Hlw Hkw Hids Hreqs Hidx Hstale Hcap].
  assert (_leases s !! uuid4_hex (next_obj s) = None) as Hfresh.
  { destruct (_leases s !! uuid4_hex (next_obj s)) as [x|] eqn:Hx; [|done].
    destruct (Hids _ _ Hx) as (_ & Heq & Hlt). apply (inj uuid4_hex) in Heq. lia. }
  split; simpl.
  - by apply dict_wf_insert.
  - by apply dict_wf_insert.
  - intros i x Hx. dict_cases; [split_and!; [done..|lia]|].
    destruct (Hids _ _ Hx) as (? & ? & ?). split_and!; [done..|lia].
  - intros i x Hx. dict_cases; [done|by eapply Hreqs].
  - intros k i Hk. rewrite dict_lookup_insert in Hk. case_decide as Hkk.
    + simplify_eq. exists l. by rewrite dict_lookup_insert_eq.
    + destruct (Hidx _ _ Hk) as (x & Hx & Hkx). exists x.
      rewrite dict_lookup_insert_ne; [done|]. congruence.
  - intros i x n Hx Hk Hn. rewrite dict_lookup_insert in Hx. case_decide as Hii.
    + simplify_eq. destruct Hk. unfold lease_key. simpl. by rewrite dict_lookup_insert_eq.
    + rewrite dict_lookup_insert in Hk. case_decide as Hkk; [|by eapply Hstale].
      destruct (decide (_by_key s !! lease_key x = Some i)) as [Hsi|Hsi]; [|by eapply Hstale].
      eapply Hdead; [|done..]. by rewrite Hkk.
  - intros q n Hq Hn. unfold in_use. simpl. rewrite vals_insert_fresh by done.
    rewrite zsum_app. simpl. pose proof (Hfit q n Hq Hn) as Hf. unfold in_use in Hf.
    pose proof (weight_bounds q n l Hr Hq). simpl in *. lia.
Qed.

(** *** History: what a later state can say about an earlier one

    A lease found later is either newer than the earlier state, or a version of
    a lease of the earlier state that is live only if that one was. *)
Definition lease_history (s s' : LeaseScheduler) : Prop :=
  (ticks s ≤ ticks s')%nat ∧ (next_obj s ≤ next_obj s')%nat ∧
  capacity s' = capacity s ∧ lease_ttl_s s' = lease_ttl_s s ∧
  ∀ id l', _leases s' !! id = Some l' →
    (next_obj s ≤ lease_obj l')%nat ∨
    ∃ l, _leases s !! id = Some l ∧ lease_obj l' = lease_obj l ∧
      ∀ n, (ticks s' ≤ n)%nat → active l' (clock n) = true → active l (clock (ticks s)) = true.
Definition sound_step (s s' : LeaseScheduler) : Prop :=
  sched_inv s → sched_inv s' ∧ lease_history s s'.

Lemma active_earlier l m n : (m ≤ n)%nat → active l (clock n) = true → active l (clock m) = true.
Proof.
  intros Hmn Hn. destruct (active l (clock m)) eqn:Hm; [done|].
  rewrite (inactive_later l m n) in Hn; done.
Qed.

Lemma lease_history_same s s' :
  (ticks s ≤ ticks s')%nat → next_obj s' = next_obj s → capacity s' = capacity s →
  lease_ttl_s s' = lease_ttl_s s →
  (∀ id l', _leases s' !! id = Some l' → _leases s !! id = Some l') → lease_history s s'.
Proof.
  intros Ht Hn Hc Httl Hl. split_and!; try done; [lia|]. intros id l' Hl'. right.
  exists l'. split_and!; [by apply Hl|done|]. intros n Hn'. apply active_earlier. lia.
Qed.

#[local] Instance sound_step_preorder : PreOrder sound_step.
Proof.
  split.
  - intros s Hi. split; [done|]. by apply lease_history_same.
  - intros s1 s2 s3 H12 H23 Hi. destruct (H12 Hi) as [Hi2 (Ht & Hn & Hc & Httl & Hl)].
    destruct (H23 Hi2) as [Hi3 (Ht' & Hn' & Hc' & Httl' & Hl')].
    split; [done|]. split_and!; [lia|lia|congruence|congruence|]. intros id l'' H''.
    destruct (Hl' id l'' H'') as [Hnew|(l' & H' & Ho & Hact)]; [left; lia|].
    destruct (Hl id l' H') as [Hnew|(l & H & Ho' & Hact')]; [left; lia|]. right.
    exists l. split_and!; [done|lia|]. intros n Hge Ha. eapply (Hact' (ticks s2)); [lia|].
    by eapply Hact.
Qed.

Lemma sound_tick s : sound_step s (with_tick s).
Proof. intros Hi. split; [by apply inv_tick|]. apply lease_history_same; simpl; (lia || done). Qed.
Lemma sound_uuid s : sound_step s (with_new_obj s).
Proof.
  intros Hi. pose proof Hi as [Hlw Hkw Hids Hreqs Hidx Hstale Hcap]. split; [split; try done|].
  - intros id l Hl. destruct (Hids id l Hl) as (? & ? & ?). split_and!; [done..|simpl; lia].
  - split_and!; simpl; try (lia || done). intros id l Hl. right. exists l. split_and!; [done..|].
    intros n Hn. by apply active_earlier.
Qed.

Lemma used_run s : used clock s =
  (with_tick s, sum_resources no_resources (active_leases (clock (ticks s)) s)).
Proof. reflexivity. Qed.
Lemma available_run s : available clock s =
  (with_tick s, sum_resources no_resources (active_leases (clock (ticks s)) s) ≫= minus (capacity s)).
Proof. unfold available. prog_simpl. rewrite used_run. by destruct (sum_resources _ _). Qed.

Lemma plus_dim q a b c : int_dim q → plus a b = Ok c → q c = q a + q b.
Proof. intros Hq H. unfold plus, validate_ResourceRequest in H. apply bind_unit_ok in H as [_ [= <-]]. by destruct Hq. Qed.
Lemma minus_dim q a b c : int_dim q → minus a b = Ok c → q c = q a - q b.
Proof. intros Hq H. unfold minus, validate_ResourceRequest in H. apply bind_unit_ok in H as [_ [= <-]]. by destruct Hq. Qed.
Lemma sum_resources_dim q t ls u :
  int_dim q → sum_resources t ls = Ok u →
  q u = q t + zsum (λ l, q (ar_resources (lease_request l))) ls.
Proof.
  intros Hq. revert t. induction ls as [|l ls IH]; intros t; simpl.
  - intros [= <-]. lia.
  - destruct (plus t _) as [t'|] eqn:Hp; simpl; [|done]. intros H%IH.
    pose proof (plus_dim _ _ _ _ Hq Hp). lia.
Qed.
Lemma available_dim q s av :
  int_dim q → (available clock s).2 = Ok av → q av = q (capacity s) - in_use q (ticks s) s.
Proof.
  intros Hq. rewrite available_run. simpl. destruct (sum_resources _ _) as [u|] eqn:Hu; [|done].
  simpl. intros Hm. rewrite (minus_dim _ _ _ _ Hq Hm), (sum_resources_dim _ _ _ _ Hq Hu).
  unfold in_use, active_leases, weight. rewrite zsum_filter. destruct Hq; simpl; lia.
Qed.

Lemma fits_dim q r av : int_dim q → fits r av = true → q r <= q av.
Proof.
  intros Hq Hf. unfold fits in Hf. rewrite forallb_forall in Hf.
  assert (∀ x, x ∈ zip (resource_vars r) (resource_vars av) → x.1.2 <= x.2.2) as Hall.
  { intros x Hx. apply Z.leb_le, Hf. by apply list_elem_of_In. }
  destruct (int_dim_vars q Hq) as (i & name & Hi).
  refine (Hall ((name, q r), (name, q av)) (list_elem_of_lookup_2 _ i _ _)).
  apply lookup_zip_with_Some. do 2 eexists. split_and!; [reflexivity|apply Hi..].
Qed.

(** What [grant_new] does, from a state whose indexed lease for the key is dead. *)
Inductive new_outcome (r : AttemptRequest) (now : float) (s : LeaseScheduler) :
    LeaseScheduler * result Admission → Prop :=
  | outcome_error s' e :
      _leases s' = _leases s → _by_key s' = _by_key s → exn_kind e = ValueError →
      new_outcome r now s (s', Err e)
  | outcome_capacity s' blocked :
      _leases s' = _leases s → _by_key s' = _by_key s →
      new_outcome r now s (s', Ok (adm_refused CAPACITY blocked))
  | outcome_granted s' l :
      lease_request l = r → acquired_at l = now → expires_at l = fadd now (lease_ttl_s s) →
      lease_cancelled l = false → _leases s !! lease_id l = None →
      _leases s' = <[lease_id l := l]> (_leases s) →
      _by_key s' = <[ar_idempotency_key r := lease_id l]> (_by_key s) →
      new_outcome r now s (s', Ok (adm_granted false l)).

Lemma validate_ResourceRequest_err r e : validate_ResourceRequest r = Err e → exn_kind e = ValueError.
Proof.
  unfold validate_ResourceRequest. generalize (resource_vars r) as nvs. intros nvs.
  induction nvs as [|nv nvs IH]; [done|]. simpl.
  destruct (nv.2 <? 0); simpl; [by intros [= <-]|done].
Qed.
Lemma available_err s e : (available clock s).2 = Err e → exn_kind e = ValueError.
Proof.
  rewrite available_run. simpl. generalize no_resources as t. generalize (active_leases (clock (ticks s)) s) as ls.
  induction ls as [|l ls IH]; intros t; simpl.
  - apply validate_ResourceRequest_err.
  - destruct (plus t _) as [t'|e'] eqn:Hp; simpl; [apply IH|].
    intros [= <-]. by eapply validate_ResourceRequest_err.
Qed.

Lemma fresh_lease s : sched_inv s → _leases s !! uuid4_hex (next_obj s) = None.
Proof.
  intros Hi. destruct (_leases s !! uuid4_hex (next_obj s)) as [x|] eqn:Hx; [|done].
  destruct (inv_id _ Hi _ _ Hx) as (_ & Heq & Hlt). apply (inj uuid4_hex) in Heq. lia.
Qed.

Lemma grant_new_ok r now s :
  sched_inv s → valid_request r →
  (∀ id x n, _by_key s !! ar_idempotency_key r = Some id → _leases s !! id = Some x →
    (ticks s ≤ n)%nat → active x (clock n) = false) →
  new_outcome r now s (grant_new clock r now s) ∧ sched_inv (grant_new clock r now s).1 ∧
  lease_history s (grant_new clock r now s).1.
Proof.
  intros Hi Hr Hdead. unfold grant_new. prog_simpl.
  pose proof (λ q av Hq, available_dim q s av Hq) as Hdim. pose proof (available_err s) as Herr.
  rewrite available_run in *. simpl in Hdim, Herr.
  destruct (sum_resources _ _ ≫= _) as [av|e].
  2:{ split; [constructor; try done; by apply Herr|]. by apply sound_tick. }
  destruct (fits (ar_resources r) av) eqn:Hf; simpl negb; cbn iota.
  - pose proof (fresh_lease s Hi) as Hfresh. split; [by constructor|]. split.
    + apply (inv_grant (with_tick s) r now (fadd now (lease_ttl_s s))); [by apply inv_tick|done| |]; simpl.
      * intros id x n Hk Hx Hn. eapply Hdead; [done..|lia].
      * intros q n Hq Hn. pose proof (fits_dim _ _ _ Hq Hf). specialize (Hdim q av Hq eq_refl).
        assert (in_use q n s <= in_use q (ticks s) s) by (apply in_use_later; [done..|lia]).
        unfold in_use in *. simpl. lia.
    + split_and!; simpl; try (lia || done). intros id l' Hl'. dict_cases; [left; lia|right].
      exists l'. split_and!; [done..|]. intros n Hn. apply active_earlier. lia.
  - cbn beta iota delta [negb]. rewrite available_run. pose proof (available_err (with_tick s)) as Herr'.
    rewrite available_run in Herr'. simpl in Herr'.
    destruct (sum_resources _ _ ≫= _) as [av'|e].
    + split; [by constructor|]. assert (sound_step s (with_tick (with_tick s))) as Hs.
      { transitivity (with_tick s); apply sound_tick. }
      by apply Hs.
    + split; [constructor; try done; by apply Herr'|].
      assert (sound_step s (with_tick (with_tick s))) as Hs.
      { transitivity (with_tick s); apply sound_tick. }
      by apply Hs.
Qed.

(** *** Every method is a sound step *)
Lemma dead_key s r now :
  sched_inv s → now = clock (ticks s) →
  (∀ id x, _by_key s !! ar_idempotency_key r = Some id → _leases s !! id = Some x → active x now = false) →
  ∀ id x n, _by_key s !! ar_idempotency_key r = Some id → _leases s !! id = Some x →
    (ticks (with_tick s) ≤ n)%nat → active x (clock n) = false.
Proof.
  intros Hi -> Hd id x n Hk Hx Hn. apply (inactive_later x (ticks s)); [simpl in Hn; lia|by eapply Hd].
Qed.

(** The lease that the idempotency index holds for a request. *)
Definition indexed (s : LeaseScheduler) (r : AttemptRequest) : option Lease :=
  match _by_key s !! ar_idempotency_key r with Some id => _leases s !! id | None => None end.

Lemma admit_run r s :
  sched_inv s → valid_request r →
  match indexed s r with
  | Some l =>
      if bool_decide (lease_request l = r) then
        if active l (clock (ticks s)) then admit_ clock r s = (with_tick s, Ok (adm_granted true l))
        else admit_ clock r s = grant_new clock r (clock (ticks s)) (with_tick s)
      else admit_ clock r s = (with_tick s, Ok (adm_refused DUPLICATE []))
  | None => admit_ clock r s = grant_new clock r (clock (ticks s)) (with_tick s)
  end.
Proof.
  intros Hi Hr. unfold indexed, admit_. prog_simpl. simpl.
  destruct (_by_key s !! ar_idempotency_key r) as [id|] eqn:Hk; [|done].
  destruct (inv_index _ Hi _ _ Hk) as (l & Hl & Hkl). rewrite Hl.
  destruct (inv_id _ Hi _ _ Hl) as (_ & Hid & _).
  assert (is_empty_str id = false) as ->.
  { rewrite Hid. pose proof (uuid4_hex_nonempty (lease_obj l)). by destruct (uuid4_hex _). }
  destruct (bool_decide (lease_request l = r)); simpl; [|done].
  by destruct (active l (clock (ticks s))).
Qed.

Lemma admit_grant r s :
  sched_inv s → valid_request r →
  (∀ l, indexed s r = Some l → active l (clock (ticks s)) = false) →
  new_outcome r (clock (ticks s)) (with_tick s) (grant_new clock r (clock (ticks s)) (with_tick s)) ∧
  sound_step s (grant_new clock r (clock (ticks s)) (with_tick s)).1.
Proof.
  intros Hi Hr Hd.
  destruct (grant_new_ok r (clock (ticks s)) (with_tick s) (inv_tick _ Hi) Hr) as (Ho & Hi' & Hh).
  - apply (dead_key s r _ Hi eq_refl). intros id x Hk Hx. apply Hd. unfold indexed. by rewrite Hk.
  - split; [done|]. transitivity (with_tick s); [apply sound_tick|by intros _].
Qed.

Lemma admit_sound r s : valid_request r → sound_step s (admit_ clock r s).1.
Proof.
  intros Hr Hi. pose proof (admit_run r s Hi Hr) as Hrun.
  destruct (indexed s r) as [l|] eqn:Hx.
  - destruct (bool_decide _); [destruct (active l _) eqn:Ha|]; rewrite Hrun; [by apply sound_tick| |by apply sound_tick].
    apply admit_grant; try done. intros l' [= <-]%(eq_trans (eq_sym Hx)). done.
  - rewrite Hrun. apply admit_grant; try done. intros l' Hl'. congruence.
Qed.

Lemma heartbeat_sound id s : sound_step s (heartbeat clock id s).1.
Proof.
  intros Hi. unfold heartbeat. prog_simpl. simpl.
  destruct (_leases s !! id) as [l|] eqn:Hl; [|by apply sound_tick].
  destruct (active l (clock (ticks s))) eqn:Ha; simpl; [|by apply sound_tick].
  split; [by apply inv_heartbeat|]. split_and!; simpl; try (lia || done).
  intros i l' Hl'. right. dict_cases; [by exists l|].
  exists l'. split_and!; [done..|]. intros n Hn. apply active_earlier. lia.
Qed.

Lemma cancel_sound id s : sound_step s (cancel id s).1.
Proof.
  intros Hi. unfold cancel. prog_simpl. simpl.
  destruct (_leases s !! id) as [l|] eqn:Hl; [|by apply (reflexivity (R:=sound_step))].
  split; [by apply inv_cancel|]. split_and!; simpl; try (lia || done).
  intros i l' Hl'. right. dict_cases; [by exists l|].
  exists l'. split_and!; [done..|]. intros n Hn. apply active_earlier. lia.
Qed.

Lemma release_run id s :
  release id s =
  match _leases s !! id with
  | None => (s, Ok false)
  | Some l => (with_leases (delete id (_leases s))
      (with_by_key (if bool_decide (_by_key s !! lease_key l = Some id)
                    then delete (lease_key l) (_by_key s) else _by_key s) s), Ok true)
  end.
Proof.
  unfold release. prog_simpl. destruct (_leases s !! id) as [l|]; [|done]. simpl.
  case_bool_decide; done.
Qed.

Lemma release_sound id s : sound_step s (release id s).1.
Proof.
  intros Hi. rewrite release_run.
  destruct (_leases s !! id) as [l|] eqn:Hl; [|by apply (reflexivity (R:=sound_step))].
  split; [by apply inv_release|]. apply lease_history_same; simpl; try done.
  intros i l'. rewrite dict_lookup_delete by apply Hi. by case_decide.
Qed.

Lemma reclaim_sound s : sound_step s (reclaim_expired clock s).1.
Proof.
  unfold reclaim_expired. revert s. apply (evolves_bind sound_step (read_clock clock)); [intros s; apply sound_tick|].
  intros now. apply evolves_bind; [apply _|apply evolves_gets; apply _|]. intros s.
  apply evolves_bind; [apply _| |intros; apply evolves_ret; apply _].
  apply evolves_for_each; [apply _|]. intros l _.
  apply evolves_bind; [apply _|intros s'; apply release_sound|intros; apply evolves_ret; apply _].
Qed.

Lemma used_sound : Evolves sound_step (used clock).
Proof. intros s. rewrite used_run. apply sound_tick. Qed.
Lemma available_sound : Evolves sound_step (available clock).
Proof. intros s. rewrite available_run. apply sound_tick. Qed.

Lemma snapshot_sound s : sound_step s (snapshot clock s).1.
Proof.
  revert s. unfold snapshot. repeat first
    [ apply used_sound | apply available_sound | apply (evolves_gets sound_step)
    | apply (evolves_ret sound_step) | apply (evolves_bind sound_step (read_clock clock)); intros
    | apply (evolves_bind sound_step); intros ].
Qed.

(** The calls a client can make, and a [uuid4] taken from the same source of
    identifiers by another component. *)
Inductive sched_call : (LeaseScheduler → LeaseScheduler) → Prop :=
  | call_admit r : valid_request r → sched_call (λ s, (admit_ clock r s).1)
  | call_heartbeat id : sched_call (λ s, (heartbeat clock id s).1)
  | call_active_lease id : sched_call (λ s, (active_lease clock id s).1)
  | call_cancel id : sched_call (λ s, (cancel id s).1)
  | call_release id : sched_call (λ s, (release id s).1)
  | call_reclaim : sched_call (λ s, (reclaim_expired clock s).1)
  | call_used : sched_call (λ s, (used clock s).1)
  | call_available : sched_call (λ s, (available clock s).1)
  | call_snapshot : sched_call (λ s, (snapshot clock s).1)
  | call_lease_records : sched_call (λ s, (lease_records clock s).1)
  | call_uuid : sched_call with_new_obj.
Definition sched_step (s s' : LeaseScheduler) : Prop := ∃ f, sched_call f ∧ s' = f s.

Lemma sched_step_sound s s' : sched_step s s' → sound_step s s'.
Proof.
  intros (f & [r Hr|id|id|id|id| | | | | |] & ->).
  - by apply admit_sound.
  - apply heartbeat_sound.
  - unfold active_lease. prog_simpl. destruct (_leases s !! id); [apply sound_tick|reflexivity].
  - apply cancel_sound.
  - apply release_sound.
  - apply reclaim_sound.
  - apply used_sound.
  - apply available_sound.
  - apply snapshot_sound.
  - apply sound_tick.
  - apply sound_uuid.
Qed.

Lemma sched_steps_sound s s' : rtc sched_step s s' → sound_step s s'.
Proof. induction 1 as [|s s1 s2 H _ IH]; [reflexivity|]. etransitivity; [by apply sched_step_sound|done]. Qed.

Definition sched_reachable (cap : ResourceRequest) (ttl : float) (s : LeaseScheduler) : Prop :=
  validate_ResourceRequest cap = Ok cap ∧
  ∃ s0, new_LeaseScheduler cap ttl = Ok s0 ∧ rtc sched_step s0 s.

Lemma new_inv cap ttl s0 :
  validate_ResourceRequest cap = Ok cap → new_LeaseScheduler cap ttl = Ok s0 →
  sched_inv s0 ∧ capacity s0 = cap ∧ lease_ttl_s s0 = ttl.
Proof.
  intros Hc H. unfold new_LeaseScheduler in H. apply bind_unit_ok in H as [_ [= <-]].
  split; [|done]. split; simpl; try apply dict_wf_empty; try done.
  intros q n Hq _. unfold in_use. simpl.
  pose (r := {| ar_challenge_id := "x"; ar_experiment_id := "x"; ar_attempt_id := "x";
                ar_idempotency_key := "x"; ar_resources := cap |}).
  apply (valid_dim_nonneg r q); [|done]. by split.
Qed.

Lemma reachable_inv cap ttl s :
  sched_reachable cap ttl s → sched_inv s ∧ capacity s = cap ∧ lease_ttl_s s = ttl.
Proof.
  intros (Hc & s0 & H0 & Hs). destruct (new_inv _ _ _ Hc H0) as (Hi & <- & <-).
  destruct (sched_steps_sound _ _ Hs Hi) as (Hi' & _ & _ & -> & -> & _). done.
Qed.

(** ** Properties *)

(** C4: whatever sequence of calls a scheduler has served, the live leases at
    any later clock reading take no more GPUs, gateway slots and verifier slots
    than its capacity has, provided the clock never runs backwards. *)
Theorem capacity_never_exceeded cap ttl s q n :
  sched_reachable cap ttl s → int_dim q → (ticks s ≤ n)%nat → in_use q n s <= q cap.
Proof. intros (Hi & <- & _)%reachable_inv Hq Hn. by apply Hi. Qed.

(** two leases that are live at the same moment never share an idempotency
    key, and a live lease is always the one the key index names. *)
Theorem one_live_lease_per_key cap ttl s id1 id2 l1 l2 n :
  sched_reachable cap ttl s → _leases s !! id1 = Some l1 → _leases s !! id2 = Some l2 →
  lease_key l1 = lease_key l2 → (ticks s ≤ n)%nat →
  active l1 (clock n) = true → active l2 (clock n) = true →
  id1 = id2 ∧ _by_key s !! lease_key l1 = Some id1.
Proof.
  intros (Hi & _)%reachable_inv H1 H2 Hk Hn Ha1 Ha2.
  assert (∀ id l, _leases s !! id = Some l → active l (clock n) = true →
            _by_key s !! lease_key l = Some id) as Hlive.
  { intros id l Hl Ha. destruct (decide (_by_key s !! lease_key l = Some id)); [done|].
    rewrite (inv_stale _ Hi id l n) in Ha; done. }
  pose proof (Hlive _ _ H1 Ha1). pose proof (Hlive _ _ H2 Ha2) as Hl2. rewrite <- Hk in Hl2.
  split; [congruence|done].
Qed.

(** the outcome of [admit].  A key whose indexed lease is live returns that
    lease as a duplicate when the request is the same and is refused as a
    [DUPLICATE] when it differs, dead or alive; otherwise the request is granted
    a fresh lease, stored and indexed, or refused for [CAPACITY], or fails with
    the [ValueError] of a resource vector, and then nothing is stored.  The
    index never leads to a missing lease. *)
Theorem admit_outcomes cap ttl s r :
  sched_reachable cap ttl s → valid_request r →
  match indexed s r with
  | Some l =>
      if bool_decide (lease_request l = r) then
        if active l (clock (ticks s)) then admit_ clock r s = (with_tick s, Ok (adm_granted true l))
        else new_outcome r (clock (ticks s)) s (admit_ clock r s)
      else admit_ clock r s = (with_tick s, Ok (adm_refused DUPLICATE []))
  | None => new_outcome r (clock (ticks s)) s (admit_ clock r s)
  end.
Proof.
  intros (Hi & _)%reachable_inv Hr. pose proof (admit_run r s Hi Hr) as Hrun.
  assert (∀ x, new_outcome r (clock (ticks s)) (with_tick s) x → new_outcome r (clock (ticks s)) s x)
    as Hup by (intros x []; by econstructor).
  destruct (indexed s r) as [l|] eqn:Hx; [destruct (bool_decide _); [destruct (active l _) eqn:Ha|]|];
    try done; rewrite Hrun; apply Hup, admit_grant; try done; intros l' Hl'; congruence.
Qed.

(** A lease that is dead, expired or cancelled, stays dead: no later call
    revives it, and its identifier is never given to another lease. *)
Theorem dead_lease_stays_dead cap ttl s s' id l l' n :
  sched_reachable cap ttl s → rtc sched_step s s' →
  _leases s !! id = Some l → active l (clock (ticks s)) = false →
  _leases s' !! id = Some l' → (ticks s' ≤ n)%nat →
  lease_obj l' = lease_obj l ∧ active l' (clock n) = false.
Proof.
  intros (Hi & _)%reachable_inv Hs Hl Hd Hl' Hn.
  destruct (sched_steps_sound _ _ Hs Hi) as (Hi' & _ & _ & _ & _ & Hh).
  destruct (Hh _ _ Hl') as [Hnew|(l0 & Hl0 & Ho & Hact)].
  - destruct (inv_id _ Hi _ _ Hl) as (_ & He & Hlt).
    destruct (inv_id _ Hi' _ _ Hl') as (_ & He' & _).
    rewrite He in He'. apply (inj uuid4_hex) in He'. lia.
  - simplify_eq. split; [done|]. destruct (active l' (clock n)) eqn:Ha; [|done].
    rewrite (Hact n Hn Ha) in Hd. done.
Qed.

Lemma release_all_run ls s :
  dict_wf (_leases s) →
  ∃ s', for_each ls (λ l, release (lease_id l) ;; mret tt) s = (s', Ok tt) ∧
    dict_wf (_leases s') ∧
    ∀ id, _leases s' !! id = if bool_decide (id ∈ lease_id <$> ls) then None else _leases s !! id.
Proof.
  revert s. induction ls as [|l ls IH]; intros s Hwf; [by exists s|].
  simpl. rewrite !prog_bind_eq, release_run.
  destruct (_leases s !! lease_id l) as [x|] eqn:Hl; simpl.
  - destruct (IH (with_leases (delete (lease_id l) (_leases s)) (with_by_key
      (if bool_decide (_by_key s !! lease_key x = Some (lease_id l))
       then delete (lease_key x) (_by_key s) else _by_key s) s))) as (s' & Hr & Hwf' & Hs');
      [by apply dict_wf_delete|].
    exists s'. rewrite Hr. split_and!; [done..|]. intros id. rewrite Hs'. simpl.
    rewrite dict_lookup_delete by done. repeat case_bool_decide; try case_decide; set_solver.
  - destruct (IH s Hwf) as (s' & Hr & Hwf' & Hs'). exists s'. rewrite Hr. split_and!; [done..|].
    intros id. rewrite Hs'. by repeat case_bool_decide; set_solver.
Qed.

(** [reclaim_expired] returns exactly the uncancelled leases whose expiry
    the clock has reached, removes those and no others. *)
Theorem reclaim_expired_exact cap ttl s :
  sched_reachable cap ttl s →
  ∃ s' ls, reclaim_expired clock s = (s', Ok ls) ∧
    (∀ l, l ∈ ls ↔ _leases s !! lease_id l = Some l ∧ lease_cancelled l = false ∧
                   expires_at l <= clock (ticks s)) ∧
    ∀ id, _leases s' !! id = if bool_decide (id ∈ lease_id <$> ls) then None else _leases s !! id.
Proof.
  intros (Hi & _)%reachable_inv. unfold reclaim_expired.
  rewrite prog_bind_eq. cbn [read_clock]. rewrite prog_bind_eq. cbn [gets]. cbn zeta.
  rewrite prog_bind_eq.
  set (ls := List.filter _ _).
  destruct (release_all_run ls (with_tick s)) as (s' & Hr & _ & Hs'); [apply Hi|].
  rewrite Hr. exists s', ls. split_and!; [done| |done].
  intros l. subst ls. rewrite list_elem_of_In, filter_In, <- list_elem_of_In.
  rewrite andb_true_iff, negb_true_iff, Z.leb_le. split.
  - intros [Hv ?]. apply (inv_vals s) in Hv as (id & Hl); [|done]. by destruct (inv_id _ Hi _ _ Hl) as [-> _].
  - intros (Hl & ?). split; [by eapply dict_lookup_vals|done].
Qed.
End facts.
