(* ===== verification/Access.v ===== *)
(** * Lease-bound ownership and agent-to-agent grants ([arena/access.py])

    [CollaborationAccess] joins the writes of agents to the live leases of its
    scheduler.  The scheduler is part of the state because every check reads its
    clock; object identity ([is not lease]) is [lease_obj]. *)
From S2P Require Import Prelude PyDict PyFloat Canonical LeaseScheduler.

Record AttemptOwnership := {
  ow_experiment_id : string; ow_attempt_id : string; ow_lease_id : string; ow_owner : string }.
#[export] Instance AttemptOwnership_eq_dec : EqDecision AttemptOwnership.
Proof. solve_decision. Defined.

Record AgentMessage := {
  msg_id : string; msg_sender : string; msg_recipient : string; msg_experiment_id : string;
  msg_body : string; msg_created_at : datetime }.
#[export] Instance AgentMessage_eq_dec : EqDecision AgentMessage.
Proof. solve_decision. Defined.

Record CollaborationAccess := {
  scheduler : LeaseScheduler;
  _ownership : dict (string * string) AttemptOwnership;
  _grants : gset (string * string);
  _inboxes : dict string (list AgentMessage);
}.
(** [CollaborationAccess(scheduler)] *)
Definition new_CollaborationAccess (s : LeaseScheduler) : CollaborationAccess :=
  {| scheduler := s; _ownership := ∅; _grants := ∅; _inboxes := ∅ |}.
Definition set_scheduler x (a : CollaborationAccess) : CollaborationAccess :=
  {| scheduler := x; _ownership := _ownership a; _grants := _grants a; _inboxes := _inboxes a |}.
Definition set_ownership x (a : CollaborationAccess) : CollaborationAccess :=
  {| scheduler := scheduler a; _ownership := x; _grants := _grants a; _inboxes := _inboxes a |}.
Definition set_grants x (a : CollaborationAccess) : CollaborationAccess :=
  {| scheduler := scheduler a; _ownership := _ownership a; _grants := x; _inboxes := _inboxes a |}.
Definition set_inboxes x (a : CollaborationAccess) : CollaborationAccess :=
  {| scheduler := scheduler a; _ownership := _ownership a; _grants := _grants a; _inboxes := x |}.

Definition denied {S A} (msg : string) : prog S A := raise AccessDeniedError msg.

(** Tuples of strings in Python's order. *)
Definition pair_le (a b : string * string) : Prop :=
  (a.1 ≠ b.1 ∧ String.le a.1 b.1) ∨ (a.1 = b.1 ∧ String.le a.2 b.2).
#[export] Instance pair_le_dec : RelDecision pair_le.
Proof. intros a b. unfold pair_le. apply _. Defined.

Section access.
Context {EN : Entropy} (clock : nat → float) (wall : nat → datetime).

(** A call on the scheduler the object holds. *)
Definition on_scheduler {A} (m : prog LeaseScheduler A) : prog CollaborationAccess A :=
  λ a, let '(s', r) := m (scheduler a) in (set_scheduler s' a, r).

Definition bind (lease : Lease) (owner : string) : prog CollaborationAccess AttemptOwnership :=
  (if blank owner then denied "ownership requires an active scheduler lease" else mret tt) ;;
  current ← on_scheduler (active_lease clock (lease_id lease));
  (if bool_decide (lease_obj <$> current = Some (lease_obj lease)) then mret tt
   else denied "ownership requires an active scheduler lease") ;;
  let key := (ar_experiment_id (lease_request lease), ar_attempt_id (lease_request lease)) in
  let ownership := {| ow_experiment_id := key.1; ow_attempt_id := key.2;
                      ow_lease_id := lease_id lease; ow_owner := owner |} in
  a ← gets (λ a, a);
  raise_if (match _ownership a !! key with
            | Some prior => negb (bool_decide (prior = ownership)) | None => false end)
    AccessDeniedError "attempt already has a different owner" ;;
  modify (λ a, set_ownership (<[key := ownership]> (_ownership a)) a) ;;
  mret ownership.

Definition require_owner (experiment_id attempt_id actor : string) : prog CollaborationAccess Lease :=
  a ← gets (λ a, a);
  match _ownership a !! (experiment_id, attempt_id) with
  | None => denied "actor does not own this attempt"
  | Some ownership =>
      if negb (bool_decide (ow_owner ownership = actor)) then denied "actor does not own this attempt"
      else
        lease ← on_scheduler (active_lease clock (ow_lease_id ownership));
        match lease with
        | None => denied "attempt ownership lease is no longer active"
        | Some l => mret l
        end
  end.

Definition grant_peer (actor owner peer : string) : prog CollaborationAccess unit :=
  raise_if (blank owner || blank peer || bool_decide (owner = peer)) ValueError
    "A2A grants require two distinct agent identities" ;;
  raise_if (negb (bool_decide (actor = owner))) AccessDeniedError
    "only an agent may grant access to its A2A channel" ;;
  modify (λ a, set_grants ({[(owner, peer)]} ∪ _grants a) a).
Definition revoke_peer (owner peer : string) : prog CollaborationAccess unit :=
  modify (λ a, set_grants (_grants a ∖ {[(owner, peer)]}) a).

(** The message identifier and time are the interpreter's next ones. *)
Definition send (sender recipient experiment_id attempt_id body : string) :
    prog CollaborationAccess AgentMessage :=
  require_owner experiment_id attempt_id sender ;;
  a ← gets (λ a, a);
  raise_if (negb (bool_decide ((sender, recipient) ∈ _grants a))) AccessDeniedError
    "sender has no A2A grant for recipient" ;;
  raise_if (blank body) ValueError "message body must not be empty" ;;
  let n := next_obj (scheduler a) in
  let message := {|
    msg_id := uuid4_hex n; msg_sender := sender; msg_recipient := recipient;
    msg_experiment_id := experiment_id; msg_body := body; msg_created_at := wall n |} in
  on_scheduler (modify with_new_obj) ;;
  modify (λ a, set_inboxes
    (<[recipient := default [] (_inboxes a !! recipient) ++ [message]]> (_inboxes a)) a) ;;
  mret message.

Definition inbox (actor : string) (a : CollaborationAccess) : list AgentMessage :=
  default [] (_inboxes a !! actor).

(** The items whose lease is live, each looked up at its own clock reading. *)
Fixpoint live_items (items : list AttemptOwnership) : prog CollaborationAccess (list AttemptOwnership) :=
  match items with
  | [] => mret []
  | item :: items =>
      lease ← on_scheduler (active_lease clock (ow_lease_id item));
      rest ← live_items items;
      mret (match lease with Some _ => item :: rest | None => rest end)
  end.
Definition owned_attempts (actor : string) : prog CollaborationAccess (list AttemptOwnership) :=
  a ← gets (λ a, a);
  live ← live_items (List.filter (λ item, bool_decide (ow_owner item = actor)) (vals (_ownership a)));
  mret (merge_sort (λ x y, pair_le (ow_experiment_id x, ow_attempt_id x)
                                   (ow_experiment_id y, ow_attempt_id y)) live).

(** [reproduce] and [mutate]: the catalog's construction runs for the live owner
    only. *)
Definition reproduce {R} (reproduce_evidence : string → string → string → result R)
    (immutable_evidence_id experiment_id attempt_id actor : string) : prog CollaborationAccess R :=
  require_owner experiment_id attempt_id actor ;;
  lift (reproduce_evidence immutable_evidence_id experiment_id actor).
Definition mutate {R} (catalog_mutate : string → string → string → result R)
    (parent_id experiment_id attempt_id actor : string) : prog CollaborationAccess R :=
  require_owner experiment_id attempt_id actor ;;
  lift (catalog_mutate parent_id experiment_id actor).
End access.

(** ** What the calls require and change *)
Section facts.
Context {EN : Entropy} (clock : nat → float) (wall : nat → datetime).

(** [actor] owns the attempt through a lease that is live at the next reading. *)
Definition live_owner (a : CollaborationAccess) (experiment_id attempt_id actor : string) : Prop :=
  ∃ o l, _ownership a !! (experiment_id, attempt_id) = Some o ∧ ow_owner o = actor ∧
    _leases (scheduler a) !! ow_lease_id o = Some l ∧
    active l (clock (ticks (scheduler a))) = true.

Lemma require_owner_run e t actor a :
  ∃ s', (∀ f, (require_owner clock e t actor a).1 = f → f = set_scheduler s' a) ∧
    _leases s' = _leases (scheduler a) ∧ next_obj s' = next_obj (scheduler a) ∧
    (is_ok (require_owner clock e t actor a).2 = true ↔ live_owner a e t actor) ∧
    (∀ x, (require_owner clock e t actor a).2 = Err x → exn_kind x = AccessDeniedError).
Proof.
  unfold require_owner, live_owner, denied, on_scheduler, active_lease. prog_simpl. simpl.
  destruct (_ownership a !! (e, t)) as [o|] eqn:Ho; simpl.
  2:{ exists (scheduler a). split_and!; [by destruct a; intros ? <-|done|done| |by intros ? [= <-]].
      split; [done|]. naive_solver. }
  case_bool_decide as Hown; simpl.
  2:{ exists (scheduler a). split_and!; [by destruct a; intros ? <-|done|done| |by intros ? [= <-]].
      split; [done|]. naive_solver. }
  destruct (_leases (scheduler a) !! ow_lease_id o) as [l|] eqn:Hl; simpl.
  - exists (with_tick (scheduler a)). destruct (active l _) eqn:Ha; simpl;
      (split_and!; [by intros ? <-|done|done| |by intros ? [= <-]]); split; naive_solver.
  - exists (scheduler a). split_and!; [by intros ? <-|done|done| |by intros ? [= <-]].
    split; naive_solver.
Qed.

(** [send] delivers exactly when the sender owns the attempt through a live
    lease, holds a grant for the recipient and the body is not blank; the message
    is appended to the recipient's inbox and to no other. *)
Theorem send_delivers sender recipient e t body a a' r :
  send clock wall sender recipient e t body a = (a', r) →
  (is_ok r = true ↔ live_owner a e t sender ∧ (sender, recipient) ∈ _grants a ∧ blank body = false) ∧
  match r with
  | Ok m => msg_sender m = sender ∧ msg_recipient m = recipient ∧ msg_body m = body ∧
            inbox recipient a' = inbox recipient a ++ [m] ∧
            (∀ x, x ≠ recipient → inbox x a' = inbox x a)
  | Err _ => ∀ x, inbox x a' = inbox x a
  end.
Proof.
  unfold send. rewrite prog_bind_eq.
  destruct (require_owner_run e t sender a) as (s' & Hst & _ & _ & Hok & _).
  destruct (require_owner clock e t sender a) as [a1 [l|x]]; simpl in Hst, Hok;
    specialize (Hst a1 eq_refl); subst a1.
  2:{ intros [= <- <-]. split; [|done]. simpl. split; [done|]. intros (H & _). by apply Hok in H. }
  prog_simpl. simpl. case_bool_decide as Hg; simpl.
  2:{ intros [= <- <-]. split; [|done]. simpl. naive_solver. }
  destruct (blank body); simpl; intros [= <- <-].
  - split; [|done]. simpl. naive_solver.
  - split; [simpl; naive_solver|]. split_and!; [done..| |]; unfold inbox; simpl.
    + by rewrite dict_lookup_insert_eq.
    + intros x Hx. by rewrite dict_lookup_insert_ne.
Qed.

(** Once an attempt has an owner, no call gives it another one, not even the
    same owner under a later lease: binding again under a different lease or owner
    is denied, and binding succeeds only for the very lease object the scheduler
    holds live. *)
Theorem bind_owner_permanent lease owner a a' r (l := lease_request lease)
    (key := (ar_experiment_id l, ar_attempt_id l)) :
  bind clock lease owner a = (a', r) →
  (∀ k o, _ownership a !! k = Some o → _ownership a' !! k = Some o) ∧
  match r with
  | Ok o => ow_owner o = owner ∧ ow_lease_id o = lease_id lease ∧ blank owner = false ∧
            _ownership a' !! key = Some o ∧
            (∃ x, _leases (scheduler a) !! lease_id lease = Some x ∧ lease_obj x = lease_obj lease ∧
                  active x (clock (ticks (scheduler a))) = true) ∧
            (_ownership a !! key = None ∨ _ownership a !! key = Some o)
  | Err e => exn_kind e = AccessDeniedError ∧ _ownership a' = _ownership a
  end.
Proof.
  unfold bind, denied, on_scheduler, active_lease. fold l. fold key. clearbody key. prog_simpl. simpl.
  destruct (blank owner) eqn:Hb; simpl; [by intros [= <- <-]|].
  destruct (_leases (scheduler a) !! lease_id lease) as [x|] eqn:Hx; simpl; [|by intros [= <- <-]].
  destruct (active x _) eqn:Ha; simpl; [|by intros [= <- <-]].
  case_bool_decide as Ho; simpl; [|by intros [= <- <-]].
  destruct (_ownership a !! key) as [prior|] eqn:Hp; simpl.
  - case_bool_decide as Hpr; simpl; [|by intros [= <- <-]].
    intros [= <- <-]. simpl. split.
    { intros k o Hk. dict_cases; congruence. }
    split_and!; first [done | by rewrite dict_lookup_insert_eq | by exists x; split_and!; [|congruence|]
      | right; by f_equal].
  - intros [= <- <-]. simpl. split.
    { intros k o Hk. dict_cases; congruence. }
    split_and!; first [done | by rewrite dict_lookup_insert_eq | by exists x; split_and!; [|congruence|] | by left].
Qed.

(** A grant for a channel can only be created by the agent that owns the
    channel, and revoking removes exactly that grant. *)
Theorem grants_by_owner actor owner peer a :
  let '(a', r) := grant_peer actor owner peer a in
  (∀ x y, (x, y) ∈ _grants a' → (x, y) ∈ _grants a ∨ (x = actor ∧ x = owner ∧ y = peer ∧ x ≠ y)) ∧
  (r = Ok tt ↔ actor = owner ∧ owner ≠ peer ∧ blank owner = false ∧ blank peer = false) ∧
  (∀ x y, (x, y) ∈ _grants (revoke_peer owner peer a').1 ↔ (x, y) ∈ _grants a' ∧ (x, y) ≠ (owner, peer)).
Proof.
  destruct (grant_peer actor owner peer a) as [a' r] eqn:H.
  assert (∀ x y, (x, y) ∈ _grants (revoke_peer owner peer a').1 ↔
            (x, y) ∈ _grants a' ∧ (x, y) ≠ (owner, peer)) as Hrev.
  { intros x y. simpl. set_solver. }
  split_and!; [| |done]; clear Hrev; revert H; unfold grant_peer; prog_simpl;
    destruct (blank owner), (blank peer); simpl; repeat case_bool_decide; simpl;
    intros [= <- <-]; simpl; try set_solver; naive_solver.
Qed.
End facts.
