(* ===== verification/Lineage.v ===== *)
(** * Lineage of experiments ([arena/lineage.py])

    The derived view over immutable experiments: records by identifier and the
    children of each parent.  The loops that follow parent links are bounded by
    fuel; [would_cycle_total], [ancestors_complete] and [descendants_complete] show the fuel given is enough. *)
From S2P Require Import Prelude PyDict PyFloat Canonical Models.

Record LineageGraph := {
  _experiments : dict string Experiment;
  _children : dict string (gset string);   (* a defaultdict(set) *)
}.
Definition empty_lineage : LineageGraph := {| _experiments := ∅; _children := ∅ |}.

(** [x.parent_id] taken as a condition: [None] and the empty string are false. *)
Definition truthy_parent (e : Experiment) : option string :=
  match ex_parent_id e with Some p => if is_empty_str p then None else Some p | None => None end.

(** The [while cursor is not None] loop of [_would_cycle]; [None] is fuel spent. *)
Fixpoint would_cycle_from (fuel : nat) (g : LineageGraph) (child_id : string)
    (visited : gset string) (cursor : option string) : option bool :=
  match fuel with
  | O => None
  | S fuel =>
      match cursor with
      | None => Some false
      | Some c =>
          if bool_decide (c = child_id) then Some true
          else if bool_decide (c ∈ visited) then Some true
          else would_cycle_from fuel g child_id ({[c]} ∪ visited)
                 (match _experiments g !! c with Some p => ex_parent_id p | None => None end)
      end
  end.
Definition walk_fuel (g : LineageGraph) : nat := 3 + length (keys (_experiments g)).
Definition _would_cycle (g : LineageGraph) (child_id parent_id : string) : option bool :=
  would_cycle_from (walk_fuel g) g child_id ∅ (Some parent_id).

Section lineage.
Context {PF : Platform}.

Definition add_experiment (e : Experiment) : prog LineageGraph unit :=
  g ← gets (λ g, g);
  raise_if (match _experiments g !! ex_id e with
            | Some previous => negb (bool_decide (Experiment_content_hash previous = Experiment_content_hash e))
            | None => false end) ValueError "experiment id has conflicting content" ;;
  raise_if (bool_decide (ex_parent_id e = Some (ex_id e))) ValueError "self-parent lineage is forbidden" ;;
  raise_if (match truthy_parent e with
            | Some p => default true (_would_cycle g (ex_id e) p) | None => false end)
    ValueError "experiment lineage would contain a cycle" ;;
  modify (λ g, {| _experiments := <[ex_id e := e]> (_experiments g); _children := _children g |}) ;;
  match truthy_parent e with
  | Some p => modify (λ g, {| _experiments := _experiments g;
      _children := <[p := {[ex_id e]} ∪ default ∅ (_children g !! p)]> (_children g) |})
  | None => mret tt
  end.
(** [LineageGraph(experiments)] *)
Definition new_LineageGraph (es : list Experiment) : LineageGraph * result unit :=
  for_each es add_experiment empty_lineage.
End lineage.

(** The loop of [ancestors]; [None] is fuel spent. *)
Fixpoint ancestors_from (fuel : nat) (g : LineageGraph) (seen : gset string)
    (cursor : option string) : option (result (list Experiment)) :=
  match fuel with
  | O => None
  | S fuel =>
      match cursor with
      | None => Some (Ok [])
      | Some c =>
          if bool_decide (c ∈ seen) then Some (Err (Exn ValueError "experiment lineage contains a cycle"))
          else match _experiments g !! c with
               | None => Some (Ok [])
               | Some parent =>
                   match ancestors_from fuel g ({[c]} ∪ seen) (ex_parent_id parent) with
                   | Some (Ok rest) => Some (Ok (parent :: rest))
                   | other => other
                   end
               end
      end
  end.
Definition ancestors (g : LineageGraph) (experiment_id : string) : option (result (list Experiment)) :=
  match _experiments g !! experiment_id with
  | None => Some (Err (Exn KeyError experiment_id))
  | Some e => ancestors_from (walk_fuel g) g ∅ (ex_parent_id e)
  end.

(** The breadth-first queue of [descendants]. *)
Definition sorted_children (g : LineageGraph) (id : string) : list string :=
  sorted_str (elements (default ∅ (_children g !! id))).
Fixpoint descendants_from (fuel : nat) (g : LineageGraph) (queue : list string) :
    option (result (list Experiment)) :=
  match fuel with
  | O => None
  | S fuel =>
      match queue with
      | [] => Some (Ok [])
      | child_id :: queue =>
          match _experiments g !! child_id with
          | None => Some (Err (Exn KeyError child_id))
          | Some e =>
              match descendants_from fuel g (queue ++ sorted_children g child_id) with
              | Some (Ok rest) => Some (Ok (e :: rest))
              | other => other
              end
          end
      end
  end.
Definition descendants (g : LineageGraph) (experiment_id : string) : option (result (list Experiment)) :=
  descendants_from (walk_fuel g) g (sorted_children g experiment_id).

Definition roots (g : LineageGraph) : list Experiment :=
  sort_by ex_id (List.filter (λ e, bool_decide (ex_parent_id e = None)) (vals (_experiments g))).

(** ** Invariant *)
Definition parent_rel (g : LineageGraph) (child parent : string) : Prop :=
  ∃ e, _experiments g !! child = Some e ∧ ex_parent_id e = Some parent.
Definition acyclic (g : LineageGraph) : Prop := ∀ id, ¬ tc (parent_rel g) id id.

Record lineage_inv (g : LineageGraph) : Prop := {
  lin_wf : dict_wf (_experiments g);
  lin_id id e : _experiments g !! id = Some e → ex_id e = id;
  lin_parent id e : _experiments g !! id = Some e → ex_parent_id e ≠ Some "";
  lin_children p c : c ∈ default ∅ (_children g !! p) ↔ parent_rel g c p;
  lin_acyclic : acyclic g;
}.

Lemma parent_rel_functional g a b c : parent_rel g a b → parent_rel g a c → b = c.
Proof. intros (e & He & Hb) (f & Hf & Hc). congruence. Qed.
Lemma parent_rel_present g a b : parent_rel g a b → a ∈ keys (_experiments g).
Proof. intros (e & He & _). apply elem_of_keys. by eexists. Qed.

Lemma tc_present g x y : tc (parent_rel g) x y → x ∈ keys (_experiments g).
Proof. by intros [? ? H|? ? ? H _]; eapply parent_rel_present. Qed.

(** Distinct present identifiers are no more than the records. *)
Lemma NoDup_bound g (ids : list string) :
  NoDup ids → (∀ v, v ∈ ids → v ∈ keys (_experiments g)) → length ids ≤ length (keys (_experiments g)).
Proof. intros Hnd H. apply submseteq_length, NoDup_submseteq; [done|]. intros x. apply H. Qed.
Lemma seen_bound g (seen : gset string) :
  (∀ v, v ∈ seen → v ∈ keys (_experiments g)) → size seen ≤ length (keys (_experiments g)).
Proof.
  intros H. unfold size, set_size. simpl. apply NoDup_bound; [apply NoDup_elements|].
  intros v Hv. apply H. by apply elem_of_elements.
Qed.
Lemma seen_grows (seen : gset string) c : c ∉ seen → size ({[c]} ∪ seen) = S (size seen).
Proof. intros Hc. rewrite size_union by set_solver. by rewrite size_singleton. Qed.

Definition next_parent (g : LineageGraph) (c : string) : option string :=
  match _experiments g !! c with Some p => ex_parent_id p | None => None end.
Lemma next_parent_rel g c b : next_parent g c = Some b ↔ parent_rel g c b.
Proof.
  unfold next_parent, parent_rel. destruct (_experiments g !! c) as [e|]; [|naive_solver].
  split; [eauto|]. by intros (e' & [= <-] & ?).
Qed.

(** The walk of [_would_cycle] ends within its fuel, ... *)
Lemma would_cycle_total g child seen cursor fuel :
  (∀ v, v ∈ seen → v ∈ keys (_experiments g)) →
  match cursor with Some _ => 2 | None => 1 end + length (keys (_experiments g)) ≤ fuel + size seen →
  is_Some (would_cycle_from fuel g child seen cursor).
Proof.
  revert seen cursor. induction fuel as [|fuel IH]; intros seen cursor Hseen Hfuel.
  - pose proof (seen_bound g seen Hseen). destruct cursor; lia.
  - destruct cursor as [c|]; simpl; [|by eexists].
    do 2 (case_bool_decide; [by eexists|]). fold (next_parent g c).
    destruct (next_parent g c) as [b|] eqn:Hb.
    + apply next_parent_rel in Hb. apply IH; [|rewrite seen_grows by done; lia].
      intros v [->%elem_of_singleton|Hv]%elem_of_union; [by eapply parent_rel_present|auto].
    + destruct fuel as [|fuel]; [|by eexists]. pose proof (seen_bound g seen Hseen). lia.
Qed.
(** ... and when it answers no, the child is not above the parent. *)
Lemma would_cycle_false g child c seen fuel :
  would_cycle_from fuel g child seen (Some c) = Some false → ¬ rtc (parent_rel g) c child.
Proof.
  revert seen c. induction fuel as [|fuel IH]; intros seen c; [done|].
  cbn [would_cycle_from]. do 2 (case_bool_decide; [done|]). fold (next_parent g c).
  intros Hw Hr. inversion Hr as [|? b ? Hcb Hr']; subst; [done|].
  apply next_parent_rel in Hcb. rewrite Hcb in Hw. by eapply IH.
Qed.

(** Adding one edge below a node that was not above the parent. *)
Lemma rtc_first_arrival (R R' : relation string) id p x :
  (∀ a b, R' a b → R a b ∨ (a = id ∧ b = p)) → rtc R' x id → rtc R x id.
Proof.
  intros HR. induction 1 as [|x y z Hxy _ IH]; [done|].
  destruct (HR _ _ Hxy) as [Hr|[-> _]]; [eapply rtc_l; [done|by apply IH]|done].
Qed.
Lemma tc_new_edge (R R' : relation string) id p x y :
  (∀ a b, R' a b → R a b ∨ (a = id ∧ b = p)) → tc R' x y → tc R x y ∨ (rtc R' x id ∧ rtc R' p y).
Proof.
  intros HR. induction 1 as [x y Hxy|x y z Hxy Hyz IH].
  - destruct (HR _ _ Hxy) as [Hr|[-> ->]]; [left; by constructor|by right].
  - destruct (HR _ _ Hxy) as [Hr|[-> ->]].
    + destruct IH as [IH|[H1 H2]]; [left; by eapply tc_l|right]. split; [by eapply rtc_l|done].
    + right. split; [done|by apply tc_rtc].
Qed.
Lemma tc_mono (R R' : relation string) x y : (∀ a b, R' a b → R a b) → tc R' x y → tc R x y.
Proof. intros HR. induction 1; [apply tc_once|eapply tc_l]; eauto. Qed.
Lemma acyclic_new_edge g g' id p :
  acyclic g → ¬ rtc (parent_rel g) p id →
  (∀ a b, parent_rel g' a b → parent_rel g a b ∨ (a = id ∧ b = p)) → acyclic g'.
Proof.
  intros Hac Hno HR x Hx. destruct (tc_new_edge _ _ _ _ _ _ HR Hx) as [H|[H1 H2]]; [exact (Hac x H)|].
  apply Hno. eapply rtc_first_arrival; [done|]. by etrans.
Qed.

Section facts.
Context {PF : Platform}.

(** A record that may be added again: no other content under the same digest. *)
Definition no_collision (g : LineageGraph) (e : Experiment) : Prop :=
  ∀ e', _experiments g !! ex_id e = Some e' →
    Experiment_content_hash e' = Experiment_content_hash e → e' = e.

Lemma lineage_inv_empty : lineage_inv empty_lineage.
Proof.
  split; try done; [apply dict_wf_empty| |].
  - intros p c. split; [set_solver|]. by intros (e & He & _).
  - assert (∀ x y, tc (parent_rel empty_lineage) x y → False) as H; [|intros x Hx; exact (H x x Hx)].
    induction 1 as [x y (e & He & _)|x y z (e & He & _) _ _]; done.
Qed.

(** The graph after a successful [add]. *)
Definition added (e : Experiment) (g : LineageGraph) : LineageGraph := {|
  _experiments := <[ex_id e := e]> (_experiments g);
  _children := match truthy_parent e with
    | Some p => <[p := {[ex_id e]} ∪ default ∅ (_children g !! p)]> (_children g)
    | None => _children g end |}.

Lemma add_run e g g' r :
  add_experiment e g = (g', r) →
  (r = Ok tt ∧ g' = added e g ∧
    (∀ e', _experiments g !! ex_id e = Some e' → Experiment_content_hash e' = Experiment_content_hash e) ∧
    ∀ p, truthy_parent e = Some p → _would_cycle g (ex_id e) p = Some false)
  ∨ (is_ok r = false ∧ g' = g).
Proof.
  unfold add_experiment, added. prog_simpl.
  destruct (match _experiments g !! ex_id e with Some _ => _ | None => _ end) eqn:Hc;
    simpl; [intros [= <- <-]; by right|].
  case_bool_decide; simpl; [intros [= <- <-]; by right|].
  destruct (match truthy_parent e with Some _ => _ | None => _ end) eqn:Hw;
    simpl; [intros [= <- <-]; by right|].
  assert (∀ e', _experiments g !! ex_id e = Some e' →
    Experiment_content_hash e' = Experiment_content_hash e) as Hhash.
  { intros e' He'. rewrite He' in Hc. by apply negb_false_iff, bool_decide_eq_true in Hc. }
  destruct (truthy_parent e) as [p|] eqn:Hp; simpl; intros [= <- <-]; left; split_and!; try done.
  intros p' [= <-]. destruct (_would_cycle g (ex_id e) p) as [[]|]; simpl in Hw; done.
Qed.

Lemma truthy_parent_some e p : truthy_parent e = Some p → ex_parent_id e = Some p.
Proof. unfold truthy_parent. destruct (ex_parent_id e) as [[|c q]|]; naive_solver. Qed.
Lemma truthy_parent_none e : ex_parent_id e ≠ Some "" → truthy_parent e = None → ex_parent_id e = None.
Proof. unfold truthy_parent. destruct (ex_parent_id e) as [[|c q]|]; naive_solver. Qed.

Lemma lineage_inv_added e g :
  lineage_inv g → no_collision g e → ex_parent_id e ≠ Some "" →
  (∀ e', _experiments g !! ex_id e = Some e' → Experiment_content_hash e' = Experiment_content_hash e) →
  (∀ p, truthy_parent e = Some p → _would_cycle g (ex_id e) p = Some false) →
  lineage_inv (added e g).
Proof.
  intros [Hwf Hid Hpar Hch Hac] Hcol Hne Hhash Hcyc.
  assert (∀ e', _experiments g !! ex_id e = Some e' → e' = e) as Hsame by eauto.
  assert (∀ a b, parent_rel (added e g) a b ↔
            parent_rel g a b ∨ (a = ex_id e ∧ truthy_parent e = Some b)) as Hrel.
  { intros a b. unfold parent_rel. simpl. split.
    - intros (f & Hf & Hb). dict_cases; [|left; by eexists].
      destruct (truthy_parent f) as [q|] eqn:Hq.
      + right. split; [done|]. apply truthy_parent_some in Hq. congruence.
      + apply truthy_parent_none in Hq; congruence.
    - intros [(f & Hf & Hb)|[-> Hb]].
      + destruct (decide (ex_id e = a)) as [<-|Ha]; [|exists f; by rewrite dict_lookup_insert_ne].
        exists e. rewrite dict_lookup_insert_eq. split; [done|]. by rewrite <- (Hsame f Hf).
      + exists e. rewrite dict_lookup_insert_eq. split; [done|by apply truthy_parent_some]. }
  split.
  - by apply dict_wf_insert.
  - intros id f. simpl. intros Hf. dict_cases; [done|by apply Hid].
  - intros id f. simpl. intros Hf. dict_cases; [done|by eapply Hpar].
  - intros p c. rewrite Hrel, <- Hch. unfold added. simpl.
    destruct (truthy_parent e) as [q|]; [|naive_solver].
    rewrite dict_lookup_insert. case_decide; simpl; set_solver.
  - destruct (truthy_parent e) as [q|] eqn:Hq.
    + apply (acyclic_new_edge g _ (ex_id e) q); [done| |].
      * eapply would_cycle_false, Hcyc; done.
      * intros a b Hab. apply Hrel in Hab. naive_solver.
    + intros x Hx. apply (Hac x). eapply tc_mono, Hx. intros a b Hab.
      apply Hrel in Hab. naive_solver.
Qed.

(** The graphs that adds build; a record added twice is the same record, and no
    parent link is the empty string. *)
Inductive lineage_reachable : LineageGraph → Prop :=
  | lineage_empty : lineage_reachable empty_lineage
  | lineage_add g e : lineage_reachable g → no_collision g e → ex_parent_id e ≠ Some "" →
      lineage_reachable (add_experiment e g).1.

Lemma lineage_reachable_inv g : lineage_reachable g → lineage_inv g.
Proof.
  induction 1 as [|g e _ IH Hcol Hne]; [apply lineage_inv_empty|].
  destruct (add_experiment e g) as [g' r] eqn:H. destruct (add_run _ _ _ _ H) as [(_ & -> & Hh & Hc)|[_ ->]];
    simpl; [by apply lineage_inv_added|done].
Qed.

Lemma acyclic_fresh g (seen : gset string) c :
  acyclic g → (∀ v, v ∈ seen → tc (parent_rel g) v c) → c ∉ seen.
Proof. intros Hac Hs Hc. exact (Hac c (Hs c Hc)). Qed.

(** [l] is the list of records met by following parent links from [cursor]. *)
Fixpoint parent_chain (g : LineageGraph) (cursor : option string) (l : list Experiment) : Prop :=
  match l with
  | [] => match cursor with Some c => _experiments g !! c = None | None => True end
  | e :: l => match cursor with
              | Some c => _experiments g !! c = Some e ∧ parent_chain g (ex_parent_id e) l
              | None => False end
  end.

Lemma ancestors_from_chain g fuel seen cursor :
  lineage_inv g → (∀ v, v ∈ seen → v ∈ keys (_experiments g)) →
  (∀ v c, v ∈ seen → cursor = Some c → tc (parent_rel g) v c) →
  match cursor with Some _ => 2 | None => 1 end + length (keys (_experiments g)) ≤ fuel + size seen →
  ∃ l, ancestors_from fuel g seen cursor = Some (Ok l) ∧ parent_chain g cursor l.
Proof.
  intros Hi. revert seen cursor. induction fuel as [|fuel IH]; intros seen cursor Hseen Htc Hfuel.
  { pose proof (seen_bound g seen Hseen). destruct cursor; lia. }
  destruct cursor as [c|]; simpl; [|by exists []].
  assert (c ∉ seen) as Hc by (eapply acyclic_fresh; [apply Hi|by intros v Hv; apply Htc]).
  rewrite bool_decide_false by done.
  destruct (_experiments g !! c) as [e|] eqn:He; [|by exists []].
  destruct (IH ({[c]} ∪ seen) (ex_parent_id e)) as (l & Hl & Hchain).
  - intros v [->%elem_of_singleton|Hv]%elem_of_union; [apply elem_of_keys; by eexists|auto].
  - intros v b Hv Hb. assert (parent_rel g c b) as Hcb by by exists e.
    apply elem_of_union in Hv as [->%elem_of_singleton|Hv]; [by constructor|].
    eapply tc_r; [by apply Htc|done].
  - rewrite seen_grows by done. destruct (ex_parent_id e); lia.
  - exists (e :: l). rewrite Hl. split; [done|]. simpl. by rewrite He.
Qed.

Lemma parent_chain_tc g c l x :
  lineage_inv g → parent_chain g (Some c) l →
  x ∈ ex_id <$> l ↔ rtc (parent_rel g) c x ∧ is_Some (_experiments g !! x).
Proof.
  intros Hi. revert c. induction l as [|e l IH]; intros c; simpl.
  - intros Hn. split; [by intros ?%elem_of_nil|]. intros [Hr [f Hf]].
    inversion Hr as [|? b ? (f' & Hf' & _) _]; subst; congruence.
  - intros [He Hch]. rewrite elem_of_cons. pose proof (lin_id _ Hi _ _ He) as Hid. rewrite Hid.
    destruct (ex_parent_id e) as [b|] eqn:Hb.
    + rewrite (IH b Hch). assert (parent_rel g c b) as Hcb by by exists e. split.
      * intros [->|[Hr Hs]]; [split; [done|by eexists]|]. split; [by eapply rtc_l|done].
      * intros [Hr Hs]. inversion Hr as [|? b' ? Hcb' Hr']; subst; [by left|right].
        by rewrite (parent_rel_functional g _ _ _ Hcb Hcb').
    + assert (l = []) as -> by by destruct l. simpl. split.
      * intros [->|H%elem_of_nil]; [split; [done|by eexists]|done].
      * intros [Hr _]. inversion Hr as [|? b' ? (f & Hf & Hb') _]; subst; [by left|congruence].
Qed.

Lemma parent_chain_NoDup g cursor l :
  lineage_inv g → parent_chain g cursor l → NoDup (ex_id <$> l).
Proof.
  intros Hi. revert cursor. induction l as [|e l IH]; intros [c|]; simpl; try done;
    [constructor|constructor|]. intros [He Hch]. constructor; [|by eapply IH].
  rewrite (lin_id _ Hi _ _ He). intros Hin.
  destruct (ex_parent_id e) as [b|] eqn:Hb; [|by destruct l; [apply elem_of_nil in Hin|]].
  apply (parent_chain_tc g b l c Hi Hch) in Hin as [Hr _].
  apply (lin_acyclic _ Hi c). eapply tc_rtc_r; [|exact Hr]. constructor. by exists e.
Qed.

(** ** Every lineage the code can build

    [add] tests the parent identifier for truth before the cycle check, so a
    link to the empty identifier is stored unchecked; and it compares digests,
    so a record whose digest collides replaces the stored one.  Neither is
    excluded here. *)
Inductive lineage_built : LineageGraph → Prop :=
  | built_empty : lineage_built empty_lineage
  | built_add g e : lineage_built g → lineage_built (add_experiment e g).1.

(** A parent link to a non-empty identifier. *)
Definition named_parent (g : LineageGraph) (child parent : string) : Prop :=
  parent_rel g child parent ∧ parent ≠ "".

Lemma truthy_parent_named e p : ex_parent_id e = Some p → p ≠ "" → truthy_parent e = Some p.
Proof. unfold truthy_parent. intros -> Hp. by destruct p. Qed.

Lemma named_parent_added e g a b :
  named_parent (added e g) a b → named_parent g a b ∨ (a = ex_id e ∧ truthy_parent e = Some b).
Proof.
  intros [(f & Hf & Hb) Hne]. simpl in Hf. destruct (decide (ex_id e = a)) as [<-|Ha].
  - rewrite dict_lookup_insert_eq in Hf. injection Hf as <-. right. split; [done|].
    by apply truthy_parent_named.
  - rewrite dict_lookup_insert_ne in Hf by done. left. split; [by exists f|done].
Qed.

Lemma named_acyclic_added e g :
  (∀ id, ¬ tc (named_parent g) id id) →
  (∀ p, truthy_parent e = Some p → _would_cycle g (ex_id e) p = Some false) →
  ∀ id, ¬ tc (named_parent (added e g)) id id.
Proof.
  intros Hac Hcyc id Hid. destruct (truthy_parent e) as [p|] eqn:Hp.
  - assert (∀ a b, named_parent (added e g) a b → named_parent g a b ∨ (a = ex_id e ∧ b = p)) as HR.
    { intros a b [H|[-> H]]%named_parent_added; [by left|right]. split; congruence. }
    destruct (tc_new_edge _ _ _ _ _ _ HR Hid) as [H|[H1 H2]]; [exact (Hac id H)|].
    eapply would_cycle_false; [exact (Hcyc p eq_refl)|].
    assert (rtc (named_parent g) p (ex_id e)) as Hr.
    { eapply rtc_first_arrival; [done|]. by etrans. }
    clear -Hr. induction Hr as [|x y z [Hxy _] _ IH]; [done|]. by eapply rtc_l.
  - apply (Hac id). eapply tc_mono, Hid. intros a b [H|[_ H]]%named_parent_added; [done|congruence].
Qed.

(** C5: whatever experiments are added, in whatever order, digest collisions
    and empty parent identifiers included: the links to non-empty parents never
    close a cycle, so the only cycles a lineage can have run through a record
    whose identifier is the empty string, and a lineage without such a record
    is acyclic; and a refused add changes nothing. *)
Theorem lineage_acyclic g :
  lineage_built g →
  (∀ id, ¬ tc (named_parent g) id id) ∧
  (_experiments g !! "" = None → acyclic g) ∧
  ∀ e g' r, add_experiment e g = (g', r) → is_ok r = false → g' = g.
Proof.
  intros Hg. assert (∀ id, ¬ tc (named_parent g) id id) as Hnamed.
  { induction Hg as [|g e _ IH].
    - intros id Hid. apply (lin_acyclic _ lineage_inv_empty id). eapply tc_mono, Hid. by intros a b [? _].
    - destruct (add_experiment e g) as [g' r] eqn:H.
      destruct (add_run _ _ _ _ H) as [(_ & -> & _ & Hc)|[_ ->]]; [by apply named_acyclic_added|done]. }
  split_and!; [done| |].
  - intros Hempty id Hid. apply (Hnamed id).
    assert (∀ x y, tc (parent_rel g) x y → is_Some (_experiments g !! y) → tc (named_parent g) x y) as Htc.
    { assert (∀ y, is_Some (_experiments g !! y) → y ≠ "") as Hne by (intros y [? ?] ->; congruence).
      induction 1 as [x y Hxy|x y z Hxy Hyz IH]; intros Hz; [apply tc_once; split; auto|].
      eapply tc_l; [split; [done|]|by apply IH]. apply Hne. apply elem_of_keys. by eapply tc_present. }
    apply Htc; [done|]. apply elem_of_keys. by eapply tc_present.
  - intros e g' r H Hr. destruct (add_run _ _ _ _ H) as [(-> & _)|[_ ->]]; done.
Qed.

(** [ancestors] always returns, and what it returns are exactly the stored
    strict ancestors, each once, nearest first. *)
Theorem ancestors_complete g id :
  lineage_reachable g → is_Some (_experiments g !! id) →
  ∃ l, ancestors g id = Some (Ok l) ∧ NoDup (ex_id <$> l) ∧ parent_chain g (next_parent g id) l ∧
    ∀ x, x ∈ ex_id <$> l ↔ tc (parent_rel g) id x ∧ is_Some (_experiments g !! x).
Proof.
  intros Hi%lineage_reachable_inv [e He].
  destruct (ancestors_from_chain g (walk_fuel g) ∅ (ex_parent_id e)) as (l & Hl & Hch); [done|set_solver|set_solver| |].
  { unfold walk_fuel. rewrite size_empty. destruct (ex_parent_id e); lia. }
  exists l. unfold ancestors, next_parent. rewrite He. split_and!; [done|by eapply parent_chain_NoDup|done|].
  intros x. destruct (ex_parent_id e) as [b|] eqn:Hb.
  - rewrite (parent_chain_tc g b l x Hi Hch). assert (parent_rel g id b) as Hib by by exists e.
    split; intros [Hr Hs]; (split; [|done]).
    + eapply tc_rtc_r; [by constructor|done].
    + inversion Hr as [? ? Hb'|? ? ? Hb' Hr']; subst;
        rewrite (parent_rel_functional g _ _ _ Hib Hb'); [done|by apply tc_rtc].
  - assert (l = []) as -> by by destruct l. split; [by intros ?%elem_of_nil|].
    intros [Hr _]. inversion Hr as [? ? (f & ? & ?)|? ? ? (f & ? & ?) ?]; subst; congruence.
Qed.

(** The breadth-first walk below [root]: [F] is found, [Q] is queued. *)
Record bfs_inv (g : LineageGraph) (root : string) (F Q : list string) : Prop := {
  bfs_NoDup : NoDup (F ++ Q);
  bfs_below x : x ∈ F ++ Q → tc (parent_rel g) x root;
  bfs_closed x d : x = root ∨ x ∈ F → parent_rel g d x → d ∈ F ++ Q;
  bfs_from x : x ∈ F ++ Q → ∃ p, parent_rel g x p ∧ (p = root ∨ p ∈ F);
}.

Lemma elem_of_sorted_children g p c : lineage_inv g → c ∈ sorted_children g p ↔ parent_rel g c p.
Proof. intros Hi. unfold sorted_children. rewrite elem_of_sorted_str, elem_of_elements. apply Hi. Qed.
Lemma NoDup_sorted_children g p : NoDup (sorted_children g p).
Proof. unfold sorted_children. rewrite sorted_str_perm. apply NoDup_elements. Qed.

Lemma bfs_step g root F Q c :
  lineage_inv g → bfs_inv g root F (c :: Q) → bfs_inv g root (F ++ [c]) (Q ++ sorted_children g c).
Proof.
  intros Hi [Hnd Hbelow Hcl Hfrom].
  assert (∀ d, parent_rel g d c → d ∉ F ++ c :: Q) as Hnew.
  { intros d Hd Hin. destruct (Hfrom d Hin) as (p & Hp & Hpr).
    rewrite <- (parent_rel_functional g _ _ _ Hd Hp) in Hpr.
    assert (tc (parent_rel g) c root) as Hc by (apply Hbelow; set_solver).
    destruct Hpr as [->|HF]; [by eapply (lin_acyclic _ Hi)|].
    apply NoDup_app in Hnd as (_ & Hdis & _). apply (Hdis c HF). by left. }
  assert (∀ x, x ∈ (F ++ [c]) ++ Q ++ sorted_children g c ↔ x ∈ F ++ c :: Q ∨ parent_rel g x c) as Hel.
  { intros x. rewrite !elem_of_app, elem_of_sorted_children, !elem_of_cons by done.
    rewrite elem_of_nil. tauto. }
  assert (tc (parent_rel g) c root) as Hcr by (apply Hbelow; set_solver).
  split.
  - rewrite app_assoc, <- (app_assoc F). simpl. apply NoDup_app.
    split_and!; [done| |apply NoDup_sorted_children].
    intros x Hx Hx'. apply elem_of_sorted_children in Hx'; [|done]. by eapply Hnew.
  - intros x [Hx|Hx]%Hel; [by apply Hbelow|]. by eapply tc_l.
  - intros x d Hx Hd. apply Hel. rewrite elem_of_app, list_elem_of_singleton in Hx.
    destruct Hx as [Hx|[Hx|Hx]]; [left; by eapply Hcl; [by left|]|left; by eapply Hcl; [by right|]|].
    right. by rewrite <- Hx.
  - intros x [Hx|Hx]%Hel.
    + destruct (Hfrom x Hx) as (p & Hp & Hpr). exists p. set_solver.
    + exists c. set_solver.
Qed.

Lemma descendants_from_ok g root fuel F Q :
  lineage_inv g → bfs_inv g root F Q → 1 + length (keys (_experiments g)) ≤ fuel + length F →
  ∃ l, descendants_from fuel g Q = Some (Ok l) ∧ NoDup (F ++ (ex_id <$> l)) ∧
    ∀ d, d ∈ F ++ (ex_id <$> l) ↔ tc (parent_rel g) d root.
Proof.
  intros Hi. revert F Q. induction fuel as [|fuel IH]; intros F Q Hb Hfuel.
  - pose proof (NoDup_bound g F) as Hle. destruct Hb as [Hnd Hbelow _ _].
    apply NoDup_app in Hnd as (HF & _ & _). specialize (Hle HF).
    assert (length F ≤ length (keys (_experiments g))); [|lia].
    apply Hle. intros v Hv. eapply tc_present, Hbelow. set_solver.
  - destruct Q as [|c Q]; simpl.
    + exists []. rewrite fmap_nil, app_nil_r. destruct Hb as [Hnd Hbelow Hcl _].
      rewrite app_nil_r in Hnd, Hbelow. split_and!; [done|done|]. intros d. split; [apply Hbelow|].
      assert (∀ x d, x = root ∨ x ∈ F → parent_rel g d x → d ∈ F) as Hcl'
        by (intros x d' Hx Hd; rewrite <- (app_nil_r F); by eapply Hcl).
      clear -Hcl'. induction 1; eauto.
    + assert (tc (parent_rel g) c root) as Hc by (apply Hb; set_solver).
      apply tc_present, elem_of_keys in Hc as [e He]. rewrite He.
      destruct (IH (F ++ [c]) (Q ++ sorted_children g c)) as (l & Hl & Hnd & Hin).
      * by apply bfs_step.
      * rewrite length_app. simpl. lia.
      * exists (e :: l). rewrite Hl, fmap_cons, (lin_id _ Hi _ _ He).
        rewrite <- app_assoc in Hnd, Hin. done.
Qed.

(** [descendants] always returns, never meets a missing record, and what it
    returns are exactly the strict descendants, each once. *)
Theorem descendants_complete g id :
  lineage_reachable g →
  ∃ l, descendants g id = Some (Ok l) ∧ NoDup (ex_id <$> l) ∧
    ∀ d, d ∈ ex_id <$> l ↔ tc (parent_rel g) d id.
Proof.
  intros Hi%lineage_reachable_inv.
  destruct (descendants_from_ok g id (walk_fuel g) [] (sorted_children g id)) as (l & Hl & Hnd & Hin).
  - done.
  - split; simpl.
    + apply NoDup_sorted_children.
    + intros x Hx%elem_of_sorted_children; [by constructor|done].
    + intros x d [->|Hx] Hd; [by apply elem_of_sorted_children|by apply elem_of_nil in Hx].
    + intros x Hx%elem_of_sorted_children; [|done]. exists id. split; [done|by left].
  - unfold walk_fuel. simpl. lia.
  - exists l. split_and!; done.
Qed.
End facts.
