(* ===== verification/ArenaMetrics.v ===== *)
(** * Bounded metric labels ([arena/status.py], [BoundedArenaMetrics])

    Counters keyed by label; every update checks its label against a fixed set. *)
From S2P Require Import Prelude PyDict PyFloat Models.

Record BoundedArenaMetrics := {
  _transitions : dict string Z;
  _verifications : dict string Z;
  _admissions : dict string Z;
  _gateway_errors : Z;
  _signals : dict string float;
}.
Definition new_metrics : BoundedArenaMetrics := {|
  _transitions := ∅; _verifications := ∅; _admissions := ∅; _gateway_errors := 0; _signals := ∅ |}.

Definition all_states : list ExperimentState :=
  [PROPOSED; ADMITTED; RUNNING; PROVISIONAL; VERIFYING; VALID; INVALID; INCONCLUSIVE; FAILED; CANCELLED].
Definition _STATES : list string := ExperimentState_value <$> all_states.
Definition _VERDICTS : list string := ["unverified"; "verifying"; "valid"; "invalid"; "inconclusive"].
Definition _OUTCOMES : list string := ["admitted"; "capacity"; "duplicate"; "invalid"; "expired"].
Definition _SIGNALS : list string :=
  ["attempts"; "lease_expiry"; "tokens"; "cost"; "joules"; "oom"; "cancellation"; "gateway_errors";
   "frontier_movement"; "promotions"; "rollbacks"; "delayed_incidents"].

Definition _bounded (value : string) (allowed : list string) (label : string) :
    prog BoundedArenaMetrics unit :=
  raise_if (negb (bool_decide (value ∈ allowed))) ValueError ("unsupported " +:+ label +:+ " label").

(** [counter[k] += 1] and [counter[k] += value]: a missing key counts as zero. *)
Definition count (d : dict string Z) (k : string) : dict string Z :=
  <[k := default 0%Z (d !! k) + 1]>%Z d.

Definition transition (value : string) : prog BoundedArenaMetrics unit :=
  _bounded value _STATES "state" ;;
  modify (λ m, {| _transitions := count (_transitions m) value; _verifications := _verifications m;
    _admissions := _admissions m; _gateway_errors := _gateway_errors m; _signals := _signals m |}).
Definition verification (verdict : string) : prog BoundedArenaMetrics unit :=
  _bounded verdict _VERDICTS "verdict" ;;
  modify (λ m, {| _transitions := _transitions m; _verifications := count (_verifications m) verdict;
    _admissions := _admissions m; _gateway_errors := _gateway_errors m; _signals := _signals m |}).
Definition admission (outcome : string) : prog BoundedArenaMetrics unit :=
  _bounded outcome _OUTCOMES "outcome" ;;
  modify (λ m, {| _transitions := _transitions m; _verifications := _verifications m;
    _admissions := count (_admissions m) outcome; _gateway_errors := _gateway_errors m;
    _signals := _signals m |}).
Definition gateway_error : prog BoundedArenaMetrics unit :=
  modify (λ m, {| _transitions := _transitions m; _verifications := _verifications m;
    _admissions := _admissions m; _gateway_errors := (_gateway_errors m + 1)%Z; _signals := _signals m |}).
(** The modelled floats are finite, so only the sign is checked. *)
Definition add_signal (signal : string) (value : float) : prog BoundedArenaMetrics unit :=
  raise_if (value <? 0)%Z ValueError "metric counter increments must be finite and non-negative" ;;
  _bounded signal _SIGNALS "signal" ;;
  modify (λ m, {| _transitions := _transitions m; _verifications := _verifications m;
    _admissions := _admissions m; _gateway_errors := _gateway_errors m;
    _signals := <[signal := fadd (default 0%Z (_signals m !! signal)) value]> (_signals m) |}).

(** ** Labels stay in their sets and counters only grow *)
Definition labels_in {V} (allowed : list string) (d : dict string V) : Prop :=
  ∀ k, is_Some (d !! k) → k ∈ allowed.
Definition grows (d d' : dict string Z) : Prop :=
  ∀ k, (default 0 (d !! k) ≤ default 0 (d' !! k))%Z.
Record metrics_inv (m : BoundedArenaMetrics) : Prop := {
  met_transitions : labels_in _STATES (_transitions m);
  met_verifications : labels_in _VERDICTS (_verifications m);
  met_admissions : labels_in _OUTCOMES (_admissions m);
  met_signals : labels_in _SIGNALS (_signals m);
}.

Lemma labels_in_insert {V} allowed (d : dict string V) k v :
  labels_in allowed d → k ∈ allowed → labels_in allowed (<[k:=v]> d).
Proof. intros Hd Hk j Hj. dict_cases; [done|by apply Hd]. Qed.
Lemma grows_count d k : grows d (count d k).
Proof. intros j. unfold count. dict_cases; simpl; lia. Qed.

(** Any of the update calls. *)
Inductive metrics_call : prog BoundedArenaMetrics unit → Prop :=
  | met_transition v : metrics_call (transition v)
  | met_verification v : metrics_call (verification v)
  | met_admission v : metrics_call (admission v)
  | met_gateway_error : metrics_call gateway_error
  | met_add s v : metrics_call (add_signal s v).

(** Whatever labels callers pass, the registry only ever holds labels of its
    fixed sets (so run identities cannot enter), counters never decrease, and a
    refused label changes nothing. *)
Theorem metrics_labels_bounded call m m' r :
  metrics_call call → metrics_inv m → call m = (m', r) →
  metrics_inv m' ∧ grows (_transitions m) (_transitions m') ∧
  grows (_verifications m) (_verifications m') ∧ grows (_admissions m) (_admissions m') ∧
  (is_ok r = false → m' = m).
Proof.
  intros Hcall [H1 H2 H3 H4] Hrun.
  assert (∀ d, grows d d) as Hrefl by (intros d k; lia).
  destruct Hcall as [v|v|v| |s v]; revert Hrun;
    unfold transition, verification, admission, gateway_error, add_signal, _bounded; prog_simpl;
    try destruct (v <? 0)%Z; try case_bool_decide as Hin; cbn; intros [= <- <-]; cbn;
    split_and!; try done; try apply grows_count; split; cbn; try done; by apply labels_in_insert.
Qed.
