(* ===== verification/Controller.v ===== *)
(** * The experiment lifecycle controller ([arena/controller.py])

    The controller appends lifecycle events to the store around leases of the
    scheduler.  Its state holds the store, the scheduler and the metrics it was
    given; wall-clock readings are [wall 0], [wall 1], ... *)
From stdpp Require Import pretty.
From S2P Require Import Prelude PyDict PyFloat Canonical LeaseScheduler Models Store ArenaMetrics.
From Stdlib Require Import Ascii.

(** The controller's own table, [_TRANSITIONS.get(current, set())]. *)
Definition _TRANSITIONS (current : option ExperimentState) : list ExperimentState :=
  match current with
  | None => [PROPOSED]
  | Some PROPOSED => [ADMITTED; CANCELLED]
  | Some ADMITTED => [RUNNING; CANCELLED; FAILED]
  | Some RUNNING => [PROVISIONAL; CANCELLED; FAILED]
  | Some PROVISIONAL => [VERIFYING]
  | Some VERIFYING => [VALID; INVALID; INCONCLUSIVE]
  | Some (VALID | INVALID | INCONCLUSIVE | FAILED | CANCELLED) => []
  end.

Record ArenaController := {
  store : fs;
  sched : LeaseScheduler;
  writer_id : string;
  actor : string;
  node : string;
  session_id : string;
  metrics : option BoundedArenaMetrics;
  _lease_by_attempt : dict (string * Z) string;
  now_ticks : nat;
}.
Definition set_store x (c : ArenaController) : ArenaController := {|
  store := x; sched := sched c; writer_id := writer_id c; actor := actor c; node := node c;
  session_id := session_id c; metrics := metrics c; _lease_by_attempt := _lease_by_attempt c;
  now_ticks := now_ticks c |}.
Definition set_sched x (c : ArenaController) : ArenaController := {|
  store := store c; sched := x; writer_id := writer_id c; actor := actor c; node := node c;
  session_id := session_id c; metrics := metrics c; _lease_by_attempt := _lease_by_attempt c;
  now_ticks := now_ticks c |}.
Definition set_metrics x (c : ArenaController) : ArenaController := {|
  store := store c; sched := sched c; writer_id := writer_id c; actor := actor c; node := node c;
  session_id := session_id c; metrics := x; _lease_by_attempt := _lease_by_attempt c;
  now_ticks := now_ticks c |}.
Definition set_attempts x (c : ArenaController) : ArenaController := {|
  store := store c; sched := sched c; writer_id := writer_id c; actor := actor c; node := node c;
  session_id := session_id c; metrics := metrics c; _lease_by_attempt := x;
  now_ticks := now_ticks c |}.
Definition tick_now (c : ArenaController) : ArenaController := {|
  store := store c; sched := sched c; writer_id := writer_id c; actor := actor c; node := node c;
  session_id := session_id c; metrics := metrics c; _lease_by_attempt := _lease_by_attempt c;
  now_ticks := S (now_ticks c) |}.

(** [int(s)]: surrounding white space, a sign, and decimal digits that single
    underscores may separate. *)
Fixpoint parse_digits (acc : Z) (after_digit : bool) (s : string) : option Z :=
  match s with
  | EmptyString => if after_digit then Some acc else None
  | String c s =>
      let n := Z.of_N (N_of_ascii c) in
      if ((48 <=? n) && (n <=? 57))%Z then parse_digits (10 * acc + (n - 48)) true s
      else if (n =? 95)%Z && after_digit then parse_digits acc false s
      else None
  end.
Definition py_int (s : string) : result Z :=
  match (match strip s with
         | String "-" s => Z.opp <$> parse_digits 0 false s
         | String "+" s => parse_digits 0 false s
         | s => parse_digits 0 false s
         end) with
  | Some z => Ok z
  | None => Err (Exn ValueError "invalid literal for int() with base 10")
  end.

Section controller.
Context {PF : Platform} {EC : EventCodec} {EN : Entropy}.
Context (clock : nat → float) (wall : nat → datetime).

Definition on_store {A} (m : prog fs A) : prog ArenaController A :=
  λ c, let '(s', r) := m (store c) in (set_store s' c, r).
Definition on_sched {A} (m : prog LeaseScheduler A) : prog ArenaController A :=
  λ c, let '(s', r) := m (sched c) in (set_sched s' c, r).
(** [if self.metrics is not None: ...] *)
Definition on_metrics (m : prog BoundedArenaMetrics unit) : prog ArenaController unit :=
  λ c, match metrics c with
       | None => (c, Ok tt)
       | Some x => let '(x', r) := m x in (set_metrics (Some x') c, r)
       end.

Definition select (events : list ExperimentEvent) (experiment_id : string) (attempt : Z) :
    list ExperimentEvent :=
  List.filter (λ e, bool_decide (ev_experiment_id e = experiment_id)
                    && bool_decide (ev_attempt e = attempt)) events.
Definition state_of (events : list ExperimentEvent) (experiment_id : string) (attempt : Z) :
    option ExperimentState :=
  ev_to_state <$> last (select events experiment_id attempt).
Definition state (experiment_id : string) (attempt : Z) :
    prog ArenaController (option ExperimentState) :=
  c ← gets (λ c, c);
  events ← lift (read_all_events (store c));
  mret (state_of events experiment_id attempt).

Definition _append (experiment_id : string) (attempt : Z) (to_state : ExperimentState)
    (payload : list (string * json)) : prog ArenaController ExperimentEvent :=
  current ← state experiment_id attempt;
  raise_if (negb (bool_decide (to_state ∈ _TRANSITIONS current))) InvalidTransitionError
    "cannot transition" ;;
  c ← gets (λ c, c);
  segment ← lift (read_segment (writer_id c) (store c));
  modify tick_now ;;
  on_sched (modify with_new_obj) ;;
  event ← lift (validate_ExperimentEvent {|
    ev_event_id := uuid4_hex (next_obj (sched c)); ev_writer_id := writer_id c;
    ev_sequence := Z.of_nat (length segment) + 1; ev_experiment_id := experiment_id;
    ev_attempt := attempt; ev_from_state := current; ev_to_state := to_state;
    ev_timestamp := wall (now_ticks c);
    ev_provenance := {|
      pv_actor := actor c; pv_node := node c; pv_session_id := session_id c;
      pv_action := "arena.experiment." +:+ ExperimentState_value to_state;
      pv_target := "experiment:" +:+ experiment_id +:+ ":attempt:" +:+ pretty attempt;
      pv_observed_prior_state := ExperimentState_value <$> current; pv_signature := None |};
    ev_payload := payload; ev_prior_event_hash := last_hash segment; ev_event_hash := None |});
  appended ← on_store (append_event event);
  on_metrics (transition (ExperimentState_value to_state)) ;;
  on_metrics (add_signal "attempts" f_unit) ;;
  mret appended.

Definition propose (experiment_id : string) (attempt : Z) payload : prog ArenaController ExperimentEvent :=
  _append experiment_id attempt PROPOSED payload.

Definition opt_in (s : option ExperimentState) (xs : list ExperimentState) : bool :=
  match s with Some x => bool_decide (x ∈ xs) | None => false end.

(** One step here.  The code holds its transition lock only inside [state] and
    [_append], so calls of other threads can come between the observation of the
    state, the scheduler's answer and the append; the append observes the state
    again under the lock. *)
Definition admit_attempt (request : AttemptRequest) (attempt_number : Z) : prog ArenaController Admission :=
  raise_if (negb (bool_decide (ar_attempt_id request = pretty attempt_number))) ValueError
    "AttemptRequest.attempt_id must equal attempt_number" ;;
  current ← state (ar_experiment_id request) attempt_number;
  raise_if (negb (opt_in current [PROPOSED; ADMITTED; RUNNING])) InvalidTransitionError
    "attempt must be proposed before admission" ;;
  adm ← on_sched (admit_ clock request);
  if opt_in current [ADMITTED; RUNNING] && negb (admitted adm && adm_duplicate adm) then
    match adm_lease adm with
    | Some l => on_sched (release (lease_id l)) ;; mret tt
    | None => mret tt
    end ;;
    on_metrics (admission "duplicate") ;;
    mret (adm_refused DUPLICATE [])
  else
    on_metrics (admission (if admitted adm then "admitted" else
      match adm_reason adm with Some r => AdmissionReason_value r | None => "invalid" end)) ;;
    match adm_lease adm with
    | Some l =>
        if admitted adm && negb (adm_duplicate adm) && opt_in current [PROPOSED] then
          _append (ar_experiment_id request) attempt_number ADMITTED
            [("lease_id", JStr (lease_id l)); ("expires_at", JFloat (expires_at l))] ;;
          modify (λ c, set_attempts
            (<[(ar_experiment_id request, attempt_number) := lease_id l]> (_lease_by_attempt c)) c)
        else if admitted adm && adm_duplicate adm then
          modify (λ c, set_attempts
            (<[(ar_experiment_id request, attempt_number) := lease_id l]> (_lease_by_attempt c)) c)
        else mret tt
    | None => mret tt
    end ;;
    mret adm.

Definition running (experiment_id : string) (attempt : Z) : prog ArenaController ExperimentEvent :=
  _append experiment_id attempt RUNNING [].

(** [pop(key, None)], then release a non-empty lease identifier. *)
Definition _release (experiment_id : string) (attempt : Z) : prog ArenaController unit :=
  c ← gets (λ c, c);
  modify (λ c, set_attempts (delete (experiment_id, attempt) (_lease_by_attempt c)) c) ;;
  match _lease_by_attempt c !! (experiment_id, attempt) with
  | Some id => if is_empty_str id then mret tt else on_sched (release id) ;; mret tt
  | None => mret tt
  end.

Definition finish_run (experiment_id : string) (attempt : Z) (successful : bool)
    (payload : list (string * json)) : prog ArenaController ExperimentEvent :=
  event ← _append experiment_id attempt (if successful then PROVISIONAL else FAILED) payload;
  (if negb successful
      && match find_first (λ m, bool_decide (m.1 = "reason")) payload with
         | Some (_, JStr s) => bool_decide (s = "oom") | _ => false end
   then on_metrics (add_signal "oom" f_unit) else mret tt) ;;
  _release experiment_id attempt ;;
  mret event.

Definition heartbeat_attempt (experiment_id : string) (attempt : Z) : prog ArenaController bool :=
  c ← gets (λ c, c);
  match _lease_by_attempt c !! (experiment_id, attempt) with
  | Some id =>
      if is_empty_str id then mret false
      else l ← on_sched (heartbeat clock id); mret (bool_decide (is_Some l))
  | None => mret false
  end.

(** [stop] is the supervisor's hook: it runs first and may raise. *)
Definition cancel_attempt (experiment_id : string) (attempt : Z) (stop : option (result unit))
    (payload : list (string * json)) : prog ArenaController ExperimentEvent :=
  lift (default (Ok tt) stop) ;;
  on_metrics (add_signal "cancellation" f_unit) ;;
  event ← _append experiment_id attempt CANCELLED payload;
  _release experiment_id attempt ;;
  mret event.

Fixpoint fail_orphans (leases : list Lease) : prog ArenaController (list ExperimentEvent) :=
  match leases with
  | [] => mret []
  | l :: leases =>
      attempt ← lift (py_int (ar_attempt_id (lease_request l)));
      let e := ar_experiment_id (lease_request l) in
      modify (λ c, set_attempts (delete (e, attempt) (_lease_by_attempt c)) c) ;;
      current ← state e attempt;
      if opt_in current [ADMITTED; RUNNING] then
        on_metrics (admission "expired") ;;
        on_metrics (add_signal "lease_expiry" f_unit) ;;
        event ← _append e attempt FAILED
          [("reason", JStr "lease_expired"); ("lease_id", JStr (lease_id l))];
        rest ← fail_orphans leases;
        mret (event :: rest)
      else fail_orphans leases
  end.
Definition reclaim_orphans : prog ArenaController (list ExperimentEvent) :=
  leases ← on_sched (reclaim_expired clock);
  fail_orphans leases.
End controller.
