(* ===== verification/ControllerFacts.v ===== *)
(** * Correctness of the lifecycle controller

    How an append shows in the merged view of all segments, and what follows for
    the state machine of an attempt. *)
From S2P Require Import Prelude PyDict PyFloat Canonical LeaseScheduler LeaseSchedulerFacts Models Store ArenaMetrics Controller.

(** ** The merged view of a store *)
Section view.
Context {PF : Platform} {EC : EventCodec}.

Record store_ok (s : fs) : Prop := {
  ok_segments w : ∃ es, log_state s w es;
  ok_names : dict_wf (fs_events s);
}.
Definition seg_events (s : fs) (w : string) : list ExperimentEvent :=
  match _read_path (fs_events s !! w) with Ok es => es | Err _ => [] end.
Definition segment_files (s : fs) : list string :=
  sort_by (λ w, w +:+ ".jsonl") (keys (fs_events s)).
Definition all_events (s : fs) : list ExperimentEvent := concat (map (seg_events s) (segment_files s)).
Definition aware_events (s : fs) : Prop := ∀ e, e ∈ all_events s → is_aware (ev_timestamp e) = true.

Lemma read_path_log s w es : log_state s w es → _read_path (fs_events s !! w) = Ok es.
Proof.
  intros H%read_log. destruct (fs_events s !! w); [done|]. simpl in *. by rewrite <- H.
Qed.
Lemma seg_events_log s w es : log_state s w es → seg_events s w = es.
Proof. intros H%read_path_log. unfold seg_events. by rewrite H. Qed.
Lemma seg_events_ok s w : store_ok s → log_state s w (seg_events s w).
Proof. intros [Hs _]. destruct (Hs w) as [es He]. by rewrite (seg_events_log _ _ _ He). Qed.

Lemma read_all_events_run s :
  store_ok s → aware_events s → read_all_events s = Ok (sort_events (all_events s)).
Proof.
  intros Hok Haw. unfold read_all_events. fold (segment_files s).
  assert (map_result (λ w, _read_path (fs_events s !! w)) (segment_files s)
          = Ok (map (seg_events s) (segment_files s))) as ->.
  { apply map_result_ok. induction (segment_files s); simpl; constructor; [|done].
    by apply read_path_log, seg_events_ok. }
  prog_simpl. fold (all_events s).
  assert (existsb (λ e, negb (is_aware (ev_timestamp e))) (all_events s) = false) as ->.
  { apply existsb_elem_of_false. intros e He. by rewrite Haw. }
  by rewrite andb_false_r.
Qed.

Lemma prepare_append_files e s s' path raw sl :
  prepare_append e s = (s', Ok (path, raw, sl)) →
  ∃ raw0, fs_events s' = <[path := raw]> (<[path := raw0]> (fs_events s)).
Proof.
  unfold prepare_append, _segment. prog_simpl. destruct (safe_writer (ev_writer_id e)); simpl; [|done].
  intros H. destruct (read_lines _ _ _) as [es|]; simpl in H; [|done].
  destruct (_ && _) in H; simpl in H; [|done]. destruct (sealed e); simplify_eq/=. by eexists.
Qed.

Lemma keys_insert {V} (d : dict string V) k v :
  keys (<[k:=v]> d) = if has_key k d then keys d else keys d ++ [k].
Proof.
  destruct (has_key k d) eqn:H; [by apply keys_insert_present, has_key_true|].
  by apply keys_insert_fresh, has_key_false.
Qed.
Lemma keys_insert_again {V} (d : dict string V) k v w : keys (<[k:=v]> (<[k:=w]> d)) = keys (<[k:=w]> d).
Proof. apply keys_insert_present. by rewrite dict_lookup_insert_eq. Qed.

Lemma append_event_files e s s' r :
  append_event e s = (s', Ok r) →
  ∃ v, keys (fs_events s') = keys (<[ev_writer_id e := v]> (fs_events s)) ∧
  (dict_wf (fs_events s) → dict_wf (fs_events s')).
Proof.
  intros H. destruct (append_event_inv _ _ _ _ H) as (s1 & path & raw & Hp & ->).
  destruct (prepare_append_files _ _ _ _ _ _ Hp) as [raw0 Hf]. simpl. rewrite Hf. exists raw0.
  assert (path = ev_writer_id e) as ->.
  { unfold prepare_append, _segment in Hp. prog_simpl_in Hp.
    destruct (safe_writer (ev_writer_id e)); simpl in Hp; [|done].
    destruct (read_lines _ _ _) as [es|]; simpl in Hp; [|done].
    destruct (_ && _) in Hp; simpl in Hp; [|done]. by destruct (sealed e); simplify_eq/=. }
  split; [by rewrite !keys_insert_again|auto with dict].
Qed.

(** The keys before and after, around the file that was appended to. *)
Lemma segment_files_insert (d : dict string string) w v :
  dict_wf d → ∃ l1 l2, w ∉ l1 ∧ w ∉ l2 ∧
    sort_by (λ w, w +:+ ".jsonl") (keys (<[w:=v]> d)) = l1 ++ w :: l2 ∧
    sort_by (λ w, w +:+ ".jsonl") (keys d) = l1 ++ (if has_key w d then [w] else []) ++ l2.
Proof.
  intros Hwf. assert (NoDup (keys (<[w:=v]> d))) as Hnd by by apply dict_wf_insert.
  assert (Inj (=) (=) (λ w, w +:+ ".jsonl")) as Hinj by (intros x y; apply str_app_inj_r).
  rewrite keys_insert in *. destruct (has_key w d) eqn:Hk.
  - destruct (list_elem_of_split (sort_by (λ w, w +:+ ".jsonl") (keys d)) w) as (l1 & l2 & Hl).
    { apply elem_of_sort_by, elem_of_keys, has_key_true, Hk. }
    exists l1, l2. rewrite Hl. rewrite <- (sort_by_perm (λ w, w +:+ ".jsonl")), Hl in Hnd.
    apply NoDup_app in Hnd as (_ & H1 & [H2 _]%NoDup_cons). split_and!; [|done..].
    intros Hw. apply (H1 w Hw). by left.
  - destruct (sort_by_snoc (λ w, w +:+ ".jsonl") (keys d) w) as (l1 & l2 & H1 & H2).
    exists l1, l2. rewrite H1, H2. rewrite <- (sort_by_perm (λ w, w +:+ ".jsonl")), H2 in Hnd.
    apply NoDup_app in Hnd as (_ & Hd & [Hn _]%NoDup_cons). split_and!; [|done..].
    intros Hw. apply (Hd w Hw). by left.
Qed.

Lemma all_events_append e s s' r :
  store_ok s → validate_ExperimentEvent e = Ok e → append_event e s = (s', Ok r) →
  store_ok s' ∧ ∃ xs ys, all_events s = xs ++ ys ∧ all_events s' = xs ++ r :: ys.
Proof.
  intros Hok Hv H. set (w := ev_writer_id e).
  destruct (log_state_append _ _ _ _ _ Hv (seg_events_ok s w Hok) H) as (_ & Hlog & Hframe).
  fold w in Hlog.
  destruct (append_event_files _ _ _ _ H) as (v & Hkeys & Hwf).
  assert (∀ x, x ≠ w → seg_events s' x = seg_events s x) as Hother.
  { intros x Hx. unfold seg_events. by rewrite Hframe. }
  split.
  - split; [|apply Hwf, Hok]. intros x. destruct (decide (x = w)) as [->|Hx]; [by eexists|].
    exists (seg_events s x). unfold log_state. rewrite Hframe by done. by apply seg_events_ok.
  - destruct (segment_files_insert (fs_events s) w v (ok_names _ Hok)) as (l1 & l2 & Hn1 & Hn2 & H1 & H2).
    assert (∀ l, w ∉ l → map (seg_events s') l = map (seg_events s) l) as Hmap.
    { intros l Hl. apply map_ext_in. intros x Hx%list_elem_of_In. apply Hother. by intros ->. }
    assert (concat (map (seg_events s) (if has_key w (fs_events s) then [w] else [])) = seg_events s w) as Hw.
    { destruct (has_key w (fs_events s)) eqn:Hk; simpl; [by rewrite app_nil_r|].
      apply has_key_false in Hk. unfold seg_events. by rewrite Hk. }
    exists (concat (map (seg_events s) l1) ++ seg_events s w), (concat (map (seg_events s) l2)).
    unfold all_events, segment_files. rewrite Hkeys. fold w. rewrite H1, H2.
    rewrite !map_app, !concat_app, Hw, <- app_assoc. split; [done|].
    simpl. rewrite !Hmap by done. rewrite (seg_events_log _ _ _ Hlog). by rewrite <- !app_assoc.
Qed.

(** *** Sorting with a newest event *)
Lemma insert_event_last e l : (∀ z, z ∈ l → event_le e z = false) → insert_event e l = l ++ [e].
Proof.
  induction l as [|z l IH]; simpl; intros H; [done|].
  rewrite (H z) by (by left). rewrite IH; [done|]. intros y Hy. apply H. by right.
Qed.
Lemma insert_event_before x l e : event_le x e = true → insert_event x (l ++ [e]) = insert_event x l ++ [e].
Proof. intros H. induction l as [|z l IH]; simpl; [by rewrite H|]. case_match; simpl; [done|by rewrite IH]. Qed.
Lemma elem_of_insert_event x e l : x ∈ insert_event e l ↔ x = e ∨ x ∈ l.
Proof.
  induction l as [|z l IH]; simpl; [by rewrite list_elem_of_singleton, elem_of_nil; intuition|].
  case_match; rewrite !elem_of_cons, ?IH; tauto.
Qed.
Lemma elem_of_sort_events x l : x ∈ sort_events l ↔ x ∈ l.
Proof.
  induction l as [|z l IH]; simpl; [done|]. rewrite elem_of_insert_event, elem_of_cons. unfold sort_events in IH.
  by rewrite IH.
Qed.

(** Strictly later than every event of a list. *)
Definition later_than (t : Z) (es : list ExperimentEvent) : Prop := ∀ z, z ∈ es → (dt_us (ev_timestamp z) < t)%Z.

Lemma sort_events_newest e xs ys :
  later_than (dt_us (ev_timestamp e)) (xs ++ ys) →
  sort_events (xs ++ e :: ys) = sort_events (xs ++ ys) ++ [e].
Proof.
  intros Hl.
  assert (∀ z, z ∈ xs ++ ys → event_le e z = false ∧ event_le z e = true) as Hle.
  { intros z Hz. specialize (Hl z Hz). unfold event_le. rewrite (proj2 (Z.compare_gt_iff _ _)) by lia.
    by rewrite (proj2 (Z.compare_lt_iff _ _)) by lia. }
  clear Hl. induction xs as [|x xs IH]; simpl in *.
  - apply insert_event_last. intros z Hz. apply Hle. by apply elem_of_sort_events.
  - rewrite IH by (intros z Hz; apply Hle; by right). apply insert_event_before, Hle. by left.
Qed.
End view.

(** ** The state machine of an attempt *)
Section controller_facts.
Context {PF : Platform} {EC : EventCodec} {EN : Entropy} (clock : nat → float) (wall : nat → datetime).

Lemma transitions_allowed s : _TRANSITIONS s = allowed s.
Proof. by destruct s as [[]|]. Qed.

Definition events_of (c : ArenaController) (experiment_id : string) (attempt : Z) : list ExperimentEvent :=
  select (sort_events (all_events (store c))) experiment_id attempt.

Lemma state_run c e t :
  store_ok (store c) → aware_events (store c) →
  state e t c = (c, Ok (ev_to_state <$> last (events_of c e t))).
Proof. intros Hok Haw. unfold state. prog_simpl. by rewrite read_all_events_run. Qed.

Lemma metrics_transition_ok st m : is_ok (transition (ExperimentState_value st) m).2 = true.
Proof. by destruct st. Qed.
Lemma on_metrics_ok m c :
  (∀ x, is_ok (m x).2 = true) → ∃ x, on_metrics m c = (set_metrics x c, Ok tt).
Proof.
  intros Hm. unfold on_metrics. destruct (metrics c) as [x|] eqn:Hx.
  - specialize (Hm x). destruct (m x) as [x' [[]|]]; [|done]. by exists (Some x').
  - exists None. by destruct c; simpl in *; subst.
Qed.

(** A successful append, in full. *)
Lemma append_accepts c e t st payload (cur := ev_to_state <$> last (events_of c e t)) :
  store_ok (store c) → aware_events (store c) → safe_writer (writer_id c) = true → (0 < t)%Z →
  st ∈ allowed cur →
  ∃ c' ev xs ys, _append wall e t st payload c = (c', Ok ev) ∧
    ev_experiment_id ev = e ∧ ev_attempt ev = t ∧ ev_from_state ev = cur ∧ ev_to_state ev = st ∧
    ev_timestamp ev = wall (now_ticks c) ∧
    store_ok (store c') ∧ all_events (store c) = xs ++ ys ∧ all_events (store c') = xs ++ ev :: ys ∧
    now_ticks c' = S (now_ticks c) ∧ sched c' = with_new_obj (sched c) ∧
    _lease_by_attempt c' = _lease_by_attempt c ∧ writer_id c' = writer_id c.
Proof.
  intros Hok Haw Hw Ht Hst. unfold _append. rewrite prog_bind_eq, state_run by done. fold cur.
  cbn beta iota. rewrite transitions_allowed, bool_decide_true by done.
  prog_step. prog_step. prog_step.
  assert (read_segment (writer_id c) (store c) = Ok (seg_events (store c) (writer_id c))) as ->.
  { unfold read_segment, _segment. rewrite Hw. by apply read_path_log, seg_events_ok. }
  set (es := seg_events (store c) (writer_id c)).
  prog_step. prog_step. unfold on_sched at 1. prog_step.
  set (ev0 := {| ev_event_id := _ |}).
  assert (validate_ExperimentEvent ev0 = Ok ev0) as Hv.
  { unfold validate_ExperimentEvent, validate_transition, require. simpl.
    rewrite (proj2 (Z.leb_le _ _)), (proj2 (Z.ltb_lt _ _)) by lia. simpl.
    by rewrite bool_decide_true. }
  rewrite Hv. prog_step. unfold on_store at 1.
  cbn [store tick_now set_sched].
  pose proof (seg_events_ok _ (writer_id c) Hok) as (tail & Hraw & Hc & Htl & Hp).
  assert (_path_ok : _read_path (Some (committed es +:+ tail)) = Ok es)
    by (apply read_log; by exists tail).
  destruct (append_event_run ev0 (store c) es tail es) as (s' & Happ & _); try done.
  rewrite Happ. prog_step.
  destruct (all_events_append _ _ _ _ Hok Hv Happ) as (Hok' & xs & ys & Hxs & Hys).
  match goal with |- context [on_metrics (transition ?x) ?c0] =>
    destruct (on_metrics_ok (transition x) c0) as [m1 ->]; [intros; apply metrics_transition_ok|] end.
  prog_step.
  match goal with |- context [on_metrics (add_signal ?x ?y) ?c0] =>
    destruct (on_metrics_ok (add_signal x y) c0) as [m2 ->]; [done|] end.
  do 4 eexists. split; [done|]. simpl. split_and!; [done..| | |done|done|done|done].
  - exact Hxs.
  - exact Hys.
Qed.

Lemma append_refused c e t st payload :
  store_ok (store c) → aware_events (store c) →
  st ∉ allowed (ev_to_state <$> last (events_of c e t)) →
  _append wall e t st payload c = (c, Err (Exn InvalidTransitionError "cannot transition")).
Proof.
  intros Hok Haw Hst. unfold _append. rewrite prog_bind_eq, state_run by done. cbn beta iota.
  rewrite transitions_allowed, bool_decide_false by done. reflexivity.
Qed.

(** An append either goes through as in [append_accepts] or leaves the store. *)
Lemma append_failed c e t st payload c' x :
  store_ok (store c) → aware_events (store c) → _append wall e t st payload c = (c', Err x) →
  store c' = store c ∧ (now_ticks c ≤ now_ticks c')%nat ∧ writer_id c' = writer_id c.
Proof.
  intros Hok Haw H.
  destruct (decide (st ∈ allowed (ev_to_state <$> last (events_of c e t)))) as [Hst|Hst].
  2:{ rewrite append_refused in H by done. by simplify_eq. }
  destruct (safe_writer (writer_id c)) eqn:Hw; [destruct (decide (0 < t)%Z) as [Ht|Ht]|].
  - destruct (append_accepts c e t st payload) as (? & ? & ? & ? & Hr & _); try done. congruence.
  - revert H. unfold _append. rewrite prog_bind_eq, state_run by done. cbn beta iota.
    rewrite transitions_allowed, bool_decide_true by done. prog_step. prog_step. prog_step.
    assert (read_segment (writer_id c) (store c) = Ok (seg_events (store c) (writer_id c))) as ->.
    { unfold read_segment, _segment. rewrite Hw. by apply read_path_log, seg_events_ok. }
    prog_step. prog_step. unfold on_sched at 1. prog_step.
    unfold validate_ExperimentEvent, require. simpl.
    rewrite (proj2 (Z.leb_le _ _)), (proj2 (Z.ltb_ge _ _)) by lia.
    intros [= <- <-]. simpl. split_and!; [done|lia|done].
  - revert H. unfold _append. rewrite prog_bind_eq, state_run by done. cbn beta iota.
    rewrite transitions_allowed, bool_decide_true by done. prog_step. prog_step. prog_step.
    unfold read_segment, _segment. rewrite Hw. intros [= <- <-]. done.
Qed.

Lemma append_ok_inv c e t st payload c' ev :
  store_ok (store c) → aware_events (store c) → _append wall e t st payload c = (c', Ok ev) →
  st ∈ allowed (ev_to_state <$> last (events_of c e t)) ∧ safe_writer (writer_id c) = true ∧ (0 < t)%Z.
Proof.
  intros Hok Haw H.
  destruct (decide (st ∈ allowed (ev_to_state <$> last (events_of c e t)))) as [Hst|Hst].
  2:{ rewrite append_refused in H by done. by simplify_eq. }
  split; [done|]. revert H. unfold _append. rewrite prog_bind_eq, state_run by done. cbn beta iota.
  rewrite transitions_allowed, bool_decide_true by done. prog_step. prog_step. prog_step.
  unfold read_segment, _segment. destruct (safe_writer (writer_id c)); [|done].
  simpl mbind at 1. destruct (_read_path _); [|done].
  prog_step. prog_step. unfold on_sched at 1. prog_step.
  unfold validate_ExperimentEvent, require. simpl.
  destruct (1 <=? _)%Z; [|done]. simpl. destruct (0 <? t)%Z eqn:Ht; [|done].
  intros _. split; [done|lia].
Qed.

Lemma select_snoc es x e t :
  select (es ++ [x]) e t =
  select es e t ++ (if bool_decide (ev_experiment_id x = e) && bool_decide (ev_attempt x = t) then [x] else []).
Proof. unfold select. rewrite List.filter_app. simpl. by case_match. Qed.

(** an append of a legal transition succeeds, is sealed with the observed
    state as its origin, becomes the state of the attempt and of no other, as long
    as the clock reads later than every stored event; an illegal one is refused
    with [InvalidTransitionError] and changes nothing. *)
Theorem transition_recorded c e t st payload (cur := ev_to_state <$> last (events_of c e t)) :
  store_ok (store c) → aware_events (store c) → safe_writer (writer_id c) = true → (0 < t)%Z →
  is_aware (wall (now_ticks c)) = true → later_than (dt_us (wall (now_ticks c))) (all_events (store c)) →
  if bool_decide (st ∈ allowed cur) then
    ∃ c' ev, _append wall e t st payload c = (c', Ok ev) ∧ ev_from_state ev = cur ∧
      (state e t c').2 = Ok (Some st) ∧
      ∀ e' t', (e', t') ≠ (e, t) → (state e' t' c').2 = (state e' t' c).2
  else _append wall e t st payload c = (c, Err (Exn InvalidTransitionError "cannot transition")).
Proof.
  intros Hok Haw Hw Ht Hnow Hlater. case_bool_decide as Hst; [|by apply append_refused].
  destruct (append_accepts c e t st payload Hok Haw Hw Ht Hst)
    as (c' & ev & xs & ys & Hr & He & Hat & Hfrom & Hto & Hts & Hok' & Hxs & Hys & _).
  assert (aware_events (store c')) as Haw'.
  { intros z Hz. rewrite Hys in Hz. rewrite elem_of_app, elem_of_cons in Hz.
    destruct Hz as [?|[->|?]]; [| by rewrite Hts|]; apply Haw; rewrite Hxs; set_solver. }
  assert (∀ e' t', events_of c' e' t' = events_of c e' t' ++
    (if bool_decide (e = e') && bool_decide (t = t') then [ev] else [])) as Hev.
  { intros e' t'. unfold events_of. rewrite Hys, sort_events_newest by (rewrite Hts, <- Hxs; done).
    by rewrite select_snoc, He, Hat, Hxs. }
  exists c', ev. split_and!; [done|done| |].
  - rewrite state_run, Hev, !bool_decide_true by done. simpl. by rewrite last_snoc, <- Hto.
  - intros e' t' Hne. rewrite !state_run, Hev by done.
    destruct (bool_decide (e = e')) eqn:H1, (bool_decide (t = t')) eqn:H2; simpl; rewrite ?app_nil_r; try done.
    apply bool_decide_eq_true in H1, H2. congruence.
Qed.

(** *** Histories *)
Fixpoint is_path (prev : option ExperimentState) (es : list ExperimentEvent) : Prop :=
  match es with
  | [] => True
  | e :: es => ev_from_state e = prev ∧ ev_to_state e ∈ allowed prev ∧ is_path (Some (ev_to_state e)) es
  end.
Lemma is_path_snoc prev es x :
  is_path prev (es ++ [x]) ↔
  is_path prev es ∧ ev_from_state x = match last es with Some e => Some (ev_to_state e) | None => prev end ∧
  ev_to_state x ∈ allowed (ev_from_state x).
Proof.
  revert prev. induction es as [|e es IH]; intros prev; simpl; [naive_solver|]. rewrite IH.
  assert (match last (e :: es) with Some e => Some (ev_to_state e) | None => prev end =
          match last es with Some e => Some (ev_to_state e) | None => Some (ev_to_state e) end) as ->.
  { destruct es as [|f es]; [done|]. change (last (e :: f :: es)) with (last (f :: es)).
    destruct (last (f :: es)) eqn:Hl; [done|]. by apply last_None in Hl. }
  tauto.
Qed.

Hypothesis wall_aware : ∀ n, is_aware (wall n) = true.
Hypothesis wall_later : ∀ m n, (m < n)%nat → (dt_us (wall m) < dt_us (wall n))%Z.

Record ctrl_inv (c : ArenaController) : Prop := {
  ctl_store : store_ok (store c);
  ctl_aware : aware_events (store c);
  ctl_later : later_than (dt_us (wall (now_ticks c))) (all_events (store c));
  ctl_path e t : is_path None (events_of c e t);
}.
Definition ctrl_history (c c' : ArenaController) : Prop :=
  ctrl_inv c → ctrl_inv c' ∧ ∀ e t, ∃ new, events_of c' e t = events_of c e t ++ new.

#[local] Instance ctrl_history_preorder : PreOrder ctrl_history.
Proof.
  split.
  - intros c Hc. split; [done|]. intros e t. exists []. by rewrite app_nil_r.
  - intros c1 c2 c3 H12 H23 H1. destruct (H12 H1) as [H2 Hp]. destruct (H23 H2) as [H3 Hq].
    split; [done|]. intros e t. destruct (Hp e t) as [n1 ?], (Hq e t) as [n2 Hq']. exists (n1 ++ n2).
    rewrite Hq', app_assoc. by f_equal.
Qed.

Lemma history_frame c c' :
  store c' = store c → (now_ticks c ≤ now_ticks c')%nat → ctrl_history c c'.
Proof.
  intros Hs Hn [H1 H2 H3 H4]. split.
  - split; rewrite ?Hs; try done.
    + intros z Hz. specialize (H3 z Hz). destruct (decide (now_ticks c = now_ticks c')) as [<-|]; [done|].
      pose proof (wall_later (now_ticks c) (now_ticks c')). lia.
    + intros e t. unfold events_of. rewrite Hs. apply H4.
  - intros e t. exists []. unfold events_of. by rewrite Hs, app_nil_r.
Qed.

Lemma append_history e t st payload : Evolves ctrl_history (_append wall e t st payload).
Proof.
  intros c Hi. destruct (_append wall e t st payload c) as [c' [ev|x]] eqn:H; simpl.
  2:{ destruct (append_failed _ _ _ _ _ _ _ (ctl_store _ Hi) (ctl_aware _ Hi) H) as (Hs & Hn & _).
      by apply history_frame. }
  pose proof Hi as [Hok Haw Hlater Hpath].
  destruct (append_ok_inv _ _ _ _ _ _ _ Hok Haw H) as (Hst & Hw & Ht).
  destruct (append_accepts c e t st payload Hok Haw Hw Ht Hst)
    as (c2 & ev2 & xs & ys & Hr & He & Hat & Hfrom & Hto & Hts & Hok' & Hxs & Hys & Hn & _).
  rewrite Hr in H. injection H as -> ->.
  assert (∀ e' t', events_of c' e' t' = events_of c e' t' ++
    (if bool_decide (e = e') && bool_decide (t = t') then [ev] else [])) as Hev.
  { intros e' t'. unfold events_of. rewrite Hys, sort_events_newest by (rewrite Hts, <- Hxs; done).
    by rewrite select_snoc, He, Hat, Hxs. }
  assert (∀ z, z ∈ all_events (store c') ↔ z ∈ all_events (store c) ∨ z = ev) as Hin.
  { intros z. rewrite Hxs, Hys, !elem_of_app, elem_of_cons. tauto. }
  split; [split|]; [done| | | |].
  - intros z [Hz| ->]%Hin; [by apply Haw|]. by rewrite Hts.
  - intros z Hz%Hin. rewrite Hn. pose proof (wall_later (now_ticks c) (S (now_ticks c)) ltac:(lia)).
    destruct Hz as [Hz| ->]; [specialize (Hlater z Hz); lia|]. rewrite Hts. lia.
  - intros e' t'. rewrite Hev. destruct (bool_decide (e = e') && bool_decide (t = t')) eqn:Hb;
      [|rewrite app_nil_r; apply Hpath].
    apply andb_prop in Hb as [->%bool_decide_eq_true ->%bool_decide_eq_true].
    apply is_path_snoc. split; [apply Hpath|]. rewrite Hfrom, Hto. split; [|done].
    by destruct (last (events_of c e' t')).
  - intros e' t'. eexists. apply Hev.
Qed.

Lemma on_sched_history {A} (m : prog LeaseScheduler A) : Evolves ctrl_history (on_sched m).
Proof. intros c. unfold on_sched. destruct (m (sched c)). by apply history_frame. Qed.
Lemma on_metrics_history m : Evolves ctrl_history (on_metrics m).
Proof.
  intros c. unfold on_metrics. destruct (metrics c) as [x|]; [destruct (m x)|]; by apply history_frame.
Qed.
Lemma modify_attempts_history f : Evolves ctrl_history (modify (λ c, set_attempts (f c) c)).
Proof. intros c. by apply history_frame. Qed.
Lemma state_history e t : Evolves ctrl_history (state e t).
Proof. intros c. unfold state. prog_simpl. destruct (read_all_events (store c)); by apply history_frame. Qed.

(** Methods are sequences of these; each step is sound, so the method is. *)
Ltac history :=
  repeat lazymatch goal with
    | |- Evolves _ (_append _ _ _ _ _) => apply append_history
    | |- Evolves _ (state _ _) => apply state_history
    | |- Evolves _ (on_sched _) => apply on_sched_history
    | |- Evolves _ (on_metrics _) => apply on_metrics_history
    | |- Evolves _ (modify (λ c, set_attempts _ c)) => apply modify_attempts_history
    | |- Evolves _ (gets _) => apply (evolves_gets ctrl_history)
    | |- Evolves _ (lift _) => apply (evolves_lift ctrl_history)
    | |- Evolves _ (mret _) => apply (evolves_ret ctrl_history)
    | |- Evolves _ (raise_if _ _ _) => apply (evolves_raise_if ctrl_history)
    | |- Evolves _ (_ ≫= _) => apply (evolves_bind ctrl_history); [|intros ?]
    | |- Evolves _ (if _ then _ else _) => apply evolves_if
    | |- Evolves _ (match ?x with _ => _ end) => destruct x
    end.

Lemma release_history e t : Evolves ctrl_history (_release e t).
Proof. unfold _release. history. Qed.
Lemma fail_orphans_history ls : Evolves ctrl_history (fail_orphans wall ls).
Proof.
  induction ls as [|l ls IH]; [apply (evolves_ret ctrl_history)|].
  simpl. apply (evolves_bind ctrl_history); [apply (evolves_lift ctrl_history)|intros n].
  apply (evolves_bind ctrl_history); [apply modify_attempts_history|intros _].
  apply (evolves_bind ctrl_history); [apply state_history|intros cur].
  case_match; [|apply IH]. history. apply IH.
Qed.

(** The controller's public calls. *)
Inductive ctrl_call : (ArenaController → ArenaController) → Prop :=
  | call_propose e t payload : ctrl_call (λ c, (propose wall e t payload c).1)
  | call_admit_attempt r n : valid_request r → ctrl_call (λ c, (admit_attempt clock wall r n c).1)
  | call_running e t : ctrl_call (λ c, (running wall e t c).1)
  | call_finish_run e t ok payload : ctrl_call (λ c, (finish_run wall e t ok payload c).1)
  | call_heartbeat_attempt e t : ctrl_call (λ c, (heartbeat_attempt clock e t c).1)
  | call_cancel_attempt e t stop payload : ctrl_call (λ c, (cancel_attempt wall e t stop payload c).1)
  | call_reclaim_orphans : ctrl_call (λ c, (reclaim_orphans clock wall c).1)
  | call_state e t : ctrl_call (λ c, (state e t c).1).
Definition ctrl_step (c c' : ArenaController) : Prop := ∃ f, ctrl_call f ∧ c' = f c.

Lemma ctrl_step_history c c' : ctrl_step c c' → ctrl_history c c'.
Proof.
  intros (f & [e t p|r n _|e t|e t ok p|e t|e t stop p| |e t] & ->); revert c.
  - apply append_history.
  - unfold admit_attempt. change (Evolves ctrl_history (admit_attempt clock wall r n)).
    unfold admit_attempt. history.
  - apply append_history.
  - change (Evolves ctrl_history (finish_run wall e t ok p)). unfold finish_run, _release. history.
  - change (Evolves ctrl_history (heartbeat_attempt clock e t)). unfold heartbeat_attempt. history.
  - change (Evolves ctrl_history (cancel_attempt wall e t stop p)). unfold cancel_attempt, _release. history.
  - change (Evolves ctrl_history (reclaim_orphans clock wall)). unfold reclaim_orphans.
    apply (evolves_bind ctrl_history); [apply on_sched_history|apply fail_orphans_history].
  - apply state_history.
Qed.
Lemma ctrl_steps_history c c' : rtc ctrl_step c c' → ctrl_history c c'.
Proof. induction 1 as [|c c1 c2 H _ IH]; [reflexivity|]. etransitivity; [by apply ctrl_step_history|done]. Qed.

(** A controller over an empty store. *)
Definition fresh_controller (c : ArenaController) : Prop := store c = empty_fs.
Lemma fresh_inv c : fresh_controller c → ctrl_inv c.
Proof.
  intros Hs. assert (all_events (store c) = []) as Hall by by rewrite Hs.
  assert (aware_events (store c) ∧ later_than (dt_us (wall (now_ticks c))) (all_events (store c))) as [? ?].
  { unfold aware_events, later_than. rewrite Hall. split; by intros z ?%elem_of_nil. }
  split; try done.
  - rewrite Hs. split; [|apply dict_wf_empty]. intros w. exists []. apply log_repr_empty.
  - intros e t. unfold events_of. by rewrite Hall.
Qed.

(** *** Several controllers over one store

    The controllers of a store, one after another or side by side: at each step
    some controller whose store is the shared one, with whatever writer name,
    scheduler, metrics and memory of leases, makes a public call, or (when the
    threads of two calls interleave) one append of a call.  Clock readings are
    numbered across all of them. *)
Inductive world_step : fs * nat → fs * nat → Prop :=
  | world_call c c' : ctrl_step c c' → world_step (store c, now_ticks c) (store c', now_ticks c')
  | world_append c e t st payload c' r :
      _append wall e t st payload c = (c', r) →
      world_step (store c, now_ticks c) (store c', now_ticks c').
Definition world_events (s : fs) (experiment_id : string) (attempt : Z) : list ExperimentEvent :=
  select (sort_events (all_events s)) experiment_id attempt.

(** The part of [ctrl_inv] that is about the store and the clock. *)
Lemma ctrl_inv_shared c d :
  store c = store d → now_ticks c = now_ticks d → ctrl_inv c → ctrl_inv d.
Proof.
  intros Hs Hn [H1 H2 H3 H4]. rewrite Hs, ?Hn in *. split; try done.
  intros e t. specialize (H4 e t). unfold events_of in *. by rewrite <- Hs.
Qed.
Definition world_inv (w : fs * nat) : Prop := ∀ c, store c = w.1 → now_ticks c = w.2 → ctrl_inv c.

Lemma world_step_inv w w' : world_step w w' → world_inv w → world_inv w'.
Proof.
  intros Hstep Hw d Hs Hn.
  assert (∀ c c', ctrl_history c c' → world_inv (store c, now_ticks c) →
    store d = store c' → now_ticks d = now_ticks c' → ctrl_inv d) as Hgo.
  { intros c c' Hh Hc Hsd Hnd. destruct (Hh (Hc c eq_refl eq_refl)) as [Hi _].
    by eapply ctrl_inv_shared; [..|exact Hi]. }
  destruct Hstep as [c c' Hc|c e t st payload c' r Hc]; simpl in *.
  - apply (Hgo c c'); [by apply ctrl_step_history|done..].
  - apply (Hgo c c'); [|done..]. pose proof (append_history e t st payload c) as Hh. by rewrite Hc in Hh.
Qed.

(** C6: over an aware wall clock that moves strictly forward, from an empty
    store, and whatever calls any number of controllers of that store make,
    interleaved append by append, restarted or not: the events the store holds
    for an attempt always form a path of the lifecycle, that is from nothing,
    each event starts where its predecessor ended, along legal transitions
    only. *)
Theorem lifecycle_path n w e t :
  rtc world_step (empty_fs, n) w → is_path None (world_events w.1 e t).
Proof.
  intros Hs. assert (world_inv w) as Hw.
  { assert (world_inv (empty_fs, n)) as H0 by (intros c Hc _; by apply fresh_inv).
    induction Hs as [|w1 w2 w3 Hstep _ IH]; [done|]. by eapply IH, world_step_inv. }
  destruct w as [s m]. set (c := {| store := s; sched := {| capacity := no_resources; lease_ttl_s := 0%Z;
    _leases := ∅; _by_key := ∅; ticks := 0; next_obj := 0 |}; writer_id := ""; actor := ""; node := "";
    session_id := ""; metrics := None; _lease_by_attempt := ∅; now_ticks := m |}).
  apply (ctl_path c (Hw c eq_refl eq_refl)).
Qed.

(** a terminal attempt is final: once its state is [VALID], [INVALID],
    [INCONCLUSIVE], [FAILED] or [CANCELLED], no call of the controller ever adds
    an event to it. *)
Theorem terminal_is_final c0 c c' e t st :
  fresh_controller c0 → rtc ctrl_step c0 c → rtc ctrl_step c c' →
  (state e t c).2 = Ok (Some st) → allowed (Some st) = [] →
  events_of c' e t = events_of c e t.
Proof.
  intros H0 Hs Hs' Hst Hterm.
  destruct (ctrl_steps_history _ _ Hs (fresh_inv _ H0)) as [Hi _].
  destruct (ctrl_steps_history _ _ Hs' Hi) as [Hi' Hgrow]. destruct (Hgrow e t) as [new Hnew].
  rewrite state_run in Hst by apply Hi. simpl in Hst.
  destruct new as [|x new]; [by rewrite app_nil_r in Hnew|].
  pose proof (ctl_path _ Hi' e t) as Hp. rewrite Hnew in Hp.
  assert (∀ prev es, is_path prev (es ++ x :: new) → (∃ y, last es = Some y ∧ ev_to_state y = st) → False) as Hno.
  { clear -Hterm. intros prev es. revert prev. induction es as [|y es IH]; intros prev; simpl; [by intros _ (? & ? & _)|].
    intros (_ & _ & Hp) (z & Hz & Hzst). destruct es as [|y' es].
    - injection Hz as ->. rewrite Hzst in Hp. destruct Hp as (_ & Hin & _). rewrite Hterm in Hin.
      by apply elem_of_nil in Hin.
    - eapply IH; [exact Hp|]. by exists z. }
  exfalso. eapply Hno; [exact Hp|]. destruct (last (events_of c e t)) as [y|]; simpl in Hst; [|done].
  exists y. split; congruence.
Qed.

(** *** The scheduler of a controller in use

    What can happen to a controller and to what it shares: its own public
    calls, calls of other holders of its scheduler, and other writers of its
    store. *)
Inductive shared_step (c : ArenaController) : ArenaController → Prop :=
  | shared_call f : ctrl_call f → shared_step c (f c)
  | shared_sched s' : sched_step clock (sched c) s' → shared_step c (set_sched s' c)
  | shared_store s' : shared_step c (set_store s' c).

Definition sched_runs (c c' : ArenaController) : Prop := rtc (sched_step clock) (sched c) (sched c').
#[local] Instance sched_runs_preorder : PreOrder sched_runs.
Proof. split; [intros c; apply rtc_refl|intros c1 c2 c3 H12 H23; unfold sched_runs in *; by etrans]. Qed.

Lemma on_sched_call {A} (m : prog LeaseScheduler A) :
  sched_call clock (λ s, (m s).1) → Evolves sched_runs (on_sched m).
Proof.
  intros Hm c. unfold on_sched. destruct (m (sched c)) as [s' r] eqn:H. apply rtc_once.
  eexists. split; [exact Hm|]. simpl. by rewrite H.
Qed.
Lemma sched_runs_frame c c' : sched c' = sched c → sched_runs c c'.
Proof. unfold sched_runs. by intros ->. Qed.
Lemma on_metrics_runs m : Evolves sched_runs (on_metrics m).
Proof.
  intros c. unfold on_metrics. destruct (metrics c) as [x|]; [destruct (m x)|]; by apply sched_runs_frame.
Qed.
Lemma on_store_runs {A} (m : prog fs A) : Evolves sched_runs (on_store m).
Proof. intros c. unfold on_store. destruct (m (store c)). by apply sched_runs_frame. Qed.
Lemma state_runs e t : Evolves sched_runs (state e t).
Proof. intros c. unfold state. prog_simpl. destruct (read_all_events (store c)); by apply sched_runs_frame. Qed.

Ltac runs :=
  repeat lazymatch goal with
    | |- Evolves _ (state _ _) => apply state_runs
    | |- Evolves _ (on_sched _) => apply on_sched_call; by constructor
    | |- Evolves _ (on_store _) => apply on_store_runs
    | |- Evolves _ (on_metrics _) => apply on_metrics_runs
    | |- Evolves _ (modify _) => intros ?; by apply sched_runs_frame
    | |- Evolves _ (gets _) => apply (evolves_gets sched_runs)
    | |- Evolves _ (lift _) => apply (evolves_lift sched_runs)
    | |- Evolves _ (mret _) => apply (evolves_ret sched_runs)
    | |- Evolves _ (raise_if _ _ _) => apply (evolves_raise_if sched_runs)
    | |- Evolves _ (_ ≫= _) => apply (evolves_bind sched_runs); [|intros ?]
    | |- Evolves _ (if _ then _ else _) => apply evolves_if
    | |- Evolves _ (match ?x with _ => _ end) => destruct x
    end.
Lemma append_runs e t st payload : Evolves sched_runs (_append wall e t st payload).
Proof. unfold _append. runs. Qed.

Lemma ctrl_call_runs f c : ctrl_call f → sched_runs c (f c).
Proof.
  intros [e t p|r n Hr|e t|e t ok p|e t|e t stop p| |e t]; revert c.
  - apply append_runs.
  - change (Evolves sched_runs (admit_attempt clock wall r n)). unfold admit_attempt. runs; apply append_runs.
  - apply append_runs.
  - change (Evolves sched_runs (finish_run wall e t ok p)). unfold finish_run, _release.
    runs; apply append_runs.
  - change (Evolves sched_runs (heartbeat_attempt clock e t)). unfold heartbeat_attempt. runs.
  - change (Evolves sched_runs (cancel_attempt wall e t stop p)). unfold cancel_attempt, _release.
    runs; apply append_runs.
  - change (Evolves sched_runs (reclaim_orphans clock wall)). unfold reclaim_orphans.
    apply (evolves_bind sched_runs); [runs|intros ls].
    induction ls as [|l ls IH]; [apply (evolves_ret sched_runs)|]. simpl.
    runs; first [apply append_runs|apply IH].
  - apply state_runs.
Qed.

(** A scheduler made for the controller, and any history of the two. *)
Definition shared_reachable (cap : ResourceRequest) (ttl : float) (c : ArenaController) : Prop :=
  validate_ResourceRequest cap = Ok cap ∧
  ∃ c0, new_LeaseScheduler cap ttl = Ok (sched c0) ∧ rtc shared_step c0 c.

Lemma shared_reachable_sched cap ttl c :
  shared_reachable cap ttl c → sched_reachable clock cap ttl (sched c).
Proof.
  intros (Hcap & c0 & H0 & Hs). split; [done|]. exists (sched c0). split; [done|]. clear H0.
  induction Hs as [c|c1 c2 c3 Hstep _ IH]; [done|].
  etransitivity; [|exact IH]. destruct Hstep as [f Hf|s' Hs'|s'].
  - by apply ctrl_call_runs.
  - by apply rtc_once.
  - done.
Qed.

(** C7: no second worker for a live attempt.  Take a controller, the scheduler
    it was made with and any history of the two: its own public calls, calls of
    other holders of that scheduler, events written by other controllers of the
    store.  When the durable state says admitted or running, [admit] answers
    positively only with the lease that was granted to this very request and is
    still live; otherwise the answer is a duplicate refusal or a [ValueError].
    Whatever lease the scheduler granted on the way is released again, and no
    event is written. *)
Theorem no_second_worker cap ttl c r n st c' res :
  (∀ m k, (m ≤ k)%nat → (clock m <= clock k)%Z) → shared_reachable cap ttl c → valid_request r →
  (state (ar_experiment_id r) n c).2 = Ok (Some st) → (st = ADMITTED ∨ st = RUNNING) →
  admit_attempt clock wall r n c = (c', res) →
  store c' = store c ∧ _leases (sched c') = _leases (sched c) ∧
  match res with
  | Ok adm =>
      if admitted adm then
        adm_duplicate adm = true ∧ ∃ l, adm_lease adm = Some l ∧ indexed (sched c) r = Some l ∧
          lease_request l = r ∧ active l (clock (ticks (sched c))) = true
      else adm_reason adm = Some DUPLICATE
  | Err e => exn_kind e = ValueError
  end.
Proof.
  intros Hmono Hreach%shared_reachable_sched Hr Hst Hor. unfold admit_attempt.
  destruct (negb _); [prog_step; by intros [= <- <-]|]. prog_step. rewrite prog_bind_eq.
  assert (state (ar_experiment_id r) n c = (c, Ok (Some st))) as ->.
  { revert Hst. unfold state. prog_simpl. destruct (read_all_events (store c)); simpl; [|done].
    by intros [= ->]. }
  cbn beta iota.
  assert (opt_in (Some st) [PROPOSED; ADMITTED; RUNNING] = true ∧ opt_in (Some st) [ADMITTED; RUNNING] = true) as [-> ->]
    by (by destruct Hor as [-> | ->]).
  prog_step. rewrite prog_bind_eq. unfold on_sched at 1.
  pose proof (admit_outcomes clock Hmono cap ttl (sched c) r Hreach Hr) as Hout.
  pose proof (on_metrics_ok (admission "duplicate")) as Hdup.
  pose proof (on_metrics_ok (admission "admitted")) as Hadm.
  destruct (admit_ clock r (sched c)) as [s1 out] eqn:Hrun.
  assert ((∃ l, s1 = with_tick (sched c) ∧ out = Ok (adm_granted true l) ∧ indexed (sched c) r = Some l ∧
             lease_request l = r ∧ active l (clock (ticks (sched c))) = true) ∨
          (s1 = with_tick (sched c) ∧ out = Ok (adm_refused DUPLICATE [])) ∨
          new_outcome r (clock (ticks (sched c))) (sched c) (s1, out)) as Hcases.
  { destruct (indexed (sched c) r) as [l|] eqn:Hx; [|by right; right].
    case_bool_decide as Hreq; [destruct (active l _) eqn:Ha|]; simplify_eq/=;
      [left; by exists l|right; by right|right; by left]. }
  clear Hout. destruct Hcases as [(l & -> & -> & Hx & Hreq & Ha)|[[-> ->]|Hnew]].
  - simpl. destruct (Hadm (set_sched (with_tick (sched c)) c)) as [m Hm]; [done|].
    prog_step. rewrite Hm. prog_step. intros [= <- <-]. simpl. split_and!; [done..|]. by exists l.
  - simpl. prog_step. destruct (Hdup (set_sched (with_tick (sched c)) c)) as [m Hm]; [done|].
    prog_step. rewrite Hm. intros [= <- <-]. done.
  - inversion Hnew as [s' x Hl Hk Hx|s' blocked Hl Hk|s' l _ _ _ _ Hfresh Hl Hk]; subst; simpl.
    + intros [= <- <-]. simpl. by rewrite Hl.
    + prog_step. destruct (Hdup (set_sched s1 c)) as [m Hm]; [done|].
      prog_step. rewrite Hm. intros [= <- <-]. simpl. by rewrite Hl.
    + prog_step. prog_step. unfold on_sched at 1. rewrite release_run. cbn [sched set_sched].
      rewrite Hl, dict_lookup_insert_eq. cbv beta iota delta [mret prog_ret]. prog_step.
      match goal with |- context [on_metrics _ ?c0] => destruct (Hdup c0) as [m Hm]; [done|] end.
      rewrite Hm. intros [= <- <-]. simpl. split_and!; [done| |done].
      by apply dict_delete_insert_fresh.
Qed.
End controller_facts.
