(* ===== verification/Status.v ===== *)
(** * Derived status of the arena ([arena/status.py])

    [ArenaStatusService]: views computed on every call from the store, the scheduler
    and the providers it was given.  A provider or a probe is the caller's code, so
    the service holds what calling it gives.  A state is its text; [updated_at] is
    the timestamp itself, which the code formats and parses again. *)
From S2P Require Import Prelude PyDict PyFloat PyStats Canonical Models Store LeaseScheduler Lineage ArenaMetrics Metrics.
From stdpp Require Import pretty.
From Stdlib Require Import Ascii.
Local Open Scope Z_scope.

(** ** Probes *)
Record ProbeResult := { pb_ok : option bool; pb_detail : string }.
Definition probe_state (p : ProbeResult) : string :=
  match pb_ok p with None => "unknown" | Some true => "ok" | Some false => "error" end.
(** What a probe returns: a [ProbeResult], or a truth value or [None]. *)
Inductive ProbeValue := PvResult (p : ProbeResult) | PvBool (ok : option bool).
(** [type(exc).__name__] *)
Definition exn_name (k : exn_class) : string :=
  match k with
  | BaseException_ => "BaseException" | Exception_ => "Exception" | ValueError => "ValueError"
  | TypeError => "TypeError" | KeyError => "KeyError" | IndexError => "IndexError"
  | RuntimeError => "RuntimeError" | OSError => "OSError" | PermissionError => "PermissionError"
  | ValidationError => "ValidationError" | SwarmContractError => "SwarmContractError"
  | BudgetExceededError => "BudgetExceededError" | SwarmStateError => "SwarmStateError"
  | InvalidTransitionError => "InvalidTransitionError" | CorruptEventLogError => "CorruptEventLogError"
  | EventConflictError => "EventConflictError" | AccessDeniedError => "AccessDeniedError"
  | ControlError => "ControlError" | ControlConflictError => "ControlConflictError"
  | ControlCorruptionError => "ControlCorruptionError" | ActivityError => "ActivityError"
  | ActivityCorruptionError => "ActivityCorruptionError" | SpawnRejected => "SpawnRejected"
  | CollaborationError => "CollaborationError"
  | BucketError => "BucketError" | RoutingScopeViolation => "RoutingScopeViolation" | GoldenSetSchemaError => "GoldenSetSchemaError"
  | SensitivityOverrideError => "SensitivityOverrideError" | AttributeError => "AttributeError" | ClaimRaced => "ClaimRaced"
  | SubprocessError => "SubprocessError" | ConfigError => "ConfigError"
  | OverflowError => "OverflowError"
  end.
Definition _probe (probe : option (result ProbeValue)) : result ProbeResult :=
  match probe with
  | None => Ok {| pb_ok := None; pb_detail := "probe not configured" |}
  | Some (Err e) =>
      if exn_isa (exn_kind e) Exception_
      then Ok {| pb_ok := Some false; pb_detail := exn_name (exn_kind e) +:+ ": " +:+ exn_msg e |} else Err e
  | Some (Ok (PvResult p)) => Ok p
  | Some (Ok (PvBool ok)) => Ok {| pb_ok := ok; pb_detail := "" |}
  end.

(** ** Rendering the bounded registry *)
Section render.
Context {PF : Platform}.
Definition labelled {V} (metric label : string) (show : V → string) (d : dict string V) : list string :=
  (λ kv, "skharness_arena_" +:+ metric +:+ "_total{" +:+ label +:+ "=" +:+ String quote_char "" +:+ kv.1
         +:+ String quote_char "" +:+ "} " +:+ show kv.2) <$> sort_by fst (items d).
Definition render (ready : bool) (active_leases : Z) (m : BoundedArenaMetrics) : string :=
  str_join (String nl "") (
    ["# HELP skharness_arena_ready Whether all required arena dependencies are ready.";
     "# TYPE skharness_arena_ready gauge";
     "skharness_arena_ready " +:+ (if ready then "1" else "0");
     "# HELP skharness_arena_active_leases Current active arena leases.";
     "# TYPE skharness_arena_active_leases gauge";
     "skharness_arena_active_leases " +:+ pretty active_leases] ++
    labelled "transitions" "state" pretty (_transitions m) ++
    labelled "verifications" "verdict" pretty (_verifications m) ++
    labelled "admissions" "outcome" pretty (_admissions m) ++
    ["skharness_arena_gateway_errors_total " +:+ pretty (_gateway_errors m)] ++
    labelled "signal" "signal" float_repr (_signals m)) +:+ String nl "".
End render.
Definition metrics_snapshot (m : BoundedArenaMetrics) : BoundedArenaMetrics := {|
  _transitions := Dict (sort_by fst (items (_transitions m)));
  _verifications := Dict (sort_by fst (items (_verifications m)));
  _admissions := Dict (sort_by fst (items (_admissions m)));
  _gateway_errors := _gateway_errors m;
  _signals := Dict (sort_by fst (items (_signals m))) |}.

(** ** Sorting by a timestamp *)
Definition dated_leb (a b : datetime * string) : bool :=
  match dt_us a.1 ?= dt_us b.1 with
  | Lt => true | Gt => false
  | Eq => match String.compare a.2 b.2 with Gt => false | _ => true end
  end.
Definition mixed (ts : list datetime) : bool := existsb is_aware ts && existsb (λ t, negb (is_aware t)) ts.
Definition not_comparable : exn := Exn TypeError "can't compare offset-naive and offset-aware datetimes".
Definition sorted_dated {A} (key : A → datetime * string) (xs : list A) : result (list A) :=
  if mixed (fst ∘ key <$> xs) then Err not_comparable
  else Ok (merge_sort (λ x y, Is_true (dated_leb (key x) (key y))) xs).

(** [rows[-max(1, min(limit, 500)):]] and [rows[:max(1, min(limit, 500))]] *)
Definition clamp (limit : Z) : nat := Z.to_nat (Z.max 1 (Z.min limit 500)).
Definition last_rows {A} (limit : Z) (rows : list A) : list A := drop (length rows - clamp limit) rows.
Definition first_rows {A} (limit : Z) (rows : list A) : list A := take (clamp limit) rows.

(** ** Current attempts *)
Record AttemptRow := {
  at_experiment_id : string; at_attempt : Z; at_state : string; at_updated_at : datetime;
  at_writer_id : string; at_event_hash : option string; at_payload : list (string * json) }.
Definition attempt_row (e : ExperimentEvent) : AttemptRow := {|
  at_experiment_id := ev_experiment_id e; at_attempt := ev_attempt e;
  at_state := ExperimentState_value (ev_to_state e); at_updated_at := ev_timestamp e;
  at_writer_id := ev_writer_id e; at_event_hash := ev_event_hash e; at_payload := ev_payload e |}.
Definition attempt_key (e : ExperimentEvent) : string * Z := (ev_experiment_id e, ev_attempt e).
Definition attempt_key_leb (a b : string * Z) : bool :=
  match String.compare a.1 b.1 with Lt => true | Gt => false | Eq => a.2 <=? b.2 end.
(** [(a.timestamp, a.writer_id, a.sequence) > (b.timestamp, ...)] *)
Definition event_later (a b : ExperimentEvent) : result bool :=
  if bool_decide (is_aware (ev_timestamp a) = is_aware (ev_timestamp b)) then Ok (negb (event_le a b))
  else Err not_comparable.
Fixpoint latest_events (events : list ExperimentEvent) (latest : dict (string * Z) ExperimentEvent) :
    result (dict (string * Z) ExperimentEvent) :=
  match events with
  | [] => Ok latest
  | e :: events =>
      match latest !! attempt_key e with
      | None => latest_events events (<[attempt_key e := e]> latest)
      | Some prior =>
          later ← event_later e prior;
          latest_events events (match later with true => <[attempt_key e := e]> latest | false => latest end)
      end
  end.
Definition _current_attempts (events : list ExperimentEvent) : result (list AttemptRow) :=
  latest ← latest_events events ∅;
  mret (attempt_row <$> (snd <$> merge_sort (λ x y, Is_true (attempt_key_leb x.1 y.1)) (items latest))).

(** ** Counting *)
Definition sorted_counts (xs : list string) : list (string * Z) :=
  sort_by fst (items (foldl count (∅ : dict string Z) xs)).
Definition zlength {A} (xs : list A) : Z := Z.of_nat (length xs).
Record FieldCounts := { fc_by_value : list (string * Z); fc_unknown : Z }.
Definition truthy (s : option string) : option string :=
  match s with Some s => if is_empty_str s then None else Some s | None => None end.
Definition _field_counts (values : list (option string)) : FieldCounts := {|
  fc_by_value := sorted_counts (omap truthy values);
  fc_unknown := zlength (List.filter (λ v, bool_decide (truthy v = None)) values) |}.
Definition with_fallback (primary fallback : option string) : option string :=
  match truthy primary with Some s => Some s | None => fallback end.
Record BudgetStatus := {
  bu_experiments : Z; bu_wall_seconds : Z; bu_token_limit : Z; bu_cost_limit : Z; bu_energy_joules : Z; bu_concurrency : Z }.
Definition configured {A} (field : BudgetSpec → option A) (es : list Experiment) : Z :=
  zlength (omap (λ e, field (ex_budgets e)) es).
Definition _budget_status (es : list Experiment) : BudgetStatus := {|
  bu_experiments := zlength es; bu_wall_seconds := configured bs_wall_seconds es;
  bu_token_limit := configured bs_token_limit es; bu_cost_limit := configured bs_cost_limit es;
  bu_energy_joules := configured bs_energy_joules es; bu_concurrency := configured (Some ∘ bs_concurrency) es |}.

(** A scheduled run: the fields the views read, and whether its status is a failure. *)
Record ScheduledRun := { sr_job : option string; sr_ok_false : bool; sr_status : option string; sr_stale : bool }.
Definition _scheduled_failed (r : ScheduledRun) : bool :=
  sr_ok_false r || bool_decide (sr_status r = Some "failed") || bool_decide (sr_status r = Some "error").

(** ** Objectives in a query *)
Definition colon : ascii := ":".
(** [part.split(":", 1)] *)
Fixpoint split_colon (s : string) : option (string * string) :=
  match s with
  | EmptyString => None
  | String c s => if Ascii.eqb c colon then Some ("", s)
                  else match split_colon s with Some (a, b) => Some (String c a, b) | None => None end
  end.
Definition objective_of (part : string) : option MetricObjective :=
  match split_colon part with
  | None => None
  | Some (name, direction) =>
      let d := strip direction in
      match (if bool_decide (d = "maximize") then Some MAXIMIZE else if bool_decide (d = "minimize") then Some MINIMIZE else None) with
      | None => None
      | Some direction =>
          match validate_MetricObjective {| mo_name := strip name; mo_direction := direction; mo_minimum := None;
                                            mo_maximum := None; mo_tolerance := 0 |} with
          | Ok o => Some o | Err _ => None end
      end
  end.
Definition objectives_from_query (raw : string) : result (list MetricObjective) :=
  map_result (λ part, match objective_of part with
    | Some o => Ok o | None => Err (Exn ValueError "objectives must be name:maximize,name:minimize") end)
    (str_split "," raw).

(** ** The service *)
Section service.
Context {PF : Platform} {EC : EventCodec} {SC : RecordCodec validate_ChallengeSpec}
  {XC : RecordCodec validate_Experiment} {RC : RecordCodec validate_Result}.

(** What the constructor was given: the store if there is one, what each provider
    and probe answers when it is called, and which probes are required. *)
Record ArenaStatusService := {
  as_store : option fs;
  as_scheduler : option LeaseScheduler;
  as_experiments : result (list Experiment);
  as_results : result (list Result);
  as_refinements : result (list string);
  as_scheduled_runs : result (list ScheduledRun);
  as_probes : list (string * bool * option (result ProbeValue));
  as_metrics : BoundedArenaMetrics }.

(** The probe of the store; [unwritable] are the directories the process cannot write. *)
Definition _store_probe (store : option fs) (unwritable : list string) : result ProbeValue :=
  match store with
  | None => Ok (PvResult {| pb_ok := None; pb_detail := "arena store not configured" |})
  | Some s =>
      read_all_events s ;;
      Ok (PvResult (if bool_decide (unwritable = []) then {| pb_ok := Some true; pb_detail := "" |}
        else {| pb_ok := Some false; pb_detail := "unwritable arena directories: " +:+ str_join ", " unwritable |}))
  end.
(** The constructor with its defaults for what is left out. *)
Definition new_ArenaStatusService (store : option fs) (scheduler : option LeaseScheduler)
    (experiments : option (result (list Experiment))) (results : option (result (list Result)))
    (refinements : option (result (list string))) (scheduled_runs : option (result (list ScheduledRun)))
    (gateway verifier gpu serving_backend : option (result ProbeValue))
    (require_gateway require_verifier require_gpu : bool) (require_serving_backend : option bool)
    (metrics : option BoundedArenaMetrics) (unwritable : list string) : ArenaStatusService := {|
  as_store := store; as_scheduler := scheduler;
  as_experiments := match experiments with Some x => x | None =>
    match store with Some s => read_experiments s | None => Ok [] end end;
  as_results := match results with Some x => x | None =>
    match store with Some s => read_results s | None => Ok [] end end;
  as_refinements := default (Ok []) refinements;
  as_scheduled_runs := default (Ok []) scheduled_runs;
  as_probes := [
    ("store", bool_decide (is_Some store), Some (_store_probe store unwritable));
    ("skgateway", require_gateway, gateway); ("verifier", require_verifier, verifier);
    ("gpu", require_gpu, gpu);
    ("serving_backend", default require_gpu require_serving_backend, serving_backend)];
  as_metrics := default new_metrics metrics |}.

Record Dependency := { dp_name : string; dp_state : string; dp_required : bool; dp_detail : string }.
(** The loop of [readiness]. *)
Fixpoint check_probes (probes : list (string * bool * option (result ProbeValue))) (ready : bool) :
    result (bool * list Dependency) :=
  match probes with
  | [] => Ok (ready, [])
  | (name, required, probe) :: probes =>
      p ← _probe probe;
      rest ← check_probes probes (ready && negb (required && negb (bool_decide (pb_ok p = Some true))));
      Ok (rest.1, {| dp_name := name; dp_state := probe_state p; dp_required := required; dp_detail := pb_detail p |} :: rest.2)
  end.
Definition readiness (a : ArenaStatusService) : result (bool * list Dependency) := check_probes (as_probes a) true.

Definition _events (a : ArenaStatusService) : result (list ExperimentEvent) :=
  match as_store a with Some s => read_all_events s | None => Ok [] end.

(** [max(0.0, (now - updated_at).total_seconds())], [now] being aware *)
Definition queue_age (now_us : Z) (row : AttemptRow) : result float :=
  match at_updated_at row with
  | Aware us => Ok (Z.max 0 (rnd_q ((now_us - us) * f_unit) 1000000))
  | Naive _ => Err (Exn TypeError "can't subtract offset-naive and offset-aware datetimes")
  end.
Fixpoint max_float (xs : list float) : option float :=
  match xs with [] => None | x :: xs => Some (match max_float xs with Some m => Z.max x m | None => x end) end.

Record ArenaStatus := {
  ss_ready : bool; ss_dependencies : list Dependency;
  ss_attempts_total : Z; ss_by_state : list (string * Z);
  ss_queue_depth : Z; ss_oldest_age_s : option float; ss_attempts_after_first : Z;
  ss_budgets : BudgetStatus; ss_models : FieldCounts; ss_backends : FieldCounts;
  ss_verifications : list (string * Z); ss_promotions : Z; ss_rollbacks : Z;
  ss_observability : BoundedArenaMetrics;
  ss_jobs_known : Z; ss_jobs_failed : Z; ss_jobs_stale : Z; ss_scheduler : option Snapshot }.
Definition count_of (xs : list string) (k : string) : Z := zlength (List.filter (λ x, bool_decide (x = k)) xs).
(** [status]; [now_us] is the reading of the wall clock, [clock] what the scheduler reads. *)
Definition status (clock : nat → float) (a : ArenaStatusService) (now_us : Z) : result ArenaStatus :=
  ready ← readiness a;
  events ← _events a;
  current ← _current_attempts events;
  let proposed := List.filter (λ r, bool_decide (at_state r = ExperimentState_value PROPOSED)) current in
  queue_ages ← map_result (queue_age now_us) proposed;
  experiments ← as_experiments a;
  results ← as_results a;
  refinements ← as_refinements a;
  scheduled ← as_scheduled_runs a;
  scheduler ← match as_scheduler a with Some l => Some <$> (snapshot clock l).2 | None => Ok None end;
  mret {| ss_ready := ready.1; ss_dependencies := ready.2;
    ss_attempts_total := zlength current; ss_by_state := sorted_counts (at_state <$> current);
    ss_queue_depth := zlength proposed; ss_oldest_age_s := max_float queue_ages;
    ss_attempts_after_first := zlength (List.filter (λ r, 1 <? at_attempt r) current);
    ss_budgets := _budget_status experiments;
    ss_models := _field_counts ((λ e, with_fallback (ex_served_model e) (Some (ex_requested_model e))) <$> experiments);
    ss_backends := _field_counts (ex_gateway_backend_id <$> experiments);
    ss_verifications := sorted_counts ((VerificationState.value ∘ re_verification) <$> results);
    ss_promotions := count_of refinements "promoted"; ss_rollbacks := count_of refinements "rolled_back";
    ss_observability := metrics_snapshot (as_metrics a);
    ss_jobs_known := zlength (remove_dups (omap (truthy ∘ sr_job) scheduled));
    ss_jobs_failed := zlength (List.filter _scheduled_failed scheduled);
    ss_jobs_stale := zlength (List.filter sr_stale scheduled); ss_scheduler := scheduler |}.
Definition leases (clock : nat → float) (a : ArenaStatusService) : result (list (Lease * float)) :=
  match as_scheduler a with Some l => (lease_records clock l).2 | None => Ok [] end.

Record RunRow := {
  rr_run_id : string; rr_experiment_id : string; rr_attempt : Z; rr_state : string; rr_updated_at : datetime;
  rr_requested_model : string; rr_served_model : option string; rr_backend : option string;
  rr_gateway_request_id : option string; rr_budgets : BudgetSpec; rr_verification : string;
  rr_verification_reason : option string; rr_failure : option (list (string * json)) }.
Definition run_row (latest : dict (string * Z) AttemptRow) (result_by_experiment : dict string Result)
    (e : Experiment) : RunRow :=
  let event := latest !! (ex_id e, ex_attempt e) in
  let r := result_by_experiment !! ex_id e in
  {| rr_run_id := ex_run_id e; rr_experiment_id := ex_id e; rr_attempt := ex_attempt e;
     rr_state := match event with Some row => at_state row | None => "not_started" end;
     rr_updated_at := match event with Some row => at_updated_at row | None => ex_created_at e end;
     rr_requested_model := ex_requested_model e; rr_served_model := ex_served_model e;
     rr_backend := ex_gateway_backend_id e; rr_gateway_request_id := ex_gateway_request_id e;
     rr_budgets := ex_budgets e;
     rr_verification := match r with Some r => VerificationState.value (re_verification r) | None => "not_recorded" end;
     rr_verification_reason := match r with Some r => re_verification_reason r | None => None end;
     rr_failure := match event with
       | Some row => if bool_decide (at_state row = "failed") then Some (at_payload row) else None
       | None => None end |}.
Definition runs (a : ArenaStatusService) (limit : Z) : result (list RunRow) :=
  events ← _events a;
  current ← _current_attempts events;
  let latest := dict_by (λ row, (at_experiment_id row, at_attempt row)) current in
  results ← as_results a;
  let result_by_experiment := dict_by re_experiment_id results in
  experiments ← as_experiments a;
  ordered ← sorted_dated (λ e, (ex_created_at e, ex_id e)) experiments;
  mret (last_rows limit (run_row latest result_by_experiment <$> ordered)).
Definition scheduled_jobs (a : ArenaStatusService) (limit : Z) : result (list ScheduledRun) :=
  rows ← as_scheduled_runs a; mret (last_rows limit rows).
Definition failures (a : ArenaStatusService) (limit : Z) : result (list (RunRow + ScheduledRun)) :=
  rows ← runs a 500;
  scheduled ← as_scheduled_runs a;
  mret (last_rows limit ((inl <$> List.filter (λ r, bool_decide (is_Some (rr_failure r))) rows) ++
                         (inr <$> List.filter _scheduled_failed scheduled))).

(** The last [challenge_id] text in the payloads of each attempt. *)
Definition challenge_by_attempt (events : list ExperimentEvent) : dict (string * Z) string :=
  foldl (λ d e, match (Dict (ev_payload e) : dict string json) !! "challenge_id" with
                | Some (JStr observed) => <[attempt_key e := observed]> d | _ => d end) ∅ events.
Definition attempts (a : ArenaStatusService) (challenge_id state : option string) (limit : Z) : result (list AttemptRow) :=
  events ← _events a;
  rows ← _current_attempts events;
  let rows := match challenge_id with
    | Some c => List.filter (λ r, bool_decide (challenge_by_attempt events !! (at_experiment_id r, at_attempt r) = Some c)) rows
    | None => rows end in
  let rows := match state with Some s => List.filter (λ r, bool_decide (at_state r = s)) rows | None => rows end in
  mret (first_rows limit rows).

Record ChallengeRow := {
  ch_id : string; ch_version : string; ch_title : string; ch_content_hash : string;
  ch_hardware_class : string; ch_required_model : string }.
Definition challenge_row (c : ChallengeSpec) : ChallengeRow := {|
  ch_id := cs_id c; ch_version := cs_version c; ch_title := cs_title c; ch_content_hash := Challenge_content_hash c;
  ch_hardware_class := hw_hardware_class (cs_hardware c); ch_required_model := mr_model_id (cs_model c) |}.
Definition challenges (a : ArenaStatusService) : result (list ChallengeRow) :=
  match as_store a with
  | None => Ok []
  | Some s => map_result (λ stem,
      match fs_specs s !! stem with
      | None => Err (Exn OSError "file vanished")
      | Some payload =>
          match record_parse_json (A:=ChallengeSpec) payload with
          | Some c => c' ← validate_ChallengeSpec c; Ok (challenge_row c')
          | None => Err (Exn ValidationError "invalid challenge") end
      end) (sort_by (λ w, w +:+ ".json") (keys (fs_specs s)))
  end.
Record VerificationRow := {
  ve_experiment_id : string; ve_challenge_hash : string; ve_verification : string; ve_reason : option string;
  ve_result_hash : string; ve_created_at : datetime }.
Definition verifications (a : ArenaStatusService) (limit : Z) : result (list VerificationRow) :=
  results ← as_results a;
  rows ← sorted_dated (λ r, (re_created_at r, re_experiment_id r)) results;
  mret ((λ r, {| ve_experiment_id := re_experiment_id r; ve_challenge_hash := re_challenge_hash r;
    ve_verification := VerificationState.value (re_verification r); ve_reason := re_verification_reason r;
    ve_result_hash := Result_content_hash r; ve_created_at := re_created_at r |}) <$> last_rows limit rows).

(** [LineageGraph(experiments)]; [None] inside is fuel spent, which [Lineage] excludes. *)
Record LineageRow := {
  ln_experiment_id : string; ln_parent_id : option string; ln_reproduces_id : option string;
  ln_ancestors : list string; ln_descendants : list string }.
Definition fuelled {A} (x : option (result A)) : result A := default (Err (Exn RuntimeError "fuel")) x.
Definition lineage (a : ArenaStatusService) (experiment_id : string) : result (option LineageRow) :=
  experiments ← as_experiments a;
  match dict_by ex_id experiments !! experiment_id with
  | None => Ok None
  | Some item =>
      let '(graph, built) := new_LineageGraph experiments in
      (built : result unit) ;;
      ancestors ← fuelled (ancestors graph experiment_id);
      descendants ← fuelled (descendants graph experiment_id);
      mret (Some {| ln_experiment_id := experiment_id; ln_parent_id := ex_parent_id item;
        ln_reproduces_id := ex_reproduces_id item; ln_ancestors := ex_id <$> ancestors; ln_descendants := ex_id <$> descendants |})
  end.

Definition _measurement_summary (m : Measurement) : result MetricSummary :=
  match ob_value <$> me_observations m with
  | [] => Err (Exn ValueError "min() arg is an empty sequence")
  | x :: xs => Ok {| su_count := zlength (me_observations m); su_mean := me_mean m;
      su_standard_deviation := me_standard_deviation m; su_minimum := fmin x xs; su_maximum := fmax x xs;
      su_confidence_low := Fin (default (me_mean m) (me_confidence_low m));
      su_confidence_high := Fin (default (me_mean m) (me_confidence_high m)) |}
  end.
Definition measurement_summaries (ms : list Measurement) : result (dict string MetricSummary) :=
  ps ← map_result (λ m, s ← _measurement_summary m; Ok (me_metric m, s)) ms;
  mret (foldl (λ d kv, <[kv.1 := kv.2]> d) ∅ ps).
(** The loop of [frontier] over the results. *)
Definition candidate_of (r : Result) : result VerifiedParetoCandidate :=
  summaries ← measurement_summaries (re_measurements r);
  from_verified_result r summaries.
Definition contends (challenge_hash : string) (r : Result) : bool :=
  bool_decide (re_challenge_hash r = challenge_hash) && bool_decide (re_verification r = VerificationState.VALID).
Record FrontierRow := {
  fr_experiment_id : string; fr_metrics : dict string MetricSummary; fr_verification_evidence_id : string }.
Definition frontier_row (v : VerifiedParetoCandidate) : FrontierRow := {|
  fr_experiment_id := pc_experiment_id (vc_candidate v); fr_metrics := pc_metrics (vc_candidate v);
  fr_verification_evidence_id := vc_result_hash v |}.
Definition frontier (a : ArenaStatusService) (challenge_hash : string) (objectives : list MetricObjective) :
    result (list FrontierRow) :=
  results ← as_results a;
  candidates ← map_result candidate_of (List.filter (contends challenge_hash) results);
  front ← verified_pareto_frontier candidates objectives;
  mret (map frontier_row front).
End service.
