(* ===== verification/StatusFacts.v ===== *)
(** * What the status views guarantee

    The view of current attempts agrees with the lifecycle controller, readiness
    fails closed, and the published front holds verified results only. *)
From S2P Require Import Prelude Orders PyDict PyFloat PyStats Canonical Models Store LeaseScheduler Lineage ArenaMetrics Metrics MetricsFacts Status Controller ControllerFacts.
Local Open Scope Z_scope.

(** ** Events in order *)
(** The sort key of an event. *)
Definition order_key (e : ExperimentEvent) : triple := (dt_us (ev_timestamp e), ev_writer_id e, ev_sequence e).
Lemma event_le_lex a b : event_le a b = lex_leb (order_key a) (order_key b).
Proof. done. Qed.

Definition in_order (a b : ExperimentEvent) : Prop := event_le a b = true.
Lemma insert_event_sorted e es : StronglySorted in_order es → StronglySorted in_order (insert_event e es).
Proof.
  induction 1 as [|x es Hs IH Hx]; simpl; [by repeat constructor|].
  destruct (event_le e x) eqn:He.
  - constructor; [by constructor|]. constructor; [done|]. rewrite Forall_forall in *. intros y Hy.
    unfold in_order in *. rewrite event_le_lex in *. eapply lex_leb_trans; [exact He|by apply Hx].
  - constructor; [done|]. rewrite Forall_forall in *. intros y [->|Hy]%elem_of_insert_event; [|by apply Hx].
    destruct (lex_leb_total (order_key e) (order_key x)); [by rewrite event_le_lex in He; congruence|done].
Qed.
Lemma sort_events_sorted es : StronglySorted in_order (sort_events es).
Proof. induction es as [|e es IH]; [constructor|]. simpl. by apply insert_event_sorted. Qed.

(** ** Current attempts *)
Definition uniform (es : list ExperimentEvent) : Prop :=
  ∀ a b, a ∈ es → b ∈ es → is_aware (ev_timestamp a) = is_aware (ev_timestamp b).
Lemma read_all_events_shape {PF : Platform} {EC : EventCodec} s es : read_all_events s = Ok es →
  StronglySorted in_order es ∧ uniform es.
Proof.
  unfold read_all_events. destruct (map_result _ _) as [segments|]; simpl; [|done].
  destruct (existsb _ _ && existsb _ _) eqn:Hm; simpl; [done|]. intros [= <-]. split; [apply sort_events_sorted|].
  apply andb_false_iff in Hm. intros a b Ha Hb. rewrite elem_of_sort_events in Ha, Hb.
  destruct Hm as [Hm|Hm]; rewrite existsb_elem_of_false in Hm; pose proof (Hm a Ha); pose proof (Hm b Hb);
    destruct (is_aware (ev_timestamp a)), (is_aware (ev_timestamp b)); done.
Qed.

Definition of_attempt (k : string * Z) (es : list ExperimentEvent) : list ExperimentEvent :=
  List.filter (λ e, bool_decide (attempt_key e = k)) es.
Lemma of_attempt_select es id n : of_attempt (id, n) es = select es id n.
Proof.
  unfold of_attempt, select. apply filter_ext. intros e. unfold attempt_key.
  repeat case_bool_decide; simpl; try done; naive_solver.
Qed.
(** Over events in order and with distinct keys the map ends with the last event of
    every attempt. *)
Lemma latest_events_last pre es d :
  StronglySorted in_order (pre ++ es) → uniform (pre ++ es) → NoDup (order_key <$> pre ++ es) → dict_wf d →
  (∀ k, d !! k = last (of_attempt k pre)) →
  ∃ d', latest_events es d = Ok d' ∧ dict_wf d' ∧ ∀ k, d' !! k = last (of_attempt k (pre ++ es)).
Proof.
  revert pre d. induction es as [|e es IH]; intros pre d Hs Hu Hnd Hwf Hd.
  { exists d. by rewrite app_nil_r. }
  assert (pre ++ e :: es = (pre ++ [e]) ++ es) as Happ by (by rewrite <- app_assoc).
  assert (∀ k, last (of_attempt k (pre ++ [e])) = if bool_decide (attempt_key e = k) then Some e else last (of_attempt k pre)) as Hlast.
  { intros k. unfold of_attempt. rewrite List.filter_app. simpl. case_bool_decide; [by rewrite last_snoc|by rewrite app_nil_r]. }
  assert (∀ k, <[attempt_key e := e]> d !! k = last (of_attempt k (pre ++ [e]))) as Hins.
  { intros k. rewrite Hlast. case_bool_decide as Hk; [subst k; by rewrite dict_lookup_insert_eq|]. by rewrite dict_lookup_insert_ne. }
  cbn [latest_events]. destruct (d !! attempt_key e) as [prior|] eqn:Hp.
  - assert (prior ∈ pre) as Hpre.
    { rewrite Hd in Hp. apply last_Some_elem_of in Hp. unfold of_attempt in Hp.
      rewrite list_elem_of_In, filter_In, <- list_elem_of_In in Hp. apply Hp. }
    unfold event_later. rewrite bool_decide_eq_true_2 by (apply Hu; set_solver). cbn [mbind result_bind].
    assert (event_le e prior = false) as ->.
    { destruct (event_le e prior) eqn:He; [|done]. exfalso.
      assert (event_le prior e = true) as Hle by (apply (StronglySorted_app_1_elem_of in_order pre (e :: es) prior e Hs Hpre); by left).
      pose proof (lex_leb_antisym (order_key prior) (order_key e) Hle He) as Hk. rewrite fmap_app in Hnd. apply NoDup_app in Hnd as (_ & Hd' & _).
      apply (Hd' (order_key prior)); [by apply list_elem_of_fmap_2|]. rewrite Hk. rewrite fmap_cons. by left. }
    cbn [negb]. rewrite Happ in *. apply IH; [done..|by apply dict_wf_insert|done].
  - rewrite Happ in *. apply IH; [done..|by apply dict_wf_insert|done].
Qed.

Lemma attempt_key_leb_spec a b : attempt_key_leb a b = true ↔
  (String.le a.1 b.1 ∧ a.1 ≠ b.1) ∨ (a.1 = b.1 ∧ a.2 <= b.2).
Proof.
  unfold attempt_key_leb. destruct (String.compare a.1 b.1) eqn:Hc.
  - apply String.compare_eq_iff in Hc. rewrite Z.leb_le. naive_solver.
  - apply compare_lt in Hc. naive_solver.
  - apply compare_gt in Hc as [Hc Hne]. split; [done|]. intros [[? _]|[? _]]; [|done]. destruct Hne. by apply (anti_symm String.le).
Qed.
Definition row_key (r : AttemptRow) : string * Z := (at_experiment_id r, at_attempt r).
Lemma state_value_inj a b : ExperimentState_value a = ExperimentState_value b → a = b.
Proof. by destruct a, b. Qed.

Lemma row_keys (l : list (string * Z * ExperimentEvent)) : (∀ k e, (k, e) ∈ l → attempt_key e = k) →
  row_key <$> (attempt_row <$> (snd <$> l)) = l.*1.
Proof.
  induction l as [|[k e] l IH]; intros Hk; [done|]. rewrite !fmap_cons. f_equal; [exact (Hk k e ltac:(by left))|].
  apply IH. intros k' e' Hin. apply Hk. by right.
Qed.

(** C30: the status service and the lifecycle controller never disagree: over a store
    whose events have distinct positions, the rows of current attempts are one per
    attempt that has an event, and the state each shows is the state the controller
    acts on. *)
Theorem status_agrees {PF : Platform} {EC : EventCodec} s es :
  read_all_events s = Ok es → NoDup (order_key <$> es) →
  ∃ rows, _current_attempts es = Ok rows ∧ NoDup (row_key <$> rows) ∧
    ∀ id n st, state_of es id n = Some st ↔
      ∃ row, row ∈ rows ∧ row_key row = (id, n) ∧ at_state row = ExperimentState_value st.
Proof.
  intros [Hs Hu]%read_all_events_shape Hnd.
  destruct (latest_events_last [] es ∅) as (d & Hd & Hwf & Hlk); [done|done|done|constructor|done|].
  unfold _current_attempts. rewrite Hd. eexists. split; [reflexivity|].
  set (R := λ x y : string * Z * ExperimentEvent, Is_true (attempt_key_leb x.1 y.1)).
  assert (∀ k e, (k, e) ∈ items d → attempt_key e = k) as Hkey.
  { intros k e He%elem_of_items; [|done]. rewrite Hlk in He. apply last_Some_elem_of in He. unfold of_attempt in He.
    rewrite list_elem_of_In, filter_In in He. destruct He as [_ He]. by apply bool_decide_eq_true in He. }
  assert (row_key <$> (attempt_row <$> (snd <$> merge_sort R (items d))) ≡ₚ keys d) as Hkeys.
  { rewrite (merge_sort_Permutation R). unfold keys. by rewrite row_keys. }
  split; [by rewrite Hkeys|]. intros id n st. unfold state_of. rewrite <- of_attempt_select, <- Hlk. split.
  - destruct (d !! (id, n)) as [e|] eqn:He; [|done]. intros [= Hst]. exists (attempt_row e).
    apply elem_of_items in He; [|done]. split_and!.
    + apply list_elem_of_fmap_2. apply list_elem_of_fmap. exists ((id, n), e). split; [done|]. by rewrite (merge_sort_Permutation R).
    + by rewrite <- (Hkey _ _ He).
    + simpl. by rewrite Hst.
  - intros (row & (e & -> & ([k e'] & -> & Hin)%list_elem_of_fmap)%list_elem_of_fmap & Hk & Hst).
    rewrite (merge_sort_Permutation R) in Hin. pose proof (Hkey _ _ Hin) as Hke. simpl in *.
    change (attempt_key e' = (id, n)) in Hk. rewrite Hk in Hke. subst k. apply elem_of_items in Hin; [|done]. rewrite Hin. simpl. f_equal. by apply state_value_inj.
Qed.

(** ** Readiness *)
(** The probe answered that its dependency is up. *)
Definition answers_ok (probe : option (result ProbeValue)) : Prop :=
  probe = Some (Ok (PvBool (Some true))) ∨ ∃ detail, probe = Some (Ok (PvResult {| pb_ok := Some true; pb_detail := detail |})).
(** What the report says of one dependency. *)
Definition reports (probe : option (result ProbeValue)) (dep : Dependency) : Prop :=
  (dp_state dep = "ok" ↔ answers_ok probe) ∧
  (probe = None → dp_state dep = "unknown") ∧
  (∀ e, probe = Some (Err e) → dp_state dep = "error" ∧ exn_isa (exn_kind e) Exception_ = true).
Lemma probe_spec probe :
  match _probe probe with
  | Ok p => (pb_ok p = Some true ↔ answers_ok probe) ∧
      ∀ name required, reports probe {| dp_name := name; dp_state := probe_state p; dp_required := required; dp_detail := pb_detail p |}
  | Err e => probe = Some (Err e) ∧ exn_isa (exn_kind e) Exception_ = false
  end.
Proof.
  assert (∀ p, probe_state p = "ok" ↔ pb_ok p = Some true) as Hstate.
  { intros [[[]|] detail]; simpl; by split. }
  unfold _probe, reports. cbn [dp_state]. unfold answers_ok.
  destruct probe as [[[[ok detail]|ok]|e]|]; cbn [pb_ok].
  - assert (ok = Some true ↔ answers_ok (Some (Ok (PvResult {| pb_ok := ok; pb_detail := detail |})))) as H; [|unfold answers_ok in H].
    { unfold answers_ok. split; [intros ->; right; by eexists|by intros [?|[? [= -> _]]]]. }
    split; [exact H|]. intros _ _. rewrite Hstate. split_and!; [exact H|done..].
  - assert (ok = Some true ↔ answers_ok (Some (Ok (PvBool ok)))) as H; [|unfold answers_ok in H].
    { unfold answers_ok. split; [intros ->; by left|by intros [[= ?]|[? ?]]]. }
    split; [exact H|]. intros _ _. rewrite Hstate. split_and!; [exact H|done..].
  - destruct (exn_isa (exn_kind e) Exception_) eqn:He; [|done].
    assert (¬ answers_ok (Some (Err e))) as H by (by intros [?|[? ?]]). unfold answers_ok in H.
    split; [by split|]. intros _ _. rewrite Hstate. split_and!; [by split|done|by intros ? [= <-]].
  - assert (¬ answers_ok None) as H by (by intros [?|[? ?]]). unfold answers_ok in H.
    split; [by split|]. intros _ _. rewrite Hstate. split_and!; [by split|done..].
Qed.
Lemma check_probes_spec probes ready :
  match check_probes probes ready with
  | Ok (r, deps) =>
      (r = true ↔ ready = true ∧ ∀ name probe, (name, true, probe) ∈ probes → answers_ok probe) ∧
      Forall2 (λ npr dep, dp_name dep = npr.1.1 ∧ dp_required dep = npr.1.2 ∧ reports npr.2 dep) probes deps
  | Err e => exn_isa (exn_kind e) Exception_ = false ∧ ∃ name required, (name, required, Some (Err e)) ∈ probes
  end.
Proof.
  revert ready. induction probes as [|[[name required] probe] probes IH]; intros ready; cbn [check_probes].
  { split; [|constructor]. split; [intros ->; split; [done|]; by intros ? ? ?%elem_of_nil|naive_solver]. }
  pose proof (probe_spec probe) as Hp. destruct (_probe probe) as [p|e]; cbn [mbind result_bind].
  2:{ destruct Hp as [-> ?]. split; [done|]. exists name, required. by left. }
  destruct Hp as [Hok Hrep]. match goal with |- context [ check_probes _ ?b ] => specialize (IH b) end.
  destruct (check_probes _ _) as [[r deps]|e]; cbn [mbind result_bind fst snd].
  2:{ destruct IH as (? & n & rq & ?). split; [done|]. exists n, rq. by right. }
  destruct IH as [IH Hdeps]. split; [|by constructor].
  rewrite IH, andb_true_iff, negb_true_iff. setoid_rewrite elem_of_cons.
  case_bool_decide as Hd; destruct required; simpl; naive_solver.
Qed.

(** readiness fails closed: the service reports ready exactly when its event log
    is readable and its directories writable, and every probe that is required exists,
    did not raise and answered that its dependency is up; a probe that is missing is
    reported unknown and one that raises is reported as an error; nothing that is an
    [Exception] escapes. *)
Theorem readiness_fails_closed {PF : Platform} {EC : EventCodec} {SC : RecordCodec validate_ChallengeSpec}
    {XC : RecordCodec validate_Experiment} {RC : RecordCodec validate_Result}
    s sched xs rs fs sr gateway verifier gpu backend need_gateway need_verifier need_gpu need_backend m unwritable :
  let a := new_ArenaStatusService (Some s) sched xs rs fs sr gateway verifier gpu backend
             need_gateway need_verifier need_gpu need_backend m unwritable in
  match readiness a with
  | Ok (ready, deps) =>
      (ready = true ↔ (∃ es, read_all_events s = Ok es) ∧ unwritable = [] ∧
        (need_gateway = true → answers_ok gateway) ∧ (need_verifier = true → answers_ok verifier) ∧
        (need_gpu = true → answers_ok gpu) ∧ (default need_gpu need_backend = true → answers_ok backend)) ∧
      Forall2 (λ npr dep, dp_name dep = npr.1.1 ∧ dp_required dep = npr.1.2 ∧ reports npr.2 dep) (as_probes a) deps
  | Err e => exn_isa (exn_kind e) Exception_ = false ∧
      ∃ probe, probe ∈ [Some (_store_probe (Some s) unwritable); gateway; verifier; gpu; backend] ∧ probe = Some (Err e)
  end.
Proof.
  intros a. unfold readiness. pose proof (check_probes_spec (as_probes a) true) as H.
  destruct (check_probes (as_probes a) true) as [[ready deps]|e].
  2:{ destruct H as (? & name & rq & Hin). split; [done|]. eexists. split; [|reflexivity].
      apply (list_elem_of_fmap_2 snd) in Hin. exact Hin. }
  destruct H as [H ?]. split; [|done]. rewrite H. cbn [as_probes a new_ArenaStatusService].
  assert (answers_ok (Some (_store_probe (Some s) unwritable)) ↔ (∃ es, read_all_events s = Ok es) ∧ unwritable = []) as Hstore.
  { unfold _store_probe, answers_ok. destruct (read_all_events s) as [es|e]; cbn [mbind result_bind]; [|naive_solver].
    case_bool_decide; naive_solver. }
  rewrite (bool_decide_eq_true_2 (is_Some (Some s))) by done.
  split.
  - intros [_ Hall]. destruct (proj1 Hstore) as [? ?]; [by eapply Hall; left|].
    assert (∀ name required probe, (name, required, probe) ∈ as_probes a → required = true → answers_ok probe) as Hreq.
    { intros name required probe Hin ->. by eapply Hall. }
    split_and!; [done..| | | |]; intros Hd; (eapply Hreq; [|exact Hd]); [do 1 right|do 2 right|do 3 right|do 4 right]; by left.
  - intros (? & ? & ? & ? & ? & ?). split; [done|]. assert (answers_ok (Some (_store_probe (Some s) unwritable))) by tauto.
    intros name probe Hin. rewrite !elem_of_cons, elem_of_nil in Hin. naive_solver.
Qed.

(** ** The published front *)
Section front.
Context {PF : Platform} {EC : EventCodec} {SC : RecordCodec validate_ChallengeSpec}
  {XC : RecordCodec validate_Experiment} {RC : RecordCodec validate_Result}.

Lemma measurement_summaries_err ms e : measurement_summaries ms = Err e → exn_kind e = ValueError.
Proof.
  unfold measurement_summaries. destruct (map_result _ ms) as [ps|e'] eqn:Hm; cbn [mbind result_bind]; [done|]. intros [= ->].
  apply map_result_err in Hm as (m & _ & Hm). unfold _measurement_summary in Hm.
  destruct (ob_value <$> me_observations m); [by injection Hm as <-|done].
Qed.
Lemma candidate_of_ok r v : re_verification r = VerificationState.VALID →
  candidate_of r = Ok v ↔ ∃ metrics, measurement_summaries (re_measurements r) = Ok metrics ∧
    v = {| vc_candidate := {| pc_experiment_id := re_experiment_id r; pc_metrics := metrics |}; vc_result_hash := Result_content_hash r |}.
Proof.
  intros Hr. unfold candidate_of, from_verified_result. rewrite bool_decide_eq_true_2 by done. cbn [negb err_if].
  destruct (measurement_summaries _) as [ms|e]; cbn [mbind result_bind]; [|naive_solver].
  split; [intros [= <-]; by eexists|]. by intros (? & [= <-] & ->).
Qed.
Lemma candidate_of_err r e : re_verification r = VerificationState.VALID → candidate_of r = Err e → exn_kind e = ValueError.
Proof.
  intros Hr. unfold candidate_of, from_verified_result. rewrite bool_decide_eq_true_2 by done. cbn [negb err_if].
  destruct (measurement_summaries _) as [ms|e'] eqn:Hm; cbn [mbind result_bind]; [done|]. intros [= <-]. by eapply measurement_summaries_err.
Qed.
Lemma contends_spec h r : contends h r = true ↔ re_challenge_hash r = h ∧ re_verification r = VerificationState.VALID.
Proof. unfold contends. by rewrite andb_true_iff, !bool_decide_eq_true. Qed.

(** The result [r] stands behind the candidate [c] of challenge [h]. *)
Definition backs (h : string) (rs : list Result) (r : Result) (c : ParetoCandidate) : Prop :=
  r ∈ rs ∧ re_challenge_hash r = h ∧ re_verification r = VerificationState.VALID ∧
  pc_experiment_id c = re_experiment_id r ∧ measurement_summaries (re_measurements r) = Ok (pc_metrics c).
Definition row_candidate (row : FrontierRow) : ParetoCandidate :=
  {| pc_experiment_id := fr_experiment_id row; pc_metrics := fr_metrics row |}.

Lemma beaten_by_false os c d :
  beaten_by os c d = false ↔ pc_experiment_id d = pc_experiment_id c ∨ beats os d c = false.
Proof. unfold beaten_by. by rewrite andb_false_iff, negb_false_iff, bool_decide_eq_true. Qed.

(** Whatever the providers of the service return, every row of the published
    front of a challenge is backed by a stored result of that challenge that was
    verified valid, shows the metrics that result measured, and names the content
    hash of that very result as its evidence; it has every objective within its
    interval and no other valid result of the challenge beats it; and every valid
    result that does and is not beaten has a row.  The only exception of its own the
    view raises is [ValueError]. *)
Theorem published_front_is_verified a h objectives :
  match frontier a h objectives with
  | Ok rows => ∃ rs, as_results a = Ok rs ∧
      (∀ row, row ∈ rows → ∃ r, backs h rs r (row_candidate row) ∧
         fr_verification_evidence_id row = Result_content_hash r) ∧
      ∀ r c, backs h rs r c →
        (∃ row, row ∈ rows ∧ row_candidate row = c) ↔
        admissible objectives c = true ∧
        ∀ r' d, backs h rs r' d → admissible objectives d = true →
          pc_experiment_id d ≠ pc_experiment_id c → beats objectives d c = false
  | Err e => as_results a = Err e ∨ exn_kind e = ValueError
  end.
Proof.
  unfold frontier. destruct (as_results a) as [rs|e]; cbn [mbind result_bind]; [|by left].
  destruct (map_result candidate_of _) as [vs|e] eqn:Hm; cbn [mbind result_bind].
  2:{ right. apply map_result_err in Hm as (r & Hr & He). apply elem_of_filter_bool in Hr as [[_ Hr]%contends_spec _].
      by eapply candidate_of_err. }
  pose proof (verified_frontier_spec vs objectives) as Hf.
  destruct (verified_pareto_frontier vs objectives) as [out|e]; cbn [mbind result_bind]; [|by right; destruct Hf].
  destruct Hf as (_ & _ & _ & Hout). exists rs. split; [done|].
  assert (∀ v, v ∈ vs ↔ ∃ r, backs h rs r (vc_candidate v) ∧ vc_result_hash v = Result_content_hash r) as Hvs.
  { intros v. rewrite (map_result_elem _ _ _ v Hm). setoid_rewrite elem_of_filter_bool. setoid_rewrite contends_spec. split.
    - intros (r & [[Hc Hr] Hin] & Hv). exists r. apply candidate_of_ok in Hv as (ms & Hms & ->); done.
    - intros (r & (Hin & Hc & Hr & Hid & Hms) & He). exists r. split; [done|]. apply candidate_of_ok; [done|].
      exists (pc_metrics (vc_candidate v)). split; [done|]. destruct v as [[]]; simpl in *; congruence. }
  assert (∀ v, row_candidate (frontier_row v) = vc_candidate v) as Hrow by (by intros [[]]).
  assert (∀ c, c ∈ vc_candidate <$> vs ↔ ∃ r, backs h rs r c) as Hcs.
  { intros c. rewrite list_elem_of_fmap. split; [intros (v & -> & (r & ? & ?)%Hvs); by exists r|]. intros [r Hr].
    exists {| vc_candidate := c; vc_result_hash := Result_content_hash r |}. split; [done|]. apply Hvs. by exists r. }
  split.
  - intros row (v & -> & [Hv _]%Hout)%list_elem_of_fmap. by rewrite Hrow; apply Hvs.
  - intros r c Hr. transitivity (c ∈ front (vc_candidate <$> vs) objectives).
    + split; [intros (row & (v & -> & [_ Hv]%Hout)%list_elem_of_fmap & <-); by rewrite Hrow|]. intros Hc.
      pose proof (proj2 (Hcs c) ltac:(by exists r)) as (v & -> & Hv)%list_elem_of_fmap.
      exists (frontier_row v). split; [|done]. apply list_elem_of_fmap_2. by apply Hout.
    + rewrite elem_of_front, Hcs. setoid_rewrite Hcs. setoid_rewrite beaten_by_false. split.
      * intros (_ & Ha & Hb). split; [done|]. intros r' d Hd Hda Hne. by destruct (Hb d (ex_intro _ r' Hd) Hda).
      * intros [Ha Hb]. split_and!; [by exists r|done|]. intros d [r' Hd] Hda.
        destruct (decide (pc_experiment_id d = pc_experiment_id c)); [by left|right]. by eapply Hb.
Qed.
End front.
