(* ===== verification/Swarm.v ===== *)
(** * Swarm contracts ([arena/swarm.py])

    The immutable documents of a swarm: plan, contract, result, receipt,
    authorization and agent-to-agent event, each a record with the validator that
    its construction runs, and the class methods that derive one document from
    others.  [validate_X x] is the construction of an [X]; an error raised inside a
    validator surfaces as pydantic's [ValidationError], an error raised by a class
    method keeps its own class. *)
From S2P Require Import Prelude PyDict PyFloat Canonical Models.
From Stdlib Require Import Ascii.
Local Open Scope Z_scope.

(** ** Shared checks *)
(** [if b: raise ValueError(msg)] inside a validator. *)
Definition refuse (b : bool) (msg : string) : result unit := err_if b ValidationError msg.
(** [if b: raise SwarmContractError(msg)] *)
Definition contract_error (b : bool) (msg : string) : result unit := err_if b SwarmContractError msg.

Definition _require_unique (items : list string) (fld : string) : result unit :=
  refuse (existsb blank items) (fld +:+ " entries must not be empty") ;;
  refuse (negb (all_unique items)) (fld +:+ " entries must be unique").
Definition _require_aware (value : datetime) (fld : string) : result unit :=
  refuse (negb (is_aware value)) (fld +:+ " must be timezone-aware").

(** [PurePosixPath(value)]: its root and its parts, empty and dot parts dropped. *)
Definition slash : ascii := ascii_of_nat 47.
Definition path_root (value : string) : string :=
  if startswith value "//" && negb (startswith value "///") then "//"
  else if startswith value "/" then "/" else "".
Definition path_parts (value : string) : list string :=
  List.filter (λ p, negb (is_empty_str p) && negb (bool_decide (p = "."))) (str_split slash value).
(** [path.as_posix()] of a relative path. *)
Definition relative_posix (value : string) : string :=
  match path_parts value with [] => "." | parts => str_join "/" parts end.

Definition _validate_relative_path (value : string) : result unit :=
  refuse (negb (is_empty_str (path_root value)) || negb (bool_decide (value = relative_posix value))
          || bool_decide (".." ∈ path_parts value) || bool_decide (value ∈ [""; "."]))
    "path scopes must be normalized repository-relative paths".

(** Equal, or one among the [parents] of the other. *)
Definition _paths_overlap (left right : string) : bool :=
  bool_decide (path_root left = path_root right) &&
  (bool_decide (path_parts left `prefix_of` path_parts right)
   || bool_decide (path_parts right `prefix_of` path_parts left)).

(** ** Roles and outcomes *)
Inductive SwarmRole := ORCHESTRATOR | SCOUT | BUILDER | TESTER | VERIFIER.
#[export] Instance SwarmRole_eq_dec : EqDecision SwarmRole.
Proof. solve_decision. Defined.
Definition SwarmRole_value (r : SwarmRole) : string :=
  match r with
  | ORCHESTRATOR => "orchestrator" | SCOUT => "scout" | BUILDER => "builder"
  | TESTER => "tester" | VERIFIER => "verifier"
  end.

Module Disposition.
Inductive t := COMPLETED | BLOCKED | NEEDS_INPUT | FAILED.
#[export] Instance eq_dec : EqDecision t.
Proof. solve_decision. Defined.
Definition value (d : t) : string :=
  match d with
  | COMPLETED => "completed" | BLOCKED => "blocked" | NEEDS_INPUT => "needs_input" | FAILED => "failed"
  end.
End Disposition.
Export (hints) Disposition.

Module Assessment.
Inductive t := ACTIONABLE | NO_ACTION | BLOCKED | NEEDS_INPUT.
#[export] Instance eq_dec : EqDecision t.
Proof. solve_decision. Defined.
Definition value (a : t) : string :=
  match a with
  | ACTIONABLE => "actionable" | NO_ACTION => "no_action" | BLOCKED => "blocked"
  | NEEDS_INPUT => "needs_input"
  end.
End Assessment.
Export (hints) Assessment.

(** ** Scout findings *)
Record ScoutFinding := { sf_path : string; sf_line : option Z; sf_detail : string; sf_digest : string }.
#[export] Instance ScoutFinding_eq_dec : EqDecision ScoutFinding.
Proof. solve_decision. Defined.

(** [str.casefold] of one character below 256.  The micro sign folds to a letter
    above 255 and stays itself here; no placeholder word has either. *)
Definition casefold_char (c : ascii) : string :=
  let n := N_of_ascii c in
  if ((65 <=? n) && (n <=? 90) || (192 <=? n) && (n <=? 222) && negb (n =? 215))%N
  then String (ascii_of_N (n + 32)) ""
  else if (n =? 223)%N then "ss" else String c "".
Fixpoint casefold (s : string) : string :=
  match s with EmptyString => "" | String c s => casefold_char c +:+ casefold s end.
(** [needle in s] *)
Fixpoint str_contains (needle s : string) : bool :=
  startswith s needle || match s with EmptyString => false | String _ s => str_contains needle s end.

Definition placeholder_words : list string := ["placeholder"; "unknown"; "none"; "n/a"; "todo"; "tbd"].
Definition placeholder_phrases : list string := ["lorem ipsum"; "fill this"; "placeholder"].

(** ** Identity, budgets, plan *)
Record SwarmIdentity := {
  si_card_id : string; si_card_hash : string; si_base_commit : string; si_evidence_id : string;
  si_trajectory_id : string }.
#[export] Instance SwarmIdentity_eq_dec : EqDecision SwarmIdentity.
Proof. solve_decision. Defined.
Definition validate_SwarmIdentity (i : SwarmIdentity) : result SwarmIdentity :=
  refuse (blank (si_card_id i) || has_space (si_card_id i))
    "card_id must be a non-empty opaque ID without whitespace" ;;
  refuse (negb (is_digest (si_card_hash i))) "card_hash must bind immutable card content with sha256" ;;
  refuse (negb (is_commit (si_base_commit i))) "base_commit must be a full lowercase Git object ID" ;;
  refuse (negb (is_digest (si_evidence_id i))) "evidence_id must be a lowercase sha256 digest" ;;
  refuse (blank (si_trajectory_id i) || has_space (si_trajectory_id i))
    "trajectory_id must be a non-empty opaque ID without whitespace" ;;
  mret i.

Record ExecutionBudget := {
  eb_wall_seconds : float; eb_token_limit : Z; eb_tool_call_limit : Z; eb_cost_limit : float }.
#[export] Instance ExecutionBudget_eq_dec : EqDecision ExecutionBudget.
Proof. solve_decision. Defined.
Definition validate_ExecutionBudget (b : ExecutionBudget) : result ExecutionBudget :=
  require (0 <? eb_wall_seconds b) "wall_seconds" ;;
  require (0 <? eb_token_limit b) "token_limit" ;;
  require (0 <? eb_tool_call_limit b) "tool_call_limit" ;;
  require (0 <=? eb_cost_limit b) "cost_limit" ;;
  mret b.

Record TeamBudget := {
  tb_team_id : string; tb_wall_seconds : float; tb_token_limit : Z; tb_tool_call_limit : Z;
  tb_cost_limit : float; tb_max_concurrency : Z }.
#[export] Instance TeamBudget_eq_dec : EqDecision TeamBudget.
Proof. solve_decision. Defined.
Definition validate_TeamBudget (b : TeamBudget) : result TeamBudget :=
  require (0 <? tb_wall_seconds b) "wall_seconds" ;;
  require (0 <? tb_token_limit b) "token_limit" ;;
  require (0 <? tb_tool_call_limit b) "tool_call_limit" ;;
  require (0 <=? tb_cost_limit b) "cost_limit" ;;
  require (0 <? tb_max_concurrency b) "max_concurrency" ;;
  refuse (blank (tb_team_id b)) "team_id must not be empty" ;;
  mret b.

Record BudgetUsage := {
  bu_wall_seconds : float; bu_tokens : Z; bu_tool_calls : Z; bu_cost : float }.
#[export] Instance BudgetUsage_eq_dec : EqDecision BudgetUsage.
Proof. solve_decision. Defined.
Definition validate_BudgetUsage (u : BudgetUsage) : result BudgetUsage :=
  require (0 <=? bu_wall_seconds u) "wall_seconds" ;;
  require (0 <=? bu_tokens u) "tokens" ;;
  require (0 <=? bu_tool_calls u) "tool_calls" ;;
  require (0 <=? bu_cost u) "cost" ;;
  mret u.
Definition no_usage : BudgetUsage :=
  {| bu_wall_seconds := 0; bu_tokens := 0; bu_tool_calls := 0; bu_cost := 0 |}.
Definition usage_plus (a b : BudgetUsage) : result BudgetUsage :=
  validate_BudgetUsage {|
    bu_wall_seconds := fadd (bu_wall_seconds a) (bu_wall_seconds b);
    bu_tokens := bu_tokens a + bu_tokens b;
    bu_tool_calls := bu_tool_calls a + bu_tool_calls b;
    bu_cost := fadd (bu_cost a) (bu_cost b) |}.

Record SwarmPhaseSpec := {
  ps_phase_id : string; ps_role : SwarmRole; ps_contract_ids : list string;
  ps_predecessor_phase_ids : list string }.
#[export] Instance SwarmPhaseSpec_eq_dec : EqDecision SwarmPhaseSpec.
Proof. solve_decision. Defined.
Definition validate_SwarmPhaseSpec (p : SwarmPhaseSpec) : result SwarmPhaseSpec :=
  refuse (blank (ps_phase_id p)) "phase_id must not be empty" ;;
  refuse (bool_decide (ps_role p ∈ [ORCHESTRATOR; VERIFIER]))
    "swarm plans contain worker phases, not authority roles" ;;
  _require_unique (ps_contract_ids p) "contract_ids" ;;
  _require_unique (ps_predecessor_phase_ids p) "predecessor_phase_ids" ;;
  refuse (bool_decide (ps_contract_ids p = [])) "every planned phase requires at least one exact contract ID" ;;
  refuse (bool_decide (ps_phase_id p ∈ ps_predecessor_phase_ids p)) "a phase cannot depend on itself" ;;
  refuse (bool_decide (ps_role p = SCOUT) && negb (bool_decide (ps_predecessor_phase_ids p = [])))
    "scout phases must be roots" ;;
  mret p.

Record SwarmPlan := {
  sp_plan_id : string; sp_identity : SwarmIdentity; sp_phases : list SwarmPhaseSpec;
  sp_created_at : datetime }.
#[export] Instance SwarmPlan_eq_dec : EqDecision SwarmPlan.
Proof. solve_decision. Defined.

(** [seen[item].role] for the predecessors of a phase. *)
Definition predecessor_roles (seen : list SwarmPhaseSpec) (p : SwarmPhaseSpec) : list SwarmRole :=
  omap (λ id, ps_role <$> find_first (λ q, bool_decide (ps_phase_id q = id)) seen)
    (ps_predecessor_phase_ids p).
(** The loop over the phases; [seen] are the earlier ones. *)
Fixpoint validate_phases (seen phases : list SwarmPhaseSpec) : result unit :=
  match phases with
  | [] => Ok tt
  | p :: phases =>
      refuse (negb (forallb (λ id, bool_decide (id ∈ ps_phase_id <$> seen)) (ps_predecessor_phase_ids p)))
        "predecessors must exist earlier in topological plan order" ;;
      (let roles := predecessor_roles seen p in
       refuse (bool_decide (ps_role p = BUILDER) && negb (forallb (λ r, bool_decide (r = SCOUT)) roles))
         "builder phases may depend only on scout phases" ;;
       refuse (bool_decide (ps_role p = TESTER) &&
               (bool_decide (roles = []) || negb (forallb (λ r, bool_decide (r = BUILDER)) roles)))
         "tester phases require builder predecessors") ;;
      validate_phases (seen ++ [p]) phases
  end.
Definition validate_SwarmPlan (p : SwarmPlan) : result SwarmPlan :=
  refuse (blank (sp_plan_id p) || bool_decide (sp_phases p = []))
    "a swarm plan requires an ID and at least one phase" ;;
  _require_aware (sp_created_at p) "created_at" ;;
  refuse (negb (all_unique (ps_phase_id <$> sp_phases p))) "planned phase IDs must be unique" ;;
  refuse (negb (all_unique (concat (ps_contract_ids <$> sp_phases p))))
    "a contract ID may appear in exactly one planned phase" ;;
  validate_phases [] (sp_phases p) ;;
  mret p.

(** [plan.phase(phase_id)]: exactly one phase of that name. *)
Definition plan_phase (p : SwarmPlan) (phase_id : string) : result SwarmPhaseSpec :=
  match List.filter (λ q, bool_decide (ps_phase_id q = phase_id)) (sp_phases p) with
  | [q] => Ok q
  | _ => Err (Exn SwarmContractError "phase is not present exactly once in plan")
  end.

(** ** Contracts, results, receipts, authorizations *)
Record PhaseInput := {
  pi_source_phase_id : string; pi_source_contract_id : string; pi_source_contract_hash : string;
  pi_source_role : SwarmRole; pi_source_receipt_hash : string; pi_source_result_hash : string;
  pi_identity_hash : string; pi_evidence_refs : list string; pi_scout_findings : list ScoutFinding;
  pi_output_commit : string }.
#[export] Instance PhaseInput_eq_dec : EqDecision PhaseInput.
Proof. solve_decision. Defined.
Definition validate_PhaseInput (i : PhaseInput) : result PhaseInput :=
  refuse (blank (pi_source_phase_id i) || blank (pi_source_contract_id i))
    "phase input source IDs must not be empty" ;;
  check_each [("source_contract_hash", pi_source_contract_hash i);
              ("source_receipt_hash", pi_source_receipt_hash i);
              ("source_result_hash", pi_source_result_hash i); ("identity_hash", pi_identity_hash i)]
    (λ nv, refuse (negb (is_digest nv.2)) (nv.1 +:+ " must be an immutable sha256 digest")) ;;
  _require_unique (pi_evidence_refs i) "evidence_refs" ;;
  refuse (bool_decide (pi_evidence_refs i = []) || existsb (λ e, negb (is_digest e)) (pi_evidence_refs i))
    "phase inputs require immutable evidence refs" ;;
  refuse (negb (is_commit (pi_output_commit i))) "phase input output_commit must be a full Git object ID" ;;
  refuse (negb (all_unique (sf_digest <$> pi_scout_findings i))) "phase input scout findings must be unique" ;;
  refuse (negb (bool_decide (pi_source_role i = SCOUT)) && negb (bool_decide (pi_scout_findings i = [])))
    "only scout phase inputs may carry scout findings" ;;
  refuse (existsb (λ f, negb (bool_decide (sf_digest f ∈ pi_evidence_refs i))) (pi_scout_findings i))
    "scout finding digests must remain in phase input evidence" ;;
  mret i.

Record SubagentContract := {
  sc_contract_id : string; sc_team_id : string; sc_identity : SwarmIdentity; sc_plan_hash : string;
  sc_phase_id : string; sc_parent_agent_id : string; sc_child_agent_id : string; sc_role : SwarmRole;
  sc_task : string; sc_readable_paths : list string; sc_writable_paths : list string;
  sc_protected_paths : list string; sc_tool_allowlist : list string; sc_budget : ExecutionBudget;
  sc_lease_id : string; sc_worktree_id : string; sc_issued_at : datetime;
  sc_phase_inputs : list PhaseInput; sc_inputs_bound_at : option datetime }.
#[export] Instance SubagentContract_eq_dec : EqDecision SubagentContract.
Proof. solve_decision. Defined.
Definition with_inputs (inputs : list PhaseInput) (bound_at : option datetime) (c : SubagentContract) :
    SubagentContract := {|
  sc_contract_id := sc_contract_id c; sc_team_id := sc_team_id c; sc_identity := sc_identity c;
  sc_plan_hash := sc_plan_hash c; sc_phase_id := sc_phase_id c;
  sc_parent_agent_id := sc_parent_agent_id c; sc_child_agent_id := sc_child_agent_id c;
  sc_role := sc_role c; sc_task := sc_task c; sc_readable_paths := sc_readable_paths c;
  sc_writable_paths := sc_writable_paths c; sc_protected_paths := sc_protected_paths c;
  sc_tool_allowlist := sc_tool_allowlist c; sc_budget := sc_budget c; sc_lease_id := sc_lease_id c;
  sc_worktree_id := sc_worktree_id c; sc_issued_at := sc_issued_at c;
  sc_phase_inputs := inputs; sc_inputs_bound_at := bound_at |}.

Definition input_result_hashes (c : SubagentContract) : list string :=
  pi_source_result_hash <$> sc_phase_inputs c.
Definition input_evidence_refs (c : SubagentContract) : list string :=
  sorted_str (remove_dups (concat (pi_evidence_refs <$> sc_phase_inputs c))).

Record SubagentResult := {
  sr_contract_id : string; sr_contract_hash : string; sr_identity : SwarmIdentity;
  sr_plan_hash : string; sr_phase_id : string; sr_lease_id : string; sr_agent_id : string;
  sr_role : SwarmRole; sr_disposition : Disposition.t; sr_summary : string;
  sr_reason_codes : list string; sr_evidence_refs : list string; sr_observed_commit : option string;
  sr_scout_assessment : option Assessment.t; sr_scout_findings : list ScoutFinding;
  sr_controller_terminal_reason : option string; sr_started_at : datetime; sr_finished_at : datetime }.
#[export] Instance SubagentResult_eq_dec : EqDecision SubagentResult.
Proof. solve_decision. Defined.

Definition assessment_dispositions (a : Assessment.t) : list Disposition.t :=
  match a with
  | Assessment.ACTIONABLE | Assessment.NO_ACTION => [Disposition.COMPLETED]
  | Assessment.BLOCKED => [Disposition.BLOCKED]
  | Assessment.NEEDS_INPUT => [Disposition.NEEDS_INPUT]
  end.
(** The scout part of [validate_result]. *)
Definition validate_scout (r : SubagentResult) : result unit :=
  if bool_decide (sr_role r = SCOUT) then
    match sr_scout_assessment r with
    | None => invalid "scout results require a typed assessment"
    | Some a =>
        let failed_blocked := bool_decide (a = Assessment.BLOCKED)
                              && bool_decide (sr_disposition r = Disposition.FAILED) in
        let budget_failure := failed_blocked && bool_decide ("budget_exceeded" ∈ sr_reason_codes r) in
        let controller_failure := failed_blocked && bool_decide (is_Some (sr_controller_terminal_reason r)) in
        refuse (negb (bool_decide (sr_disposition r ∈ assessment_dispositions a))
                && negb budget_failure && negb controller_failure)
          "scout assessment conflicts with its structured disposition" ;;
        refuse (negb (all_unique (sf_digest <$> sr_scout_findings r))) "scout findings must be unique" ;;
        refuse (existsb (λ f, negb (bool_decide (sf_digest f ∈ sr_evidence_refs r))) (sr_scout_findings r))
          "scout finding digests must be retained as result evidence" ;;
        refuse (bool_decide (a ∈ [Assessment.ACTIONABLE; Assessment.NO_ACTION])
                && bool_decide (sr_scout_findings r = []))
          "positive scout assessments require typed path findings"
    end
  else refuse (bool_decide (is_Some (sr_scout_assessment r)) || negb (bool_decide (sr_scout_findings r = [])))
         "only scout results may carry scout assessment evidence".
Definition validate_SubagentResult (r : SubagentResult) : result SubagentResult :=
  refuse (existsb blank [sr_contract_id r; sr_phase_id r; sr_lease_id r; sr_agent_id r; sr_summary r])
    "result contract, agent, and summary must not be empty" ;;
  refuse (negb (is_digest (sr_contract_hash r))) "contract_hash must be a lowercase sha256 digest" ;;
  refuse (negb (is_digest (sr_plan_hash r))) "plan_hash must bind an immutable swarm plan" ;;
  refuse (bool_decide (sr_role r = ORCHESTRATOR)) "orchestrators do not produce subagent results" ;;
  (late ← dt_lt (sr_finished_at r) (sr_started_at r);
   refuse late "finished_at cannot precede started_at") ;;
  _require_unique (sr_reason_codes r) "reason_codes" ;;
  _require_unique (sr_evidence_refs r) "evidence_refs" ;;
  refuse (existsb (λ e, negb (is_digest e)) (sr_evidence_refs r))
    "evidence_refs must contain lowercase sha256 digests" ;;
  (let completed := bool_decide (sr_disposition r = Disposition.COMPLETED) in
   refuse (completed && bool_decide (sr_evidence_refs r = []))
     "completed child results require immutable evidence" ;;
   refuse (negb completed && bool_decide (sr_reason_codes r = []))
     "non-completed child results require reason codes" ;;
   refuse (match sr_observed_commit r with Some c => negb (is_commit c) | None => false end)
     "observed_commit must be a full lowercase Git object ID" ;;
   refuse (match sr_controller_terminal_reason r with
           | Some reason => blank reason || negb (bool_decide (sr_disposition r = Disposition.FAILED))
                            || negb (bool_decide (reason ∈ sr_reason_codes r))
           | None => false end)
     "controller terminal reason requires a matching FAILED reason code" ;;
   refuse (bool_decide (sr_role r = BUILDER) && completed && bool_decide (sr_observed_commit r = None))
     "completed builder results require an observed commit") ;;
  validate_scout r ;;
  mret r.

Record PhaseReceipt := {
  pr_receipt_id : string; pr_plan_hash : string; pr_identity_hash : string; pr_phase_id : string;
  pr_contract_id : string; pr_contract_hash : string; pr_lease_id : string; pr_role : SwarmRole;
  pr_result_hash : string; pr_disposition : Disposition.t; pr_scout_assessment : option Assessment.t;
  pr_predecessor_receipt_hashes : list string; pr_evidence_refs : list string;
  pr_scout_findings : list ScoutFinding; pr_input_commit : string; pr_output_commit : string;
  pr_result_finished_at : datetime; pr_recorded_at : datetime }.
#[export] Instance PhaseReceipt_eq_dec : EqDecision PhaseReceipt.
Proof. solve_decision. Defined.
Definition validate_PhaseReceipt (r : PhaseReceipt) : result PhaseReceipt :=
  refuse (existsb blank [pr_receipt_id r; pr_phase_id r; pr_contract_id r; pr_lease_id r])
    "phase receipt IDs must not be empty" ;;
  check_each [("plan_hash", pr_plan_hash r); ("identity_hash", pr_identity_hash r);
              ("contract_hash", pr_contract_hash r); ("result_hash", pr_result_hash r)]
    (λ nv, refuse (negb (is_digest nv.2)) (nv.1 +:+ " must be an immutable sha256 digest")) ;;
  _require_unique (pr_predecessor_receipt_hashes r) "predecessor_receipt_hashes" ;;
  _require_unique (pr_evidence_refs r) "evidence_refs" ;;
  refuse (existsb (λ e, negb (is_digest e)) (pr_predecessor_receipt_hashes r))
    "predecessor receipts must be immutable sha256 digests" ;;
  refuse (bool_decide (pr_evidence_refs r = []) || existsb (λ e, negb (is_digest e)) (pr_evidence_refs r))
    "phase receipts require immutable result evidence" ;;
  refuse (negb (is_commit (pr_input_commit r)) || negb (is_commit (pr_output_commit r)))
    "phase receipt commits must be full Git object IDs" ;;
  refuse (negb (all_unique (sf_digest <$> pr_scout_findings r))) "phase receipt scout findings must be unique" ;;
  refuse (negb (bool_decide (pr_role r = SCOUT)) && negb (bool_decide (pr_scout_findings r = [])))
    "only scout receipts may carry scout findings" ;;
  refuse (existsb (λ f, negb (bool_decide (sf_digest f ∈ pr_evidence_refs r))) (pr_scout_findings r))
    "scout finding digests must remain receipt evidence" ;;
  _require_aware (pr_result_finished_at r) "result_finished_at" ;;
  _require_aware (pr_recorded_at r) "recorded_at" ;;
  (early ← dt_lt (pr_recorded_at r) (pr_result_finished_at r);
   refuse early "a phase receipt cannot predate its result") ;;
  mret r.

Record PhaseAuthorization := {
  pa_authorization_id : string; pa_plan_hash : string; pa_identity_hash : string;
  pa_phase_id : string; pa_contract_id : string; pa_contract_hash : string; pa_lease_id : string;
  pa_predecessor_receipt_hashes : list string; pa_input_result_hashes : list string;
  pa_input_evidence_refs : list string; pa_input_commit : string; pa_authorized_by : string;
  pa_authorized_at : datetime }.
#[export] Instance PhaseAuthorization_eq_dec : EqDecision PhaseAuthorization.
Proof. solve_decision. Defined.
Definition validate_PhaseAuthorization (a : PhaseAuthorization) : result PhaseAuthorization :=
  refuse (existsb blank [pa_authorization_id a; pa_phase_id a; pa_contract_id a; pa_lease_id a;
                         pa_authorized_by a]) "phase authorization IDs must not be empty" ;;
  check_each [("plan_hash", pa_plan_hash a); ("identity_hash", pa_identity_hash a);
              ("contract_hash", pa_contract_hash a)]
    (λ nv, refuse (negb (is_digest nv.2)) (nv.1 +:+ " must be an immutable sha256 digest")) ;;
  check_each [("predecessor_receipt_hashes", pa_predecessor_receipt_hashes a);
              ("input_result_hashes", pa_input_result_hashes a);
              ("input_evidence_refs", pa_input_evidence_refs a)]
    (λ nv, _require_unique nv.2 nv.1 ;;
           refuse (bool_decide (nv.2 = []) || existsb (λ e, negb (is_digest e)) nv.2)
             (nv.1 +:+ " require immutable sha256 digests")) ;;
  refuse (negb (is_commit (pa_input_commit a))) "authorization input_commit must be a full Git object ID" ;;
  _require_aware (pa_authorized_at a) "authorized_at" ;;
  mret a.

(** ** Agent-to-agent events *)
Inductive A2AEventKind := ASSIGNMENT | PROGRESS | QUESTION | RESPONSE | CANCELLATION | RESULT.
#[export] Instance A2AEventKind_eq_dec : EqDecision A2AEventKind.
Proof. solve_decision. Defined.
Definition A2AEventKind_value (k : A2AEventKind) : string :=
  match k with
  | ASSIGNMENT => "assignment" | PROGRESS => "progress" | QUESTION => "question"
  | RESPONSE => "response" | CANCELLATION => "cancellation" | RESULT => "result"
  end.
Definition parent_to_child : list A2AEventKind := [ASSIGNMENT; RESPONSE; CANCELLATION].
Definition child_to_parent : list A2AEventKind := [PROGRESS; QUESTION; RESULT].

Record A2AEvent := {
  ae_event_id : string; ae_contract_id : string; ae_contract_hash : string;
  ae_identity : SwarmIdentity; ae_parent_agent_id : string; ae_child_agent_id : string;
  ae_sender_agent_id : string; ae_recipient_agent_id : string; ae_kind : A2AEventKind;
  ae_sequence : Z; ae_body : string; ae_created_at : datetime; ae_prior_event_id : option string;
  ae_payload : list (string * json) }.
#[export] Instance A2AEvent_eq_dec : EqDecision A2AEvent.
Proof. solve_decision. Defined.
Definition validate_A2AEvent (e : A2AEvent) : result A2AEvent :=
  require (1 <=? ae_sequence e) "sequence" ;;
  refuse (existsb blank [ae_event_id e; ae_contract_id e; ae_parent_agent_id e; ae_child_agent_id e;
                         ae_sender_agent_id e; ae_recipient_agent_id e; ae_body e])
    "A2A event identifiers and body must not be empty" ;;
  refuse (negb (is_digest (ae_contract_hash e))) "contract_hash must be a lowercase sha256 digest" ;;
  refuse (bool_decide (ae_parent_agent_id e = ae_child_agent_id e)) "A2A parent and child must be distinct" ;;
  refuse (negb (bool_decide (str_set [ae_sender_agent_id e; ae_recipient_agent_id e]
                             = str_set [ae_parent_agent_id e; ae_child_agent_id e])))
    "A2A messages are restricted to the contract parent/child edge" ;;
  refuse (bool_decide (ae_kind e ∈ parent_to_child)
          && negb (bool_decide (ae_sender_agent_id e = ae_parent_agent_id e)))
    (A2AEventKind_value (ae_kind e) +:+ " events must be sent by the parent") ;;
  refuse (bool_decide (ae_kind e ∈ child_to_parent)
          && negb (bool_decide (ae_sender_agent_id e = ae_child_agent_id e)))
    (A2AEventKind_value (ae_kind e) +:+ " events must be sent by the child") ;;
  mret e.
