(* ===== verification/SwarmDocs.v ===== *)
(** * Deriving swarm documents ([arena/swarm.py], class methods and functions)

    The canonical JSON and content hash of every document, and the derivations:
    findings from their content, results and events from a contract, receipts from
    results, phase inputs from receipts, authorizations from receipts, bound
    contracts from a plan.  The time a caller leaves out ([datetime.now]) is an
    argument. *)
From S2P Require Import Prelude PyDict PyFloat Canonical Models Swarm.
From Stdlib Require Import Ascii.
Local Open Scope Z_scope.

Section docs.
Context {PF : Platform}.

(** ** [model_dump(mode="json", exclude_none=True)] *)
Definition dump_SwarmIdentity (i : SwarmIdentity) : json :=
  JObj (field "card_id" (JStr (si_card_id i)) ++ field "card_hash" (JStr (si_card_hash i)) ++
    field "base_commit" (JStr (si_base_commit i)) ++ field "evidence_id" (JStr (si_evidence_id i)) ++
    field "trajectory_id" (JStr (si_trajectory_id i))).
Definition dump_ExecutionBudget (b : ExecutionBudget) : json :=
  JObj (field "wall_seconds" (JFloat (eb_wall_seconds b)) ++ field "token_limit" (JInt (eb_token_limit b)) ++
    field "tool_call_limit" (JInt (eb_tool_call_limit b)) ++ field "cost_limit" (JFloat (eb_cost_limit b))).
Definition dump_TeamBudget (b : TeamBudget) : json :=
  JObj (field "team_id" (JStr (tb_team_id b)) ++ field "wall_seconds" (JFloat (tb_wall_seconds b)) ++
    field "token_limit" (JInt (tb_token_limit b)) ++ field "tool_call_limit" (JInt (tb_tool_call_limit b)) ++
    field "cost_limit" (JFloat (tb_cost_limit b)) ++ field "max_concurrency" (JInt (tb_max_concurrency b))).
Definition dump_BudgetUsage (u : BudgetUsage) : json :=
  JObj (field "wall_seconds" (JFloat (bu_wall_seconds u)) ++ field "tokens" (JInt (bu_tokens u)) ++
    field "tool_calls" (JInt (bu_tool_calls u)) ++ field "cost" (JFloat (bu_cost u))).
Definition dump_SwarmPhaseSpec (p : SwarmPhaseSpec) : json :=
  JObj (field "phase_id" (JStr (ps_phase_id p)) ++ field "role" (JStr (SwarmRole_value (ps_role p))) ++
    field "contract_ids" (jstrs (ps_contract_ids p)) ++
    field "predecessor_phase_ids" (jstrs (ps_predecessor_phase_ids p))).
Definition dump_SwarmPlan (p : SwarmPlan) : json :=
  JObj (field "schema_version" (JStr "arena.swarm.plan.v1") ++ field "plan_id" (JStr (sp_plan_id p)) ++
    field "identity" (dump_SwarmIdentity (sp_identity p)) ++
    field "phases" (JArr (map dump_SwarmPhaseSpec (sp_phases p))) ++
    field "created_at" (jtime (sp_created_at p))).
Definition dump_ScoutFinding (f : ScoutFinding) : json :=
  JObj (field "path" (JStr (sf_path f)) ++ field_opt true "line" JInt (sf_line f) ++
    field "detail" (JStr (sf_detail f)) ++ field "digest" (JStr (sf_digest f))).
Definition dump_PhaseInput (i : PhaseInput) : json :=
  JObj (field "source_phase_id" (JStr (pi_source_phase_id i)) ++
    field "source_contract_id" (JStr (pi_source_contract_id i)) ++
    field "source_contract_hash" (JStr (pi_source_contract_hash i)) ++
    field "source_role" (JStr (SwarmRole_value (pi_source_role i))) ++
    field "source_receipt_hash" (JStr (pi_source_receipt_hash i)) ++
    field "source_result_hash" (JStr (pi_source_result_hash i)) ++
    field "identity_hash" (JStr (pi_identity_hash i)) ++
    field "evidence_refs" (jstrs (pi_evidence_refs i)) ++
    field "scout_findings" (JArr (map dump_ScoutFinding (pi_scout_findings i))) ++
    field "output_commit" (JStr (pi_output_commit i))).
Definition dump_SubagentContract (c : SubagentContract) : json :=
  JObj (field "schema_version" (JStr "arena.swarm.contract.v2") ++
    field "contract_id" (JStr (sc_contract_id c)) ++ field "team_id" (JStr (sc_team_id c)) ++
    field "identity" (dump_SwarmIdentity (sc_identity c)) ++
    field "plan_hash" (JStr (sc_plan_hash c)) ++ field "phase_id" (JStr (sc_phase_id c)) ++
    field "parent_agent_id" (JStr (sc_parent_agent_id c)) ++
    field "child_agent_id" (JStr (sc_child_agent_id c)) ++
    field "role" (JStr (SwarmRole_value (sc_role c))) ++ field "task" (JStr (sc_task c)) ++
    field "readable_paths" (jstrs (sc_readable_paths c)) ++
    field "writable_paths" (jstrs (sc_writable_paths c)) ++
    field "protected_paths" (jstrs (sc_protected_paths c)) ++
    field "tool_allowlist" (jstrs (sc_tool_allowlist c)) ++
    field "budget" (dump_ExecutionBudget (sc_budget c)) ++
    field "lease_id" (JStr (sc_lease_id c)) ++ field "worktree_id" (JStr (sc_worktree_id c)) ++
    field "issued_at" (jtime (sc_issued_at c)) ++
    field "phase_inputs" (JArr (map dump_PhaseInput (sc_phase_inputs c))) ++
    field_opt true "inputs_bound_at" jtime (sc_inputs_bound_at c)).
Definition dump_SubagentResult (r : SubagentResult) : json :=
  JObj (field "schema_version" (JStr "arena.swarm.result.v2") ++
    field "contract_id" (JStr (sr_contract_id r)) ++ field "contract_hash" (JStr (sr_contract_hash r)) ++
    field "identity" (dump_SwarmIdentity (sr_identity r)) ++
    field "plan_hash" (JStr (sr_plan_hash r)) ++ field "phase_id" (JStr (sr_phase_id r)) ++
    field "lease_id" (JStr (sr_lease_id r)) ++ field "agent_id" (JStr (sr_agent_id r)) ++
    field "role" (JStr (SwarmRole_value (sr_role r))) ++
    field "disposition" (JStr (Disposition.value (sr_disposition r))) ++
    field "summary" (JStr (sr_summary r)) ++ field "reason_codes" (jstrs (sr_reason_codes r)) ++
    field "evidence_refs" (jstrs (sr_evidence_refs r)) ++
    field_opt true "observed_commit" JStr (sr_observed_commit r) ++
    field_opt true "scout_assessment" (JStr ∘ Assessment.value) (sr_scout_assessment r) ++
    field "scout_findings" (JArr (map dump_ScoutFinding (sr_scout_findings r))) ++
    field_opt true "controller_terminal_reason" JStr (sr_controller_terminal_reason r) ++
    field "started_at" (jtime (sr_started_at r)) ++ field "finished_at" (jtime (sr_finished_at r))).
Definition dump_PhaseReceipt (r : PhaseReceipt) : json :=
  JObj (field "schema_version" (JStr "arena.swarm.phase-receipt.v1") ++
    field "receipt_id" (JStr (pr_receipt_id r)) ++ field "plan_hash" (JStr (pr_plan_hash r)) ++
    field "identity_hash" (JStr (pr_identity_hash r)) ++ field "phase_id" (JStr (pr_phase_id r)) ++
    field "contract_id" (JStr (pr_contract_id r)) ++ field "contract_hash" (JStr (pr_contract_hash r)) ++
    field "lease_id" (JStr (pr_lease_id r)) ++ field "role" (JStr (SwarmRole_value (pr_role r))) ++
    field "result_hash" (JStr (pr_result_hash r)) ++
    field "disposition" (JStr (Disposition.value (pr_disposition r))) ++
    field_opt true "scout_assessment" (JStr ∘ Assessment.value) (pr_scout_assessment r) ++
    field "predecessor_receipt_hashes" (jstrs (pr_predecessor_receipt_hashes r)) ++
    field "evidence_refs" (jstrs (pr_evidence_refs r)) ++
    field "scout_findings" (JArr (map dump_ScoutFinding (pr_scout_findings r))) ++
    field "input_commit" (JStr (pr_input_commit r)) ++ field "output_commit" (JStr (pr_output_commit r)) ++
    field "result_finished_at" (jtime (pr_result_finished_at r)) ++
    field "recorded_at" (jtime (pr_recorded_at r))).
Definition dump_PhaseAuthorization (a : PhaseAuthorization) : json :=
  JObj (field "schema_version" (JStr "arena.swarm.phase-authorization.v1") ++
    field "authorization_id" (JStr (pa_authorization_id a)) ++
    field "plan_hash" (JStr (pa_plan_hash a)) ++ field "identity_hash" (JStr (pa_identity_hash a)) ++
    field "phase_id" (JStr (pa_phase_id a)) ++ field "contract_id" (JStr (pa_contract_id a)) ++
    field "contract_hash" (JStr (pa_contract_hash a)) ++ field "lease_id" (JStr (pa_lease_id a)) ++
    field "predecessor_receipt_hashes" (jstrs (pa_predecessor_receipt_hashes a)) ++
    field "input_result_hashes" (jstrs (pa_input_result_hashes a)) ++
    field "input_evidence_refs" (jstrs (pa_input_evidence_refs a)) ++
    field "input_commit" (JStr (pa_input_commit a)) ++
    field "authorized_by" (JStr (pa_authorized_by a)) ++
    field "authorized_at" (jtime (pa_authorized_at a))).
Definition dump_A2AEvent (e : A2AEvent) : json :=
  JObj (field "schema_version" (JStr "arena.swarm.a2a.v1") ++ field "event_id" (JStr (ae_event_id e)) ++
    field "contract_id" (JStr (ae_contract_id e)) ++ field "contract_hash" (JStr (ae_contract_hash e)) ++
    field "identity" (dump_SwarmIdentity (ae_identity e)) ++
    field "parent_agent_id" (JStr (ae_parent_agent_id e)) ++
    field "child_agent_id" (JStr (ae_child_agent_id e)) ++
    field "sender_agent_id" (JStr (ae_sender_agent_id e)) ++
    field "recipient_agent_id" (JStr (ae_recipient_agent_id e)) ++
    field "kind" (JStr (A2AEventKind_value (ae_kind e))) ++ field "sequence" (JInt (ae_sequence e)) ++
    field "body" (JStr (ae_body e)) ++ field "created_at" (jtime (ae_created_at e)) ++
    field_opt true "prior_event_id" JStr (ae_prior_event_id e) ++
    field "payload" (JObj (ae_payload e))).

(** The [content_hash] properties. *)
Definition SwarmIdentity_hash (i : SwarmIdentity) : string := canonical_digest (dump_SwarmIdentity i).
Definition SwarmPlan_hash (p : SwarmPlan) : string := canonical_digest (dump_SwarmPlan p).
Definition SubagentContract_hash (c : SubagentContract) : string := canonical_digest (dump_SubagentContract c).
Definition SubagentResult_hash (r : SubagentResult) : string := canonical_digest (dump_SubagentResult r).
Definition PhaseReceipt_hash (r : PhaseReceipt) : string := canonical_digest (dump_PhaseReceipt r).
Definition PhaseAuthorization_hash (a : PhaseAuthorization) : string :=
  canonical_digest (dump_PhaseAuthorization a).
Definition A2AEvent_hash (e : A2AEvent) : string := canonical_digest (dump_A2AEvent e).

(** ** Scout findings *)
Definition finding_payload (path : string) (line : option Z) (detail : string) : json :=
  JObj (field "path" (JStr path) ++ field_opt false "line" JInt line ++ field "detail" (JStr detail)).
Definition validate_ScoutFinding (f : ScoutFinding) : result ScoutFinding :=
  require (opt_forallb (Z.leb 1) (sf_line f)) "line" ;;
  require ((12 <=? String.length (sf_detail f))%nat && (String.length (sf_detail f) <=? 500)%nat) "detail" ;;
  _validate_relative_path (sf_path f) ;;
  refuse (negb (bool_decide (sf_detail f = strip (sf_detail f)))
          || str_mem (ascii_of_nat 10) (sf_detail f) || str_mem (ascii_of_nat 13) (sf_detail f))
    "scout finding detail must be one normalized line" ;;
  (let lowered := casefold (sf_detail f) in
   refuse (bool_decide (lowered ∈ placeholder_words)
           || existsb (λ item, str_contains item lowered) placeholder_phrases)
     "scout finding detail must not be placeholder prose") ;;
  refuse (negb (bool_decide (sf_digest f
                             = canonical_digest (finding_payload (sf_path f) (sf_line f) (sf_detail f)))))
    "scout finding digest does not match its typed content" ;;
  mret f.
Definition create_ScoutFinding (path : string) (line : option Z) (detail : string) : result ScoutFinding :=
  validate_ScoutFinding {| sf_path := path; sf_line := line; sf_detail := detail;
    sf_digest := canonical_digest (finding_payload path line detail) |}.

(** ** Contracts *)
Definition validate_SubagentContract (c : SubagentContract) : result SubagentContract :=
  refuse (existsb blank [sc_contract_id c; sc_team_id c; sc_phase_id c; sc_parent_agent_id c;
                         sc_child_agent_id c; sc_task c; sc_lease_id c; sc_worktree_id c])
    "swarm contract identifiers and task must not be empty" ;;
  refuse (bool_decide (sc_parent_agent_id c = sc_child_agent_id c))
    "parent and child agent identities must be distinct" ;;
  refuse (negb (is_digest (sc_plan_hash c))) "plan_hash must bind an immutable swarm plan" ;;
  _require_aware (sc_issued_at c) "issued_at" ;;
  refuse (bool_decide (sc_role c = ORCHESTRATOR)) "an orchestrator cannot be assigned as a child role" ;;
  refuse (bool_decide (sc_readable_paths c = [])) "a child requires an explicit readable path scope" ;;
  refuse (bool_decide (sc_tool_allowlist c = [])) "a child requires an explicit tool allowlist" ;;
  _require_unique (sc_readable_paths c) "readable_paths" ;;
  _require_unique (sc_writable_paths c) "writable_paths" ;;
  _require_unique (sc_protected_paths c) "protected_paths" ;;
  _require_unique (sc_tool_allowlist c) "tool_allowlist" ;;
  check_each (sc_readable_paths c ++ sc_writable_paths c ++ sc_protected_paths c) _validate_relative_path ;;
  refuse (bool_decide (sc_role c = BUILDER) && bool_decide (sc_writable_paths c = []))
    "builder contracts require declared writable paths" ;;
  refuse (bool_decide (sc_role c ∈ [SCOUT; TESTER; VERIFIER]) && negb (bool_decide (sc_writable_paths c = [])))
    "contracts must be read-only" ;;
  refuse (existsb (λ w, existsb (_paths_overlap w) (sc_protected_paths c)) (sc_writable_paths c))
    "writable and protected path scopes must not overlap" ;;
  refuse (negb (all_unique (pi_source_contract_id <$> sc_phase_inputs c))
          || negb (all_unique (pi_source_receipt_hash <$> sc_phase_inputs c)))
    "phase inputs must uniquely identify upstream results" ;;
  refuse (negb (bool_decide (sc_phase_inputs c = [])) && bool_decide (sc_inputs_bound_at c = None))
    "downstream phase inputs require a binding timestamp" ;;
  refuse (bool_decide (sc_phase_inputs c = []) && bool_decide (is_Some (sc_inputs_bound_at c)))
    "root contracts cannot claim an input binding timestamp" ;;
  match sc_inputs_bound_at c with Some t => _require_aware t "inputs_bound_at" | None => Ok tt end ;;
  refuse (existsb (λ i, negb (bool_decide (pi_identity_hash i = SwarmIdentity_hash (sc_identity c))))
            (sc_phase_inputs c)) "phase inputs must share the exact swarm identity" ;;
  mret c.

Definition require_contract_plan (c : SubagentContract) (p : SwarmPlan) : result SwarmPhaseSpec :=
  contract_error (negb (bool_decide (sc_identity c = sp_identity p))
                  || negb (bool_decide (sc_plan_hash c = SwarmPlan_hash p)))
    "contract identity or plan hash does not match swarm plan" ;;
  phase ← plan_phase p (sc_phase_id c);
  contract_error (negb (bool_decide (sc_contract_id c ∈ ps_contract_ids phase))
                  || negb (bool_decide (sc_role c = ps_role phase)))
    "contract is not an exact member of its planned phase" ;;
  mret phase.

(** ** Phase inputs *)
Definition from_receipt (r : PhaseReceipt) : result PhaseInput :=
  validate_PhaseInput {|
    pi_source_phase_id := pr_phase_id r; pi_source_contract_id := pr_contract_id r;
    pi_source_contract_hash := pr_contract_hash r; pi_source_role := pr_role r;
    pi_source_receipt_hash := PhaseReceipt_hash r; pi_source_result_hash := pr_result_hash r;
    pi_identity_hash := pr_identity_hash r; pi_evidence_refs := pr_evidence_refs r;
    pi_scout_findings := pr_scout_findings r; pi_output_commit := pr_output_commit r |}.
(** [tuple(sorted((PhaseInput.from_receipt(item) ...), key=source_contract_id))] *)
Definition inputs_of (predecessors : list PhaseReceipt) : result (list PhaseInput) :=
  inputs ← map_result from_receipt predecessors;
  mret (sort_by pi_source_contract_id inputs).

Definition bind_phase_inputs (c : SubagentContract) (predecessors : list PhaseReceipt) (p : SwarmPlan)
    (now : datetime) : result SubagentContract :=
  phase ← require_contract_plan c p;
  contract_error (bool_decide (ps_predecessor_phase_ids phase = []))
    "root contracts must not be bound to phase inputs" ;;
  sources ← map_result (plan_phase p) (ps_predecessor_phase_ids phase);
  (let expected := str_set (concat (ps_contract_ids <$> sources)) in
   contract_error (negb (bool_decide (str_set (pr_contract_id <$> predecessors) = expected))
                   || negb (bool_decide (length predecessors = size expected)))
     "predecessor receipts do not satisfy the exact plan cardinality") ;;
  check_each predecessors (λ r,
    contract_error (negb (bool_decide (pr_plan_hash r = SwarmPlan_hash p)))
      "predecessor receipt belongs to another plan" ;;
    contract_error (negb (bool_decide (pr_identity_hash r = SwarmIdentity_hash (sc_identity c))))
      "predecessor receipt belongs to another swarm identity" ;;
    contract_error (negb (bool_decide (pr_phase_id r ∈ ps_predecessor_phase_ids phase)))
      "predecessor receipt comes from an unplanned phase" ;;
    contract_error (negb (bool_decide (pr_disposition r = Disposition.COMPLETED)))
      "downstream work requires completed predecessor receipts" ;;
    contract_error (bool_decide (pr_role r = SCOUT)
                    && negb (bool_decide (pr_scout_assessment r = Some Assessment.ACTIONABLE)))
      "downstream work requires an actionable scout assessment") ;;
  inputs ← inputs_of predecessors;
  if negb (bool_decide (sc_phase_inputs c = [])) then
    contract_error (negb (bool_decide (sc_phase_inputs c = inputs)))
      "pre-bound phase inputs do not match observed results" ;;
    mret c
  else
    check_each predecessors (λ r,
      early ← dt_lt now (pr_result_finished_at r);
      contract_error early "phase inputs cannot be bound before predecessor results exist") ;;
    validate_SubagentContract (with_inputs inputs (Some now) c).

(** ** Results and receipts *)
Definition result_from_contract (c : SubagentContract) (fields : SubagentResult) : result SubagentResult :=
  validate_SubagentResult {|
    sr_contract_id := sc_contract_id c; sr_contract_hash := SubagentContract_hash c;
    sr_identity := sc_identity c; sr_plan_hash := sc_plan_hash c; sr_phase_id := sc_phase_id c;
    sr_lease_id := sc_lease_id c; sr_agent_id := sc_child_agent_id c; sr_role := sc_role c;
    sr_disposition := sr_disposition fields; sr_summary := sr_summary fields;
    sr_reason_codes := sr_reason_codes fields; sr_evidence_refs := sr_evidence_refs fields;
    sr_observed_commit := sr_observed_commit fields;
    sr_scout_assessment := sr_scout_assessment fields; sr_scout_findings := sr_scout_findings fields;
    sr_controller_terminal_reason := sr_controller_terminal_reason fields;
    sr_started_at := sr_started_at fields; sr_finished_at := sr_finished_at fields |}.

Definition _require_result_contract_binding (c : SubagentContract) (r : SubagentResult) : result unit :=
  contract_error (negb (bool_decide
    ((sr_contract_id r, sr_contract_hash r, sr_identity r, sr_plan_hash r, sr_phase_id r, sr_lease_id r,
      sr_agent_id r, sr_role r) =
     (sc_contract_id c, SubagentContract_hash c, sc_identity c, sc_plan_hash c, sc_phase_id c,
      sc_lease_id c, sc_child_agent_id c, sc_role c))))
    "result is not bound to the exact phase contract".

(** The set of the predecessors' output commits, as a list without repeats. *)
Definition output_commits (predecessors : list PhaseReceipt) : list string :=
  remove_dups (pr_output_commit <$> predecessors).
Definition from_result (c : SubagentContract) (r : SubagentResult) (predecessors : list PhaseReceipt)
    (now : datetime) : result PhaseReceipt :=
  _require_result_contract_binding c r ;;
  expected ← inputs_of predecessors;
  contract_error (negb (bool_decide (sc_phase_inputs c = expected)))
    "phase receipt predecessors do not match contract inputs" ;;
  contract_error (1 <? length (output_commits predecessors))%nat
    "a phase cannot consume conflicting predecessor commits" ;;
  let input_commit := default (si_base_commit (sc_identity c)) (head (output_commits predecessors)) in
  let output_commit := match sr_observed_commit r with
    | Some o => if is_empty_str o then input_commit else o | None => input_commit end in
  validate_PhaseReceipt {|
    pr_receipt_id := sc_contract_id c +:+ ":" +:+ SubagentResult_hash r;
    pr_plan_hash := sc_plan_hash c; pr_identity_hash := SwarmIdentity_hash (sc_identity c);
    pr_phase_id := sc_phase_id c; pr_contract_id := sc_contract_id c;
    pr_contract_hash := SubagentContract_hash c; pr_lease_id := sc_lease_id c; pr_role := sc_role c;
    pr_result_hash := SubagentResult_hash r; pr_disposition := sr_disposition r;
    pr_scout_assessment := sr_scout_assessment r;
    pr_predecessor_receipt_hashes := PhaseReceipt_hash <$> predecessors;
    pr_evidence_refs := sr_evidence_refs r; pr_scout_findings := sr_scout_findings r;
    pr_input_commit := input_commit; pr_output_commit := output_commit;
    pr_result_finished_at := sr_finished_at r; pr_recorded_at := now |}.

(** ** Authorizations *)
Definition issue (c : SubagentContract) (predecessors : list PhaseReceipt) (authorized_by : string)
    (now : datetime) : result PhaseAuthorization :=
  contract_error (bool_decide (sc_phase_inputs c = []) || bool_decide (predecessors = []))
    "only non-root contracts receive phase authorization" ;;
  expected ← inputs_of predecessors;
  contract_error (negb (bool_decide (sc_phase_inputs c = expected)))
    "authorization predecessors do not match contract inputs" ;;
  contract_error (negb (length (output_commits predecessors) =? 1)%nat)
    "authorization requires one exact predecessor commit" ;;
  match sc_inputs_bound_at c with
  | None => contract_error true "authorization cannot predate the contract input binding"
  | Some bound => early ← dt_lt now bound;
      contract_error early "authorization cannot predate the contract input binding"
  end ;;
  validate_PhaseAuthorization {|
    pa_authorization_id := sc_contract_id c +:+ ":authorize:" +:+ SubagentContract_hash c;
    pa_plan_hash := sc_plan_hash c; pa_identity_hash := SwarmIdentity_hash (sc_identity c);
    pa_phase_id := sc_phase_id c; pa_contract_id := sc_contract_id c;
    pa_contract_hash := SubagentContract_hash c; pa_lease_id := sc_lease_id c;
    pa_predecessor_receipt_hashes := PhaseReceipt_hash <$> predecessors;
    pa_input_result_hashes := input_result_hashes c; pa_input_evidence_refs := input_evidence_refs c;
    pa_input_commit := default "" (head (output_commits predecessors));
    pa_authorized_by := authorized_by; pa_authorized_at := now |}.

Definition require_contract (a : PhaseAuthorization) (c : SubagentContract) (orchestrator_id : string) :
    result unit :=
  contract_error (negb (bool_decide (pa_plan_hash a = sc_plan_hash c)
    && bool_decide (pa_identity_hash a = SwarmIdentity_hash (sc_identity c))
    && bool_decide (pa_phase_id a = sc_phase_id c)
    && bool_decide (pa_contract_id a = sc_contract_id c)
    && bool_decide (pa_contract_hash a = SubagentContract_hash c)
    && bool_decide (pa_lease_id a = sc_lease_id c)
    && bool_decide (pa_input_result_hashes a = input_result_hashes c)
    && bool_decide (pa_input_evidence_refs a = input_evidence_refs c)
    && bool_decide (pa_authorized_by a = orchestrator_id)))
    "phase authorization is not bound to the exact contract".

(** ** Events *)
Definition event_from_contract (c : SubagentContract) (fields : A2AEvent) : result A2AEvent :=
  validate_A2AEvent {|
    ae_event_id := ae_event_id fields; ae_contract_id := sc_contract_id c;
    ae_contract_hash := SubagentContract_hash c; ae_identity := sc_identity c;
    ae_parent_agent_id := sc_parent_agent_id c; ae_child_agent_id := sc_child_agent_id c;
    ae_sender_agent_id := ae_sender_agent_id fields;
    ae_recipient_agent_id := ae_recipient_agent_id fields; ae_kind := ae_kind fields;
    ae_sequence := ae_sequence fields; ae_body := ae_body fields;
    ae_created_at := ae_created_at fields; ae_prior_event_id := ae_prior_event_id fields;
    ae_payload := ae_payload fields |}.
End docs.
