(* ===== verification/SwarmFacts.v ===== *)
(** * What the swarm documents guarantee

    Facts about validated plans, contracts, events, receipts and authorizations. *)
From S2P Require Import Prelude PyDict PyFloat Canonical Models Swarm SwarmDocs.
Local Open Scope Z_scope.

(** Read a chain of validator checks from the front. *)
Lemma refuse_ok b msg : refuse b msg = Ok tt ↔ b = false.
Proof. apply err_if_ok. Qed.
Lemma contract_error_ok b msg : contract_error b msg = Ok tt ↔ b = false.
Proof. apply err_if_ok. Qed.
Tactic Notation "check" hyp(H) "as" simple_intropattern(p) := apply bind_unit_ok in H as [p H].
Tactic Notation "check" hyp(H) := apply bind_unit_ok in H as [_ H].

(** ** Paths *)
(** A file, given by its parts, lies under a path scope. *)
Definition under (f : list string) (path : string) : Prop := path_parts path `prefix_of` f.

Lemma overlap_common_file l r :
  path_root l = path_root r → _paths_overlap l r = true ↔ ∃ f, under f l ∧ under f r.
Proof.
  intros Hroot. unfold _paths_overlap, under. rewrite bool_decide_true by done. simpl.
  rewrite orb_true_iff, !bool_decide_eq_true. split.
  - intros [H|H]; [exists (path_parts r)|exists (path_parts l)]; done.
  - intros (f & Hl & Hr). destruct (prefix_weak_total _ _ _ Hl Hr); auto.
Qed.
Lemma overlap_sym l r : _paths_overlap l r = _paths_overlap r l.
Proof.
  unfold _paths_overlap. rewrite orb_comm. f_equal.
  by apply bool_decide_ext.
Qed.
Lemma relative_path_root v : _validate_relative_path v = Ok tt → path_root v = "".
Proof.
  unfold _validate_relative_path. intros H%refuse_ok. rewrite !orb_false_iff in H.
  destruct H as [[[H _] _] _]. by destruct (path_root v).
Qed.

Section facts.
Context {PF : Platform}.

(** What the construction of a contract has checked about its paths. *)
Lemma contract_paths c c' :
  validate_SubagentContract c = Ok c' →
  c' = c ∧ (∀ p, p ∈ sc_readable_paths c ++ sc_writable_paths c ++ sc_protected_paths c →
    _validate_relative_path p = Ok tt) ∧
  (∀ w q, w ∈ sc_writable_paths c → q ∈ sc_protected_paths c → _paths_overlap w q = false) ∧
  (sc_role c = BUILDER ↔ sc_writable_paths c ≠ []) ∧
  (sc_phase_inputs c = [] ↔ sc_inputs_bound_at c = None) ∧
  NoDup (pi_source_contract_id <$> sc_phase_inputs c) ∧
  (∀ i, i ∈ sc_phase_inputs c → pi_identity_hash i = SwarmIdentity_hash (sc_identity c)).
Proof.
  unfold validate_SubagentContract. intros H.
  do 4 check H. check H as Horch. do 6 check H. check H as Hpaths. check H as Hb. check H as Hr.
  check H as Hov. check H as Hu. check H as Hi1. check H as Hi2. check H. check H as Hid.
  injection H as <-.
  apply refuse_ok in Horch, Hb, Hr, Hov, Hu, Hi1, Hi2, Hid. apply check_each_ok in Hpaths.
  rewrite Forall_forall in Hpaths. rewrite orb_false_iff, !negb_false_iff in Hu.
  rewrite !existsb_elem_of_false in *. split_and!; try done.
  - intros w q Hw Hq. specialize (Hov w Hw). simpl in Hov. rewrite existsb_elem_of_false in Hov. by apply Hov.
  - apply bool_decide_eq_false in Horch.
    rewrite andb_false_iff in Hb, Hr. rewrite negb_false_iff, !bool_decide_eq_false, bool_decide_eq_true in *.
    split; [naive_solver|]. intros Hne. destruct (sc_role c); try done; destruct Hr as [Hr|Hr]; try done;
      destruct Hr; set_solver.
  - rewrite andb_false_iff in Hi1, Hi2. rewrite negb_false_iff, !bool_decide_eq_false, !bool_decide_eq_true in *.
    rewrite <- eq_None_not_Some in Hi2. naive_solver.
  - apply all_unique_NoDup, Hu.
  - intros i Hin. specialize (Hid i Hin). simpl in Hid. by rewrite negb_false_iff, bool_decide_eq_true in Hid.
Qed.

(** ** Plans *)
Lemma validate_phases_ok seen phases i q :
  validate_phases seen phases = Ok tt → phases !! i = Some q →
  (∀ d, d ∈ ps_predecessor_phase_ids q → d ∈ ps_phase_id <$> (seen ++ take i phases)) ∧
  (ps_role q = BUILDER → ∀ r, r ∈ predecessor_roles (seen ++ take i phases) q → r = SCOUT) ∧
  (ps_role q = TESTER → predecessor_roles (seen ++ take i phases) q ≠ [] ∧
     ∀ r, r ∈ predecessor_roles (seen ++ take i phases) q → r = BUILDER).
Proof.
  revert seen i. induction phases as [|p phases IH]; intros seen i H Hi; [done|]. simpl in H.
  check H as Hpre. apply bind_unit_ok in H as [Hroles H]. apply bind_unit_ok in Hroles as [Hb Ht].
  destruct i as [|i]; simpl in *.
  - injection Hi as ->. rewrite app_nil_r. apply refuse_ok in Hpre, Hb, Ht.
    rewrite negb_false_iff, forallb_elem_of in Hpre. split_and!.
    + intros d Hd. specialize (Hpre d Hd). by rewrite bool_decide_eq_true in Hpre.
    + intros Hq r Hr. rewrite Hq, bool_decide_true, andb_true_l, negb_false_iff, forallb_elem_of in Hb by done.
      specialize (Hb r Hr). by rewrite bool_decide_eq_true in Hb.
    + intros Hq. rewrite Hq, bool_decide_true, andb_true_l, orb_false_iff, negb_false_iff, forallb_elem_of in Ht by done.
      destruct Ht as [Hne Hall]. split; [by apply bool_decide_eq_false in Hne|].
      intros r Hr. specialize (Hall r Hr). by rewrite bool_decide_eq_true in Hall.
  - replace (seen ++ p :: take i phases) with ((seen ++ [p]) ++ take i phases) by (by rewrite <- app_assoc).
    by apply IH.
Qed.

Lemma filter_by_key {A} (f : A → string) l x :
  NoDup (f <$> l) → x ∈ l → List.filter (λ y, bool_decide (f y = f x)) l = [x].
Proof.
  induction l as [|y l IH]; intros Hnd Hx; [by apply elem_of_nil in Hx|]. simpl in *.
  apply NoDup_cons in Hnd as [Hy Hnd]. apply elem_of_cons in Hx as [->|Hx].
  - rewrite bool_decide_true by done. f_equal. clear IH Hnd. induction l as [|z l IH]; simpl; [done|].
    rewrite fmap_cons in Hy. apply not_elem_of_cons in Hy as [Hz Hy].
    rewrite bool_decide_false by congruence. by apply IH.
  - rewrite bool_decide_false; [by apply IH|]. intros He. destruct Hy. rewrite He. by apply list_elem_of_fmap_2.
Qed.

Lemma plan_checks p : validate_SwarmPlan p = Ok p →
  NoDup (ps_phase_id <$> sp_phases p) ∧ NoDup (concat (ps_contract_ids <$> sp_phases p)) ∧
  validate_phases [] (sp_phases p) = Ok tt.
Proof.
  unfold validate_SwarmPlan. intros H. do 2 check H. check H as Hids. check H as Hcs. check H as Hph.
  apply refuse_ok, negb_false_iff, all_unique_NoDup in Hids, Hcs. done.
Qed.

(** C8: a plan that can be constructed is a DAG in topological order: every
    predecessor of a phase is a strictly earlier phase of the plan, the roles flow
    scout to builder to tester, each phase is the one its name finds, and no
    contract belongs to two phases. *)
Theorem plan_is_topological p i q :
  validate_SwarmPlan p = Ok p → sp_phases p !! i = Some q →
  plan_phase p (ps_phase_id q) = Ok q ∧
  (∀ d, d ∈ ps_predecessor_phase_ids q → ∃ j r, (j < i)%nat ∧ sp_phases p !! j = Some r ∧ ps_phase_id r = d ∧
     (ps_role q = BUILDER → ps_role r = SCOUT) ∧ (ps_role q = TESTER → ps_role r = BUILDER)) ∧
  (ps_role q = TESTER → ps_predecessor_phase_ids q ≠ []) ∧
  (∀ j r c, sp_phases p !! j = Some r → c ∈ ps_contract_ids q → c ∈ ps_contract_ids r → j = i).
Proof.
  intros (Hids & Hcs & Hph)%plan_checks Hi.
  destruct (validate_phases_ok _ _ _ _ Hph Hi) as (Hpre & Hb & Ht). simpl in Hpre, Hb, Ht. split_and!.
  - unfold plan_phase. by rewrite filter_by_key by (done || by eapply list_elem_of_lookup_2).
  - intros d Hd. destruct (proj1 (list_elem_of_fmap _ _ _) (Hpre d Hd)) as (r0 & Hr0 & Hin).
    destruct (find_first (λ q, bool_decide (ps_phase_id q = d)) (take i (sp_phases p))) as [r|] eqn:Hf.
    2:{ rewrite find_first_None in Hf. specialize (Hf r0 Hin). simpl in Hf. apply bool_decide_eq_false in Hf. congruence. }
    destruct (find_first_Some _ _ _ Hf) as [Hr Hrd]. apply bool_decide_eq_true in Hrd.
    apply list_elem_of_lookup in Hr as [j Hj]. apply lookup_take_Some in Hj as [Hj Hlt].
    assert (ps_role r ∈ predecessor_roles (take i (sp_phases p)) q) as Hrole.
    { unfold predecessor_roles. apply list_elem_of_omap. exists d. by rewrite Hf. }
    exists j, r. split_and!; try done; intros Hq; [by apply Hb|by apply Ht].
  - intros Hq Hnil. destruct (Ht Hq) as [Hne _]. apply Hne. unfold predecessor_roles. by rewrite Hnil.
  - intros j r c Hj Hcq Hcr. clear -Hcs Hi Hj Hcq Hcr. revert i j Hi Hj.
    induction (sp_phases p) as [|x l IH]; intros [|i] [|j] Hi Hj; simpl in *; simplify_eq; try done.
    + exfalso. apply NoDup_app in Hcs as (_ & Hd & _). apply (Hd c Hcq). apply elem_of_concat.
      exists (ps_contract_ids r). split; [done|]. apply list_elem_of_fmap_2. by eapply list_elem_of_lookup_2.
    + exfalso. apply NoDup_app in Hcs as (_ & Hd & _). apply (Hd c Hcr). apply elem_of_concat.
      exists (ps_contract_ids q). split; [done|]. apply list_elem_of_fmap_2. by eapply list_elem_of_lookup_2.
    + apply NoDup_app in Hcs as (_ & _ & Hcs). f_equal. by apply IH.
Qed.

(** In a contract that can be constructed no file lies under both a writable
    and a protected path, only builders may write, and a builder has somewhere to
    write. *)
Theorem contract_scopes_disjoint c w q f :
  validate_SubagentContract c = Ok c → w ∈ sc_writable_paths c → q ∈ sc_protected_paths c →
  ¬ (under f w ∧ under f q) ∧ sc_role c = BUILDER.
Proof.
  intros (_ & Hrel & Hov & Hrole & _)%contract_paths Hw Hq. split.
  - intros Hf. assert (_paths_overlap w q = true) as Ht; [|by rewrite Hov in Ht].
    apply overlap_common_file; [|by exists f].
    rewrite !relative_path_root; [done|apply Hrel..]; rewrite !elem_of_app; auto.
  - apply Hrole. intros Hn. rewrite Hn in Hw. by apply elem_of_nil in Hw.
Qed.

(** An event that can be constructed travels along the edge between the
    parent and the child of its contract, in the direction its kind prescribes. *)
Theorem event_travels_edge e :
  validate_A2AEvent e = Ok e →
  ae_parent_agent_id e ≠ ae_child_agent_id e ∧
  (ae_sender_agent_id e, ae_recipient_agent_id e) =
    (if bool_decide (ae_kind e ∈ parent_to_child) then (ae_parent_agent_id e, ae_child_agent_id e)
     else (ae_child_agent_id e, ae_parent_agent_id e)).
Proof.
  unfold validate_A2AEvent. intros H. do 3 check H. check H as Hd. check H as Hset. check H as Hp. check H as Hc.
  apply refuse_ok in Hd, Hset, Hp, Hc. apply bool_decide_eq_false in Hd.
  rewrite negb_false_iff, bool_decide_eq_true in Hset. rewrite !andb_false_iff, !negb_false_iff in *.
  rewrite !bool_decide_eq_false, !bool_decide_eq_true in *. split; [done|].
  assert (∀ x, x ∈ [ae_sender_agent_id e; ae_recipient_agent_id e] ↔
               x ∈ [ae_parent_agent_id e; ae_child_agent_id e]) as Hel.
  { intros x. rewrite <- !elem_of_str_set. by rewrite Hset. }
  assert (ae_kind e ∈ parent_to_child ∨ ae_kind e ∈ child_to_parent) as Hk
    by (destruct (ae_kind e); unfold parent_to_child, child_to_parent; set_solver).
  assert (ae_parent_agent_id e = ae_sender_agent_id e ∨ ae_parent_agent_id e = ae_recipient_agent_id e) as H1.
  { rewrite <- (list_elem_of_singleton (ae_parent_agent_id e) (ae_recipient_agent_id e)), <- elem_of_cons.
    apply Hel. left. }
  assert (ae_child_agent_id e = ae_sender_agent_id e ∨ ae_child_agent_id e = ae_recipient_agent_id e) as H2.
  { rewrite <- (list_elem_of_singleton (ae_child_agent_id e) (ae_recipient_agent_id e)), <- elem_of_cons.
    apply Hel. right. left. }
  clear Hel Hset. case_bool_decide as Hb.
  - destruct Hp as [Hp|Hp]; [done|]. rewrite <- Hp in *. destruct H2; [congruence|by f_equal].
  - destruct Hk as [Hk|Hk]; [done|]. destruct Hc as [Hc|Hc]; [done|]. rewrite <- Hc in *.
    destruct H1; [congruence|by f_equal].
Qed.

(** ** Receipts and authorizations *)
Lemma check_digests_ok xs msg :
  check_each xs (λ nv : string * string, refuse (negb (is_digest nv.2)) (nv.1 +:+ msg)) = Ok tt ↔
  ∀ nv, nv ∈ xs → is_digest nv.2 = true.
Proof.
  rewrite check_each_ok, Forall_forall. split; intros H nv Hin; specialize (H nv Hin).
  - by apply refuse_ok, negb_false_iff in H.
  - by apply refuse_ok, negb_false_iff.
Qed.

Lemma validate_PhaseReceipt_id r r' : validate_PhaseReceipt r = Ok r' → r' = r.
Proof. unfold validate_PhaseReceipt. intros H. do 13 check H. by injection H as <-. Qed.

Lemma from_receipt_ok r :
  validate_PhaseReceipt r = Ok r →
  ∃ i, from_receipt r = Ok i ∧ pi_source_contract_id i = pr_contract_id r ∧
    pi_source_receipt_hash i = PhaseReceipt_hash r ∧ pi_source_result_hash i = pr_result_hash r ∧
    pi_output_commit i = pr_output_commit r ∧ pi_evidence_refs i = pr_evidence_refs r.
Proof.
  unfold validate_PhaseReceipt. intros H. check H as Hblank. check H as Hdig. check H as Hpr.
  check H as Hev. check H as Hprd. check H as Hevd. check H as Hcom. check H as Hu. check H as Hs.
  check H as Hin. clear H. unfold from_receipt.
  match goal with |- context [validate_PhaseInput ?x] => exists x end. split; [|done].
  unfold validate_PhaseInput. cbn [pi_source_phase_id pi_source_contract_id pi_source_contract_hash
    pi_source_role pi_source_receipt_hash pi_source_result_hash pi_identity_hash pi_evidence_refs
    pi_scout_findings pi_output_commit].
  apply refuse_ok in Hblank, Hcom, Hu, Hs, Hin, Hevd.
  rewrite existsb_elem_of_false in Hblank.
  assert (blank (pr_phase_id r) = false ∧ blank (pr_contract_id r) = false) as [-> ->]
    by (split; apply Hblank; set_solver).
  rewrite check_digests_ok in Hdig.
  match goal with |- context [check_each ?xs ?f] => assert (check_each xs f = Ok tt) as -> end.
  { apply check_digests_ok. intros nv Hnv. rewrite !elem_of_cons, elem_of_nil in Hnv.
    destruct Hnv as [->|[->|[->|[->|[]]]]]; simpl; try apply canonical_digest_is_digest.
    - apply (Hdig ("contract_hash", _)). set_solver.
    - apply (Hdig ("result_hash", _)). set_solver.
    - apply (Hdig ("identity_hash", _)). set_solver. }
  rewrite Hev. rewrite orb_false_iff, !negb_false_iff in Hcom. destruct Hcom as [_ ->].
  by rewrite Hevd, Hu, Hs, Hin.
Qed.

Lemma output_commits_elem preds q :
  q ∈ preds → pr_output_commit q ∈ output_commits preds.
Proof. intros H. apply elem_of_remove_dups. by apply list_elem_of_fmap_2. Qed.

Lemma from_result_contract c r preds now rc :
  from_result c r preds now = Ok rc → pr_contract_id rc = sc_contract_id c.
Proof.
  unfold from_result. intros H. check H. apply bind_ok in H as (inputs & _ & H). do 2 check H.
  by rewrite (validate_PhaseReceipt_id _ _ H).
Qed.

(** A receipt made by [from_result] binds exactly this result under this
    contract; all predecessors agree on the input commit, which is the base commit
    of the swarm for a root; and the receipt is always acceptable as the input of a
    later phase, under its own content hash. *)
Theorem receipt_chain c r preds now rc :
  from_result c r preds now = Ok rc →
  pr_result_hash rc = SubagentResult_hash r ∧ pr_contract_hash rc = SubagentContract_hash c ∧
  sr_contract_hash r = SubagentContract_hash c ∧ sr_lease_id r = sc_lease_id c ∧
  (∀ q, q ∈ preds → pr_output_commit q = pr_input_commit rc) ∧
  (preds = [] → pr_input_commit rc = si_base_commit (sc_identity c)) ∧
  pr_predecessor_receipt_hashes rc = PhaseReceipt_hash <$> preds ∧
  ∃ i, from_receipt rc = Ok i ∧ pi_source_receipt_hash i = PhaseReceipt_hash rc ∧
    pi_source_result_hash i = SubagentResult_hash r ∧ pi_output_commit i = pr_output_commit rc.
Proof.
  unfold from_result. intros H. check H as Hbind. apply bind_ok in H as (inputs & Hinputs & H).
  check H as Heq. check H as Hlen.
  apply contract_error_ok, negb_false_iff, bool_decide_eq_true in Hbind.
  apply contract_error_ok, Nat.ltb_ge in Hlen.
  pose proof (validate_PhaseReceipt_id _ _ H) as Hrc.
  assert (validate_PhaseReceipt rc = Ok rc) as Hv by by rewrite <- Hrc in H.
  destruct (from_receipt_ok rc Hv) as (i & Hi & _ & Hi2 & Hi3 & Hi4 & _). clear H.
  rewrite Hrc. cbn [pr_result_hash pr_contract_hash pr_input_commit pr_predecessor_receipt_hashes].
  rewrite <- Hrc. split_and!; try congruence.
  - intros q Hq%output_commits_elem. destruct (output_commits preds) as [|x [|? ?]]; simpl in *;
      [by apply elem_of_nil in Hq| |lia]. by apply list_elem_of_singleton in Hq.
  - by intros ->.
  - exists i. split_and!; [done..| |done]. rewrite Hi3, Hrc. done.
Qed.

(** An authorization issued for a contract is accepted for that contract and
    its issuer; whatever contract it is accepted for has the same content hash,
    lease and issuer; and it never predates the binding of the inputs. *)
Theorem authorization_binds_contract c preds who now a :
  issue c preds who now = Ok a →
  require_contract a c who = Ok tt ∧
  (∀ c' who', require_contract a c' who' = Ok tt →
     SubagentContract_hash c' = SubagentContract_hash c ∧ sc_lease_id c' = sc_lease_id c ∧
     sc_contract_id c' = sc_contract_id c ∧ who' = who) ∧
  (∀ q, q ∈ preds → pr_output_commit q = pa_input_commit a) ∧
  ∃ bound, sc_inputs_bound_at c = Some bound ∧ dt_lt (pa_authorized_at a) bound = Ok false.
Proof.
  unfold issue. intros H. check H. apply bind_ok in H as (inputs & Hinputs & H). check H. check H as Hlen.
  check H as Hbound. apply contract_error_ok, negb_false_iff, Nat.eqb_eq in Hlen.
  match type of H with validate_PhaseAuthorization ?x = _ => assert (a = x) as -> end.
  { unfold validate_PhaseAuthorization in H. do 5 check H. by injection H as <-. }
  clear H. split_and!.
  - unfold require_contract. cbn. by rewrite !bool_decide_true.
  - intros c' who' Hr. unfold require_contract in Hr. cbn in Hr.
    apply contract_error_ok, negb_false_iff in Hr. rewrite !andb_true_iff, !bool_decide_eq_true in Hr.
    destruct Hr as [[[[[[[[? ?] ?] ?] ?] ?] ?] ?] ?]. done.
  - intros q Hq%output_commits_elem. cbn. destruct (output_commits preds) as [|x [|? ?]]; try done.
    by apply list_elem_of_singleton in Hq.
  - destruct (sc_inputs_bound_at c) as [bound|]; [|done]. exists bound. split; [done|]. cbn.
    destruct (dt_lt now bound) as [early|]; [|done]. by apply contract_error_ok in Hbound as ->.
Qed.

(** ** Binding *)
Lemma with_inputs_eta c : c = with_inputs (sc_phase_inputs c) (sc_inputs_bound_at c) c.
Proof. by destruct c. Qed.

Lemma check_each_elem {A} (xs : list A) body : check_each xs body = Ok tt ↔ ∀ x, x ∈ xs → body x = Ok tt.
Proof. by rewrite check_each_ok, Forall_forall. Qed.

(** Binding a contract to predecessor receipts succeeds only when they are
    exactly one completed receipt of this plan and identity for every contract of
    every predecessor phase; it changes nothing but the inputs and their binding
    time, never binds before a predecessor finished, and repeating it returns the
    same contract. *)
Theorem bind_phase_inputs_exact c preds p now c' :
  bind_phase_inputs c preds p now = Ok c' →
  ∃ phase inputs, require_contract_plan c p = Ok phase ∧ inputs_of preds = Ok inputs ∧
    c' = with_inputs inputs (sc_inputs_bound_at c') c ∧
    (∀ id, id ∈ pr_contract_id <$> preds ↔ ∃ d src, d ∈ ps_predecessor_phase_ids phase ∧
       plan_phase p d = Ok src ∧ id ∈ ps_contract_ids src) ∧
    NoDup (pr_contract_id <$> preds) ∧
    (∀ r, r ∈ preds → pr_disposition r = Disposition.COMPLETED ∧ pr_plan_hash r = SwarmPlan_hash p ∧
       pr_identity_hash r = SwarmIdentity_hash (sc_identity c) ∧
       (sc_phase_inputs c = [] → dt_lt now (pr_result_finished_at r) = Ok false)) ∧
    ∀ now', bind_phase_inputs c' preds p now' = Ok c'.
Proof.
  unfold bind_phase_inputs at 1. intros H. apply bind_ok in H as (phase & Hphase & H). check H as Hroot.
  apply bind_ok in H as (sources & Hsrc & H). check H as Hcard. check H as Heach.
  apply bind_ok in H as (inputs & Hin & H). exists phase, inputs.
  assert (c' = with_inputs inputs (sc_inputs_bound_at c') c ∧ sc_phase_inputs c' ≠ [] ∧
    (sc_phase_inputs c = [] → ∀ r, r ∈ preds → dt_lt now (pr_result_finished_at r) = Ok false)) as (Hc' & Hne & Hlate).
  { destruct (bool_decide (sc_phase_inputs c = [])) eqn:Hb; simpl in H.
    - apply bool_decide_eq_true in Hb. check H as Hearly. rewrite check_each_elem in Hearly.
      destruct (contract_paths _ _ H) as (-> & _ & _ & _ & Hbd & _). split_and!; [done| |].
      + intros Hnil. apply Hbd in Hnil. done.
      + intros _ r Hr. specialize (Hearly r Hr). simpl in Hearly.
        destruct (dt_lt now (pr_result_finished_at r)) as [early|]; [|done].
        by apply contract_error_ok in Hearly as ->.
    - apply bool_decide_eq_false in Hb. check H as Heq. injection H as <-.
      apply contract_error_ok, negb_false_iff, bool_decide_eq_true in Heq. rewrite <- Heq.
      split_and!; [apply with_inputs_eta|done|done]. }
  pose proof Hcard as Hcard'. apply contract_error_ok in Hcard.
  rewrite orb_false_iff, !negb_false_iff, !bool_decide_eq_true in Hcard. destruct Hcard as [Hset Hsize].
  pose proof Heach as Heach'. rewrite check_each_elem in Heach. split_and!; try done.
  - intros id. rewrite <- elem_of_str_set, Hset, elem_of_str_set, elem_of_concat.
    split.
    + intros (l & Hl & (src & -> & Hs)%list_elem_of_fmap).
      apply (map_result_elem _ _ _ _ Hsrc) in Hs as (d & Hd & Hp). by exists d, src.
    + intros (d & src & Hd & Hp & Hid). exists (ps_contract_ids src). split; [done|].
      apply list_elem_of_fmap_2, (map_result_elem _ _ _ _ Hsrc). by exists d.
  - apply str_set_NoDup. by rewrite Hset, length_fmap.
  - intros r Hr. specialize (Heach r Hr). simpl in Heach. check Heach as H1. check Heach as H2. check Heach.
    check Heach as H4. apply contract_error_ok, negb_false_iff, bool_decide_eq_true in H1, H2, H4.
    split_and!; try done. intros Hnil. by apply Hlate.
  - intros now'. rewrite Hc' in *. clear Hc'. unfold bind_phase_inputs.
    change (require_contract_plan (with_inputs ?i ?b c) p) with (require_contract_plan c p).
    rewrite Hphase. cbn [mbind result_bind]. rewrite Hroot. cbn [mbind result_bind]. rewrite Hsrc.
    cbn [mbind result_bind]. rewrite Hcard'. cbn [mbind result_bind].
    change (sc_identity (with_inputs ?i ?b c)) with (sc_identity c). rewrite Heach'. cbn [mbind result_bind].
    rewrite Hin. cbn [mbind result_bind sc_phase_inputs with_inputs] in *.
    rewrite (bool_decide_false (inputs = [])), (bool_decide_true (inputs = inputs)) by done. done.
Qed.
End facts.
