(* ===== verification/Ledger.v ===== *)
(** * The team budget ledger ([arena/swarm.py], [TeamBudgetLedger])

    Reservations of child contracts against one team budget.  Token and tool-call
    limits are integers; wall time and cost are floats whose sums round. *)
From S2P Require Import Prelude PyDict PyFloat Canonical Models Swarm SwarmDocs SwarmFacts.
Local Open Scope Z_scope.

Record TeamBudgetLedger := {
  budget : TeamBudget;
  _consumed : BudgetUsage;
  _active : dict string SubagentContract;
  _settled : dict string BudgetUsage;
}.
Definition new_TeamBudgetLedger (b : TeamBudget) : TeamBudgetLedger :=
  {| budget := b; _consumed := no_usage; _active := ∅; _settled := ∅ |}.

Definition _reservation_usage (c : SubagentContract) : result BudgetUsage :=
  validate_BudgetUsage {|
    bu_wall_seconds := eb_wall_seconds (sc_budget c); bu_tokens := eb_token_limit (sc_budget c);
    bu_tool_calls := eb_tool_call_limit (sc_budget c); bu_cost := eb_cost_limit (sc_budget c) |}.
Fixpoint sum_reservations (reserved : BudgetUsage) (cs : list SubagentContract) : result BudgetUsage :=
  match cs with
  | [] => mret reserved
  | c :: cs => u ← _reservation_usage c; reserved' ← usage_plus reserved u; sum_reservations reserved' cs
  end.
Definition _reserved (l : TeamBudgetLedger) : result BudgetUsage :=
  sum_reservations no_usage (vals (_active l)).

Definition _require_exclusive_write_scope (candidate : SubagentContract) (l : TeamBudgetLedger) : result unit :=
  match sc_writable_paths candidate with
  | [] => mret tt
  | _ => check_each (vals (_active l)) (λ active,
      if negb (bool_decide (sc_worktree_id active = sc_worktree_id candidate)) then mret tt
      else contract_error (existsb (λ left, existsb (_paths_overlap left) (sc_writable_paths candidate))
                             (sc_writable_paths active))
             "active children cannot share an overlapping writable scope in one worktree")
  end.
Definition _require_within_contract (usage : BudgetUsage) (limit : ExecutionBudget) : result unit :=
  err_if ((eb_wall_seconds limit <? bu_wall_seconds usage) || (eb_token_limit limit <? bu_tokens usage)
          || (eb_tool_call_limit limit <? bu_tool_calls usage) || (eb_cost_limit limit <? bu_cost usage))
    BudgetExceededError "reported usage exceeds the child reservation".
Definition _require_within_team (usage : BudgetUsage) (b : TeamBudget) : result unit :=
  err_if ((tb_wall_seconds b <? bu_wall_seconds usage) || (tb_token_limit b <? bu_tokens usage)
          || (tb_tool_call_limit b <? bu_tool_calls usage) || (tb_cost_limit b <? bu_cost usage))
    BudgetExceededError "aggregate child work exceeds the team budget".

Definition reserve (c : SubagentContract) : prog TeamBudgetLedger unit :=
  l ← gets (λ l, l);
  raise_if (negb (bool_decide (sc_team_id c = tb_team_id (budget l)))) SwarmContractError
    "contract belongs to a different team budget" ;;
  raise_if (has_key (sc_contract_id c) (_active l) || has_key (sc_contract_id c) (_settled l))
    SwarmContractError "contract budget has already been reserved or settled" ;;
  raise_if (tb_max_concurrency (budget l) <=? Z.of_nat (size (_active l))) BudgetExceededError
    "team concurrency budget exhausted" ;;
  lift (_require_exclusive_write_scope c l) ;;
  requested ← lift (_reservation_usage c);
  reserved ← lift (_reserved l);
  allocated ← lift (usage_plus (_consumed l) reserved);
  projected ← lift (usage_plus allocated requested);
  lift (_require_within_team projected (budget l)) ;;
  modify (λ l, {| budget := budget l; _consumed := _consumed l;
                  _active := <[sc_contract_id c := c]> (_active l); _settled := _settled l |}).

Definition settle (contract_id : string) (usage : BudgetUsage) : prog TeamBudgetLedger unit :=
  l ← gets (λ l, l);
  match _active l !! contract_id with
  | None => raise SwarmContractError "only an active reservation may be settled"
  | Some c =>
      lift (_require_within_contract usage (sc_budget c)) ;;
      projected ← lift (usage_plus (_consumed l) usage);
      lift (_require_within_team projected (budget l)) ;;
      modify (λ l, {| budget := budget l; _consumed := projected;
                      _active := delete contract_id (_active l);
                      _settled := <[contract_id := usage]> (_settled l) |})
  end.

Record TeamBudgetSnapshot := {
  ts_team_id : string; ts_consumed : BudgetUsage; ts_reserved : BudgetUsage; ts_remaining : BudgetUsage;
  ts_active_contract_ids : list string }.
Definition ledger_snapshot (l : TeamBudgetLedger) : result TeamBudgetSnapshot :=
  reserved ← _reserved l;
  allocated ← usage_plus (_consumed l) reserved;
  remaining ← validate_BudgetUsage {|
    bu_wall_seconds := fsub (tb_wall_seconds (budget l)) (bu_wall_seconds allocated);
    bu_tokens := tb_token_limit (budget l) - bu_tokens allocated;
    bu_tool_calls := tb_tool_call_limit (budget l) - bu_tool_calls allocated;
    bu_cost := fsub (tb_cost_limit (budget l)) (bu_cost allocated) |};
  mret {| ts_team_id := tb_team_id (budget l); ts_consumed := _consumed l; ts_reserved := reserved;
          ts_remaining := remaining; ts_active_contract_ids := sorted_str (keys (_active l)) |}.

(** ** Invariant *)
Definition usage_valid (u : BudgetUsage) : Prop :=
  0 <= bu_wall_seconds u ∧ 0 <= bu_tokens u ∧ 0 <= bu_tool_calls u ∧ 0 <= bu_cost u.
Definition usage_within (u : BudgetUsage) (b : TeamBudget) : Prop :=
  bu_wall_seconds u <= tb_wall_seconds b ∧ bu_tokens u <= tb_token_limit b ∧
  bu_tool_calls u <= tb_tool_call_limit b ∧ bu_cost u <= tb_cost_limit b.
(** What the live contracts may still spend of an integer dimension. *)
Definition outstanding (q : ExecutionBudget → Z) (l : TeamBudgetLedger) : Z :=
  zsum (λ c, q (sc_budget c)) (vals (_active l)).
(** Two contracts may write under a common path of a common worktree. *)
Definition writes_clash (a b : SubagentContract) : Prop :=
  sc_worktree_id a = sc_worktree_id b ∧
  ∃ x y, x ∈ sc_writable_paths a ∧ y ∈ sc_writable_paths b ∧ _paths_overlap x y = true.

Record ledger_inv (l : TeamBudgetLedger) : Prop := {
  led_active_wf : dict_wf (_active l);
  led_id k c : _active l !! k = Some c → sc_contract_id c = k ∧ sc_team_id c = tb_team_id (budget l);
  led_budget k c : _active l !! k = Some c → 0 <= eb_token_limit (sc_budget c) ∧ 0 <= eb_tool_call_limit (sc_budget c);
  led_disjoint k : is_Some (_active l !! k) → _settled l !! k = None;
  led_consumed : usage_valid (_consumed l) ∧ usage_within (_consumed l) (budget l);
  led_tokens : bu_tokens (_consumed l) + outstanding eb_token_limit l <= tb_token_limit (budget l);
  led_tools : bu_tool_calls (_consumed l) + outstanding eb_tool_call_limit l <= tb_tool_call_limit (budget l);
  led_concurrency : Z.of_nat (size (_active l)) <= tb_max_concurrency (budget l);
  led_scopes i j a b : _active l !! i = Some a → _active l !! j = Some b → i ≠ j → ¬ writes_clash a b;
}.

Lemma validate_BudgetUsage_ok u u' : validate_BudgetUsage u = Ok u' ↔ u' = u ∧ usage_valid u.
Proof.
  unfold validate_BudgetUsage, usage_valid. rewrite !bind_unit_ok, !require_ok, !Z.leb_le.
  split; [intros (? & ? & ? & ? & [= ->]); done|]. intros (-> & ? & ? & ? & ?). done.
Qed.
Lemma usage_plus_ok a b u :
  usage_plus a b = Ok u →
  bu_tokens u = bu_tokens a + bu_tokens b ∧ bu_tool_calls u = bu_tool_calls a + bu_tool_calls b ∧
  bu_wall_seconds u = fadd (bu_wall_seconds a) (bu_wall_seconds b) ∧
  bu_cost u = fadd (bu_cost a) (bu_cost b) ∧ usage_valid u.
Proof. intros [-> H]%validate_BudgetUsage_ok. done. Qed.
Lemma usage_plus_total a b : usage_valid a → usage_valid b → ∃ u, usage_plus a b = Ok u.
Proof.
  intros (? & ? & ? & ?) (? & ? & ? & ?). eexists. apply validate_BudgetUsage_ok. split; [done|].
  split_and!; simpl; try lia; by apply fadd_nonneg.
Qed.

Lemma sum_reservations_ok r cs u :
  sum_reservations r cs = Ok u →
  bu_tokens u = bu_tokens r + zsum (λ c, eb_token_limit (sc_budget c)) cs ∧
  bu_tool_calls u = bu_tool_calls r + zsum (λ c, eb_tool_call_limit (sc_budget c)) cs.
Proof.
  revert r. induction cs as [|c cs IH]; intros r; simpl; [intros [= ->]; lia|].
  intros H. apply bind_ok in H as (v & [-> _]%validate_BudgetUsage_ok & H).
  apply bind_ok in H as (r' & Hr & H). apply usage_plus_ok in Hr as (Ht & Hc & _).
  apply IH in H as [-> ->]. rewrite Ht, Hc. simpl. lia.
Qed.

Lemma within_team_ok u b : _require_within_team u b = Ok tt ↔ usage_within u b.
Proof.
  unfold _require_within_team, usage_within. rewrite err_if_ok, !orb_false_iff, !Z.ltb_ge. tauto.
Qed.
Lemma within_contract_ok u b : _require_within_contract u b = Ok tt ↔
  bu_wall_seconds u <= eb_wall_seconds b ∧ bu_tokens u <= eb_token_limit b ∧
  bu_tool_calls u <= eb_tool_call_limit b ∧ bu_cost u <= eb_cost_limit b.
Proof. unfold _require_within_contract. rewrite err_if_ok, !orb_false_iff, !Z.ltb_ge. tauto. Qed.

Lemma exclusive_scope_ok c l :
  _require_exclusive_write_scope c l = Ok tt → ∀ a, a ∈ vals (_active l) → ¬ writes_clash a c.
Proof.
  unfold _require_exclusive_write_scope. intros H a Ha (Hw & x & y & Hx & Hy & Hov).
  destruct (sc_writable_paths c) as [|p ps] eqn:Hp; [by apply elem_of_nil in Hy|].
  rewrite check_each_elem in H. specialize (H a Ha). simpl in H. rewrite bool_decide_true in H by done.
  simpl in H. apply contract_error_ok in H. rewrite existsb_elem_of_false in H. specialize (H x Hx).
  cbv beta in H. change (?a || existsb ?f ps) with (existsb (_paths_overlap x) (p :: ps)) in H.
  rewrite existsb_elem_of_false in H. rewrite (H y Hy) in Hov. done.
Qed.

Lemma writes_clash_sym a b : writes_clash a b → writes_clash b a.
Proof.
  intros (Hw & x & y & Hx & Hy & Ho). split; [done|]. exists y, x. by rewrite overlap_sym.
Qed.

(** What a successful reservation has checked. *)
Lemma reserve_inv c l l' r :
  reserve c l = (l', r) →
  (is_ok r = false ∧ l' = l) ∨
  (r = Ok tt ∧ sc_team_id c = tb_team_id (budget l) ∧
   _active l !! sc_contract_id c = None ∧ _settled l !! sc_contract_id c = None ∧
   Z.of_nat (size (_active l)) < tb_max_concurrency (budget l) ∧
   (∀ a, a ∈ vals (_active l) → ¬ writes_clash a c) ∧
   0 <= eb_token_limit (sc_budget c) ∧ 0 <= eb_tool_call_limit (sc_budget c) ∧
   bu_tokens (_consumed l) + outstanding eb_token_limit l + eb_token_limit (sc_budget c)
     <= tb_token_limit (budget l) ∧
   bu_tool_calls (_consumed l) + outstanding eb_tool_call_limit l + eb_tool_call_limit (sc_budget c)
     <= tb_tool_call_limit (budget l) ∧
   l' = {| budget := budget l; _consumed := _consumed l;
           _active := <[sc_contract_id c := c]> (_active l); _settled := _settled l |}).
Proof.
  unfold reserve. prog_step. destruct (bool_decide (sc_team_id c = _)) eqn:Ht; simpl negb; cbn iota;
    [|intros [= <- <-]; by left]. prog_step.
  destruct (has_key (sc_contract_id c) (_active l)) eqn:Ha; [intros [= <- <-]; by left|].
  destruct (has_key (sc_contract_id c) (_settled l)) eqn:Hs; [intros [= <- <-]; by left|]. simpl orb. cbn iota.
  prog_step. destruct (_ <=? _) eqn:Hn; [intros [= <- <-]; by left|]. prog_step.
  destruct (_require_exclusive_write_scope c l) as [[]|] eqn:Hex; [|intros [= <- <-]; by left]. prog_step.
  destruct (_reservation_usage c) as [u|] eqn:Hu; [|intros [= <- <-]; by left]. prog_step.
  destruct (_reserved l) as [rs|] eqn:Hrs; [|intros [= <- <-]; by left]. prog_step.
  destruct (usage_plus (_consumed l) rs) as [al|] eqn:Hal; [|intros [= <- <-]; by left]. prog_step.
  destruct (usage_plus al u) as [pr|] eqn:Hpr; [|intros [= <- <-]; by left]. prog_step.
  destruct (_require_within_team pr (budget l)) as [[]|] eqn:Hw; [|intros [= <- <-]; by left].
  intros [= <- <-]. right.
  apply bool_decide_eq_true in Ht. apply has_key_false in Ha, Hs. apply Z.leb_gt in Hn.
  apply validate_BudgetUsage_ok in Hu as [-> (_ & Hu1 & Hu2 & _)].
  apply within_team_ok in Hw as (_ & Hw1 & Hw2 & _).
  apply usage_plus_ok in Hal as (Hal1 & Hal2 & _), Hpr as (Hpr1 & Hpr2 & _).
  apply sum_reservations_ok in Hrs as [Hrs1 Hrs2]. simpl in *. unfold outstanding.
  split_and!; try done; try lia. by apply exclusive_scope_ok.
Qed.

(** ... and a successful settlement. *)
Lemma settle_inv k u l l' r :
  settle k u l = (l', r) →
  (is_ok r = false ∧ l' = l) ∨
  (∃ c p, r = Ok tt ∧ _active l !! k = Some c ∧
   bu_tokens u <= eb_token_limit (sc_budget c) ∧ bu_tool_calls u <= eb_tool_call_limit (sc_budget c) ∧
   usage_plus (_consumed l) u = Ok p ∧ usage_within p (budget l) ∧
   l' = {| budget := budget l; _consumed := p; _active := delete k (_active l);
           _settled := <[k := u]> (_settled l) |}).
Proof.
  unfold settle. prog_step. destruct (_active l !! k) as [c|] eqn:Hc; [|intros [= <- <-]; by left]. prog_step.
  destruct (_require_within_contract u (sc_budget c)) as [[]|] eqn:Hw; [|intros [= <- <-]; by left]. prog_step.
  destruct (usage_plus (_consumed l) u) as [p|] eqn:Hp; [|intros [= <- <-]; by left]. prog_step.
  destruct (_require_within_team p (budget l)) as [[]|] eqn:Ht; [|intros [= <- <-]; by left].
  intros [= <- <-]. right. apply within_contract_ok in Hw as (_ & H1 & H2 & _). apply within_team_ok in Ht.
  exists c, p. done.
Qed.

Lemma outstanding_split q (l l' : TeamBudgetLedger) k c :
  _active l !! k = Some c → _active l' = delete k (_active l) →
  outstanding q l = q (sc_budget c) + outstanding q l'.
Proof.
  intros Hc Hd. unfold outstanding. rewrite Hd.
  destruct (items_insert_split _ _ c _ Hc) as (l1 & l2 & H1 & _ & H3). unfold vals.
  rewrite H1, H3, !fmap_app, fmap_cons, !zsum_app. simpl. lia.
Qed.
Lemma outstanding_insert q (l l' : TeamBudgetLedger) k c :
  _active l !! k = None → _active l' = <[k := c]> (_active l) →
  outstanding q l' = outstanding q l + q (sc_budget c).
Proof.
  intros Hc Hi. unfold outstanding. rewrite Hi, vals_insert_fresh, zsum_app by done. simpl. lia.
Qed.

Lemma size_insert_fresh {V} (d : dict string V) k v : d !! k = None → size (<[k:=v]> d) = S (size d).
Proof.
  intros H. unfold size, dict_size. rewrite items_insert_fresh, length_app by done. simpl. lia.
Qed.
Lemma size_delete {V} (d : dict string V) k v : d !! k = Some v → (size (delete k d) ≤ size d)%nat.
Proof.
  intros H. destruct (items_insert_split _ _ v _ H) as (l1 & l2 & H1 & _ & H3).
  unfold size, dict_size. rewrite H1, H3, !length_app. simpl. lia.
Qed.

Lemma reserve_preserves c : Preserves ledger_inv (reserve c).
Proof.
  intros l Hi. destruct (reserve c l) as [l' r] eqn:H. simpl.
  destruct (reserve_inv _ _ _ _ H) as [[_ ->]|(_ & Ht & Ha & Hs & Hn & Hex & H1 & H2 & H3 & H4 & ->)]; [done|].
  pose proof (λ q, outstanding_insert q l {| budget := budget l; _consumed := _consumed l;
    _active := <[sc_contract_id c := c]> (_active l); _settled := _settled l |} _ c Ha eq_refl) as Hout.
  destruct Hi as [Hwf Hid Hb Hd Hc Htok Htool Hcon Hsc]. split; cbn [budget _consumed _active _settled]; try done.
  - by apply dict_wf_insert.
  - intros k x Hx. dict_cases; [done|by apply Hid].
  - intros k x Hx. dict_cases; [done|by eapply Hb].
  - intros k Hk. dict_cases; [done|by apply Hd].
  - rewrite Hout. lia.
  - rewrite Hout. lia.
  - rewrite size_insert_fresh by done. lia.
  - intros i j a b Ha' Hb' Hij. dict_cases; try done; [| |by eapply Hsc].
    + eapply Hex, dict_lookup_vals, Ha'.
    + intros Hcl%writes_clash_sym. eapply Hex, Hcl. by eapply dict_lookup_vals.
Qed.

Lemma settle_preserves k u : Preserves ledger_inv (settle k u).
Proof.
  intros l Hi. destruct (settle k u l) as [l' r] eqn:H. simpl.
  destruct (settle_inv _ _ _ _ _ H) as [[_ ->]|(c & p & _ & Hk & H1 & H2 & Hp & Hw & Hl)]; [done|].
  destruct Hi as [Hwf Hid Hb Hd Hc Htok Htool Hcon Hsc].
  pose proof (λ q, outstanding_split q l l' k c Hk (f_equal _active Hl)) as Hout. rewrite !Hout in *. subst l'.
  apply usage_plus_ok in Hp as (Hp1 & Hp2 & _ & _ & Hpv).
  split; cbn [budget _consumed _active _settled].
  - by apply dict_wf_delete.
  - intros i x. rewrite dict_lookup_delete by done. case_decide; [done|]. apply Hid.
  - intros i x. rewrite dict_lookup_delete by done. case_decide; [done|]. apply Hb.
  - intros i. rewrite dict_lookup_delete by done. case_decide; [by intros [? ?]|]. intros Hi.
    rewrite dict_lookup_insert_ne by done. by apply Hd.
  - done.
  - lia.
  - lia.
  - pose proof (size_delete _ _ _ Hk). lia.
  - intros i j a b. rewrite !dict_lookup_delete by done. do 2 (case_decide; [done|]). apply Hsc.
Qed.

(** ** Properties *)
Inductive ledger_reachable (b : TeamBudget) : TeamBudgetLedger → Prop :=
  | ledger_new : validate_TeamBudget b = Ok b → ledger_reachable b (new_TeamBudgetLedger b)
  | ledger_reserve c l : ledger_reachable b l → ledger_reachable b (reserve c l).1
  | ledger_settle k u l : ledger_reachable b l → ledger_reachable b (settle k u l).1.

Lemma validate_TeamBudget_ok b : validate_TeamBudget b = Ok b →
  0 < tb_wall_seconds b ∧ 0 < tb_token_limit b ∧ 0 < tb_tool_call_limit b ∧ 0 <= tb_cost_limit b ∧
  0 < tb_max_concurrency b.
Proof.
  unfold validate_TeamBudget. rewrite !bind_unit_ok, !require_ok, Z.leb_le, !Z.ltb_lt. tauto.
Qed.

Lemma ledger_reachable_inv b l : ledger_reachable b l → ledger_inv l ∧ budget l = b.
Proof.
  induction 1 as [Hb|c l _ [IH Hb]|k u l _ [IH Hb]].
  - apply validate_TeamBudget_ok in Hb as (? & ? & ? & ? & ?). split; [|done].
    split; simpl; unfold outstanding, usage_valid, usage_within; simpl; try apply dict_wf_empty; try lia; try done.
    unfold size, dict_size. simpl. lia.
  - split; [by apply reserve_preserves|]. destruct (reserve c l) as [l' r] eqn:H. simpl.
    destruct (reserve_inv _ _ _ _ H) as [[_ ->]|H']; [done|]. destruct_and! H'. by subst l'.
  - split; [by apply settle_preserves|]. destruct (settle k u l) as [l' r] eqn:H. simpl.
    destruct (settle_inv _ _ _ _ _ H) as [[_ ->]|(c & p & _ & _ & _ & _ & _ & _ & ->)]; done.
Qed.

Lemma ledger_reachable_valid b l : ledger_reachable b l → validate_TeamBudget b = Ok b.
Proof. by induction 1. Qed.

(** C9: the ledger never overbooks.  In every reachable state what is consumed
    stays within the team budget in all four dimensions, consumed and outstanding
    tokens and tool calls together stay within it too, no more children are live
    than the concurrency allows, and no two live children of one worktree may
    write under a common path. *)
Theorem ledger_never_overbooked b l :
  ledger_reachable b l →
  usage_within (_consumed l) b ∧
  bu_tokens (_consumed l) + outstanding eb_token_limit l <= tb_token_limit b ∧
  bu_tool_calls (_consumed l) + outstanding eb_tool_call_limit l <= tb_tool_call_limit b ∧
  Z.of_nat (size (_active l)) <= tb_max_concurrency b ∧
  ∀ i j x y, _active l !! i = Some x → _active l !! j = Some y → i ≠ j → ¬ writes_clash x y.
Proof. intros [[_ _ _ _ [_ ?] ? ? ? ?] <-]%ledger_reachable_inv. done. Qed.

Lemma outstanding_ge q l k c :
  _active l !! k = Some c → (∀ k c, _active l !! k = Some c → 0 <= q (sc_budget c)) → dict_wf (_active l) →
  q (sc_budget c) <= outstanding q l.
Proof.
  intros Hk Hq Hwf. set (l' := {| budget := budget l; _consumed := _consumed l;
    _active := delete k (_active l); _settled := _settled l |}).
  rewrite (outstanding_split q l l' k c Hk eq_refl). enough (0 <= outstanding q l') by lia.
  transitivity (zsum (λ _ : SubagentContract, 0) (vals (_active l'))).
  { clear. induction (vals (_active l')); simpl; lia. }
  apply zsum_mono. intros x (j & Hj)%elem_of_vals; [|by apply dict_wf_delete].
  simpl in Hj. rewrite dict_lookup_delete in Hj by done. case_decide; [done|]. by eapply Hq.
Qed.

(** the life of a reservation.  A contract can be settled only while it is
    active, and then settlement succeeds exactly when the usage is within the
    contract and the two rounded float sums are within the team budget: the
    integer limits can no longer fail.  Afterwards the contract can be neither
    reserved nor settled again. *)
Theorem settle_exact b l k u :
  ledger_reachable b l → usage_valid u →
  match _active l !! k with
  | None => settle k u l = (l, Err (Exn SwarmContractError "only an active reservation may be settled"))
  | Some c =>
      (is_ok (settle k u l).2 = true ↔
        _require_within_contract u (sc_budget c) = Ok tt ∧
        fadd (bu_wall_seconds (_consumed l)) (bu_wall_seconds u) <= tb_wall_seconds b ∧
        fadd (bu_cost (_consumed l)) (bu_cost u) <= tb_cost_limit b) ∧
      (is_ok (settle k u l).2 = true → ∀ c' u', sc_contract_id c' = k →
        is_ok (reserve c' (settle k u l).1).2 = false ∧ is_ok (settle k u' (settle k u l).1).2 = false)
  end.
Proof.
  intros [Hi Hb]%ledger_reachable_inv Hu. destruct (_active l !! k) as [c|] eqn:Hk.
  2:{ unfold settle. prog_step. by rewrite Hk. }
  destruct (usage_plus_total (_consumed l) u) as [p Hp]; [apply (led_consumed _ Hi)|done|].
  pose proof (usage_plus_ok _ _ _ Hp) as (Hp1 & Hp2 & Hp3 & Hp4 & _).
  assert (_require_within_contract u (sc_budget c) = Ok tt →
    (_require_within_team p (budget l) = Ok tt ↔
     fadd (bu_wall_seconds (_consumed l)) (bu_wall_seconds u) <= tb_wall_seconds b ∧
     fadd (bu_cost (_consumed l)) (bu_cost u) <= tb_cost_limit b)) as Hteam.
  { intros (_ & H1 & H2 & _)%within_contract_ok. rewrite within_team_ok. unfold usage_within.
    rewrite <- Hp3, <- Hp4, <- Hb. pose proof (led_tokens _ Hi). pose proof (led_tools _ Hi).
    pose proof (outstanding_ge eb_token_limit l k c Hk (λ k c H, proj1 (led_budget _ Hi k c H)) (led_active_wf _ Hi)).
    pose proof (outstanding_ge eb_tool_call_limit l k c Hk (λ k c H, proj2 (led_budget _ Hi k c H)) (led_active_wf _ Hi)).
    intuition lia. }
  split.
  - unfold settle. prog_step. rewrite Hk. prog_step.
    destruct (_require_within_contract u (sc_budget c)) as [[]|] eqn:Hw; [|split; [done|by intros [? _]]].
    rewrite <- Hteam by done. prog_step. rewrite Hp. prog_step.
    destruct (_require_within_team p (budget l)) as [[]|] eqn:Ht; [|split; [done|by intros [_ ?]]]. done.
  - intros Hok c' u' <-. destruct (settle (sc_contract_id c') u l) as [l' r] eqn:Hs. simpl in *.
    destruct (settle_inv _ _ _ _ _ Hs) as [[Hf _]|(? & ? & _ & _ & _ & _ & _ & _ & ->)]; [congruence|].
    split.
    + unfold reserve. prog_step. destruct (bool_decide (sc_team_id c' = _)); [|done]. prog_step. simpl.
      rewrite (proj2 (has_key_true (<[sc_contract_id c' := u]> (_settled l)) _)), orb_true_r; [done|].
      by rewrite dict_lookup_insert_eq.
    + unfold settle. prog_step. simpl. by rewrite dict_lookup_delete_eq by apply (led_active_wf _ Hi).
Qed.
