(* ===== verification/SwarmControl.v ===== *)
(** * The durable swarm scheduler ([arena/swarm_control.py])

    The scheduling authority of one team: contracts registered under a plan, one
    worker lease per contract, receipts and authorizations, usage deliveries,
    cancellation, expiry, and the checkpoint that [recover] reads back.  A lease is
    a mutable object reached only through [_leases], so mutating it is an update of
    that entry; a mutation made before an exception stays.  Clock readings are
    [clock 0], [clock 1], ...  The checkpoint file holds the value that [_state]
    builds; its JSON text and the hash around it are not modelled. *)
From S2P Require Import Prelude PyDict PyFloat Canonical Models Swarm SwarmDocs SwarmFacts Ledger.
Local Open Scope Z_scope.

Module WorkerLeaseState.
Inductive t := ACTIVE | FINISHED | OVER_BUDGET | CANCELLED | TIMED_OUT.
#[export] Instance eq_dec : EqDecision t.
Proof. solve_decision. Defined.
End WorkerLeaseState.
Export (hints) WorkerLeaseState.
Module SwarmAdmissionReason.
Inductive t := BUDGET | WRITE_CONFLICT | AUTHORIZATION | DUPLICATE | TEAM_CANCELLED.
End SwarmAdmissionReason.

Record WorkerLease := {
  wl_lease_id : string;
  wl_contract : SubagentContract;
  wl_idempotency_key : string;
  wl_acquired_at : float;
  wl_expires_at : float;
  wl_deadline_at : float;
  wl_state : WorkerLeaseState.t;
  wl_usage : BudgetUsage;
  wl_settled_usage : option BudgetUsage;
  wl_overage_dimensions : list string;
  wl_result : option SubagentResult;
  wl_terminal_reason : option string;
  wl_stop_required : bool;
}.
#[export] Instance WorkerLease_eq_dec : EqDecision WorkerLease.
Proof. solve_decision. Defined.
Definition set_lease_expires_at (x : float) (s : WorkerLease) : WorkerLease := {|
  wl_lease_id := wl_lease_id s; wl_contract := wl_contract s;
  wl_idempotency_key := wl_idempotency_key s; wl_acquired_at := wl_acquired_at s;
  wl_expires_at := x; wl_deadline_at := wl_deadline_at s; wl_state := wl_state s;
  wl_usage := wl_usage s; wl_settled_usage := wl_settled_usage s;
  wl_overage_dimensions := wl_overage_dimensions s; wl_result := wl_result s;
  wl_terminal_reason := wl_terminal_reason s; wl_stop_required := wl_stop_required s |}.
Definition set_lease_state (x : WorkerLeaseState.t) (s : WorkerLease) : WorkerLease := {|
  wl_lease_id := wl_lease_id s; wl_contract := wl_contract s;
  wl_idempotency_key := wl_idempotency_key s; wl_acquired_at := wl_acquired_at s;
  wl_expires_at := wl_expires_at s; wl_deadline_at := wl_deadline_at s; wl_state := x;
  wl_usage := wl_usage s; wl_settled_usage := wl_settled_usage s;
  wl_overage_dimensions := wl_overage_dimensions s; wl_result := wl_result s;
  wl_terminal_reason := wl_terminal_reason s; wl_stop_required := wl_stop_required s |}.
Definition set_lease_usage (x : BudgetUsage) (s : WorkerLease) : WorkerLease := {|
  wl_lease_id := wl_lease_id s; wl_contract := wl_contract s;
  wl_idempotency_key := wl_idempotency_key s; wl_acquired_at := wl_acquired_at s;
  wl_expires_at := wl_expires_at s; wl_deadline_at := wl_deadline_at s; wl_state := wl_state s;
  wl_usage := x; wl_settled_usage := wl_settled_usage s;
  wl_overage_dimensions := wl_overage_dimensions s; wl_result := wl_result s;
  wl_terminal_reason := wl_terminal_reason s; wl_stop_required := wl_stop_required s |}.
Definition set_lease_settled (x : option BudgetUsage) (s : WorkerLease) : WorkerLease := {|
  wl_lease_id := wl_lease_id s; wl_contract := wl_contract s;
  wl_idempotency_key := wl_idempotency_key s; wl_acquired_at := wl_acquired_at s;
  wl_expires_at := wl_expires_at s; wl_deadline_at := wl_deadline_at s; wl_state := wl_state s;
  wl_usage := wl_usage s; wl_settled_usage := x;
  wl_overage_dimensions := wl_overage_dimensions s; wl_result := wl_result s;
  wl_terminal_reason := wl_terminal_reason s; wl_stop_required := wl_stop_required s |}.
Definition set_lease_overage (x : list string) (s : WorkerLease) : WorkerLease := {|
  wl_lease_id := wl_lease_id s; wl_contract := wl_contract s;
  wl_idempotency_key := wl_idempotency_key s; wl_acquired_at := wl_acquired_at s;
  wl_expires_at := wl_expires_at s; wl_deadline_at := wl_deadline_at s; wl_state := wl_state s;
  wl_usage := wl_usage s; wl_settled_usage := wl_settled_usage s; wl_overage_dimensions := x;
  wl_result := wl_result s; wl_terminal_reason := wl_terminal_reason s;
  wl_stop_required := wl_stop_required s |}.
Definition set_lease_result (x : option SubagentResult) (s : WorkerLease) : WorkerLease := {|
  wl_lease_id := wl_lease_id s; wl_contract := wl_contract s;
  wl_idempotency_key := wl_idempotency_key s; wl_acquired_at := wl_acquired_at s;
  wl_expires_at := wl_expires_at s; wl_deadline_at := wl_deadline_at s; wl_state := wl_state s;
  wl_usage := wl_usage s; wl_settled_usage := wl_settled_usage s;
  wl_overage_dimensions := wl_overage_dimensions s; wl_result := x;
  wl_terminal_reason := wl_terminal_reason s; wl_stop_required := wl_stop_required s |}.
Definition set_lease_reason (x : option string) (s : WorkerLease) : WorkerLease := {|
  wl_lease_id := wl_lease_id s; wl_contract := wl_contract s;
  wl_idempotency_key := wl_idempotency_key s; wl_acquired_at := wl_acquired_at s;
  wl_expires_at := wl_expires_at s; wl_deadline_at := wl_deadline_at s; wl_state := wl_state s;
  wl_usage := wl_usage s; wl_settled_usage := wl_settled_usage s;
  wl_overage_dimensions := wl_overage_dimensions s; wl_result := wl_result s;
  wl_terminal_reason := x; wl_stop_required := wl_stop_required s |}.
Definition set_lease_stop (x : bool) (s : WorkerLease) : WorkerLease := {|
  wl_lease_id := wl_lease_id s; wl_contract := wl_contract s;
  wl_idempotency_key := wl_idempotency_key s; wl_acquired_at := wl_acquired_at s;
  wl_expires_at := wl_expires_at s; wl_deadline_at := wl_deadline_at s; wl_state := wl_state s;
  wl_usage := wl_usage s; wl_settled_usage := wl_settled_usage s;
  wl_overage_dimensions := wl_overage_dimensions s; wl_result := wl_result s;
  wl_terminal_reason := wl_terminal_reason s; wl_stop_required := x |}.

Definition is_active (l : WorkerLease) : bool := bool_decide (wl_state l = WorkerLeaseState.ACTIVE).
(** [min(self.expires_at, self.deadline_at)] *)
Definition lease_end (l : WorkerLease) : float := Z.min (wl_expires_at l) (wl_deadline_at l).
Definition worker_active (l : WorkerLease) (now : float) : bool := is_active l && (now <? lease_end l).

Record SwarmAdmission := {
  sa_admitted : bool; sa_lease : option WorkerLease; sa_reason : option SwarmAdmissionReason.t;
  sa_duplicate : bool; sa_detail : option string }.
Definition admission_refused (r : SwarmAdmissionReason.t) (detail : option string) : SwarmAdmission :=
  {| sa_admitted := false; sa_lease := None; sa_reason := Some r; sa_duplicate := false; sa_detail := detail |}.
Record UsageSettlement := {
  us_lease_id : string; us_observed : BudgetUsage; us_accounted : BudgetUsage;
  us_overage_dimensions : list string; us_duplicate : bool }.
Definition over_budget (u : UsageSettlement) : bool := negb (bool_decide (us_overage_dimensions u = [])).

(** What the constructor fixes; [cf_durable]: a state path was given. *)
Record SwarmConfig := {
  cf_budget : TeamBudget; cf_identity : SwarmIdentity; cf_orchestrator_id : string;
  cf_lease_ttl_s : float; cf_durable : bool }.

(** The value of [_state()]: every collection sorted by its key; a lease names its
    contract. *)
Record LeaseRecord := {
  lr_lease_id : string;
  lr_contract_id : string;
  lr_idempotency_key : string;
  lr_acquired_at : float;
  lr_expires_at : float;
  lr_deadline_at : float;
  lr_state : WorkerLeaseState.t;
  lr_usage : BudgetUsage;
  lr_settled_usage : option BudgetUsage;
  lr_overage_dimensions : list string;
  lr_result : option SubagentResult;
  lr_terminal_reason : option string;
  lr_stop_required : bool;
}.
Record SwarmCheckpoint := {
  ck_config : SwarmConfig; ck_plan : option SwarmPlan; ck_contracts : list SubagentContract;
  ck_leases : list LeaseRecord; ck_by_key : dict string string;
  ck_usage_deliveries : dict string (string * BudgetUsage);
  ck_terminal_usage_deliveries : dict string (string * BudgetUsage);
  ck_receipts : list PhaseReceipt; ck_receipt_by_contract : dict string string;
  ck_authorizations : list PhaseAuthorization; ck_consumed_authorizations : dict string string;
  ck_cancelled : bool; ck_cancel_reason : option string }.

Record SwarmScheduler := {
  sw_config : SwarmConfig;
  sw_ledger : TeamBudgetLedger;
  sw_plan : option SwarmPlan;
  sw_contracts : dict string SubagentContract;
  sw_leases : dict string WorkerLease;
  sw_by_key : dict string string;
  sw_usage_deliveries : dict string (string * BudgetUsage);
  sw_terminal_usage_deliveries : dict string (string * BudgetUsage);
  sw_receipts : dict string PhaseReceipt;
  sw_receipt_by_contract : dict string string;
  sw_authorizations : dict string PhaseAuthorization;
  sw_consumed_authorizations : dict string string;
  sw_cancelled : bool;
  sw_cancel_reason : option string;
  sw_state_file : option SwarmCheckpoint;
  sw_ticks : nat;
}.
Definition set_ledger (x : TeamBudgetLedger) (s : SwarmScheduler) : SwarmScheduler := {|
  sw_config := sw_config s; sw_ledger := x; sw_plan := sw_plan s; sw_contracts := sw_contracts s;
  sw_leases := sw_leases s; sw_by_key := sw_by_key s;
  sw_usage_deliveries := sw_usage_deliveries s;
  sw_terminal_usage_deliveries := sw_terminal_usage_deliveries s; sw_receipts := sw_receipts s;
  sw_receipt_by_contract := sw_receipt_by_contract s; sw_authorizations := sw_authorizations s;
  sw_consumed_authorizations := sw_consumed_authorizations s; sw_cancelled := sw_cancelled s;
  sw_cancel_reason := sw_cancel_reason s; sw_state_file := sw_state_file s;
  sw_ticks := sw_ticks s |}.
Definition set_plan (x : option SwarmPlan) (s : SwarmScheduler) : SwarmScheduler := {|
  sw_config := sw_config s; sw_ledger := sw_ledger s; sw_plan := x;
  sw_contracts := sw_contracts s; sw_leases := sw_leases s; sw_by_key := sw_by_key s;
  sw_usage_deliveries := sw_usage_deliveries s;
  sw_terminal_usage_deliveries := sw_terminal_usage_deliveries s; sw_receipts := sw_receipts s;
  sw_receipt_by_contract := sw_receipt_by_contract s; sw_authorizations := sw_authorizations s;
  sw_consumed_authorizations := sw_consumed_authorizations s; sw_cancelled := sw_cancelled s;
  sw_cancel_reason := sw_cancel_reason s; sw_state_file := sw_state_file s;
  sw_ticks := sw_ticks s |}.
Definition set_contracts (x : dict string SubagentContract) (s : SwarmScheduler) : SwarmScheduler := {|
  sw_config := sw_config s; sw_ledger := sw_ledger s; sw_plan := sw_plan s; sw_contracts := x;
  sw_leases := sw_leases s; sw_by_key := sw_by_key s;
  sw_usage_deliveries := sw_usage_deliveries s;
  sw_terminal_usage_deliveries := sw_terminal_usage_deliveries s; sw_receipts := sw_receipts s;
  sw_receipt_by_contract := sw_receipt_by_contract s; sw_authorizations := sw_authorizations s;
  sw_consumed_authorizations := sw_consumed_authorizations s; sw_cancelled := sw_cancelled s;
  sw_cancel_reason := sw_cancel_reason s; sw_state_file := sw_state_file s;
  sw_ticks := sw_ticks s |}.
Definition set_leases (x : dict string WorkerLease) (s : SwarmScheduler) : SwarmScheduler := {|
  sw_config := sw_config s; sw_ledger := sw_ledger s; sw_plan := sw_plan s;
  sw_contracts := sw_contracts s; sw_leases := x; sw_by_key := sw_by_key s;
  sw_usage_deliveries := sw_usage_deliveries s;
  sw_terminal_usage_deliveries := sw_terminal_usage_deliveries s; sw_receipts := sw_receipts s;
  sw_receipt_by_contract := sw_receipt_by_contract s; sw_authorizations := sw_authorizations s;
  sw_consumed_authorizations := sw_consumed_authorizations s; sw_cancelled := sw_cancelled s;
  sw_cancel_reason := sw_cancel_reason s; sw_state_file := sw_state_file s;
  sw_ticks := sw_ticks s |}.
Definition set_by_key (x : dict string string) (s : SwarmScheduler) : SwarmScheduler := {|
  sw_config := sw_config s; sw_ledger := sw_ledger s; sw_plan := sw_plan s;
  sw_contracts := sw_contracts s; sw_leases := sw_leases s; sw_by_key := x;
  sw_usage_deliveries := sw_usage_deliveries s;
  sw_terminal_usage_deliveries := sw_terminal_usage_deliveries s; sw_receipts := sw_receipts s;
  sw_receipt_by_contract := sw_receipt_by_contract s; sw_authorizations := sw_authorizations s;
  sw_consumed_authorizations := sw_consumed_authorizations s; sw_cancelled := sw_cancelled s;
  sw_cancel_reason := sw_cancel_reason s; sw_state_file := sw_state_file s;
  sw_ticks := sw_ticks s |}.
Definition set_usage_deliveries (x : dict string (string * BudgetUsage)) (s : SwarmScheduler) : SwarmScheduler := {|
  sw_config := sw_config s; sw_ledger := sw_ledger s; sw_plan := sw_plan s;
  sw_contracts := sw_contracts s; sw_leases := sw_leases s; sw_by_key := sw_by_key s;
  sw_usage_deliveries := x; sw_terminal_usage_deliveries := sw_terminal_usage_deliveries s;
  sw_receipts := sw_receipts s; sw_receipt_by_contract := sw_receipt_by_contract s;
  sw_authorizations := sw_authorizations s;
  sw_consumed_authorizations := sw_consumed_authorizations s; sw_cancelled := sw_cancelled s;
  sw_cancel_reason := sw_cancel_reason s; sw_state_file := sw_state_file s;
  sw_ticks := sw_ticks s |}.
Definition set_terminal_usage_deliveries (x : dict string (string * BudgetUsage)) (s : SwarmScheduler) : SwarmScheduler := {|
  sw_config := sw_config s; sw_ledger := sw_ledger s; sw_plan := sw_plan s;
  sw_contracts := sw_contracts s; sw_leases := sw_leases s; sw_by_key := sw_by_key s;
  sw_usage_deliveries := sw_usage_deliveries s; sw_terminal_usage_deliveries := x;
  sw_receipts := sw_receipts s; sw_receipt_by_contract := sw_receipt_by_contract s;
  sw_authorizations := sw_authorizations s;
  sw_consumed_authorizations := sw_consumed_authorizations s; sw_cancelled := sw_cancelled s;
  sw_cancel_reason := sw_cancel_reason s; sw_state_file := sw_state_file s;
  sw_ticks := sw_ticks s |}.
Definition set_receipts (x : dict string PhaseReceipt) (s : SwarmScheduler) : SwarmScheduler := {|
  sw_config := sw_config s; sw_ledger := sw_ledger s; sw_plan := sw_plan s;
  sw_contracts := sw_contracts s; sw_leases := sw_leases s; sw_by_key := sw_by_key s;
  sw_usage_deliveries := sw_usage_deliveries s;
  sw_terminal_usage_deliveries := sw_terminal_usage_deliveries s; sw_receipts := x;
  sw_receipt_by_contract := sw_receipt_by_contract s; sw_authorizations := sw_authorizations s;
  sw_consumed_authorizations := sw_consumed_authorizations s; sw_cancelled := sw_cancelled s;
  sw_cancel_reason := sw_cancel_reason s; sw_state_file := sw_state_file s;
  sw_ticks := sw_ticks s |}.
Definition set_receipt_by_contract (x : dict string string) (s : SwarmScheduler) : SwarmScheduler := {|
  sw_config := sw_config s; sw_ledger := sw_ledger s; sw_plan := sw_plan s;
  sw_contracts := sw_contracts s; sw_leases := sw_leases s; sw_by_key := sw_by_key s;
  sw_usage_deliveries := sw_usage_deliveries s;
  sw_terminal_usage_deliveries := sw_terminal_usage_deliveries s; sw_receipts := sw_receipts s;
  sw_receipt_by_contract := x; sw_authorizations := sw_authorizations s;
  sw_consumed_authorizations := sw_consumed_authorizations s; sw_cancelled := sw_cancelled s;
  sw_cancel_reason := sw_cancel_reason s; sw_state_file := sw_state_file s;
  sw_ticks := sw_ticks s |}.
Definition set_authorizations (x : dict string PhaseAuthorization) (s : SwarmScheduler) : SwarmScheduler := {|
  sw_config := sw_config s; sw_ledger := sw_ledger s; sw_plan := sw_plan s;
  sw_contracts := sw_contracts s; sw_leases := sw_leases s; sw_by_key := sw_by_key s;
  sw_usage_deliveries := sw_usage_deliveries s;
  sw_terminal_usage_deliveries := sw_terminal_usage_deliveries s; sw_receipts := sw_receipts s;
  sw_receipt_by_contract := sw_receipt_by_contract s; sw_authorizations := x;
  sw_consumed_authorizations := sw_consumed_authorizations s; sw_cancelled := sw_cancelled s;
  sw_cancel_reason := sw_cancel_reason s; sw_state_file := sw_state_file s;
  sw_ticks := sw_ticks s |}.
Definition set_consumed_authorizations (x : dict string string) (s : SwarmScheduler) : SwarmScheduler := {|
  sw_config := sw_config s; sw_ledger := sw_ledger s; sw_plan := sw_plan s;
  sw_contracts := sw_contracts s; sw_leases := sw_leases s; sw_by_key := sw_by_key s;
  sw_usage_deliveries := sw_usage_deliveries s;
  sw_terminal_usage_deliveries := sw_terminal_usage_deliveries s; sw_receipts := sw_receipts s;
  sw_receipt_by_contract := sw_receipt_by_contract s; sw_authorizations := sw_authorizations s;
  sw_consumed_authorizations := x; sw_cancelled := sw_cancelled s;
  sw_cancel_reason := sw_cancel_reason s; sw_state_file := sw_state_file s;
  sw_ticks := sw_ticks s |}.
Definition set_cancelled (x : bool) (s : SwarmScheduler) : SwarmScheduler := {|
  sw_config := sw_config s; sw_ledger := sw_ledger s; sw_plan := sw_plan s;
  sw_contracts := sw_contracts s; sw_leases := sw_leases s; sw_by_key := sw_by_key s;
  sw_usage_deliveries := sw_usage_deliveries s;
  sw_terminal_usage_deliveries := sw_terminal_usage_deliveries s; sw_receipts := sw_receipts s;
  sw_receipt_by_contract := sw_receipt_by_contract s; sw_authorizations := sw_authorizations s;
  sw_consumed_authorizations := sw_consumed_authorizations s; sw_cancelled := x;
  sw_cancel_reason := sw_cancel_reason s; sw_state_file := sw_state_file s;
  sw_ticks := sw_ticks s |}.
Definition set_cancel_reason (x : option string) (s : SwarmScheduler) : SwarmScheduler := {|
  sw_config := sw_config s; sw_ledger := sw_ledger s; sw_plan := sw_plan s;
  sw_contracts := sw_contracts s; sw_leases := sw_leases s; sw_by_key := sw_by_key s;
  sw_usage_deliveries := sw_usage_deliveries s;
  sw_terminal_usage_deliveries := sw_terminal_usage_deliveries s; sw_receipts := sw_receipts s;
  sw_receipt_by_contract := sw_receipt_by_contract s; sw_authorizations := sw_authorizations s;
  sw_consumed_authorizations := sw_consumed_authorizations s; sw_cancelled := sw_cancelled s;
  sw_cancel_reason := x; sw_state_file := sw_state_file s; sw_ticks := sw_ticks s |}.
Definition set_state_file (x : option SwarmCheckpoint) (s : SwarmScheduler) : SwarmScheduler := {|
  sw_config := sw_config s; sw_ledger := sw_ledger s; sw_plan := sw_plan s;
  sw_contracts := sw_contracts s; sw_leases := sw_leases s; sw_by_key := sw_by_key s;
  sw_usage_deliveries := sw_usage_deliveries s;
  sw_terminal_usage_deliveries := sw_terminal_usage_deliveries s; sw_receipts := sw_receipts s;
  sw_receipt_by_contract := sw_receipt_by_contract s; sw_authorizations := sw_authorizations s;
  sw_consumed_authorizations := sw_consumed_authorizations s; sw_cancelled := sw_cancelled s;
  sw_cancel_reason := sw_cancel_reason s; sw_state_file := x; sw_ticks := sw_ticks s |}.
Definition set_ticks (x : nat) (s : SwarmScheduler) : SwarmScheduler := {|
  sw_config := sw_config s; sw_ledger := sw_ledger s; sw_plan := sw_plan s;
  sw_contracts := sw_contracts s; sw_leases := sw_leases s; sw_by_key := sw_by_key s;
  sw_usage_deliveries := sw_usage_deliveries s;
  sw_terminal_usage_deliveries := sw_terminal_usage_deliveries s; sw_receipts := sw_receipts s;
  sw_receipt_by_contract := sw_receipt_by_contract s; sw_authorizations := sw_authorizations s;
  sw_consumed_authorizations := sw_consumed_authorizations s; sw_cancelled := sw_cancelled s;
  sw_cancel_reason := sw_cancel_reason s; sw_state_file := sw_state_file s; sw_ticks := x |}.

Section control.
Context {PF : Platform} (clock : nat → float).

Definition read_clock : prog SwarmScheduler float := λ s, (set_ticks (S (sw_ticks s)) s, Ok (clock (sw_ticks s))).
(** [self._ledger.reserve(...)], [self._ledger.settle(...)] *)
Definition on_ledger {A} (m : prog TeamBudgetLedger A) : prog SwarmScheduler A :=
  λ s, let '(l, r) := m (sw_ledger s) in (set_ledger l s, r).
(** Mutation of the lease object found under [id]. *)
Definition mutate_lease (id : string) (f : WorkerLease → WorkerLease) : prog SwarmScheduler unit :=
  modify (λ s, match sw_leases s !! id with
               | Some l => set_leases (<[id := f l]> (sw_leases s)) s | None => s end).
Definition the_lease (id : string) : prog SwarmScheduler WorkerLease :=
  s ← gets (λ s, s);
  match sw_leases s !! id with Some l => mret l | None => raise KeyError id end.

(** ** Persisting *)
Definition sort_items {V} (d : dict string V) : dict string V := Dict (sort_by fst (items d)).
Definition lease_record (l : WorkerLease) : LeaseRecord := {|
  lr_lease_id := wl_lease_id l; lr_contract_id := sc_contract_id (wl_contract l);
  lr_idempotency_key := wl_idempotency_key l; lr_acquired_at := wl_acquired_at l;
  lr_expires_at := wl_expires_at l; lr_deadline_at := wl_deadline_at l; lr_state := wl_state l;
  lr_usage := wl_usage l; lr_settled_usage := wl_settled_usage l;
  lr_overage_dimensions := wl_overage_dimensions l; lr_result := wl_result l;
  lr_terminal_reason := wl_terminal_reason l; lr_stop_required := wl_stop_required l |}.
Definition _state (s : SwarmScheduler) : SwarmCheckpoint := {|
  ck_config := sw_config s; ck_plan := sw_plan s;
  ck_contracts := sort_by sc_contract_id (vals (sw_contracts s));
  ck_leases := lease_record <$> sort_by wl_lease_id (vals (sw_leases s));
  ck_by_key := sort_items (sw_by_key s);
  ck_usage_deliveries := sort_items (sw_usage_deliveries s);
  ck_terminal_usage_deliveries := sort_items (sw_terminal_usage_deliveries s);
  ck_receipts := sort_by PhaseReceipt_hash (vals (sw_receipts s));
  ck_receipt_by_contract := sort_items (sw_receipt_by_contract s);
  ck_authorizations := sort_by PhaseAuthorization_hash (vals (sw_authorizations s));
  ck_consumed_authorizations := sort_items (sw_consumed_authorizations s);
  ck_cancelled := sw_cancelled s; ck_cancel_reason := sw_cancel_reason s |}.
Definition _persist : prog SwarmScheduler unit :=
  modify (λ s, if cf_durable (sw_config s) then set_state_file (Some (_state s)) s else s).

Definition new_SwarmScheduler (c : SwarmConfig) (file : option SwarmCheckpoint) : result SwarmScheduler :=
  contract_error (blank (cf_orchestrator_id c)) "orchestrator_id must not be empty" ;;
  contract_error (cf_lease_ttl_s c <=? 0) "lease_ttl_s must be positive" ;;
  mret {| sw_config := c; sw_ledger := new_TeamBudgetLedger (cf_budget c); sw_plan := None;
    sw_contracts := ∅; sw_leases := ∅; sw_by_key := ∅; sw_usage_deliveries := ∅;
    sw_terminal_usage_deliveries := ∅; sw_receipts := ∅; sw_receipt_by_contract := ∅;
    sw_authorizations := ∅; sw_consumed_authorizations := ∅; sw_cancelled := false;
    sw_cancel_reason := None; sw_state_file := file; sw_ticks := 0 |}.

(** ** Registration *)
Definition register_plan (plan : SwarmPlan) : prog SwarmScheduler unit :=
  s ← gets (λ s, s);
  raise_if (negb (bool_decide (sp_identity plan = cf_identity (sw_config s)))) SwarmContractError
    "swarm plan identity does not match scheduler identity" ;;
  match sw_plan s with
  | Some p => raise_if (negb (bool_decide (p = plan))) SwarmContractError
                "scheduler already owns a different swarm plan"
  | None =>
      raise_if (negb (bool_decide (items (sw_contracts s) = [])) || negb (bool_decide (items (sw_leases s) = [])))
        SwarmContractError "swarm plan must be registered before child work" ;;
      modify (set_plan (Some plan)) ;;
      _persist
  end.

Definition _require_team_contract (cfg : SwarmConfig) (c : SubagentContract) : result unit :=
  contract_error (negb (bool_decide (sc_team_id c = tb_team_id (cf_budget cfg)))
                  || negb (bool_decide (sc_identity c = cf_identity cfg))
                  || negb (bool_decide (sc_parent_agent_id c = cf_orchestrator_id cfg)))
    "child contract is not bound to scheduler authority".

Definition register (c : SubagentContract) : prog SwarmScheduler unit :=
  s ← gets (λ s, s);
  lift (_require_team_contract (sw_config s) c) ;;
  match sw_plan s with
  | None => raise SwarmContractError "an immutable swarm plan is required before contracts"
  | Some plan =>
      lift (require_contract_plan c plan) ;;
      match sw_contracts s !! sc_contract_id c with
      | Some prior => raise_if (negb (bool_decide (prior = c))) SwarmContractError "contract ID collision"
      | None =>
          raise_if (existsb (λ i, bool_decide (sc_child_agent_id i = sc_child_agent_id c)) (vals (sw_contracts s)))
            SwarmContractError "a child identity may have only one team contract" ;;
          raise_if (existsb (λ i, bool_decide (sc_lease_id i = sc_lease_id c)) (vals (sw_contracts s)))
            SwarmContractError "worker lease ID collision" ;;
          modify (λ s, set_contracts (<[sc_contract_id c := c]> (sw_contracts s)) s) ;;
          _persist
      end
  end.

(** ** Receipts and authorizations *)
Definition lease_of_contract (contract_id : string) (s : SwarmScheduler) : option WorkerLease :=
  find_first (λ l, bool_decide (sc_contract_id (wl_contract l) = contract_id)) (vals (sw_leases s)).
Definition _owned_receipts (hashes : list string) (s : SwarmScheduler) : result (list PhaseReceipt) :=
  contract_error (negb (all_unique hashes)) "predecessor receipt hashes must be unique" ;;
  receipts ← map_result (λ h, match sw_receipts s !! h with
    | Some r => mret r
    | None => Err (Exn SwarmContractError "phase input is not a scheduler-owned receipt") end) hashes;
  check_each receipts (λ r,
    let lease := l ← lease_of_contract (pr_contract_id r) s; sw_leases s !! wl_lease_id l in
    err_if (match lease with
            | None => true
            | Some l => negb (bool_decide (wl_state l = WorkerLeaseState.FINISHED))
                || match wl_result l with
                   | None => true
                   | Some x => negb (bool_decide (SubagentResult_hash x = pr_result_hash r)) end
            end) SwarmStateError "phase receipt is not backed by a finished scheduler lease") ;;
  mret receipts.

Definition record_phase_receipt (lease_id : string) (predecessor_receipt_hashes : list string)
    (recorded_at : datetime) : prog SwarmScheduler PhaseReceipt :=
  s ← gets (λ s, s);
  match l ← sw_leases s !! lease_id;
        (if bool_decide (wl_state l = WorkerLeaseState.FINISHED)
         then r ← wl_result l; Some (wl_contract l, r) else None) with
  | None => raise SwarmStateError "phase receipts require an exactly finished worker result"
  | Some (contract, res) =>
      match sw_receipt_by_contract s !! sc_contract_id contract with
      | Some prior_hash =>
          match sw_receipts s !! prior_hash with
          | Some r => mret r | None => raise KeyError prior_hash end
      | None =>
          predecessors ← lift (_owned_receipts predecessor_receipt_hashes s);
          receipt ← lift (from_result contract res predecessors recorded_at);
          modify (λ s, set_receipts (<[PhaseReceipt_hash receipt := receipt]> (sw_receipts s)) s) ;;
          modify (λ s, set_receipt_by_contract
            (<[pr_contract_id receipt := PhaseReceipt_hash receipt]> (sw_receipt_by_contract s)) s) ;;
          _persist ;;
          mret receipt
      end
  end.

Definition issue_phase_authorization (contract_id : string) (predecessor_receipt_hashes : list string)
    (authorized_at : datetime) : prog SwarmScheduler PhaseAuthorization :=
  s ← gets (λ s, s);
  match sw_contracts s !! contract_id with
  | None => raise SwarmContractError "phase authorization requires a registered contract"
  | Some contract =>
      predecessors ← lift (_owned_receipts predecessor_receipt_hashes s);
      authorization ← lift (issue contract predecessors (cf_orchestrator_id (sw_config s)) authorized_at);
      raise_if (match find_first (λ a, bool_decide (pa_contract_id a = contract_id)) (vals (sw_authorizations s)) with
                | Some prior => negb (bool_decide (prior = authorization)) | None => false end)
        SwarmStateError "contract already has a different phase authorization" ;;
      modify (λ s, set_authorizations
        (<[PhaseAuthorization_hash authorization := authorization]> (sw_authorizations s)) s) ;;
      _persist ;;
      mret authorization
  end.

(** ** Settling terminal leases *)
Definition elapsed_usage (l : WorkerLease) (now : float) : BudgetUsage := {|
  bu_wall_seconds := Z.min (eb_wall_seconds (sc_budget (wl_contract l)))
    (Z.max (bu_wall_seconds (wl_usage l)) (fsub now (wl_acquired_at l)));
  bu_tokens := bu_tokens (wl_usage l); bu_tool_calls := bu_tool_calls (wl_usage l);
  bu_cost := bu_cost (wl_usage l) |}.
Definition _finalize_elapsed (id : string) : prog SwarmScheduler unit :=
  now ← read_clock;
  mutate_lease id (λ l, set_lease_usage (elapsed_usage l now) l).
(** The tail that the cancellations and the expiry share. *)
Definition stop_lease (id : string) (st : WorkerLeaseState.t) (reason : string) : prog SwarmScheduler unit :=
  _finalize_elapsed id ;;
  mutate_lease id (λ l, set_lease_settled (Some (wl_usage l)) (set_lease_stop true
    (set_lease_reason (Some reason) (set_lease_state st l)))) ;;
  lease ← the_lease id;
  on_ledger (settle (sc_contract_id (wl_contract lease)) (wl_usage lease)).

Definition expired_ids (now : float) (s : SwarmScheduler) : list string :=
  sorted_str (wl_lease_id <$> List.filter (λ l, is_active l && (lease_end l <=? now)) (vals (sw_leases s))).
Definition timeout_reason (l : WorkerLease) (now : float) : string :=
  if wl_deadline_at l <=? now then "hard_deadline_exceeded" else "heartbeat_expired".
Definition _expire_locked (now : float) : prog SwarmScheduler (list string) :=
  expired ← gets (expired_ids now);
  for_each expired (λ id,
    lease ← the_lease id;
    stop_lease id WorkerLeaseState.TIMED_OUT (timeout_reason lease now)) ;;
  mret expired.
Definition reap_timeouts : prog SwarmScheduler (list string) :=
  now ← read_clock;
  expired ← _expire_locked now;
  (if bool_decide (expired = []) then mret tt else _persist) ;;
  mret expired.

(** ** Admission *)
Definition _require_admission_authorization (contract : SubagentContract)
    (authorization : option PhaseAuthorization) (s : SwarmScheduler) : result (option string) :=
  match sw_plan s with
  | None => Err (Exn SwarmStateError "scheduler has no immutable swarm plan")
  | Some plan =>
      phase ← require_contract_plan contract plan;
      if bool_decide (ps_predecessor_phase_ids phase = []) then
        contract_error (bool_decide (is_Some authorization))
          "root phases must not consume downstream authorization" ;;
        contract_error (negb (bool_decide (sc_phase_inputs contract = [])))
          "root phase contract cannot contain predecessor inputs" ;;
        mret None
      else
        match authorization with
        | None => Err (Exn SwarmContractError "non-root phase admission requires authorization")
        | Some a =>
            require_contract a contract (cf_orchestrator_id (sw_config s)) ;;
            let digest := PhaseAuthorization_hash a in
            err_if (negb (bool_decide (sw_authorizations s !! digest = Some a))) SwarmStateError
              "phase authorization was not issued by this scheduler" ;;
            err_if (has_key digest (sw_consumed_authorizations s)) SwarmStateError
              "phase authorization has already been consumed" ;;
            predecessors ← _owned_receipts (pa_predecessor_receipt_hashes a) s;
            sources ← map_result (plan_phase plan) (ps_predecessor_phase_ids phase);
            let expected := str_set (concat (ps_contract_ids <$> sources)) in
            err_if (negb (bool_decide (str_set (pr_contract_id <$> predecessors) = expected))
                    || negb (bool_decide (length predecessors = size expected))) SwarmStateError
              "authorization omits or substitutes planned predecessors" ;;
            err_if (existsb (λ r, negb (bool_decide (pr_disposition r = Disposition.COMPLETED))) predecessors)
              SwarmStateError "authorization predecessors are not completed" ;;
            mret (Some digest)
        end
  end.

(** The end of [admit]: the reservation is made. *)
Definition grant_lease (contract : SubagentContract) (key : string) (authorization_hash : option string) :
    prog SwarmScheduler SwarmAdmission :=
  now ← read_clock;
  s ← gets (λ s, s);
  let deadline := fadd now (eb_wall_seconds (sc_budget contract)) in
  let lease := {| wl_lease_id := sc_lease_id contract; wl_contract := contract; wl_idempotency_key := key;
    wl_acquired_at := now; wl_expires_at := Z.min (fadd now (cf_lease_ttl_s (sw_config s))) deadline;
    wl_deadline_at := deadline; wl_state := WorkerLeaseState.ACTIVE; wl_usage := no_usage;
    wl_settled_usage := None; wl_overage_dimensions := []; wl_result := None;
    wl_terminal_reason := None; wl_stop_required := false |} in
  modify (λ s, set_leases (<[wl_lease_id lease := lease]> (sw_leases s)) s) ;;
  modify (λ s, set_by_key (<[key := wl_lease_id lease]> (sw_by_key s)) s) ;;
  modify (λ s, match authorization_hash with
    | Some h => set_consumed_authorizations (<[h := wl_lease_id lease]> (sw_consumed_authorizations s)) s
    | None => s end) ;;
  _persist ;;
  mret {| sa_admitted := true; sa_lease := Some lease; sa_reason := None; sa_duplicate := false;
          sa_detail := None |}.

(** [admit], once the key is found unused and the team open. *)
Definition admit_fresh (contract : SubagentContract) (key : string) (authorization : option PhaseAuthorization) :
    prog SwarmScheduler SwarmAdmission :=
  s ← gets (λ s, s);
  match _require_admission_authorization contract authorization s with
  | Err e =>
      if exn_isa (exn_kind e) SwarmContractError || exn_isa (exn_kind e) SwarmStateError
      then mret (admission_refused SwarmAdmissionReason.AUTHORIZATION (Some (exn_msg e)))
      else lift (Err e)
  | Ok authorization_hash =>
      try_ (on_ledger (reserve contract)) (λ r, match r with
        | Err e =>
            if exn_isa (exn_kind e) BudgetExceededError
            then mret (admission_refused SwarmAdmissionReason.BUDGET (Some (exn_msg e)))
            else if exn_isa (exn_kind e) SwarmContractError
            then mret (admission_refused SwarmAdmissionReason.WRITE_CONFLICT (Some (exn_msg e)))
            else lift (Err e)
        | Ok _ => grant_lease contract key authorization_hash
        end)
  end.

Definition admit_child (contract_id idempotency_key : string) (authorization : option PhaseAuthorization) :
    prog SwarmScheduler SwarmAdmission :=
  let key := strip idempotency_key in
  raise_if (is_empty_str key) SwarmContractError "idempotency_key must not be empty" ;;
  now ← read_clock;
  _expire_locked now ;;
  s ← gets (λ s, s);
  match sw_contracts s !! contract_id with
  | None => raise SwarmContractError "subagent contract is not registered"
  | Some contract =>
      match sw_by_key s !! key with
      | Some prior_id =>
          prior ← the_lease prior_id;
          let same := bool_decide (sc_contract_id (wl_contract prior) = contract_id) in
          active_duplicate ← (if same then now ← read_clock; mret (worker_active prior now) else mret false);
          mret {| sa_admitted := active_duplicate; sa_lease := Some prior;
                  sa_reason := if active_duplicate then None else Some SwarmAdmissionReason.DUPLICATE;
                  sa_duplicate := true;
                  sa_detail := if same then None else Some "idempotency key belongs to another contract" |}
      | None =>
          if sw_cancelled s then mret (admission_refused SwarmAdmissionReason.TEAM_CANCELLED None)
          else if bool_decide (is_Some (lease_of_contract contract_id s)) then
            mret {| sa_admitted := false; sa_lease := None; sa_reason := Some SwarmAdmissionReason.DUPLICATE;
                    sa_duplicate := true; sa_detail := Some "contract already has an attempt" |}
          else admit_fresh contract key authorization
      end
  end.

(** ** Liveness and usage *)
Definition heartbeat (lease_id : string) : prog SwarmScheduler (option WorkerLease) :=
  now ← read_clock;
  s ← gets (λ s, s);
  match sw_leases s !! lease_id with
  | None => mret None
  | Some l =>
      if negb (worker_active l now) then mret None
      else
        let l' := set_lease_expires_at
          (Z.min (fadd now (cf_lease_ttl_s (sw_config s))) (wl_deadline_at l)) l in
        mutate_lease lease_id (λ _, l') ;;
        _persist ;;
        mret (Some l')
  end.

Definition _require_within_child (usage : BudgetUsage) (c : SubagentContract) : result unit :=
  _require_within_contract usage (sc_budget c).
Definition _usage_max (a b : BudgetUsage) : result BudgetUsage :=
  validate_BudgetUsage {|
    bu_wall_seconds := Z.max (bu_wall_seconds a) (bu_wall_seconds b);
    bu_tokens := Z.max (bu_tokens a) (bu_tokens b);
    bu_tool_calls := Z.max (bu_tool_calls a) (bu_tool_calls b);
    bu_cost := Z.max (bu_cost a) (bu_cost b) |}.
Definition _overage_dimensions (u : BudgetUsage) (c : SubagentContract) : list string :=
  let limit := sc_budget c in
  (if eb_wall_seconds limit <? bu_wall_seconds u then ["wall_seconds"] else []) ++
  (if eb_token_limit limit <? bu_tokens u then ["tokens"] else []) ++
  (if eb_tool_call_limit limit <? bu_tool_calls u then ["tool_calls"] else []) ++
  (if eb_cost_limit limit <? bu_cost u then ["cost"] else []).
Definition _cap_usage (u : BudgetUsage) (c : SubagentContract) : result BudgetUsage :=
  let limit := sc_budget c in
  validate_BudgetUsage {|
    bu_wall_seconds := Z.min (bu_wall_seconds u) (eb_wall_seconds limit);
    bu_tokens := Z.min (bu_tokens u) (eb_token_limit limit);
    bu_tool_calls := Z.min (bu_tool_calls u) (eb_tool_call_limit limit);
    bu_cost := Z.min (bu_cost u) (eb_cost_limit limit) |}.
Definition _usage_settlement (l : WorkerLease) (duplicate : bool) : result UsageSettlement :=
  accounted ← match wl_settled_usage l with
              | Some u => mret u | None => _cap_usage (wl_usage l) (wl_contract l) end;
  mret {| us_lease_id := wl_lease_id l; us_observed := wl_usage l; us_accounted := accounted;
          us_overage_dimensions := wl_overage_dimensions l; us_duplicate := duplicate |}.

Definition charge (lease_id : string) (usage : BudgetUsage) (delivery_id : string) :
    prog SwarmScheduler WorkerLease :=
  let delivery := strip delivery_id in
  raise_if (is_empty_str delivery) SwarmContractError "delivery_id must not be empty" ;;
  now ← read_clock;
  _expire_locked now ;;
  s ← gets (λ s, s);
  live ← match sw_leases s !! lease_id with
         | None => mret None
         | Some l => now ← read_clock; mret (if worker_active l now then Some l else None) end;
  match live with
  | None => raise SwarmStateError "usage requires an active worker lease"
  | Some l =>
      match sw_usage_deliveries s !! delivery with
      | Some prior =>
          raise_if (negb (bool_decide (prior = (lease_id, usage)))) SwarmStateError
            "usage delivery ID collision" ;;
          mret l
      | None =>
          updated ← lift (usage_plus (wl_usage l) usage);
          lift (_require_within_child updated (wl_contract l)) ;;
          mutate_lease lease_id (set_lease_usage updated) ;;
          modify (λ s, set_usage_deliveries (<[delivery := (lease_id, usage)]> (sw_usage_deliveries s)) s) ;;
          _persist ;;
          the_lease lease_id
      end
  end.

(** ** Rebuilding the ledger *)
Definition terminal_leases (s : SwarmScheduler) : list WorkerLease :=
  sort_by wl_lease_id (List.filter (λ l, negb (is_active l)) (vals (sw_leases s))).
Definition live_leases (s : SwarmScheduler) : list WorkerLease :=
  sort_by wl_lease_id (List.filter is_active (vals (sw_leases s))).
Definition _rebuild_ledger : prog SwarmScheduler unit :=
  s ← gets (λ s, s);
  modify (set_ledger (new_TeamBudgetLedger (cf_budget (sw_config s)))) ;;
  for_each (terminal_leases s) (λ l,
    match wl_settled_usage l with
    | None => raise SwarmStateError "terminal lease is missing capped settlement usage"
    | Some u =>
        on_ledger (reserve (wl_contract l)) ;;
        on_ledger (settle (sc_contract_id (wl_contract l)) u)
    end) ;;
  for_each (live_leases s) (λ l, on_ledger (reserve (wl_contract l))).

Definition observe_terminal_usage (lease_id : string) (observed : BudgetUsage) (delivery_id : string) :
    prog SwarmScheduler UsageSettlement :=
  let delivery := strip delivery_id in
  raise_if (is_empty_str delivery) SwarmContractError "delivery_id must not be empty" ;;
  s ← gets (λ s, s);
  match sw_leases s !! lease_id with
  | None => raise SwarmStateError "terminal usage references an unknown worker lease"
  | Some l =>
      match sw_terminal_usage_deliveries s !! delivery with
      | Some prior =>
          raise_if (negb (bool_decide (prior = (lease_id, observed)))) SwarmStateError
            "terminal usage delivery ID collision" ;;
          lift (_usage_settlement l true)
      | None =>
          raise_if (existsb (λ d, bool_decide (d.1 = lease_id)) (vals (sw_terminal_usage_deliveries s)))
            SwarmStateError "worker lease already has a terminal usage observation" ;;
          raise_if (bool_decide (wl_state l = WorkerLeaseState.FINISHED)) SwarmStateError
            "finished usage cannot be replaced after result acceptance" ;;
          retained ← lift (_usage_max (wl_usage l) observed);
          let dimensions := _overage_dimensions retained (wl_contract l) in
          accounted ← lift (_cap_usage retained (wl_contract l));
          mutate_lease lease_id (λ l, set_lease_overage dimensions (set_lease_usage retained l)) ;;
          modify (λ s, set_terminal_usage_deliveries
            (<[delivery := (lease_id, observed)]> (sw_terminal_usage_deliveries s)) s) ;;
          (if is_active l then
             if bool_decide (dimensions = []) then mret tt
             else
               mutate_lease lease_id (λ l, set_lease_settled (Some accounted)
                 (set_lease_reason (Some ("budget_exceeded:" +:+ str_join "," dimensions))
                   (set_lease_state WorkerLeaseState.OVER_BUDGET l))) ;;
               on_ledger (settle (sc_contract_id (wl_contract l)) accounted)
           else
             mutate_lease lease_id (set_lease_settled (Some accounted)) ;;
             _rebuild_ledger) ;;
          _persist ;;
          l ← the_lease lease_id;
          lift (_usage_settlement l false)
      end
  end.

(** ** Results *)
Definition _require_result_binding (c : SubagentContract) (r : SubagentResult) : result unit :=
  err_if (negb (bool_decide (sr_contract_id r = sc_contract_id c))
    || negb (bool_decide (sr_contract_hash r = SubagentContract_hash c))
    || negb (bool_decide (sr_identity r = sc_identity c))
    || negb (bool_decide (sr_plan_hash r = sc_plan_hash c))
    || negb (bool_decide (sr_phase_id r = sc_phase_id c))
    || negb (bool_decide (sr_lease_id r = sc_lease_id c))
    || negb (bool_decide (sr_agent_id r = sc_child_agent_id c))
    || negb (bool_decide (sr_role r = sc_role c)))
    SwarmStateError "subagent result is not bound to the exact worker contract".
Definition _require_controller_terminal_result (l : WorkerLease) (r : SubagentResult) : result unit :=
  err_if (negb (bool_decide (sr_disposition r = Disposition.FAILED))) SwarmStateError
    "controller terminal result must be FAILED" ;;
  err_if (negb (bool_decide (wl_overage_dimensions l = []))
          && negb (existsb (λ c, bool_decide (c = "budget_exceeded") || startswith c "budget_exceeded:")
                     (sr_reason_codes r))) SwarmStateError
    "terminal overage result requires a budget reason" ;;
  err_if (bool_decide (wl_state l ∈ [WorkerLeaseState.TIMED_OUT; WorkerLeaseState.CANCELLED])
          && (negb (bool_decide (sr_controller_terminal_reason r = wl_terminal_reason l))
              || negb (match wl_terminal_reason l with
                       | Some t => bool_decide (t ∈ sr_reason_codes r) | None => false end)))
    SwarmStateError "late terminal result must bind the exact controller terminal reason".

Definition record_terminal_result (lease_id : string) (r : SubagentResult) : prog SwarmScheduler WorkerLease :=
  s ← gets (λ s, s);
  match sw_leases s !! lease_id with
  | None => raise SwarmStateError "terminal result references an unknown worker lease"
  | Some l =>
      raise_if (negb (bool_decide (wl_state l ∈ [WorkerLeaseState.OVER_BUDGET; WorkerLeaseState.TIMED_OUT;
                                                  WorkerLeaseState.CANCELLED]))) SwarmStateError
        "worker lease is not a controller terminal state" ;;
      lift (_require_result_binding (wl_contract l) r) ;;
      lift (_require_controller_terminal_result l r) ;;
      match wl_result l with
      | Some prior =>
          raise_if (negb (bool_decide (prior = r))) SwarmStateError
            "worker lease already has a different structured result" ;;
          mret l
      | None =>
          mutate_lease lease_id (set_lease_result (Some r)) ;;
          _persist ;;
          the_lease lease_id
      end
  end.
Definition record_overage_result (lease_id : string) (r : SubagentResult) : prog SwarmScheduler WorkerLease :=
  s ← gets (λ s, s);
  raise_if (match sw_leases s !! lease_id with
            | None => true | Some l => bool_decide (wl_overage_dimensions l = []) end) SwarmStateError
    "overage result requires classified terminal usage" ;;
  record_terminal_result lease_id r.

Definition complete (lease_id : string) (r : SubagentResult) : prog SwarmScheduler WorkerLease :=
  now ← read_clock;
  _expire_locked now ;;
  s ← gets (λ s, s);
  match sw_leases s !! lease_id with
  | None => raise SwarmStateError "unknown worker lease"
  | Some l =>
      if bool_decide (wl_state l = WorkerLeaseState.FINISHED) && bool_decide (wl_result l = Some r) then mret l
      else
        now ← read_clock;
        raise_if (negb (worker_active l now)) SwarmStateError "worker lease is no longer active" ;;
        lift (_require_result_binding (wl_contract l) r) ;;
        _finalize_elapsed lease_id ;;
        mutate_lease lease_id (λ l, set_lease_settled (Some (wl_usage l))
          (set_lease_result (Some r) (set_lease_state WorkerLeaseState.FINISHED l))) ;;
        l ← the_lease lease_id;
        on_ledger (settle (sc_contract_id (wl_contract l)) (wl_usage l)) ;;
        _persist ;;
        mret l
  end.

(** ** Cancellation and cleanup *)
Definition cancel_worker (lease_id reason : string) : prog SwarmScheduler (list string) :=
  raise_if (blank reason) SwarmContractError "cancellation reason must not be empty" ;;
  s ← gets (λ s, s);
  match sw_leases s !! lease_id with
  | None => mret []
  | Some l =>
      if negb (is_active l) then mret []
      else
        stop_lease lease_id WorkerLeaseState.CANCELLED reason ;;
        _persist ;;
        mret [lease_id]
  end.
Definition cancel_team (reason : string) : prog SwarmScheduler (list string) :=
  raise_if (blank reason) SwarmContractError "cancellation reason must not be empty" ;;
  s ← gets (λ s, s);
  if sw_cancelled s then mret []
  else
    modify (set_cancelled true) ;;
    modify (set_cancel_reason (Some reason)) ;;
    active ← gets (λ s, sorted_str (wl_lease_id <$> List.filter is_active (vals (sw_leases s))));
    for_each active (λ id, stop_lease id WorkerLeaseState.CANCELLED reason) ;;
    _persist ;;
    mret active.
Definition lease (lease_id : string) (s : SwarmScheduler) : option WorkerLease := sw_leases s !! lease_id.
Definition stop_requests (s : SwarmScheduler) : list string :=
  sorted_str (wl_lease_id <$> List.filter wl_stop_required (vals (sw_leases s))).
Definition acknowledge_stopped (lease_id : string) : prog SwarmScheduler bool :=
  s ← gets (λ s, s);
  match sw_leases s !! lease_id with
  | None => mret false
  | Some l =>
      if negb (wl_stop_required l) then mret false
      else
        mutate_lease lease_id (set_lease_stop false) ;;
        _persist ;;
        mret true
  end.

Record SwarmSnapshot := {
  sn_team_id : string; sn_identity : SwarmIdentity; sn_orchestrator_id : string; sn_cancelled : bool;
  sn_cancel_reason : option string; sn_active_workers : nat; sn_budget : TeamBudgetSnapshot }.
Definition swarm_snapshot (s : SwarmScheduler) : result SwarmSnapshot :=
  ledger ← ledger_snapshot (sw_ledger s);
  mret {| sn_team_id := tb_team_id (cf_budget (sw_config s)); sn_identity := cf_identity (sw_config s);
          sn_orchestrator_id := cf_orchestrator_id (sw_config s); sn_cancelled := sw_cancelled s;
          sn_cancel_reason := sw_cancel_reason s;
          sn_active_workers := length (ts_active_contract_ids ledger); sn_budget := ledger |}.

(** ** Recovery *)
Definition state_error (b : bool) (msg : string) : result unit := err_if b SwarmStateError msg.

Definition validate_recovered_lease (plan : SwarmPlan) (contracts : dict string SubagentContract)
    (l : WorkerLease) : result unit :=
  state_error (negb (bool_decide (contracts !! sc_contract_id (wl_contract l) = Some (wl_contract l))))
    "lease references an unknown or changed contract" ;;
  state_error (negb (bool_decide (wl_lease_id l = sc_lease_id (wl_contract l))))
    "lease identity differs from immutable contract" ;;
  require_contract_plan (wl_contract l) plan ;;
  (if is_active l then
     state_error (bool_decide (is_Some (wl_settled_usage l)) || bool_decide (is_Some (wl_result l)))
       "active lease cannot contain terminal settlement"
   else state_error (bool_decide (wl_settled_usage l = None))
          "terminal lease is missing capped settlement usage") ;;
  state_error (bool_decide (wl_state l = WorkerLeaseState.FINISHED) && bool_decide (wl_result l = None))
    "finished lease is missing its structured result" ;;
  state_error (bool_decide (wl_state l = WorkerLeaseState.OVER_BUDGET)
               && bool_decide (wl_overage_dimensions l = []))
    "over-budget lease is missing overage classification" ;;
  state_error (wl_stop_required l
               && negb (bool_decide (wl_state l ∈ [WorkerLeaseState.CANCELLED; WorkerLeaseState.TIMED_OUT])))
    "only cancelled or timed-out leases may require cleanup" ;;
  match wl_result l with
  | None => mret tt
  | Some r =>
      _require_result_binding (wl_contract l) r ;;
      if bool_decide (wl_state l = WorkerLeaseState.FINISHED) then mret tt
      else _require_controller_terminal_result l r
  end ;;
  state_error (negb (bool_decide (_overage_dimensions (wl_usage l) (wl_contract l) = wl_overage_dimensions l)))
    "recorded overage dimensions do not match observed usage" ;;
  match wl_settled_usage l with
  | None => mret tt
  | Some u =>
      capped ← _cap_usage (wl_usage l) (wl_contract l);
      state_error (negb (bool_decide (u = capped))) "capped settlement does not match observed usage"
  end.

(** [delivered]: the usage deliveries summed per lease, in the order of the index. *)
Fixpoint sum_deliveries (leases : dict string WorkerLease) (ds : list (string * (string * BudgetUsage)))
    (delivered : dict string BudgetUsage) : result (dict string BudgetUsage) :=
  match ds with
  | [] => mret delivered
  | (delivery, (lease_id, usage)) :: ds =>
      match leases !! lease_id with
      | None => Err (Exn SwarmStateError "usage delivery index is inconsistent")
      | Some l =>
          state_error (is_empty_str delivery) "usage delivery index is inconsistent" ;;
          _require_within_child usage (wl_contract l) ;;
          total ← usage_plus (default no_usage (delivered !! lease_id)) usage;
          sum_deliveries leases ds (<[lease_id := total]> delivered)
      end
  end.
Fixpoint collect_terminal (leases : dict string WorkerLease) (ds : list (string * (string * BudgetUsage)))
    (observed : dict string BudgetUsage) : result (dict string BudgetUsage) :=
  match ds with
  | [] => mret observed
  | (delivery, (lease_id, usage)) :: ds =>
      state_error (is_empty_str delivery || negb (has_key lease_id leases) || has_key lease_id observed)
        "terminal usage delivery index is inconsistent" ;;
      collect_terminal leases ds (<[lease_id := usage]> observed)
  end.
Definition check_recorded_usage (delivered observed : dict string BudgetUsage)
    (il : string * WorkerLease) : result unit :=
  u ← _usage_max (default no_usage (delivered !! il.1)) (default no_usage (observed !! il.1));
  let recorded := wl_usage il.2 in
  state_error ((bu_wall_seconds recorded <? bu_wall_seconds u)
    || negb (bool_decide (bu_tokens u = bu_tokens recorded))
    || negb (bool_decide (bu_tool_calls u = bu_tool_calls recorded))
    || negb (bool_decide (bu_cost u = bu_cost recorded)))
    "recorded usage does not match idempotent deliveries".

Definition check_recovered_receipt (s : SwarmScheduler) (cd : string * string) : result unit :=
  match sw_receipts s !! cd.2 with
  | None => Err (Exn SwarmStateError "phase receipt contract index is inconsistent")
  | Some receipt =>
      state_error (negb (bool_decide (pr_contract_id receipt = cd.1)))
        "phase receipt contract index is inconsistent" ;;
      predecessors ← _owned_receipts (pr_predecessor_receipt_hashes receipt) s;
      match l ← lease_of_contract cd.1 s; r ← wl_result l; Some (wl_contract l, r) with
      | None => Err (Exn SwarmStateError "phase receipt lacks a scheduler-owned result")
      | Some (contract, res) =>
          expected ← from_result contract res predecessors (pr_recorded_at receipt);
          state_error (negb (bool_decide (expected = receipt)))
            "phase receipt differs from scheduler-owned evidence"
      end
  end.
Definition check_recovered_authorization (s : SwarmScheduler) (da : string * PhaseAuthorization) : result unit :=
  state_error (negb (bool_decide (da.1 = PhaseAuthorization_hash da.2)))
    "phase authorization content hash mismatch" ;;
  match sw_contracts s !! pa_contract_id da.2 with
  | None => Err (Exn SwarmStateError "phase authorization references an unknown contract")
  | Some contract =>
      require_contract da.2 contract (cf_orchestrator_id (sw_config s)) ;;
      _owned_receipts (pa_predecessor_receipt_hashes da.2) s ;;
      mret tt
  end.
Definition check_consumed (s : SwarmScheduler) (dl : string * string) : result unit :=
  state_error (match sw_authorizations s !! dl.1, sw_leases s !! dl.2 with
    | Some a, Some l => negb (bool_decide (pa_contract_id a = sc_contract_id (wl_contract l)))
    | _, _ => true end) "consumed phase authorization index is inconsistent".

Definition _validate_recovered_state (s : SwarmScheduler) : result unit :=
  match sw_plan s with
  | None => Err (Exn SwarmStateError "recovered scheduler is missing its immutable plan")
  | Some plan =>
      state_error (negb (all_unique (sc_child_agent_id <$> vals (sw_contracts s))))
        "recovered child identity is assigned more than once" ;;
      state_error (negb (all_unique (sc_lease_id <$> vals (sw_contracts s))))
        "recovered worker lease ID is assigned more than once" ;;
      check_each (vals (sw_leases s)) (validate_recovered_lease plan (sw_contracts s)) ;;
      state_error (negb (size (sw_by_key s) =? size (sw_leases s))%nat) "idempotency index is incomplete" ;;
      check_each (items (sw_by_key s)) (λ kl, state_error (match sw_leases s !! kl.2 with
        | Some l => negb (bool_decide (wl_idempotency_key l = kl.1)) | None => true end)
        "idempotency index is inconsistent") ;;
      delivered ← sum_deliveries (sw_leases s) (items (sw_usage_deliveries s)) ∅;
      observed ← collect_terminal (sw_leases s) (items (sw_terminal_usage_deliveries s)) ∅;
      check_each (items (sw_leases s)) (check_recorded_usage delivered observed) ;;
      state_error (negb (bool_decide (str_set (vals (sw_receipt_by_contract s)) = str_set (keys (sw_receipts s)))))
        "phase receipt index is inconsistent" ;;
      check_each (items (sw_receipt_by_contract s)) (check_recovered_receipt s) ;;
      check_each (items (sw_authorizations s)) (check_recovered_authorization s) ;;
      check_each (items (sw_consumed_authorizations s)) (check_consumed s)
  end.

(** [model_validate] of a stored document validates the documents inside it first. *)
Definition model_validate_plan (p : SwarmPlan) : result SwarmPlan :=
  validate_SwarmIdentity (sp_identity p) ;;
  check_each (sp_phases p) (λ q, validate_SwarmPhaseSpec q ;; mret tt) ;;
  validate_SwarmPlan p.
Definition model_validate_contract (c : SubagentContract) : result SubagentContract :=
  validate_SwarmIdentity (sc_identity c) ;;
  validate_ExecutionBudget (sc_budget c) ;;
  check_each (sc_phase_inputs c) (λ i,
    check_each (pi_scout_findings i) (λ f, validate_ScoutFinding f ;; mret tt) ;;
    validate_PhaseInput i ;; mret tt) ;;
  validate_SubagentContract c.
Definition model_validate_result (r : SubagentResult) : result SubagentResult :=
  validate_SwarmIdentity (sr_identity r) ;;
  check_each (sr_scout_findings r) (λ f, validate_ScoutFinding f ;; mret tt) ;;
  validate_SubagentResult r.
Definition model_validate_receipt (r : PhaseReceipt) : result PhaseReceipt :=
  check_each (pr_scout_findings r) (λ f, validate_ScoutFinding f ;; mret tt) ;;
  validate_PhaseReceipt r.

(** The loops of [recover] that fill the dictionaries. *)
Fixpoint recover_contracts (cfg : SwarmConfig) (plan : SwarmPlan) (cs : list SubagentContract)
    (d : dict string SubagentContract) : result (dict string SubagentContract) :=
  match cs with
  | [] => mret d
  | c :: cs =>
      c ← model_validate_contract c;
      _require_team_contract cfg c ;;
      require_contract_plan c plan ;;
      recover_contracts cfg plan cs (<[sc_contract_id c := c]> d)
  end.
Definition recover_lease (contract : SubagentContract) (r : LeaseRecord) : result WorkerLease :=
  usage ← validate_BudgetUsage (lr_usage r);
  settled ← match lr_settled_usage r with
    | Some u => Some <$> validate_BudgetUsage u
    | None => mret (if bool_decide (lr_state r = WorkerLeaseState.ACTIVE) then None else Some usage) end;
  res ← match lr_result r with Some x => Some <$> model_validate_result x | None => mret None end;
  mret {| wl_lease_id := lr_lease_id r; wl_contract := contract;
    wl_idempotency_key := lr_idempotency_key r; wl_acquired_at := lr_acquired_at r;
    wl_expires_at := lr_expires_at r; wl_deadline_at := lr_deadline_at r; wl_state := lr_state r;
    wl_usage := usage; wl_settled_usage := settled; wl_overage_dimensions := lr_overage_dimensions r;
    wl_result := res; wl_terminal_reason := lr_terminal_reason r; wl_stop_required := lr_stop_required r |}.
Fixpoint recover_leases (contracts : dict string SubagentContract) (rs : list LeaseRecord)
    (d : dict string WorkerLease) : result (dict string WorkerLease) :=
  match rs with
  | [] => mret d
  | r :: rs =>
      match contracts !! lr_contract_id r with
      | None => Err (Exn KeyError (lr_contract_id r))
      | Some contract =>
          l ← recover_lease contract r;
          recover_leases contracts rs (<[wl_lease_id l := l]> d)
      end
  end.
(** [{item.content_hash: item for item in items}] *)
Definition by_hash {A} (h : A → string) (xs : list A) : dict string A :=
  foldl (λ d x, <[h x := x]> d) ∅ xs.

(** The [try] block, up to the checks that need the rebuilt ledger. *)
Definition load_checkpoint (ck : SwarmCheckpoint) : result SwarmScheduler :=
  validate_TeamBudget (cf_budget (ck_config ck)) ;;
  validate_SwarmIdentity (cf_identity (ck_config ck)) ;;
  s ← new_SwarmScheduler (ck_config ck) (Some ck);
  match ck_plan ck with
  | None => Err (Exn SwarmStateError "swarm checkpoint predates immutable plan authority")
  | Some plan =>
      plan ← model_validate_plan plan;
      state_error (negb (bool_decide (sp_identity plan = cf_identity (ck_config ck))))
        "recovered swarm plan identity mismatch" ;;
      contracts ← recover_contracts (ck_config ck) plan (ck_contracts ck) ∅;
      leases ← recover_leases contracts (ck_leases ck) ∅;
      check_each (vals (ck_usage_deliveries ck) ++ vals (ck_terminal_usage_deliveries ck))
        (λ d, validate_BudgetUsage d.2 ;; mret tt) ;;
      receipts ← map_result model_validate_receipt (ck_receipts ck);
      authorizations ← map_result validate_PhaseAuthorization (ck_authorizations ck);
      mret (set_plan (Some plan) (set_contracts contracts (set_leases leases
        (set_by_key (ck_by_key ck) (set_usage_deliveries (ck_usage_deliveries ck)
        (set_terminal_usage_deliveries (ck_terminal_usage_deliveries ck)
        (set_receipts (by_hash PhaseReceipt_hash receipts)
        (set_receipt_by_contract (ck_receipt_by_contract ck)
        (set_authorizations (by_hash PhaseAuthorization_hash authorizations)
        (set_consumed_authorizations (ck_consumed_authorizations ck)
        (set_cancelled (ck_cancelled ck) (set_cancel_reason (ck_cancel_reason ck) s))))))))))))
  end.
Definition load_and_check (ck : SwarmCheckpoint) : result SwarmScheduler :=
  s ← load_checkpoint ck;
  let '(s, r) := _rebuild_ledger s in
  r ;;
  _validate_recovered_state s ;;
  mret s.
(** Errors other than [SwarmStateError] are reported as an invalid checkpoint; the
    expired leases are reaped afterwards. *)
Definition recover (ck : SwarmCheckpoint) : result SwarmScheduler :=
  s ← match load_and_check ck with
      | Err e => if exn_isa (exn_kind e) SwarmStateError then Err e
                 else Err (Exn SwarmStateError "invalid swarm control checkpoint")
      | Ok s => mret s
      end;
  match reap_timeouts s with
  | (s, Ok _) => mret s
  | (_, Err e) => Err e
  end.
End control.
