(* ===== verification/SwarmControlFacts.v ===== *)
(** * The swarm scheduler is sound

    One relation, [evolves_ok], holds between the states before and after every
    operation, an operation that raises included: the invariant is kept and the
    history of every lease only moves forward.  The properties follow from it by
    induction on the operations. *)
From S2P Require Import Prelude PyDict PyFloat Canonical Models Swarm SwarmDocs SwarmFacts Ledger SwarmControl.
Local Open Scope Z_scope.
Import WorkerLeaseState.

Definition limits (c : SubagentContract) : BudgetUsage := {|
  bu_wall_seconds := eb_wall_seconds (sc_budget c); bu_tokens := eb_token_limit (sc_budget c);
  bu_tool_calls := eb_tool_call_limit (sc_budget c); bu_cost := eb_cost_limit (sc_budget c) |}.
Definition usage_le (a b : BudgetUsage) : Prop :=
  bu_wall_seconds a <= bu_wall_seconds b ∧ bu_tokens a <= bu_tokens b ∧
  bu_tool_calls a <= bu_tool_calls b ∧ bu_cost a <= bu_cost b.
#[export] Instance usage_le_preorder : PreOrder usage_le.
Proof. split; unfold usage_le; [intros ?|intros ???]; lia. Qed.

Lemma overage_nil u c : _overage_dimensions u c = [] ↔ usage_le u (limits c).
Proof.
  unfold _overage_dimensions, usage_le, limits. simpl.
  destruct (_ <? bu_wall_seconds u) eqn:H1, (_ <? bu_tokens u) eqn:H2,
    (_ <? bu_tool_calls u) eqn:H3, (_ <? bu_cost u) eqn:H4; simpl;
    rewrite ?Z.ltb_lt, ?Z.ltb_ge in *; (split; [done || lia|]); intros; (done || lia).
Qed.
Lemma cap_within u c : usage_valid u → usage_le u (limits c) → _cap_usage u c = Ok u.
Proof.
  unfold usage_le, limits, _cap_usage. simpl. intros Hv (H1 & H2 & H3 & H4).
  rewrite !Z.min_l by lia. destruct u. by apply validate_BudgetUsage_ok.
Qed.
Lemma cap_ok u c a : _cap_usage u c = Ok a → usage_le a (limits c) ∧ usage_le a u ∧ usage_valid a.
Proof.
  unfold _cap_usage. intros [-> H]%validate_BudgetUsage_ok. unfold usage_le, limits. simpl. split_and!; (done || lia).
Qed.
Lemma usage_max_ok a b u : _usage_max a b = Ok u → usage_le a u ∧ usage_le b u ∧ usage_valid u.
Proof.
  unfold _usage_max. intros [-> H]%validate_BudgetUsage_ok. unfold usage_le. simpl. split_and!; (done || lia).
Qed.

Section facts.
Context {PF : Platform} (clock : nat → float).

(** ** The invariant *)
Record lease_ok (contracts : dict string SubagentContract) (id : string) (l : WorkerLease) : Prop := {
  lo_id : wl_lease_id l = id ∧ sc_lease_id (wl_contract l) = id;
  lo_contract : contracts !! sc_contract_id (wl_contract l) = Some (wl_contract l);
  lo_usage : usage_valid (wl_usage l);
  lo_limits : usage_valid (limits (wl_contract l));
  lo_over : wl_overage_dimensions l = _overage_dimensions (wl_usage l) (wl_contract l);
  lo_active : wl_state l = ACTIVE →
    wl_settled_usage l = None ∧ wl_result l = None ∧ wl_overage_dimensions l = [] ∧ wl_stop_required l = false;
  lo_settled : wl_state l ≠ ACTIVE → ∃ u, wl_settled_usage l = Some u ∧ _cap_usage (wl_usage l) (wl_contract l) = Ok u;
  lo_finished : wl_state l = FINISHED → is_Some (wl_result l) ∧ wl_overage_dimensions l = [];
  lo_over_budget : wl_state l = OVER_BUDGET → wl_overage_dimensions l ≠ [];
  lo_stop : wl_stop_required l = true → wl_state l ∈ [CANCELLED; TIMED_OUT];
  lo_result r : wl_result l = Some r → _require_result_binding (wl_contract l) r = Ok tt;
}.
(** Dictionaries have distinct keys, as Python's have. *)
Definition dicts_wf (s : SwarmScheduler) : Prop :=
  dict_wf (sw_by_key s) ∧ dict_wf (sw_usage_deliveries s) ∧ dict_wf (sw_receipt_by_contract s) ∧
  dict_wf (sw_consumed_authorizations s).
Record swarm_inv (s : SwarmScheduler) : Prop := {
  si_wf : dict_wf (sw_leases s) ∧ dict_wf (sw_contracts s);
  si_dicts : dicts_wf s;
  si_contract k c : sw_contracts s !! k = Some c → sc_contract_id c = k ∧
    _require_team_contract (sw_config s) c = Ok tt ∧
    ∃ p, sw_plan s = Some p ∧ is_ok (require_contract_plan c p) = true;
  si_distinct i j c d : sw_contracts s !! i = Some c → sw_contracts s !! j = Some d → i ≠ j →
    sc_lease_id c ≠ sc_lease_id d ∧ sc_child_agent_id c ≠ sc_child_agent_id d;
  si_lease id l : sw_leases s !! id = Some l → lease_ok (sw_contracts s) id l;
  si_by_key k id : sw_by_key s !! k = Some id ↔ ∃ l, sw_leases s !! id = Some l ∧ wl_idempotency_key l = k;
  si_ledger : ledger_reachable (cf_budget (sw_config s)) (sw_ledger s);
}.

(** ** The history: leases move forward only, indexes only grow *)
Record lease_le (ack : Prop) (l l' : WorkerLease) : Prop := {
  ll_same : wl_contract l' = wl_contract l ∧ wl_idempotency_key l' = wl_idempotency_key l ∧
    wl_acquired_at l' = wl_acquired_at l ∧ wl_deadline_at l' = wl_deadline_at l;
  ll_state : wl_state l ≠ ACTIVE → wl_state l' = wl_state l ∧ wl_terminal_reason l' = wl_terminal_reason l;
  ll_result r : wl_result l = Some r → wl_result l' = Some r;
  ll_stop : wl_stop_required l = true → wl_stop_required l' = true ∨ ack;
}.
Lemma lease_le_refl ack l : lease_le ack l l.
Proof. split; auto. Qed.
Lemma lease_le_trans ack l m n : lease_le ack l m → lease_le ack m n → lease_le ack l n.
Proof.
  intros [(H1 & H2 & H3 & H4) Hs Hr Ht] [(G1 & G2 & G3 & G4) Gs Gr Gt]. split.
  - split_and!; congruence.
  - intros Hn. destruct (Hs Hn) as [Ha Hb]. destruct Gs as [Gs1 Gs2]; [congruence|]. split; congruence.
  - auto.
  - intros H. destruct (Ht H) as [?|?]; auto.
Qed.

(** [ack id]: the calls at hand may acknowledge the stop of lease [id]. *)
Record history (ack : string → Prop) (s s' : SwarmScheduler) : Prop := {
  hi_config : sw_config s' = sw_config s;
  hi_plan p : sw_plan s = Some p → sw_plan s' = Some p;
  hi_contract k c : sw_contracts s !! k = Some c → sw_contracts s' !! k = Some c;
  hi_lease id l : sw_leases s !! id = Some l → ∃ l', sw_leases s' !! id = Some l' ∧ lease_le (ack id) l l';
  hi_key k id : sw_by_key s !! k = Some id → sw_by_key s' !! k = Some id;
  hi_receipt c h : sw_receipt_by_contract s !! c = Some h → sw_receipt_by_contract s' !! c = Some h;
  hi_consumed h id : sw_consumed_authorizations s !! h = Some id → sw_consumed_authorizations s' !! h = Some id;
  hi_delivery d x : sw_usage_deliveries s !! d = Some x → sw_usage_deliveries s' !! d = Some x;
  hi_cancelled : sw_cancelled s = true → sw_cancelled s' = true ∧ sw_cancel_reason s' = sw_cancel_reason s ∧
    (∀ id, is_Some (sw_leases s' !! id) → is_Some (sw_leases s !! id));
}.
Definition evolves_ok (ack : string → Prop) (s s' : SwarmScheduler) : Prop :=
  swarm_inv s → swarm_inv s' ∧ history ack s s'.

Lemma history_refl ack s : history ack s s.
Proof. split; try done. intros id l Hl. exists l. split; [done|apply lease_le_refl]. Qed.
Lemma history_trans ack s t u : history ack s t → history ack t u → history ack s u.
Proof.
  intros H G. split.
  - rewrite (hi_config _ _ _ G). apply (hi_config _ _ _ H).
  - intros p Hp. by eapply hi_plan, hi_plan.
  - intros k c Hc. by eapply hi_contract, hi_contract.
  - intros id l Hl. destruct (hi_lease _ _ _ H _ _ Hl) as (m & Hm & H1).
    destruct (hi_lease _ _ _ G _ _ Hm) as (n & Hn & H2). exists n. split; [done|by eapply lease_le_trans].
  - intros k id Hk. by eapply hi_key, hi_key.
  - intros c h Hc. by eapply hi_receipt, hi_receipt.
  - intros h id Hh. by eapply hi_consumed, hi_consumed.
  - intros d x Hd. by eapply hi_delivery, hi_delivery.
  - intros Hc. destruct (hi_cancelled _ _ _ H Hc) as (Ht & Hr & Hd).
    destruct (hi_cancelled _ _ _ G Ht) as (Hu & Hr' & Hd'). split_and!; [done|congruence|auto].
Qed.
#[export] Instance evolves_ok_preorder ack : PreOrder (evolves_ok ack).
Proof.
  split.
  - intros s Hi. split; [done|apply history_refl].
  - intros s t u H G Hi. destruct (H Hi) as [Ht H1]. destruct (G Ht) as [Hu H2].
    split; [done|by eapply history_trans].
Qed.

(** ** Steps *)
(** [s'] may differ from [s] in the leases and in what nothing here depends on. *)
Record frame (s s' : SwarmScheduler) : Prop := {
  fr_config : sw_config s' = sw_config s;
  fr_plan : sw_plan s' = sw_plan s;
  fr_contracts : sw_contracts s' = sw_contracts s;
  fr_by_key : sw_by_key s' = sw_by_key s;
  fr_receipt c h : sw_receipt_by_contract s !! c = Some h → sw_receipt_by_contract s' !! c = Some h;
  fr_consumed h id : sw_consumed_authorizations s !! h = Some id → sw_consumed_authorizations s' !! h = Some id;
  fr_dicts : dicts_wf s → dicts_wf s';
  fr_delivery d x : sw_usage_deliveries s !! d = Some x → sw_usage_deliveries s' !! d = Some x;
  fr_cancelled : sw_cancelled s' = sw_cancelled s ∧ sw_cancel_reason s' = sw_cancel_reason s;
  fr_ledger : ledger_reachable (cf_budget (sw_config s)) (sw_ledger s) →
    ledger_reachable (cf_budget (sw_config s)) (sw_ledger s');
}.
Lemma frame_refl s : frame s s.
Proof. by split. Qed.
Lemma frame_trans s t u : frame s t → frame t u → frame s u.
Proof.
  intros [C ? ? ? ? ? ? ? [? ?] Hl] [? ? ? ? ? ? ? ? [? ?] Hl']. split; try congruence; eauto.
  - split; congruence.
  - rewrite C in Hl'. auto.
Qed.

Lemma evolves_frame ack s s' : frame s s' → sw_leases s' = sw_leases s → evolves_ok ack s s'.
Proof.
  intros [Hc Hp Hcs Hk Hr Hco Hdw Hde [Hca Hre] Hl] Hls Hi. destruct Hi. split.
  - split; rewrite ?Hls, ?Hcs, ?Hc, ?Hp, ?Hk; auto.
  - split; rewrite ?Hls, ?Hcs, ?Hc, ?Hp, ?Hk; auto.
    + intros id l H. exists l. split; [done|apply lease_le_refl].
    + intros H. by rewrite Hca, Hre.
Qed.
Lemma evolves_lease ack s s' id l l' :
  frame s s' → sw_leases s !! id = Some l → sw_leases s' = <[id := l']> (sw_leases s) →
  (lease_ok (sw_contracts s) id l → lease_ok (sw_contracts s) id l' ∧ lease_le (ack id) l l') →
  evolves_ok ack s s'.
Proof.
  intros [Hc Hp Hcs Hk Hr Hco Hdw Hde [Hca Hre] Hl] Hid Hls Hok Hi.
  destruct Hok as [Hok Hle]; [by apply si_lease|].
  destruct Hi as [[Hwf1 Hwf2] Hdicts Hcon Hdis Hlok Hby Hled]. split.
  - split; rewrite ?Hcs, ?Hc, ?Hp, ?Hk, ?Hls; auto.
    + split; [by apply dict_wf_insert|done].
    + intros j m. rewrite dict_lookup_insert. case_decide as Hj; [|by apply Hlok].
      intros [= <-]. by rewrite <- Hj.
    + intros k j. rewrite Hby. split; intros (m & Hm & Hkey).
      * rewrite dict_lookup_insert. case_decide as Hj; [|by exists m].
        subst j. assert (m = l) as -> by congruence. exists l'. split; [done|].
        destruct Hle as [(_ & -> & _) _ _ _]. done.
      * rewrite dict_lookup_insert in Hm. case_decide as Hj; [|by exists m].
        subst j. exists l. split; [done|]. destruct Hle as [(_ & <- & _) _ _ _]. congruence.
  - split; rewrite ?Hcs, ?Hc, ?Hp, ?Hk, ?Hls; auto.
    + intros j m Hm. rewrite dict_lookup_insert. case_decide as Hj.
      * subst j. assert (m = l) as -> by congruence. by exists l'.
      * exists m. split; [done|apply lease_le_refl].
    + intros Hcc. rewrite Hca, Hre. split_and!; [done..|]. intros j.
      rewrite dict_lookup_insert. case_decide as Hj; [subst j; by rewrite Hid|done].
Qed.

Lemma frame_ledger s l : (ledger_reachable (cf_budget (sw_config s)) (sw_ledger s) →
  ledger_reachable (cf_budget (sw_config s)) l) → frame s (set_ledger l s).
Proof. intros H. by split. Qed.
Lemma on_ledger_reserve_frame c s : frame s (on_ledger (reserve c) s).1 ∧
  sw_leases (on_ledger (reserve c) s).1 = sw_leases s.
Proof.
  unfold on_ledger. pose proof (ledger_reserve (cf_budget (sw_config s)) c (sw_ledger s)) as H.
  destruct (reserve c (sw_ledger s)) as [l r]. simpl in *. split; [by apply frame_ledger|done].
Qed.
Lemma on_ledger_settle_frame k u s : frame s (on_ledger (settle k u) s).1 ∧
  sw_leases (on_ledger (settle k u) s).1 = sw_leases s.
Proof.
  unfold on_ledger. pose proof (ledger_settle (cf_budget (sw_config s)) k u (sw_ledger s)) as H.
  destruct (settle k u (sw_ledger s)) as [l r]. simpl in *. split; [by apply frame_ledger|done].
Qed.

(** The pieces that leave leases alone. *)
Lemma reserve_evolves ack c : Evolves (evolves_ok ack) (on_ledger (reserve c)).
Proof. intros s. by apply evolves_frame; apply on_ledger_reserve_frame. Qed.
Lemma settle_evolves ack k u : Evolves (evolves_ok ack) (on_ledger (settle k u)).
Proof. intros s. by apply evolves_frame; apply on_ledger_settle_frame. Qed.
Lemma persist_frame s : frame s (_persist s).1 ∧ sw_leases (_persist s).1 = sw_leases s.
Proof. unfold _persist, modify. simpl. case_match; simpl; by split. Qed.
Lemma persist_evolves ack : Evolves (evolves_ok ack) _persist.
Proof. intros s. by apply evolves_frame; apply persist_frame. Qed.
Lemma clock_evolves ack : Evolves (evolves_ok ack) (read_clock clock).
Proof. intros s. apply evolves_frame; by split. Qed.
Lemma the_lease_evolves ack id : Evolves (evolves_ok ack) (the_lease id).
Proof. intros s. unfold the_lease. prog_step. by destruct (sw_leases s !! id). Qed.

(** ** Stopping a lease *)
Definition stopped (st : WorkerLeaseState.t) (reason : string) (now : float) (l : WorkerLease) : WorkerLease :=
  set_lease_settled (Some (elapsed_usage l now)) (set_lease_stop true
    (set_lease_reason (Some reason) (set_lease_state st (set_lease_usage (elapsed_usage l now) l)))).

Lemma mutate_present id f s l : sw_leases s !! id = Some l →
  mutate_lease id f s = (set_leases (<[id := f l]> (sw_leases s)) s, Ok tt).
Proof. intros H. unfold mutate_lease, modify. by rewrite H. Qed.
Lemma the_lease_present id s l : sw_leases s !! id = Some l → the_lease id s = (s, Ok l).
Proof. intros H. unfold the_lease. prog_step. by rewrite H. Qed.

Lemma stop_lease_eq id st reason s l :
  sw_leases s !! id = Some l →
  stop_lease clock id st reason s =
    on_ledger (settle (sc_contract_id (wl_contract l)) (elapsed_usage l (clock (sw_ticks s))))
      (set_leases (<[id := stopped st reason (clock (sw_ticks s)) l]> (sw_leases s)) (set_ticks (S (sw_ticks s)) s)).
Proof.
  intros Hl. set (now := clock (sw_ticks s)). unfold stop_lease, _finalize_elapsed.
  rewrite !prog_bind_eq. unfold read_clock at 1. fold now.
  rewrite (mutate_present id _ _ l) by done. rewrite prog_bind_eq.
  rewrite (mutate_present id _ _ (set_lease_usage (elapsed_usage l now) l)) by apply dict_lookup_insert_eq.
  rewrite prog_bind_eq. erewrite the_lease_present by apply dict_lookup_insert_eq.
  simpl. rewrite dict_insert_insert. done.
Qed.
Lemma stop_lease_run id st reason s l :
  sw_leases s !! id = Some l →
  ∃ t, frame s t ∧ sw_leases t = <[id := stopped st reason (clock (sw_ticks s)) l]> (sw_leases s) ∧
    stop_lease clock id st reason s =
      on_ledger (settle (sc_contract_id (wl_contract l)) (elapsed_usage l (clock (sw_ticks s)))) t.
Proof. intros Hl. eexists. split_and!; [| |by apply stop_lease_eq]; [by split|done]. Qed.

Lemma elapsed_within contracts id l now : lease_ok contracts id l → wl_state l = ACTIVE →
  usage_valid (elapsed_usage l now) ∧ usage_le (elapsed_usage l now) (limits (wl_contract l)).
Proof.
  intros H Ha. destruct (lo_active _ _ _ H Ha) as (_ & _ & Ho & _).
  rewrite (lo_over _ _ _ H) in Ho. apply overage_nil in Ho as (_ & H2 & H3 & H4).
  destruct (lo_usage _ _ _ H) as (? & ? & ? & ?), (lo_limits _ _ _ H) as (? & _).
  unfold usage_valid, usage_le, elapsed_usage, limits in *. simpl in *. split_and!; try done; lia.
Qed.

Lemma stopped_ok ack contracts id l st reason now :
  st ∈ [CANCELLED; TIMED_OUT] → wl_state l = ACTIVE → lease_ok contracts id l →
  lease_ok contracts id (stopped st reason now l) ∧ lease_le ack l (stopped st reason now l).
Proof.
  intros Hst Ha H. destruct (elapsed_within _ _ _ now H Ha) as [Hv Hle].
  destruct (lo_active _ _ _ H Ha) as (Hs & Hr & Ho & Hstop).
  assert (st ≠ ACTIVE ∧ st ≠ FINISHED ∧ st ≠ OVER_BUDGET) as (N1 & N2 & N3) by (set_unfold; naive_solver).
  split.
  - destruct H. split; simpl; try done.
    + rewrite Ho. symmetry. by apply overage_nil.
    + intros _. exists (elapsed_usage l now). split; [done|]. by apply cap_within.
  - split; simpl; [by split|done|done|by left].
Qed.

Lemma stop_lease_evolves ack id st reason s l :
  st ∈ [CANCELLED; TIMED_OUT] → sw_leases s !! id = Some l → wl_state l = ACTIVE →
  evolves_ok ack s (stop_lease clock id st reason s).1.
Proof.
  intros Hst Hl Ha. destruct (stop_lease_run id st reason s l Hl) as (t & Hf & Hls & ->).
  transitivity t; [|apply settle_evolves]. eapply evolves_lease; [done..|]. by apply stopped_ok.
Qed.
Lemma stop_lease_leases id st reason s l :
  sw_leases s !! id = Some l →
  sw_leases (stop_lease clock id st reason s).1 = <[id := stopped st reason (clock (sw_ticks s)) l]> (sw_leases s).
Proof.
  intros Hl. destruct (stop_lease_run id st reason s l Hl) as (t & Hf & Hls & ->). rewrite <- Hls.
  apply on_ledger_settle_frame.
Qed.

(** A loop that stops leases one after the other. *)
Section stop_all.
Context (st : WorkerLeaseState.t) (body : string → prog SwarmScheduler unit).
Context (Hst : st ∈ [CANCELLED; TIMED_OUT]).
Context (Hbody : ∀ id s l, sw_leases s !! id = Some l → ∃ reason, body id s = stop_lease clock id st reason s).

Lemma body_leases id s l : sw_leases s !! id = Some l →
  ∃ reason, sw_leases (body id s).1 = <[id := stopped st reason (clock (sw_ticks s)) l]> (sw_leases s).
Proof.
  intros Hl. destruct (Hbody id s l Hl) as [reason Hb]. exists reason. rewrite Hb. by apply stop_lease_leases.
Qed.
Lemma stop_all_untouched ids s j :
  j ∉ ids → (∀ id, id ∈ ids → is_Some (sw_leases s !! id)) →
  sw_leases (for_each ids body s).1 !! j = sw_leases s !! j.
Proof.
  revert s. induction ids as [|id ids IH]; intros s Hj Hids; [done|].
  apply not_elem_of_cons in Hj as [Hne Hj]. destruct (Hids id (list_elem_of_here _ _)) as [l Hl].
  destruct (body_leases id s l Hl) as [reason Hls]. cbn [for_each]. rewrite prog_bind_eq.
  destruct (body id s) as [s' [[]|e]]; simpl in *; [|by rewrite Hls, dict_lookup_insert_ne].
  rewrite IH; [by rewrite Hls, dict_lookup_insert_ne|done|]. intros k Hk. rewrite Hls, dict_lookup_insert.
  case_decide; [done|]. apply Hids. by right.
Qed.
Lemma stop_all_evolves ack ids s :
  NoDup ids → (∀ id, id ∈ ids → ∃ l, sw_leases s !! id = Some l ∧ wl_state l = ACTIVE) →
  evolves_ok ack s (for_each ids body s).1 ∧
  (is_ok (for_each ids body s).2 = true → ∀ id, id ∈ ids →
     ∃ l, sw_leases (for_each ids body s).1 !! id = Some l ∧ wl_state l = st ∧ wl_stop_required l = true).
Proof.
  intros Hnd. revert s Hnd. induction ids as [|id ids IH]; intros s Hnd Hids.
  { split; [done|]. by intros _ id ?%elem_of_nil. }
  apply NoDup_cons in Hnd as [Hid Hnd]. destruct (Hids id (list_elem_of_here _ _)) as (l & Hl & Ha).
  destruct (Hbody id s l Hl) as [reason Hb]. cbn [for_each]. rewrite prog_bind_eq, Hb.
  pose proof (stop_lease_evolves ack id st reason s l Hst Hl Ha) as He.
  pose proof (stop_lease_leases id st reason s l Hl) as Hls.
  destruct (stop_lease clock id st reason s) as [s' [[]|e]]; simpl in He, Hls; [|by split].
  assert (∀ j, j ∈ ids → ∃ l, sw_leases s' !! j = Some l ∧ wl_state l = ACTIVE) as Hids'.
  { intros j Hj. rewrite Hls, dict_lookup_insert_ne; [apply Hids; by right|]. by intros ->. }
  destruct (IH s' Hnd Hids') as [He' Hok]. split; [by transitivity s'|].
  intros Hr j [->|Hj]%elem_of_cons; [|by apply Hok]. rewrite stop_all_untouched; [|done|].
  - rewrite Hls, dict_lookup_insert_eq. by eexists.
  - intros k Hk. destruct (Hids' k Hk) as (? & ? & _). eauto.
Qed.
End stop_all.

(** The ids of the leases that satisfy [p], sorted. *)
Lemma lease_ids_spec (p : WorkerLease → bool) s (ids := sorted_str (wl_lease_id <$> List.filter p (vals (sw_leases s)))) :
  swarm_inv s → NoDup ids ∧ ∀ id, id ∈ ids ↔ ∃ l, sw_leases s !! id = Some l ∧ p l = true.
Proof.
  intros Hi. destruct (si_wf _ Hi) as [Hwf _].
  assert (∀ kl, kl ∈ items (sw_leases s) → wl_lease_id kl.2 = kl.1) as Hkey.
  { intros [k l] Hin. apply dict_elem_lookup in Hin; [|done]. by apply (lo_id _ _ _ (si_lease _ Hi _ _ Hin)). }
  split.
  - unfold ids. rewrite sorted_str_perm. unfold vals, dict_wf, keys in *. clear -Hwf Hkey.
    induction (items (sw_leases s)) as [|[k l] xs IH]; [constructor|].
    rewrite fmap_cons in *. apply NoDup_cons in Hwf as [Hk Hnd]. cbn [List.filter].
    assert (NoDup (wl_lease_id <$> List.filter p xs.*2)) as IH'.
    { apply IH; [done|]. intros kl Hin. apply Hkey. by right. }
    case_match; [|done]. rewrite fmap_cons. apply NoDup_cons. split; [|done]. simpl.
    pose proof (Hkey (k, l) (list_elem_of_here _ _)) as E. simpl in E. rewrite E.
    intros (m & Hm & Hin)%list_elem_of_fmap. apply Hk. rewrite Hm. apply list_elem_of_In in Hin.
    apply filter_In in Hin as [Hin _]. apply list_elem_of_In in Hin.
    apply list_elem_of_fmap in Hin as (km & -> & Hin).
    rewrite (Hkey km) by by right. exact (list_elem_of_fmap_2 fst xs km Hin).
  - intros id. unfold ids. rewrite elem_of_sorted_str, list_elem_of_fmap. split.
    + intros (l & -> & Hin). apply list_elem_of_In, filter_In in Hin as [Hin Hp].
      apply list_elem_of_In in Hin. apply elem_of_vals in Hin as [k Hk]; [|done].
      exists l. split; [|done]. destruct (lo_id _ _ _ (si_lease _ Hi _ _ Hk)) as [-> _]. done.
    + intros (l & Hl & Hp). exists l. destruct (lo_id _ _ _ (si_lease _ Hi _ _ Hl)) as [-> _]. split; [done|].
      apply list_elem_of_In, filter_In. split; [|done]. apply list_elem_of_In. by eapply dict_lookup_vals.
Qed.
Lemma is_active_true l : is_active l = true ↔ wl_state l = ACTIVE.
Proof. apply bool_decide_eq_true. Qed.

Lemma expire_evolves ack now : Evolves (evolves_ok ack) (_expire_locked clock now).
Proof.
  intros s Hi. destruct (lease_ids_spec (λ l, is_active l && (lease_end l <=? now)) s Hi) as [Hnd Hids].
  revert Hi. change (evolves_ok ack s (_expire_locked clock now s).1). unfold _expire_locked.
  rewrite prog_bind_eq. cbn [gets]. rewrite prog_bind_eq.
  match goal with |- context [for_each ?ids ?b s] => pose proof (stop_all_evolves TIMED_OUT b) as Hall end.
  destruct (Hall ltac:(set_solver)) with (ack := ack) (ids := expired_ids now s) (s := s) as [He _].
  - intros id t l Hl. rewrite prog_bind_eq, (the_lease_present _ _ l Hl). by eexists.
  - done.
  - intros id Hin. apply Hids in Hin as (l & Hl & Ha). exists l. split; [done|].
    apply andb_prop in Ha as [Ha _]. by apply is_active_true.
  - destruct (for_each _ _ s) as [s' [[]|e]]; done.
Qed.

(** ** Operations on the plan, the contracts and the documents *)
Lemma mutate_evolves ack id f l {A} (k : unit → prog SwarmScheduler A) s :
  sw_leases s !! id = Some l →
  (lease_ok (sw_contracts s) id l → lease_ok (sw_contracts s) id (f l) ∧ lease_le (ack id) l (f l)) →
  Evolves (evolves_ok ack) (k tt) →
  evolves_ok ack s ((mutate_lease id f ≫= k) s).1.
Proof.
  intros Hl Hok Hk. rewrite prog_bind_eq, (mutate_present _ _ _ _ Hl).
  etransitivity; [|apply Hk]. eapply (evolves_lease _ _ _ id l); [by split|done..].
Qed.

Lemma then_persist ack {A} (a : A) : Evolves (evolves_ok ack) (_persist ;; mret a).
Proof. apply evolves_bind; [apply _|apply persist_evolves|intros _; apply evolves_ret, _]. Qed.
Lemma then_persist_lease ack id : Evolves (evolves_ok ack) (_persist ;; the_lease id).
Proof. apply evolves_bind; [apply _|apply persist_evolves|intros _; apply the_lease_evolves]. Qed.

Lemma settle_then_persist ack k u {A} (a : A) :
  Evolves (evolves_ok ack) (on_ledger (settle k u) ;; _persist ;; mret a).
Proof. apply evolves_bind; [apply _|apply settle_evolves|intros _; apply then_persist]. Qed.

Lemma no_items {V} (d : dict string V) k : items d = [] → d !! k = None.
Proof. destruct d as [l]. simpl. by intros ->. Qed.

Lemma register_plan_evolves ack p : Evolves (evolves_ok ack) (register_plan p).
Proof.
  intros s. unfold register_plan. prog_step. rewrite prog_bind_eq.
  destruct (bool_decide (sp_identity p = _)); [|done]. cbn [raise_if negb mret prog_ret].
  destruct (sw_plan s) as [q|] eqn:Hp; [unfold raise_if; by case_match|]. rewrite prog_bind_eq.
  destruct (bool_decide (items (sw_contracts s) = [])) eqn:Hc; [|done].
  destruct (bool_decide (items (sw_leases s) = [])) eqn:Hl; [|done].
  cbn [raise_if negb orb mret prog_ret].
  apply bool_decide_eq_true in Hc, Hl. rewrite prog_bind_eq. cbn [modify].
  transitivity (set_plan (Some p) s); [|apply persist_evolves].
  intros [Hwf Hdicts Hcon Hdis Hlok Hby Hled]. split.
  - split; simpl; try done. intros k c Hk. by rewrite (no_items _ k Hc) in Hk.
  - split; simpl; try done; try congruence. intros id l Hid. by rewrite (no_items _ id Hl) in Hid.
Qed.

Lemma existsb_false_vals {V} (f : V → bool) (d : dict string V) k v :
  existsb f (vals d) = false → d !! k = Some v → f v = false.
Proof. intros H Hk. rewrite existsb_elem_of_false in H. apply H. by eapply dict_lookup_vals. Qed.

Lemma register_evolves ack c : Evolves (evolves_ok ack) (register c).
Proof.
  intros s. unfold register. prog_step. rewrite prog_bind_eq. cbn [lift].
  destruct (_require_team_contract (sw_config s) c) as [[]|] eqn:Ht; [|done].
  destruct (sw_plan s) as [p|] eqn:Hp; [|done]. rewrite prog_bind_eq. cbn [lift].
  destruct (require_contract_plan c p) as [ph|] eqn:Hph; [|done].
  destruct (sw_contracts s !! sc_contract_id c) as [q|] eqn:Hfresh; [unfold raise_if; by case_match|].
  rewrite prog_bind_eq. destruct (existsb _ _) eqn:Hch; [done|]. cbn [raise_if mret prog_ret].
  rewrite prog_bind_eq. destruct (existsb (λ i, bool_decide (sc_lease_id i = _)) _) eqn:Hle; [done|].
  cbn [raise_if mret prog_ret]. rewrite prog_bind_eq. cbn [modify].
  transitivity (set_contracts (<[sc_contract_id c:=c]> (sw_contracts s)) s); [|apply persist_evolves].
  assert (∀ k d, sw_contracts s !! k = Some d → sc_lease_id d ≠ sc_lease_id c ∧ sc_child_agent_id d ≠ sc_child_agent_id c) as Hnew.
  { intros k d Hd. pose proof (existsb_false_vals _ _ _ _ Hch Hd) as H1.
    pose proof (existsb_false_vals _ _ _ _ Hle Hd) as H2. by apply bool_decide_eq_false in H1, H2. }
  intros [Hwf Hdicts Hcon Hdis Hlok Hby Hled]. split.
  - split; simpl; try done.
    + split; [apply Hwf|]. apply dict_wf_insert, Hwf.
    + intros k d. rewrite dict_lookup_insert. case_decide as Hk; [|apply Hcon].
      intros [= <-]. split_and!; [done..|]. exists p. split; [done|]. by rewrite Hph.
    + intros i j x y. rewrite !dict_lookup_insert. do 2 case_decide; intros Hx Hy Hij; simplify_eq.
      * split; apply not_eq_sym; by eapply Hnew.
      * by eapply Hnew.
      * by eapply Hdis.
    + intros id l Hl. destruct (Hlok _ _ Hl). split; try done. rewrite dict_lookup_insert_ne; [done|]. congruence.
  - split; simpl; try done.
    + intros k d Hd. rewrite dict_lookup_insert_ne; [done|]. congruence.
    + intros id l Hl. exists l. split; [done|apply lease_le_refl].
Qed.

Lemma record_phase_receipt_evolves ack id hs now : Evolves (evolves_ok ack) (record_phase_receipt id hs now).
Proof.
  intros s. unfold record_phase_receipt. prog_gets.
  destruct (sw_leases s !! id ≫= _) as [[contract res]|]; [|done].
  destruct (sw_receipt_by_contract s !! sc_contract_id contract) as [h|] eqn:Hfresh.
  { by destruct (sw_receipts s !! h). }
  rewrite prog_bind_eq. cbn [lift]. destruct (_owned_receipts hs s) as [preds|]; [|done].
  rewrite prog_bind_eq. cbn [lift]. destruct (from_result contract res preds now) as [rc|] eqn:Hrc; [|done].
  do 2 (rewrite prog_bind_eq; cbn [modify]). etransitivity; [|apply then_persist].
  apply evolves_frame; [|done]. split; try done; simpl.
  - intros c h Hc. apply from_result_contract in Hrc as ->. rewrite dict_lookup_insert_ne; [done|]. congruence.
  - intros (? & ? & ? & ?). split_and!; try done. by apply dict_wf_insert.
Qed.

Lemma issue_phase_authorization_evolves ack id hs now :
  Evolves (evolves_ok ack) (issue_phase_authorization id hs now).
Proof.
  intros s. unfold issue_phase_authorization. prog_gets.
  destruct (sw_contracts s !! id) as [contract|]; [|done].
  prog_lift Hp preds. prog_lift Hi a. prog_raise Hq.
  rewrite prog_bind_eq. cbn [modify]. etransitivity; [|apply then_persist].
  apply evolves_frame; by split.
Qed.

(** ** Liveness, usage, results *)
Lemma worker_active_true l now : worker_active l now = true → wl_state l = ACTIVE ∧ now < lease_end l.
Proof. intros [Ha%is_active_true Hl%Z.ltb_lt]%andb_prop. done. Qed.

Lemma heartbeat_evolves ack id : Evolves (evolves_ok ack) (heartbeat clock id).
Proof.
  apply evolves_bind; [apply _|apply clock_evolves|]. intros now s. prog_gets.
  destruct (sw_leases s !! id) as [l|] eqn:Hl; [|done].
  destruct (worker_active l now) eqn:Ha; [|done]. cbn [negb].
  eapply mutate_evolves; [done| |apply then_persist].
  intros []. split; split; by try left.
Qed.

Lemma charge_evolves ack id u d : Evolves (evolves_ok ack) (charge clock id u d).
Proof.
  intros s. unfold charge. prog_raise Hd. revert s.
  apply evolves_bind; [apply _|apply clock_evolves|]. intros now.
  apply evolves_bind; [apply _|apply expire_evolves|]. intros _ s. prog_gets. rewrite prog_bind_eq.
  destruct (sw_leases s !! id) as [l|] eqn:Hl; [|done]. rewrite prog_bind_eq. unfold read_clock at 1.
  destruct (worker_active l _) eqn:Ha; cbn [mret prog_ret].
  2:{ apply (clock_evolves ack s). }
  apply worker_active_true in Ha as [Ha _].
  etransitivity; [apply (clock_evolves ack s)|]. unfold read_clock. simpl fst. set (t := set_ticks _ s).
  destruct (sw_usage_deliveries s !! strip d) as [prior|] eqn:Hfresh; [prog_raise Hp; done|].
  prog_lift Hu updated. prog_lift Hw w. destruct w.
  unfold _require_within_child in Hw. apply within_contract_ok in Hw. apply usage_plus_ok in Hu as (_ & _ & _ & _ & Hv).
  rewrite prog_bind_eq, (mutate_present _ _ _ l) by done. prog_modify. etransitivity; [|apply then_persist_lease].
  eapply (evolves_lease _ _ _ id l); [|done|done|].
  - split; try done; simpl.
    + intros (? & ? & ? & ?). split_and!; try done. by apply dict_wf_insert.
    + intros d' x Hx. rewrite dict_lookup_insert_ne; [done|]. congruence.
  - intros Hok. pose proof (lo_active _ _ _ Hok Ha) as (Hs & Hr & Ho & Hst). destruct Hok. split.
    + split; simpl; try done. rewrite Ho. symmetry. by apply overage_nil.
    + split; simpl; auto.
Qed.

Lemma record_terminal_result_evolves ack id r : Evolves (evolves_ok ack) (record_terminal_result id r).
Proof.
  intros s. unfold record_terminal_result. prog_gets. destruct (sw_leases s !! id) as [l|] eqn:Hl; [|done].
  prog_raise Hst. apply negb_false_iff, bool_decide_eq_true in Hst. prog_lift Hb tt1. destruct tt1. prog_lift Hc tt2.
  destruct (wl_result l) as [prior|] eqn:Hr; [prog_raise Hp; done|].
  eapply mutate_evolves; [done| |apply then_persist_lease].
  assert (wl_state l ≠ ACTIVE ∧ wl_state l ≠ FINISHED) as [N1 N2]
    by (split; intros E; rewrite E in Hst; set_solver).
  intros Hok. destruct Hok. split; split; simpl; try done; auto; try (intros; congruence).
Qed.
Lemma record_overage_result_evolves ack id r : Evolves (evolves_ok ack) (record_overage_result id r).
Proof. intros s. unfold record_overage_result. prog_gets. prog_raise H. apply record_terminal_result_evolves. Qed.

Lemma complete_evolves ack id r : Evolves (evolves_ok ack) (complete clock id r).
Proof.
  apply evolves_bind; [apply _|apply clock_evolves|]. intros now.
  apply evolves_bind; [apply _|apply expire_evolves|]. intros _ s. prog_gets.
  destruct (sw_leases s !! id) as [l|] eqn:Hl; [|done]. case_match; [done|]. clear H.
  rewrite prog_bind_eq. unfold read_clock at 1. cbv beta iota.
  etransitivity; [apply (clock_evolves ack s)|]. unfold read_clock. simpl fst. set (t := set_ticks _ s).
  prog_raise Ha. apply negb_false_iff, worker_active_true in Ha as [Ha _]. prog_lift Hb tt1. destruct tt1.
  unfold _finalize_elapsed. rewrite !prog_bind_eq. unfold read_clock at 1.
  set (l1 := set_lease_usage (elapsed_usage l (clock (sw_ticks t))) l).
  rewrite (mutate_present _ _ _ l) by done. rewrite prog_bind_eq.
  rewrite (mutate_present _ _ _ l1) by apply dict_lookup_insert_eq. rewrite prog_bind_eq.
  erewrite the_lease_present by apply dict_lookup_insert_eq. simpl sw_leases. rewrite dict_insert_insert.
  etransitivity; [|apply settle_then_persist].
  eapply (evolves_lease _ _ _ id l); [by split|done|done|].
  intros Hok. destruct (elapsed_within _ _ _ (clock (sw_ticks t)) Hok Ha) as [Hv Hle].
  pose proof (lo_active _ _ _ Hok Ha) as (Hs & Hr & Ho & Hstop). destruct Hok. split; split; simpl; try done; auto.
  - rewrite Ho. symmetry. by apply overage_nil.
  - intros _. exists (elapsed_usage l (clock (sw_ticks t))). split; [done|]. by apply cap_within.
  - by rewrite Hstop.
  - by intros x [= <-].
  - by rewrite Hr.
Qed.

(** ** Terminal usage *)
Lemma for_each_evolves ack {A} (xs : list A) (body : A → prog SwarmScheduler unit) :
  (∀ x, Evolves (evolves_ok ack) (body x)) → Evolves (evolves_ok ack) (for_each xs body).
Proof. intros H. apply evolves_for_each; [apply _|]. intros x _. apply H. Qed.

Lemma rebuild_evolves ack : Evolves (evolves_ok ack) _rebuild_ledger.
Proof.
  intros s Hi. revert Hi. change (evolves_ok ack s (_rebuild_ledger s).1). unfold _rebuild_ledger. prog_gets. prog_modify.
  transitivity (set_ledger (new_TeamBudgetLedger (cf_budget (sw_config s))) s).
  - apply evolves_frame; [|done]. apply frame_ledger. intros Hr. apply ledger_new.
    by apply ledger_reachable_valid in Hr.
  - match goal with |- evolves_ok _ ?t (?m _).1 => assert (Evolves (evolves_ok ack) m) as Hm; [|apply Hm] end.
    apply evolves_bind; [apply _| |intros _].
    + apply for_each_evolves. intros l. destruct (wl_settled_usage l) as [u|]; [|by intros t].
      apply evolves_bind; [apply _|apply reserve_evolves|intros _; apply settle_evolves].
    + apply for_each_evolves. intros l. apply reserve_evolves.
Qed.

Lemma observe_step ack s id l retained accounted dims st reason settled :
  sw_leases s !! id = Some l → wl_state l ≠ FINISHED →
  usage_valid retained → usage_le (wl_usage l) retained → dims = _overage_dimensions retained (wl_contract l) →
  _cap_usage retained (wl_contract l) = Ok accounted →
  (st, reason, settled) =
    (if is_active l then
       if bool_decide (dims = []) then (wl_state l, wl_terminal_reason l, wl_settled_usage l)
       else (OVER_BUDGET, Some ("budget_exceeded:" +:+ str_join "," dims), Some accounted)
     else (wl_state l, wl_terminal_reason l, Some accounted)) →
  lease_ok (sw_contracts s) id l →
  let l' := set_lease_settled settled (set_lease_reason reason (set_lease_state st
              (set_lease_overage dims (set_lease_usage retained l)))) in
  lease_ok (sw_contracts s) id l' ∧ lease_le (ack id) l l'.
Proof.
  intros Hl Hnf Hv Hle Hd Hcap Hst Hok. unfold is_active in Hst. case_bool_decide as Ha.
  - pose proof (lo_active _ _ _ Hok Ha) as (Hs & Hr & Ho & Hstop). case_bool_decide as Hdim.
    + injection Hst as -> -> ->. destruct Hok. split; split; simpl; try done; auto. congruence.
    + injection Hst as -> -> ->. destruct Hok. split; split; simpl; try done; auto.
      * intros _. by exists accounted.
      * by rewrite Hstop.
  - injection Hst as -> -> ->.
    assert (wl_overage_dimensions l ≠ [] → dims ≠ []) as Hmono.
    { intros Hne E. apply Hne. rewrite (lo_over _ _ _ Hok). apply overage_nil.
      transitivity retained; [done|]. apply overage_nil. congruence. }
    destruct Hok. split; split; simpl; try done; auto.
    intros _. by exists accounted.
Qed.

Lemma then_persist_settlement ack id :
  Evolves (evolves_ok ack) (_persist ;; l ← the_lease id; lift (_usage_settlement l false)).
Proof.
  apply evolves_bind; [apply _|apply persist_evolves|intros _].
  apply evolves_bind; [apply _|apply the_lease_evolves|intros l t; done].
Qed.

Lemma observe_terminal_usage_evolves ack id u d : Evolves (evolves_ok ack) (observe_terminal_usage id u d).
Proof.
  intros s. unfold observe_terminal_usage. prog_raise Hd. prog_gets.
  destruct (sw_leases s !! id) as [l|] eqn:Hl; [|done].
  destruct (sw_terminal_usage_deliveries s !! strip d) as [prior|]; [prog_raise Hp; done|].
  prog_raise H1. prog_raise Hf. apply bool_decide_eq_false in Hf. prog_lift Hm retained. prog_lift Hcap accounted.
  apply usage_max_ok in Hm as (Hle & _ & Hv). set (dims := _overage_dimensions retained (wl_contract l)).
  pose proof (observe_step ack s id l retained accounted dims) as Hstep.
  rewrite prog_bind_eq, (mutate_present _ _ _ l Hl). prog_modify.
  set (l1 := set_lease_overage dims (set_lease_usage retained l)) in *.
  set (t := set_terminal_usage_deliveries _ _).
  assert (sw_leases t !! id = Some l1) as Hl1 by apply dict_lookup_insert_eq.
  assert (sw_leases t = <[id := l1]> (sw_leases s)) as Ht by done.
  rewrite prog_bind_eq. destruct (is_active l) eqn:Ha.
  - destruct (bool_decide (dims = [])) eqn:Hdim.
    + cbn [mret prog_ret]. etransitivity; [|apply then_persist_settlement].
      eapply (evolves_lease _ _ _ id l l1); [by split|done..|]. intros Hok.
      eapply Hstep; (done || by rewrite ?Ha, ?Hdim).
    + rewrite prog_bind_eq, (mutate_present _ _ _ l1 Hl1).
      set (l2 := set_lease_settled _ _). set (t2 := set_leases _ _).
      transitivity t2.
      * eapply (evolves_lease _ _ _ id l l2); [by split|done| |].
        { unfold t2. simpl. by rewrite dict_insert_insert. }
        intros Hok. eapply Hstep; (done || by rewrite ?Ha, ?Hdim).
      * pose proof (settle_evolves ack (sc_contract_id (wl_contract l)) accounted t2) as Hs. revert Hs.
        destruct (on_ledger _ t2) as [t3 [[]|e]]; simpl; intros Hs; [|done].
        etransitivity; [apply Hs|]. apply then_persist_settlement.
  - rewrite prog_bind_eq, (mutate_present _ _ _ l1 Hl1).
    set (l2 := set_lease_settled _ _). set (t2 := set_leases _ _).
    transitivity t2.
    + eapply (evolves_lease _ _ _ id l l2); [by split|done| |].
      { unfold t2. simpl. by rewrite dict_insert_insert. }
      intros Hok. eapply Hstep; (done || by rewrite ?Ha).
    + pose proof (rebuild_evolves ack t2) as Hs. revert Hs.
      destruct (_rebuild_ledger t2) as [t3 [[]|e]]; simpl; intros Hs; [|done].
      etransitivity; [apply Hs|]. apply then_persist_settlement.
Qed.

(** ** Cancellation, expiry, acknowledgement *)
Lemma cancel_worker_evolves ack id reason : Evolves (evolves_ok ack) (cancel_worker clock id reason).
Proof.
  intros s. unfold cancel_worker. prog_raise Hb. prog_gets.
  destruct (sw_leases s !! id) as [l|] eqn:Hl; [|done].
  destruct (is_active l) eqn:Ha; [|done]. cbn [negb]. apply is_active_true in Ha. rewrite prog_bind_eq.
  pose proof (stop_lease_evolves ack id CANCELLED reason s l ltac:(set_solver) Hl Ha) as He. revert He.
  destruct (stop_lease _ _ _ _ s) as [t [[]|e]]; simpl; [|done]. intros He. etransitivity; [exact He|].
  exact (then_persist ack [id] t).
Qed.

Lemma cancel_flags_evolves ack s reason : sw_cancelled s = false →
  evolves_ok ack s (set_cancel_reason (Some reason) (set_cancelled true s)).
Proof.
  intros Hc [Hwf Hdicts Hcon Hdis Hlok Hby Hled]. split; [by split|]. split; simpl; try done; [|congruence].
  intros id l Hl. exists l. split; [done|apply lease_le_refl].
Qed.
Definition active_ids (s : SwarmScheduler) : list string :=
  sorted_str (wl_lease_id <$> List.filter is_active (vals (sw_leases s))).
Lemma cancel_loop reason t : swarm_inv t →
  let run := for_each (active_ids t) (λ id, stop_lease clock id CANCELLED reason) t in
  (∀ ack, evolves_ok ack t run.1) ∧
  (is_ok run.2 = true → ∀ id, id ∈ active_ids t →
     ∃ l, sw_leases run.1 !! id = Some l ∧ wl_state l = CANCELLED ∧ wl_stop_required l = true).
Proof.
  intros Hi run. destruct (lease_ids_spec is_active t Hi) as [Hnd Hids].
  assert (∀ ack, evolves_ok ack t run.1 ∧ (is_ok run.2 = true → ∀ id, id ∈ active_ids t →
     ∃ l, sw_leases run.1 !! id = Some l ∧ wl_state l = CANCELLED ∧ wl_stop_required l = true)) as H.
  { intros ack. apply (stop_all_evolves CANCELLED); [set_solver|eauto|done|].
    intros id Hin. apply Hids in Hin as (l & Hl & Ha). exists l. split; [done|]. by apply is_active_true. }
  split; [apply H|]. apply (H (λ _, False)).
Qed.
Lemma cancel_team_evolves ack reason : Evolves (evolves_ok ack) (cancel_team clock reason).
Proof.
  intros s. unfold cancel_team. prog_raise Hb. prog_gets. destruct (sw_cancelled s) eqn:Hc; [done|].
  do 2 prog_modify. prog_gets. set (t := set_cancel_reason _ _).
  transitivity t; [by apply cancel_flags_evolves|]. rewrite prog_bind_eq. fold (active_ids t).
  assert (evolves_ok ack t (for_each (active_ids t) (λ id, stop_lease clock id CANCELLED reason) t).1) as He.
  { intros Hi. by apply (proj1 (cancel_loop reason t Hi)). }
  destruct (for_each _ _ t) as [t' [[]|e]]; [|exact He].
  etransitivity; [exact He|]. exact (then_persist ack _ t').
Qed.
Lemma reap_timeouts_evolves ack : Evolves (evolves_ok ack) (reap_timeouts clock).
Proof.
  apply evolves_bind; [apply _|apply clock_evolves|]. intros now.
  apply evolves_bind; [apply _|apply expire_evolves|]. intros expired.
  apply evolves_bind; [apply _| |intros _; apply evolves_ret, _].
  case_match; [apply evolves_ret, _|apply persist_evolves].
Qed.
Lemma acknowledge_stopped_evolves (ack : string → Prop) id : ack id → Evolves (evolves_ok ack) (acknowledge_stopped id).
Proof.
  intros Hack s. unfold acknowledge_stopped. prog_gets. destruct (sw_leases s !! id) as [l|] eqn:Hl; [|done].
  destruct (wl_stop_required l) eqn:Hs; [|done]. cbn [negb].
  eapply mutate_evolves; [done| |apply then_persist].
  intros Hok. destruct Hok. split; split; simpl; try done; auto. intros Ha. by destruct (lo_active0 Ha) as (? & ? & ? & _).
Qed.

(** ** Admission *)
Lemma reserve_limits c l : is_ok (reserve c l).2 = true → usage_valid (limits c).
Proof.
  unfold reserve. prog_gets. prog_raise H1. prog_raise H2. prog_raise H3. prog_lift H4 w. prog_lift H5 u.
  intros _. by apply validate_BudgetUsage_ok in H5 as [_ H5].
Qed.

Definition new_lease (cfg : SwarmConfig) (contract : SubagentContract) (key : string) (now : float) : WorkerLease := {|
  wl_lease_id := sc_lease_id contract; wl_contract := contract; wl_idempotency_key := key;
  wl_acquired_at := now;
  wl_expires_at := Z.min (fadd now (cf_lease_ttl_s cfg)) (fadd now (eb_wall_seconds (sc_budget contract)));
  wl_deadline_at := fadd now (eb_wall_seconds (sc_budget contract)); wl_state := ACTIVE;
  wl_usage := no_usage; wl_settled_usage := None; wl_overage_dimensions := []; wl_result := None;
  wl_terminal_reason := None; wl_stop_required := false |}.
Definition granted (contract : SubagentContract) (key : string) (ah : option string) (s : SwarmScheduler) :
    SwarmScheduler :=
  let l := new_lease (sw_config s) contract key (clock (sw_ticks s)) in
  let t := set_by_key (<[key := sc_lease_id contract]> (sw_by_key s))
             (set_leases (<[sc_lease_id contract := l]> (sw_leases s)) (set_ticks (S (sw_ticks s)) s)) in
  match ah with
  | Some h => set_consumed_authorizations (<[h := sc_lease_id contract]> (sw_consumed_authorizations s)) t
  | None => t
  end.
Lemma grant_lease_run contract key ah s :
  grant_lease clock contract key ah s =
    ((_persist (granted contract key ah s)).1,
     Ok {| sa_admitted := true; sa_lease := Some (new_lease (sw_config s) contract key (clock (sw_ticks s)));
           sa_reason := None; sa_duplicate := false; sa_detail := None |}).
Proof. by destruct ah. Qed.

Lemma new_lease_ok contracts cfg contract key now :
  contracts !! sc_contract_id contract = Some contract → usage_valid (limits contract) →
  lease_ok contracts (sc_lease_id contract) (new_lease cfg contract key now).
Proof.
  intros Hc Hv. split; simpl; try done. symmetry. apply overage_nil. exact Hv.
Qed.

Lemma lease_of_contract_None s c : swarm_inv s → lease_of_contract c s = None →
  ∀ id l, sw_leases s !! id = Some l → sc_contract_id (wl_contract l) ≠ c.
Proof.
  intros Hi H id l Hl E. unfold lease_of_contract in H. rewrite find_first_None in H.
  specialize (H l (dict_lookup_vals _ _ _ Hl)). simpl in H. by apply bool_decide_eq_false in H.
Qed.
Lemma lease_id_fresh s c : swarm_inv s → sw_contracts s !! sc_contract_id c = Some c →
  lease_of_contract (sc_contract_id c) s = None → sw_leases s !! sc_lease_id c = None.
Proof.
  intros Hi Hc Hnone. destruct (sw_leases s !! sc_lease_id c) as [l|] eqn:Hl; [|done]. exfalso.
  pose proof (lease_of_contract_None s _ Hi Hnone _ _ Hl) as Hne.
  pose proof (si_lease _ Hi _ _ Hl) as Hok. destruct (lo_id _ _ _ Hok) as [_ Hid].
  destruct (si_distinct _ Hi _ _ _ _ Hc (lo_contract _ _ _ Hok)) as [Hd _]; congruence.
Qed.

Lemma granted_evolves ack contract key ah s :
  sw_contracts s !! sc_contract_id contract = Some contract → sw_by_key s !! key = None →
  sw_cancelled s = false → lease_of_contract (sc_contract_id contract) s = None →
  (∀ h, ah = Some h → sw_consumed_authorizations s !! h = None) → usage_valid (limits contract) →
  evolves_ok ack s (granted contract key ah s).
Proof.
  intros Hc Hk Hca Hnone Hah Hv Hi. pose proof (lease_id_fresh s contract Hi Hc Hnone) as Hfresh.
  destruct Hi as [[Hwf1 Hwf2] Hdicts Hcon Hdis Hlok Hby Hled]. unfold granted. set (l := new_lease _ _ _ _). split.
  - assert (∀ t, sw_config t = sw_config s → sw_plan t = sw_plan s → sw_contracts t = sw_contracts s →
      sw_leases t = <[sc_lease_id contract := l]> (sw_leases s) →
      sw_by_key t = <[key := sc_lease_id contract]> (sw_by_key s) → sw_ledger t = sw_ledger s → dicts_wf t →
      swarm_inv t) as Hinv.
    { intros t E1 E2 E3 E4 E5 E6 E7. split; rewrite ?E1, ?E2, ?E3, ?E4, ?E5, ?E6; auto.
      - split; [by apply dict_wf_insert|done].
      - intros id m. rewrite dict_lookup_insert. case_decide as Hid; [|apply Hlok].
        intros [= <-]. subst id. by apply new_lease_ok.
      - intros k id. rewrite dict_lookup_insert. case_decide as Hkk.
        + subst k. split.
          * intros [= <-]. exists l. by rewrite dict_lookup_insert_eq.
          * intros (m & Hm & Hkey). rewrite dict_lookup_insert in Hm. case_decide as Hid; [by rewrite Hid|].
            assert (sw_by_key s !! key = Some id) as Hx by (apply Hby; by exists m). congruence.
        + rewrite Hby. split; intros (m & Hm & Hkey).
          * exists m. split; [|done]. rewrite dict_lookup_insert_ne; [done|]. congruence.
          * rewrite dict_lookup_insert in Hm. case_decide as Hid; [|by exists m].
            injection Hm as <-. by destruct Hkk. }
    destruct Hdicts as (D1 & D2 & D3 & D4).
    destruct ah; apply Hinv; try done; (split_and!; try done; by apply dict_wf_insert).
  - assert (∀ id m, sw_leases s !! id = Some m → ∃ l', <[sc_lease_id contract := l]> (sw_leases s) !! id = Some l' ∧ lease_le (ack id) m l') as Hls.
    { intros id m Hm. exists m. split; [|apply lease_le_refl]. rewrite dict_lookup_insert_ne; [done|]. congruence. }
    assert (∀ k id, sw_by_key s !! k = Some id → <[key := sc_lease_id contract]> (sw_by_key s) !! k = Some id) as Hks.
    { intros k id Hkk. rewrite dict_lookup_insert_ne; [done|]. congruence. }
    destruct ah as [h|]; split; simpl; try done; try congruence.
    intros h' id Hh. rewrite dict_lookup_insert_ne; [done|]. specialize (Hah h eq_refl). congruence.
Qed.

(** What an accepted authorization has checked. *)
Lemma admission_authorization_ok contract auth s h :
  _require_admission_authorization contract auth s = Ok (Some h) →
  ∃ a, auth = Some a ∧ h = PhaseAuthorization_hash a ∧ sw_authorizations s !! h = Some a ∧
    sw_consumed_authorizations s !! h = None ∧ require_contract a contract (cf_orchestrator_id (sw_config s)) = Ok tt ∧
    ∃ rs, _owned_receipts (pa_predecessor_receipt_hashes a) s = Ok rs ∧
      ∀ r, r ∈ rs → pr_disposition r = Disposition.COMPLETED.
Proof.
  unfold _require_admission_authorization. destruct (sw_plan s) as [plan|]; [|done].
  intros H. apply bind_ok in H as (phase & Hph & H). case_bool_decide.
  { do 2 check H. done. }
  destruct auth as [a|]; [|done]. check H as Hreq. check H as Hown. check H as Hcons.
  apply bind_ok in H as (rs & Hrs & H). apply bind_ok in H as (src & Hsrc & H). check H. check H as Hdisp.
  injection H as <-. exists a. apply err_if_ok in Hown, Hcons, Hdisp.
  rewrite negb_false_iff, bool_decide_eq_true in Hown. apply has_key_false in Hcons. split_and!; try done.
  exists rs. split; [done|]. intros r Hr. rewrite existsb_elem_of_false in Hdisp. specialize (Hdisp r Hr).
  by rewrite negb_false_iff, bool_decide_eq_true in Hdisp.
Qed.

Lemma admission_root_ok contract auth s :
  _require_admission_authorization contract auth s = Ok None →
  auth = None ∧ ∃ plan phase, sw_plan s = Some plan ∧ require_contract_plan contract plan = Ok phase ∧
    ps_predecessor_phase_ids phase = [].
Proof.
  unfold _require_admission_authorization. destruct (sw_plan s) as [plan|]; [|done].
  intros H. apply bind_ok in H as (phase & Hph & H). case_bool_decide as Hroot.
  - check H as Ha. apply contract_error_ok, bool_decide_eq_false in Ha. split; [by apply eq_None_not_Some|].
    by exists plan, phase.
  - destruct auth as [a|]; [|done]. do 3 check H. apply bind_ok in H as (? & _ & H).
    apply bind_ok in H as (? & _ & H). do 2 check H. done.
Qed.

(** The two outcomes of [admit] on an unused key: refused with the leases as they
    were, or granted. *)
Lemma admit_fresh_run contract key auth s :
  (∃ l r, admit_fresh clock contract key auth s = (set_ledger l s, r) ∧
     (ledger_reachable (cf_budget (sw_config s)) (sw_ledger s) → ledger_reachable (cf_budget (sw_config s)) l) ∧
     ∀ a, r = Ok a → sa_admitted a = false ∧ sa_lease a = None) ∨
  (∃ l ah, usage_valid (limits contract) ∧ _require_admission_authorization contract auth s = Ok ah ∧
     reserve contract (sw_ledger s) = (l, Ok tt) ∧
     admit_fresh clock contract key auth s = grant_lease clock contract key ah (set_ledger l s)).
Proof.
  destruct (admit_fresh clock contract key auth s) as [t r] eqn:H. revert H. unfold admit_fresh. prog_gets.
  assert (s = set_ledger (sw_ledger s) s) as Hs by by destruct s.
  destruct (_require_admission_authorization contract auth s) as [ah|e] eqn:Hah.
  2:{ intros H. left. exists (sw_ledger s), r. rewrite <- Hs.
      revert H. case_match; intros [= <- <-]; split_and!; try done; by intros a [= <-]. }
  unfold try_, on_ledger. pose proof (reserve_limits contract (sw_ledger s)) as Hlim.
  pose proof (ledger_reserve (cf_budget (sw_config s)) contract (sw_ledger s)) as Hr.
  destruct (reserve contract (sw_ledger s)) as [l [[]|e]]; simpl in Hlim, Hr; intros H.
  - right. exists l, ah. by split_and!; [apply Hlim|..].
  - left. exists l, r. revert H.
    do 2 (case_match; [intros [= <- <-]; split_and!; try done; by intros a [= <-]|]).
    intros [= <- <-]. by split_and!.
Qed.

Lemma admit_fresh_evolves ack contract key auth s :
  sw_contracts s !! sc_contract_id contract = Some contract → sw_by_key s !! key = None →
  sw_cancelled s = false → lease_of_contract (sc_contract_id contract) s = None →
  evolves_ok ack s (admit_fresh clock contract key auth s).1.
Proof.
  intros Hc Hk Hca Hnone.
  destruct (admit_fresh_run contract key auth s) as [(l & r & -> & Hl & _)|(l & ah & Hv & Hah & Hr & ->)].
  { apply evolves_frame; [by apply frame_ledger|done]. }
  rewrite grant_lease_run. simpl fst. transitivity (set_ledger l s).
  { apply evolves_frame; [|done]. apply frame_ledger. intros H.
    apply (ledger_reserve _ contract) in H. by rewrite Hr in H. }
  etransitivity; [|apply persist_evolves]. apply granted_evolves; try done.
  intros h ->. apply admission_authorization_ok in Hah as (? & _ & _ & _ & ? & _). done.
Qed.

Lemma admit_child_evolves ack id key auth : Evolves (evolves_ok ack) (admit_child clock id key auth).
Proof.
  intros s. unfold admit_child. prog_raise Hkey. revert s.
  apply evolves_bind; [apply _|apply clock_evolves|]. intros now.
  apply evolves_bind; [apply _|apply expire_evolves|]. intros _ s. prog_gets.
  destruct (sw_contracts s !! id) as [contract|] eqn:Hc; [|done].
  destruct (sw_by_key s !! strip key) as [prior|] eqn:Hk.
  - rewrite prog_bind_eq. unfold the_lease. prog_gets. destruct (sw_leases s !! prior) as [l|]; [|done].
    cbn [mret prog_ret]. case_bool_decide; [apply (clock_evolves ack s)|done].
  - destruct (sw_cancelled s) eqn:Hca; [done|]. case_bool_decide as Hn; [done|].
    intros Hi. pose proof (si_contract _ Hi _ _ Hc) as [Hid _]. subst id. revert Hi.
    apply admit_fresh_evolves; try done. by apply eq_None_not_Some.
Qed.

(** ** Operations and reachable schedulers *)
Inductive swarm_op :=
  | OpRegisterPlan (p : SwarmPlan) | OpRegister (c : SubagentContract)
  | OpReceipt (lease_id : string) (preds : list string) (now : datetime)
  | OpAuthorize (contract_id : string) (preds : list string) (now : datetime)
  | OpAdmit (contract_id key : string) (a : option PhaseAuthorization)
  | OpHeartbeat (lease_id : string) | OpCharge (lease_id : string) (u : BudgetUsage) (delivery : string)
  | OpObserve (lease_id : string) (u : BudgetUsage) (delivery : string)
  | OpTerminalResult (lease_id : string) (r : SubagentResult)
  | OpOverageResult (lease_id : string) (r : SubagentResult)
  | OpComplete (lease_id : string) (r : SubagentResult)
  | OpCancelWorker (lease_id reason : string) | OpCancelTeam (reason : string) | OpReap
  | OpAcknowledge (lease_id : string).
Definition run_op (op : swarm_op) : prog SwarmScheduler unit :=
  match op with
  | OpRegisterPlan p => register_plan p
  | OpRegister c => register c
  | OpReceipt id preds now => record_phase_receipt id preds now ;; mret tt
  | OpAuthorize id preds now => issue_phase_authorization id preds now ;; mret tt
  | OpAdmit id key a => admit_child clock id key a ;; mret tt
  | OpHeartbeat id => heartbeat clock id ;; mret tt
  | OpCharge id u d => charge clock id u d ;; mret tt
  | OpObserve id u d => observe_terminal_usage id u d ;; mret tt
  | OpTerminalResult id r => record_terminal_result id r ;; mret tt
  | OpOverageResult id r => record_overage_result id r ;; mret tt
  | OpComplete id r => complete clock id r ;; mret tt
  | OpCancelWorker id reason => cancel_worker clock id reason ;; mret tt
  | OpCancelTeam reason => cancel_team clock reason ;; mret tt
  | OpReap => reap_timeouts clock ;; mret tt
  | OpAcknowledge id => acknowledge_stopped id ;; mret tt
  end.
Definition run_ops (ops : list swarm_op) (s : SwarmScheduler) : SwarmScheduler :=
  foldl (λ s op, (run_op op s).1) s ops.

Lemma op_evolves (ack : string → Prop) op : (∀ id, op = OpAcknowledge id → ack id) → Evolves (evolves_ok ack) (run_op op).
Proof.
  intros Hack. assert (∀ {A} (m : prog SwarmScheduler A), Evolves (evolves_ok ack) m →
    Evolves (evolves_ok ack) (m ;; mret tt)) as Hret.
  { intros A m Hm. apply evolves_bind; [apply _|done|intros _; apply evolves_ret, _]. }
  destruct op; simpl; try apply Hret.
  - apply register_plan_evolves.
  - apply register_evolves.
  - apply record_phase_receipt_evolves.
  - apply issue_phase_authorization_evolves.
  - apply admit_child_evolves.
  - apply heartbeat_evolves.
  - apply charge_evolves.
  - apply observe_terminal_usage_evolves.
  - apply record_terminal_result_evolves.
  - apply record_overage_result_evolves.
  - apply complete_evolves.
  - apply cancel_worker_evolves.
  - apply cancel_team_evolves.
  - apply reap_timeouts_evolves.
  - apply acknowledge_stopped_evolves. by apply Hack.
Qed.
Lemma ops_evolve (ack : string → Prop) ops s :
  (∀ id, OpAcknowledge id ∈ ops → ack id) → evolves_ok ack s (run_ops ops s).
Proof.
  revert s. induction ops as [|op ops IH]; intros s Hack; [done|]. simpl.
  transitivity (run_op op s).1.
  - apply op_evolves. intros id ->. apply Hack. left.
  - apply IH. intros id Hin. apply Hack. by right.
Qed.

Lemma new_swarm_inv cfg file s : validate_TeamBudget (cf_budget cfg) = Ok (cf_budget cfg) →
  new_SwarmScheduler cfg file = Ok s → swarm_inv s.
Proof.
  intros Hb. unfold new_SwarmScheduler. intros H. do 2 check H. injection H as <-.
  split; simpl; try done; [split; apply dict_wf_empty|split_and!; apply dict_wf_empty| |by apply ledger_new].
  intros k id. split; [done|]. by intros (l & Hl & _).
Qed.
End facts.
