(* ===== verification/SwarmRecovery.v ===== *)
(** * Recovery of the swarm scheduler

    Whatever a checkpoint holds, [recover] refuses it or returns a scheduler that
    satisfies the invariant of [SwarmControlFacts], with every lease that expired
    while no scheduler ran timed out. *)
From S2P Require Import Prelude PyDict PyFloat Canonical Models Swarm SwarmDocs SwarmFacts Ledger SwarmControl SwarmControlFacts.
Local Open Scope Z_scope.
Import WorkerLeaseState.

Section recovery.
Context {PF : Platform} (clock : nat → float).

(** ** The rebuilt ledger *)
Definition ledger_only (s s' : SwarmScheduler) : Prop :=
  ∃ l, s' = set_ledger l s ∧ (ledger_reachable (cf_budget (sw_config s)) (sw_ledger s) →
                              ledger_reachable (cf_budget (sw_config s)) l).
#[local] Instance ledger_only_preorder : PreOrder ledger_only.
Proof.
  split.
  - intros s. exists (sw_ledger s). split; [by destruct s|done].
  - intros s t u (l & -> & Hl) (m & -> & Hm). exists m. split; [done|]. auto.
Qed.
Lemma reserve_ledger_only c : Evolves ledger_only (on_ledger (reserve c)).
Proof.
  intros s. unfold on_ledger. pose proof (ledger_reserve (cf_budget (sw_config s)) c (sw_ledger s)) as H.
  destruct (reserve c (sw_ledger s)) as [l r]. by exists l.
Qed.
Lemma settle_ledger_only k u : Evolves ledger_only (on_ledger (settle k u)).
Proof.
  intros s. unfold on_ledger. pose proof (ledger_settle (cf_budget (sw_config s)) k u (sw_ledger s)) as H.
  destruct (settle k u (sw_ledger s)) as [l r]. by exists l.
Qed.
Lemma rebuild_ledger_only s : validate_TeamBudget (cf_budget (sw_config s)) = Ok (cf_budget (sw_config s)) →
  ∃ l, (_rebuild_ledger s).1 = set_ledger l s ∧ ledger_reachable (cf_budget (sw_config s)) l.
Proof.
  intros Hb. unfold _rebuild_ledger. prog_gets. prog_modify. set (t := set_ledger _ s).
  assert (ledger_only t ((for_each (terminal_leases s) (λ l, match wl_settled_usage l with
      | None => raise SwarmStateError "terminal lease is missing capped settlement usage"
      | Some u => on_ledger (reserve (wl_contract l)) ;; on_ledger (settle (sc_contract_id (wl_contract l)) u)
      end) ;; for_each (live_leases s) (λ l, on_ledger (reserve (wl_contract l)))) t).1) as (l & Hl & Hr).
  { assert (∀ m : prog SwarmScheduler unit, Evolves ledger_only m → ledger_only t (m t).1) as H by (intros m Hm; apply Hm).
    apply H, evolves_bind; [apply _| |intros _].
    - apply evolves_for_each; [apply _|]. intros l _. destruct (wl_settled_usage l) as [u|].
      + apply evolves_bind; [apply _|apply reserve_ledger_only|intros _; apply settle_ledger_only].
      + apply evolves_raise, _.
    - apply evolves_for_each; [apply _|]. intros l _. apply reserve_ledger_only. }
  exists l. split; [exact Hl|]. apply Hr. by apply ledger_new.
Qed.

(** ** Round trip of the stored collections *)
Lemma validate_TeamBudget_id b b' : validate_TeamBudget b = Ok b' → b' = b.
Proof. unfold validate_TeamBudget. intros H. do 6 check H. by injection H. Qed.
Lemma validate_BudgetUsage_id u u' : validate_BudgetUsage u = Ok u' → u' = u.
Proof. by intros [-> _]%validate_BudgetUsage_ok. Qed.
Lemma model_validate_contract_id c c' : model_validate_contract c = Ok c' → c' = c.
Proof.
  unfold model_validate_contract. intros H. apply bind_ok in H as (? & _ & H). apply bind_ok in H as (? & _ & H).
  check H. by destruct (contract_paths _ _ H) as (-> & _).
Qed.
Lemma model_validate_result_id r r' : model_validate_result r = Ok r' → r' = r.
Proof.
  unfold model_validate_result. intros H. apply bind_ok in H as (? & _ & H). check H.
  unfold validate_SubagentResult in H. do 4 check H. check H. do 3 check H. check H. check H. by injection H.
Qed.
Lemma model_validate_plan_id p p' : model_validate_plan p = Ok p' → p' = p.
Proof.
  unfold model_validate_plan. intros H. apply bind_ok in H as (? & _ & H). check H.
  unfold validate_SwarmPlan in H. do 5 check H. by injection H.
Qed.

Lemma recover_contracts_fold cfg plan cs d d' :
  recover_contracts cfg plan cs d = Ok d' → d' = foldl (λ d c, <[sc_contract_id c := c]> d) d cs.
Proof.
  revert d. induction cs as [|c cs IH]; intros d; cbn [recover_contracts foldl]; [by intros [= <-]|].
  intros H. apply bind_ok in H as (c' & Hc & H). apply model_validate_contract_id in Hc as ->.
  check H. apply bind_ok in H as (? & _ & H). by apply IH.
Qed.
Lemma recover_lease_record contracts id l l' :
  lease_ok contracts id l → recover_lease (wl_contract l) (lease_record l) = Ok l' → l' = l.
Proof.
  intros Hok. unfold recover_lease. simpl. intros H.
  apply bind_ok in H as (u & Hu & H). apply validate_BudgetUsage_id in Hu as ->.
  apply bind_ok in H as (st & Hst & H). apply bind_ok in H as (x & Hx & H). injection H as <-.
  assert (st = wl_settled_usage l) as ->.
  { destruct (wl_settled_usage l) as [u|] eqn:Hs.
    - destruct (validate_BudgetUsage u) as [u'|] eqn:Hu; [|done]. apply validate_BudgetUsage_id in Hu as ->.
      by injection Hst.
    - case_bool_decide as Ha; [by injection Hst|]. apply (lo_settled _ _ _ Hok) in Ha as (u & ? & _). congruence. }
  assert (x = wl_result l) as ->.
  { destruct (wl_result l) as [r|]; [|by injection Hx].
    destruct (model_validate_result r) as [r'|] eqn:Hr; [|done]. apply model_validate_result_id in Hr as ->.
    by injection Hx. }
  by destruct l.
Qed.
Lemma recover_leases_fold contracts contracts' ls d d' :
  (∀ l, l ∈ ls → lease_ok contracts (wl_lease_id l) l ∧ contracts' !! sc_contract_id (wl_contract l) = Some (wl_contract l)) →
  recover_leases contracts' (lease_record <$> ls) d = Ok d' → d' = foldl (λ d l, <[wl_lease_id l := l]> d) d ls.
Proof.
  revert d. induction ls as [|l ls IH]; intros d Hok; cbn [recover_leases foldl fmap list_fmap]; [by intros [= <-]|].
  destruct (Hok l (list_elem_of_here _ _)) as [Hl Hc]. simpl. rewrite Hc. intros H.
  apply bind_ok in H as (l' & Hl' & H). eapply recover_lease_record in Hl'; [|done]. subst l'.
  apply IH; [|done]. intros m Hm. apply Hok. by right.
Qed.

Lemma sort_items_lookup {V} (d : dict string V) k : dict_wf d → sort_items d !! k = d !! k.
Proof.
  intros Hwf. symmetry. apply dict_lookup_perm; [done|]. unfold sort_items. simpl. symmetry. apply sort_by_perm.
Qed.

Lemma sort_items_wf {V} (d : dict string V) : dict_wf d → dict_wf (sort_items d).
Proof. unfold dict_wf, keys, sort_items. simpl. by rewrite sort_by_perm. Qed.

(** The sorted values of a dictionary keyed by [f] make the same dictionary again. *)
Lemma resorted_lookup {V} (f : V → string) (d : dict string V) k :
  dict_wf d → (∀ k v, d !! k = Some v → f v = k) → dict_by f (sort_by f (vals d)) !! k = d !! k.
Proof.
  intros Hwf Hf. assert (NoDup (f <$> sort_by f (vals d))) as Hnd.
  { rewrite sort_by_perm. unfold vals, dict_wf, keys in *.
    assert (∀ kv, kv ∈ items d → f kv.2 = kv.1) as Hkv.
    { intros [j v] Hin. apply Hf, dict_elem_lookup; [exact Hwf|done]. }
    clear Hf. induction (items d) as [|[j v] l IH]; [constructor|].
    rewrite !fmap_cons in *. apply NoDup_cons in Hwf as [Hj Hnd]. apply NoDup_cons. split.
    - rewrite (Hkv (j, v)) by left. intros Hin. apply Hj. apply list_elem_of_fmap in Hin as (w & Hw & Hin).
      apply list_elem_of_fmap in Hin as (kv & -> & Hin). simpl in Hw. rewrite Hw.
      rewrite Hkv by by right. exact (list_elem_of_fmap_2 fst l kv Hin).
    - apply IH; [done|]. intros kv Hin. apply Hkv. by right. }
  apply option_eq. intros v. rewrite dict_by_lookup by done. rewrite elem_of_sort_by, elem_of_vals by done. split.
  - intros [(j & Hj) <-]. by rewrite (Hf j v Hj).
  - intros Hv. split; [by exists k|by apply Hf].
Qed.

(** ** A loaded checkpoint has the contents it was written from *)
Record same_contents (s t : SwarmScheduler) : Prop := {
  sc_config : sw_config t = sw_config s;
  sc_plan : sw_plan t = sw_plan s;
  sc_contracts k : sw_contracts t !! k = sw_contracts s !! k;
  sc_leases k : sw_leases t !! k = sw_leases s !! k;
  sc_by_key k : sw_by_key t !! k = sw_by_key s !! k;
  sc_receipt k : sw_receipt_by_contract t !! k = sw_receipt_by_contract s !! k;
  sc_consumed k : sw_consumed_authorizations t !! k = sw_consumed_authorizations s !! k;
  sc_delivery k : sw_usage_deliveries t !! k = sw_usage_deliveries s !! k;
  sc_cancelled : sw_cancelled t = sw_cancelled s ∧ sw_cancel_reason t = sw_cancel_reason s;
  sc_wf : dict_wf (sw_leases t) ∧ dict_wf (sw_contracts t);
  sc_dicts : dicts_wf t;
}.
Lemma same_contents_inv s t : same_contents s t → swarm_inv s →
  ledger_reachable (cf_budget (sw_config t)) (sw_ledger t) → swarm_inv t ∧ ∀ ack, history ack s t.
Proof.
  intros [Hc Hp Hcs Hls Hk Hr Hco Hd [Hca Hre] Hwf Hdw] [_ _ Hcon Hdis Hlok Hby _] Hled. split.
  - split; try done.
    + intros k c. rewrite Hcs, Hc, Hp. apply Hcon.
    + intros i j c d. rewrite !Hcs. apply Hdis.
    + intros id l. rewrite Hls. intros Hl. destruct (Hlok _ _ Hl). split; try done. by rewrite Hcs.
    + intros k id. rewrite Hk, Hls. apply Hby.
  - intros ack. split; try done; try congruence.
    + intros id l Hl. exists l. rewrite Hls. split; [done|apply lease_le_refl].
    + intros H. rewrite Hca, Hre. split_and!; [done..|]. intros id. by rewrite Hls.
Qed.

Lemma load_state s t : swarm_inv s → load_checkpoint (_state s) = Ok t →
  same_contents s t ∧ sw_ticks t = 0%nat ∧
  validate_TeamBudget (cf_budget (sw_config t)) = Ok (cf_budget (sw_config t)).
Proof.
  intros Hi. destruct (si_dicts _ Hi) as (W1 & W2 & W3 & W4). destruct (si_wf _ Hi) as [Wl Wc]. unfold load_checkpoint. intros H.
  apply bind_ok in H as (b & Hb & H). apply bind_ok in H as (? & _ & H).
  apply bind_ok in H as (s0 & Hs0 & H). unfold new_SwarmScheduler in Hs0. do 2 check Hs0. injection Hs0 as <-.
  simpl in H. destruct (sw_plan s) as [plan|] eqn:Hplan; [|done].
  apply bind_ok in H as (plan' & Hpl & H). apply model_validate_plan_id in Hpl as ->. check H.
  apply bind_ok in H as (cs & Hcs & H). apply bind_ok in H as (ls & Hls & H). check H.
  apply bind_ok in H as (rs & _ & H). apply bind_ok in H as (auths & _ & H). injection H as <-.
  apply recover_contracts_fold in Hcs as ->.
  change (foldl (λ d c, <[sc_contract_id c:=c]> d) ∅ ?xs) with (dict_by sc_contract_id xs) in *.
  assert (∀ k, dict_by sc_contract_id (sort_by sc_contract_id (vals (sw_contracts s))) !! k = sw_contracts s !! k) as Hcl.
  { intros k. apply resorted_lookup; [done|]. intros j c Hc. by apply (si_contract _ Hi) in Hc as [? _]. }
  apply (recover_leases_fold (sw_contracts s)) in Hls.
  2:{ intros l. rewrite elem_of_sort_by, elem_of_vals by done. intros (k & Hk).
      pose proof (si_lease _ Hi _ _ Hk) as Hok. destruct (lo_id _ _ _ Hok) as [-> _]. split; [done|].
      rewrite Hcl. apply (lo_contract _ _ _ Hok). }
  subst ls. change (foldl (λ d c, <[wl_lease_id c:=c]> d) ∅ ?xs) with (dict_by wl_lease_id xs).
  pose proof (validate_TeamBudget_id _ _ Hb). subst b. split; [|done]. split; try done.
  - intros k. apply resorted_lookup; [done|]. intros j l Hl. by apply (lo_id _ _ _ (si_lease _ Hi _ _ Hl)).
  - intros k. by apply sort_items_lookup.
  - intros k. by apply sort_items_lookup.
  - intros k. by apply sort_items_lookup.
  - intros k. by apply sort_items_lookup.
  - split; apply dict_wf_foldl, dict_wf_empty.
  - split_and!; by apply sort_items_wf.
Qed.

(** ** Reaping *)
Lemma expire_exact now s s' ids :
  swarm_inv s → _expire_locked clock now s = (s', Ok ids) →
  (∀ id, id ∈ ids ↔ ∃ l, sw_leases s !! id = Some l ∧ wl_state l = ACTIVE ∧ lease_end l <= now) ∧
  (∀ id l, sw_leases s' !! id = Some l → wl_state l = ACTIVE → sw_leases s !! id = Some l ∧ now < lease_end l) ∧
  (∀ id, id ∈ ids → ∃ l, sw_leases s' !! id = Some l ∧ wl_state l = TIMED_OUT ∧ wl_stop_required l = true) ∧
  (∀ id, id ∉ ids → sw_leases s' !! id = sw_leases s !! id).
Proof.
  intros Hi. destruct (lease_ids_spec (λ l, is_active l && (lease_end l <=? now)) s Hi) as [Hnd Hids].
  change (sorted_str _) with (expired_ids now s) in Hnd, Hids.
  assert (∀ id, id ∈ expired_ids now s ↔ ∃ l, sw_leases s !! id = Some l ∧ wl_state l = ACTIVE ∧ lease_end l <= now) as Hspec.
  { intros id. rewrite Hids. split; intros (l & Hl & Ha).
    - apply andb_prop in Ha as [Ha%is_active_true He%Z.leb_le]. by exists l.
    - destruct Ha as [Ha He]. exists l. split; [done|]. rewrite (proj2 (is_active_true l)) by done. by apply Z.leb_le. }
  unfold _expire_locked. prog_gets. rewrite prog_bind_eq. set (body := λ id, _ : prog SwarmScheduler unit).
  assert (∀ id t l, sw_leases t !! id = Some l → ∃ reason, body id t = stop_lease clock id TIMED_OUT reason t) as Hbody.
  { intros id t l Hl. unfold body. rewrite prog_bind_eq, (the_lease_present _ _ l Hl). by eexists. }
  destruct (stop_all_evolves clock TIMED_OUT body ltac:(set_solver) Hbody (λ _, False) (expired_ids now s) s Hnd) as [_ Hok].
  { intros id Hin. apply Hspec in Hin as (l & ? & ? & _). by exists l. }
  pose proof (stop_all_untouched clock TIMED_OUT body Hbody (expired_ids now s) s) as Hun.
  destruct (for_each _ _ s) as [t [[]|e]]; [|done]. simpl in Hok, Hun. intros [= -> <-].
  assert (∀ id, id ∉ expired_ids now s → sw_leases s' !! id = sw_leases s !! id) as Hsame.
  { intros id Hout. apply Hun; [done|]. intros j (m & Hm & _)%Hspec. eauto. }
  split_and!; [done| |by apply Hok|done]. intros id l Hl Ha.
  destruct (decide (id ∈ expired_ids now s)) as [Hin|Hout].
  - destruct (Hok eq_refl id Hin) as (m & Hm & Hs & _). congruence.
  - rewrite Hsame in Hl by done. split; [done|]. destruct (Z_lt_le_dec now (lease_end l)); [done|]. destruct Hout. apply Hspec. by exists l.
Qed.
End recovery.

(** ** What the operations do to the checkpoint file

    Operations are sequences of a few pieces; a relation that every piece keeps
    holds across the whole operation. *)
Ltac swarm_walk leaf :=
  repeat lazymatch goal with
    | |- Evolves _ (gets _) => apply evolves_gets; apply _
    | |- Evolves _ (lift _) => apply evolves_lift; apply _
    | |- Evolves _ (mret _) => apply evolves_ret; apply _
    | |- Evolves _ (raise _ _) => apply evolves_raise; apply _
    | |- Evolves _ (raise_if _ _ _) => apply evolves_raise_if; apply _
    | |- Evolves _ (_ ≫= _) => apply evolves_bind; [apply _| |intros ?]
    | |- Evolves _ (for_each _ _) => apply evolves_for_each; [apply _|intros ? _]
    | |- Evolves _ (try_ _ _) => apply evolves_try; [apply _| |intros ?]
    | |- Evolves _ (if _ then _ else _) => apply evolves_if
    | |- Evolves _ (match ?x with _ => _ end) => destruct x
    | |- Evolves _ _ => leaf
    end.

Section checkpoint_file.
Context {PF : Platform}.

(** *** Receipts and authorizations are stored under their own hash *)
Record stores_ok (s : SwarmScheduler) : Prop := {
  so_receipt h r : sw_receipts s !! h = Some r → PhaseReceipt_hash r = h;
  so_authorization h a : sw_authorizations s !! h = Some a → PhaseAuthorization_hash a = h;
  so_wf : dict_wf (sw_receipts s) ∧ dict_wf (sw_authorizations s) ∧ dict_wf (sw_terminal_usage_deliveries s);
}.
Definition keeps_stores (s s' : SwarmScheduler) : Prop := stores_ok s → stores_ok s'.
#[export] Instance keeps_stores_preorder : PreOrder keeps_stores.
Proof. split; unfold keeps_stores; [intros s|intros s t u]; auto. Qed.

Lemma same_stores s s' :
  sw_receipts s' = sw_receipts s → sw_authorizations s' = sw_authorizations s →
  sw_terminal_usage_deliveries s' = sw_terminal_usage_deliveries s → keeps_stores s s'.
Proof. intros H1 H2 H3 []. split; rewrite ?H1, ?H2, ?H3; auto. Qed.
Lemma receipt_stores r : Evolves keeps_stores
  (modify (λ s, set_receipts (<[PhaseReceipt_hash r := r]> (sw_receipts s)) s)).
Proof.
  intros s [H1 H2 (W1 & W2 & W3)]. split; simpl; auto.
  - intros h x. rewrite dict_lookup_insert. case_decide; [by intros [= <-]|apply H1].
  - split_and!; try done. by apply dict_wf_insert.
Qed.
Lemma authorization_stores a : Evolves keeps_stores
  (modify (λ s, set_authorizations (<[PhaseAuthorization_hash a := a]> (sw_authorizations s)) s)).
Proof.
  intros s [H1 H2 (W1 & W2 & W3)]. split; simpl; auto.
  - intros h x. rewrite dict_lookup_insert. case_decide; [by intros [= <-]|apply H2].
  - split_and!; try done. by apply dict_wf_insert.
Qed.
Lemma terminal_stores d x : Evolves keeps_stores
  (modify (λ s, set_terminal_usage_deliveries (<[d := x]> (sw_terminal_usage_deliveries s)) s)).
Proof.
  intros s [H1 H2 (W1 & W2 & W3)]. split; simpl; auto. split_and!; try done. by apply dict_wf_insert.
Qed.
Lemma on_ledger_stores {A} (m : prog TeamBudgetLedger A) : Evolves keeps_stores (on_ledger m).
Proof. intros s. unfold on_ledger. destruct (m (sw_ledger s)). by apply same_stores. Qed.

Ltac stores :=
  swarm_walk ltac:(first
    [ apply receipt_stores | apply authorization_stores | apply terminal_stores | apply on_ledger_stores
    | progress unfold the_lease, mutate_lease, _persist, read_clock
    | intros ?; apply same_stores; simpl; by repeat case_match ]).
Lemma stop_lease_stores clock id st reason : Evolves keeps_stores (stop_lease clock id st reason).
Proof. unfold stop_lease, _finalize_elapsed. stores. Qed.
Lemma expire_stores clock now : Evolves keeps_stores (_expire_locked clock now).
Proof. unfold _expire_locked. stores; apply stop_lease_stores. Qed.
Lemma rebuild_stores : Evolves keeps_stores _rebuild_ledger.
Proof. unfold _rebuild_ledger. stores. Qed.

Lemma op_stores clock op : Evolves keeps_stores (run_op clock op).
Proof.
  destruct op; simpl.
  - unfold register_plan. stores.
  - unfold register. stores.
  - unfold record_phase_receipt. stores.
  - unfold issue_phase_authorization. stores.
  - unfold admit_child, admit_fresh, grant_lease. stores; apply expire_stores.
  - unfold heartbeat. stores.
  - unfold charge. stores; apply expire_stores.
  - unfold observe_terminal_usage. stores; apply rebuild_stores.
  - unfold record_terminal_result. stores.
  - unfold record_overage_result, record_terminal_result. stores.
  - unfold complete, _finalize_elapsed. stores; apply expire_stores.
  - unfold cancel_worker. stores; apply stop_lease_stores.
  - unfold cancel_team. stores; apply stop_lease_stores.
  - unfold reap_timeouts. stores; apply expire_stores.
  - unfold acknowledge_stopped. stores.
Qed.

(** *** An operation writes the file last, or leaves file and keys alone *)
Definition unsaved (s s' : SwarmScheduler) : Prop :=
  sw_config s' = sw_config s ∧ sw_state_file s' = sw_state_file s ∧ sw_by_key s' = sw_by_key s ∧
  sw_usage_deliveries s' = sw_usage_deliveries s ∧ sw_consumed_authorizations s' = sw_consumed_authorizations s.
#[export] Instance unsaved_preorder : PreOrder unsaved.
Proof. split; unfold unsaved; [intros s|intros s t u]; intuition congruence. Qed.
(** A scheduler without a state path never has a file. *)
Definition filed (s s' : SwarmScheduler) : Prop :=
  unsaved s s' ∨
  cf_durable (sw_config s) = true ∧ sw_state_file s' = Some (_state s') ∨
  cf_durable (sw_config s) = false ∧ sw_state_file s' = sw_state_file s.
Definition Files {A} (m : prog SwarmScheduler A) : Prop := ∀ s, filed s (m s).1.
Definition Reads {A} (m : prog SwarmScheduler A) : Prop := ∀ s, (m s).1 = s.

Lemma files_unsaved {A} (m : prog SwarmScheduler A) : Evolves unsaved m → Files m.
Proof. intros H s. left. apply H. Qed.
Lemma files_bind {A B} (m : prog SwarmScheduler A) (k : A → prog SwarmScheduler B) :
  Evolves unsaved m → (∀ a, Files (k a)) → Files (m ≫= k).
Proof.
  intros Hm Hk s. specialize (Hm s). rewrite prog_bind_eq. destruct (m s) as [s' [a|e]]; [|by left].
  simpl in *. specialize (Hk a s'). destruct Hm as (Hc & Hf & Hb & Hu & Ha). unfold filed in *. rewrite <- Hc, <- Hf.
  destruct Hk as [(?&?&?&?&?)|Hk]; [left|by right]. unfold unsaved. intuition congruence.
Qed.
Lemma persist_saves {A} (k : prog SwarmScheduler A) s :
  Reads k →
  (cf_durable (sw_config s) = true → sw_state_file ((_persist ;; k) s).1 = Some (_state ((_persist ;; k) s).1)) ∧
  (cf_durable (sw_config s) = false → sw_state_file ((_persist ;; k) s).1 = sw_state_file s).
Proof.
  intros Hk. rewrite prog_bind_eq. unfold _persist, modify. cbv beta match. rewrite Hk. by split; intros ->.
Qed.
Lemma files_persist {A} (k : prog SwarmScheduler A) : Reads k → Files (_persist ;; k).
Proof.
  intros Hk s. destruct (persist_saves k s Hk) as [H1 H2]. right.
  destruct (cf_durable (sw_config s)); [left|right]; auto.
Qed.
Lemma files_modify_persist {A} f (k : prog SwarmScheduler A) : Reads k →
  (∀ s, sw_config (f s) = sw_config s ∧ sw_state_file (f s) = sw_state_file s) → Files (modify f ;; _persist ;; k).
Proof.
  intros Hk Hf s. prog_modify. destruct (Hf s) as [Hc Hs], (persist_saves k (f s) Hk) as [H1 H2].
  rewrite Hc in *. right. destruct (cf_durable (sw_config s)); [left|right]; split; auto. by rewrite H2.
Qed.
Lemma files_persist_last : Files _persist.
Proof. intros s. right. unfold _persist, modify. simpl. case_match; [left|right]; done. Qed.
Lemma reads_ret {A} (a : A) : Reads (mret a : prog SwarmScheduler A).
Proof. done. Qed.
Lemma reads_lease id : Reads (the_lease id).
Proof. intros s. unfold the_lease. prog_gets. by case_match. Qed.
Lemma reads_settlement id dup : Reads (l ← the_lease id; lift (_usage_settlement l dup)).
Proof.
  intros s. rewrite prog_bind_eq. pose proof (reads_lease id s) as H. destruct (the_lease id s) as [t [l|e]]; simpl in *; done.
Qed.

Lemma on_ledger_unsaved {A} (m : prog TeamBudgetLedger A) : Evolves unsaved (on_ledger m).
Proof. intros s. unfold on_ledger. by destruct (m (sw_ledger s)). Qed.
Ltac same_file :=
  swarm_walk ltac:(first
    [ apply on_ledger_unsaved | progress unfold the_lease, mutate_lease, read_clock
    | intros ?; unfold unsaved; simpl; by repeat case_match ]).
Lemma stop_lease_unsaved clock id st reason : Evolves unsaved (stop_lease clock id st reason).
Proof. unfold stop_lease, _finalize_elapsed. same_file. Qed.
Lemma expire_unsaved clock now : Evolves unsaved (_expire_locked clock now).
Proof. unfold _expire_locked. same_file; apply stop_lease_unsaved. Qed.
Lemma rebuild_unsaved : Evolves unsaved _rebuild_ledger.
Proof. unfold _rebuild_ledger. same_file. Qed.

Lemma grant_files clock contract key ah : Files (grant_lease clock contract key ah).
Proof.
  intros s. rewrite grant_lease_run. simpl fst. set (g := granted clock contract key ah s).
  assert (sw_config g = sw_config s ∧ sw_state_file g = sw_state_file s) as [Hc Hf] by (unfold g; by destruct ah).
  right. unfold _persist, modify. simpl. rewrite Hc. case_match; [left|right]; done.
Qed.
Lemma admit_fresh_files clock c key a : Files (admit_fresh clock c key a).
Proof.
  intros s. destruct (admit_fresh_run clock c key a s) as [(l & r & -> & _)|(l & ah & _ & _ & _ & ->)]; [by left|].
  exact (grant_files clock c key ah (set_ledger l s)).
Qed.
Ltac files :=
  repeat lazymatch goal with
    | |- Files (_persist ;; _) =>
        apply files_persist; first [apply reads_ret|apply reads_lease|apply reads_settlement]
    | |- Files _persist => apply files_persist_last
    | |- Files (modify _ ≫= λ _, _persist ≫= _) =>
        apply files_modify_persist; [first [apply reads_ret|apply reads_lease|apply reads_settlement]|done]
    | |- Files (_ ≫= _) => apply files_bind; [same_file|intros ?]
    | |- Files (admit_fresh _ _ _ _) => apply admit_fresh_files
    | |- Files (if ?b then _ else _) => destruct b
    | |- Files (match ?x with _ => _ end) => destruct x
    | |- Files _ => apply files_unsaved; same_file
    end.

Lemma files_ret {A} (m : prog SwarmScheduler A) : Files m → Files (m ;; mret tt).
Proof.
  intros Hm s. specialize (Hm s). rewrite prog_bind_eq. by destruct (m s) as [s' [a|e]].
Qed.
Lemma register_plan_files p : Files (register_plan p).
Proof. unfold register_plan. files. Qed.
Lemma register_files c : Files (register c).
Proof. unfold register. files. Qed.
Lemma receipt_files id hs now : Files (record_phase_receipt id hs now).
Proof. unfold record_phase_receipt. files. Qed.
Lemma authorize_files id hs now : Files (issue_phase_authorization id hs now).
Proof. unfold issue_phase_authorization. files. Qed.
Lemma op_files clock op : Files (run_op clock op).
Proof.
  destruct op; simpl; try apply files_ret.
  - apply register_plan_files.
  - apply register_files.
  - apply receipt_files.
  - apply authorize_files.
  - unfold admit_child. files; apply expire_unsaved.
  - unfold heartbeat. files.
  - unfold charge. files; apply expire_unsaved.
  - unfold observe_terminal_usage. files; apply rebuild_unsaved.
  - unfold record_terminal_result. files.
  - unfold record_overage_result, record_terminal_result. files.
  - unfold complete, _finalize_elapsed. files; apply expire_unsaved.
  - unfold cancel_worker. files; apply stop_lease_unsaved.
  - unfold cancel_team. files; apply stop_lease_unsaved.
  - unfold reap_timeouts. apply files_bind; [same_file|intros now].
    apply files_bind; [apply expire_unsaved|intros ids]. case_bool_decide; files.
  - unfold acknowledge_stopped. files.
Qed.

(** *** Receipts, authorizations and terminal usage come back *)
Lemma model_validate_receipt_id r r' : model_validate_receipt r = Ok r' → r' = r.
Proof.
  unfold model_validate_receipt, validate_PhaseReceipt. intros H. repeat first [check H | apply bind_ok in H as (? & _ & H)].
  by injection H.
Qed.
Lemma validate_PhaseAuthorization_id a a' : validate_PhaseAuthorization a = Ok a' → a' = a.
Proof.
  unfold validate_PhaseAuthorization. intros H. repeat first [check H | apply bind_ok in H as (? & _ & H)].
  by injection H.
Qed.
Lemma map_result_same {A} (f : A → result A) xs ys :
  (∀ x y, f x = Ok y → y = x) → map_result f xs = Ok ys → ys = xs.
Proof. intros Hf H%map_result_ok. induction H as [|x y xs ys Hxy _ IH]; [done|]. by rewrite (Hf _ _ Hxy), IH. Qed.

Record same_stores_as (s t : SwarmScheduler) : Prop := {
  ss_receipts k : sw_receipts t !! k = sw_receipts s !! k;
  ss_authorizations k : sw_authorizations t !! k = sw_authorizations s !! k;
  ss_terminal k : sw_terminal_usage_deliveries t !! k = sw_terminal_usage_deliveries s !! k;
}.
Lemma load_stores s t : stores_ok s → load_checkpoint (_state s) = Ok t →
  same_stores_as s t ∧ stores_ok t ∧ sw_state_file t = Some (_state s).
Proof.
  intros [H1 H2 (W1 & W2 & W3)]. unfold load_checkpoint. intros H.
  apply bind_ok in H as (b & Hb & H). apply bind_ok in H as (? & _ & H).
  apply bind_ok in H as (s0 & Hs0 & H). unfold new_SwarmScheduler in Hs0. do 2 check Hs0. injection Hs0 as <-.
  simpl in H. destruct (sw_plan s) as [plan|]; [|done].
  apply bind_ok in H as (plan' & _ & H). check H.
  apply bind_ok in H as (cs & _ & H). apply bind_ok in H as (ls & _ & H). check H.
  apply bind_ok in H as (rs & Hrs & H). apply bind_ok in H as (auths & Has & H). injection H as <-.
  apply map_result_same in Hrs as ->; [|apply model_validate_receipt_id].
  apply map_result_same in Has as ->; [|apply validate_PhaseAuthorization_id].
  assert (∀ k, by_hash PhaseReceipt_hash (sort_by PhaseReceipt_hash (vals (sw_receipts s))) !! k = sw_receipts s !! k) as Hr
    by (intros k; by apply resorted_lookup).
  assert (∀ k, by_hash PhaseAuthorization_hash (sort_by PhaseAuthorization_hash (vals (sw_authorizations s))) !! k
               = sw_authorizations s !! k) as Ha by (intros k; by apply resorted_lookup).
  split_and!; [split; simpl|split; simpl|done].
  - exact Hr.
  - exact Ha.
  - intros k. by apply sort_items_lookup.
  - intros h r. rewrite Hr. apply H1.
  - intros h a. rewrite Ha. apply H2.
  - split_and!; [apply dict_wf_foldl, dict_wf_empty..|by apply sort_items_wf].
Qed.

(** *** The ledger of a recovered scheduler

    The live contracts are reserved and every terminal one is settled at the usage
    its lease records, whatever the history was. *)
Record ledger_of_leases (s : SwarmScheduler) : Prop := {
  ll_active_wf : dict_wf (_active (sw_ledger s));
  ll_active k c : _active (sw_ledger s) !! k = Some c ↔
    ∃ id l, sw_leases s !! id = Some l ∧ wl_state l = ACTIVE ∧ wl_contract l = c ∧ sc_contract_id c = k;
  ll_settled k u : _settled (sw_ledger s) !! k = Some u ↔
    ∃ id l, sw_leases s !! id = Some l ∧ wl_state l ≠ ACTIVE ∧ sc_contract_id (wl_contract l) = k ∧
            wl_settled_usage l = Some u;
}.

Lemma rebuild_terminal ls s s' :
  for_each ls (λ l, match wl_settled_usage l with
    | None => raise SwarmStateError "terminal lease is missing capped settlement usage"
    | Some u => on_ledger (reserve (wl_contract l)) ;; on_ledger (settle (sc_contract_id (wl_contract l)) u)
    end) s = (s', Ok tt) → dict_wf (_active (sw_ledger s)) →
  dict_wf (_active (sw_ledger s')) ∧
  (∀ k, _active (sw_ledger s') !! k = _active (sw_ledger s) !! k) ∧
  ∀ k u, _settled (sw_ledger s') !! k = Some u ↔ _settled (sw_ledger s) !! k = Some u ∨
    ∃ l, l ∈ ls ∧ sc_contract_id (wl_contract l) = k ∧ wl_settled_usage l = Some u.
Proof.
  revert s. induction ls as [|l ls IH]; intros s; cbn [for_each].
  { intros [= <-] Hwf. split_and!; [done..|]. intros k u. split; [by left|].
    intros [?|(l & ?%elem_of_nil & _)]; done. }
  rewrite prog_bind_eq. destruct (wl_settled_usage l) as [u|] eqn:Hu; [|done].
  rewrite prog_bind_eq. unfold on_ledger at 1. destruct (reserve (wl_contract l) (sw_ledger s)) as [l1 [[]|]] eqn:H1; [|done].
  unfold on_ledger at 1. cbn [sw_ledger set_ledger].
  destruct (settle _ u l1) as [l2 [[]|]] eqn:H2; [|done]. intros Hrest Hwf.
  destruct (reserve_inv _ _ _ _ H1) as [[? _]|(_ & _ & Ha & Hs & _ & _ & _ & _ & _ & _ & ->)]; [done|].
  destruct (settle_inv _ _ _ _ _ H2) as [[? _]|(c & p & _ & _ & _ & _ & _ & _ & ->)]; [done|].
  set (k0 := sc_contract_id (wl_contract l)) in *.
  destruct (IH _ Hrest) as (Hwf' & Hact & Hset); cbn [sw_ledger set_ledger _active] in *.
  { apply dict_wf_delete. by apply dict_wf_insert. }
  split_and!; [done| |].
  - intros k. rewrite Hact, dict_lookup_delete by by apply dict_wf_insert. rewrite dict_lookup_insert.
    case_decide as Hk; [by subst k|done].
  - intros k u'. rewrite Hset. cbn [_settled]. rewrite dict_lookup_insert. split.
    + intros [Hx|(m & Hm & Hmk)]; [|right; exists m; split; [by right|done]].
      case_decide as Hk; [|by left]. right. exists l. split; [left|]. split; [done|]. congruence.
    + intros [Hx|(m & [->|Hm]%elem_of_cons & Hmk & Hmu)]; [left| |right; by exists m].
      * case_decide as Hk; [|done]. subst k. congruence.
      * left. fold k0 in Hmk. rewrite decide_True by done. congruence.
Qed.
Lemma rebuild_live ls s s' :
  for_each ls (λ l, on_ledger (reserve (wl_contract l))) s = (s', Ok tt) → dict_wf (_active (sw_ledger s)) →
  dict_wf (_active (sw_ledger s')) ∧ _settled (sw_ledger s') = _settled (sw_ledger s) ∧
  ∀ k c, _active (sw_ledger s') !! k = Some c ↔ _active (sw_ledger s) !! k = Some c ∨
    ∃ l, l ∈ ls ∧ wl_contract l = c ∧ sc_contract_id c = k.
Proof.
  revert s. induction ls as [|l ls IH]; intros s; cbn [for_each].
  { intros [= <-] Hwf. split_and!; [done..|]. intros k c. split; [by left|].
    intros [?|(l & ?%elem_of_nil & _)]; done. }
  rewrite prog_bind_eq. unfold on_ledger at 1. destruct (reserve (wl_contract l) (sw_ledger s)) as [l1 [[]|]] eqn:H1; [|done].
  intros Hrest Hwf.
  destruct (reserve_inv _ _ _ _ H1) as [[? _]|(_ & _ & Ha & _ & _ & _ & _ & _ & _ & _ & ->)]; [done|].
  destruct (IH _ Hrest) as (Hwf' & Hset & Hact); cbn [sw_ledger set_ledger _active] in *; [by apply dict_wf_insert|].
  split_and!; [done|done|]. intros k c. rewrite Hact, dict_lookup_insert. split.
  - intros [Hx|(m & Hm & Hmk)]; [|right; exists m; split; [by right|done]].
    case_decide as Hk; [|by left]. right. exists l. split; [left|]. injection Hx as <-. done.
  - intros [Hx|(m & [->|Hm]%elem_of_cons & <- & Hmk)]; [left| |right; by exists m].
    + case_decide as Hk; [|done]. subst k. congruence.
    + left. by rewrite decide_True.
Qed.

Lemma rebuild_ledger_exact s s' :
  dict_wf (sw_leases s) → _rebuild_ledger s = (s', Ok tt) → ledger_of_leases s'.
Proof.
  intros Hwf H. assert (sw_leases s' = sw_leases s) as Hls.
  { revert H. assert (Evolves (λ s s', sw_leases s' = sw_leases s) _rebuild_ledger) as Hev.
    { assert (PreOrder (λ s s', sw_leases s' = sw_leases s)) by (split; [done|intros ???; congruence]).
      unfold _rebuild_ledger. swarm_walk ltac:(intros ?; unfold on_ledger; by repeat case_match). }
    intros H. specialize (Hev s). by rewrite H in Hev. }
  revert H. unfold _rebuild_ledger. prog_gets. prog_modify. rewrite prog_bind_eq.
  destruct (for_each (terminal_leases s) _ _) as [s1 [[]|]] eqn:H1; [|done]. intros H2.
  destruct (rebuild_terminal _ _ _ H1) as (W1 & A1 & S1); [apply dict_wf_empty|].
  destruct (rebuild_live _ _ _ H2 W1) as (W2 & S2 & A2). split; [done| |]; rewrite Hls.
  - intros k c. rewrite A2, A1. simpl. split.
    + intros [?|(l & Hl & Hc & Hk)]; [done|]. unfold live_leases in Hl.
      apply elem_of_sort_by, list_elem_of_In, filter_In in Hl as [Hl%list_elem_of_In Ha%is_active_true].
      apply elem_of_vals in Hl as [id Hid]; [|done]. by exists id, l.
    + intros (id & l & Hl & Ha & Hc & Hk). right. exists l. split; [|done]. apply elem_of_sort_by, list_elem_of_In, filter_In.
      split; [apply list_elem_of_In; by eapply dict_lookup_vals|by apply is_active_true].
  - intros k u. rewrite S2, S1. simpl. split.
    + intros [?|(l & Hl & Hk & Hu)]; [done|]. unfold terminal_leases in Hl.
      apply elem_of_sort_by, list_elem_of_In, filter_In in Hl as [Hl%list_elem_of_In Ha].
      apply elem_of_vals in Hl as [id Hid]; [|done]. exists id, l. split_and!; try done.
      intros Hact%is_active_true. by rewrite Hact in Ha.
    + intros (id & l & Hl & Ha & Hk & Hu). right. exists l. split; [|done]. apply elem_of_sort_by, list_elem_of_In, filter_In.
      split; [apply list_elem_of_In; by eapply dict_lookup_vals|]. apply negb_true_iff, not_true_iff_false.
      by intros ?%is_active_true.
Qed.

Lemma stop_lease_ledger clock id st reason s s' l :
  swarm_inv s → st ∈ [CANCELLED; TIMED_OUT] → sw_leases s !! id = Some l → wl_state l = ACTIVE →
  ledger_of_leases s → stop_lease clock id st reason s = (s', Ok tt) → ledger_of_leases s'.
Proof.
  intros Hi Hst Hl Ha [Wa Hact Hset] H. rewrite (stop_lease_eq clock id st reason s l Hl) in H.
  unfold on_ledger in H. cbn [sw_ledger set_leases set_ticks] in H.
  set (l' := stopped st reason _ l) in *. set (u := elapsed_usage l _) in *.
  destruct (settle _ u (sw_ledger s)) as [lg [[]|]] eqn:Hs; [|done]. injection H as <-.
  destruct (settle_inv _ _ _ _ _ Hs) as [[? _]|(c & p & _ & Hc & _ & _ & _ & _ & ->)]; [done|].
  assert (st ≠ ACTIVE) as Hst' by (intros ->; set_unfold; naive_solver).
  set (k0 := sc_contract_id (wl_contract l)) in *.
  assert (∀ j m, sw_leases s !! j = Some m → sc_contract_id (wl_contract m) = k0 → j = id) as Huniq.
  { intros j m Hm Hk. pose proof (si_lease _ Hi _ _ Hm) as Om. pose proof (si_lease _ Hi _ _ Hl) as Ol.
    pose proof (lo_contract _ _ _ Om) as Hcm. rewrite Hk in Hcm. unfold k0 in Hcm.
    rewrite (lo_contract _ _ _ Ol) in Hcm. injection Hcm as Hcm.
    destruct (lo_id _ _ _ Om) as [_ <-], (lo_id _ _ _ Ol) as [_ <-]. by rewrite Hcm. }
  split; cbn [sw_ledger sw_leases set_ledger set_leases _active _settled].
  - by apply dict_wf_delete.
  - intros k x. rewrite dict_lookup_delete by done. split.
    + case_decide as Hk; [done|]. intros Hx. apply Hact in Hx as (j & m & Hm & Hma & Hmc & Hmk).
      exists j, m. split; [|done]. rewrite dict_lookup_insert_ne; [done|]. intros <-.
      rewrite Hl in Hm. injection Hm as <-. apply Hk. unfold k0. by rewrite Hmc.
    + intros (j & m & Hm & Hma & Hmc & Hmk). rewrite dict_lookup_insert in Hm. case_decide as Hj.
      { injection Hm as <-. destruct Hst'. done. }
      case_decide as Hk; [|apply Hact; by exists j, m]. destruct Hj. symmetry. apply (Huniq j m Hm).
      by rewrite Hmc, Hmk.
  - intros k x. rewrite dict_lookup_insert. split.
    + case_decide as Hk.
      * intros [= <-]. exists id, l'. rewrite dict_lookup_insert_eq. by split_and!.
      * intros Hx. apply Hset in Hx as (j & m & Hm & Hma & Hmk & Hmu). exists j, m. split; [|done].
        rewrite dict_lookup_insert_ne; [done|]. intros <-. congruence.
    + intros (j & m & Hm & Hma & Hmk & Hmu). rewrite dict_lookup_insert in Hm. case_decide as Hj.
      * injection Hm as <-. rewrite decide_True by done. done.
      * rewrite decide_False; [apply Hset; by exists j, m|]. intros <-. apply Hj. symmetry.
        by apply (Huniq j m Hm).
Qed.
Lemma expire_ledger clock now s s' ids :
  swarm_inv s → ledger_of_leases s → _expire_locked clock now s = (s', Ok ids) → ledger_of_leases s'.
Proof.
  intros Hi Hlg. unfold _expire_locked. prog_gets. rewrite prog_bind_eq.
  destruct (lease_ids_spec (λ l, is_active l && (lease_end l <=? now)) s Hi) as [Hnd Hids].
  change (sorted_str _) with (expired_ids now s) in Hnd, Hids.
  assert (∀ id, id ∈ expired_ids now s → ∃ l, sw_leases s !! id = Some l ∧ wl_state l = ACTIVE) as Hall.
  { intros id (l & Hl & Ha)%Hids. apply andb_prop in Ha as [Ha%is_active_true _]. by exists l. }
  clear Hids. generalize dependent (expired_ids now s). intros xs Hnd Hall.
  set (body := λ id, _ : prog SwarmScheduler unit).
  destruct (for_each xs body s) as [t [[]|]] eqn:Hloop; [|done]. intros [= <- _].
  revert s Hi Hlg Hall Hloop. induction xs as [|id xs IH]; intros s Hi Hlg Hall; cbn [for_each]; [by intros [= <-]|].
  apply NoDup_cons in Hnd as [Hid Hnd]. destruct (Hall id (list_elem_of_here _ _)) as (l & Hl & Ha).
  rewrite prog_bind_eq. unfold body at 1. rewrite prog_bind_eq, (the_lease_present _ _ l Hl).
  set (reason := timeout_reason l now).
  destruct (stop_lease clock id TIMED_OUT reason s) as [s1 [[]|]] eqn:Hstop; [|done].
  pose proof (stop_lease_evolves clock (λ _, False) id TIMED_OUT reason s l ltac:(set_solver) Hl Ha Hi) as [Hi1 _].
  pose proof (stop_lease_leases clock id TIMED_OUT reason s l Hl) as Hls. rewrite Hstop in Hi1, Hls. simpl in *.
  apply (IH Hnd s1 Hi1).
  - eapply stop_lease_ledger; [exact Hi| |exact Hl|exact Ha|exact Hlg|exact Hstop]. set_solver.
  - intros j Hj. rewrite Hls, dict_lookup_insert_ne; [apply Hall; by right|]. by intros ->.
Qed.

(** *** What recovery gives back *)
Record recovered_contents (s t : SwarmScheduler) : Prop := {
  rc_config : sw_config t = sw_config s;
  rc_plan : sw_plan t = sw_plan s;
  rc_contracts k : sw_contracts t !! k = sw_contracts s !! k;
  rc_by_key k : sw_by_key t !! k = sw_by_key s !! k;
  rc_deliveries k : sw_usage_deliveries t !! k = sw_usage_deliveries s !! k;
  rc_terminal k : sw_terminal_usage_deliveries t !! k = sw_terminal_usage_deliveries s !! k;
  rc_receipts k : sw_receipts t !! k = sw_receipts s !! k;
  rc_receipt_by_contract k : sw_receipt_by_contract t !! k = sw_receipt_by_contract s !! k;
  rc_authorizations k : sw_authorizations t !! k = sw_authorizations s !! k;
  rc_consumed k : sw_consumed_authorizations t !! k = sw_consumed_authorizations s !! k;
  rc_cancelled : sw_cancelled t = sw_cancelled s ∧ sw_cancel_reason t = sw_cancel_reason s;
}.
#[export] Instance recovered_contents_preorder : PreOrder recovered_contents.
Proof.
  split; [by split|]. intros s t u [H1 H2 H3 H4 H5 H6 H7 H8 H9 H10 [H11 H12]] [G1 G2 G3 G4 G5 G6 G7 G8 G9 G10 [G11 G12]].
  split; try congruence. split; congruence.
Qed.
Lemma loaded_contents s t : same_contents s t → same_stores_as s t → recovered_contents s t.
Proof. intros [] []. by split. Qed.
Lemma expire_contents clock now : Evolves recovered_contents (_expire_locked clock now).
Proof.
  unfold _expire_locked, stop_lease, _finalize_elapsed. swarm_walk ltac:(first
    [ progress unfold the_lease, mutate_lease, read_clock
    | intros ?; unfold on_ledger; repeat case_match; by split
    | intros ?; simpl; repeat case_match; by split ]).
Qed.

(** What is consumed of an integer dimension is what was settled. *)
Lemma consumed_settled b l : ledger_reachable b l →
  bu_tokens (_consumed l) = zsum bu_tokens (vals (_settled l)) ∧
  bu_tool_calls (_consumed l) = zsum bu_tool_calls (vals (_settled l)).
Proof.
  induction 1 as [Hb|c l Hl IH|k u l Hl IH]; [done| |].
  - destruct (reserve c l) as [l' r] eqn:H. simpl. destruct (reserve_inv _ _ _ _ H) as [[_ ->]|H']; [done|].
    destruct_and! H'. by subst l'.
  - destruct (settle k u l) as [l' r] eqn:H. simpl.
    destruct (settle_inv _ _ _ _ _ H) as [[_ ->]|(c & p & _ & Hc & _ & _ & Hp & _ & ->)]; [done|].
    apply ledger_reachable_inv in Hl as [Hi _]. apply usage_plus_ok in Hp as (Hp1 & Hp2 & _).
    cbn [_consumed _settled]. rewrite Hp1, Hp2.
    rewrite vals_insert_fresh by (apply (led_disjoint _ Hi); by eexists). rewrite !zsum_app. simpl. lia.
Qed.
End checkpoint_file.
