(* ===== verification/SwarmSafety.v ===== *)
(** * Properties of the swarm scheduler

    What holds of every scheduler that calls, errors and restarts can produce.
    Clock readings are arbitrary throughout: none of this needs a clock that moves
    forward. *)
From S2P Require Import Prelude PyDict PyFloat Canonical Models Swarm SwarmDocs SwarmFacts Ledger SwarmControl SwarmControlFacts SwarmRecovery.
Local Open Scope Z_scope.
Import WorkerLeaseState.

Section safety.
Context {PF : Platform}.

Definition acked (op : swarm_op) : list string := match op with OpAcknowledge id => [id] | _ => [] end.
(** A run: calls, and restarts that recover from what the checkpoint file holds.
    The file holds what the last [_persist] wrote, which is not always the state
    in memory: a call that expires leases and then refuses, or whose settlement
    raises, changes leases without writing.  A process killed inside a call
    leaves the file of before the call or of after it.  The ids whose stop was
    acknowledged are collected. *)
Inductive swarm_run (s : SwarmScheduler) : list string → SwarmScheduler → Prop :=
  | run_start : swarm_run s [] s
  | run_call clock op acks t : swarm_run s acks t → swarm_run s (acked op ++ acks) (run_op clock op t).1
  | run_restart clock acks t ck u : swarm_run s acks t → sw_state_file t = Some ck →
      recover clock ck = Ok u → swarm_run s acks u.
(** A run of one process. *)
Inductive swarm_calls (s : SwarmScheduler) : list string → SwarmScheduler → Prop :=
  | calls_start : swarm_calls s [] s
  | calls_call clock op acks t : swarm_calls s acks t → swarm_calls s (acked op ++ acks) (run_op clock op t).1.
Definition swarm_started (s : SwarmScheduler) : Prop :=
  ∃ cfg, validate_TeamBudget (cf_budget cfg) = Ok (cf_budget cfg) ∧ new_SwarmScheduler cfg None = Ok s.
Definition swarm_reachable (s : SwarmScheduler) : Prop := ∃ s0 acks, swarm_started s0 ∧ swarm_run s0 acks s.

Lemma recover_spec clock s t : swarm_inv s → stores_ok s → recover clock (_state s) = Ok t →
  swarm_inv t ∧ stores_ok t ∧ (∀ ack, history ack s t) ∧ recovered_contents s t ∧ ledger_of_leases t ∧
  (sw_state_file t = Some (_state s) ∨ sw_state_file t = Some (_state t)) ∧
  ∀ id, match sw_leases s !! id with
        | None => sw_leases t !! id = None
        | Some l => if is_active l && (lease_end l <=? clock 0%nat)
            then ∃ l', sw_leases t !! id = Some l' ∧ wl_state l' = TIMED_OUT ∧ wl_stop_required l' = true
            else sw_leases t !! id = Some l
        end.
Proof.
  intros Hi Hst. unfold recover. intros H. apply bind_ok in H as (u & Hu & H).
  destruct (load_and_check (_state s)) as [u'|e] eqn:Hload; [|by destruct (exn_isa _ _)]. injection Hu as ->.
  unfold load_and_check in Hload. apply bind_ok in Hload as (v & Hv & Hload).
  destruct (load_state s v Hi Hv) as (Hsame & Hticks & Hb). destruct (load_stores s v Hst Hv) as (Hss & Hstv & Hfv).
  destruct (rebuild_ledger_only v Hb) as (l & Hl & Hled). pose proof (rebuild_stores v Hstv) as Hstw.
  destruct (_rebuild_ledger v) as [w r] eqn:Hrb. simpl in Hl, Hstw. subst w.
  check Hload as Hr. check Hload. injection Hload as <-.
  assert (ledger_of_leases (set_ledger l v)) as Hlol.
  { eapply rebuild_ledger_exact; [apply (sc_wf _ _ Hsame)|]. by rewrite Hrb, Hr. }
  assert (same_contents s (set_ledger l v)) as Hsame' by (destruct Hsame; by split).
  assert (recovered_contents s (set_ledger l v)) as Hrc.
  { apply loaded_contents; [done|]. destruct Hss. by split. }
  destruct (same_contents_inv s _ Hsame' Hi Hled) as [Hinv Hhist].
  unfold reap_timeouts in H. rewrite prog_bind_eq in H. unfold read_clock in H at 1. cbv beta match in H.
  set (w := set_ticks _ _) in H. rewrite prog_bind_eq in H.
  assert (∀ ack, evolves_ok ack (set_ledger l v) w) as Hw by (intros ack; by apply evolves_frame).
  pose proof (λ ack, expire_evolves clock ack (clock (sw_ticks (set_ledger l v))) w) as He.
  pose proof (expire_exact clock (clock (sw_ticks (set_ledger l v))) w) as Hex.
  pose proof (expire_stores clock (clock (sw_ticks (set_ledger l v))) w) as Hstx.
  pose proof (expire_unsaved clock (clock (sw_ticks (set_ledger l v))) w) as (_ & Hfx & _).
  pose proof (expire_contents clock (clock (sw_ticks (set_ledger l v))) w) as Hrx.
  pose proof (expire_ledger clock (clock (sw_ticks (set_ledger l v))) w) as Hlx.
  destruct (_expire_locked clock _ w) as [x [ids|e]]; [|done]. simpl in He, Hstx, Hfx, Hrx.
  specialize (Hlx x ids (proj1 (Hw (λ _, False) Hinv))).
  specialize (Hex x ids (proj1 (Hw (λ _, False) Hinv)) eq_refl) as (Hids & _ & Hto & Hun).
  assert (∃ y, t = y ∧ (∀ ack, evolves_ok ack x y) ∧ sw_leases y = sw_leases x ∧ sw_ledger y = sw_ledger x ∧
    keeps_stores x y ∧ recovered_contents x y ∧
    (sw_state_file y = sw_state_file x ∨ sw_state_file y = Some (_state y))) as (y & -> & Hy & Hly & Hgy & Hsy & Hry & Hfy).
  { rewrite prog_bind_eq in H. case_bool_decide; cbn [mret prog_ret] in H.
    - injection H as <-. exists x. split_and!; [done|intros ack; done|done|done|done|reflexivity|by left].
    - exists (_persist x).1. injection H as <-. split_and!; [done| |apply persist_frame|..].
      + intros ack. apply persist_evolves.
      + unfold _persist, modify. simpl. by case_match.
      + unfold _persist, modify. simpl. case_match; by apply same_stores.
      + unfold _persist, modify. simpl. case_match; by split.
      + unfold _persist, modify. simpl. case_match; [by right|by left]. }
  assert (∀ ack, evolves_ok ack (set_ledger l v) y) as Hall.
  { intros ack. transitivity w; [done|]. transitivity x; [apply He|apply Hy]. }
  split_and!.
  - apply (Hall (λ _, False) Hinv).
  - apply Hsy, Hstx. eapply same_stores; [..|exact Hstw]; done.
  - intros ack. eapply history_trans; [apply Hhist|]. apply (Hall ack Hinv).
  - etransitivity; [exact Hrc|]. etransitivity; [|exact Hry]. etransitivity; [|exact Hrx]. by split.
  - destruct Hlx as [L1 L2 L3]; [by destruct Hlol; split|done|].
    split; rewrite Hgy, ?Hly; done.
  - destruct Hfy as [->|Hfy]; [left|by right]. rewrite Hfx. exact Hfv.
  - intros id. rewrite Hly, <- (sc_leases _ _ Hsame'). change (sw_leases (set_ledger l v)) with (sw_leases w).
    change (sw_ticks (set_ledger l v)) with (sw_ticks v) in Hids. rewrite Hticks in Hids.
    destruct (decide (id ∈ ids)) as [Hin|Hout].
    + pose proof (proj1 (Hids id) Hin) as (m & Hm & Ha & He'). rewrite Hm.
      rewrite (proj2 (is_active_true m)), (proj2 (Z.leb_le _ _)) by done. by apply Hto.
    + rewrite (Hun id Hout). destruct (sw_leases w !! id) as [m|] eqn:Hm; [|done].
      destruct (is_active m) eqn:Ha; [|done]. destruct (Z.leb_spec (lease_end m) (clock 0%nat)); [|done].
      destruct Hout. apply Hids. exists m. by apply is_active_true in Ha.
Qed.

(** ** What a run keeps

    [Q acks t] is kept by every run if it is kept by whatever moves the history
    forward and holds of the scheduler the file was written by. *)
Lemma history_mono (ack ack' : string → Prop) s t :
  (∀ id, ack id → ack' id) → history ack s t → history ack' s t.
Proof.
  intros Ha H. split; try apply H. intros id l Hl. destruct (hi_lease _ _ _ H id l Hl) as (l' & Hl' & [A B C D]).
  exists l'. split; [done|]. split; [done..|]. intros Hs. destruct (D Hs); auto.
Qed.
Definition written_by (Q : SwarmScheduler → Prop) (s : SwarmScheduler) : Prop :=
  (cf_durable (sw_config s) = false → sw_state_file s = None) ∧
  ∀ ck, sw_state_file s = Some ck →
    ∃ p, ck = _state p ∧ swarm_inv p ∧ stores_ok p ∧ sw_config p = sw_config s ∧ Q p.
Definition Forward (Q : list string → SwarmScheduler → Prop) : Prop :=
  ∀ acks acks' s t, (∀ id, id ∈ acks → id ∈ acks') → history (λ id, id ∈ acks') s t → Q acks s → Q acks' t.

Lemma written_weaken (Q Q' : SwarmScheduler → Prop) s :
  (∀ p, Q p → Q' p) → written_by Q s → written_by Q' s.
Proof.
  intros HQ [Hd Hw]. split; [done|]. intros ck Hck. destruct (Hw ck Hck) as (p & ? & ? & ? & ? & ?).
  exists p. split_and!; auto.
Qed.
(** After a call the file is as before or holds the new state. *)
Lemma written_call (Q Q' : SwarmScheduler → Prop) s t :
  filed s t → sw_config t = sw_config s → swarm_inv t → stores_ok t → Q' t →
  (∀ p, unsaved s t → Q p → Q' p) → written_by Q s → written_by Q' t.
Proof.
  intros Hfile Hc Ht Hst Hq Hkeep [Hd Hw]. destruct Hfile as [Hu|[[Hdur Hf]|[Hdur Hf]]].
  - pose proof Hu as (_ & Hf & _). unfold written_by. rewrite Hc, Hf. split; [done|]. intros ck Hck.
    destruct (Hw ck Hck) as (p & ? & ? & ? & ? & ?). exists p. split_and!; auto.
  - split; [congruence|]. intros ck Hck. rewrite Hf in Hck. injection Hck as <-. by exists t.
  - rewrite (Hd Hdur) in Hf. split; [done|]. intros ck. by rewrite Hf.
Qed.
Lemma written_recovered (Q : SwarmScheduler → Prop) clock s p u :
  swarm_inv p → stores_ok p → recover clock (_state p) = Ok u → sw_config p = sw_config s →
  cf_durable (sw_config s) = true → Q p → Q u → written_by Q u.
Proof.
  intros Hp Hsp Hr Hc Hdur Hqp Hqu. destruct (recover_spec clock p u Hp Hsp Hr) as (Hu & Hsu & _ & Hrc & _ & Hf & _).
  split; [rewrite (rc_config _ _ Hrc); congruence|].
  intros ck Hck. destruct Hf as [Hf|Hf]; rewrite Hf in Hck; injection Hck as <-.
  - exists p. split_and!; try done. symmetry. apply (rc_config _ _ Hrc).
  - by exists u.
Qed.
Lemma file_durable (Q : SwarmScheduler → Prop) s ck :
  written_by Q s → sw_state_file s = Some ck → cf_durable (sw_config s) = true.
Proof. intros [Hd _] Hck. apply not_false_iff_true. intros Hf. by rewrite Hd in Hck. Qed.

Lemma run_keeps (Q : list string → SwarmScheduler → Prop) s acks t :
  Forward Q → swarm_run s acks t → swarm_inv s → stores_ok s → Q [] s → written_by (Q []) s →
  swarm_inv t ∧ stores_ok t ∧ Q acks t ∧ written_by (Q acks) t.
Proof.
  intros HQ H Hi Hst Hq Hw.
  induction H as [|clock op acks t _ (IH1 & IH2 & IH3 & IH4)|clock acks t ck u _ (IH1 & IH2 & IH3 & IH4) Hck Hr].
  - done.
  - destruct (op_evolves clock (λ id, id ∈ acked op ++ acks) op) with (s := t) as [Ht Hh]; [|done|].
    { intros id ->. left. }
    assert (∀ id, id ∈ acks → id ∈ acked op ++ acks) as Hsub by (intros id ?; apply elem_of_app; by right).
    pose proof (op_stores clock op t IH2) as Hst'. pose proof (HQ _ _ _ _ Hsub Hh IH3) as Hq'.
    split_and!; try done.
    assert (∀ p, Q acks p → Q (acked op ++ acks) p) as Hwk by (intros p; apply HQ; [done|apply history_refl]).
    apply (written_call (Q acks) _ t); try done; [apply op_files|apply Hh|auto].
  - pose proof (file_durable _ _ _ IH4 Hck) as Hdur. destruct IH4 as [_ Hw'].
    destruct (Hw' ck Hck) as (p & -> & Hp & Hsp & Hpc & Hqp).
    destruct (recover_spec clock p u Hp Hsp Hr) as (Hu & Hsu & Hh & _).
    assert (Q acks u) as Hqu by (eapply HQ; [|apply Hh|exact Hqp]; done).
    split_and!; try done. by apply (written_recovered _ clock t p).
Qed.

(** The file of a reachable scheduler was written by a scheduler it descends from,
    and knows every idempotency key. *)
Definition file_ok (s : SwarmScheduler) : Prop :=
  written_by (λ p, history (λ _, True) p s ∧ ∀ k, sw_by_key p !! k = sw_by_key s !! k) s.
Lemma reachable_file s : swarm_reachable s → swarm_inv s ∧ stores_ok s ∧ file_ok s.
Proof.
  intros (s0 & acks & (cfg & Hb & Hs0) & Hr).
  assert (swarm_inv s0 ∧ stores_ok s0 ∧ sw_state_file s0 = None) as (Hi0 & Hst0 & Hf0).
  { split; [by eapply new_swarm_inv|]. unfold new_SwarmScheduler in Hs0. do 2 check Hs0. injection Hs0 as <-.
    split; [|done]. split; simpl; try done. split_and!; apply dict_wf_empty. }
  induction Hr as [|clock op acks t _ (IH1 & IH2 & IH3)|clock acks t ck u _ (IH1 & IH2 & IH3) Hck Hrec].
  - split_and!; try done. split; [done|]. by rewrite Hf0.
  - destruct (op_evolves clock (λ _, True) op) with (s := t) as [Ht Hh]; [done|done|].
    pose proof (op_stores clock op t IH2) as Hst'. split_and!; try done.
    eapply written_call; [apply op_files|apply Hh|done|done|split; [apply history_refl|done]| |exact IH3].
    intros p (_ & _ & Hk & _) [Hph Hpk]. split; [by eapply history_trans|]. intros k. by rewrite Hk.
  - pose proof (file_durable _ _ _ IH3 Hck) as Hdur. destruct IH3 as [_ Hw'].
    destruct (Hw' ck Hck) as (p & -> & Hp & Hsp & Hpc & Hqp & Hkp).
    destruct (recover_spec clock p u Hp Hsp Hrec) as (Hu & Hsu & Hh & Hrc & _).
    split_and!; try done. apply (written_recovered _ clock t p); try done.
    + split; [done|]. intros k. symmetry. apply (rc_by_key _ _ Hrc).
    + split; [apply history_refl|done].
Qed.
Lemma swarm_reachable_inv s : swarm_reachable s → swarm_inv s.
Proof. by intros (? & _)%reachable_file. Qed.

(** The file holds the state of [s] (when it has a file at all). *)
Definition saved (s : SwarmScheduler) : Prop :=
  if cf_durable (sw_config s) then sw_state_file s = Some (_state s) else sw_state_file s = None.
Lemma forward_history s : Forward (λ acks t, history (λ id, id ∈ acks) s t).
Proof. intros acks acks' t u Hsub Htu Hst. eapply history_trans, Htu. by eapply history_mono, Hst. Qed.
Lemma run_saved s acks t :
  swarm_inv s → stores_ok s → saved s → swarm_run s acks t → swarm_inv t ∧ history (λ id, id ∈ acks) s t.
Proof.
  intros Hi Hst Hs Hr.
  destruct (run_keeps _ s acks t (forward_history s) Hr Hi Hst) as (Ht & _ & Hh & _); [apply history_refl| |done].
  unfold saved in Hs. split; [by intros Hd; rewrite Hd in Hs|].
  intros ck Hck. exists s. destruct (cf_durable (sw_config s)); [|congruence].
  rewrite Hs in Hck. injection Hck as <-. split_and!; try done. apply history_refl.
Qed.
(** After a call that keyed a lease, counted a delivery or consumed an
    authorization, the file holds the new state. *)
Lemma changed_saved s t : (cf_durable (sw_config s) = false → sw_state_file s = None) →
  sw_config t = sw_config s → filed s t → ¬ unsaved s t → saved t.
Proof.
  intros Hd Hc Hf Hn. unfold saved. rewrite Hc. destruct Hf as [?|[[Hdur Hf]|[Hdur Hf]]]; [done|by rewrite Hdur|].
  rewrite Hdur, Hf. auto.
Qed.
Lemma reachable_op clock op s : swarm_reachable s →
  let t := (run_op clock op s).1 in swarm_inv t ∧ stores_ok t ∧ filed s t ∧ (¬ unsaved s t → saved t) ∧
  (cf_durable (sw_config s) = false → sw_state_file t = None).
Proof.
  intros (Hs & Hst & Hd & _)%reachable_file. cbv zeta.
  destruct (op_evolves clock (λ _, True) op) with (s := s) as [Ht Hh]; [done|done|].
  pose proof (op_files clock op s) as Hf. split_and!; [done|by apply op_stores|done| |].
  - apply changed_saved; [done|apply Hh|done].
  - intros Hdur. destruct Hf as [(_ & -> & _)|[[? _]|[_ ->]]]; [auto|congruence|auto].
Qed.
Lemma calls_evolve s acks t : swarm_calls s acks t → swarm_inv s → swarm_inv t ∧ history (λ id, id ∈ acks) s t.
Proof.
  intros H Hi. induction H as [|clock op acks t _ [IH1 IH2]].
  - split; [done|apply history_refl].
  - destruct (op_evolves clock (λ id, id ∈ acked op ++ acks) op) with (s := t) as [Ht Hh]; [|done|].
    { intros id ->. left. }
    split; [done|]. eapply forward_history; [|exact Hh|exact IH2]. intros id ?. apply elem_of_app. by right.
Qed.

(** ** Leases *)
(** The record of the lease in the checkpoint file is up to date. *)
Definition on_file (s : SwarmScheduler) (l : WorkerLease) : Prop :=
  ∃ ck, sw_state_file s = Some ck ∧ lease_record l ∈ ck_leases ck.

Lemma on_file_lease s id l p :
  swarm_inv s → swarm_inv p → history (λ _, True) p s → sw_leases s !! id = Some l →
  lease_record l ∈ ck_leases (_state p) → sw_leases p !! id = Some l.
Proof.
  intros Hs Hp Hh Hl Hin. simpl in Hin. apply list_elem_of_fmap in Hin as (m & Hrec & Hm).
  apply elem_of_sort_by, elem_of_vals in Hm as [j Hj]; [|apply Hp].
  pose proof (si_lease _ Hp _ _ Hj) as Om. pose proof (si_lease _ Hs _ _ Hl) as Ol.
  assert (wl_contract m = wl_contract l) as Hc.
  { pose proof (hi_contract _ _ _ Hh _ _ (lo_contract _ _ _ Om)) as Hc.
    assert (sc_contract_id (wl_contract m) = sc_contract_id (wl_contract l)) as Hid
      by (by injection Hrec). rewrite Hid, (lo_contract _ _ _ Ol) in Hc. congruence. }
  assert (m = l) as ->.
  { clear -Hrec Hc. destruct m, l. unfold lease_record in Hrec. cbn in *. subst. injection Hrec. intros. by subst. }
  destruct (lo_id _ _ _ Om) as [<- _], (lo_id _ _ _ Ol) as [<- _]. done.
Qed.

(** C10: a worker lease only moves forward.  Over any calls of one process, and
    over any run with restarts that recover from the checkpoint file when the file
    has the lease as it is: the lease keeps its contract, key and deadline, a
    terminal state and its reason never change, a result once recorded is never
    replaced, and a requested stop is still reported by [stop_requests] unless it
    was acknowledged. *)
Theorem worker_lease_lifecycle s acks t id l :
  swarm_reachable s → sw_leases s !! id = Some l →
  swarm_calls s acks t ∨ (swarm_run s acks t ∧ on_file s l) →
  ∃ l', sw_leases t !! id = Some l' ∧ wl_contract l' = wl_contract l ∧
    wl_idempotency_key l' = wl_idempotency_key l ∧ wl_deadline_at l' = wl_deadline_at l ∧
    (wl_state l ≠ ACTIVE → wl_state l' = wl_state l ∧ wl_terminal_reason l' = wl_terminal_reason l) ∧
    (∀ r, wl_result l = Some r → wl_result l' = Some r) ∧
    (wl_stop_required l = true → id ∈ acks ∨ id ∈ stop_requests t).
Proof.
  intros (Hs & Hst & [Hd Hfile])%reachable_file Hl Hrun.
  set (Q := λ (acks : list string) t, ∃ l', sw_leases t !! id = Some l' ∧ lease_le (id ∈ acks) l l').
  assert (Forward Q) as HQ.
  { intros a a' u v Hsub Huv (l' & Hl' & Hle). destruct (hi_lease _ _ _ Huv _ _ Hl') as (m & Hm & Hle').
    exists m. split; [done|]. eapply lease_le_trans, Hle'. destruct Hle as [A B C D]. split; try done.
    intros Hx. destruct (D Hx); auto. }
  assert (swarm_inv t ∧ Q acks t) as [Ht (l' & Hl' & [(? & ? & ? & ?) ? ? Hstop])].
  { destruct Hrun as [Hrun|[Hrun (ck & Hck & Hin)]].
    - destruct (calls_evolve _ _ _ Hrun Hs) as [Ht Hh]. split; [done|]. exact (hi_lease _ _ _ Hh _ _ Hl).
    - destruct (run_keeps Q s acks t HQ Hrun Hs Hst) as (Ht & _ & Hq & _); [by exists l; split; [|apply lease_le_refl]| |done].
      split; [exact Hd|]. intros ck' Hck'. rewrite Hck in Hck'. injection Hck' as <-.
      destruct (Hfile ck Hck) as (p & -> & Hp & Hsp & Hpc & Hh & _). exists p. split_and!; try done.
      exists l. split; [by apply (on_file_lease s)|apply lease_le_refl]. }
  exists l'. split_and!; try done. intros Hsr. destruct (Hstop Hsr) as [Hs'|?]; [right|by left].
  apply (lease_ids_spec wl_stop_required t Ht). by exists l'.
Qed.

(** C11: one attempt per contract.  Two leases with the same contract, the same
    child agent or the same idempotency key are one lease, its contract is
    registered under its own id, and its key finds it ever after. *)
Theorem one_attempt_per_contract s i j a b :
  swarm_reachable s → sw_leases s !! i = Some a → sw_leases s !! j = Some b →
  (sc_contract_id (wl_contract a) = sc_contract_id (wl_contract b) ∨
   sc_child_agent_id (wl_contract a) = sc_child_agent_id (wl_contract b) ∨
   wl_idempotency_key a = wl_idempotency_key b → i = j ∧ a = b) ∧
  sw_contracts s !! sc_contract_id (wl_contract a) = Some (wl_contract a) ∧
  ∀ acks t, swarm_run s acks t → sw_by_key t !! wl_idempotency_key a = Some i.
Proof.
  intros (Hs & Hst & Hd & Hfile)%reachable_file Ha Hb. pose proof (si_lease _ Hs _ _ Ha) as Hoa. pose proof (si_lease _ Hs _ _ Hb) as Hob.
  pose proof (lo_contract _ _ _ Hoa) as Hca. pose proof (lo_contract _ _ _ Hob) as Hcb.
  assert (sw_by_key s !! wl_idempotency_key a = Some i) as Hka by (apply (si_by_key _ Hs); by exists a).
  assert (sw_by_key s !! wl_idempotency_key b = Some j) as Hkb by (apply (si_by_key _ Hs); by exists b).
  split_and!; [|done|].
  - intros H. assert (i = j) as ->; [|by simplify_eq].
    destruct H as [H|[H|H]]; [| |by rewrite H in Hka; simplify_eq].
    + rewrite H in Hca. simplify_eq. destruct (lo_id _ _ _ Hoa), (lo_id _ _ _ Hob). congruence.
    + destruct (decide (sc_contract_id (wl_contract a) = sc_contract_id (wl_contract b))) as [He|Hne].
      * rewrite He in Hca. simplify_eq. destruct (lo_id _ _ _ Hoa), (lo_id _ _ _ Hob). congruence.
      * by destruct (si_distinct _ Hs _ _ _ _ Hca Hcb Hne).
  - intros acks t Hr.
    destruct (run_keeps (λ _ t, sw_by_key t !! wl_idempotency_key a = Some i) s acks t) as (_ & _ & Hk & _); try done.
    + intros _ a' u v _ Huv. apply (hi_key _ _ _ Huv).
    + split; [exact Hd|]. intros ck Hck. destruct (Hfile ck Hck) as (p & -> & Hp & Hsp & Hpc & _ & Hk).
      exists p. split_and!; try done. by rewrite Hk.
Qed.

(** usage stays bounded.  A live worker has used no more than its contract
    allows; a terminal one is settled at its usage capped by the contract, an
    excess is recorded dimension by dimension, a finished worker has none; and the
    team ledger stays within the team budget. *)
Theorem worker_usage_bounded s id l :
  swarm_reachable s → sw_leases s !! id = Some l →
  (wl_state l = ACTIVE → usage_le (wl_usage l) (limits (wl_contract l)) ∧ wl_settled_usage l = None) ∧
  (wl_state l ≠ ACTIVE → ∃ u, wl_settled_usage l = Some u ∧ _cap_usage (wl_usage l) (wl_contract l) = Ok u ∧
     usage_le u (limits (wl_contract l))) ∧
  (wl_state l = FINISHED → usage_le (wl_usage l) (limits (wl_contract l)) ∧ is_Some (wl_result l)) ∧
  (wl_overage_dimensions l = [] ↔ usage_le (wl_usage l) (limits (wl_contract l))) ∧
  usage_within (_consumed (sw_ledger s)) (cf_budget (sw_config s)).
Proof.
  intros Hs%swarm_reachable_inv Hl. pose proof (si_lease _ Hs _ _ Hl) as Hok.
  assert (wl_overage_dimensions l = [] ↔ usage_le (wl_usage l) (limits (wl_contract l))) as Hov
    by (rewrite (lo_over _ _ _ Hok); apply overage_nil).
  split_and!; [| | |done|].
  - intros Ha. destruct (lo_active _ _ _ Hok Ha) as (? & _ & ? & _). split; [by apply Hov|done].
  - intros Ha. destruct (lo_settled _ _ _ Hok Ha) as (u & ? & Hc). exists u. split_and!; [done..|].
    by destruct (cap_ok _ _ _ Hc).
  - intros Hf. destruct (lo_finished _ _ _ Hok Hf). split; [by apply Hov|done].
  - destruct (ledger_reachable_inv _ _ (si_ledger _ Hs)) as [Hi <-]. apply (led_consumed _ Hi).
Qed.



(** ** What expiry leaves alone *)
(** What a worker has been charged apart from time. *)
Definition counted (u v : BudgetUsage) : Prop :=
  bu_tokens v = bu_tokens u ∧ bu_tool_calls v = bu_tool_calls u ∧ bu_cost v = bu_cost u.
Record expiry_keeps (s s' : SwarmScheduler) : Prop := {
  ek_counts j l : sw_leases s !! j = Some l → ∃ l', sw_leases s' !! j = Some l' ∧ counted (wl_usage l) (wl_usage l');
  ek_deliveries : sw_usage_deliveries s' = sw_usage_deliveries s;
  ek_config : sw_config s' = sw_config s;
  ek_plan : sw_plan s' = sw_plan s ∧ sw_contracts s' = sw_contracts s;
  ek_authorizations : sw_authorizations s' = sw_authorizations s;
  ek_consumed : sw_consumed_authorizations s' = sw_consumed_authorizations s;
}.
#[local] Instance expiry_keeps_preorder : PreOrder expiry_keeps.
Proof.
  split.
  - intros s. split; try done. intros j l Hl. by exists l.
  - intros s t u [H ? ? [? ?] ? ?] [G ? ? [? ?] ? ?]. split; try congruence; [|split; congruence]. intros j l Hl.
    destruct (H j l Hl) as (m & Hm & A). destruct (G j m Hm) as (n & Hn & B).
    exists n. split; [done|]. unfold counted in *. intuition congruence.
Qed.
Lemma same_leases_keeps s s' : sw_leases s' = sw_leases s → sw_usage_deliveries s' = sw_usage_deliveries s →
  sw_config s' = sw_config s → sw_plan s' = sw_plan s ∧ sw_contracts s' = sw_contracts s →
  sw_authorizations s' = sw_authorizations s →
  sw_consumed_authorizations s' = sw_consumed_authorizations s → expiry_keeps s s'.
Proof. intros H ?????. split; try done. intros j l Hl. exists l. by rewrite H. Qed.
Lemma mutate_keeps id f : (∀ l, counted (wl_usage l) (wl_usage (f l))) → Evolves expiry_keeps (mutate_lease id f).
Proof.
  intros Hf s. unfold mutate_lease, modify. destruct (sw_leases s !! id) as [m|] eqn:Hm; [|done].
  split; try done. intros j l Hl. simpl. rewrite dict_lookup_insert. case_decide as Hj; [|by exists l].
  subst j. simplify_eq. by eexists.
Qed.
Lemma persist_keeps s : expiry_keeps s (_persist s).1.
Proof. unfold _persist, modify. simpl. case_match; by apply same_leases_keeps. Qed.
Lemma the_lease_keeps id : Evolves expiry_keeps (the_lease id).
Proof. intros s. unfold the_lease. prog_gets. by destruct (sw_leases s !! id). Qed.
Lemma stop_keeps clock id st reason : Evolves expiry_keeps (stop_lease clock id st reason).
Proof.
  apply evolves_bind; [apply _| |intros _].
  { apply evolves_bind; [apply _|intros s; by apply same_leases_keeps|]. intros now. by apply mutate_keeps. }
  apply evolves_bind; [apply _|by apply mutate_keeps|intros _].
  apply evolves_bind; [apply _|apply the_lease_keeps|]. intros l s. unfold on_ledger.
  destruct (settle _ _ _). by apply same_leases_keeps.
Qed.
Lemma expire_keeps clock now : Evolves expiry_keeps (_expire_locked clock now).
Proof.
  apply evolves_bind; [apply _|by intros s|]. intros ids.
  apply evolves_bind; [apply _| |intros _; apply evolves_ret, _].
  apply evolves_for_each; [apply _|]. intros id _.
  apply evolves_bind; [apply _|apply the_lease_keeps|intros l; apply stop_keeps].
Qed.

Lemma clock_bind {A} clock (k : float → prog SwarmScheduler A) s :
  (read_clock clock ≫= k) s = k (clock (sw_ticks s)) (set_ticks (S (sw_ticks s)) s).
Proof. done. Qed.

(** The common start of [admit], [charge] and [complete]: read the clock, expire. *)
Lemma expiry_run clock s :
  swarm_inv s → let run := (now ← read_clock clock; _expire_locked clock now) s in
  expiry_keeps s run.1 ∧ swarm_inv run.1 ∧ (∀ ack, history ack s run.1) ∧
  (is_ok run.2 = true → ∀ id l, sw_leases run.1 !! id = Some l → wl_state l = ACTIVE → sw_leases s !! id = Some l).
Proof.
  intros Hi run. unfold run. rewrite prog_bind_eq. unfold read_clock. cbv beta match. set (w := set_ticks _ s).
  assert (∀ ack, evolves_ok ack s w) as Hw by (intros ack; by apply evolves_frame).
  destruct (Hw (λ _, False) Hi) as [Hiw _]. pose proof (expire_keeps clock (clock (sw_ticks s)) w) as Hk.
  pose proof (λ ack, expire_evolves clock ack (clock (sw_ticks s)) w) as He.
  pose proof (expire_exact clock (clock (sw_ticks s)) w) as Hex.
  destruct (_expire_locked clock _ w) as [x r]. simpl in *. split_and!.
  - transitivity w; [by apply same_leases_keeps|done].
  - apply (He (λ _, False) Hiw).
  - intros ack. eapply history_trans; [by apply Hw|by apply He].
  - destruct r as [ids|]; [|done]. intros _ id l Hl Ha. destruct (Hex x ids Hiw eq_refl) as (_ & Hlive & _ & _).
    by apply Hlive in Hl as [? _].
Qed.



(** ** Authorizations *)
(** A fresh grant: what was checked and what it left behind. *)
Lemma admit_granted clock id key auth s s' r :
  swarm_inv s → admit_child clock id key auth s = (s', Ok r) → sa_admitted r = true → sa_duplicate r = false →
  ∃ x c ah l, expiry_keeps s x ∧ swarm_inv x ∧ (∀ ack, history ack s x) ∧ sw_contracts s !! id = Some c ∧
    sc_contract_id c = id ∧ lease_of_contract id x = None ∧
    _require_admission_authorization c auth x = Ok ah ∧ s' = (_persist (granted clock c (strip key) ah (set_ledger l x))).1.
Proof.
  intros Hi. unfold admit_child. rewrite prog_bind_eq. unfold raise_if at 1.
  destruct (is_empty_str (strip key)); [done|]. cbn [mret prog_ret].
  destruct (expiry_run clock s Hi) as (Hk & Hx & Hh & _). revert Hk Hx Hh.
  rewrite !clock_bind. set (w := set_ticks _ s). set (now := clock (sw_ticks s)).
  rewrite prog_bind_eq. destruct (_expire_locked clock now w) as [x [ids|e]]; simpl; intros Hk Hx Hh; [|done].
  prog_gets. rewrite (proj2 (ek_plan _ _ Hk)). destruct (sw_contracts s !! id) as [c|] eqn:Hc; [|done].
  destruct (sw_by_key x !! strip key) as [prior|].
  { rewrite prog_bind_eq. unfold the_lease. prog_gets. destruct (sw_leases x !! prior) as [l|]; [|done].
    cbn [mret prog_ret]. case_bool_decide; intros [= _ <-]; done. }
  destruct (sw_cancelled x); [by intros [= _ <-]|]. case_bool_decide as Hn; [by intros [= _ <-]|].
  apply eq_None_not_Some in Hn.
  destruct (admit_fresh_run clock c (strip key) auth x) as [(l & r' & -> & _ & Hr)|(l & ah & _ & Hah & _ & ->)].
  { intros [= <- ->] Hadm. by destruct (Hr r eq_refl) as [? _]; congruence. }
  rewrite grant_lease_run. intros [= <- _] _ _. exists x, c, ah, l. split_and!; try done.
  rewrite <- (proj2 (ek_plan _ _ Hk)) in Hc. by apply (si_contract _ Hx) in Hc as [? _].
Qed.

Lemma granted_fields clock c key ah s :
  sw_leases (granted clock c key ah s) = <[sc_lease_id c := new_lease (sw_config s) c key (clock (sw_ticks s))]> (sw_leases s) ∧
  ∀ h, ah = Some h → sw_consumed_authorizations (granted clock c key ah s) !! h = Some (sc_lease_id c).
Proof. split; [by destruct ah|]. intros h ->. simpl. apply dict_lookup_insert_eq. Qed.

(** C13: admission needs an unused authorization of this scheduler.  A fresh grant
    makes one live lease for a contract of the plan that had none; a contract whose
    phase has predecessors is granted only on an authorization that this scheduler
    issued for exactly that contract and that no lease has consumed, and after any
    run that authorization never grants again.  Without one, only root contracts
    are granted. *)
Theorem authorization_single_use clock id key auth s s' r :
  swarm_reachable s → admit_child clock id key auth s = (s', Ok r) →
  sa_admitted r = true → sa_duplicate r = false →
  ∃ c plan phase l, sw_contracts s !! id = Some c ∧ sw_plan s = Some plan ∧ require_contract_plan c plan = Ok phase ∧
    sw_leases s !! sc_lease_id c = None ∧ sw_leases s' !! sc_lease_id c = Some l ∧ wl_contract l = c ∧ wl_state l = ACTIVE ∧
    match auth with
    | None => ps_predecessor_phase_ids phase = []
    | Some a =>
        sw_authorizations s !! PhaseAuthorization_hash a = Some a ∧
        require_contract a c (cf_orchestrator_id (sw_config s)) = Ok tt ∧
        sw_consumed_authorizations s !! PhaseAuthorization_hash a = None ∧
        ∀ acks t clock' id' key' t' r', swarm_run s' acks t →
          admit_child clock' id' key' (Some a) t = (t', Ok r') → sa_admitted r' = true → sa_duplicate r' = true
    end.
Proof.
  intros Hreach H Hadm Hdup. pose proof (swarm_reachable_inv _ Hreach) as Hs.
  pose proof (reachable_op clock (OpAdmit id key auth) s Hreach) as Hop. cbn [run_op] in Hop.
  rewrite prog_bind_eq, H in Hop. cbn [fst mret prog_ret] in Hop. destruct Hop as (Hs' & Hst' & _ & Hsaved & _).
  destruct (admit_granted _ _ _ _ _ _ _ Hs H Hadm Hdup) as (x & c & ah & l0 & Hk & Hx & Hh & Hc & Hid & Hnone & Hah & ->).
  clear H. subst id. rewrite <- (proj2 (ek_plan _ _ Hk)) in Hc.
  pose proof (lease_id_fresh x c Hx Hc Hnone) as Hfresh. set (g := granted _ _ _ _ _) in *.
  destruct (si_contract _ Hx _ _ Hc) as (_ & _ & plan & Hplan & Hph).
  destruct (require_contract_plan c plan) as [phase|] eqn:Hphase; [|done].
  destruct (granted_fields clock c (strip key) ah (set_ledger l0 x)) as [Hgl Hgc].
  exists c, plan, phase. eexists. rewrite <- (proj1 (ek_plan _ _ Hk)), <- (proj2 (ek_plan _ _ Hk)).
  split_and!; [done..| | | | |].
  - destruct (sw_leases s !! sc_lease_id c) as [m|] eqn:Hm; [|done].
    destruct (hi_lease _ _ _ (Hh (λ _, False)) _ _ Hm) as (? & ? & _). congruence.
  - rewrite (proj2 (persist_frame g)). unfold g. rewrite Hgl. apply dict_lookup_insert_eq.
  - done.
  - done.
  - destruct auth as [a|].
    + destruct ah as [h|].
      2:{ by apply admission_root_ok in Hah as [? _]. }
      pose proof (admission_authorization_ok _ _ _ _ Hah) as (a' & [= <-] & -> & Hown & Hcons & Hreq & _).
      rewrite <- (ek_authorizations _ _ Hk), <- (ek_config _ _ Hk), <- (ek_consumed _ _ Hk). split_and!; try done.
      intros acks t clock' id' key' t' r' Hr Hadm' Hr'. destruct (sa_duplicate r') eqn:Hd'; [done|]. exfalso.
      assert (sw_consumed_authorizations (_persist g).1 !! PhaseAuthorization_hash a = Some (sc_lease_id c)) as Hg
        by (rewrite (ek_consumed _ _ (persist_keeps g)); by apply Hgc).
      destruct (run_saved (_persist g).1 acks t) as [Ht Hht]; try done.
      { apply Hsaved. intros (_ & _ & _ & _ & Heq). rewrite Heq, <- (ek_consumed _ _ Hk) in Hg. congruence. }
      destruct (admit_granted _ _ _ _ _ _ _ Ht Hadm' Hr' Hd') as (y & c' & ah' & ? & Hky & _ & _ & _ & _ & _ & Hah' & _).
      assert (sw_consumed_authorizations t !! PhaseAuthorization_hash a = Some (sc_lease_id c)) as Hused.
      { apply (hi_consumed _ _ _ Hht). rewrite (ek_consumed _ _ (persist_keeps g)). by apply Hgc. }
      destruct ah' as [h'|].
      * pose proof (admission_authorization_ok _ _ _ _ Hah') as (a' & [= <-] & -> & _ & Hcons' & _).
        rewrite (ek_consumed _ _ Hky) in Hcons'. congruence.
      * by apply admission_root_ok in Hah' as [? _].
    + destruct ah as [h|]; [by apply admission_authorization_ok in Hah as (? & ? & _)|].
      apply admission_root_ok in Hah as (_ & p & q & ? & ? & ?). congruence.
Qed.

(** C15: recovery gives back the scheduler that wrote the checkpoint.  When the
    file of a scheduler holds its state and [recover] accepts it, the recovered one
    is a scheduler that runs reach, with the same authority, plan, contracts, keys,
    usage and terminal deliveries, receipts, authorizations and cancellation; every
    lease is as it was, except that live leases that expired meanwhile are timed out
    with a stop request; and its ledger is the one of its leases: the live contracts
    are reserved, every terminal one is settled at the usage its lease records, and
    the tokens and tool calls consumed are their sums. *)
Theorem recover_roundtrip clock s t :
  swarm_reachable s → sw_state_file s = Some (_state s) → recover clock (_state s) = Ok t →
  swarm_reachable t ∧
  (sw_config t = sw_config s ∧ sw_plan t = sw_plan s ∧
   sw_cancelled t = sw_cancelled s ∧ sw_cancel_reason t = sw_cancel_reason s) ∧
  (∀ k, sw_contracts t !! k = sw_contracts s !! k ∧ sw_by_key t !! k = sw_by_key s !! k ∧
     sw_usage_deliveries t !! k = sw_usage_deliveries s !! k ∧
     sw_terminal_usage_deliveries t !! k = sw_terminal_usage_deliveries s !! k ∧
     sw_receipts t !! k = sw_receipts s !! k ∧
     sw_receipt_by_contract t !! k = sw_receipt_by_contract s !! k ∧
     sw_authorizations t !! k = sw_authorizations s !! k ∧
     sw_consumed_authorizations t !! k = sw_consumed_authorizations s !! k) ∧
  (∀ id, match sw_leases s !! id with
         | None => sw_leases t !! id = None
         | Some l => if is_active l && (lease_end l <=? clock 0%nat)
             then ∃ l', sw_leases t !! id = Some l' ∧ wl_state l' = TIMED_OUT ∧ wl_stop_required l' = true
             else sw_leases t !! id = Some l
         end) ∧
  ledger_of_leases t ∧
  bu_tokens (_consumed (sw_ledger t)) = zsum bu_tokens (vals (_settled (sw_ledger t))) ∧
  bu_tool_calls (_consumed (sw_ledger t)) = zsum bu_tool_calls (vals (_settled (sw_ledger t))).
Proof.
  intros Hreach Hf Hr. destruct (reachable_file _ Hreach) as (Hs & Hst & _).
  destruct (recover_spec clock s t Hs Hst Hr) as (Ht & _ & _ & Hrc & Hlg & _ & Hl).
  destruct (consumed_settled _ _ (si_ledger _ Ht)) as [H1 H2]. split_and!; try done; try apply Hrc.
  - destruct Hreach as (s0 & acks & Hs0 & Hrun). exists s0, acks. split; [done|]. by eapply run_restart.
  - intros k. destruct Hrc. by split_and!.
Qed.
End safety.
