(* ===== verification/SwarmGate.v ===== *)
(** * The completion gate ([arena/swarm_verifier.py])

    A swarm is complete when the results and controller receipts of exactly the
    planned workers, in plan order, form one commit-consistent lineage that a
    trusted independent verifier has signed.  [evaluate] collects the reasons
    against that; the decision authorizes when there is none.  The signature check
    is the caller's function, and an exception it raises counts as a refusal. *)
From S2P Require Import Prelude PyDict PyFloat Canonical Models Swarm SwarmDocs.
Local Open Scope Z_scope.

(** ** Attestations *)
Module Verdict.
Inductive t := APPROVED | REJECTED | INCONCLUSIVE.
#[export] Instance eq_dec : EqDecision t.
Proof. solve_decision. Defined.
Definition value (v : t) : string :=
  match v with APPROVED => "approved" | REJECTED => "rejected" | INCONCLUSIVE => "inconclusive" end.
End Verdict.
Export (hints) Verdict.

Inductive EvidenceSource := FROM_VERIFIER | FROM_WORKER.
#[export] Instance EvidenceSource_eq_dec : EqDecision EvidenceSource.
Proof. solve_decision. Defined.
Definition EvidenceSource_value (s : EvidenceSource) : string :=
  match s with FROM_VERIFIER => "verifier" | FROM_WORKER => "worker" end.

Inductive CheckProvenance := PREEXISTING | VERIFIER_AUTHORED | INDEPENDENT_RUNTIME | WORKER_AUTHORED.
#[export] Instance CheckProvenance_eq_dec : EqDecision CheckProvenance.
Proof. solve_decision. Defined.
Definition CheckProvenance_value (p : CheckProvenance) : string :=
  match p with
  | PREEXISTING => "preexisting" | VERIFIER_AUTHORED => "verifier_authored"
  | INDEPENDENT_RUNTIME => "independent_runtime" | WORKER_AUTHORED => "worker_authored"
  end.

Record CriterionEvidence := {
  ce_criterion_id : string; ce_passed : bool; ce_artifact_digest : string; ce_observed_by : string;
  ce_source : EvidenceSource; ce_test_provenance : CheckProvenance }.
Definition validate_CriterionEvidence (e : CriterionEvidence) : result CriterionEvidence :=
  refuse (existsb blank [ce_criterion_id e; ce_artifact_digest e; ce_observed_by e])
    "criterion evidence identity fields must not be blank" ;;
  refuse (negb (is_digest (ce_artifact_digest e))) "criterion artifact must be an immutable sha256 digest" ;;
  mret e.

Record VerifierAttestation := {
  va_identity : SwarmIdentity; va_plan_hash : string; va_phase_lineage_digest : string;
  va_final_commit : string; va_verifier_agent_id : string; va_verdict : Verdict.t;
  va_subject_result_hashes : list string; va_criteria : list CriterionEvidence;
  va_created_at : datetime; va_signature : string }.
Definition validate_VerifierAttestation (a : VerifierAttestation) : result VerifierAttestation :=
  refuse (blank (va_verifier_agent_id a) || blank (va_signature a))
    "verifier identity and signature are required" ;;
  check_each [("plan_hash", va_plan_hash a); ("phase_lineage_digest", va_phase_lineage_digest a)]
    (λ nv, refuse (negb (is_digest nv.2)) (nv.1 +:+ " must be an immutable sha256 digest")) ;;
  refuse (negb (is_commit (va_final_commit a))) "final_commit must be a full Git object ID" ;;
  refuse (negb (all_unique (va_subject_result_hashes a))) "subject result hashes must be unique" ;;
  refuse (existsb (λ h, negb (is_digest h)) (va_subject_result_hashes a))
    "subject result hashes must be immutable sha256 digests" ;;
  refuse (negb (all_unique (ce_criterion_id <$> va_criteria a))) "criterion evidence must be unique" ;;
  mret a.

Record CompletionDecision := {
  cd_authorized : bool; cd_reasons : list string; cd_verifier_attestation_digest : option string }.

(** [if b: reasons.add(msg)] *)
Definition reason (b : bool) (msg : string) : list string := if b then [msg] else [].

Section gate.
Context {PF : Platform}.

Definition dump_CriterionEvidence (e : CriterionEvidence) : json :=
  JObj (field "criterion_id" (JStr (ce_criterion_id e)) ++ field "passed" (JBool (ce_passed e)) ++
    field "artifact_digest" (JStr (ce_artifact_digest e)) ++
    field "observed_by" (JStr (ce_observed_by e)) ++
    field "source" (JStr (EvidenceSource_value (ce_source e))) ++
    field "test_provenance" (JStr (CheckProvenance_value (ce_test_provenance e)))).
Definition attestation_body (a : VerifierAttestation) : list (string * json) :=
  field "schema_version" (JStr "arena.swarm-verifier.v2") ++
  field "identity" (dump_SwarmIdentity (va_identity a)) ++ field "plan_hash" (JStr (va_plan_hash a)) ++
  field "phase_lineage_digest" (JStr (va_phase_lineage_digest a)) ++
  field "final_commit" (JStr (va_final_commit a)) ++
  field "verifier_agent_id" (JStr (va_verifier_agent_id a)) ++
  field "verdict" (JStr (Verdict.value (va_verdict a))) ++
  field "subject_result_hashes" (jstrs (va_subject_result_hashes a)) ++
  field "criteria" (JArr (map dump_CriterionEvidence (va_criteria a))) ++
  field "created_at" (jtime (va_created_at a)).
(** [model_dump(mode="json", exclude={"signature"})] *)
Definition signing_digest (a : VerifierAttestation) : string := canonical_digest (JObj (attestation_body a)).
Definition VerifierAttestation_hash (a : VerifierAttestation) : string :=
  canonical_digest (JObj (attestation_body a ++ field "signature" (JStr (va_signature a)))).

Definition phase_lineage_digest (receipts : list PhaseReceipt) : string :=
  canonical_digest (jstrs (PhaseReceipt_hash <$> receipts)).

(** ** The gate *)
Record SwarmCompletionGate := {
  cg_plan : SwarmPlan; cg_required_criteria : list string; cg_trusted_verifier_ids : list string;
  cg_verify_signature : VerifierAttestation → result bool }.
Definition new_SwarmCompletionGate (plan : SwarmPlan) (required_criteria trusted_verifier_ids : list string)
    (verify_signature : VerifierAttestation → result bool) : result SwarmCompletionGate :=
  let g := {| cg_plan := plan; cg_required_criteria := remove_dups required_criteria;
              cg_trusted_verifier_ids := remove_dups trusted_verifier_ids;
              cg_verify_signature := verify_signature |} in
  err_if (bool_decide (cg_required_criteria g = []) || existsb blank (cg_required_criteria g))
    ValueError "non-empty acceptance criteria are required" ;;
  err_if (bool_decide (cg_trusted_verifier_ids g = []) || existsb blank (cg_trusted_verifier_ids g))
    ValueError "non-empty trusted verifier identities are required" ;;
  mret g.

(** [planned]: phase, role and contract of every planned worker, in plan order. *)
Definition planned (p : SwarmPlan) : list (string * SwarmRole * string) :=
  concat (map (λ ph, map (λ c, (ps_phase_id ph, ps_role ph, c)) (ps_contract_ids ph)) (sp_phases p)).
Definition expected_ids (p : SwarmPlan) : list string := snd <$> planned p.
(** [d[key]] *)
Definition phase_at (d : dict string SwarmPhaseSpec) (id : string) : result SwarmPhaseSpec :=
  match d !! id with Some ph => Ok ph | None => Err (Exn KeyError id) end.

Definition _check_exact_order (label : string) (actual expected : list string) : list string :=
  if bool_decide (actual = expected) then []
  else if (length actual =? length expected)%nat && bool_decide (str_set actual = str_set expected)
  then ["planned_" +:+ label +:+ "_order_mismatch"]
  else ["planned_" +:+ label +:+ "_set_mismatch"].

(** The first loop of [evaluate], over the results as they came. *)
Definition worker_reasons (p : SwarmPlan) (planned_by_contract : dict string (string * SwarmRole))
    (r : SubagentResult) : list string :=
  let id := sr_contract_id r in
  reason (negb (bool_decide (sr_identity r = sp_identity p))) ("worker_identity_mismatch:" +:+ id) ++
  reason (negb (bool_decide (sr_plan_hash r = SwarmPlan_hash p))) ("worker_plan_mismatch:" +:+ id) ++
  reason (match planned_by_contract !! id with
          | Some (phase_id, role) => negb (bool_decide (sr_phase_id r = phase_id))
                                     || negb (bool_decide (sr_role r = role))
          | None => false end) ("worker_phase_mismatch:" +:+ id) ++
  reason (negb (bool_decide (sr_disposition r = Disposition.COMPLETED))) "worker_not_completed" ++
  reason (negb (bool_decide (sr_disposition r = Disposition.COMPLETED))) ("worker_not_completed:" +:+ id) ++
  reason (bool_decide (sr_evidence_refs r = [])) ("worker_evidence_missing:" +:+ id) ++
  reason (bool_decide (sr_role r = SCOUT)
          && negb (bool_decide (sr_scout_assessment r = Some Assessment.ACTIONABLE)))
    ("scout_not_actionable:" +:+ id).

(** [result.observed_commit or receipt.input_commit] *)
Definition expected_output (r : SubagentResult) (q : PhaseReceipt) : string :=
  match sr_observed_commit r with
  | Some o => if is_empty_str o then pr_input_commit q else o
  | None => pr_input_commit q
  end.
Definition _check_receipt_binding (p : SwarmPlan) (r : SubagentResult) (q : PhaseReceipt)
    (phase_id : string) (role : SwarmRole) : list string :=
  let id := sr_contract_id r in
  reason (negb (bool_decide
    ((pr_plan_hash q, pr_identity_hash q, pr_phase_id q, pr_contract_id q, pr_contract_hash q,
      pr_lease_id q, pr_role q, pr_result_hash q, pr_disposition q, pr_scout_assessment q,
      pr_evidence_refs q, pr_result_finished_at q) =
     (SwarmPlan_hash p, SwarmIdentity_hash (sp_identity p), phase_id, sr_contract_id r,
      sr_contract_hash r, sr_lease_id r, role, SubagentResult_hash r, sr_disposition r,
      sr_scout_assessment r, sr_evidence_refs r, sr_finished_at r))))
    ("controller_receipt_mismatch:" +:+ id) ++
  reason (negb (bool_decide (pr_output_commit q = expected_output r q)))
    ("receipt_output_commit_mismatch:" +:+ id).

Definition _check_commit_chain (p : SwarmPlan) (q : PhaseReceipt) (role : SwarmRole)
    (predecessors : list PhaseReceipt) (predecessor_ids : list string) : list string :=
  let id := pr_contract_id q in
  (if bool_decide (predecessor_ids = []) then
     reason (negb (bool_decide (pr_input_commit q = si_base_commit (sp_identity p))))
       ("root_input_commit_mismatch:" +:+ id)
   else match output_commits predecessors with
     | [c] => reason (negb (bool_decide (pr_input_commit q = c))) ("phase_input_commit_mismatch:" +:+ id)
     | _ => ["predecessor_commit_conflict:" +:+ id]
     end) ++
  (if bool_decide (role ∈ [SCOUT; TESTER]) then
     reason (negb (bool_decide (pr_output_commit q = pr_input_commit q)))
       ("read_only_phase_commit_changed:" +:+ id)
   else reason (bool_decide (role = BUILDER) && bool_decide (pr_output_commit q = pr_input_commit q))
          ("builder_stale_commit:" +:+ id)).

(** The second loop of [evaluate], over the planned workers. *)
Definition phase_reasons (p : SwarmPlan) (phase_by_id : dict string SwarmPhaseSpec)
    (results_by_id : dict string SubagentResult) (receipts_by_id : dict string PhaseReceipt)
    (item : string * SwarmRole * string) : result (list string) :=
  let '(phase_id, role, contract_id) := item in
  match results_by_id !! contract_id, receipts_by_id !! contract_id with
  | Some r, Some q =>
      phase ← phase_at phase_by_id phase_id;
      sources ← map_result (phase_at phase_by_id) (ps_predecessor_phase_ids phase);
      let predecessor_ids := concat (ps_contract_ids <$> sources) in
      let predecessor_receipts := omap (λ id, receipts_by_id !! id) predecessor_ids in
      mret (_check_receipt_binding p r q phase_id role ++
        (if negb (length predecessor_receipts =? length predecessor_ids)%nat
         then ["phase_predecessor_missing:" +:+ contract_id]
         else reason (negb (bool_decide (pr_predecessor_receipt_hashes q
                                         = PhaseReceipt_hash <$> predecessor_receipts)))
                ("phase_lineage_mismatch:" +:+ contract_id)) ++
        _check_commit_chain p q role predecessor_receipts predecessor_ids)
  | _, _ => Ok []
  end.

(** Contracts of the phases no other phase builds on. *)
Definition terminal_ids (p : SwarmPlan) : list string :=
  let predecessor_phase_ids := concat (ps_predecessor_phase_ids <$> sp_phases p) in
  concat (ps_contract_ids <$>
    List.filter (λ ph, negb (bool_decide (ps_phase_id ph ∈ predecessor_phase_ids))) (sp_phases p)).
(** [next(iter(commits)) if len(commits) == 1 else None] *)
Definition sole {A} (xs : list A) : option A := match xs with [x] => Some x | _ => None end.

Definition criterion_reasons (a : VerifierAttestation) (evidence_by_id : dict string CriterionEvidence)
    (criterion_id : string) : list string :=
  match evidence_by_id !! criterion_id with
  | None => ["criterion_missing:" +:+ criterion_id]
  | Some e =>
      reason (negb (ce_passed e)) ("criterion_failed:" +:+ criterion_id) ++
      reason (negb (bool_decide (ce_source e = FROM_VERIFIER))
              || negb (bool_decide (ce_observed_by e = va_verifier_agent_id a)))
        ("criterion_not_verifier_observed:" +:+ criterion_id) ++
      reason (bool_decide (ce_test_provenance e = WORKER_AUTHORED))
        ("criterion_worker_authored_test:" +:+ criterion_id)
  end.

(** The check of the signature: an [Exception] of the verifier is an invalid signature;
    what is not one, as an interrupt, leaves [evaluate]. *)
Definition signature_valid (g : SwarmCompletionGate) (a : VerifierAttestation) : result bool :=
  match cg_verify_signature g a with
  | Ok valid => Ok valid
  | Err e => if exn_isa (exn_kind e) Exception_ then Ok false else Err e
  end.
(** The attestation part of [evaluate], given whether the signature is valid. *)
Definition attestation_reasons (g : SwarmCompletionGate) (a : VerifierAttestation)
    (results canonical_results : list SubagentResult) (canonical_receipts : list PhaseReceipt)
    (final_commit : option string) (valid : bool) : list string :=
  let p := cg_plan g in
  reason (negb (bool_decide (va_identity a = sp_identity p))) "verifier_identity_mismatch" ++
  reason (negb (bool_decide (va_plan_hash a = SwarmPlan_hash p))) "verifier_plan_mismatch" ++
  reason (negb (length canonical_receipts =? length (expected_ids p))%nat
          || negb (bool_decide (va_phase_lineage_digest a = phase_lineage_digest canonical_receipts)))
    "verifier_lineage_mismatch" ++
  reason (match final_commit with
          | None => true | Some c => negb (bool_decide (va_final_commit a = c)) end)
    "verifier_final_commit_mismatch" ++
  reason (negb (length canonical_results =? length (expected_ids p))%nat
          || negb (bool_decide (va_subject_result_hashes a = SubagentResult_hash <$> canonical_results)))
    "verifier_subject_mismatch" ++
  reason (negb (bool_decide (va_verifier_agent_id a ∈ cg_trusted_verifier_ids g))) "verifier_untrusted" ++
  reason (bool_decide (va_verifier_agent_id a ∈ sr_agent_id <$> results)) "verifier_not_independent" ++
  reason (negb valid) "verifier_signature_invalid" ++
  reason (negb (bool_decide (va_verdict a = Verdict.APPROVED)))
    ("verifier_" +:+ Verdict.value (va_verdict a)) ++
  concat (map (criterion_reasons a (dict_by ce_criterion_id (va_criteria a)))
            (sorted_str (cg_required_criteria g))).

Definition _decision (reasons : list string) (attestation : option VerifierAttestation) : CompletionDecision := {|
  cd_authorized := bool_decide (reasons = []);
  cd_reasons := sorted_str (remove_dups reasons);
  cd_verifier_attestation_digest :=
    match attestation with
    | Some a => if bool_decide (reasons = []) then Some (VerifierAttestation_hash a) else None
    | None => None
    end |}.

Definition evaluate (g : SwarmCompletionGate) (results : list SubagentResult) (receipts : list PhaseReceipt)
    (attestation : option VerifierAttestation) : result CompletionDecision :=
  let p := cg_plan g in
  let results_by_id := dict_by sr_contract_id results in
  let receipts_by_id := dict_by pr_contract_id receipts in
  let canonical_results := omap (λ id, results_by_id !! id) (expected_ids p) in
  let canonical_receipts := omap (λ id, receipts_by_id !! id) (expected_ids p) in
  let phase_by_id := dict_by ps_phase_id (sp_phases p) in
  let planned_by_contract :=
    foldl (λ d item, <[item.2 := item.1]> d) (∅ : dict string (string * SwarmRole)) (planned p) in
  per_phase ← map_result (phase_reasons p phase_by_id results_by_id receipts_by_id) (planned p);
  let terminal_receipts := omap (λ id, receipts_by_id !! id) (terminal_ids p) in
  let final_commits := output_commits terminal_receipts in
  let reasons :=
    _check_exact_order "result" (sr_contract_id <$> results) (expected_ids p) ++
    _check_exact_order "receipt" (pr_contract_id <$> receipts) (expected_ids p) ++
    concat (map (worker_reasons p planned_by_contract) results) ++ concat per_phase ++
    reason (negb (length terminal_receipts =? length (terminal_ids p))%nat) "terminal_receipt_missing" ++
    reason (negb (length final_commits =? 1)%nat) "terminal_commit_conflict" in
  match attestation with
  | None => mret (_decision (reasons ++ ["verifier_attestation_missing"]) None)
  | Some a =>
      valid ← signature_valid g a;
      mret (_decision (reasons ++ attestation_reasons g a results canonical_results canonical_receipts
                                    (sole final_commits) valid) (Some a))
  end.
End gate.
