(* ===== verification/SwarmGateFacts.v ===== *)
(** * What the completion gate authorizes

    [warranted] states, without the gate's bookkeeping, what a complete lineage is;
    the gate authorizes exactly that, and on a constructible plan the commits of an
    authorized swarm run from the base commit through the builders to the attested
    final commit. *)
From S2P Require Import Prelude PyDict PyFloat Canonical Models Swarm SwarmDocs SwarmFacts SwarmGate.
Local Open Scope Z_scope.

(** ** The abstract specification *)
(** Every planned worker, as its phase and contract. *)
Definition assignments (p : SwarmPlan) : list (SwarmPhaseSpec * string) :=
  concat (map (λ ph, map (pair ph) (ps_contract_ids ph)) (sp_phases p)).
(** No other phase builds on [ph]. *)
Definition terminal_phase (p : SwarmPlan) (ph : SwarmPhaseSpec) : Prop :=
  ∀ ph', ph' ∈ sp_phases p → ps_phase_id ph ∉ ps_predecessor_phase_ids ph'.
(** The contracts [ph] builds on, in the order the phase names them. *)
Definition builds_on (p : SwarmPlan) (ph : SwarmPhaseSpec) (ids : list string) : Prop :=
  ∃ sources, Forall2 (λ id src, src ∈ sp_phases p ∧ ps_phase_id src = id)
               (ps_predecessor_phase_ids ph) sources ∧
    ids = concat (ps_contract_ids <$> sources).

Section spec.
Context {PF : Platform}.

Record worker_ok (p : SwarmPlan) (ph : SwarmPhaseSpec) (r : SubagentResult) : Prop := {
  wo_identity : sr_identity r = sp_identity p;
  wo_plan : sr_plan_hash r = SwarmPlan_hash p;
  wo_phase : sr_phase_id r = ps_phase_id ph;
  wo_role : sr_role r = ps_role ph;
  wo_completed : sr_disposition r = Disposition.COMPLETED;
  wo_evidence : sr_evidence_refs r ≠ [];
  wo_scout : ps_role ph = SCOUT → sr_scout_assessment r = Some Assessment.ACTIONABLE;
}.

(** The receipt certifies this result under this plan. *)
Record receipt_ok (p : SwarmPlan) (ph : SwarmPhaseSpec) (r : SubagentResult) (q : PhaseReceipt) : Prop := {
  ro_plan : pr_plan_hash q = SwarmPlan_hash p;
  ro_identity : pr_identity_hash q = SwarmIdentity_hash (sp_identity p);
  ro_phase : pr_phase_id q = ps_phase_id ph;
  ro_role : pr_role q = ps_role ph;
  ro_contract : pr_contract_id q = sr_contract_id r;
  ro_contract_hash : pr_contract_hash q = sr_contract_hash r;
  ro_lease : pr_lease_id q = sr_lease_id r;
  ro_result : pr_result_hash q = SubagentResult_hash r;
  ro_disposition : pr_disposition q = sr_disposition r;
  ro_assessment : pr_scout_assessment q = sr_scout_assessment r;
  ro_evidence : pr_evidence_refs q = sr_evidence_refs r;
  ro_finished : pr_result_finished_at q = sr_finished_at r;
  ro_output : pr_output_commit q = expected_output r q;
}.

(** The receipt continues the commits of the receipts it builds on. *)
Record commits_ok (p : SwarmPlan) (ph : SwarmPhaseSpec) (q : PhaseReceipt)
    (ids : list string) (preds : list PhaseReceipt) : Prop := {
  co_lineage : pr_predecessor_receipt_hashes q = PhaseReceipt_hash <$> preds;
  co_root : ids = [] → pr_input_commit q = si_base_commit (sp_identity p);
  co_next : ids ≠ [] → ∀ q', q' ∈ preds → pr_output_commit q' = pr_input_commit q;
  co_read_only : ps_role ph = SCOUT ∨ ps_role ph = TESTER → pr_output_commit q = pr_input_commit q;
  co_builder : ps_role ph = BUILDER → pr_output_commit q ≠ pr_input_commit q;
}.

(** One planned worker in a complete lineage. *)
Definition lineage_ok (p : SwarmPlan) (results : list SubagentResult) (receipts : list PhaseReceipt)
    (ph : SwarmPhaseSpec) (c : string) : Prop :=
  ∃ r q ids preds, r ∈ results ∧ sr_contract_id r = c ∧ q ∈ receipts ∧ pr_contract_id q = c ∧
    worker_ok p ph r ∧ receipt_ok p ph r q ∧ builds_on p ph ids ∧
    Forall2 (λ id q', q' ∈ receipts ∧ pr_contract_id q' = id) ids preds ∧ commits_ok p ph q ids preds.

Record criterion_ok (a : VerifierAttestation) (id : string) (e : CriterionEvidence) : Prop := {
  cr_member : e ∈ va_criteria a;
  cr_id : ce_criterion_id e = id;
  cr_passed : ce_passed e = true;
  cr_source : ce_source e = FROM_VERIFIER;
  cr_observer : ce_observed_by e = va_verifier_agent_id a;
  cr_authored : ce_test_provenance e ≠ WORKER_AUTHORED;
}.

Record attestation_ok (g : SwarmCompletionGate) (a : VerifierAttestation)
    (results : list SubagentResult) (receipts : list PhaseReceipt) : Prop := {
  ao_identity : va_identity a = sp_identity (cg_plan g);
  ao_plan : va_plan_hash a = SwarmPlan_hash (cg_plan g);
  ao_lineage : va_phase_lineage_digest a = phase_lineage_digest receipts;
  ao_subjects : va_subject_result_hashes a = SubagentResult_hash <$> results;
  ao_trusted : va_verifier_agent_id a ∈ cg_trusted_verifier_ids g;
  ao_independent : ∀ r, r ∈ results → sr_agent_id r ≠ va_verifier_agent_id a;
  ao_signed : cg_verify_signature g a = Ok true;
  ao_approved : va_verdict a = Verdict.APPROVED;
  ao_criteria : ∀ id, id ∈ cg_required_criteria g → ∃ e, criterion_ok a id e;
}.

Record warranted (g : SwarmCompletionGate) (results : list SubagentResult) (receipts : list PhaseReceipt)
    (a : VerifierAttestation) : Prop := {
  wa_results : sr_contract_id <$> results = snd <$> assignments (cg_plan g);
  wa_receipts : pr_contract_id <$> receipts = snd <$> assignments (cg_plan g);
  wa_lineage : ∀ ph c, (ph, c) ∈ assignments (cg_plan g) → lineage_ok (cg_plan g) results receipts ph c;
  wa_some_terminal : ∃ ph c, (ph, c) ∈ assignments (cg_plan g) ∧ terminal_phase (cg_plan g) ph;
  wa_final : ∀ ph c q, (ph, c) ∈ assignments (cg_plan g) → terminal_phase (cg_plan g) ph →
    q ∈ receipts → pr_contract_id q = c → pr_output_commit q = va_final_commit a;
  wa_attestation : attestation_ok g a results receipts;
}.
End spec.

(** ** Reading reasons *)
Lemma reason_nil b msg : reason b msg = [] ↔ b = false.
Proof. by destruct b. Qed.
Lemma app_nil {A} (xs ys : list A) : xs ++ ys = [] ↔ xs = [] ∧ ys = [].
Proof. destruct xs; naive_solver. Qed.
Lemma concat_map_nil {A B} (f : A → list B) xs : concat (map f xs) = [] ↔ ∀ x, x ∈ xs → f x = [].
Proof.
  induction xs as [|x xs IH]; simpl.
  - split; [intros _ x Hx; by apply elem_of_nil in Hx|done].
  - rewrite app_nil, IH. split.
    + intros [Hx Hxs] y Hy. apply elem_of_cons in Hy as [->|Hy]; auto.
    + intros H. split; [apply H; by left|]. intros y Hy. apply H. by right.
Qed.
Create Rewrite HintDb reasons.
#[local] Hint Rewrite reason_nil @app_nil negb_false_iff andb_false_iff orb_false_iff negb_true_iff
  bool_decide_eq_true bool_decide_eq_false Nat.eqb_eq : reasons.

Lemma check_exact_order_nil label xs ys : _check_exact_order label xs ys = [] ↔ xs = ys.
Proof. unfold _check_exact_order. case_bool_decide; [done|]. case_match; done. Qed.

(** A lookup per key that always succeeds. *)
Lemma omap_total {A B} (f : A → option B) xs :
  length (omap f xs) = length xs ↔ Forall2 (λ x y, f x = Some y) xs (omap f xs).
Proof.
  split; [|intros H; symmetry; by eapply Forall2_length].
  induction xs as [|x xs IH]; [constructor|]. csimpl. destruct (f x) as [y|] eqn:Hf; simpl; intros H.
  - constructor; [done|]. apply IH. lia.
  - exfalso. assert (length (omap f xs) ≤ length xs)%nat; [|lia].
    clear. induction xs as [|x xs IH]; csimpl; [lia|]. destruct (f x); simpl; lia.
Qed.
Lemma omap_dict_by_all {A} (key : A → string) xs :
  NoDup (key <$> xs) → omap (λ id, dict_by key xs !! id) (key <$> xs) = xs.
Proof.
  intros Hnd. assert (∀ ys : list A, (∀ y, y ∈ ys → y ∈ xs) → omap (λ id, dict_by key xs !! id) (key <$> ys) = ys) as H; [|by apply H].
  induction ys as [|y ys IH]; intros Hin; csimpl; [done|].
  rewrite (proj2 (dict_by_lookup key xs (key y) y Hnd)) by (split; [apply Hin; by left|done]).
  f_equal. apply IH. intros z Hz. apply Hin. by right.
Qed.
Lemma output_commits_sole preds c :
  sole (output_commits preds) = Some c ↔ preds ≠ [] ∧ ∀ q, q ∈ preds → pr_output_commit q = c.
Proof.
  split.
  - intros H. destruct (output_commits preds) as [|c' [|]] eqn:Ho; simplify_eq/=. split.
    + intros ->. done.
    + intros q Hq. apply output_commits_elem in Hq. rewrite Ho in Hq. by apply list_elem_of_singleton in Hq.
  - intros [Hne Hall]. destruct preds as [|q preds]; [done|]. clear Hne.
    unfold output_commits.
    assert (pr_output_commit <$> q :: preds = replicate (S (length preds)) c) as ->.
    { csimpl. f_equal; [apply Hall; by left|]. assert (∀ q, q ∈ preds → pr_output_commit q = c) as Hp
        by (intros q' Hq'; apply Hall; by right).
      clear Hall. induction preds as [|q' preds IH]; csimpl; [done|].
      f_equal; [apply Hp; by left|]. apply IH. intros x Hx. apply Hp. by right. }
    generalize (length preds) as n. clear. induction n as [|n IH]; [done|].
    change (remove_dups (replicate (S (S n)) c)) with
      (if decide_rel (∈) c (replicate (S n) c) then remove_dups (replicate (S n) c) else c :: remove_dups (replicate (S n) c)).
    case_decide as Hn; [exact IH|]. destruct Hn. by left.
Qed.

Section facts.
Context {PF : Platform}.

(** ** The planned workers *)
Lemma assignments_planned p :
  planned p = (λ a : SwarmPhaseSpec * string, (ps_phase_id a.1, ps_role a.1, a.2)) <$> assignments p.
Proof.
  unfold planned, assignments. induction (sp_phases p) as [|ph l IH]; simpl; [done|].
  rewrite fmap_app, IH. f_equal. by rewrite <- list_fmap_compose.
Qed.
Lemma expected_ids_assignments p : expected_ids p = snd <$> assignments p.
Proof. unfold expected_ids. rewrite assignments_planned, <- list_fmap_compose. done. Qed.
Lemma assignment_ids p : snd <$> assignments p = concat (ps_contract_ids <$> sp_phases p).
Proof.
  unfold assignments. induction (sp_phases p) as [|ph l IH]; csimpl; [done|].
  rewrite fmap_app, IH. f_equal. rewrite <- list_fmap_compose. apply list_fmap_id.
Qed.
Lemma elem_of_assignments p ph c :
  (ph, c) ∈ assignments p ↔ ph ∈ sp_phases p ∧ c ∈ ps_contract_ids ph.
Proof.
  unfold assignments. rewrite elem_of_concat. split.
  - intros (l & Hc & Hl). apply list_elem_of_fmap in Hl as (ph' & -> & Hph).
    apply list_elem_of_fmap in Hc as (c' & [= -> ->] & Hc). done.
  - intros [Hph Hc]. exists (pair ph <$> ps_contract_ids ph). split.
    + by apply list_elem_of_fmap_2.
    + by apply (list_elem_of_fmap_2 (λ ph, map (pair ph) (ps_contract_ids ph))).
Qed.
Lemma elem_of_terminal_ids p c :
  c ∈ terminal_ids p ↔ ∃ ph, (ph, c) ∈ assignments p ∧ terminal_phase p ph.
Proof.
  unfold terminal_ids. rewrite elem_of_concat. split.
  - intros (l & Hc & Hl). apply list_elem_of_fmap in Hl as (ph & -> & Hph). exists ph.
    apply list_elem_of_In, filter_In in Hph as [Hph%list_elem_of_In Ht].
    rewrite negb_true_iff, bool_decide_eq_false in Ht. split; [by apply elem_of_assignments|].
    intros ph' Hph' Hin. apply Ht, elem_of_concat. exists (ps_predecessor_phase_ids ph'). split; [done|].
    by apply list_elem_of_fmap_2.
  - intros (ph & [Hph Hc]%elem_of_assignments & Ht). exists (ps_contract_ids ph). split; [done|].
    apply list_elem_of_fmap_2. apply list_elem_of_In, filter_In. split; [by apply list_elem_of_In|].
    rewrite negb_true_iff, bool_decide_eq_false, elem_of_concat. intros (l & Hid & Hl).
    apply list_elem_of_fmap in Hl as (ph' & -> & Hph'). by apply (Ht ph' Hph').
Qed.

Section plan.
Context (p : SwarmPlan) (Hplan : validate_SwarmPlan p = Ok p).

Lemma plan_ids_NoDup : NoDup (ps_phase_id <$> sp_phases p).
Proof. apply (plan_checks p Hplan). Qed.
Lemma assignments_NoDup : NoDup (snd <$> assignments p).
Proof. rewrite assignment_ids. apply (plan_checks p Hplan). Qed.
Lemma assignment_unique ph ph' c :
  (ph, c) ∈ assignments p → (ph', c) ∈ assignments p → ph = ph'.
Proof.
  intros H H'. pose proof assignments_NoDup as Hnd.
  apply list_elem_of_lookup in H as [i Hi], H' as [j Hj].
  assert (i = j) as ->; [|congruence].
  apply (NoDup_lookup _ i j c Hnd); rewrite list_lookup_fmap; by rewrite ?Hi, ?Hj.
Qed.
Lemma phase_at_ok ph id :
  phase_at (dict_by ps_phase_id (sp_phases p)) id = Ok ph ↔ ph ∈ sp_phases p ∧ ps_phase_id ph = id.
Proof.
  rewrite <- (dict_by_lookup _ _ _ _ plan_ids_NoDup). unfold phase_at.
  destruct (_ !! id); naive_solver.
Qed.

(** The phases a phase names exist, and are determined by their names. *)
Lemma sources_ok ph : ph ∈ sp_phases p →
  ∃ sources, map_result (phase_at (dict_by ps_phase_id (sp_phases p))) (ps_predecessor_phase_ids ph) = Ok sources ∧
    ∀ ids, builds_on p ph ids ↔ ids = concat (ps_contract_ids <$> sources).
Proof.
  intros [i Hi]%list_elem_of_lookup. destruct (plan_checks p Hplan) as (_ & _ & Hph).
  destruct (validate_phases_ok _ _ _ _ Hph Hi) as (Hpre & _). simpl in Hpre.
  assert (∃ sources, Forall2 (λ id src, src ∈ sp_phases p ∧ ps_phase_id src = id) (ps_predecessor_phase_ids ph) sources)
    as [sources Hs].
  { clear Hi. induction (ps_predecessor_phase_ids ph) as [|d ds IH]; [by exists []|].
    destruct IH as [l Hl]; [intros d' Hd'; apply Hpre; by right|].
    destruct (proj1 (list_elem_of_fmap _ _ _) (Hpre d ltac:(by left))) as (src & -> & Hsrc).
    exists (src :: l). constructor; [|done]. split; [|done]. apply list_elem_of_lookup in Hsrc as [k Hk].
    apply lookup_take_Some in Hk as [Hk _]. by eapply list_elem_of_lookup_2. }
  exists sources. split.
  - apply map_result_ok. eapply Forall2_impl; [exact Hs|]. intros id src H. by apply phase_at_ok.
  - intros ids. split; [|intros ->; by exists sources]. intros (sources' & Hs' & ->). do 2 f_equal.
    clear -Hs Hs' Hplan. revert sources' Hs'. induction Hs as [|id src ids l [Hin Hid] Hs IH]; inversion 1 as [|? src' ? l' [Hin' Hid']]; subst; [done|].
    f_equal; [|by apply IH]. apply list_elem_of_lookup in Hin as [a Ha], Hin' as [b Hb].
    assert (a = b); [|congruence]. apply (NoDup_lookup _ a b (ps_phase_id src) plan_ids_NoDup); rewrite list_lookup_fmap.
    + by rewrite Ha. + rewrite Hb. simpl. by f_equal.
Qed.

(** ** The checks of one worker *)
Lemma worker_reasons_nil ph c r :
  (ph, c) ∈ assignments p → sr_contract_id r = c →
  worker_reasons p (foldl (λ d item, <[item.2 := item.1]> d) ∅ (planned p)) r = [] ↔ worker_ok p ph r.
Proof.
  intros Ha Hc. unfold worker_reasons.
  assert (foldl (λ d item, <[item.2 := item.1]> d) (∅ : dict string (string * SwarmRole)) (planned p)
            !! sr_contract_id r = Some (ps_phase_id ph, ps_role ph)) as ->.
  { rewrite Hc. apply (foldl_insert_map_lookup snd fst (planned p) ∅ (ps_phase_id ph, ps_role ph, c)).
    - fold (expected_ids p). rewrite expected_ids_assignments. apply assignments_NoDup.
    - rewrite assignments_planned. apply list_elem_of_fmap. by exists (ph, c). }
  autorewrite with reasons. split.
  - intros (Hi & Hp & [Hph Hr] & Hd & _ & He & Hs). split; try done. intros Hsc.
    destruct Hs as [Hs|Hs]; [congruence|done].
  - intros [? ? ? Hro ? ? Hs]. split_and!; try done.
    destruct (decide (sr_role r = SCOUT)); [right|by left]. apply Hs. congruence.
Qed.

Lemma receipt_binding_nil ph r q :
  _check_receipt_binding p r q (ps_phase_id ph) (ps_role ph) = [] ↔ receipt_ok p ph r q.
Proof.
  unfold _check_receipt_binding. autorewrite with reasons. split.
  - intros [H Ho]. simplify_eq. split; congruence.
  - intros []. split; [|done]. congruence.
Qed.

Lemma commit_chain_nil ph q ids preds :
  (ids = [] ↔ preds = []) →
  _check_commit_chain p q (ps_role ph) preds ids = [] ↔
  (ids = [] → pr_input_commit q = si_base_commit (sp_identity p)) ∧
  (ids ≠ [] → ∀ q', q' ∈ preds → pr_output_commit q' = pr_input_commit q) ∧
  (ps_role ph = SCOUT ∨ ps_role ph = TESTER → pr_output_commit q = pr_input_commit q) ∧
  (ps_role ph = BUILDER → pr_output_commit q ≠ pr_input_commit q).
Proof.
  intros Hids. unfold _check_commit_chain. rewrite app_nil.
  assert ((if bool_decide (ids = []) then
      reason (negb (bool_decide (pr_input_commit q = si_base_commit (sp_identity p))))
        ("root_input_commit_mismatch:" +:+ pr_contract_id q)
    else match output_commits preds with
      | [c] => reason (negb (bool_decide (pr_input_commit q = c))) ("phase_input_commit_mismatch:" +:+ pr_contract_id q)
      | _ => ["predecessor_commit_conflict:" +:+ pr_contract_id q] end) = [] ↔
    (ids = [] → pr_input_commit q = si_base_commit (sp_identity p)) ∧
    (ids ≠ [] → sole (output_commits preds) = Some (pr_input_commit q))) as ->.
  { case_bool_decide as Hi; [autorewrite with reasons; naive_solver|].
    destruct (output_commits preds) as [|c [|c' l]]; simpl; autorewrite with reasons; naive_solver. }
  rewrite output_commits_sole.
  assert ((if bool_decide (ps_role ph ∈ [SCOUT; TESTER])
     then reason (negb (bool_decide (pr_output_commit q = pr_input_commit q))) ("read_only_phase_commit_changed:" +:+ pr_contract_id q)
     else reason (bool_decide (ps_role ph = BUILDER) && bool_decide (pr_output_commit q = pr_input_commit q))
            ("builder_stale_commit:" +:+ pr_contract_id q)) = [] ↔
    (ps_role ph = SCOUT ∨ ps_role ph = TESTER → pr_output_commit q = pr_input_commit q) ∧
    (ps_role ph = BUILDER → pr_output_commit q ≠ pr_input_commit q)) as ->; [|naive_solver].
  destruct (ps_role ph) eqn:Hr; simpl; autorewrite with reasons; naive_solver.
Qed.
End plan.

Section ordered.
Context (p : SwarmPlan) (Hplan : validate_SwarmPlan p = Ok p)
  (results : list SubagentResult) (receipts : list PhaseReceipt)
  (Hresults : sr_contract_id <$> results = snd <$> assignments p)
  (Hreceipts : pr_contract_id <$> receipts = snd <$> assignments p).

Lemma result_at r c : dict_by sr_contract_id results !! c = Some r ↔ r ∈ results ∧ sr_contract_id r = c.
Proof. apply dict_by_lookup. rewrite Hresults. by apply assignments_NoDup. Qed.
Lemma receipt_at q c : dict_by pr_contract_id receipts !! c = Some q ↔ q ∈ receipts ∧ pr_contract_id q = c.
Proof. apply dict_by_lookup. rewrite Hreceipts. by apply assignments_NoDup. Qed.
Lemma assigned_result ph c : (ph, c) ∈ assignments p → ∃ r, r ∈ results ∧ sr_contract_id r = c.
Proof.
  intros H%(list_elem_of_fmap_2 snd). rewrite <- Hresults in H.
  apply list_elem_of_fmap in H as (r & ? & ?). by exists r.
Qed.
Lemma assigned_receipt ph c : (ph, c) ∈ assignments p → ∃ q, q ∈ receipts ∧ pr_contract_id q = c.
Proof.
  intros H%(list_elem_of_fmap_2 snd). rewrite <- Hreceipts in H.
  apply list_elem_of_fmap in H as (q & ? & ?). by exists q.
Qed.
Lemma result_assigned r : r ∈ results → ∃ ph, (ph, sr_contract_id r) ∈ assignments p.
Proof.
  intros H%(list_elem_of_fmap_2 sr_contract_id). rewrite Hresults in H.
  apply list_elem_of_fmap in H as ([ph c] & -> & ?). by exists ph.
Qed.

(** Every planned contract has its receipt, so the lookups by key all succeed. *)
Lemma receipts_of ids : (∀ id, id ∈ ids → ∃ ph, (ph, id) ∈ assignments p) →
  Forall2 (λ id q, q ∈ receipts ∧ pr_contract_id q = id) ids (omap (λ id, dict_by pr_contract_id receipts !! id) ids).
Proof.
  induction ids as [|id ids IH]; intros H; [constructor|]. csimpl.
  destruct (H id ltac:(by left)) as (ph & Hph). destruct (assigned_receipt _ _ Hph) as (q & Hq).
  rewrite (proj2 (receipt_at q id) Hq). constructor; [done|]. apply IH. intros id' Hid'. apply H. by right.
Qed.
Lemma receipts_of_unique ids preds :
  Forall2 (λ id q, q ∈ receipts ∧ pr_contract_id q = id) ids preds →
  preds = omap (λ id, dict_by pr_contract_id receipts !! id) ids.
Proof.
  induction 1 as [|id q ids preds Hq _ IH]; [done|]. csimpl.
  by rewrite (proj2 (receipt_at q id) Hq), <- IH.
Qed.

Lemma phase_reasons_nil ph c :
  (ph, c) ∈ assignments p →
  ∃ rs, phase_reasons p (dict_by ps_phase_id (sp_phases p)) (dict_by sr_contract_id results)
          (dict_by pr_contract_id receipts) (ps_phase_id ph, ps_role ph, c) = Ok rs ∧
    ((∀ r, r ∈ results → sr_contract_id r = c → worker_ok p ph r) → rs = [] ↔ lineage_ok p results receipts ph c).
Proof.
  intros Ha. destruct (assigned_result _ _ Ha) as (r & Hr & Hrc), (assigned_receipt _ _ Ha) as (q & Hq & Hqc).
  pose proof (proj1 (elem_of_assignments _ _ _) Ha) as [Hph _].
  destruct (sources_ok p Hplan ph Hph) as (sources & Hs & Hbuilds). unfold phase_reasons.
  rewrite (proj2 (result_at r c)), (proj2 (receipt_at q c)) by done.
  rewrite (proj2 (phase_at_ok p Hplan ph (ps_phase_id ph))) by done. cbn [mbind result_bind]. rewrite Hs.
  cbn [mbind result_bind mret result_ret]. set (ids := concat (ps_contract_ids <$> sources)) in *.
  eexists. split; [reflexivity|]. intros Hw.
  assert (∀ id, id ∈ ids → ∃ ph', (ph', id) ∈ assignments p) as Hin.
  { intros id (l & Hid & Hl)%elem_of_concat. apply list_elem_of_fmap in Hl as (src & -> & Hsrc). exists src.
    apply elem_of_assignments. split; [|done]. apply (map_result_elem _ _ _ _ Hs) in Hsrc as (d & _ & Hd).
    by apply phase_at_ok in Hd as [? _]. }
  pose proof (receipts_of ids Hin) as Hp. set (preds := omap _ ids) in *.
  pose proof (Forall2_length _ _ _ Hp) as Hlen. rewrite <- Hlen, Nat.eqb_refl. cbn [negb].
  rewrite !app_nil, receipt_binding_nil, reason_nil, negb_false_iff, bool_decide_eq_true, commit_chain_nil
    by (destruct ids, preds; done).
  split.
  - intros (Hb & Hl & Hroot & Hnext & Hro & Hbu). exists r, q, ids, preds.
    split_and!; try done; [by apply Hw|by apply Hbuilds].
  - intros (r' & q' & ids' & preds' & Hr' & Hrc' & Hq' & Hqc' & _ & Hb & ->%Hbuilds & Hp' & []).
    apply receipts_of_unique in Hp'. fold ids preds in Hp'. subst preds'.
    assert (r' = r) as -> by (apply (inj Some); by rewrite <- (proj2 (result_at r c)), <- (proj2 (result_at r' c))).
    assert (q' = q) as -> by (apply (inj Some); by rewrite <- (proj2 (receipt_at q c)), <- (proj2 (receipt_at q' c))).
    done.
Qed.

Lemma per_phase_nil rss :
  map_result (phase_reasons p (dict_by ps_phase_id (sp_phases p)) (dict_by sr_contract_id results)
                (dict_by pr_contract_id receipts)) (planned p) = Ok rss →
  (∀ ph c r, (ph, c) ∈ assignments p → r ∈ results → sr_contract_id r = c → worker_ok p ph r) →
  concat rss = [] ↔ ∀ ph c, (ph, c) ∈ assignments p → lineage_ok p results receipts ph c.
Proof.
  intros Hok Hw. rewrite <- (list_fmap_id rss). rewrite (concat_map_nil id). unfold id. split.
  - intros Hall ph c Ha. destruct (phase_reasons_nil ph c Ha) as (rs & Hrs & Hiff). apply Hiff; [by eauto|].
    apply Hall. apply (map_result_elem _ _ _ _ Hok). exists (ps_phase_id ph, ps_role ph, c). split; [|done].
    rewrite assignments_planned. apply list_elem_of_fmap. by exists (ph, c).
  - intros Hall rs Hrs. apply (map_result_elem _ _ _ _ Hok) in Hrs as (item & Hi & Hrs).
    rewrite assignments_planned in Hi. apply list_elem_of_fmap in Hi as ([ph c] & -> & Ha).
    destruct (phase_reasons_nil ph c Ha) as (rs' & Hrs' & Hiff). cbn [fst snd] in Hrs. assert (rs = rs') as -> by congruence.
    apply Hiff; [by eauto|]. by apply Hall.
Qed.

Lemma workers_nil :
  (∀ r, r ∈ results → worker_reasons p (foldl (λ d item, <[item.2 := item.1]> d) ∅ (planned p)) r = []) ↔
  ∀ ph c r, (ph, c) ∈ assignments p → r ∈ results → sr_contract_id r = c → worker_ok p ph r.
Proof.
  split.
  - intros Hall ph c r Ha Hr Hc. eapply worker_reasons_nil; eauto.
  - intros Hall r Hr. destruct (result_assigned r Hr) as (ph & Hph). eapply worker_reasons_nil; eauto.
Qed.

Lemma terminal_nil c :
  length (omap (λ id, dict_by pr_contract_id receipts !! id) (terminal_ids p)) = length (terminal_ids p) ∧
  (sole (output_commits (omap (λ id, dict_by pr_contract_id receipts !! id) (terminal_ids p))) = Some c ↔
   (∃ ph c, (ph, c) ∈ assignments p ∧ terminal_phase p ph) ∧
   ∀ ph c' q, (ph, c') ∈ assignments p → terminal_phase p ph → q ∈ receipts → pr_contract_id q = c' →
     pr_output_commit q = c).
Proof.
  assert (∀ id, id ∈ terminal_ids p → ∃ ph, (ph, id) ∈ assignments p) as Hin.
  { intros id (ph & ? & _)%elem_of_terminal_ids. by exists ph. }
  pose proof (receipts_of _ Hin) as Hf. split; [symmetry; by eapply Forall2_length|].
  rewrite output_commits_sole. split.
  - intros [Hne Hall]. split.
    + destruct (terminal_ids p) as [|id ids] eqn:Ht; [done|].
      destruct (proj1 (elem_of_terminal_ids p id)) as (ph & ? & ?); [rewrite Ht; by left|]. by exists ph, id.
    + intros ph c' q Ha Ht Hq Hqc. apply Hall, list_elem_of_omap. exists c'. split; [|by apply receipt_at].
      apply elem_of_terminal_ids. by exists ph.
  - intros [(ph & c' & Ha & Ht) Hall]. split.
    + intros Hnil. destruct (assigned_receipt _ _ Ha) as (q & Hq). apply receipt_at in Hq.
      assert (q ∈ omap (λ id, dict_by pr_contract_id receipts !! id) (terminal_ids p)) as H; [|rewrite Hnil in H; by apply elem_of_nil in H].
      apply list_elem_of_omap. exists c'. split; [|done]. apply elem_of_terminal_ids. by exists ph.
    + intros q (id & Hid & Hq)%list_elem_of_omap. apply elem_of_terminal_ids in Hid as (ph' & Ha' & Ht').
      apply receipt_at in Hq as [Hq Hid]. by eapply Hall.
Qed.

Lemma canonical_results : omap (λ id, dict_by sr_contract_id results !! id) (expected_ids p) = results.
Proof.
  rewrite expected_ids_assignments, <- Hresults. apply omap_dict_by_all. rewrite Hresults. by apply assignments_NoDup.
Qed.
Lemma canonical_receipts : omap (λ id, dict_by pr_contract_id receipts !! id) (expected_ids p) = receipts.
Proof.
  rewrite expected_ids_assignments, <- Hreceipts. apply omap_dict_by_all. rewrite Hreceipts. by apply assignments_NoDup.
Qed.
End ordered.

(** ** The attestation *)
Lemma attestation_criteria a : validate_VerifierAttestation a = Ok a → NoDup (ce_criterion_id <$> va_criteria a).
Proof. unfold validate_VerifierAttestation. intros H. do 5 check H. check H as Hc. by apply refuse_ok, negb_false_iff, all_unique_NoDup in Hc. Qed.

Lemma criterion_reasons_nil a id : validate_VerifierAttestation a = Ok a →
  criterion_reasons a (dict_by ce_criterion_id (va_criteria a)) id = [] ↔ ∃ e, criterion_ok a id e.
Proof.
  intros Hnd%attestation_criteria. unfold criterion_reasons.
  split.
  - destruct (_ !! id) as [e|] eqn:He; [|done]. apply (dict_by_lookup _ _ _ _ Hnd) in He as [Hin Hid]. autorewrite with reasons.
    intros (Hpass & [Hsrc Hob] & Hau). by exists e.
  - intros (e & [Hin Hid Hp Hs Ho Ha]). rewrite (proj2 (dict_by_lookup _ _ id e Hnd)) by done. autorewrite with reasons. done.
Qed.

Lemma signature_valid_true g a : signature_valid g a = Ok true ↔ cg_verify_signature g a = Ok true.
Proof. unfold signature_valid. destruct (cg_verify_signature g a) as [v|e]; [done|]. by destruct (exn_isa _ _). Qed.
Lemma signature_valid_err g a e : signature_valid g a = Err e ↔ cg_verify_signature g a = Err e ∧ exn_isa (exn_kind e) Exception_ = false.
Proof.
  unfold signature_valid. destruct (cg_verify_signature g a) as [v|e']; [naive_solver|].
  destruct (exn_isa (exn_kind e') Exception_) eqn:He; naive_solver congruence.
Qed.
Lemma attestation_reasons_nil g a results receipts final valid :
  signature_valid g a = Ok valid → validate_VerifierAttestation a = Ok a →
  length receipts = length (expected_ids (cg_plan g)) → length results = length (expected_ids (cg_plan g)) →
  attestation_reasons g a results results receipts final valid = [] ↔
  attestation_ok g a results receipts ∧ final = Some (va_final_commit a).
Proof.
  intros Hv Ha Hlq Hlr. unfold attestation_reasons. rewrite Hlq, Hlr, Nat.eqb_refl. cbn [negb orb].
  rewrite !app_nil, concat_map_nil, !reason_nil, !negb_false_iff, !bool_decide_eq_true, bool_decide_eq_false.
  assert ((match final with None => true | Some c => negb (bool_decide (va_final_commit a = c)) end) = false ↔
    final = Some (va_final_commit a)) as ->.
  { destruct final; autorewrite with reasons; naive_solver. }
  assert (valid = true ↔ cg_verify_signature g a = Ok true) as ->.
  { rewrite <- signature_valid_true, Hv. split; [by intros ->|by intros [= ->]]. }
  assert ((∀ x, x ∈ sorted_str (cg_required_criteria g) →
      criterion_reasons a (dict_by ce_criterion_id (va_criteria a)) x = []) ↔
    ∀ id, id ∈ cg_required_criteria g → ∃ e, criterion_ok a id e) as ->.
  { setoid_rewrite elem_of_sorted_str. split; intros H id Hid; specialize (H id Hid); by apply criterion_reasons_nil. }
  assert ((va_verifier_agent_id a ∉ sr_agent_id <$> results) ↔
    ∀ r, r ∈ results → sr_agent_id r ≠ va_verifier_agent_id a) as ->.
  { rewrite list_elem_of_fmap. split; [intros H r Hr He; apply H; by exists r|intros H (r & He & Hr); by apply (H r)]. }
  split; [intros (?&?&?&?&?&?&?&?&?&?); done|intros [[] ?]; done].
Qed.

(** ** The decision *)
Lemma map_result_total {A B} (f : A → result B) xs :
  (∀ x, x ∈ xs → ∃ y, f x = Ok y) → ∃ ys, map_result f xs = Ok ys.
Proof.
  induction xs as [|x xs IH]; intros H; [by exists []|].
  destruct (H x ltac:(by left)) as [y Hy], IH as [ys Hys]; [intros z Hz; apply H; by right|].
  exists (y :: ys). cbn [map_result]. by rewrite Hy, Hys.
Qed.
Lemma phase_reasons_total p results_by_id receipts_by_id : validate_SwarmPlan p = Ok p →
  ∃ rss, map_result (phase_reasons p (dict_by ps_phase_id (sp_phases p)) results_by_id receipts_by_id)
           (planned p) = Ok rss.
Proof.
  intros Hplan. apply map_result_total. intros item Hi. rewrite assignments_planned in Hi.
  apply list_elem_of_fmap in Hi as ([ph c] & -> & Ha). cbn [fst snd]. unfold phase_reasons.
  destruct (results_by_id !! c); [|by eexists]. destruct (receipts_by_id !! c); [|by eexists].
  apply elem_of_assignments in Ha as [Hph _]. destruct (sources_ok p Hplan ph Hph) as (sources & Hs & _).
  rewrite (proj2 (phase_at_ok p Hplan ph (ps_phase_id ph))) by done. cbn [mbind result_bind]. rewrite Hs. by eexists.
Qed.

Lemma decision_authorized reasons att : cd_authorized (_decision reasons att) = true ↔ reasons = [].
Proof. apply bool_decide_eq_true. Qed.
Lemma decision_reasons reasons att : cd_reasons (_decision reasons att) = [] ↔ reasons = [].
Proof.
  simpl. split; [|by intros ->]. intros H. destruct reasons as [|r rs]; [done|].
  assert (r ∈ sorted_str (remove_dups (r :: rs))) as Hr by (apply elem_of_sorted_str, elem_of_remove_dups; by left).
  rewrite H in Hr. by apply elem_of_nil in Hr.
Qed.

(** The reasons of [evaluate] on a signed lineage are empty exactly when it is warranted. *)
Lemma evaluate_signed g results receipts a :
  validate_SwarmPlan (cg_plan g) = Ok (cg_plan g) → validate_VerifierAttestation a = Ok a →
  match signature_valid g a with
  | Ok _ => ∃ reasons, evaluate g results receipts (Some a) = Ok (_decision reasons (Some a)) ∧
      (reasons = [] ↔ warranted g results receipts a)
  | Err e => evaluate g results receipts (Some a) = Err e
  end.
Proof.
  intros Hplan Ha. destruct (phase_reasons_total (cg_plan g) (dict_by sr_contract_id results)
    (dict_by pr_contract_id receipts) Hplan) as [rss Hrss].
  unfold evaluate. rewrite Hrss. cbn [mbind result_bind mret result_ret].
  destruct (signature_valid g a) as [valid|e] eqn:Hv; [|done]. eexists. split; [reflexivity|].
  rewrite !app_nil, !check_exact_order_nil, concat_map_nil, expected_ids_assignments.
  assert (∀ P Q R : Prop, (P → Q ↔ R) → (P ∧ Q ↔ P ∧ R)) as Hand by naive_solver.
  trans (sr_contract_id <$> results = snd <$> assignments (cg_plan g) ∧
    pr_contract_id <$> receipts = snd <$> assignments (cg_plan g) ∧ warranted g results receipts a);
    [|split; [by intros (_ & _ & ?)|intros H; pose proof H as []; done]].
  rewrite <- !(assoc and). apply Hand. intros Hr. apply Hand. intros Hq.
  rewrite <- expected_ids_assignments at 1 2.
  rewrite (canonical_results _ Hplan _ Hr), (canonical_receipts _ Hplan _ Hq).
  pose proof (terminal_nil _ Hplan _ Hq (va_final_commit a)) as [Hlen Hterm].
  rewrite Hlen, Nat.eqb_refl, !reason_nil, (workers_nil _ Hplan _ Hr), attestation_reasons_nil;
    [|done|done|rewrite expected_ids_assignments, <- (length_fmap pr_contract_id), Hq; done
     |rewrite expected_ids_assignments, <- (length_fmap sr_contract_id), Hr; done].
  rewrite Hterm, negb_false_iff. split.
  - intros (Hw & Hl & _ & _ & Hatt & Hsome & Hfin). split; try done.
    by apply (per_phase_nil _ Hplan _ _ Hr Hq rss).
  - intros [_ _ Hl Hsome Hfin Hatt].
    assert (∀ ph c r, (ph, c) ∈ assignments (cg_plan g) → r ∈ results → sr_contract_id r = c →
      worker_ok (cg_plan g) ph r) as Hw.
    { intros ph c r Hac Hrin Hrc. destruct (Hl ph c Hac) as (r' & q' & _ & _ & Hr' & Hrc' & _ & _ & Hwo & _).
      assert (r = r') as ->; [|done]. apply (inj Some).
      by rewrite <- (proj2 (result_at _ Hplan _ Hr r c)), <- (proj2 (result_at _ Hplan _ Hr r' c)). }
    split_and!; try done.
    + by apply (per_phase_nil _ Hplan _ _ Hr Hq rss).
    + pose proof (proj2 Hterm (conj Hsome Hfin)) as Hs. by destruct (output_commits _) as [|? [|]].
Qed.

(** C16: On a constructible plan and attestation the gate decides, unless the check of the
    signature raises what is not an [Exception], which it lets through; and it
    authorizes completion exactly when there is an attestation and the lineage is
    [warranted]: results and receipts are those of the planned workers in plan order,
    every worker completed with evidence, every receipt certifies its result and
    continues the commits it builds on, all terminal workers end at the attested
    commit, and a trusted verifier that is none of the workers approved and signed
    exactly these results and receipts with its own evidence for every required
    criterion.  A decision is authorized exactly when it lists no reason, and only
    then carries the attestation's digest. *)
Theorem gate_authorizes_exactly g results receipts att :
  validate_SwarmPlan (cg_plan g) = Ok (cg_plan g) →
  (∀ a, att = Some a → validate_VerifierAttestation a = Ok a) →
  match evaluate g results receipts att with
  | Ok d => (cd_authorized d = true ↔ ∃ a, att = Some a ∧ warranted g results receipts a) ∧
      (cd_authorized d = true ↔ cd_reasons d = []) ∧
      cd_verifier_attestation_digest d = (if cd_authorized d then VerifierAttestation_hash <$> att else None)
  | Err e => ∃ a, att = Some a ∧ cg_verify_signature g a = Err e ∧ exn_isa (exn_kind e) Exception_ = false
  end.
Proof.
  intros Hplan Hatt. destruct att as [a|].
  - pose proof (evaluate_signed g results receipts a Hplan (Hatt a eq_refl)) as He. destruct (signature_valid g a) as [v|e] eqn:Hv.
    + destruct He as (reasons & -> & Hiff). rewrite decision_authorized, decision_reasons, Hiff. split_and!; try done.
      split; [by exists a|]. by intros (a' & [= <-] & ?).
    + rewrite He. exists a. split; [done|]. by apply signature_valid_err.
  - destruct (phase_reasons_total (cg_plan g) (dict_by sr_contract_id results)
      (dict_by pr_contract_id receipts) Hplan) as [rss Hrss].
    unfold evaluate. rewrite Hrss. cbn [mbind result_bind mret result_ret].
    rewrite decision_authorized, decision_reasons, app_nil. split_and!; [naive_solver|done|].
    simpl. by case_bool_decide.
Qed.

(** ** The commits of an authorized swarm *)
Lemma Forall2_r {A B} (R : A → B → Prop) xs ys y : Forall2 R xs ys → y ∈ ys → ∃ x, x ∈ xs ∧ R x y.
Proof.
  induction 1 as [|x z xs ys Hxz _ IH]; intros Hy; [by apply elem_of_nil in Hy|].
  apply elem_of_cons in Hy as [->|Hy]; [exists x; split; [by left|done]|].
  destruct (IH Hy) as (x' & ? & ?). exists x'. split; [by right|done].
Qed.

(** The role of a phase bounds the roles of the phases it builds on. *)
Lemma source_role p ph src : validate_SwarmPlan p = Ok p → ph ∈ sp_phases p → src ∈ sp_phases p →
  ps_phase_id src ∈ ps_predecessor_phase_ids ph →
  (ps_role ph = BUILDER → ps_role src = SCOUT) ∧ (ps_role ph = TESTER → ps_role src = BUILDER).
Proof.
  intros Hplan [i Hi]%list_elem_of_lookup Hsrc Hid. pose proof (plan_checks p Hplan) as (Hids & _ & Hph).
  destruct (validate_phases_ok _ _ _ _ Hph Hi) as (Hpre & Hb & Ht). simpl in Hpre, Hb, Ht.
  assert (ps_role src ∈ predecessor_roles (take i (sp_phases p)) ph) as Hrole.
  { apply list_elem_of_omap. exists (ps_phase_id src). split; [done|].
    destruct (find_first _ _) as [r|] eqn:Hf.
    - apply find_first_Some in Hf as [Hr Hk]. apply bool_decide_eq_true in Hk. simpl. do 2 f_equal.
      apply list_elem_of_lookup in Hr as [j Hj]. apply lookup_take_Some in Hj as [Hj _].
      apply list_elem_of_lookup in Hsrc as [k Hk'].
      assert (j = k); [|congruence]. apply (NoDup_lookup _ j k (ps_phase_id src) Hids); rewrite list_lookup_fmap.
      + rewrite Hj. simpl. by f_equal. + by rewrite Hk'.
    - rewrite find_first_None in Hf. destruct (proj1 (list_elem_of_fmap _ _ _) (Hpre _ Hid)) as (r & Hr & Hin).
      specialize (Hf r Hin). simpl in Hf. apply bool_decide_eq_false in Hf. congruence. }
  split; intros Hr; [by apply Hb|by apply Ht].
Qed.

Lemma phase_checks ph : validate_SwarmPhaseSpec ph = Ok ph →
  ps_contract_ids ph ≠ [] ∧ (ps_role ph = SCOUT ∨ ps_role ph = BUILDER ∨ ps_role ph = TESTER) ∧
  (ps_role ph = SCOUT → ps_predecessor_phase_ids ph = []).
Proof.
  unfold validate_SwarmPhaseSpec. intros H. check H. check H as Hr. do 2 check H. check H as Hc. check H. check H as Hs.
  apply refuse_ok in Hr, Hc, Hs. apply bool_decide_eq_false in Hr, Hc.
  rewrite andb_false_iff, negb_false_iff, bool_decide_eq_false, bool_decide_eq_true in Hs.
  split_and!; [done| |naive_solver]. destruct (ps_role ph); set_solver.
Qed.

Section flow.
Context (g : SwarmCompletionGate) (results : list SubagentResult) (receipts : list PhaseReceipt)
  (a : VerifierAttestation).
Let p := cg_plan g.
Context (Hplan : validate_SwarmPlan p = Ok p)
  (Hphases : ∀ ph, ph ∈ sp_phases p → validate_SwarmPhaseSpec ph = Ok ph)
  (Hw : warranted g results receipts a).

Lemma lineage_at ph c q : (ph, c) ∈ assignments p → q ∈ receipts → pr_contract_id q = c →
  ∃ r ids preds, r ∈ results ∧ sr_contract_id r = c ∧ worker_ok p ph r ∧ receipt_ok p ph r q ∧ builds_on p ph ids ∧
    Forall2 (λ id q', q' ∈ receipts ∧ pr_contract_id q' = id) ids preds ∧ commits_ok p ph q ids preds.
Proof.
  intros Ha Hq Hc. destruct (wa_lineage _ _ _ _ Hw ph c Ha)
    as (r & q' & ids & preds & Hr & Hrc & Hq' & Hqc & H).
  assert (q' = q) as ->; [|by exists r, ids, preds].
  apply (inj Some). rewrite <- (proj2 (receipt_at _ Hplan _ (wa_receipts _ _ _ _ Hw) q' c)),
    <- (proj2 (receipt_at _ Hplan _ (wa_receipts _ _ _ _ Hw) q c)); done.
Qed.
Lemma receipt_for ph c : (ph, c) ∈ assignments p → ∃ q, q ∈ receipts ∧ pr_contract_id q = c.
Proof. intros Ha. exact (assigned_receipt p _ (wa_receipts _ _ _ _ Hw) ph c Ha). Qed.

(** Input commits come from a named phase, or from the base commit. *)
Lemma input_source ph c q : (ph, c) ∈ assignments p → q ∈ receipts → pr_contract_id q = c →
  pr_input_commit q = si_base_commit (sp_identity p) ∨
  ∃ src c' q', (src, c') ∈ assignments p ∧ ps_phase_id src ∈ ps_predecessor_phase_ids ph ∧
    q' ∈ receipts ∧ pr_contract_id q' = c' ∧ pr_output_commit q' = pr_input_commit q.
Proof.
  intros Ha Hq Hc. destruct (lineage_at ph c q Ha Hq Hc) as (r & ids & preds & _ & _ & _ & _ & Hb & Hf & Hco).
  destruct (decide (ids = [])) as [Hi|Hi]; [left; by apply (co_root _ _ _ _ _ Hco)|right].
  destruct Hf as [|id q' ids preds [Hq' Hid] _]; [done|].
  destruct Hb as (sources & Hs & Hids). assert (id ∈ concat (ps_contract_ids <$> sources)) as Hin
    by (rewrite <- Hids; by left).
  apply elem_of_concat in Hin as (l & Hin & Hl). apply list_elem_of_fmap in Hl as (src & -> & Hsrc).
  destruct (Forall2_r _ _ _ _ Hs Hsrc) as (d & Hd & Hsp & Hsd).
  exists src, id, q'. split_and!; try done; [by apply elem_of_assignments|by subst d|].
  apply (co_next _ _ _ _ _ Hco); [done|by left].
Qed.
(** ... and every receipt of a named phase hands its output on. *)
Lemma input_from ph c q src c' q' : (ph, c) ∈ assignments p → q ∈ receipts → pr_contract_id q = c →
  (src, c') ∈ assignments p → ps_phase_id src ∈ ps_predecessor_phase_ids ph →
  q' ∈ receipts → pr_contract_id q' = c' → pr_output_commit q' = pr_input_commit q.
Proof.
  intros Ha Hq Hc Hsrc Hid Hq' Hc'. pose proof (proj1 (elem_of_assignments _ _ _) Hsrc) as [Hsp Hcs].
  destruct (lineage_at ph c q Ha Hq Hc) as (r & ids & preds & _ & _ & _ & _ & (sources & Hs & ->) & Hf & Hco).
  assert (src ∈ sources) as Hin.
  { clear -Hs Hid Hsp Hplan. induction Hs as [|d s ds l [Hs Hd] _ IH]; [by apply elem_of_nil in Hid|].
    apply elem_of_cons in Hid as [Hid|Hid]; [|right; by apply IH].
    assert (s = src) as ->; [|by left].
    apply (inj Some). trans (dict_by ps_phase_id (sp_phases p) !! d);
      [symmetry|]; (apply dict_by_lookup; [by apply plan_ids_NoDup|done]). }
  assert (c' ∈ concat (ps_contract_ids <$> sources)) as Hcin.
  { apply elem_of_concat. exists (ps_contract_ids src). split; [done|]. by apply list_elem_of_fmap_2. }
  assert (q' ∈ preds) as Hqp.
  { rewrite (receipts_of_unique p Hplan receipts (wa_receipts _ _ _ _ Hw) _ _ Hf). apply list_elem_of_omap.
    exists c'. split; [done|]. by apply (receipt_at p Hplan receipts (wa_receipts _ _ _ _ Hw)). }
  apply (co_next _ _ _ _ _ Hco); [|done]. intros Hnil. rewrite Hnil in Hcin. by apply elem_of_nil in Hcin.
Qed.

Lemma scout_commits ph c q : (ph, c) ∈ assignments p → q ∈ receipts → pr_contract_id q = c →
  ps_role ph = SCOUT → pr_input_commit q = si_base_commit (sp_identity p) ∧
    pr_output_commit q = si_base_commit (sp_identity p).
Proof.
  intros Ha Hq Hc Hr. pose proof (proj1 (elem_of_assignments _ _ _) Ha) as [Hph _].
  destruct (phase_checks ph (Hphases ph Hph)) as (_ & _ & Hroot). specialize (Hroot Hr).
  assert (pr_input_commit q = si_base_commit (sp_identity p)) as Hin.
  { destruct (input_source ph c q Ha Hq Hc) as [?|(src & c' & q' & _ & Hin & _)]; [done|].
    rewrite Hroot in Hin. by apply elem_of_nil in Hin. }
  split; [done|]. destruct (lineage_at ph c q Ha Hq Hc) as (r & ids & preds & _ & _ & _ & _ & _ & _ & Hco).
  rewrite (co_read_only _ _ _ _ _ Hco) by (by left). done.
Qed.
Lemma builder_commits ph c q : (ph, c) ∈ assignments p → q ∈ receipts → pr_contract_id q = c →
  ps_role ph = BUILDER → pr_input_commit q = si_base_commit (sp_identity p) ∧
    pr_output_commit q ≠ si_base_commit (sp_identity p) ∧
    ∃ r, r ∈ results ∧ sr_contract_id r = c ∧ sr_observed_commit r = Some (pr_output_commit q).
Proof.
  intros Ha Hq Hc Hr. pose proof (proj1 (elem_of_assignments _ _ _) Ha) as [Hph _].
  assert (pr_input_commit q = si_base_commit (sp_identity p)) as Hin.
  { destruct (input_source ph c q Ha Hq Hc) as [?|(src & c' & q' & Hsrc & Hid & Hq' & Hc' & <-)]; [done|].
    pose proof (proj1 (elem_of_assignments _ _ _) Hsrc) as [Hsp _].
    apply (scout_commits src c' q' Hsrc Hq' Hc'). by apply (source_role p ph src Hplan Hph Hsp Hid). }
  destruct (lineage_at ph c q Ha Hq Hc) as (r & ids & preds & Hrin & Hrc & Hwo & Hro & _ & _ & Hco).
  pose proof (co_builder _ _ _ _ _ Hco Hr) as Hne. split_and!; [done|congruence|].
  exists r. split_and!; try done. pose proof (ro_output _ _ _ _ Hro) as Hout. unfold expected_output in Hout.
  destruct (sr_observed_commit r) as [o|]; [|congruence]. destruct (is_empty_str o); congruence.
Qed.
Lemma tester_commits ph c q : (ph, c) ∈ assignments p → q ∈ receipts → pr_contract_id q = c →
  ps_role ph = TESTER → pr_output_commit q = pr_input_commit q ∧
    ∀ src c' q', (src, c') ∈ assignments p → ps_phase_id src ∈ ps_predecessor_phase_ids ph →
      q' ∈ receipts → pr_contract_id q' = c' → ps_role src = BUILDER ∧ pr_output_commit q' = pr_output_commit q.
Proof.
  intros Ha Hq Hc Hr. pose proof (proj1 (elem_of_assignments _ _ _) Ha) as [Hph _].
  destruct (lineage_at ph c q Ha Hq Hc) as (r & ids & preds & _ & _ & _ & _ & _ & _ & Hco).
  pose proof (co_read_only _ _ _ _ _ Hco (or_intror Hr)) as Hro. split; [done|].
  intros src c' q' Hsrc Hid Hq' Hc'. rewrite Hro. pose proof (proj1 (elem_of_assignments _ _ _) Hsrc) as [Hsp _].
  split; [by apply (source_role p ph src Hplan Hph Hsp Hid)|]. by apply (input_from ph c q src c').
Qed.

(** A phase that builders do not follow is terminal; so is every tester phase. *)
Lemma tester_terminal ph : ph ∈ sp_phases p → ps_role ph = TESTER → terminal_phase p ph.
Proof.
  intros Hph Hr ph' Hph' Hid. destruct (phase_checks ph' (Hphases ph' Hph')) as (_ & [Hr'|[Hr'|Hr']] & Hroot).
  - rewrite (Hroot Hr') in Hid. by apply elem_of_nil in Hid.
  - pose proof (proj1 (source_role p ph' ph Hplan Hph' Hph Hid) Hr'). congruence.
  - pose proof (proj2 (source_role p ph' ph Hplan Hph' Hph Hid) Hr'). congruence.
Qed.
Lemma built_final ph : ph ∈ sp_phases p → ps_role ph = BUILDER →
  va_final_commit a ≠ si_base_commit (sp_identity p).
Proof.
  intros Hph Hr. destruct (phase_checks ph (Hphases ph Hph)) as (Hne & _).
  destruct (ps_contract_ids ph) as [|c cs] eqn:Hcs; [done|]. clear Hne.
  assert ((ph, c) ∈ assignments p) as Ha by (apply elem_of_assignments; split; [done|rewrite Hcs; by left]).
  destruct (receipt_for ph c Ha) as (q & Hq & Hc). destruct (builder_commits ph c q Ha Hq Hc Hr) as (_ & Hout & _).
  destruct (find_first (λ ph', bool_decide (ps_phase_id ph ∈ ps_predecessor_phase_ids ph')) (sp_phases p)) as [ph'|] eqn:Hf.
  - apply find_first_Some in Hf as [Hph' Hid]. apply bool_decide_eq_true in Hid.
    destruct (phase_checks ph' (Hphases ph' Hph')) as (Hne' & [Hr'|[Hr'|Hr']] & Hroot).
    + rewrite (Hroot Hr') in Hid. by apply elem_of_nil in Hid.
    + pose proof (proj1 (source_role p ph' ph Hplan Hph' Hph Hid) Hr'). congruence.
    + destruct (ps_contract_ids ph') as [|c' cs'] eqn:Hcs'; [done|].
      assert ((ph', c') ∈ assignments p) as Ha' by (apply elem_of_assignments; split; [done|rewrite Hcs'; by left]).
      destruct (receipt_for ph' c' Ha') as (q' & Hq' & Hc').
      rewrite <- (wa_final _ _ _ _ Hw ph' c' q' Ha' (tester_terminal ph' Hph' Hr') Hq' Hc').
      destruct (tester_commits ph' c' q' Ha' Hq' Hc' Hr') as [_ Hb].
      by destruct (Hb ph c q Ha Hid Hq Hc) as [_ <-].
  - rewrite <- (wa_final _ _ _ _ Hw ph c q Ha); try done. intros ph' Hph' Hid.
    rewrite find_first_None in Hf. specialize (Hf ph' Hph'). by apply bool_decide_eq_false in Hf.
Qed.
Lemma final_commit_source :
  va_final_commit a = si_base_commit (sp_identity p) ∨
  ∃ r, r ∈ results ∧ sr_role r = BUILDER ∧ sr_observed_commit r = Some (va_final_commit a).
Proof.
  destruct (wa_some_terminal _ _ _ _ Hw) as (ph & c & Ha & Ht).
  pose proof (proj1 (elem_of_assignments _ _ _) Ha) as [Hph _].
  destruct (receipt_for ph c Ha) as (q & Hq & Hc). pose proof (wa_final _ _ _ _ Hw ph c q Ha Ht Hq Hc) as Hfin.
  assert (∀ ph c q, (ph, c) ∈ assignments p → q ∈ receipts → pr_contract_id q = c → ps_role ph = BUILDER →
    ∃ r, r ∈ results ∧ sr_role r = BUILDER ∧ sr_observed_commit r = Some (pr_output_commit q)) as Hbuilt.
  { clear -Hplan Hphases Hw. intros ph c q Ha Hq Hc Hr.
    destruct (builder_commits ph c q Ha Hq Hc Hr) as (_ & _ & r & Hrin & Hrc & Hobs). exists r. split_and!; try done.
    destruct (wa_lineage _ _ _ _ Hw ph c Ha) as (r' & _ & _ & _ & Hr'in & Hrc' & _ & _ & Hwo & _).
    assert (r = r') as ->; [|by rewrite (wo_role _ _ _ Hwo)]. apply (inj Some).
    by rewrite <- (proj2 (result_at p Hplan _ (wa_results _ _ _ _ Hw) r c)),
      <- (proj2 (result_at p Hplan _ (wa_results _ _ _ _ Hw) r' c)). }
  destruct (phase_checks ph (Hphases ph Hph)) as (_ & [Hr|[Hr|Hr]] & _).
  - left. rewrite <- Hfin. by apply (scout_commits ph c q).
  - right. rewrite <- Hfin. by apply (Hbuilt ph c q).
  - destruct (input_source ph c q Ha Hq Hc) as [Hin|(src & c' & q' & Hsrc & Hid & Hq' & Hc' & Hout)];
      destruct (tester_commits ph c q Ha Hq Hc Hr) as [Hro Hb].
    + left. congruence.
    + right. destruct (Hb src c' q' Hsrc Hid Hq' Hc') as [Hsr Heq]. rewrite <- Hfin, <- Heq. by apply (Hbuilt src c' q').
Qed.
End flow.

(** on a plan whose phases are constructible, an authorized completion is one
    commit flow: scouts read the base commit and leave it, every builder starts from
    the base commit and ends at a different one that its own result observed, every
    tester ends at the commit it was given, which is the output of each builder it
    follows.  The attested final commit is the base commit or one that a builder's
    result reports, and it is not the base commit once the plan has a builder. *)
Theorem authorized_commit_flow g results receipts a d :
  validate_SwarmPlan (cg_plan g) = Ok (cg_plan g) →
  (∀ ph, ph ∈ sp_phases (cg_plan g) → validate_SwarmPhaseSpec ph = Ok ph) →
  validate_VerifierAttestation a = Ok a →
  evaluate g results receipts (Some a) = Ok d → cd_authorized d = true →
  let base := si_base_commit (sp_identity (cg_plan g)) in
  (∀ ph c q, (ph, c) ∈ assignments (cg_plan g) → q ∈ receipts → pr_contract_id q = c →
    (ps_role ph = SCOUT → pr_input_commit q = base ∧ pr_output_commit q = base) ∧
    (ps_role ph = BUILDER → pr_input_commit q = base ∧ pr_output_commit q ≠ base ∧
       ∃ r, r ∈ results ∧ sr_contract_id r = c ∧ sr_observed_commit r = Some (pr_output_commit q)) ∧
    (ps_role ph = TESTER → pr_output_commit q = pr_input_commit q ∧
       ∀ src c' q', (src, c') ∈ assignments (cg_plan g) → ps_phase_id src ∈ ps_predecessor_phase_ids ph →
         q' ∈ receipts → pr_contract_id q' = c' → ps_role src = BUILDER ∧ pr_output_commit q' = pr_output_commit q)) ∧
  (va_final_commit a = base ∨
   ∃ r, r ∈ results ∧ sr_role r = BUILDER ∧ sr_observed_commit r = Some (va_final_commit a)) ∧
  (∀ ph, ph ∈ sp_phases (cg_plan g) → ps_role ph = BUILDER → va_final_commit a ≠ base).
Proof.
  intros Hplan Hphases Ha He Hauth base. pose proof (evaluate_signed g results receipts a Hplan Ha) as Hs.
  destruct (signature_valid g a); [destruct Hs as (reasons & He' & Hiff)|congruence].
  assert (warranted g results receipts a) as Hw.
  { apply Hiff. rewrite He' in He. injection He as <-. by apply decision_authorized in Hauth. }
  split_and!.
  - intros ph c q Hac Hq Hc. split_and!; intros Hr.
    + by apply (scout_commits g results receipts a Hplan Hphases Hw ph c q).
    + by apply (builder_commits g results receipts a Hplan Hphases Hw ph c q).
    + by apply (tester_commits g results receipts a Hplan Hw ph c q).
  - by apply (final_commit_source g results receipts a).
  - by apply (built_final g results receipts a).
Qed.
End facts.
