(* ===== verification/Json.v ===== *)
(** * Reading and writing JSON text

    [json.dumps] with its default [ensure_ascii=True] and [json.loads], as the
    journals of the program use them, and the round trip between the two.  A
    [str] holds code points below 256, so an escape of a larger one does not read
    back; a float is read by the platform's [float(text)].  The infinities and
    [nan], which Python also reads, are not modelled. *)
From S2P Require Import Prelude PyDict PyFloat Canonical.
From stdpp Require Import pretty.
From Stdlib Require Import Ascii.

(** ** [json.dumps(..., ensure_ascii=True)] *)
Definition u_escape (n : N) : string := "\u00" +:+ String (hex_digit (n / 16)) (String (hex_digit (n mod 16)) "").
Definition escape_char_ascii (c : ascii) : string :=
  if (127 <=? N_of_ascii c)%N then u_escape (N_of_ascii c) else escape_char c.
Fixpoint escape_ascii (s : string) : string :=
  match s with
  | EmptyString => ""
  | String c s => escape_char_ascii c +:+ escape_ascii s
  end.
Definition dumps_str_ascii (s : string) : string :=
  String quote_char (escape_ascii s +:+ String quote_char "").

Section dumps.
Context {PF : Platform}.
(** [separators=(", ", ": ")], the default, or [(",", ":")]. *)
Variable spaced : bool.
Definition item_separator : string := if spaced then ", " else ",".
Definition key_separator : string := if spaced then ": " else ":".

Fixpoint dumps_ascii (j : json) : string :=
  match j with
  | JNull => "null"
  | JBool true => "true"
  | JBool false => "false"
  | JInt z => pretty z
  | JFloat f => float_repr f
  | JStr s => dumps_str_ascii s
  | JArr xs => "[" +:+ str_join item_separator (map dumps_ascii xs) +:+ "]"
  | JObj ms =>
      "{" +:+ str_join item_separator (map (λ m, dumps_str_ascii m.1 +:+ key_separator +:+ dumps_ascii m.2) ms) +:+ "}"
  end.
End dumps.

(** ** Numbers *)
Definition is_digit (c : ascii) : bool := ((48 <=? N_of_ascii c) && (N_of_ascii c <=? 57))%N.
(** The characters of a number: digits, sign, point and exponent mark. *)
Definition num_char (c : ascii) : bool :=
  let n := N_of_ascii c in (is_digit c || (n =? 43) || (n =? 45) || (n =? 46) || (n =? 69) || (n =? 101))%N.
Fixpoint span (p : ascii → bool) (s : string) : string * string :=
  match s with
  | EmptyString => ("", "")
  | String c s' => if p c then let '(a, b) := span p s' in (String c a, b) else ("", s)
  end.
Definition drop_minus (s : string) : string :=
  match s with String c s' => if (N_of_ascii c =? 45)%N then s' else s | EmptyString => "" end.
(** A decimal numeral without leading zeros, and one with an optional minus sign. *)
Definition nat_text (s : string) : bool :=
  match s with
  | EmptyString => false
  | String c s' => str_forallb is_digit s && (negb (N_of_ascii c =? 48)%N || is_empty_str s')
  end.
Definition int_text (s : string) : bool := nat_text (drop_minus s).
(** The number pattern of the [json] module with a fraction or an exponent. *)
Definition float_text (s : string) : bool :=
  let '(whole, r) := span is_digit (drop_minus s) in
  let '(frac_ok, r) := match r with
    | String c r' => if (N_of_ascii c =? 46)%N
        then let '(ds, r'') := span is_digit r' in (negb (is_empty_str ds), r'') else (true, r)
    | EmptyString => (true, "") end in
  let exp_ok := match r with
    | EmptyString => true
    | String c r' => ((N_of_ascii c =? 69) || (N_of_ascii c =? 101))%N &&
        match r' with
        | String d ds => if ((N_of_ascii d =? 43) || (N_of_ascii d =? 45))%N
            then negb (is_empty_str ds) && str_forallb is_digit ds else str_forallb is_digit r'
        | EmptyString => false end
    end in
  nat_text whole && frac_ok && exp_ok && negb (is_empty_str (span is_digit (drop_minus s)).2).

Fixpoint digits_value (acc : N) (s : string) : N :=
  match s with
  | EmptyString => acc
  | String c s => digits_value (10 * acc + (N_of_ascii c - 48)) s
  end.
Definition int_value (s : string) : Z :=
  match s with
  | String c s' => if (N_of_ascii c =? 45)%N then (- Z.of_N (digits_value 0 s'))%Z else Z.of_N (digits_value 0 s)
  | EmptyString => 0
  end.

(** [float(text)] of a number, inverse to [float.__repr__]. *)
Class FloatText {PF : Platform} := {
  float_of_text : string → option float;
  float_repr_text f : float_text (float_repr f) = true;
  float_repr_chars f : str_forallb num_char (float_repr f) = true;
  float_repr_roundtrip f : float_of_text (float_repr f) = Some f;
}.

(** ** [json.loads] *)
Definition is_ws (c : ascii) : bool :=
  let n := N_of_ascii c in ((n =? 32) || (n =? 9) || (n =? 10) || (n =? 13))%N.
Fixpoint skip_ws (s : string) : string :=
  match s with
  | EmptyString => ""
  | String c s' => if is_ws c then skip_ws s' else s
  end.
Definition hex_value (c : ascii) : option N :=
  let n := N_of_ascii c in
  if is_digit c then Some (n - 48)%N
  else if ((97 <=? n) && (n <=? 102))%N then Some (n - 87)%N
  else if ((65 <=? n) && (n <=? 70))%N then Some (n - 55)%N else None.
Definition hex4 (a b c d : ascii) : option N :=
  a ← hex_value a; b ← hex_value b; c ← hex_value c; d ← hex_value d;
  Some (((a * 16 + b) * 16 + c) * 16 + d)%N.
Definition simple_escape (c : ascii) : option ascii :=
  let n := N_of_ascii c in
  if ((n =? 34) || (n =? 92) || (n =? 47))%N then Some c
  else if (n =? 98)%N then Some (ascii_of_N 8) else if (n =? 102)%N then Some (ascii_of_N 12)
  else if (n =? 110)%N then Some (ascii_of_N 10) else if (n =? 114)%N then Some (ascii_of_N 13)
  else if (n =? 116)%N then Some (ascii_of_N 9) else None.
Definition push (c : ascii) (r : option (string * string)) : option (string * string) :=
  match r with Some (s, rest) => Some (String c s, rest) | None => None end.
(** The rest of a string after its opening quote. *)
Fixpoint parse_str (s : string) : option (string * string) :=
  match s with
  | EmptyString => None
  | String c s1 =>
      if (N_of_ascii c =? 34)%N then Some ("", s1)
      else if (N_of_ascii c =? 92)%N then
        match s1 with
        | EmptyString => None
        | String e s2 =>
            if (N_of_ascii e =? 117)%N then
              match s2 with
              | String a (String b (String c (String d s3))) =>
                  match hex4 a b c d with
                  | Some v => if (v <? 256)%N then push (ascii_of_N v) (parse_str s3) else None
                  | None => None
                  end
              | _ => None
              end
            else match simple_escape e with Some ch => push ch (parse_str s2) | None => None end
        end
      else if (N_of_ascii c <? 32)%N then None
      else push c (parse_str s1)
  end.

(** [{key: value for ...}]: a repeated key keeps its place and its last value. *)
Definition object_of (ms : list (string * json)) : json :=
  JObj (items (foldl (λ d m, <[m.1 := m.2]> d) (∅ : dict string json) ms)).

Section loads.
Context {PF : Platform} {FT : FloatText}.

Definition parse_number (s : string) : option (json * string) :=
  let '(num, rest) := span num_char s in
  if int_text num then Some (JInt (int_value num), rest)
  else if float_text num then
    match float_of_text num with Some f => Some (JFloat f, rest) | None => None end
  else None.
(** [s] without the prefix [p] *)
Definition literal (p : string) (j : json) (s : string) : option (json * string) :=
  if startswith s p then Some (j, String.substring (String.length p) (String.length s - String.length p) s)
  else None.

(** A value, the items of an array after its bracket, the members of an object
    after its brace.  Each call spends one unit of fuel and at least every second
    one consumes a character. *)
Fixpoint parse_value (fuel : nat) (s : string) : option (json * string) :=
  match fuel with
  | O => None
  | S fuel =>
      match skip_ws s with
      | EmptyString => None
      | String c s1 =>
          let n := N_of_ascii c in
          if (n =? 34)%N then
            match parse_str s1 with Some (str, rest) => Some (JStr str, rest) | None => None end
          else if (n =? 91)%N then
            match skip_ws s1 with
            | String d rest => if (N_of_ascii d =? 93)%N then Some (JArr [], rest)
                else match parse_items fuel s1 with Some (xs, rest) => Some (JArr xs, rest) | None => None end
            | EmptyString => None
            end
          else if (n =? 123)%N then
            match skip_ws s1 with
            | String d rest => if (N_of_ascii d =? 125)%N then Some (object_of [], rest)
                else match parse_members fuel s1 with Some (ms, rest) => Some (object_of ms, rest) | None => None end
            | EmptyString => None
            end
          else if (n =? 110)%N then literal "null" JNull (String c s1)
          else if (n =? 116)%N then literal "true" (JBool true) (String c s1)
          else if (n =? 102)%N then literal "false" (JBool false) (String c s1)
          else parse_number (String c s1)
      end
  end
with parse_items (fuel : nat) (s : string) : option (list json * string) :=
  match fuel with
  | O => None
  | S fuel =>
      match parse_value fuel s with
      | None => None
      | Some (x, s1) =>
          match skip_ws s1 with
          | String c s2 =>
              if (N_of_ascii c =? 44)%N then
                match parse_items fuel s2 with Some (xs, rest) => Some (x :: xs, rest) | None => None end
              else if (N_of_ascii c =? 93)%N then Some ([x], s2) else None
          | EmptyString => None
          end
      end
  end
with parse_members (fuel : nat) (s : string) : option (list (string * json) * string) :=
  match fuel with
  | O => None
  | S fuel =>
      match skip_ws s with
      | String q s0 =>
          if (N_of_ascii q =? 34)%N then
            match parse_str s0 with
            | None => None
            | Some (k, s1) =>
                match skip_ws s1 with
                | String c s2 =>
                    if (N_of_ascii c =? 58)%N then
                      match parse_value fuel s2 with
                      | None => None
                      | Some (x, s3) =>
                          match skip_ws s3 with
                          | String d s4 =>
                              if (N_of_ascii d =? 44)%N then
                                match parse_members fuel s4 with
                                | Some (ms, rest) => Some ((k, x) :: ms, rest) | None => None end
                              else if (N_of_ascii d =? 125)%N then Some ([(k, x)], s4) else None
                          | EmptyString => None
                          end
                      end
                    else None
                | EmptyString => None
                end
            end
          else None
      | EmptyString => None
      end
  end.

(** [json.loads(text)]: one value, surrounded by whitespace. *)
Definition json_loads (s : string) : option json :=
  match parse_value (2 * String.length s + 2) s with
  | Some (j, rest) => if is_empty_str (skip_ws rest) then Some j else None
  | None => None
  end.
End loads.

(** ** Text that reads back *)
(** Python's dictionaries: no object repeats a key. *)
Fixpoint json_wf (j : json) : Prop :=
  match j with
  | JArr xs => foldr (λ x P, json_wf x ∧ P) True xs
  | JObj ms => NoDup ms.*1 ∧ foldr (λ m P, json_wf m.2 ∧ P) True ms
  | _ => True
  end.
(** The fuel that reading the text of [j] spends. *)
Fixpoint need (j : json) : nat :=
  match j with
  | JArr xs => S (foldr (λ x n, S (Nat.max (need x) n)) 0%nat xs)
  | JObj ms => S (foldr (λ m n, S (Nat.max (need m.2) n)) 0%nat ms)
  | _ => 1
  end.

Lemma json_nested_ind (P : json → Prop) :
  P JNull → (∀ b, P (JBool b)) → (∀ z, P (JInt z)) → (∀ f, P (JFloat f)) → (∀ s, P (JStr s)) →
  (∀ xs, Forall P xs → P (JArr xs)) → (∀ ms, Forall (λ m, P m.2) ms → P (JObj ms)) → ∀ j, P j.
Proof.
  intros Hn Hb Hi Hf Hs Ha Ho. fix IH 1.
  intros [| | | | |xs|ms]; [exact Hn|apply Hb|apply Hi|apply Hf|apply Hs|apply Ha|apply Ho].
  - induction xs; constructor; auto.
  - induction ms; constructor; auto.
Qed.

Lemma parse_str_char c t : parse_str (escape_char_ascii c +:+ t) = push c (parse_str t).
Proof. destruct c as [[] [] [] [] [] [] [] []]; reflexivity. Qed.
Lemma parse_str_escape s rest : parse_str (escape_ascii s +:+ String quote_char rest) = Some (s, rest).
Proof.
  induction s as [|c s IH]; [reflexivity|]. cbn [escape_ascii]. by rewrite str_app_assoc, parse_str_char, IH.
Qed.

(** *** Numerals *)
Lemma pretty_N_go_app x s : pretty_N_go x s = pretty_N_go x "" +:+ s.
Proof.
  revert s. induction (N.lt_wf_0 x) as [x _ IH]; intros s.
  destruct (decide (x = 0)%N) as [->|Hx]; [by rewrite !pretty_N_go_0|].
  rewrite !(pretty_N_go_step x) by lia. assert (x `div` 10 < x)%N by (apply N.div_lt; lia).
  rewrite IH by done. rewrite (IH _ H (String (pretty_N_char (x `mod` 10)) "")). by rewrite str_app_assoc.
Qed.
Lemma digits_value_app acc s t : digits_value acc (s +:+ t) = digits_value (digits_value acc s) t.
Proof. revert acc. induction s as [|c s IH]; intros acc; [done|]. rewrite str_app_cons. simpl. apply IH. Qed.
Lemma pretty_N_char_digit d : (d < 10)%N →
  is_digit (pretty_N_char d) = true ∧ (N_of_ascii (pretty_N_char d) - 48 = d)%N.
Proof.
  intros Hd. assert (d = 0 ∨ d = 1 ∨ d = 2 ∨ d = 3 ∨ d = 4 ∨ d = 5 ∨ d = 6 ∨ d = 7 ∨ d = 8 ∨ d = 9)%N as H by lia.
  by destruct_or! H; subst d.
Qed.
Lemma pretty_N_go_digits x : (0 < x)%N → ∃ c s, pretty_N_go x "" = String c s ∧ N_of_ascii c ≠ 48%N ∧
  str_forallb is_digit (String c s) = true ∧ digits_value 0 (String c s) = x.
Proof.
  induction (N.lt_wf_0 x) as [x _ IH]. intros Hx. rewrite pretty_N_go_step by done.
  rewrite pretty_N_go_app. assert (x `div` 10 < x)%N as Hlt by (apply N.div_lt; lia).
  pose proof (N.mod_lt x 10 ltac:(done)) as Hm. pose proof (N.div_mod x 10 ltac:(done)) as Hdm.
  destruct (pretty_N_char_digit _ Hm) as [Hd Hv].
  destruct (decide (x `div` 10 = 0)%N) as [H0|H0].
  - rewrite H0, pretty_N_go_0. eexists _, "". split; [reflexivity|].
    assert (x `mod` 10 = x)%N as Hxm by lia. split.
    + intros Hc. rewrite Hc in Hv. lia.
    + cbn [str_forallb digits_value]. rewrite Hd, Hv. split; [done|]. lia.
  - destruct (IH _ Hlt ltac:(lia)) as (c & s & -> & Hc & Hf & Hval). rewrite str_app_cons.
    eexists c, _. split; [reflexivity|]. split; [done|]. rewrite <- str_app_cons, str_forallb_app, digits_value_app, Hf, Hval.
    cbn [str_forallb digits_value]. rewrite Hd, Hv. split; [done|]. lia.
Qed.
Lemma pretty_N_text n : nat_text (pretty n) = true ∧ digits_value 0 (pretty n) = n.
Proof.
  unfold pretty, pretty_N. case_decide as Hn; [by subst n|].
  destruct (pretty_N_go_digits n ltac:(lia)) as (c & s & -> & Hc & Hf & Hv). split; [|done].
  unfold nat_text. rewrite Hf. apply N.eqb_neq in Hc. by rewrite Hc.
Qed.
Lemma nat_text_digits s : nat_text s = true → str_forallb is_digit s = true ∧ s ≠ "".
Proof. destruct s as [|c s]; [done|]. unfold nat_text. intros [? _]%andb_prop. done. Qed.
Lemma nat_text_no_minus s : nat_text s = true → drop_minus s = s ∧ int_value s = Z.of_N (digits_value 0 s).
Proof.
  destruct s as [|c s]; [done|]. unfold nat_text. cbn [str_forallb]. intros [[Hc _]%andb_prop _]%andb_prop.
  unfold drop_minus, int_value. destruct (N.eqb_spec (N_of_ascii c) 45) as [H|]; [|done].
  unfold is_digit in Hc. by rewrite H in Hc.
Qed.
Lemma pretty_Z_text z :
  int_text (pretty z) = true ∧ int_value (pretty z) = z ∧ str_forallb num_char (pretty z) = true.
Proof.
  assert (∀ n, str_forallb num_char (pretty (n : N)) = true) as Hnum.
  { intros n. eapply str_forallb_weaken; [|apply nat_text_digits, pretty_N_text].
    intros c Hc. unfold num_char. by rewrite Hc. }
  destruct z as [|p|p].
  - by vm_compute.
  - change (pretty (Z.pos p)) with (pretty (N.pos p)). destruct (pretty_N_text (N.pos p)) as [Ht Hv].
    destruct (nat_text_no_minus _ Ht) as [Hd Hi]. unfold int_text. rewrite Hd, Hi, Hv. done.
  - change (pretty (Z.neg p)) with (String "-" (pretty (N.pos p))). destruct (pretty_N_text (N.pos p)) as [Ht Hv].
    unfold int_text, int_value, drop_minus. simpl. rewrite Hv. split_and!; [done|done|]. apply Hnum.
Qed.

Lemma span_all p s rest :
  str_forallb p s = true → (rest = "" ∨ ∃ c r, rest = String c r ∧ p c = false) → span p (s +:+ rest) = (s, rest).
Proof.
  intros Hs Hrest. induction s as [|c s IH].
  - change ("" +:+ rest) with rest. destruct Hrest as [->|(c & r & -> & Hc)]; [done|]. simpl. by rewrite Hc.
  - rewrite str_app_cons. simpl in Hs |- *. apply andb_prop in Hs as [Hc Hs]. by rewrite Hc, IH.
Qed.

(** *** Values *)
(** What may follow a value: nothing, or a character no number goes on with. *)
Definition stops (rest : string) : Prop := rest = "" ∨ ∃ c r, rest = String c r ∧ num_char c = false.
Lemma stops_char c r : num_char c = false → stops (String c r).
Proof. intros H. right. by exists c, r. Qed.

Lemma num_char_dispatch c : num_char c = true →
  is_ws c = false ∧ (N_of_ascii c =? 34)%N = false ∧ (N_of_ascii c =? 91)%N = false ∧
  (N_of_ascii c =? 123)%N = false ∧ (N_of_ascii c =? 110)%N = false ∧ (N_of_ascii c =? 116)%N = false ∧
  (N_of_ascii c =? 102)%N = false ∧ (N_of_ascii c =? 93)%N = false.
Proof. destruct c as [[] [] [] [] [] [] [] []]; vm_compute; intros H; (discriminate H || (split_and!; reflexivity)). Qed.

Lemma literal_app p j rest : literal p j (p +:+ rest) = Some (j, rest).
Proof.
  unfold literal, startswith. assert (String.prefix p (p +:+ rest) = true) as ->.
  { induction p as [|c p IH]; [by destruct rest|]. rewrite str_app_cons. simpl. by destruct (ascii_dec c c). }
  rewrite str_length_app. replace (String.length p + String.length rest - String.length p)%nat with (String.length rest) by lia.
  by rewrite substring_app_r, substring_all.
Qed.

Section roundtrip.
Context {PF : Platform} {FT : FloatText}.
Variable spaced : bool.

Lemma parse_number_int z rest : stops rest → parse_number (pretty z +:+ rest) = Some (JInt z, rest).
Proof.
  intros Hr. destruct (pretty_Z_text z) as (Ht & Hv & Hc). unfold parse_number. by rewrite span_all, Ht, Hv.
Qed.
Lemma float_not_int s : float_text s = true → int_text s = false ∧ s ≠ "".
Proof.
  intros H. split; [|by intros ->]. apply not_true_iff_false. intros Hi%nat_text_digits. destruct Hi as [Hi _].
  unfold float_text in H. assert (span is_digit (drop_minus s) = (drop_minus s, "")) as Hs.
  { rewrite <- (str_app_nil_r (drop_minus s)) at 1. apply span_all; [done|by left]. }
  rewrite Hs in H. simpl in H. by rewrite andb_false_r in H.
Qed.
Lemma parse_number_float f rest : stops rest → parse_number (float_repr f +:+ rest) = Some (JFloat f, rest).
Proof.
  intros Hr. pose proof (float_repr_text f) as Ht. destruct (float_not_int _ Ht) as [Hi _].
  unfold parse_number. by rewrite span_all, Hi, Ht, float_repr_roundtrip by (done || apply float_repr_chars).
Qed.
Lemma parse_value_number n s rest j : s ≠ "" → str_forallb num_char s = true →
  parse_number (s +:+ rest) = Some (j, rest) → parse_value (S n) (s +:+ rest) = Some (j, rest).
Proof.
  intros Hne Hc H. destruct s as [|c s]; [done|]. simpl in Hc. apply andb_prop in Hc as [Hc _].
  destruct (num_char_dispatch c Hc) as (Hws & H1 & H2 & H3 & H4 & H5 & H6 & _).
  rewrite str_app_cons in *. cbn [parse_value skip_ws]. rewrite Hws. cbv zeta. by rewrite H1, H2, H3, H4, H5, H6.
Qed.

Lemma parse_value_space n s : parse_value n (String " " s) = parse_value n s.
Proof. by destruct n. Qed.
Lemma parse_items_space n s : parse_items n (String " " s) = parse_items n s.
Proof. destruct n as [|n]; [done|]. cbn [parse_items]. by rewrite parse_value_space. Qed.
Lemma parse_members_space n s : parse_members n (String " " s) = parse_members n s.
Proof. by destruct n. Qed.

(** The text of a value starts with neither whitespace nor a closing bracket. *)
Lemma dumps_first j : ∃ c s, dumps_ascii spaced j = String c s ∧ is_ws c = false ∧ (N_of_ascii c =? 93)%N = false.
Proof.
  assert (∀ t, t ≠ "" → str_forallb num_char t = true →
    ∃ c s, t = String c s ∧ is_ws c = false ∧ (N_of_ascii c =? 93)%N = false) as Hnum.
  { intros [|c t]; [done|]. intros _ [Hc _]%andb_prop. destruct (num_char_dispatch c Hc) as (? & _ & _ & _ & _ & _ & _ & ?). eauto. }
  destruct j as [|[]|z|f| | |]; try (eexists _, _; split; [reflexivity|split; reflexivity]).
  - apply Hnum; [|apply pretty_Z_text]. pose proof (proj1 (pretty_Z_text z)) as H. intros Hz. simpl in Hz. by rewrite Hz in H.
  - apply Hnum; [|apply float_repr_chars]. apply (float_not_int _ (float_repr_text f)).
Qed.

Lemma dumps_str_open s rest : dumps_str_ascii s +:+ rest = String quote_char (escape_ascii s +:+ String quote_char rest).
Proof. unfold dumps_str_ascii. rewrite str_app_cons, str_app_assoc. done. Qed.

Definition reads (j : json) : Prop := ∀ n rest, (need j ≤ n)%nat → stops rest →
  parse_value n (dumps_ascii spaced j +:+ rest) = Some (j, rest).

(** A separator is its character and perhaps a space, which every parser skips. *)
Lemma item_separator_skip t : ∃ t', skip_ws (item_separator spaced +:+ t) = String "," t' ∧ (t' = t ∨ t' = String " " t).
Proof. destruct spaced; eexists; (split; [reflexivity|]); [by right|by left]. Qed.
Lemma key_separator_skip t : ∃ t', skip_ws (key_separator spaced +:+ t) = String ":" t' ∧ (t' = t ∨ t' = String " " t).
Proof. destruct spaced; eexists; (split; [reflexivity|]); [by right|by left]. Qed.
Lemma item_separator_stops t : stops (item_separator spaced +:+ t).
Proof. destruct spaced; by apply stops_char. Qed.
Lemma str_join_cons sep x xs : xs ≠ [] → str_join sep (x :: xs) = x +:+ sep +:+ str_join sep xs.
Proof. by destruct xs. Qed.
Lemma parse_items_ok x xs n rest :
  Forall reads (x :: xs) → (foldr (λ x n, S (Nat.max (need x) n)) 0 (x :: xs) ≤ n)%nat →
  parse_items n (str_join (item_separator spaced) (map (dumps_ascii spaced) (x :: xs)) +:+ "]" +:+ rest) = Some (x :: xs, rest).
Proof.
  revert x n. induction xs as [|y xs IH]; intros x n Hall Hn.
  - inversion Hall as [|? ? Hx _]; subst. simpl in Hn. destruct n as [|n]; [lia|].
    cbn [map str_join parse_items]. by rewrite Hx by (lia || by apply stops_char).
  - inversion Hall as [|? ? Hx Hxs]; subst. cbn [foldr] in Hn. destruct n as [|n]; [lia|].
    specialize (IH y n Hxs ltac:(cbn [foldr]; lia)).
    rewrite map_cons, str_join_cons by done. set (tail := str_join _ (map _ (y :: xs))) in *.
    rewrite !str_app_assoc. cbn [parse_items].
    rewrite Hx by (lia || apply item_separator_stops).
    destruct (item_separator_skip (tail +:+ "]" +:+ rest)) as (t' & -> & Ht'). cbv beta iota.
    change (N_of_ascii "," =? 44)%N with true. cbv beta iota.
    destruct Ht' as [-> | ->]; rewrite ?parse_items_space; by rewrite IH.
Qed.

Lemma parse_members_S fuel s : parse_members (S fuel) s =
      match skip_ws s with
      | String q s0 =>
          if (N_of_ascii q =? 34)%N then
            match parse_str s0 with
            | None => None
            | Some (k, s1) =>
                match skip_ws s1 with
                | String c s2 =>
                    if (N_of_ascii c =? 58)%N then
                      match parse_value fuel s2 with
                      | None => None
                      | Some (x, s3) =>
                          match skip_ws s3 with
                          | String d s4 =>
                              if (N_of_ascii d =? 44)%N then
                                match parse_members fuel s4 with
                                | Some (ms, rest) => Some ((k, x) :: ms, rest) | None => None end
                              else if (N_of_ascii d =? 125)%N then Some ([(k, x)], s4) else None
                          | EmptyString => None
                          end
                      end
                    else None
                | EmptyString => None
                end
            end
          else None
      | EmptyString => None
      end.
Proof. reflexivity. Qed.

Definition member_text (m : string * json) : string :=
  dumps_str_ascii m.1 +:+ key_separator spaced +:+ dumps_ascii spaced m.2.
Lemma parse_members_step k j n tail :
  reads j → (need j ≤ n)%nat → stops tail →
  parse_members (S n) (member_text (k, j) +:+ tail) =
    match skip_ws tail with
    | String d s4 =>
        if (N_of_ascii d =? 44)%N then
          match parse_members n s4 with Some (ms, rest) => Some ((k, j) :: ms, rest) | None => None end
        else if (N_of_ascii d =? 125)%N then Some ([(k, j)], s4) else None
    | EmptyString => None
    end.
Proof.
  intros Hj Hn Ht. unfold member_text. rewrite str_app_assoc, dumps_str_open. cbn [fst snd].
  rewrite parse_members_S.
  assert (∀ s, skip_ws (String quote_char s) = String quote_char s) as -> by done. cbv beta iota.
  change (N_of_ascii quote_char =? 34)%N with true. cbv beta iota. rewrite parse_str_escape. cbv beta iota.
  rewrite str_app_assoc. destruct (key_separator_skip (dumps_ascii spaced j +:+ tail)) as (t' & -> & Ht'). cbv beta iota.
  change (N_of_ascii ":" =? 58)%N with true. cbv beta iota.
  destruct Ht' as [-> | ->]; rewrite ?parse_value_space; by rewrite Hj.
Qed.
Lemma parse_members_ok m ms n rest :
  Forall (λ m, reads m.2) (m :: ms) → (foldr (λ m n, S (Nat.max (need m.2) n)) 0 (m :: ms) ≤ n)%nat →
  parse_members n (str_join (item_separator spaced) (map member_text (m :: ms)) +:+ "}" +:+ rest) = Some (m :: ms, rest).
Proof.
  revert m n. induction ms as [|m' ms IH]; intros [k j] n Hall Hn; inversion Hall as [|? ? Hj Hms]; subst;
    cbn [foldr snd] in Hn, Hj; destruct n as [|n]; try lia.
  - cbn [map str_join]. by rewrite parse_members_step by (done || lia || by apply stops_char).
  - specialize (IH m' n Hms ltac:(cbn [foldr]; lia)).
    rewrite map_cons, str_join_cons by done. set (tail := str_join _ (map _ (m' :: ms))) in *.
    rewrite !str_app_assoc, parse_members_step by (done || lia || apply item_separator_stops).
    destruct (item_separator_skip (tail +:+ "}" +:+ rest)) as (t' & -> & Ht'). cbv beta iota.
    change (N_of_ascii "," =? 44)%N with true. cbv beta iota.
    destruct Ht' as [-> | ->]; rewrite ?parse_members_space; by rewrite IH.
Qed.

Lemma object_of_NoDup ms : NoDup ms.*1 → object_of ms = JObj ms.
Proof.
  intros Hnd. unfold object_of. f_equal.
  assert (∀ d, (∀ k, k ∈ ms.*1 → d !! k = None) →
    items (foldl (λ d m, <[m.1 := m.2]> d) (d : dict string json) ms) = items d ++ ms) as H; [|exact (H ∅ (λ _ _, eq_refl))].
  induction ms as [|[k j] ms IH]; intros d Hd; cbn [foldl]; [by rewrite app_nil_r|].
  rewrite fmap_cons in Hnd. apply NoDup_cons in Hnd as [Hk Hnd]. cbn [fst snd] in *. rewrite IH; [|done|].
  - rewrite items_insert_fresh by (apply Hd; by left). by rewrite <- app_assoc.
  - intros k' Hk'. rewrite dict_lookup_insert_ne by (intros ->; done). apply Hd. by right.
Qed.

Lemma parse_dumps j : json_wf j → reads j.
Proof.
  induction j as [| b | z | f | s | xs IH | ms IH] using json_nested_ind; intros Hwf n rest Hn Hr;
    cbn [need] in Hn; (destruct n as [|n]; [lia|]).
  - apply (literal_app "null").
  - destruct b; [apply (literal_app "true")|apply (literal_app "false")].
  - destruct (pretty_Z_text z) as (Ht & _ & Hc). apply parse_value_number; [|done|by apply parse_number_int].
    intros H. cbn [dumps_ascii] in H. by rewrite H in Ht.
  - apply parse_value_number; [apply (float_not_int _ (float_repr_text f))|apply float_repr_chars|by apply parse_number_float].
  - cbn [dumps_ascii]. rewrite dumps_str_open. cbn [parse_value].
    assert (∀ s, skip_ws (String quote_char s) = String quote_char s) as -> by done. cbv beta iota zeta.
    change (N_of_ascii quote_char =? 34)%N with true. cbv beta iota. by rewrite parse_str_escape.
  - cbn [json_wf] in Hwf. assert (Forall reads xs) as Hall.
    { clear Hn. induction IH as [|x xs Hx _ IHxs]; [constructor|]. destruct Hwf as [Hw Hws]. constructor; auto. }
    cbn [dumps_ascii]. rewrite !str_app_assoc, str_app_cons. cbn [parse_value].
    assert (∀ s, skip_ws (String "[" s) = String "[" s) as -> by done. cbv beta iota zeta.
    change (N_of_ascii "[" =? 34)%N with false. change (N_of_ascii "[" =? 91)%N with true. cbv beta iota.
    destruct xs as [|x xs]; [done|].
    assert (∀ s, "" +:+ s = s) as Hnil by done. rewrite Hnil.
    rewrite parse_items_ok by (done || lia). destruct (dumps_first x) as (c & t & Ht & Hws & Hb).
    assert (∃ t', skip_ws (str_join (item_separator spaced) (map (dumps_ascii spaced) (x :: xs)) +:+ "]" +:+ rest) = String c t') as [t' ->].
    { destruct xs as [|y xs]; cbn [map str_join]; rewrite Ht, !str_app_cons; cbn [skip_ws]; rewrite Hws; eauto. }
    by rewrite Hb.
  - cbn [json_wf] in Hwf. destruct Hwf as [Hnd Hwf]. assert (Forall (λ m, reads m.2) ms) as Hall.
    { clear Hn Hnd. induction IH as [|m ms Hm _ IHms]; [constructor|]. destruct Hwf as [Hw Hws]. constructor; auto. }
    cbn [dumps_ascii]. rewrite !str_app_assoc, str_app_cons. cbn [parse_value].
    assert (∀ s, skip_ws (String "{" s) = String "{" s) as -> by done. cbv beta iota zeta.
    change (N_of_ascii "{" =? 34)%N with false. change (N_of_ascii "{" =? 91)%N with false.
    change (N_of_ascii "{" =? 123)%N with true. cbv beta iota. assert (∀ s, "" +:+ s = s) as Hnil by done. rewrite Hnil.
    destruct ms as [|m ms]; [done|].
    change (map (λ m, dumps_str_ascii m.1 +:+ key_separator spaced +:+ dumps_ascii spaced m.2) (m :: ms))
      with (map member_text (m :: ms)).
    rewrite parse_members_ok; [|done|lia]. rewrite (object_of_NoDup (m :: ms)) by done.
    assert (∃ t', skip_ws (str_join (item_separator spaced) (map member_text (m :: ms)) +:+ "}" +:+ rest) = String quote_char t') as [t' ->].
    { destruct ms as [|m' ms]; cbn [map str_join]; unfold member_text at 1; rewrite !str_app_assoc, dumps_str_open; eauto. }
    done.
Qed.

(** *** The fuel is enough *)
Lemma need_length j : (need j ≤ 2 * String.length (dumps_ascii spaced j))%nat.
Proof.
  assert (∀ j, 1 ≤ String.length (dumps_ascii spaced j))%nat as Hpos.
  { intros j'. destruct (dumps_first j') as (c & s & -> & _). simpl. lia. }
  assert (1 ≤ String.length (item_separator spaced))%nat as Hsep by (destruct spaced; simpl; lia).
  induction j as [| b | z | f | s | xs IH | ms IH] using json_nested_ind; cbn [need];
    try (match goal with |- context [dumps_ascii _ ?j] => pose proof (Hpos j) end; lia).
  - cbn [dumps_ascii]. rewrite !str_length_app. cbn [String.length].
    assert (foldr (λ x n, S (Nat.max (need x) n)) 0 xs
      ≤ 2 * String.length (str_join (item_separator spaced) (map (dumps_ascii spaced) xs)) + 1)%nat; [|lia].
    induction IH as [|x xs Hx _ IHxs]; [simpl; lia|]. cbn [foldr]. rewrite map_cons.
    destruct xs as [|y xs]; [cbn [foldr map str_join]; lia|]. rewrite str_join_cons by done. rewrite !str_length_app. lia.
  - cbn [dumps_ascii]. rewrite !str_length_app. cbn [String.length]. fold member_text.
    change (map _ ms) with (map member_text ms).
    assert (foldr (λ m n, S (Nat.max (need m.2) n)) 0 ms
      ≤ 2 * String.length (str_join (item_separator spaced) (map member_text ms)) + 1)%nat; [|lia].
    induction IH as [|m ms Hm _ IHms]; [simpl; lia|]. cbn [foldr]. rewrite map_cons.
    assert (String.length (dumps_ascii spaced m.2) ≤ String.length (member_text m))%nat
      by (unfold member_text; rewrite !str_length_app; lia).
    destruct ms as [|m' ms]; [cbn [foldr map str_join]; lia|]. rewrite str_join_cons by done. rewrite !str_length_app. lia.
Qed.

(** [json.loads(json.dumps(x, ...)) == x] *)
Theorem json_loads_dumps j : json_wf j → json_loads (dumps_ascii spaced j) = Some j.
Proof.
  intros Hwf. unfold json_loads. rewrite <- (str_app_nil_r (dumps_ascii spaced j)) at 2.
  rewrite (parse_dumps j Hwf) by (pose proof (need_length j); lia || by left). done.
Qed.

(** *** The text is one line of ASCII *)
Definition printable (c : ascii) : bool := ((32 <=? N_of_ascii c) && (N_of_ascii c <=? 126))%N.
Lemma escape_ascii_printable s : str_forallb printable (escape_ascii s) = true.
Proof.
  induction s as [|c s IH]; [done|]. cbn [escape_ascii]. rewrite str_forallb_app, IH, andb_true_r.
  by destruct c as [[] [] [] [] [] [] [] []].
Qed.
Lemma num_chars_printable s : str_forallb num_char s = true → str_forallb printable s = true.
Proof. apply str_forallb_weaken. intros c. destruct c as [[] [] [] [] [] [] [] []]; vm_compute; done. Qed.
Lemma dumps_str_printable s : str_forallb printable (dumps_str_ascii s) = true.
Proof. unfold dumps_str_ascii. cbn [str_forallb]. by rewrite str_forallb_app, escape_ascii_printable. Qed.
Lemma join_printable sep xs : str_forallb printable sep = true →
  (∀ x, x ∈ xs → str_forallb printable x = true) → str_forallb printable (str_join sep xs) = true.
Proof.
  intros Hsep. induction xs as [|x xs IH]; intros Hxs; [done|].
  assert (str_forallb printable x = true) as Hx by (apply Hxs; by left).
  destruct xs as [|y xs]; [done|]. rewrite str_join_cons by done.
  rewrite !str_forallb_app, Hx, Hsep, IH; [done|]. intros z Hz. apply Hxs. by right.
Qed.
Lemma dumps_printable j : str_forallb printable (dumps_ascii spaced j) = true.
Proof.
  assert (str_forallb printable (item_separator spaced) = true ∧ str_forallb printable (key_separator spaced) = true)
    as [Hi Hk] by (by destruct spaced).
  induction j as [| [] | z | f | s | xs IH | ms IH] using json_nested_ind; try done; cbn [dumps_ascii].
  - apply num_chars_printable, pretty_Z_text.
  - apply num_chars_printable, float_repr_chars.
  - apply dumps_str_printable.
  - rewrite !str_forallb_app, join_printable; [done|done|]. intros x (y & -> & Hy)%list_elem_of_fmap.
    rewrite Forall_forall in IH. by apply IH.
  - rewrite !str_forallb_app, join_printable; [done|done|]. intros x (m & -> & Hm)%list_elem_of_fmap.
    rewrite Forall_forall in IH. by rewrite !str_forallb_app, dumps_str_printable, Hk, IH.
Qed.
End roundtrip.
