(* ===== verification/PyText.v ===== *)
(** * Text functions and the reading of untrusted JSON

    [str.upper], [repr] and [str] of a JSON value, searching, and [json.loads] with the
    two exceptions it raises on text: [JSONDecodeError], and the plain [ValueError] of
    an integer of more than 4300 digits, which the interpreter refuses to convert.
    [NaN], the infinities and the recursion limit are not modelled. *)
From S2P Require Import Prelude PyDict PyFloat Canonical Json.
From stdpp Require Import pretty.
From Stdlib Require Import Ascii.

(** ** Text *)
(** [str.upper()], as code points: three characters below 256 have an upper case of
    another length or above 255. *)
Definition upper_char (c : ascii) : list N :=
  let n := N_of_ascii c in
  if ((97 <=? n) && (n <=? 122) || (224 <=? n) && (n <=? 254) && negb (n =? 247))%N then [(n - 32)%N]
  else if (n =? 181)%N then [924%N] else if (n =? 223)%N then [83%N; 83%N] else if (n =? 255)%N then [376%N] else [n].
Fixpoint py_upper (s : string) : list N :=
  match s with EmptyString => [] | String c s => upper_char c ++ py_upper s end.
Fixpoint code_points (s : string) : list N :=
  match s with EmptyString => [] | String c s => N_of_ascii c :: code_points s end.

(** [repr] of a string *)
Definition apostrophe : ascii := ascii_of_N 39.
Definition repr_char (quote c : ascii) : string :=
  let n := N_of_ascii c in
  if Ascii.eqb c quote || (n =? 92)%N then String "\" (String c "")
  else if (n =? 9)%N then "\t" else if (n =? 10)%N then "\n" else if (n =? 13)%N then "\r"
  else if ((n <? 32) || (127 <=? n) && (n <=? 160) || (n =? 173))%N
  then "\x" +:+ String (hex_digit (n / 16)) (String (hex_digit (n mod 16)) "")
  else String c "".
Fixpoint repr_chars (quote : ascii) (s : string) : string :=
  match s with EmptyString => "" | String c s => repr_char quote c +:+ repr_chars quote s end.
Definition repr_str (s : string) : string :=
  let quote := if str_mem apostrophe s && negb (str_mem quote_char s) then quote_char else apostrophe in
  String quote (repr_chars quote s +:+ String quote "").
Definition repr_strs (xs : list string) : string := "[" +:+ str_join ", " (map repr_str xs) +:+ "]".

Section repr.
Context {PF : Platform}.
(** [repr(value)] and [str(value)] *)
Fixpoint py_repr (j : json) : string :=
  match j with
  | JNull => "None"
  | JBool true => "True"
  | JBool false => "False"
  | JInt z => pretty z
  | JFloat f => float_repr f
  | JStr s => repr_str s
  | JArr xs => "[" +:+ str_join ", " (map py_repr xs) +:+ "]"
  | JObj ms => "{" +:+ str_join ", " (map (λ m, repr_str m.1 +:+ ": " +:+ py_repr m.2) ms) +:+ "}"
  end.
Definition py_str (j : json) : string := match j with JStr s => s | _ => py_repr j end.
End repr.
(** [type(value).__name__] *)
Definition type_name (j : json) : string :=
  match j with
  | JNull => "NoneType" | JBool _ => "bool" | JInt _ => "int" | JFloat _ => "float" | JStr _ => "str"
  | JArr _ => "list" | JObj _ => "dict"
  end.
(** [bool(value)] *)
Definition py_truthy (j : json) : bool :=
  match j with
  | JNull => false | JBool b => b | JInt z => negb (z =? 0)%Z | JFloat f => negb (f =? 0)%Z
  | JStr s => negb (is_empty_str s) | JArr xs => negb (bool_decide (xs = [])) | JObj ms => negb (bool_decide (ms = []))
  end.
(** [value.get(key)] of a dictionary *)
Definition jget (k : string) (ms : list (string * json)) : option json := alist_get k ms.
Definition jget_or_none (k : string) (ms : list (string * json)) : json := default JNull (jget k ms).

Definition str_drop (n : nat) (s : string) : string := String.substring n (String.length s - n) s.
(** The text before and after the first occurrence of [needle]. *)
Fixpoint split_first (needle s : string) : option (string * string) :=
  if startswith s needle then Some ("", str_drop (String.length needle) s)
  else match s with
       | EmptyString => None
       | String c s => match split_first needle s with Some (a, b) => Some (String c a, b) | None => None end
       end.
(** The text up to and including the last character [c]. *)
Fixpoint upto_last (c : ascii) (s : string) : option string :=
  match s with
  | EmptyString => None
  | String d s =>
      match upto_last c s with
      | Some t => Some (String d t)
      | None => if Ascii.eqb c d then Some (String d "") else None
      end
  end.
(** [str.split()] without arguments: the words between runs of whitespace. *)
Fixpoint words_from (cur : string) (s : string) : list string :=
  match s with
  | EmptyString => if is_empty_str cur then [] else [String.rev cur]
  | String c s =>
      if is_space c then (if is_empty_str cur then words_from "" s else String.rev cur :: words_from "" s)
      else words_from (String c cur) s
  end.
Definition words (s : string) : list string := words_from "" s.

(** ** [json.loads] and its exceptions *)
Inductive loaded (A : Type) := Loaded (a : A) | DecodeError | DigitLimit.
Arguments Loaded {A} _.
Arguments DecodeError {A}.
Arguments DigitLimit {A}.
Definition loaded_bind {A B} (m : loaded A) (f : A → loaded B) : loaded B :=
  match m with Loaded a => f a | DecodeError => DecodeError | DigitLimit => DigitLimit end.
Definition of_option {A} (o : option A) : loaded A := match o with Some a => Loaded a | None => DecodeError end.

(** The number pattern of the [json] module: the text matched, whether it has a
    fraction or an exponent, and the rest. *)
Definition scan_sign (s : string) : string * string :=
  match s with String c s' => if (N_of_ascii c =? 45)%N then ("-", s') else ("", s) | EmptyString => ("", "") end.
Definition scan_whole (s : string) : option (string * string) :=
  match s with
  | String c s' => if (N_of_ascii c =? 48)%N then Some ("0", s') else if is_digit c then Some (span is_digit s) else None
  | EmptyString => None
  end.
Definition scan_frac (s : string) : string * string :=
  match s with
  | String c s' => if (N_of_ascii c =? 46)%N
      then let '(ds, r) := span is_digit s' in if is_empty_str ds then ("", s) else (String c ds, r) else ("", s)
  | EmptyString => ("", "")
  end.
Definition scan_exp (s : string) : string * string :=
  match s with
  | String c s' => if ((N_of_ascii c =? 69) || (N_of_ascii c =? 101))%N
      then let '(sign, r) := match s' with
             | String d r => if ((N_of_ascii d =? 43) || (N_of_ascii d =? 45))%N then (String d "", r) else ("", s')
             | EmptyString => ("", "") end in
           let '(ds, r) := span is_digit r in if is_empty_str ds then ("", s) else (String c (sign +:+ ds), r)
      else ("", s)
  | EmptyString => ("", "")
  end.

Section reader.
Context {PF : Platform} {FT : FloatText}.
Definition read_number (s : string) : loaded (json * string) :=
  let '(sign, r) := scan_sign s in
  match scan_whole r with
  | None => DecodeError
  | Some (whole, r) =>
      let '(frac, r) := scan_frac r in
      let '(exp, r) := scan_exp r in
      if is_empty_str (frac +:+ exp)
      then if (4300 <? N.of_nat (String.length whole))%N then DigitLimit else Loaded (JInt (int_value (sign +:+ whole)), r)
      else of_option (match float_of_text (sign +:+ whole +:+ frac +:+ exp) with Some f => Some (JFloat f, r) | None => None end)
  end.
(** A value, the items of an array after its bracket, the members of an object after
    its brace; fuelled as in [Json]. *)
Fixpoint read_value (fuel : nat) (s : string) : loaded (json * string) :=
  match fuel with
  | O => DecodeError
  | S fuel =>
      match skip_ws s with
      | EmptyString => DecodeError
      | String c s1 =>
          let n := N_of_ascii c in
          if (n =? 34)%N then loaded_bind (of_option (parse_str s1)) (λ '(str, r), Loaded (JStr str, r))
          else if (n =? 91)%N then
            match skip_ws s1 with
            | String d r => if (N_of_ascii d =? 93)%N then Loaded (JArr [], r)
                else loaded_bind (read_items fuel s1) (λ '(xs, r), Loaded (JArr xs, r))
            | EmptyString => DecodeError
            end
          else if (n =? 123)%N then
            match skip_ws s1 with
            | String d r => if (N_of_ascii d =? 125)%N then Loaded (object_of [], r)
                else loaded_bind (read_members fuel s1) (λ '(ms, r), Loaded (object_of ms, r))
            | EmptyString => DecodeError
            end
          else if (n =? 110)%N then of_option (literal "null" JNull (String c s1))
          else if (n =? 116)%N then of_option (literal "true" (JBool true) (String c s1))
          else if (n =? 102)%N then of_option (literal "false" (JBool false) (String c s1))
          else read_number (String c s1)
      end
  end
with read_items (fuel : nat) (s : string) : loaded (list json * string) :=
  match fuel with
  | O => DecodeError
  | S fuel =>
      loaded_bind (read_value fuel s) (λ '(x, s1),
        match skip_ws s1 with
        | String c s2 =>
            if (N_of_ascii c =? 44)%N then loaded_bind (read_items fuel s2) (λ '(xs, r), Loaded (x :: xs, r))
            else if (N_of_ascii c =? 93)%N then Loaded ([x], s2) else DecodeError
        | EmptyString => DecodeError
        end)
  end
with read_members (fuel : nat) (s : string) : loaded (list (string * json) * string) :=
  match fuel with
  | O => DecodeError
  | S fuel =>
      match skip_ws s with
      | String q s0 =>
          if (N_of_ascii q =? 34)%N then
            loaded_bind (of_option (parse_str s0)) (λ '(k, s1),
              match skip_ws s1 with
              | String c s2 =>
                  if (N_of_ascii c =? 58)%N then
                    loaded_bind (read_value fuel s2) (λ '(x, s3),
                      match skip_ws s3 with
                      | String d s4 =>
                          if (N_of_ascii d =? 44)%N then loaded_bind (read_members fuel s4) (λ '(ms, r), Loaded ((k, x) :: ms, r))
                          else if (N_of_ascii d =? 125)%N then Loaded ([(k, x)], s4) else DecodeError
                      | EmptyString => DecodeError
                      end)
                  else DecodeError
              | EmptyString => DecodeError
              end)
          else DecodeError
      | EmptyString => DecodeError
      end
  end.
(** [json.loads(text)] *)
Definition loads (s : string) : loaded json :=
  loaded_bind (read_value (2 * String.length s + 2) s) (λ '(j, r), if is_empty_str (skip_ws r) then Loaded j else DecodeError).
End reader.

(** ** Numbers *)
(** [int(text)] of a decimal numeral: a sign, and digits with single underscores
    between them, at most the 4300 digits the interpreter converts. *)
Fixpoint digits_with_underscores (after_digit : bool) (s : string) : bool :=
  match s with
  | EmptyString => after_digit
  | String c s =>
      if is_digit c then digits_with_underscores true s
      else (N_of_ascii c =? 95)%N && after_digit && negb (is_empty_str s) && digits_with_underscores false s
  end.
Fixpoint drop_underscores (s : string) : string :=
  match s with EmptyString => "" | String c s => if (N_of_ascii c =? 95)%N then drop_underscores s else String c (drop_underscores s) end.
Definition int_of_text (text : string) : option Z :=
  let value s :=
    let digits := drop_underscores s in
    if digits_with_underscores false s && (N.of_nat (String.length digits) <=? 4300)%N then Some (Z.of_N (digits_value 0 digits)) else None in
  match text with
  | String c s =>
      if (N_of_ascii c =? 45)%N then option_map Z.opp (value s)
      else if (N_of_ascii c =? 43)%N then value s
      else value text
  | EmptyString => None
  end.
(** [int(value)] and [float(value)] *)
Definition py_int (j : json) : result Z :=
  match j with
  | JInt z => Ok z
  | JBool b => Ok (if b then 1 else 0)%Z
  | JFloat f => Ok (Z.quot f f_unit)
  | JStr s => match int_of_text (strip s) with Some z => Ok z | None => Err (Exn ValueError "invalid literal for int() with base 10") end
  | _ => Err (Exn TypeError ("int() argument must be a string, a bytes-like object or a real number, not '" +:+ type_name j +:+ "'"))
  end.
Definition py_float `{FloatText} (j : json) : result float :=
  match j with
  | JFloat f => Ok f
  | JInt z => Ok (f_of_Z z)
  | JBool b => Ok (if b then f_unit else 0)%Z
  | JStr s => match float_of_text (strip s) with Some f => Ok f | None => Err (Exn ValueError "could not convert string to float") end
  | _ => Err (Exn TypeError ("float() argument must be a string or a real number, not '" +:+ type_name j +:+ "'"))
  end.

(** ** Stripping twice strips once *)
Lemma lstrip_suffix s : ∃ w, s = w +:+ lstrip s.
Proof.
  induction s as [|c s [w IH]]; [by exists ""|]. cbn [lstrip]. destruct (is_space c); [|by exists ""].
  exists (String c w). by rewrite str_app_cons, <- IH.
Qed.
Lemma lstrip_idemp s : lstrip (lstrip s) = lstrip s.
Proof. induction s as [|c s IH]; [done|]. cbn [lstrip]. destruct (is_space c) eqn:E; [done|]. cbn [lstrip]. by rewrite E. Qed.
Lemma lstrip_head c s : lstrip (String c s) = String c s ↔ is_space c = false.
Proof.
  cbn [lstrip]. destruct (is_space c); [|done]. split; [|done]. intros H. destruct (lstrip_suffix s) as [w Hw].
  apply (f_equal String.length) in Hw. rewrite str_length_app, H in Hw. simpl in Hw. lia.
Qed.
Lemma strip_idemp s : strip (strip s) = strip s.
Proof.
  unfold strip, rstrip. set (u := lstrip s). destruct (lstrip_suffix (String.rev u)) as [w Hw].
  set (t := String.rev (lstrip (String.rev u))). assert (u = t +:+ String.rev w) as Hu.
  { unfold t. by rewrite <- str_rev_app_distr, <- Hw, str_rev_involutive. }
  assert (lstrip t = t) as ->.
  { destruct t as [|c t'] eqn:Et; [done|]. apply lstrip_head.
    apply (lstrip_head c (t' +:+ String.rev w)). rewrite <- str_app_cons, <- Hu. apply lstrip_idemp. }
  unfold t. by rewrite str_rev_involutive, lstrip_idemp.
Qed.
