(* ===== verification/Regex.v ===== *)
(** * Regular expressions

    The part of Python's [re] that the policies over text use: [re.compile] of a
    pattern, and [pattern.search] as a truth value.  Patterns are the texts of the
    source.  They have literals, [.], character sets, [\s], [\d], [\b], groups,
    alternatives, the greedy quantifiers and a leading [(?i)]; a repetition without
    bound applies to one character.  [Matches] is what a pattern means, with its
    context on both sides, and [search_exact] shows that the search decides it. *)
From S2P Require Import Prelude.
From Stdlib Require Import Ascii.

(** ** Characters *)
(** [\w], for the code points below 256: [str.isalnum] or the underscore. *)
Definition word_char (c : ascii) : bool :=
  let n := N_of_ascii c in
  ((48 <=? n) && (n <=? 57) || (65 <=? n) && (n <=? 90) || (97 <=? n) && (n <=? 122) || (n =? 95) ||
   (n =? 170) || (n =? 181) || (n =? 186) || (n =? 178) || (n =? 179) || (n =? 185) || (188 <=? n) && (n <=? 190) ||
   (192 <=? n) && negb (n =? 215) && negb (n =? 247))%N.
Inductive item := One (c : ascii) | Span (a b : ascii) | SpaceClass | DigitClass | AnyClass.
Definition between (a b c : ascii) : bool := ((N_of_ascii a <=? N_of_ascii c) && (N_of_ascii c <=? N_of_ascii b))%N.
Definition item_has (i : item) (c : ascii) : bool :=
  match i with
  | One d => Ascii.eqb c d
  | Span a b => between a b c
  | SpaceClass => is_space c
  | DigitClass => between "0" "9" c
  | AnyClass => negb (Ascii.eqb c (ascii_of_N 10))
  end.
(** The other case of a letter, for [(?i)]. *)
Definition swap_case (c : ascii) : ascii :=
  if between "a" "z" c then ascii_of_N (N_of_ascii c - 32) else if between "A" "Z" c then ascii_of_N (N_of_ascii c + 32) else c.
Definition set_has (icase : bool) (items : list item) (c : ascii) : bool :=
  existsb (λ i, item_has i c) items || icase && existsb (λ i, item_has i (swap_case c)) items.

Inductive regex :=
  | REps
  | RSet (icase : bool) (items : list item)
  | RBound
  | RSeq (a b : regex)
  | RAlt (a b : regex)
  | RStar (icase : bool) (items : list item).
Definition ROpt (r : regex) : regex := RAlt r REps.
Fixpoint rtimes (n : nat) (r : regex) : regex := match n with O => REps | S n => RSeq r (rtimes n r) end.
Fixpoint rupto (n : nat) (r : regex) : regex := match n with O => REps | S n => ROpt (RSeq r (rupto n r)) end.
Definition rstar (r : regex) : option regex := match r with RSet icase items => Some (RStar icase items) | _ => None end.

(** ** [re.compile] *)
Definition special : string := "?*+{}[]^$|()".
Definition escape (icase : bool) (c : ascii) : option regex :=
  if Ascii.eqb c "b" then Some RBound else if Ascii.eqb c "s" then Some (RSet icase [SpaceClass])
  else if Ascii.eqb c "d" then Some (RSet icase [DigitClass])
  else if word_char c then None else Some (RSet icase [One c]).
(** The members of a set, from after its opening bracket. *)
Fixpoint parse_set (fuel : nat) (s : string) (items : list item) : option (list item * string) :=
  match fuel with
  | O => None
  | S fuel =>
      match s with
      | String c r =>
          if Ascii.eqb c "]" then match items with [] => None | _ => Some (items, r) end
          else if Ascii.eqb c "^" then None
          else if Ascii.eqb c "\" then
            match r with
            | String e r => if Ascii.eqb e "s" then parse_set fuel r (items ++ [SpaceClass])
                            else if word_char e then None else parse_set fuel r (items ++ [One e])
            | EmptyString => None
            end
          else match r with
               | String d (String b r') =>
                   if Ascii.eqb d "-" && negb (Ascii.eqb b "]") then parse_set fuel r' (items ++ [Span c b])
                   else parse_set fuel r (items ++ [One c])
               | _ => parse_set fuel r (items ++ [One c])
               end
      | EmptyString => None
      end
  end.
Definition parse_atom (icase : bool) (s : string) : option (regex * string) :=
  match s with
  | String c r =>
      if Ascii.eqb c "." then Some (RSet icase [AnyClass], r)
      else if Ascii.eqb c "[" then match parse_set (S (String.length r)) r [] with Some (items, r) => Some (RSet icase items, r) | None => None end
      else if Ascii.eqb c "\" then
        match r with String e r => match escape icase e with Some a => Some (a, r) | None => None end | EmptyString => None end
      else if str_mem c special then None else Some (RSet icase [One c], r)
  | EmptyString => None
  end.
(** The numeral of a counted repetition. *)
Fixpoint numeral (s : string) (acc : option nat) : option nat * string :=
  match s with
  | String c r => if between "0" "9" c then numeral r (Some (10 * default 0 acc + N.to_nat (N_of_ascii c - 48)))%nat else (acc, s)
  | EmptyString => (acc, s)
  end.
Definition not_lazy (r : regex) (s : string) : option (regex * string) :=
  match s with String c _ => if str_mem c "?*+" then None else Some (r, s) | EmptyString => Some (r, s) end.
Definition quantify (a : regex) (s : string) : option (regex * string) :=
  match s with
  | String c r =>
      if Ascii.eqb c "?" then not_lazy (ROpt a) r
      else if Ascii.eqb c "*" then match rstar a with Some st => not_lazy st r | None => None end
      else if Ascii.eqb c "+" then match rstar a with Some st => not_lazy (RSeq a st) r | None => None end
      else if Ascii.eqb c "{" then
        match numeral r None with
        | (Some n, String d r) =>
            if Ascii.eqb d "}" then not_lazy (rtimes n a) r
            else if Ascii.eqb d "," then
              match numeral r None with
              | (Some m, String e r) => if Ascii.eqb e "}" then not_lazy (RSeq (rtimes n a) (rupto (m - n) a)) r else None
              | (None, String e r) =>
                  if Ascii.eqb e "}" then match rstar a with Some st => not_lazy (RSeq (rtimes n a) st) r | None => None end else None
              | _ => None
              end
            else None
        | _ => None
        end
      else Some (a, s)
  | EmptyString => Some (a, s)
  end.
Fixpoint parse_regex (fuel : nat) (icase : bool) (before : option regex) (seq : regex) (s : string) : option (regex * string) :=
  match fuel with
  | O => None
  | S fuel =>
      let so_far := match before with Some a => RAlt a seq | None => seq end in
      match s with
      | EmptyString => Some (so_far, s)
      | String c r =>
          if Ascii.eqb c ")" then Some (so_far, s)
          else if Ascii.eqb c "|" then parse_regex fuel icase (Some so_far) REps r
          else
            atom ← (if Ascii.eqb c "(" then
                      match parse_regex fuel icase None REps r with
                      | Some (g, String d r) => if Ascii.eqb d ")" then Some (g, r) else None
                      | _ => None
                      end
                    else parse_atom icase s);
            quantified ← quantify atom.1 atom.2;
            parse_regex fuel icase before (RSeq seq quantified.1) quantified.2
      end
  end.
Definition case_flag : string := "(?i)".
Definition re_compile (pattern : string) : option regex :=
  let icase := startswith pattern case_flag in
  let body := if icase then String.substring 4 (String.length pattern - 4) pattern else pattern in
  match parse_regex (S (String.length body)) icase None REps body with Some (r, EmptyString) => Some r | _ => None end.

(** ** [pattern.search]

    A position of the text is what is left of it and whether the character before it
    is one of a word; [ends] gives the positions where a match from here can end. *)
Definition head_word (s : string) : bool := match s with String c _ => word_char c | EmptyString => false end.
Fixpoint last_word (s : string) : bool :=
  match s with EmptyString => false | String c EmptyString => word_char c | String _ s => last_word s end.
Fixpoint star_ends (f : ascii → bool) (w : bool) (s : string) : list (bool * string) :=
  (w, s) :: match s with String c s => if f c then star_ends f (word_char c) s else [] | EmptyString => [] end.
Fixpoint ends (r : regex) (w : bool) (s : string) : list (bool * string) :=
  match r with
  | REps => [(w, s)]
  | RSet icase items => match s with String c s => if set_has icase items c then [(word_char c, s)] else [] | EmptyString => [] end
  | RBound => if xorb w (head_word s) then [(w, s)] else []
  | RSeq a b => flat_map (λ p, ends b p.1 p.2) (ends a w s)
  | RAlt a b => ends a w s ++ ends b w s
  | RStar icase items => star_ends (set_has icase items) w s
  end.
Fixpoint search_from (r : regex) (w : bool) (s : string) : bool :=
  match ends r w s with [] => false | _ => true end || match s with String c s => search_from r (word_char c) s | EmptyString => false end.
Definition search (r : regex) (s : string) : bool := search_from r false s.

(** ** What a pattern means *)
Inductive Matches : regex → string → string → string → Prop :=
  | MEps pre post : Matches REps pre "" post
  | MSet icase items c pre post : set_has icase items c = true → Matches (RSet icase items) pre (String c "") post
  | MBound pre post : xorb (last_word pre) (head_word post) = true → Matches RBound pre "" post
  | MSeq a b pre m n post : Matches a pre m (n +:+ post) → Matches b (pre +:+ m) n post → Matches (RSeq a b) pre (m +:+ n) post
  | MAltL a b pre m post : Matches a pre m post → Matches (RAlt a b) pre m post
  | MAltR a b pre m post : Matches b pre m post → Matches (RAlt a b) pre m post
  | MStar0 icase items pre post : Matches (RStar icase items) pre "" post
  | MStarS icase items c pre m post : set_has icase items c = true →
      Matches (RStar icase items) (pre +:+ String c "") m post → Matches (RStar icase items) pre (String c m) post.
#[export] Hint Constructors Matches : core.

Lemma last_word_app a b : last_word (a +:+ b) = if is_empty_str b then last_word a else last_word b.
Proof.
  destruct b as [|c b]; [by rewrite str_app_nil_r|]. induction a as [|d a IH]; [done|]. rewrite str_app_cons. cbn [last_word].
  destruct a as [|e a]; [done|]. rewrite str_app_cons in *. exact IH.
Qed.
Lemma head_word_app a b : head_word (a +:+ b) = if is_empty_str a then head_word b else head_word a.
Proof. by destruct a. Qed.

(** ** The search decides the meaning *)
Lemma star_ends_spec icase items w s w' t :
  (w', t) ∈ star_ends (set_has icase items) w s ↔ ∃ m, s = m +:+ t ∧ str_forallb (set_has icase items) m = true ∧ w' = (if is_empty_str m then w else last_word m).
Proof.
  revert w. induction s as [|c s IH]; intros w; cbn [star_ends].
  - rewrite list_elem_of_singleton. split; [by intros [= -> ->]; exists ""|]. intros (m & Hm & _ & ->). by destruct m, t.
  - rewrite elem_of_cons. split.
    + intros [[= -> ->]|H]; [by exists ""|]. destruct (set_has icase items c) eqn:Hc; [|by apply elem_of_nil in H].
      apply IH in H as (m & -> & Hm & ->). exists (String c m). cbn [str_forallb is_empty_str last_word]. rewrite Hc. split; [done|]. split; [done|]. by destruct m.
    + intros (m & Hm & Hall & ->). destruct m as [|d m]; [left; by rewrite Hm|right]. rewrite str_app_cons in Hm. injection Hm as -> ->.
      cbn [str_forallb] in Hall. apply andb_true_iff in Hall as [-> Hall]. apply IH. exists m. split; [done|]. split; [done|]. by destruct m.
Qed.
Lemma matches_star icase items pre m post : Matches (RStar icase items) pre m post ↔ str_forallb (set_has icase items) m = true.
Proof.
  revert pre. induction m as [|c m IH]; intros pre; [by split; auto|]. cbn [str_forallb]. rewrite andb_true_iff. split.
  - inversion 1; subst. split; [done|]. by eapply IH.
  - intros [Hc Hm]. constructor; [done|]. by apply IH.
Qed.
Lemma last_word_step pre m : last_word (pre +:+ m) = if is_empty_str m then last_word pre else last_word m.
Proof. apply last_word_app. Qed.
Lemma ends_spec r pre s w' t : (w', t) ∈ ends r (last_word pre) s ↔ ∃ m, s = m +:+ t ∧ w' = last_word (pre +:+ m) ∧ Matches r pre m t.
Proof.
  revert pre s w' t. induction r as [|icase items| |a IHa b IHb|a IHa b IHb|icase items]; intros pre s w' t; cbn [ends].
  - rewrite list_elem_of_singleton. split; [intros [= -> ->]; exists ""; by rewrite str_app_nil_r|].
    intros (m & -> & -> & H). inversion H; subst. by rewrite str_app_nil_r.
  - split.
    + destruct s as [|c s]; [by intros ?%elem_of_nil|]. destruct (set_has icase items c) eqn:Hc; [|by intros ?%elem_of_nil].
      intros [= -> ->]%list_elem_of_singleton. exists (String c ""). rewrite last_word_app. auto.
    + intros (m & -> & -> & H). inversion H as [|? ? ? ? ? Hc| | | | | |]; subst. rewrite last_word_app. cbn [is_empty_str last_word]. rewrite str_app_cons.
      rewrite Hc. by apply list_elem_of_singleton.
  - split.
    + destruct (xorb _ _) eqn:Hx; [|by intros ?%elem_of_nil]. intros [= -> ->]%list_elem_of_singleton. exists "". rewrite str_app_nil_r. auto.
    + intros (m & -> & -> & H). inversion H as [| | ? ? Hx| | | | |]; subst. rewrite str_app_nil_r. change ("" +:+ t) with t. rewrite Hx. by apply list_elem_of_singleton.
  - rewrite list_elem_of_In, in_flat_map. setoid_rewrite <- list_elem_of_In. split.
    + intros ([w1 s1] & H1 & H2). apply IHa in H1 as (m & -> & -> & Hm). cbn [fst snd] in H2. apply IHb in H2 as (n & -> & -> & Hn).
      exists (m +:+ n). rewrite !str_app_assoc. split; [done|]. split; [by rewrite <- str_app_assoc|]. by constructor.
    + intros (m & -> & -> & H). inversion H as [| | |? ? ? m1 n ? Hm Hn| | | |]; subst. exists (last_word (pre +:+ m1), n +:+ t).
      split; [apply IHa; exists m1; by rewrite str_app_assoc|]. cbn [fst snd]. apply IHb. exists n. by rewrite <- !str_app_assoc.
  - rewrite elem_of_app, IHa, IHb. split.
    + intros [(m & ? & ? & ?)|(m & ? & ? & ?)]; exists m; auto.
    + intros (m & ? & ? & H). inversion H; subst; [left|right]; by exists m.
  - rewrite star_ends_spec. setoid_rewrite matches_star. setoid_rewrite last_word_app. by split; intros (m & ? & ? & ?); exists m.
Qed.
Lemma ends_nonempty r pre s : (match ends r (last_word pre) s with [] => false | _ => true end) = true ↔ ∃ m post, s = m +:+ post ∧ Matches r pre m post.
Proof.
  split.
  - destruct (ends r (last_word pre) s) as [|[w t] es] eqn:He; [done|]. intros _.
    assert ((w, t) ∈ ends r (last_word pre) s) as Hin by (rewrite He; left). apply ends_spec in Hin as (m & Hm & _ & Hmt). by exists m, t.
  - intros (m & post & Hs & Hm). assert ((last_word (pre +:+ m), post) ∈ ends r (last_word pre) s) as Hin by (apply ends_spec; by exists m).
    by destruct (ends _ _ _); [apply elem_of_nil in Hin|].
Qed.
Lemma search_from_exact r pre s : search_from r (last_word pre) s = true ↔ ∃ before m post, s = before +:+ m +:+ post ∧ Matches r (pre +:+ before) m post.
Proof.
  revert pre. induction s as [|c s IH]; intros pre; cbn [search_from]; rewrite orb_true_iff, ends_nonempty.
  - split.
    + intros [(m & post & ? & ?)|]; [|done]. exists "", m, post. by rewrite str_app_nil_r.
    + intros (before & m & post & Hs & Hm). left. destruct before; [|done]. rewrite str_app_nil_r in Hm. by exists m, post.
  - specialize (IH (pre +:+ String c "")). rewrite last_word_app in IH. cbn [is_empty_str last_word] in IH. rewrite IH. split.
    + intros [(m & post & ? & ?)|(before & m & post & -> & Hm)]; [exists "", m, post; by rewrite str_app_nil_r|].
      exists (String c before), m, post. by rewrite str_app_assoc in Hm.
    + intros ([|d before] & m & post & Hs & Hm); [left; rewrite str_app_nil_r in Hm; by exists m, post|right].
      rewrite str_app_cons in Hs. injection Hs as -> ->. exists before, m, post. by rewrite str_app_assoc.
Qed.
(** [re.search] finds a match exactly when some piece of the text, in its context, is
    one. *)
Lemma search_exact r s : search r s = true ↔ ∃ before m post, s = before +:+ m +:+ post ∧ Matches r before m post.
Proof. exact (search_from_exact r "" s). Qed.

(** ** Context *)
(** A match stays one when its context grows, as long as no word is continued. *)
Lemma matches_context r pre m post a b : Matches r pre m post → last_word a = false → head_word b = false → Matches r (a +:+ pre) m (post +:+ b).
Proof.
  intros H Ha Hb. induction H as [| |pre post Hx|r1 r2 pre m n post _ IH1 _ IH2| | | |? ? ? ? ? ? ? _ IH]; auto.
  - constructor. rewrite last_word_app, head_word_app. by destruct pre, post; rewrite ?Ha, ?Hb in *.
  - constructor; [by rewrite <- str_app_assoc|by rewrite str_app_assoc].
  - constructor; [done|]. by rewrite str_app_assoc.
Qed.
Lemma search_context r s a b : search r s = true → last_word a = false → head_word b = false → search r (a +:+ s +:+ b) = true.
Proof.
  rewrite !search_exact. intros (before & m & post & -> & H) Ha Hb. exists (a +:+ before), m, (post +:+ b).
  split; [by rewrite !str_app_assoc|]. by apply matches_context.
Qed.

(** ** Examples *)
Definition found (pattern s : string) : bool := match re_compile pattern with Some r => search r s | None => false end.
