(* ===== verification/JsonLines.v ===== *)
(** * Files of lines of printable text

    The journals append one line of ASCII JSON per record, and a killed writer leaves
    at most an incomplete last line.  Shared by the control and activity journals. *)
From S2P Require Import Prelude PyDict PyFloat Canonical Json Models Store.
From Stdlib Require Import Ascii.

(** [bytes.decode()] of UTF-8, for code points below 256. *)
Fixpoint utf8_decode (s : string) : option string :=
  match s with
  | EmptyString => Some ""
  | String a r =>
      let n := N_of_ascii a in
      if (n <? 128)%N then String a <$> utf8_decode r
      else if ((n =? 194) || (n =? 195))%N then
        match r with
        | String b r' =>
            let m := N_of_ascii b in
            if ((128 <=? m) && (m <? 192))%N
            then String (ascii_of_N ((n - 192) * 64 + (m - 128))) <$> utf8_decode r' else None
        | EmptyString => None
        end
      else None
  end.
(** [bytes.splitlines()]: the line ends are dropped. *)
Fixpoint strip_eol (s : string) : string :=
  match s with
  | EmptyString => ""
  | String c s' => if Ascii.eqb c nl || Ascii.eqb c cr then "" else String c (strip_eol s')
  end.
Definition lines_of (s : string) : list string := strip_eol <$> splitlines s.

Lemma utf8_printable s : str_forallb printable s = true → utf8_encode s = s ∧ utf8_decode s = Some s.
Proof.
  induction s as [|c s IH]; [done|]. cbn [str_forallb]. intros [Hc Hs]%andb_prop. destruct (IH Hs) as [He Hd].
  assert (N_of_ascii c <? 128 = true)%N as Hlt.
  { apply N.ltb_lt. unfold printable in Hc. apply andb_prop in Hc as [_ Hc%N.leb_le]. lia. }
  cbn [utf8_encode utf8_decode]. rewrite Hlt, He, Hd. done.
Qed.
Lemma utf8_encode_app s t : utf8_encode (s +:+ t) = utf8_encode s +:+ utf8_encode t.
Proof.
  induction s as [|c s IH]; [done|]. rewrite str_app_cons. cbn [utf8_encode]. rewrite IH.
  destruct (N_of_ascii c <? 128)%N; done.
Qed.
Lemma printable_no_eol s : str_forallb printable s = true → no_eol s = true.
Proof. apply str_forallb_weaken. intros c. destruct c as [[] [] [] [] [] [] [] []]; vm_compute; done. Qed.
Lemma strip_eol_line s t : no_eol s = true → strip_eol (s +:+ String nl t) = s.
Proof.
  unfold no_eol. induction s as [|c s IH]; simpl; [done|]. intros [[Hn Hr]%andb_prop Hs]%andb_prop.
  apply negb_true_iff in Hn, Hr. rewrite Hn, Hr. simpl. f_equal. by apply IH.
Qed.

(** ** The text of a list of lines *)
Definition line_nl (s : string) : string := s +:+ String nl "".
Fixpoint lines_text (ls : list string) : string :=
  match ls with [] => "" | l :: ls => line_nl l +:+ lines_text ls end.
Definition one_line (s : string) : Prop := no_eol s = true.

Lemma lines_text_app ls ls' : lines_text (ls ++ ls') = lines_text ls +:+ lines_text ls'.
Proof. induction ls as [|l ls IH]; simpl; [done|]. by rewrite IH, str_app_assoc. Qed.
Lemma line_nl_ends l : ends_nl (line_nl l) = true.
Proof. unfold line_nl. by rewrite ends_nl_app. Qed.
Lemma lines_text_ends ls : lines_text ls = "" ∨ ends_nl (lines_text ls) = true.
Proof.
  induction ls as [|l ls IH]; simpl; [by left|]. right.
  destruct IH as [->|IH]; [by rewrite str_app_nil_r, line_nl_ends|].
  rewrite ends_nl_app; [done|]. intros H. by rewrite H in IH.
Qed.
Lemma splitlines_lines_text ls : Forall one_line ls → splitlines (lines_text ls) = line_nl <$> ls.
Proof.
  induction 1 as [|l ls Hl _ IH]; [done|]. cbn [lines_text]. unfold line_nl. rewrite str_app_assoc, str_app_cons.
  unfold splitlines. rewrite splitlines_from_line by done. rewrite fmap_cons. f_equal. exact IH.
Qed.
Lemma lines_of_lines_text ls : Forall one_line ls → lines_of (lines_text ls) = ls.
Proof.
  intros H. unfold lines_of. rewrite splitlines_lines_text by done.
  induction H as [|l ls Hl _ IH]; [done|]. rewrite !fmap_cons, IH. unfold line_nl. by rewrite strip_eol_line.
Qed.
Lemma complete_lines_text ls tail : no_eol tail = true → complete_prefix (lines_text ls +:+ tail) = lines_text ls.
Proof. intros Ht. apply complete_prefix_app; [done|apply lines_text_ends]. Qed.
Lemma recover_lines_text ls tail (raw := lines_text ls +:+ tail) : no_eol tail = true →
  (if is_empty_str raw || ends_nl raw then raw else complete_prefix raw) = lines_text ls.
Proof.
  subst raw. intros Ht. destruct (decide (tail = "")) as [->|Hne].
  - rewrite str_app_nil_r. destruct (lines_text_ends ls) as [-> | ->]; [done|]. by rewrite orb_true_r.
  - rewrite ends_nl_app, (ends_nl_no_eol tail), complete_lines_text by done.
    destruct (lines_text ls +:+ tail) eqn:Hc; [|done]. by destruct (lines_text ls), tail.
Qed.
Lemma utf8_decode_line s : str_forallb printable s = true → utf8_decode (line_nl s) = Some (line_nl s).
Proof.
  unfold line_nl. induction s as [|c s IH]; [done|]. intros Hp. pose proof Hp as [_ Hs]%andb_prop. rewrite str_app_cons.
  destruct (utf8_printable _ Hp) as [He _]. cbn [utf8_encode utf8_decode] in *.
  destruct (N_of_ascii c <? 128)%N; [by rewrite IH|]. exfalso. apply (f_equal String.length) in He.
  simpl in He. rewrite (proj1 (utf8_printable s Hs)) in He. lia.
Qed.
Lemma json_loads_line {PF : Platform} {FT : FloatText} spaced j : json_wf j →
  json_loads (line_nl (dumps_ascii spaced j)) = Some j.
Proof.
  intros Hwf. unfold json_loads, line_nl. rewrite (parse_dumps spaced j Hwf); [done| |by apply stops_char].
  pose proof (need_length spaced j). rewrite str_length_app. simpl. lia.
Qed.
(** A writer killed before the end of the line leaves an incomplete one. *)
Lemma torn_line s k : one_line s → (k < String.length (line_nl s))%nat → no_eol (String.substring 0 k (line_nl s)) = true.
Proof.
  unfold one_line, line_nl, no_eol. revert k. induction s as [|c s IH]; intros k Hs Hk.
  - destruct k as [|k]; [done|]. simpl in Hk. lia.
  - rewrite str_app_cons in *. destruct k as [|k]; [done|]. simpl in *. apply andb_prop in Hs as [Hc Hs].
    rewrite Hc. apply IH; [done|lia].
Qed.

(** ** A file of lines that is never repaired

    Its lines are [ts]; the newline of the last one may be missing. *)
Definition holds_lines (raw : option string) (ts : list string) : Prop :=
  default "" raw = lines_text ts ∨ ∃ ts' t, ts = ts' ++ [t] ∧ default "" raw = lines_text ts' +:+ t.
Lemma lines_of_tail ts t : Forall one_line ts → one_line t → t ≠ "" → lines_of (lines_text ts +:+ t) = ts ++ [t].
Proof.
  intros Hts Ht Hne. unfold lines_of. induction Hts as [|l ls Hl _ IH].
  - cbn [lines_text]. change ("" +:+ t) with t. unfold splitlines. rewrite splitlines_from_tail by done.
    change (String.rev "" +:+ t) with t. rewrite decide_False by done. cbn. unfold one_line, no_eol in Ht. f_equal.
    clear Hne. induction t as [|c t IHt]; [done|]. cbn [str_forallb] in Ht. apply andb_prop in Ht as [Hc Ht]. cbn [strip_eol].
    apply andb_prop in Hc as [Hn Hr]. apply negb_true_iff in Hn, Hr. rewrite Hn, Hr. simpl. f_equal. by apply IHt.
  - cbn [lines_text]. unfold line_nl. rewrite !str_app_assoc, str_app_cons. unfold splitlines in *. rewrite splitlines_from_line by done.
    rewrite fmap_cons, <- app_comm_cons. f_equal; [|exact IH]. change (String.rev "" +:+ ?x) with x. by apply strip_eol_line.
Qed.
Lemma holds_lines_of raw ts : Forall one_line ts → Forall (λ t, t ≠ "") ts → holds_lines raw ts → lines_of (default "" raw) = ts.
Proof.
  intros Hts Hne [->|(ts' & t & -> & ->)]; [by apply lines_of_lines_text|]. apply Forall_app in Hts as [Hts' [Ht _]%Forall_cons_1].
  apply Forall_app in Hne as [_ [Hn _]%Forall_cons_1]. by apply lines_of_tail.
Qed.
Lemma substring_line t k : String.substring 0 k (line_nl t) =
  if (k <=? String.length t)%nat then String.substring 0 k t else line_nl t.
Proof.
  unfold line_nl. revert k. induction t as [|c t IH]; intros k.
  - destruct k as [|[|k]]; reflexivity.
  - rewrite str_app_cons. destruct k as [|k]; [done|]. simpl. rewrite IH. by destruct (k <=? _)%nat.
Qed.
Lemma substring_whole t : String.substring 0 (String.length t) t = t.
Proof. induction t as [|c t IH]; [done|]. simpl. by rewrite IH. Qed.
Lemma substring_one_line t k : one_line t → one_line (String.substring 0 k t).
Proof.
  unfold one_line, no_eol. revert k. induction t as [|c t IH]; intros [|k] H; try done. cbn [str_forallb String.substring] in *.
  apply andb_prop in H as [Hc Ht]. rewrite Hc. simpl. by apply IH.
Qed.
Lemma substring_nonempty t k : t ≠ "" → (0 < k)%nat → String.substring 0 k t ≠ "".
Proof. destruct t, k; simpl; try done; lia. Qed.

(** Appending the first [k] bytes of a line: nothing or the whole line was added, or the
    last line of the file is now a piece of the new one, or an old one run into it. *)
Lemma append_line_cases raw ts t k : Forall one_line ts → Forall (λ t, t ≠ "") ts → one_line t → t ≠ "" → holds_lines raw ts →
  let raw' := Some (default "" raw +:+ String.substring 0 k (line_nl t)) in
  (k = 0%nat ∧ default "" raw' = default "" raw) ∨
  ((String.length t <= k)%nat ∧ default "" raw = lines_text ts ∧ holds_lines raw' (ts ++ [t])
    ∧ ((String.length t < k)%nat → default "" raw' = lines_text (ts ++ [t]))) ∨
  (∃ ts0 bad, lines_of (default "" raw') = ts0 ++ [bad] ∧
    ((∃ i, (0 < i < String.length t)%nat ∧ bad = String.substring 0 i t) ∨
     (∃ old i, old ∈ ts ∧ (0 < i)%nat ∧ bad = old +:+ String.substring 0 i t))).
Proof.
  intros Hts Hne Ht Htn Hraw. destruct (decide (k = 0%nat)) as [->|Hk].
  { left. split; [done|]. rewrite substring_line. simpl. destruct t; apply str_app_nil_r. }
  right. rewrite substring_line. cbn [default from_option id]. destruct Hraw as [Hclean|(ts' & old & -> & Hold)].
  - destruct (decide (k < String.length t)%nat) as [Hlt|Hge].
    + right. rewrite (proj2 (Nat.leb_le k _)) by lia. exists ts, (String.substring 0 k t). rewrite Hclean.
      split; [apply lines_of_tail; [done|by apply substring_one_line|apply substring_nonempty; [done|lia]]|]. left. exists k. split; [lia|done].
    + left. split; [lia|]. split; [done|]. destruct (Nat.leb_spec k (String.length t)).
      * replace k with (String.length t) by lia. rewrite substring_whole, Hclean. split; [|lia]. right. by exists ts, t.
      * rewrite Hclean, lines_text_app. cbn [lines_text]. rewrite str_app_nil_r. split; [|done]. left. simpl. rewrite lines_text_app. simpl. by rewrite str_app_nil_r.
  - right. apply Forall_app in Hts as [Hts' [Hold1 _]%Forall_cons_1]. apply Forall_app in Hne as [_ [Holdn _]%Forall_cons_1].
    exists ts', (old +:+ String.substring 0 k t). rewrite Hold, str_app_assoc. split.
    + assert (one_line (old +:+ String.substring 0 k t)) as Hone.
      { unfold one_line, no_eol. rewrite str_forallb_app. apply andb_true_intro. split; [exact Hold1|by apply substring_one_line]. }
      assert (old +:+ String.substring 0 k t ≠ "") as Hnn by (by destruct old).
      destruct (Nat.leb_spec k (String.length t)); [by apply lines_of_tail|].
      assert (String.substring 0 k t = t) as Hall by (clear - H; revert k H; induction t as [|c t IH]; intros [|k] H; try done; simpl in *; [lia|]; f_equal; apply IH; lia).
      rewrite Hall in *. unfold line_nl. rewrite <- (str_app_assoc old t).
      change (lines_of (lines_text ts' +:+ line_nl (old +:+ t)) = ts' ++ [old +:+ t]).
      assert (lines_text ts' +:+ line_nl (old +:+ t) = lines_text (ts' ++ [old +:+ t])) as ->.
      { rewrite lines_text_app. simpl. by rewrite str_app_nil_r. }
      apply lines_of_lines_text. apply Forall_app. split; [done|]. by constructor.
    + right. exists old, k. split; [apply elem_of_app; right; by apply list_elem_of_singleton|]. split; [lia|done].
Qed.
