(* ===== verification/Control.v ===== *)
(** * Control commands and receipts ([control.py])

    The documents of the control plane, the payload rules, the redaction of
    credential-shaped text, and the five methods of [ControlJournal], written once
    against [RowStore], the rows of the journal as [_append_unlocked],
    [_read_unlocked] and [_recover_tail_unlocked] see them.  [ControlFile] gives the
    JSON-lines file, [ControlRefinement] the mailbox it refines.  Every method holds the
    journal's lock from its first read to its last write, so a method is one step. *)
From S2P Require Import Prelude PyDict PyFloat Canonical Json.
From stdpp Require Import pretty.
From Stdlib Require Import Ascii.
Local Open Scope Z_scope.

Definition value_error (b : bool) (msg : string) : result unit := err_if b ValueError msg.

(** ** Enumerations *)
Module TargetKind.
Inductive t := SESSION | RUN | AGENT | JOB.
#[export] Instance eq_dec : EqDecision t.
Proof. solve_decision. Defined.
Definition value (k : t) : string :=
  match k with SESSION => "session" | RUN => "run" | AGENT => "agent" | JOB => "job" end.
Definition all : list t := [SESSION; RUN; AGENT; JOB].
End TargetKind.
Export (hints) TargetKind.

Module Action.
Inductive t := MESSAGE | NEEDS_INPUT_RESPONSE | CANCEL | PAUSE | RESUME | RETRY.
#[export] Instance eq_dec : EqDecision t.
Proof. solve_decision. Defined.
Definition value (a : t) : string :=
  match a with
  | MESSAGE => "message" | NEEDS_INPUT_RESPONSE => "needs_input_response" | CANCEL => "cancel"
  | PAUSE => "pause" | RESUME => "resume" | RETRY => "retry"
  end.
Definition all : list t := [MESSAGE; NEEDS_INPUT_RESPONSE; CANCEL; PAUSE; RESUME; RETRY].
End Action.
Export (hints) Action.

Module Status.
Inductive t := QUEUED | APPLYING | APPLIED | REJECTED | UNSUPPORTED | CONFLICT | EXPIRED.
#[export] Instance eq_dec : EqDecision t.
Proof. solve_decision. Defined.
Definition value (s : t) : string :=
  match s with
  | QUEUED => "queued" | APPLYING => "applying" | APPLIED => "applied" | REJECTED => "rejected"
  | UNSUPPORTED => "unsupported" | CONFLICT => "conflict" | EXPIRED => "expired"
  end.
Definition all : list t := [QUEUED; APPLYING; APPLIED; REJECTED; UNSUPPORTED; CONFLICT; EXPIRED].
End Status.
Export (hints) Status.

Definition TERMINAL_CONTROL_STATUSES : list Status.t :=
  [Status.APPLIED; Status.REJECTED; Status.UNSUPPORTED; Status.CONFLICT; Status.EXPIRED].
(** [E(text)] for an enumeration *)
Definition enum_of {A} (all : list A) (value : A → string) (text : string) : option A :=
  find_first (λ a, bool_decide (value a = text)) all.

(** ** Identifiers and credential-shaped text *)
(** [[A-Za-z0-9._:@+-]{1,n}\Z] *)
Definition safe_id_char (c : ascii) : bool :=
  let n := N_of_ascii c in
  ((65 <=? n) && (n <=? 90) || (97 <=? n) && (n <=? 122) || (48 <=? n) && (n <=? 58)
   || (n =? 46) || (n =? 95) || (n =? 64) || (n =? 43) || (n =? 45))%N.
Definition safe_id (limit : nat) (s : string) : bool :=
  negb (is_empty_str s) && (String.length s <=? limit)%nat && str_forallb safe_id_char s.
Definition _SAFE_ID : string → bool := safe_id 200.
Definition _IDEMPOTENCY : string → bool := safe_id 128.

(** The rest of [s] after the lower-case word [w], cases ignored. *)
Definition lower_char (c : ascii) : ascii :=
  let n := N_of_ascii c in if ((65 <=? n) && (n <=? 90))%N then ascii_of_N (n + 32) else c.
Fixpoint match_ci (w s : string) : option string :=
  match w, s with
  | EmptyString, _ => Some s
  | String a w, String c s => if Ascii.eqb (lower_char c) a then match_ci w s else None
  | _, EmptyString => None
  end.
Definition is_sep (c : ascii) : bool := let n := N_of_ascii c in ((n =? 95) || (n =? 45))%N.

(** [_SECRET_KEY.search]: a credential word between separators or ends. *)
Definition secret_words : list string :=
  ["authorization"; "cookie"; "credential"; "password"; "secret"; "token"] ++
  concat (map (λ p, [p +:+ "token"; p +:+ "_token"; p +:+ "-token"])
            ["access"; "refresh"; "session"; "bearer"; "auth"]) ++
  ["apikey"; "api_key"; "api-key"].
Definition word_end (r : string) : bool :=
  match r with
  | EmptyString => true
  | String c r' => is_sep c || ((N_of_ascii c =? 10)%N && is_empty_str r')
  end.
Definition secret_word_at (s : string) : bool :=
  existsb (λ w, match match_ci w s with Some r => word_end r | None => false end) secret_words.
Fixpoint secret_after_sep (s : string) : bool :=
  match s with
  | EmptyString => false
  | String c s => is_sep c && secret_word_at s || secret_after_sep s
  end.
Definition _SECRET_KEY (s : string) : bool := secret_word_at s || secret_after_sep s.

(** One match of [_SECRET_VALUE] at the start of [s]: the text after it. *)
Definition value_char (c : ascii) : bool :=
  let n := N_of_ascii c in negb (is_space c || (n =? 44)%N || (n =? 59)%N || (n =? 34)%N || (n =? 39)%N).
Definition after_value (s : string) : option string :=
  let '(v, rest) := span value_char s in if is_empty_str v then None else Some rest.
Definition after_assignment (s : string) : option string :=
  match lstrip s with
  | String c r => if ((N_of_ascii c =? 58) || (N_of_ascii c =? 61))%N then after_value (lstrip r) else None
  | EmptyString => None
  end.
Definition match_secret_value (s : string) : option string :=
  match match_ci "bearer" s with
  | Some (String c r) => if is_space c then after_value (lstrip r) else None
  | Some EmptyString => None
  | None =>
      match find_first (λ w, bool_decide (is_Some (match_ci w s))) ["apikey"; "api_key"; "api-key"; "token"] with
      | Some w => match_ci w s ≫= after_assignment
      | None => None
      end
  end.
(** [_SECRET_VALUE.sub("[redacted]", s)], [fuel] being the length of [s]. *)
Fixpoint redact (fuel : nat) (s : string) : string :=
  match fuel, s with
  | S fuel, String c s' =>
      match match_secret_value s with
      | Some rest => "[redacted]" +:+ redact fuel rest
      | None => String c (redact fuel s')
      end
  | _, _ => ""
  end.
Fixpoint drop_nul (s : string) : string :=
  match s with
  | EmptyString => ""
  | String c s => if (N_of_ascii c =? 0)%N then drop_nul s else String c (drop_nul s)
  end.
Definition _safe_detail (value : string) : string :=
  let s := drop_nul value in String.substring 0 1024 (redact (String.length s) s).

(** ** Payloads *)
Definition has_nul (s : string) : bool := str_mem (ascii_of_N 0) s.
Fixpoint validate_value (value : json) (depth : nat) : result json :=
  value_error (4 <? depth)%nat "control payload nesting is too deep" ;;
  match value with
  | JStr s =>
      value_error (has_nul s || (4096 <? String.length s)%nat) "control payload string is invalid or too long" ;;
      mret value
  | JArr xs =>
      value_error (64 <? length xs)%nat "control payload list is too long" ;;
      ys ← (fix go (xs : list json) : result (list json) :=
              match xs with
              | [] => Ok []
              | x :: xs => y ← validate_value x (S depth); ys ← go xs; Ok (y :: ys)
              end) xs;
      mret (JArr ys)
  | JObj ms =>
      value_error (64 <? length ms)%nat "control payload object has too many keys" ;;
      ns ← (fix go (ms : list (string * json)) : result (list (string * json)) :=
              match ms with
              | [] => Ok []
              | (k, x) :: ms =>
                  value_error (is_empty_str k || (100 <? String.length k)%nat) "control payload key is invalid" ;;
                  value_error (_SECRET_KEY k) "credential-bearing control payload keys are forbidden" ;;
                  y ← validate_value x (S depth); ns ← go ms; Ok ((k, y) :: ns)
              end) ms;
      mret (object_of ns)
  | _ => mret value
  end.

Section control.
Context {PF : Platform}.

(** [json.dumps(value, sort_keys=True, separators=(",", ":")).encode()] *)
Definition sorted_bytes (value : json) : string := utf8_encode (dumps_ascii false (sort_keys value)).
Definition sorted_digest (value : json) : string := "sha256:" +:+ sha256_hex (sorted_bytes value).

(** [json.dumps] prints no integer of more than 4300 digits. *)
Fixpoint dumpable (value : json) : bool :=
  match value with
  | JInt z => (N.of_nat (String.length (pretty (Z.abs z))) <=? 4300)%N
  | JArr xs => forallb dumpable xs
  | JObj ms => forallb (λ m, dumpable m.2) ms
  | _ => true
  end.
Definition _payload (payload : list (string * json)) : result (list (string * json) * string) :=
  bounded ← validate_value (JObj payload) 0;
  match bounded with
  | JObj ms =>
      value_error (negb (dumpable bounded)) "Exceeds the limit (4300 digits) for integer string conversion" ;;
      value_error (8192 <? String.length (sorted_bytes bounded))%nat "control payload is too large" ;;
      mret (ms, sorted_digest bounded)
  | _ => Err (Exn ValueError "control payload must be an object")
  end.

(** ** Commands and receipts *)
Record ControlCommand := {
  cc_schema_version : Z; cc_command_id : string; cc_idempotency_key : string; cc_actor : string;
  cc_target_kind : TargetKind.t; cc_target_id : string; cc_action : Action.t;
  cc_expected_state : string; cc_payload : list (string * json); cc_payload_digest : string;
  cc_submitted_at : float; cc_expires_at : float }.
Definition validate_ControlCommand (c : ControlCommand) : result ControlCommand :=
  value_error (negb (bool_decide (cc_schema_version c = 1))) "unsupported control schema_version" ;;
  check_each [("command_id", cc_command_id c); ("actor", cc_actor c); ("target_id", cc_target_id c)]
    (λ nv, value_error (negb (_SAFE_ID nv.2)) ("invalid control " +:+ nv.1)) ;;
  value_error (negb (_IDEMPOTENCY (cc_idempotency_key c))) "invalid control idempotency_key" ;;
  value_error (negb (is_empty_str (cc_expected_state c)) && negb (_SAFE_ID (cc_expected_state c)))
    "invalid control expected_state" ;;
  value_error (negb (is_digest (cc_payload_digest c))) "invalid control payload_digest" ;;
  value_error (negb (bool_decide (cc_payload_digest c = sorted_digest (JObj (cc_payload c)))))
    "control payload_digest does not match payload" ;;
  value_error ((cc_submitted_at c <=? 0) || (cc_expires_at c <=? cc_submitted_at c))
    "control expiry must be after submission" ;;
  mret c.

Record ControlReceipt := {
  cr_schema_version : Z; cr_command_id : string; cr_receipt_id : string; cr_status : Status.t;
  cr_recorded_at : float; cr_controller : string; cr_detail : string; cr_activity_cursor : option Z }.
Definition validate_ControlReceipt (r : ControlReceipt) : result ControlReceipt :=
  value_error (negb (bool_decide (cr_schema_version r = 1))) "unsupported receipt schema_version" ;;
  check_each [("command_id", cr_command_id r); ("receipt_id", cr_receipt_id r); ("controller", cr_controller r)]
    (λ nv, value_error (negb (_SAFE_ID nv.2)) ("invalid receipt " +:+ nv.1)) ;;
  value_error (cr_recorded_at r <=? 0) "receipt recorded_at must be positive" ;;
  value_error (1024 <? String.length (cr_detail r))%nat "receipt detail is too long" ;;
  value_error (negb (bool_decide (cr_detail r = _safe_detail (cr_detail r))))
    "receipt detail contains unsafe credential-shaped text" ;;
  value_error (match cr_activity_cursor r with Some n => n <? 1 | None => false end)
    "receipt activity_cursor must be positive" ;;
  mret r.

Inductive Row := CommandRow (c : ControlCommand) | ReceiptRow (r : ControlReceipt).

(** ** The journal *)
(** What [_append_unlocked], [_read_unlocked] and [_recover_tail_unlocked] do. *)
Class RowStore (S : Type) := {
  recover_tail : prog S unit;
  read_rows : prog S (list ControlCommand * list ControlReceipt);
  append_row : Row → prog S unit;
}.

(** The results of [secrets.token_hex(16)], by call: no token repeats. *)
Class Tokens := {
  token_hex : nat → string;
  token_hex_inj :: Inj (=) (=) token_hex;
}.
Context {TK : Tokens} (clock : nat → float).

Record Journal (S : Type) := { jn_rows : S; jn_ticks : nat; jn_tokens : nat }.
Arguments jn_rows {S} _.
Arguments jn_ticks {S} _.
Arguments jn_tokens {S} _.

Section methods.
Context {S : Type} `{RowStore S}.

Definition on_rows {A} (m : prog S A) : prog (Journal S) A := λ j,
  let '(s, r) := m (jn_rows j) in ({| jn_rows := s; jn_ticks := jn_ticks j; jn_tokens := jn_tokens j |}, r).
(** [float(self.clock())] *)
Definition now : prog (Journal S) float := λ j,
  ({| jn_rows := jn_rows j; jn_ticks := Datatypes.S (jn_ticks j); jn_tokens := jn_tokens j |}, Ok (clock (jn_ticks j))).
Definition fresh : prog (Journal S) string := λ j,
  ({| jn_rows := jn_rows j; jn_ticks := jn_ticks j; jn_tokens := Datatypes.S (jn_tokens j) |},
   Ok (token_hex (jn_tokens j))).

Definition _latest (command_id : string) (receipts : list ControlReceipt) : result ControlReceipt :=
  match last (List.filter (λ r, bool_decide (cr_command_id r = command_id)) receipts) with
  | Some r => Ok r
  | None => Err (Exn ControlCorruptionError "control command has no receipt")
  end.

(** A receipt under construction, with a fresh identifier. *)
Definition new_receipt (command_id : string) (status : Status.t) (recorded_at : float) (controller detail : string)
    (activity_cursor : option Z) : prog (Journal S) ControlReceipt :=
  token ← fresh;
  lift (validate_ControlReceipt {|
    cr_schema_version := 1; cr_command_id := command_id; cr_receipt_id := "receipt-" +:+ token;
    cr_status := status; cr_recorded_at := recorded_at; cr_controller := controller;
    cr_detail := detail; cr_activity_cursor := activity_cursor |}).

(** What a caller hands to [submit]. *)
Record Submission := {
  sb_actor : string; sb_idempotency_key : string; sb_target_kind : TargetKind.t; sb_target_id : string;
  sb_action : Action.t; sb_payload : list (string * json); sb_expected_state : string; sb_ttl_s : float }.
(** The test an existing command of the same actor and key must pass. *)
Definition same_content (b : Submission) (digest : string) (c : ControlCommand) : bool :=
  bool_decide (cc_target_kind c = sb_target_kind b) && bool_decide (cc_target_id c = sb_target_id b)
  && bool_decide (cc_action c = sb_action b) && bool_decide (cc_expected_state c = sb_expected_state b)
  && bool_decide (cc_payload_digest c = digest).

Definition submit (b : Submission) : prog (Journal S) (ControlCommand * ControlReceipt * bool) :=
  raise_if (negb ((f_of_Z 1 <=? sb_ttl_s b) && (sb_ttl_s b <=? f_of_Z 3600))) ValueError
    "control ttl_s must be between 1 and 3600" ;;
  checked ← lift (_payload (sb_payload b));
  let '(bounded, digest) := checked in
  on_rows recover_tail ;;
  rows ← on_rows read_rows;
  let '(commands, receipts) := rows in
  match find_first (λ c, bool_decide (cc_actor c = sb_actor b)
                         && bool_decide (cc_idempotency_key c = sb_idempotency_key b)) commands with
  | Some existing =>
      raise_if (negb (same_content b digest existing)) ControlConflictError
        "control idempotency key was reused with different content" ;;
      latest ← lift (_latest (cc_command_id existing) receipts);
      mret (existing, latest, true)
  | None =>
      now ← now;
      token ← fresh;
      command ← lift (validate_ControlCommand {|
        cc_schema_version := 1; cc_command_id := "cmd-" +:+ token;
        cc_idempotency_key := sb_idempotency_key b; cc_actor := sb_actor b;
        cc_target_kind := sb_target_kind b; cc_target_id := sb_target_id b; cc_action := sb_action b;
        cc_expected_state := sb_expected_state b; cc_payload := bounded; cc_payload_digest := digest;
        cc_submitted_at := now; cc_expires_at := fadd now (sb_ttl_s b) |});
      receipt ← new_receipt (cc_command_id command) Status.QUEUED now "skcode-hostd" "" None;
      on_rows (append_row (CommandRow command)) ;;
      on_rows (append_row (ReceiptRow receipt)) ;;
      mret (command, receipt, false)
  end.

(** [allowed[latest.status]] in [record] *)
Definition record_allowed (s : Status.t) : list Status.t :=
  match s with
  | Status.QUEUED => [Status.QUEUED; Status.APPLYING] ++ TERMINAL_CONTROL_STATUSES
  | Status.APPLYING => [Status.APPLYING] ++ TERMINAL_CONTROL_STATUSES
  | _ => []
  end.
Definition record (command_id : string) (status : Status.t) (controller detail : string)
    (activity_cursor : option Z) : prog (Journal S) ControlReceipt :=
  on_rows recover_tail ;;
  rows ← on_rows read_rows;
  let '(commands, receipts) := rows in
  raise_if (negb (existsb (λ c, bool_decide (cc_command_id c = command_id)) commands)) KeyError
    "unknown control command" ;;
  latest ← lift (_latest command_id receipts);
  if bool_decide (cr_status latest ∈ TERMINAL_CONTROL_STATUSES) then
    raise_if (negb (bool_decide (cr_status latest = status))) ControlConflictError
      "terminal control receipt cannot transition" ;;
    mret latest
  else
    raise_if (negb (bool_decide (status ∈ record_allowed (cr_status latest)))) ControlConflictError
      ("illegal control transition " +:+ Status.value (cr_status latest) +:+ "->" +:+ Status.value status) ;;
    (token ← fresh;
     now ← now;
     receipt ← lift (validate_ControlReceipt {|
       cr_schema_version := 1; cr_command_id := command_id; cr_receipt_id := "receipt-" +:+ token;
       cr_status := status; cr_recorded_at := now; cr_controller := controller;
       cr_detail := _safe_detail detail; cr_activity_cursor := activity_cursor |});
     on_rows (append_row (ReceiptRow receipt)) ;;
     mret receipt).

Definition claim (command_id controller : string) : prog (Journal S) (ControlReceipt * bool) :=
  on_rows recover_tail ;;
  rows ← on_rows read_rows;
  let '(commands, receipts) := rows in
  match find_first (λ c, bool_decide (cc_command_id c = command_id)) commands with
  | None => raise KeyError "unknown control command"
  | Some command =>
      latest ← lift (_latest command_id receipts);
      if negb (bool_decide (cr_status latest = Status.QUEUED)) then mret (latest, false)
      else
        now ← now;
        let expired := cc_expires_at command <=? now in
        let status := if expired then Status.EXPIRED else Status.APPLYING in
        receipt ← new_receipt (cc_command_id command) status now controller
          (if expired then "command expired before owner claimed it" else "") None;
        on_rows (append_row (ReceiptRow receipt)) ;;
        mret (receipt, negb expired)
  end.

Definition get (command_id : string) : prog (Journal S) (ControlCommand * ControlReceipt) :=
  rows ← on_rows read_rows;
  let '(commands, receipts) := rows in
  match find_first (λ c, bool_decide (cc_command_id c = command_id)) commands with
  | None => raise KeyError "unknown control command"
  | Some command => latest ← lift (_latest command_id receipts); mret (command, latest)
  end.

(** The loop of [pending]: the receipts read so far and the commands found. *)
Fixpoint pending_loop (target_kind : option TargetKind.t) (target_id : string) (now : float)
    (commands : list ControlCommand) (receipts : list ControlReceipt) : prog (Journal S) (list ControlCommand) :=
  match commands with
  | [] => mret []
  | command :: commands =>
      latest ← lift (_latest (cc_command_id command) receipts);
      if negb (bool_decide (cr_status latest = Status.QUEUED)) then
        pending_loop target_kind target_id now commands receipts
      else if cc_expires_at command <=? now then
        expired ← new_receipt (cc_command_id command) Status.EXPIRED now "control-journal"
          "command expired before owner applied it" None;
        on_rows (append_row (ReceiptRow expired)) ;;
        pending_loop target_kind target_id now commands (receipts ++ [expired])
      else
        rest ← pending_loop target_kind target_id now commands receipts;
        mret (if match target_kind with Some k => negb (bool_decide (cc_target_kind command = k)) | None => false end
                 || negb (is_empty_str target_id) && negb (bool_decide (cc_target_id command = target_id))
              then rest else command :: rest)
  end.
Definition pending (target_kind : option TargetKind.t) (target_id : string) : prog (Journal S) (list ControlCommand) :=
  on_rows recover_tail ;;
  rows ← on_rows read_rows;
  let '(commands, receipts) := rows in
  now ← now;
  pending_loop target_kind target_id now commands receipts.
End methods.
End control.
Arguments jn_rows {S} _.
Arguments jn_ticks {S} _.
Arguments jn_tokens {S} _.
