(* ===== verification/ControlFile.v ===== *)
(** * The control journal's file ([control.py], [_append_unlocked] and readers)

    The journal is one file of JSON lines, each carrying the digest of its record.
    A line reads back as the row that was written, its payload key-sorted; an
    incomplete last line is what a killed writer leaves and is dropped.  Python
    checks the fields of a parsed row at run time only, so values of other types
    than the fields' mostly raise; here they always do. *)
From S2P Require Import Prelude PyDict PyFloat Canonical Json Models Store JsonLines Control.
From Stdlib Require Import Ascii.
Local Open Scope Z_scope.

Section file.
Context {PF : Platform} {FT : FloatText}.

(** [to_dict] of a command and of a receipt *)
Definition command_json (c : ControlCommand) : json :=
  JObj (field "schema_version" (JInt (cc_schema_version c)) ++ field "command_id" (JStr (cc_command_id c)) ++
    field "idempotency_key" (JStr (cc_idempotency_key c)) ++ field "actor" (JStr (cc_actor c)) ++
    field "target_kind" (JStr (TargetKind.value (cc_target_kind c))) ++
    field "target_id" (JStr (cc_target_id c)) ++ field "action" (JStr (Action.value (cc_action c))) ++
    field "expected_state" (JStr (cc_expected_state c)) ++ field "payload" (JObj (cc_payload c)) ++
    field "payload_digest" (JStr (cc_payload_digest c)) ++
    field "submitted_at" (JFloat (cc_submitted_at c)) ++ field "expires_at" (JFloat (cc_expires_at c))).
Definition receipt_json (r : ControlReceipt) : json :=
  JObj (field "schema_version" (JInt (cr_schema_version r)) ++ field "command_id" (JStr (cr_command_id r)) ++
    field "receipt_id" (JStr (cr_receipt_id r)) ++ field "status" (JStr (Status.value (cr_status r))) ++
    field "recorded_at" (JFloat (cr_recorded_at r)) ++ field "controller" (JStr (cr_controller r)) ++
    field "detail" (JStr (cr_detail r)) ++ field_opt false "activity_cursor" JInt (cr_activity_cursor r)).
(** [to_public_dict]: the command without its payload. *)
Definition public_json (c : ControlCommand) : json :=
  match command_json c with JObj ms => JObj (List.filter (λ m, negb (bool_decide (m.1 = "payload"))) ms) | j => j end.

(** [_append_unlocked]: the line of a record *)
Definition unsigned_json (record_type : string) (value : json) : list (string * json) :=
  [("record_type", JStr record_type); ("value", value)].
Definition signed_json (record_type : string) (value : json) : json :=
  JObj (unsigned_json record_type value ++
        [("record_sha256", JStr (sorted_digest (JObj (unsigned_json record_type value))))]).
Definition row_json (r : Row) : json :=
  match r with
  | CommandRow c => signed_json "command" (command_json c)
  | ReceiptRow r => signed_json "receipt" (receipt_json r)
  end.
Definition row_text (r : Row) : string := dumps_ascii true (sort_keys (row_json r)).
Definition encoded_row (r : Row) : string := utf8_encode (row_text r +:+ String nl "").

(** [from_dict] *)
Definition corrupt {A} : result A := Err (Exn ControlCorruptionError "committed control row is corrupt").
Definition get_str (d : dict string json) (k : string) : option string :=
  match d !! k with Some (JStr s) => Some s | _ => None end.
Definition get_int (d : dict string json) (k : string) : option Z :=
  match d !! k with Some (JInt n) => Some n | _ => None end.
Definition get_float (d : dict string json) (k : string) : option float :=
  match d !! k with Some (JFloat f) => Some f | _ => None end.
(** [dict(values.get("payload") or {})] *)
Definition get_payload (d : dict string json) : option (list (string * json)) :=
  match d !! "payload" with
  | None | Some JNull | Some (JBool false) | Some (JInt 0) | Some (JFloat 0) | Some (JStr "") | Some (JArr []) => Some []
  | Some (JObj ms) => Some ms
  | Some _ => None
  end.
Definition command_fields : list string :=
  ["schema_version"; "command_id"; "idempotency_key"; "actor"; "target_kind"; "target_id"; "action";
   "expected_state"; "payload_digest"; "submitted_at"; "expires_at"].
Definition command_of (d : dict string json) : option ControlCommand :=
  if negb (bool_decide (str_set (keys d) ∖ {["payload"]} = str_set command_fields)) then None else
  version ← get_int d "schema_version"; id ← get_str d "command_id"; key ← get_str d "idempotency_key";
  actor ← get_str d "actor"; kind ← get_str d "target_kind" ≫= enum_of TargetKind.all TargetKind.value;
  target ← get_str d "target_id"; action ← get_str d "action" ≫= enum_of Action.all Action.value;
  expected ← get_str d "expected_state"; payload ← get_payload d; digest ← get_str d "payload_digest";
  submitted ← get_float d "submitted_at"; expires ← get_float d "expires_at";
  Some {| cc_schema_version := version; cc_command_id := id; cc_idempotency_key := key; cc_actor := actor;
    cc_target_kind := kind; cc_target_id := target; cc_action := action; cc_expected_state := expected;
    cc_payload := payload; cc_payload_digest := digest; cc_submitted_at := submitted; cc_expires_at := expires |}.
(** [detail] and [activity_cursor] have defaults. *)
Definition receipt_fields : list string :=
  ["schema_version"; "command_id"; "receipt_id"; "status"; "recorded_at"; "controller"].
Definition receipt_of (d : dict string json) : option ControlReceipt :=
  if negb (bool_decide (str_set (keys d) ∖ {["detail"; "activity_cursor"]} = str_set receipt_fields)) then None else
  version ← get_int d "schema_version"; id ← get_str d "command_id"; receipt_id ← get_str d "receipt_id";
  status ← get_str d "status" ≫= enum_of Status.all Status.value;
  recorded ← get_float d "recorded_at"; controller ← get_str d "controller";
  detail ← match d !! "detail" with None => Some "" | Some (JStr s) => Some s | Some _ => None end;
  cursor ← match d !! "activity_cursor" with
           | None | Some JNull => Some None | Some (JInt n) => Some (Some n) | Some _ => None end;
  Some {| cr_schema_version := version; cr_command_id := id; cr_receipt_id := receipt_id; cr_status := status;
    cr_recorded_at := recorded; cr_controller := controller; cr_detail := detail; cr_activity_cursor := cursor |}.

(** One line of [_read_unlocked] *)
Definition parse_row (line : string) : result Row :=
  match utf8_decode line ≫= json_loads with
  | Some (JObj ms) =>
      let d := Dict ms in
      match d !! "record_type", d !! "value" with
      | Some record_type, Some value =>
          if negb (bool_decide (d !! "record_sha256" =
               Some (JStr (sorted_digest (JObj [("record_type", record_type); ("value", value)]))))) then corrupt
          else match record_type, value with
            | JStr "command", JObj v =>
                match command_of (Dict v) with
                | Some c => match validate_ControlCommand c with Ok c => Ok (CommandRow c) | Err _ => corrupt end
                | None => corrupt
                end
            | JStr "receipt", JObj v =>
                match receipt_of (Dict v) with
                | Some r => match validate_ControlReceipt r with Ok r => Ok (ReceiptRow r) | Err _ => corrupt end
                | None => corrupt
                end
            | _, _ => corrupt
            end
      | _, _ => corrupt
      end
  | _ => corrupt
  end.

Definition commands_of (rows : list Row) : list ControlCommand :=
  omap (λ r, match r with CommandRow c => Some c | ReceiptRow _ => None end) rows.
Definition receipts_of (rows : list Row) : list ControlReceipt :=
  omap (λ r, match r with CommandRow _ => None | ReceiptRow r => Some r end) rows.

Definition MAX_CONTROL_BYTES : nat := 16384.

(** The file: [None] while it does not exist. *)
Definition ControlFile : Type := option string.
Definition _recover_tail_unlocked : prog ControlFile unit :=
  modify (λ f, match f with
    | None => None
    | Some raw => Some (if is_empty_str raw || ends_nl raw then raw else complete_prefix raw)
    end).
Definition _read_unlocked : prog ControlFile (list ControlCommand * list ControlReceipt) := λ f,
  (f, match f with
      | None => Ok ([], [])
      | Some raw =>
          rows ← map_result parse_row (lines_of (complete_prefix raw));
          mret (commands_of rows, receipts_of rows)
      end).
Definition _append_unlocked (r : Row) : prog ControlFile unit :=
  raise_if (MAX_CONTROL_BYTES <? String.length (encoded_row r))%nat ValueError "control record is too large" ;;
  modify (λ f, Some (default "" f +:+ encoded_row r)).

#[export] Instance file_store : RowStore ControlFile := {|
  recover_tail := _recover_tail_unlocked;
  read_rows := _read_unlocked;
  append_row := _append_unlocked;
|}.
(** A writer killed when [k] bytes of a row had reached the file. *)
Definition torn_row (r : Row) (k : nat) (f : ControlFile) : ControlFile :=
  Some (default "" f +:+ String.substring 0 k (encoded_row r)).
End file.
