(* ===== verification/ControlCodec.v ===== *)
(** * The journal's lines read back ([control.py])

    A validated row survives the round trip through its line, its payload
    key-sorted; and the file of a sequence of rows, with or without a torn tail,
    reads back as those rows. *)
From S2P Require Import Prelude PyDict PyFloat Canonical Json Models Store JsonLines Control ControlFile.
From Stdlib Require Import Ascii.
Local Open Scope Z_scope.

(** ** Sorting keys *)
Lemma json_wf_arr xs : json_wf (JArr xs) ↔ Forall json_wf xs.
Proof. cbn [json_wf]. induction xs as [|x xs IH]; simpl; [by split|]. rewrite Forall_cons, IH. done. Qed.
Lemma json_wf_obj ms : json_wf (JObj ms) ↔ NoDup ms.*1 ∧ Forall (λ m, json_wf m.2) ms.
Proof.
  cbn [json_wf]. apply and_iff_compat_l. induction ms as [|m ms IH]; simpl; [by split|]. rewrite Forall_cons, IH. done.
Qed.
Definition sort_member (m : string * json) : string * json := (m.1, sort_keys m.2).
Lemma sort_keys_obj ms : sort_keys (JObj ms) = JObj (sort_by fst (map sort_member ms)).
Proof. done. Qed.
Lemma sort_member_keys ms : (map sort_member ms).*1 = ms.*1.
Proof. induction ms as [|m ms IH]; csimpl; [done|]. by rewrite IH. Qed.

Lemma sort_keys_wf j : json_wf j → json_wf (sort_keys j).
Proof.
  induction j as [| b | z | f | s | xs IH | ms IH] using json_nested_ind; try done.
  - cbn [sort_keys]. rewrite !json_wf_arr, Forall_map. intros H. rewrite !Forall_forall in *. auto.
  - rewrite sort_keys_obj, !json_wf_obj. intros [Hnd H]. split.
    + rewrite (sort_by_perm fst), sort_member_keys. done.
    + rewrite !Forall_forall in *. intros m Hm. apply elem_of_sort_by, list_elem_of_fmap in Hm as (m' & -> & Hm').
      simpl. auto.
Qed.
Lemma sort_keys_idem j : json_wf j → sort_keys (sort_keys j) = sort_keys j.
Proof.
  induction j as [| b | z | f | s | xs IH | ms IH] using json_nested_ind; try done.
  - rewrite json_wf_arr. intros H. cbn [sort_keys]. f_equal. rewrite map_map. apply map_ext_in.
    intros x Hx. rewrite !Forall_forall in *. apply IH; [|apply H]; by apply list_elem_of_In.
  - rewrite json_wf_obj. intros [Hnd H]. rewrite !sort_keys_obj. f_equal.
    trans (sort_by fst (map sort_member (map sort_member ms))).
    + apply sort_by_Permutation; [|by rewrite (sort_by_perm fst)]. change (fst <$> ?l) with (l.*1).
      rewrite sort_member_keys, (sort_by_perm fst), sort_member_keys. done.
    + f_equal. rewrite map_map. apply map_ext_in. intros m Hm%list_elem_of_In.
      rewrite !Forall_forall in *. unfold sort_member. simpl. by rewrite IH by auto.
Qed.
(** A member of a sorted object. *)
Lemma sorted_lookup ms k : NoDup ms.*1 →
  Dict (sort_by fst (map sort_member ms)) !! k = sort_keys <$> Dict ms !! k.
Proof.
  intros Hnd. trans (Dict (map sort_member ms) !! k).
  - apply dict_lookup_perm; [|apply sort_by_perm]. unfold dict_wf, keys. simpl.
    by rewrite (sort_by_perm fst), sort_member_keys.
  - clear Hnd. unfold lookup, dict_lookup. simpl. induction ms as [|[k' j] ms IH]; simpl; [done|].
    case_decide; done.
Qed.
Lemma sorted_keys ms : str_set (keys (Dict (sort_by fst (map sort_member ms)))) = str_set ms.*1.
Proof.
  apply set_eq. intros k. rewrite !elem_of_str_set. unfold keys. simpl. by rewrite (sort_by_perm fst), sort_member_keys.
Qed.

(** Validation rebuilds objects as dictionaries, which repeat no key. *)
Lemma object_of_wf ms : Forall (λ m, json_wf m.2) ms → json_wf (object_of ms).
Proof.
  intros H. unfold object_of. rewrite json_wf_obj.
  assert (∀ d : dict string json, dict_wf d → Forall (λ m, json_wf m.2) (items d) →
    let d' := foldl (λ d m, <[m.1 := m.2]> d) d ms in dict_wf d' ∧ Forall (λ m, json_wf m.2) (items d')) as Hgen.
  { induction H as [|[k j] ms Hj _ IH]; intros d Hd Hall; [done|]. cbn [foldl fst snd]. apply IH; [by apply dict_wf_insert|].
    rewrite Forall_forall in *. intros [k' j'] Hm. apply dict_elem_lookup in Hm; [|by apply dict_wf_insert].
    destruct (decide (k' = k)) as [->|Hne].
    - rewrite dict_lookup_insert_eq in Hm. by injection Hm as <-.
    - rewrite dict_lookup_insert_ne in Hm by done. apply dict_lookup_Some_elem in Hm. by apply Hall in Hm. }
  destruct (Hgen ∅) as [Hwf Hall]; [by constructor|by constructor|]. done.
Qed.
Lemma validate_value_wf j d j' : validate_value j d = Ok j' → json_wf j'.
Proof.
  revert d j'. induction j as [| b | z | f | s | xs IH | ms IH] using json_nested_ind; intros d j' H; cbn [validate_value] in H;
    apply bind_unit_ok in H as [_ H]; try (by injection H as <-).
  - apply bind_unit_ok in H as [_ H]. by injection H as <-.
  - apply bind_unit_ok in H as [_ H].
    match type of H with (?g xs ≫= _) = _ => destruct (g xs) as [ys|] eqn:Hys; [|done] end.
    injection H as <-. rewrite json_wf_arr. revert ys Hys. induction IH as [|x xs Hx _ IHxs]; intros ys Hys.
    + injection Hys as <-. constructor.
    + destruct (validate_value x (S d)) as [y|] eqn:Hy; [|done]. cbn [mbind result_bind] in Hys.
      match type of Hys with (?g xs ≫= _) = _ => destruct (g xs) as [zs|] eqn:Hzs; [|done] end.
      injection Hys as <-. constructor; [by eapply Hx|by apply IHxs].
  - apply bind_unit_ok in H as [_ H].
    match type of H with (?g ms ≫= _) = _ => destruct (g ms) as [ns|] eqn:Hns; [|done] end.
    injection H as <-. apply object_of_wf. revert ns Hns. induction IH as [|[k x] ms Hx _ IHms]; intros ns Hns.
    + injection Hns as <-. constructor.
    + apply bind_unit_ok in Hns as [_ Hns]. apply bind_unit_ok in Hns as [_ Hns].
      destruct (validate_value x (S d)) as [y|] eqn:Hy; [|done]. cbn [mbind result_bind] in Hns.
      match type of Hns with (?g ms ≫= _) = _ => destruct (g ms) as [zs|] eqn:Hzs; [|done] end.
      injection Hns as <-. constructor; [by eapply Hx|by apply IHms].
Qed.

Section codec.
Context {PF : Platform} {FT : FloatText}.

Lemma sorted_digest_sort j : json_wf j → sorted_digest (sort_keys j) = sorted_digest j.
Proof. intros H. unfold sorted_digest, sorted_bytes. by rewrite sort_keys_idem. Qed.

(** ** Rows *)
Definition sorted_payload (ms : list (string * json)) : list (string * json) := sort_by fst (map sort_member ms).
(** The command as a later reader sees it. *)
Definition norm_command (c : ControlCommand) : ControlCommand := {|
  cc_schema_version := cc_schema_version c; cc_command_id := cc_command_id c;
  cc_idempotency_key := cc_idempotency_key c; cc_actor := cc_actor c; cc_target_kind := cc_target_kind c;
  cc_target_id := cc_target_id c; cc_action := cc_action c; cc_expected_state := cc_expected_state c;
  cc_payload := sorted_payload (cc_payload c); cc_payload_digest := cc_payload_digest c;
  cc_submitted_at := cc_submitted_at c; cc_expires_at := cc_expires_at c |}.
Definition norm_row (r : Row) : Row :=
  match r with CommandRow c => CommandRow (norm_command c) | ReceiptRow r => ReceiptRow r end.
Definition row_valid (r : Row) : Prop :=
  match r with
  | CommandRow c => validate_ControlCommand c = Ok c ∧ json_wf (JObj (cc_payload c))
  | ReceiptRow r => validate_ControlReceipt r = Ok r
  end.

Lemma norm_command_valid c : json_wf (JObj (cc_payload c)) → validate_ControlCommand c = Ok c →
  validate_ControlCommand (norm_command c) = Ok (norm_command c).
Proof.
  intros Hwf. unfold validate_ControlCommand. cbn [norm_command cc_schema_version cc_command_id cc_actor cc_target_id
    cc_idempotency_key cc_expected_state cc_payload_digest cc_payload cc_submitted_at cc_expires_at].
  change (JObj (sorted_payload (cc_payload c))) with (sort_keys (JObj (cc_payload c))).
  rewrite sorted_digest_sort by done. intros H. repeat (apply bind_unit_ok in H as [-> H]). done.
Qed.

Lemma row_json_wf r : row_valid r → json_wf (row_json r).
Proof.
  assert (∀ t v, json_wf v → json_wf (signed_json t v)) as Hs.
  { intros t v Hv. unfold signed_json, unsigned_json. rewrite json_wf_obj. split.
    - vm_compute. repeat constructor; set_solver.
    - repeat (apply Forall_cons; split; [done|]). constructor. }
  destruct r as [c|r]; cbn [row_valid row_json]; intros H; apply Hs.
  - destruct H as [_ H]. unfold command_json. rewrite json_wf_obj. split.
    + vm_compute. repeat constructor; set_solver.
    + repeat (apply Forall_cons; split; [done|]). constructor.
  - unfold receipt_json. rewrite json_wf_obj. destruct (cr_activity_cursor r); (split; [vm_compute; repeat constructor; set_solver|repeat constructor]).
Qed.

Lemma command_of_json c :
  ∃ ms, sort_keys (command_json c) = JObj ms ∧ command_of (Dict ms) = Some (norm_command c).
Proof.
  assert (NoDup (match command_json c with JObj ms => ms.*1 | _ => [] end)) as Hnd
    by (vm_compute; repeat constructor; set_solver).
  unfold command_json in *. rewrite sort_keys_obj. eexists. split; [reflexivity|].
  unfold command_of. rewrite sorted_keys, bool_decide_true by (vm_compute; reflexivity). cbn [negb].
  unfold get_str, get_int, get_float, get_payload. rewrite !sorted_lookup by done. 
  destruct c as [v i k a tk ti ac e p d s x]. destruct tk, ac; reflexivity.
Qed.
Lemma receipt_of_json r :
  ∃ ms, sort_keys (receipt_json r) = JObj ms ∧ receipt_of (Dict ms) = Some r.
Proof.
  assert (NoDup (match receipt_json r with JObj ms => ms.*1 | _ => [] end)) as Hnd
    by (unfold receipt_json; destruct (cr_activity_cursor r); vm_compute; repeat constructor; set_solver).
  unfold receipt_json in *. rewrite sort_keys_obj. eexists. split; [reflexivity|].
  unfold receipt_of. rewrite sorted_keys, bool_decide_true by (destruct (cr_activity_cursor r); vm_compute; reflexivity). cbn [negb].
  unfold get_str, get_int, get_float. rewrite !sorted_lookup by done.
  destruct r as [v i ri st ra c d ac]. destruct st, ac; reflexivity.
Qed.

Lemma row_text_printable r : str_forallb printable (row_text r) = true.
Proof. apply dumps_printable. Qed.
Lemma encoded_row_text r : encoded_row r = line_nl (row_text r).
Proof. unfold encoded_row. rewrite utf8_encode_app, (proj1 (utf8_printable _ (row_text_printable r))). done. Qed.

Theorem parse_row_text r : row_valid r → parse_row (row_text r) = Ok (norm_row r).
Proof.
  intros Hv. unfold parse_row. rewrite (proj2 (utf8_printable _ (row_text_printable r))). cbn [mbind option_bind].
  unfold row_text. rewrite json_loads_dumps by (apply sort_keys_wf, row_json_wf, Hv).
  assert (∀ t v, json_wf v → ∃ ms, sort_keys (signed_json t v) = JObj ms ∧
    Dict ms !! "record_type" = Some (JStr t) ∧ Dict ms !! "value" = Some (sort_keys v) ∧
    Dict ms !! "record_sha256" = Some (JStr (sorted_digest (JObj [("record_type", JStr t); ("value", sort_keys v)])))) as Hs.
  { intros t v Hw. unfold signed_json. rewrite sort_keys_obj. eexists. split; [reflexivity|].
    rewrite !sorted_lookup by (vm_compute; repeat constructor; set_solver).
    assert (sorted_digest (JObj [("record_type", JStr t); ("value", sort_keys v)]) = sorted_digest (JObj (unsigned_json t v))) as ->;
      [|done].
    unfold sorted_digest, sorted_bytes, unsigned_json. rewrite !sort_keys_obj. unfold sort_member. cbn [map fst snd].
    by rewrite sort_keys_idem. }
  destruct r as [c|r]; cbn [row_json row_valid norm_row] in *.
  - destruct Hv as [Hv Hw]. destruct (Hs "command" (command_json c)) as (ms & -> & -> & -> & ->).
    { pose proof (row_json_wf (CommandRow c) (conj Hv Hw)) as H. cbn [row_json] in H. unfold signed_json in H.
      rewrite json_wf_obj in H. destruct H as [_ H]. inversion H as [|? ? _ H']. by inversion H'. }
    rewrite bool_decide_true by done. cbn [negb].
    destruct (command_of_json c) as (v & -> & ->). by rewrite norm_command_valid.
  - destruct (Hs "receipt" (receipt_json r)) as (ms & -> & -> & -> & ->).
    { pose proof (row_json_wf (ReceiptRow r) Hv) as H. cbn [row_json] in H. unfold signed_json in H.
      rewrite json_wf_obj in H. destruct H as [_ H]. inversion H as [|? ? _ H']. by inversion H'. }
    rewrite bool_decide_true by done. cbn [negb].
    destruct (receipt_of_json r) as (v & -> & ->). by rewrite Hv.
Qed.

(** ** The file of a sequence of rows *)
Definition journal_text (rows : list Row) : string := lines_text (row_text <$> rows).

Lemma journal_text_app rows rows' : journal_text (rows ++ rows') = journal_text rows +:+ journal_text rows'.
Proof. unfold journal_text. by rewrite fmap_app, lines_text_app. Qed.
Lemma journal_text_one r : journal_text [r] = encoded_row r.
Proof. unfold journal_text. rewrite encoded_row_text. cbn. apply str_app_nil_r. Qed.
Lemma row_text_one_line r : one_line (row_text r).
Proof. apply printable_no_eol, row_text_printable. Qed.
Lemma row_texts_lines rows : Forall one_line (row_text <$> rows).
Proof. apply Forall_fmap, Forall_forall. intros r _. apply row_text_one_line. Qed.
Lemma recover_text rows tail (raw := journal_text rows +:+ tail) : no_eol tail = true →
  (if is_empty_str raw || ends_nl raw then raw else complete_prefix raw) = journal_text rows.
Proof. apply recover_lines_text. Qed.
Lemma read_text rows tail : Forall row_valid rows → no_eol tail = true →
  map_result parse_row (lines_of (complete_prefix (journal_text rows +:+ tail))) = Ok (norm_row <$> rows).
Proof.
  intros Hv Ht. unfold journal_text. rewrite complete_lines_text, lines_of_lines_text by (done || apply row_texts_lines).
  apply map_result_ok. induction Hv as [|r rows Hr _ IH]; csimpl; constructor; [by apply parse_row_text|done].
Qed.
Lemma torn_row_text r k : (k < String.length (encoded_row r))%nat → no_eol (String.substring 0 k (encoded_row r)) = true.
Proof. rewrite encoded_row_text. apply torn_line, row_text_one_line. Qed.

(** A file holds [rows]: their lines, then an incomplete line. *)
Definition holds (f : ControlFile) (rows : list Row) (tail : string) : Prop :=
  default "" f = journal_text rows +:+ tail ∧ no_eol tail = true ∧ Forall row_valid rows.
End codec.
