(* ===== verification/ControlRefinement.v ===== *)
(** * The journal file refines a mailbox

    The abstract journal is the list of its rows.  Every method behaves on the
    JSON-lines file as it does on that list, whatever torn line an earlier writer
    left, and a method killed at any byte leaves the file in the state of a list
    to which a prefix of its rows was added. *)
From S2P Require Import Prelude PyDict PyFloat Canonical Json Models Store JsonLines Control ControlFile ControlCodec.
Local Open Scope Z_scope.

(** ** Runs that stay related *)
Section simulation.
Context {PF : Platform} {FT : FloatText} {TK : Tokens} (clock : nat → float).
Context {A B : Type} {HA : RowStore A} {HB : RowStore B} (R0 R1 : A → B → Prop).

Definition boxed (R : A → B → Prop) (j : Journal A) (k : Journal B) : Prop :=
  R (jn_rows j) (jn_rows k) ∧ jn_ticks j = jn_ticks k ∧ jn_tokens j = jn_tokens k.
(** From states related by [R], the same outcome; related by [R] after a return
    and by [R0] after an exception. *)
Definition Sim (R : A → B → Prop) {X} (m : prog (Journal A) X) (m' : prog (Journal B) X) : Prop :=
  ∀ j k, boxed R j k → (m j).2 = (m' k).2 ∧ boxed R0 (m j).1 (m' k).1 ∧
    (is_ok (m j).2 = true → boxed R (m j).1 (m' k).1).

(** What the two stores promise: a journal found in [R0], recovered to [R1]. *)
Context (weaken : ∀ a b, R1 a b → R0 a b).
Context (sim_recover : ∀ a b, R0 a b → recover_tail a = ((recover_tail a).1, Ok tt) ∧
  recover_tail b = ((recover_tail b).1, Ok tt) ∧ R1 (recover_tail a).1 (recover_tail b).1).
Context (sim_read : ∀ a b, R0 a b → ∃ rows, read_rows a = (a, Ok rows) ∧ read_rows b = (b, Ok rows)).
Context (sim_append : ∀ r a b, row_valid r → R1 a b → (append_row r a).2 = (append_row r b).2 ∧
  R0 (append_row r a).1 (append_row r b).1 ∧ (is_ok (append_row r a).2 = true → R1 (append_row r a).1 (append_row r b).1)).

Section related.
Context (R : A → B → Prop) (HR : ∀ a b, R a b → R0 a b).

Lemma boxed_weaken j k : boxed R j k → boxed R0 j k.
Proof. intros (? & ? & ?). split_and!; auto. Qed.
Lemma sim_pure {X} (r : result X) : Sim R (lift r) (lift r).
Proof. intros j k Hjk. split_and!; [done|by apply boxed_weaken|done]. Qed.
Lemma sim_ret {X} (x : X) : Sim R (mret x) (mret x).
Proof. apply (sim_pure (Ok x)). Qed.
Lemma sim_raise {X} e msg : Sim R (raise (A:=X) e msg) (raise e msg).
Proof. apply (sim_pure (Err (Exn e msg))). Qed.
Lemma sim_bind {X Y} (m : prog (Journal A) X) m' (c : X → prog (Journal A) Y) c' :
  Sim R m m' → (∀ x, Sim R (c x) (c' x)) → Sim R (m ≫= c) (m' ≫= c').
Proof.
  intros Hm Hc j k Hjk. rewrite !prog_bind_eq. destruct (Hm j k Hjk) as (Hr & H0 & H1).
  destruct (m j) as [j' [x|e]], (m' k) as [k' r']; simpl in *; subst r'; [by apply Hc, H1|done].
Qed.
Lemma sim_lift_bind {X Y} (r : result X) (c : X → prog (Journal A) Y) c' :
  (∀ x, r = Ok x → Sim R (c x) (c' x)) → Sim R (lift r ≫= c) (lift r ≫= c').
Proof.
  intros Hc j k Hjk. rewrite !prog_bind_eq. unfold lift. destruct r as [x|e]; [by apply (Hc x)|].
  split_and!; [done|by apply boxed_weaken|done].
Qed.
Lemma sim_raise_if b e msg : Sim R (raise_if b e msg) (raise_if b e msg).
Proof. destruct b; [apply sim_raise|apply sim_ret]. Qed.
Lemma sim_if {X} (b : bool) (m1 m2 : prog (Journal A) X) m1' m2' :
  Sim R m1 m1' → Sim R m2 m2' → Sim R (if b then m1 else m2) (if b then m1' else m2').
Proof. by destruct b. Qed.
Lemma sim_now : Sim R (now clock) (now clock).
Proof. intros j k (? & Ht & ?). unfold now. rewrite Ht. split; [done|]. split; [|intros _]; (split; [simpl; auto|simpl; split; congruence]). Qed.
Lemma sim_fresh : Sim R fresh fresh.
Proof. intros j k (? & ? & Ht). unfold fresh. rewrite Ht. split; [done|]. split; [|intros _]; (split; [simpl; auto|simpl; split; congruence]). Qed.
Lemma sim_read_rows : Sim R (on_rows read_rows) (on_rows read_rows).
Proof.
  intros [a ta na] [b tb nb] (Hab & Ht & Hn). simpl in *. subst. unfold on_rows. simpl.
  destruct (sim_read a b (HR _ _ Hab)) as (rows & -> & ->).
  split; [done|]. split; [|intros _]; (split; [simpl; auto|done]).
Qed.
Lemma sim_new_receipt {X} id st at_ ctl detail cursor (c : ControlReceipt → prog (Journal A) X) c' :
  (∀ r, validate_ControlReceipt r = Ok r → Sim R (c r) (c' r)) →
  Sim R (new_receipt id st at_ ctl detail cursor ≫= c) (new_receipt id st at_ ctl detail cursor ≫= c').
Proof.
  intros Hc. assert (∀ r r', validate_ControlReceipt r = Ok r' → r' = r) as Hid.
  { intros r r' H1. unfold validate_ControlReceipt in H1. repeat (apply bind_unit_ok in H1 as [_ H1]). by injection H1 as <-. }
  intros j k Hjk. unfold new_receipt. rewrite !prog_bind_eq. 
  destruct (sim_fresh j k Hjk) as (Hr & H0 & H1). unfold fresh in *. cbn [fst snd is_ok] in *.
  injection Hr as Hr. rewrite Hr in *. specialize (H1 eq_refl). unfold lift.
  destruct (validate_ControlReceipt _) as [r|e] eqn:Hv; [|done].
  pose proof (Hid _ _ Hv) as ->. by apply Hc.
Qed.
End related.

(** ** The methods *)
Lemma sim_recover_bind {X} (c : prog (Journal A) X) c' :
  Sim R1 c c' → Sim R0 (on_rows recover_tail ;; c) (on_rows recover_tail ;; c').
Proof.
  intros Hc [a ta na] [b tb nb] (Hab & Ht & Hn). simpl in *. subst. rewrite !prog_bind_eq. unfold on_rows. simpl.
  destruct (sim_recover a b Hab) as (-> & -> & H1).
  destruct (Hc {| jn_rows := (recover_tail a).1; jn_ticks := tb; jn_tokens := nb |}
    {| jn_rows := (recover_tail b).1; jn_ticks := tb; jn_tokens := nb |}) as (He & H0 & _); [by split|]. by split.
Qed.
Lemma sim_read_bind {X} R (HR : ∀ a b, R a b → R0 a b) (c : _ → prog (Journal A) X) c' :
  (∀ rows, Sim R (c rows) (c' rows)) → Sim R (on_rows read_rows ≫= c) (on_rows read_rows ≫= c').
Proof. intros Hc. apply sim_bind; [by apply sim_read_rows|done]. Qed.
Lemma sim_append_row r : row_valid r → Sim R1 (on_rows (append_row r)) (on_rows (append_row r)).
Proof.
  intros Hr [a ta na] [b tb nb] (Hab & Ht & Hn). simpl in *. subst. unfold on_rows. simpl.
  destruct (sim_append r a b Hr Hab) as (He & H0 & H1).
  destruct (append_row r a) as [a' ra], (append_row r b) as [b' rb]. simpl in *. subst.
  split; [done|]. split; [done|]. intros Hok. split; [by apply H1|done].
Qed.
Lemma sim_append_bind {X} r (c : prog (Journal A) X) c' :
  row_valid r → Sim R1 c c' → Sim R1 (on_rows (append_row r) ;; c) (on_rows (append_row r) ;; c').
Proof. intros Hr Hc. apply sim_bind; [by apply sim_append_row|done]. Qed.

Lemma validate_ControlCommand_id c c' : validate_ControlCommand c = Ok c' → c' = c.
Proof. intros H. unfold validate_ControlCommand in H. repeat (apply bind_unit_ok in H as [_ H]). by injection H as <-. Qed.
Lemma validate_ControlReceipt_id r r' : validate_ControlReceipt r = Ok r' → r' = r.
Proof. intros H. unfold validate_ControlReceipt in H. repeat (apply bind_unit_ok in H as [_ H]). by injection H as <-. Qed.
Lemma payload_wf payload ms d : _payload payload = Ok (ms, d) → json_wf (JObj ms).
Proof.
  unfold _payload. destruct (validate_value (JObj payload) 0) as [v|] eqn:Hv; [|done]. cbn [mbind result_bind].
  apply validate_value_wf in Hv. destruct v; try done. intros [_ [_ H]%bind_unit_ok]%bind_unit_ok. by injection H as <- _.
Qed.
Lemma sim_R1_ret {X} (x : X) : Sim R1 (mret x) (mret x).
Proof. apply sim_ret, weaken. Qed.
Lemma sim_new_receipt_R1 {X} id st at_ ctl detail cursor (c : ControlReceipt → prog (Journal A) X) c' :
  (∀ r, validate_ControlReceipt r = Ok r → Sim R1 (c r) (c' r)) →
  Sim R1 (new_receipt id st at_ ctl detail cursor ≫= c) (new_receipt id st at_ ctl detail cursor ≫= c').
Proof. apply sim_new_receipt, weaken. Qed.

Lemma submit_sim b : Sim R0 (submit clock b) (submit clock b).
Proof.
  unfold submit. apply sim_bind; [by apply sim_raise_if|intros _].
  apply sim_lift_bind; [done|intros [bounded digest] Hp]. apply payload_wf in Hp.
  apply sim_recover_bind, (sim_read_bind R1 weaken). intros [commands receipts].
  destruct (find_first _ commands) as [existing|].
  - apply sim_bind; [by apply sim_raise_if; apply weaken|intros _].
    apply sim_lift_bind; [apply weaken|intros latest _]. apply sim_R1_ret.
  - apply sim_bind; [apply sim_now, weaken|intros t].
    apply sim_bind; [apply sim_fresh, weaken|intros token].
    apply sim_lift_bind; [apply weaken|intros command Hc]. pose proof (validate_ControlCommand_id _ _ Hc) as ->.
    apply sim_new_receipt_R1. intros receipt Hr.
    apply sim_append_bind; [done|]. apply sim_append_bind; [done|]. apply sim_R1_ret.
Qed.
Lemma record_sim id status controller detail cursor :
  Sim R0 (record clock id status controller detail cursor) (record clock id status controller detail cursor).
Proof.
  unfold record. apply sim_recover_bind, (sim_read_bind R1 weaken). intros [commands receipts].
  apply sim_bind; [by apply sim_raise_if; apply weaken|intros _].
  apply sim_lift_bind; [apply weaken|intros latest _]. apply sim_if.
  - apply sim_bind; [by apply sim_raise_if; apply weaken|intros _]. apply sim_R1_ret.
  - apply sim_bind; [by apply sim_raise_if; apply weaken|intros _].
    apply sim_bind; [apply sim_fresh, weaken|intros token].
    apply sim_bind; [apply sim_now, weaken|intros t].
    apply sim_lift_bind; [apply weaken|intros receipt Hr]. pose proof (validate_ControlReceipt_id _ _ Hr) as ->.
    apply sim_append_bind; [done|]. apply sim_R1_ret.
Qed.
Lemma claim_sim id controller : Sim R0 (claim clock id controller) (claim clock id controller).
Proof.
  unfold claim. apply sim_recover_bind, (sim_read_bind R1 weaken). intros [commands receipts].
  destruct (find_first _ commands) as [command|]; [|apply sim_raise, weaken].
  apply sim_lift_bind; [apply weaken|intros latest _]. apply sim_if; [apply sim_R1_ret|].
  apply sim_bind; [apply sim_now, weaken|intros t].
  apply sim_new_receipt_R1. intros receipt Hr. apply sim_append_bind; [done|]. apply sim_R1_ret.
Qed.
Lemma get_sim id : Sim R0 (get id) (get id).
Proof.
  unfold get. apply (sim_read_bind R0); [done|]. intros [commands receipts].
  destruct (find_first _ commands) as [command|]; [|by apply sim_raise].
  apply sim_lift_bind; [done|intros latest _]. by apply sim_ret.
Qed.
Lemma pending_loop_sim kind id t commands receipts :
  Sim R1 (pending_loop kind id t commands receipts) (pending_loop kind id t commands receipts).
Proof.
  revert receipts. induction commands as [|command commands IH]; intros receipts; cbn [pending_loop]; [apply sim_R1_ret|].
  apply sim_lift_bind; [apply weaken|intros latest _]. apply sim_if; [apply IH|]. apply sim_if.
  - apply sim_new_receipt_R1. intros expired Hr. apply sim_append_bind; [done|]. apply IH.
  - apply sim_bind; [apply IH|intros rest]. apply sim_R1_ret.
Qed.
Lemma pending_sim kind id : Sim R0 (pending clock kind id) (pending clock kind id).
Proof.
  unfold pending. apply sim_recover_bind, (sim_read_bind R1 weaken). intros [commands receipts].
  apply sim_bind; [apply sim_now, weaken|intros t]. apply pending_loop_sim.
Qed.
End simulation.

(** ** Calls and crashes *)
Inductive ControlOp :=
  | OpSubmit (b : Submission)
  | OpRecord (command_id : string) (status : Status.t) (controller detail : string) (activity_cursor : option Z)
  | OpClaim (command_id controller : string)
  | OpGet (command_id : string)
  | OpPending (target_kind : option TargetKind.t) (target_id : string).
Inductive Outcome :=
  | Submitted (c : ControlCommand) (r : ControlReceipt) (duplicate : bool)
  | Recorded (r : ControlReceipt)
  | Claimed (r : ControlReceipt) (granted : bool)
  | Got (c : ControlCommand) (r : ControlReceipt)
  | Listed (cs : list ControlCommand).

(** A store whose process is killed once it has written [k_life] more bytes. *)
Record Killable (S : Type) := { k_store : S; k_life : nat }.
Arguments k_store {S} _.
Arguments k_life {S} _.
Definition on_store {S A} (m : prog S A) : prog (Killable S) A := λ k,
  let '(s, r) := m (k_store k) in ({| k_store := s; k_life := k_life k |}, r).

(** The journal as the list of its rows. *)
Definition Mailbox : Type := list Row.

Section refinement.
Context {PF : Platform} {FT : FloatText} {TK : Tokens} (clock : nat → float).

(** Write [size] bytes by [put], or as many as are left to live by [torn]. *)
Definition write_or_die {S} (put : S → S) (torn : nat → S → S) (size : nat) : prog (Killable S) unit := λ k,
  if (size <=? k_life k)%nat
  then ({| k_store := put (k_store k); k_life := k_life k - size |}, Ok tt)
  else ({| k_store := torn (k_life k) (k_store k); k_life := 0 |}, Err (Exn BaseException_ "killed")).
Definition append_or_die {S} (put : S → S) (torn : nat → S → S) (r : Row) : prog (Killable S) unit :=
  raise_if (MAX_CONTROL_BYTES <? String.length (encoded_row r))%nat ValueError "control record is too large" ;;
  write_or_die put torn (String.length (encoded_row r)).
#[export] Instance killable_file : RowStore (Killable ControlFile) := {|
  recover_tail := on_store recover_tail;
  read_rows := on_store read_rows;
  append_row r := append_or_die (λ f, Some (default "" f +:+ encoded_row r)) (torn_row r) r;
|}.

#[export] Instance mailbox_store : RowStore Mailbox := {|
  recover_tail := mret tt;
  read_rows := gets (λ rows, (commands_of rows, receipts_of rows));
  append_row r :=
    raise_if (MAX_CONTROL_BYTES <? String.length (encoded_row r))%nat ValueError "control record is too large" ;;
    modify (λ rows, rows ++ [norm_row r]);
|}.
#[export] Instance killable_mailbox : RowStore (Killable Mailbox) := {|
  recover_tail := on_store recover_tail;
  read_rows := on_store read_rows;
  append_row r := append_or_die (λ rows, rows ++ [norm_row r]) (λ _ rows, rows) r;
|}.

Section trace.
Context {S : Type} `{RowStore S} `{RowStore (Killable S)}.
Definition run_op {T} `{RowStore T} (op : ControlOp) : prog (Journal T) Outcome :=
  match op with
  | OpSubmit b => x ← submit clock b; let '(c, r, d) := x in mret (Submitted c r d)
  | OpRecord id st ctl detail cur => r ← record clock id st ctl detail cur; mret (Recorded r)
  | OpClaim id ctl => x ← claim clock id ctl; let '(r, g) := x in mret (Claimed r g)
  | OpGet id => x ← get id; let '(c, r) := x in mret (Got c r)
  | OpPending k id => cs ← pending clock k id; mret (Listed cs)
  end.
(** A call, or a call whose process is killed after so many bytes of rows. *)
Definition run_step (step : ControlOp * option nat) : prog (Journal S) Outcome := λ j,
  match step.2 with
  | None => run_op step.1 j
  | Some life =>
      let '(j', r) := run_op step.1 {| jn_rows := {| k_store := jn_rows j; k_life := life |};
                                       jn_ticks := jn_ticks j; jn_tokens := jn_tokens j |} in
      ({| jn_rows := k_store (jn_rows j'); jn_ticks := jn_ticks j'; jn_tokens := jn_tokens j' |}, r)
  end.
Fixpoint run_trace (steps : list (ControlOp * option nat)) (j : Journal S) : Journal S * list (result Outcome) :=
  match steps with
  | [] => (j, [])
  | step :: steps => let '(j', r) := run_step step j in let '(j'', rs) := run_trace steps j' in (j'', r :: rs)
  end.
End trace.
(** A journal no call has touched: no file, no rows. *)
Definition new_file_journal : Journal ControlFile := {| jn_rows := None; jn_ticks := 0; jn_tokens := 0 |}.
Definition new_mailbox : Journal Mailbox := {| jn_rows := []; jn_ticks := 0; jn_tokens := 0 |}.

(** The file holds the lines of the mailbox's rows, possibly a torn line more. *)
Definition file_mailbox (torn : bool) (f : ControlFile) (m : Mailbox) : Prop :=
  ∃ rows tail, holds f rows tail ∧ m = norm_row <$> rows ∧ (torn = false → tail = "").
Definition killable_file_mailbox (torn : bool) (f : Killable ControlFile) (m : Killable Mailbox) : Prop :=
  file_mailbox torn (k_store f) (k_store m) ∧ k_life f = k_life m.

Lemma file_mailbox_weaken f m : file_mailbox false f m → file_mailbox true f m.
Proof. intros (rows & tail & ? & ? & _). by exists rows, tail. Qed.
Lemma commands_norm rows : commands_of (norm_row <$> rows) = norm_command <$> commands_of rows.
Proof. induction rows as [|[c|r] rows IH]; csimpl; by rewrite ?IH. Qed.

Lemma file_recover f m : file_mailbox true f m →
  _recover_tail_unlocked f = ((_recover_tail_unlocked f).1, Ok tt) ∧ file_mailbox false (_recover_tail_unlocked f).1 m.
Proof.
  intros (rows & tail & (Hf & Ht & Hv) & -> & _). split; [done|]. exists rows, "". split; [|done]. split; [|done].
  rewrite str_app_nil_r. destruct f as [raw|]; cbn [default from_option id] in *; unfold _recover_tail_unlocked, modify; cbn [fst].
  - rewrite Hf. by apply recover_text.
  - by destruct (journal_text rows).
Qed.
Lemma file_read f m : file_mailbox true f m →
  _read_unlocked f = (f, Ok (commands_of m, receipts_of m)).
Proof.
  intros (rows & tail & (Hf & Ht & Hv) & -> & _). unfold _read_unlocked. f_equal. destruct f as [raw|]; simpl in *.
  - subst raw. by rewrite read_text.
  - assert (rows = []) as ->; [|done]. destruct rows as [|r rows]; [done|]. simpl in Hf.
    unfold journal_text, line_nl in Hf. rewrite fmap_cons in Hf. cbn [lines_text] in Hf. unfold line_nl in Hf.
    by destruct (row_text r).
Qed.
Lemma file_append f m r : row_valid r → file_mailbox false f m →
  file_mailbox false (Some (default "" f +:+ encoded_row r)) (m ++ [norm_row r]).
Proof.
  intros Hr (rows & tail & (Hf & Ht & Hv) & -> & Htl). rewrite (Htl eq_refl) in Hf. rewrite str_app_nil_r in Hf.
  exists (rows ++ [r]), "". split_and!; [split_and!|by rewrite fmap_app|done].
  - cbn [default from_option id]. by rewrite Hf, journal_text_app, journal_text_one, str_app_nil_r.
  - done.
  - apply Forall_app. by split; [|constructor].
Qed.
Lemma file_torn f m r k : file_mailbox false f m → (k < String.length (encoded_row r))%nat →
  file_mailbox true (torn_row r k f) m.
Proof.
  intros (rows & tail & (Hf & Ht & Hv) & -> & Htl) Hk. rewrite (Htl eq_refl) in Hf. rewrite str_app_nil_r in Hf.
  exists rows, (String.substring 0 k (encoded_row r)). split_and!; [split_and!|done|done].
  - unfold torn_row. simpl. by rewrite Hf.
  - by apply torn_row_text.
  - done.
Qed.

Section pairs.
Context {A B : Type} {HA : RowStore A} {HB : RowStore B} {HKA : RowStore (Killable A)} {HKB : RowStore (Killable B)}.
Context (R0 : A → B → Prop) (K0 : Killable A → Killable B → Prop).

(** Simulated methods give simulated calls and crashes. *)
Lemma run_op_sim op :
  (∀ b, Sim R0 R0 (submit clock b) (submit clock b)) →
  (∀ id st ctl d cur, Sim R0 R0 (record clock id st ctl d cur) (record clock id st ctl d cur)) →
  (∀ id ctl, Sim R0 R0 (claim clock id ctl) (claim clock id ctl)) →
  (∀ id, Sim R0 R0 (get id) (get id)) →
  (∀ k id, Sim R0 R0 (pending clock k id) (pending clock k id)) →
  Sim (A:=A) (B:=B) R0 R0 (run_op op) (run_op op).
Proof.
  intros H1 H2 H3 H4 H5. destruct op; simpl; (apply sim_bind; [auto|]); intros x; repeat destruct x as [x ?]; by apply sim_ret.
Qed.
End pairs.

Lemma file_op_sim op : Sim (file_mailbox true) (file_mailbox true)
  (run_op (T:=ControlFile) op) (run_op (T:=Mailbox) op).
Proof.
  assert (∀ a b, file_mailbox true a b → recover_tail a = ((recover_tail a).1, Ok tt) ∧
    recover_tail b = ((recover_tail b).1, Ok tt) ∧ file_mailbox false (recover_tail a).1 (recover_tail b).1) as Hrec.
  { intros f m Hfm. destruct (file_recover f m Hfm) as [He Hr]. by split. }
  assert (∀ a b, file_mailbox true a b → ∃ rows, read_rows a = (a, Ok rows) ∧ read_rows b = (b, Ok rows)) as Hread.
  { intros f m Hfm. eexists. split; [by apply file_read|done]. }
  assert (∀ r a b, row_valid r → file_mailbox false a b → (append_row r a).2 = (append_row r b).2 ∧
    file_mailbox true (append_row r a).1 (append_row r b).1 ∧
    (is_ok (append_row r a).2 = true → file_mailbox false (append_row r a).1 (append_row r b).1)) as Happ.
  { intros r f m Hr Hfm. cbn [append_row file_store mailbox_store]. unfold _append_unlocked. rewrite !prog_bind_eq.
    unfold raise_if, raise, modify. destruct (_ <? _)%nat; cbn [mret prog_ret fst snd is_ok].
    - split_and!; [done|by apply file_mailbox_weaken|done].
    - pose proof (file_append f m r Hr Hfm). split_and!; [done|by apply file_mailbox_weaken|done]. }
  pose proof file_mailbox_weaken as Hw. apply run_op_sim; intros.
  - by apply submit_sim with (R1 := file_mailbox false). - by apply record_sim with (R1 := file_mailbox false).
  - by apply claim_sim with (R1 := file_mailbox false). - by apply get_sim.
  - by apply pending_sim with (R1 := file_mailbox false).
Qed.
Lemma killable_op_sim op : Sim (killable_file_mailbox true) (killable_file_mailbox true)
  (run_op (T:=Killable ControlFile) op) (run_op (T:=Killable Mailbox) op).
Proof.
  assert (∀ a b, killable_file_mailbox true a b → recover_tail a = ((recover_tail a).1, Ok tt) ∧
    recover_tail b = ((recover_tail b).1, Ok tt) ∧ killable_file_mailbox false (recover_tail a).1 (recover_tail b).1) as Hrec.
  { intros [f n] [m n'] [Hfm Hn]. simpl in *. destruct (file_recover f m Hfm) as [He Hr]. by split. }
  assert (∀ a b, killable_file_mailbox true a b → ∃ rows, read_rows a = (a, Ok rows) ∧ read_rows b = (b, Ok rows)) as Hread.
  { intros [f n] [m n'] [Hfm Hn]. simpl in *. exists (commands_of m, receipts_of m).
    cbn [read_rows killable_file killable_mailbox]. unfold on_store. cbn [k_store k_life read_rows file_store mailbox_store].
    by rewrite (file_read f m Hfm). }
  assert (∀ a b, killable_file_mailbox false a b → killable_file_mailbox true a b) as Hw.
  { intros a b [Hfm Hn]. split; [by apply file_mailbox_weaken|done]. }
  assert (∀ r a b, row_valid r → killable_file_mailbox false a b → (append_row r a).2 = (append_row r b).2 ∧
    killable_file_mailbox true (append_row r a).1 (append_row r b).1 ∧
    (is_ok (append_row r a).2 = true → killable_file_mailbox false (append_row r a).1 (append_row r b).1)) as Happ.
  { intros r [f n] [m n'] Hr Hk. pose proof (Hw _ _ Hk). destruct Hk as [Hfm Hn]. simpl in *. subst n'.
    cbn [append_row killable_file killable_mailbox]. unfold append_or_die. rewrite !prog_bind_eq.
    unfold raise_if, raise. destruct (_ <? _)%nat; cbn [mret prog_ret fst snd is_ok]; [done|].
    unfold write_or_die. cbn [k_store k_life]. destruct (Nat.leb_spec (String.length (encoded_row r)) n); cbn [fst snd is_ok].
    - pose proof (file_append f m r Hr Hfm). split; [done|]. split; [by apply Hw|done].
    - pose proof (file_torn f m r n Hfm ltac:(done)). done. }
  apply run_op_sim; intros.
  - by apply submit_sim with (R1 := killable_file_mailbox false). - by apply record_sim with (R1 := killable_file_mailbox false).
  - by apply claim_sim with (R1 := killable_file_mailbox false). - by apply get_sim.
  - by apply pending_sim with (R1 := killable_file_mailbox false).
Qed.

Lemma run_step_sim step : Sim (file_mailbox true) (file_mailbox true) (run_step (S:=ControlFile) step) (run_step (S:=Mailbox) step).
Proof.
  destruct step as [op [life|]]; [|exact (file_op_sim op)].
  intros j k (Hjk & Ht & Hn). unfold run_step. cbn [fst snd].
  destruct (killable_op_sim op {| jn_rows := {| k_store := jn_rows j; k_life := life |}; jn_ticks := jn_ticks j; jn_tokens := jn_tokens j |}
    {| jn_rows := {| k_store := jn_rows k; k_life := life |}; jn_ticks := jn_ticks k; jn_tokens := jn_tokens k |})
    as (Hr & ([H0 _] & Ht' & Hn') & _); [by split_and!|].
  destruct (run_op op _) as [j' r], (run_op op _) as [k' r']. simpl in *. subst r'. done.
Qed.
Lemma run_trace_sim steps j k : boxed (file_mailbox true) j k →
  (run_trace (S:=ControlFile) steps j).2 = (run_trace (S:=Mailbox) steps k).2 ∧
  boxed (file_mailbox true) (run_trace (S:=ControlFile) steps j).1 (run_trace (S:=Mailbox) steps k).1.
Proof.
  revert j k. induction steps as [|step steps IH]; intros j k Hjk; [done|]. cbn [run_trace].
  destruct (run_step_sim step j k Hjk) as (Hr & H0 & _).
  destruct (run_step (S:=ControlFile) step j) as [j' r], (run_step (S:=Mailbox) step k) as [k' r']. simpl in *. subst r'.
  destruct (IH j' k' H0) as [Hrs H1]. destruct (run_trace steps j') as [j'' rs], (run_trace steps k') as [k'' rs'].
  simpl in *. by subst rs'.
Qed.

Lemma new_journal_related : boxed (file_mailbox true) new_file_journal new_mailbox.
Proof. split_and!; try done. by exists [], "". Qed.

(** C26: on the JSON-lines file, whatever calls are made and wherever writers are
    killed, every call has the outcome it has on the list of the rows, and after
    any such history the file reads back as exactly that list: a killed writer adds
    the rows it completed and nothing else, and no later call is disturbed by the
    torn line it left. *)
Theorem journal_refines_mailbox steps :
  let file := run_trace (S:=ControlFile) steps new_file_journal in
  let mailbox := run_trace (S:=Mailbox) steps new_mailbox in
  file.2 = mailbox.2 ∧
  _read_unlocked (jn_rows file.1) =
    (jn_rows file.1, Ok (commands_of (jn_rows mailbox.1), receipts_of (jn_rows mailbox.1))).
Proof.
  destruct (run_trace_sim steps _ _ new_journal_related) as [Hr (H0 & _)]. split; [done|]. by apply file_read.
Qed.
End refinement.
