(* ===== verification/ControlLifecycle.v ===== *)
(** * The life of a control command ([control.py])

    Over any history of calls and kills: a command is granted to at most one
    claimant, never at or after its expiry; a terminal receipt is the last word on
    its command; and an actor's idempotency key names one command. *)
From S2P Require Import Prelude PyDict PyFloat Canonical Json Models Store Control ControlFile ControlCodec ControlRefinement.
Local Open Scope Z_scope.

(** ** The mailbox *)
Definition latest (rows : Mailbox) (id : string) : option ControlReceipt :=
  last (List.filter (λ r, bool_decide (cr_command_id r = id)) (receipts_of rows)).
Definition ids (rows : Mailbox) : list string := cc_command_id <$> commands_of rows.
Definition owners (rows : Mailbox) : list (string * string) :=
  (λ c, (cc_actor c, cc_idempotency_key c)) <$> commands_of rows.

(** One row added by a method. *)
Inductive adds : Mailbox → Mailbox → Prop :=
  | adds_command rows c :
      cc_command_id c ∉ ids rows → latest rows (cc_command_id c) = None →
      (cc_actor c, cc_idempotency_key c) ∉ owners rows → adds rows (rows ++ [CommandRow c])
  | adds_receipt rows r :
      cr_command_id r ∈ ids rows →
      (∀ l, latest rows (cr_command_id r) = Some l → cr_status r ∈ record_allowed (cr_status l)) →
      adds rows (rows ++ [ReceiptRow r]).
Definition grows : Mailbox → Mailbox → Prop := rtc adds.

Lemma commands_app rows rows' : commands_of (rows ++ rows') = commands_of rows ++ commands_of rows'.
Proof. apply omap_app. Qed.
Lemma receipts_app rows rows' : receipts_of (rows ++ rows') = receipts_of rows ++ receipts_of rows'.
Proof. apply omap_app. Qed.
Lemma latest_command rows c id : latest (rows ++ [CommandRow c]) id = latest rows id.
Proof. unfold latest. by rewrite receipts_app, app_nil_r. Qed.
Lemma latest_receipt rows r id :
  latest (rows ++ [ReceiptRow r]) id = if bool_decide (cr_command_id r = id) then Some r else latest rows id.
Proof.
  unfold latest. rewrite receipts_app, List.filter_app. simpl. case_bool_decide; [|by rewrite app_nil_r].
  by rewrite last_snoc.
Qed.
Lemma latest_id rows id l : latest rows id = Some l → cr_command_id l = id.
Proof.
  unfold latest. intros H%last_Some_elem_of. apply list_elem_of_In, filter_In in H as [_ H].
  by apply bool_decide_eq_true in H.
Qed.

(** A command that is no longer queued never is again, and a terminal receipt stays. *)
Definition follows (l l' : ControlReceipt) : Prop := l' = l ∨ cr_status l' ∈ record_allowed (cr_status l).
Lemma adds_latest rows rows' id l : adds rows rows' → latest rows id = Some l →
  ∃ l', latest rows' id = Some l' ∧ follows l l'.
Proof.
  intros [rows1 c|rows1 r Hid Hal] Hl.
  - exists l. rewrite latest_command. split; [done|by left].
  - rewrite latest_receipt. case_bool_decide as He; [|exists l; split; [done|by left]].
    exists r. split; [done|right]. apply Hal. by rewrite He.
Qed.
Definition settled (l : ControlReceipt) : bool := negb (bool_decide (cr_status l = Status.QUEUED)).
Definition terminal (l : ControlReceipt) : bool := bool_decide (cr_status l ∈ TERMINAL_CONTROL_STATUSES).
Lemma follows_settled l l' : follows l l' → settled l = true → settled l' = true.
Proof.
  intros [->|H]; [done|]. unfold settled. rewrite !negb_true_iff, !bool_decide_eq_false.
  intros Hl Hl'. rewrite Hl' in H. destruct (cr_status l); simpl in H; set_solver.
Qed.
Lemma follows_terminal l l' : follows l l' → terminal l = true → l' = l.
Proof.
  intros [->|H]; [done|]. unfold terminal. rewrite bool_decide_eq_true. intros Ht.
  destruct (cr_status l); simpl in *; set_solver.
Qed.
Lemma grows_settled rows rows' id l : grows rows rows' → latest rows id = Some l → settled l = true →
  ∃ l', latest rows' id = Some l' ∧ settled l' = true.
Proof.
  intros H. revert l. induction H as [rows|rows rows1 rows' Ha _ IH]; intros l Hl Hs; [by exists l|].
  destruct (adds_latest _ _ _ _ Ha Hl) as (l1 & Hl1 & Hf). by eapply IH, follows_settled.
Qed.
Lemma grows_terminal rows rows' id l : grows rows rows' → latest rows id = Some l → terminal l = true →
  latest rows' id = Some l.
Proof.
  intros H Hl Ht. induction H as [rows|rows rows1 rows' Ha _ IH]; [done|].
  destruct (adds_latest _ _ _ _ Ha Hl) as (l1 & Hl1 & Hf). apply IH. by rewrite Hl1, (follows_terminal _ _ Hf Ht).
Qed.
Lemma grows_command rows rows' c : grows rows rows' → c ∈ commands_of rows → c ∈ commands_of rows'.
Proof.
  induction 1 as [|rows rows1 rows' Ha _ IH]; [done|]. intros Hc. apply IH. inversion Ha; subst; rewrite commands_app; set_solver.
Qed.

(** What an outcome says of the rows before and after the call. *)
Definition reports (o : Outcome) : list ControlReceipt :=
  match o with Submitted _ r _ | Recorded r | Claimed r _ | Got _ r => [r] | Listed _ => [] end.
Definition same_command (c c' : ControlCommand) : Prop :=
  cc_command_id c = cc_command_id c' ∧ cc_actor c = cc_actor c' ∧ cc_idempotency_key c = cc_idempotency_key c' ∧
  cc_expires_at c = cc_expires_at c'.
Definition queued (rows : Mailbox) (id : string) : Prop :=
  ∃ l, latest rows id = Some l ∧ cr_status l = Status.QUEUED.
Definition outcome_ok (rows rows' : Mailbox) (o : Outcome) : Prop :=
  (∀ r, r ∈ reports o → latest rows' (cr_command_id r) = Some r) ∧
  match o with
  | Submitted c r duplicate => cr_command_id r = cc_command_id c ∧
      (∃ c', c' ∈ commands_of rows' ∧ same_command c c') ∧
      (if duplicate then c ∈ commands_of rows else (cc_actor c, cc_idempotency_key c) ∉ owners rows)
  | Claimed r true => cr_status r = Status.APPLYING ∧ queued rows (cr_command_id r) ∧
      ∃ c, c ∈ commands_of rows ∧ cc_command_id c = cr_command_id r ∧ cr_recorded_at r < cc_expires_at c
  | Got c r => c ∈ commands_of rows' ∧ cr_command_id r = cc_command_id c
  | Listed cs => ∀ c, c ∈ cs → c ∈ commands_of rows' ∧ queued rows' (cc_command_id c)
  | _ => True
  end.

Section lifecycle.
Context {PF : Platform} {FT : FloatText} {TK : Tokens} (clock : nat → float).

(** Identifiers come from the tokens drawn so far, one command each; receipts
    belong to commands. *)
Record mailbox_inv (rows : Mailbox) (tokens : nat) : Prop := {
  mi_fresh : ∀ id, id ∈ ids rows → ∃ n, (n < tokens)%nat ∧ id = "cmd-" +:+ token_hex n;
  mi_ids : NoDup (ids rows);
  mi_owners : NoDup (owners rows);
  mi_receipts : ∀ id l, latest rows id = Some l → id ∈ ids rows;
}.
Lemma mailbox_inv_later rows n m : (n ≤ m)%nat → mailbox_inv rows n → mailbox_inv rows m.
Proof.
  intros Hnm [Hf ? ? ?]. split; try done. intros id Hid. destruct (Hf id Hid) as (k & ? & ->). exists k. split; [lia|done].
Qed.
Lemma mailbox_inv_adds rows rows' n : adds rows rows' → mailbox_inv rows n →
  (∀ c, rows' = rows ++ [CommandRow c] → ∃ k, (k < n)%nat ∧ cc_command_id c = "cmd-" +:+ token_hex k) →
  mailbox_inv rows' n.
Proof.
  intros Ha [Hf Hi Ho Hr] Hc. inversion Ha as [rows1 c Hid Hl Hown|rows1 r Hid Hal]; subst.
  - destruct (Hc c eq_refl) as (k & Hk & Hck). unfold ids, owners in *.
    split; unfold ids, owners; rewrite ?commands_app, ?fmap_app; csimpl.
    + intros id Hin. apply elem_of_app in Hin as [?|Hin]; [by apply Hf|]. apply list_elem_of_singleton in Hin as ->. by exists k.
    + apply NoDup_app. split_and!; [done| |apply NoDup_singleton]. intros x Hx Hy. apply list_elem_of_singleton in Hy as ->. done.
    + apply NoDup_app. split_and!; [done| |apply NoDup_singleton]. intros x Hx Hy. apply list_elem_of_singleton in Hy as ->. done.
    + intros id l. rewrite latest_command. intros H. apply elem_of_app. left. by eapply Hr.
  - unfold ids, owners in *. split; unfold ids, owners; rewrite ?commands_app, ?fmap_app, ?app_nil_r; try done.
    intros id l. rewrite latest_receipt.
    case_bool_decide as He; [intros _; by rewrite <- He|by apply Hr].
Qed.

(** ** Running the methods on any store that shows a mailbox *)
Definition wp {S A} (m : prog S A) (s : S) (Q : S → result A → Prop) : Prop := Q (m s).1 (m s).2.
Lemma wp_bind {S A B} (m : prog S A) (k : A → prog S B) s Q :
  wp m s (λ s' r, match r with Ok a => wp (k a) s' Q | Err e => Q s' (Err e) end) → wp (m ≫= k) s Q.
Proof. unfold wp. rewrite prog_bind_eq. by destruct (m s) as [s' [a|e]]. Qed.

Section methods.
Context {S : Type} {HS : RowStore S} (view : S → Mailbox).
Context (view_recover : ∀ s, (recover_tail s).2 = Ok tt ∧ view (recover_tail s).1 = view s).
Context (view_read : ∀ s, read_rows s = (s, Ok (commands_of (view s), receipts_of (view s)))).
Context (view_append : ∀ r s, match append_row r s with
  | (s', Ok _) => view s' = view s ++ [norm_row r] | (s', Err _) => view s' = view s end).

Definition rows_of (j : Journal S) : Mailbox := view (jn_rows j).
(** [j'] shows the same rows as [j] and has drawn no fewer tokens. *)
Definition idle (j j' : Journal S) : Prop := rows_of j' = rows_of j ∧ (jn_tokens j ≤ jn_tokens j')%nat.
Lemma idle_refl j : idle j j.
Proof. done. Qed.
Lemma idle_trans j1 j2 j3 : idle j1 j2 → idle j2 j3 → idle j1 j3.
Proof. intros [? ?] [? ?]. split; [congruence|lia]. Qed.

Lemma wp_lift {A} (r : result A) (j : Journal S) Q : Q j r → wp (lift r) j Q.
Proof. done. Qed.
Lemma wp_raise_if b k msg (j : Journal S) (Q : Journal S → result unit → Prop) :
  (b = false → Q j (Ok tt)) → (∀ e, Q j (Err e)) → wp (raise_if b k msg) j Q.
Proof. destruct b; cbv [wp raise_if raise mret prog_ret fst snd]; auto. Qed.
Lemma wp_recover j (Q : Journal S → result unit → Prop) : (∀ j', idle j j' → Q j' (Ok tt)) → wp (on_rows recover_tail) j Q.
Proof.
  intros HQ. unfold wp, on_rows. destruct (view_recover (jn_rows j)) as [Hr Hv].
  destruct (recover_tail (jn_rows j)) as [s r]. simpl in *. subst r. by apply HQ.
Qed.
Lemma wp_read j (Q : Journal S → result (list ControlCommand * list ControlReceipt) → Prop) :
  (∀ j', idle j j' → Q j' (Ok (commands_of (rows_of j), receipts_of (rows_of j)))) → wp (on_rows read_rows) j Q.
Proof. intros HQ. unfold wp, on_rows. rewrite view_read. simpl. by apply HQ. Qed.
Lemma wp_now j (Q : Journal S → result float → Prop) : (∀ j' t, idle j j' → Q j' (Ok t)) → wp (now clock) j Q.
Proof. intros HQ. by apply HQ. Qed.
Lemma wp_fresh j (Q : Journal S → result string → Prop) :
  (∀ j', idle j j' → (jn_tokens j < jn_tokens j')%nat → Q j' (Ok (token_hex (jn_tokens j)))) → wp fresh j Q.
Proof. intros HQ. apply HQ; [split; [done|simpl; lia]|simpl; lia]. Qed.
Lemma wp_append r j (Q : Journal S → result unit → Prop) :
  (∀ j', rows_of j' = rows_of j ++ [norm_row r] → jn_tokens j' = jn_tokens j → Q j' (Ok tt)) →
  (∀ j' e, idle j j' → Q j' (Err e)) → wp (on_rows (append_row r)) j Q.
Proof.
  intros H1 H2. unfold wp, on_rows. pose proof (view_append r (jn_rows j)) as Hv.
  destruct (append_row r (jn_rows j)) as [s [[]|e]]; simpl; [by apply H1|]. apply H2. by split.
Qed.
Lemma wp_new_receipt id st t ctl detail cur j (Q : Journal S → result ControlReceipt → Prop) :
  (∀ j' r, idle j j' → cr_command_id r = id → cr_status r = st → cr_recorded_at r = t → Q j' (Ok r)) →
  (∀ j' e, idle j j' → Q j' (Err e)) → wp (new_receipt id st t ctl detail cur) j Q.
Proof.
  intros H1 H2. unfold new_receipt. apply wp_bind, wp_fresh. intros j' Hj _. apply wp_lift.
  destruct (validate_ControlReceipt _) as [r|e] eqn:Hv; [|by apply H2].
  apply validate_ControlReceipt_id in Hv as ->. by apply H1.
Qed.

(** ** What each method does to the mailbox *)
Definition good (j j' : Journal S) (res : result Outcome) : Prop :=
  grows (rows_of j) (rows_of j') ∧ (jn_tokens j ≤ jn_tokens j')%nat ∧
  mailbox_inv (rows_of j') (jn_tokens j') ∧ ∀ o, res = Ok o → outcome_ok (rows_of j) (rows_of j') o.
Lemma good_err j j' e : mailbox_inv (rows_of j) (jn_tokens j) → idle j j' → good j j' (Err e).
Proof.
  intros Hi [Hr Ht]. unfold good. rewrite Hr. split_and!; [apply rtc_refl|done|by eapply mailbox_inv_later|done].
Qed.
Lemma good_idle j j' o : mailbox_inv (rows_of j) (jn_tokens j) → idle j j' →
  outcome_ok (rows_of j) (rows_of j) o → good j j' (Ok o).
Proof.
  intros Hi [Hr Ht] Ho. unfold good. rewrite Hr. split_and!; [apply rtc_refl|done|by eapply mailbox_inv_later|].
  by intros ? [= <-].
Qed.
Lemma latest_ok rows id l : _latest id (receipts_of rows) = Ok l → latest rows id = Some l.
Proof. unfold _latest, latest. destruct (last _); [by intros [= ->]|done]. Qed.

(** A receipt appended for a command it may follow. *)
Lemma good_receipt j j1 j2 r o :
  mailbox_inv (rows_of j) (jn_tokens j) → idle j j1 →
  cr_command_id r ∈ ids (rows_of j) →
  (∀ l, latest (rows_of j) (cr_command_id r) = Some l → cr_status r ∈ record_allowed (cr_status l)) →
  rows_of j2 = rows_of j1 ++ [ReceiptRow r] → jn_tokens j2 = jn_tokens j1 →
  outcome_ok (rows_of j) (rows_of j ++ [ReceiptRow r]) o → good j j2 (Ok o).
Proof.
  intros Hi [Hr1 Ht1] Hid Hal Hr2 Ht2 Ho. unfold good. rewrite Hr2, Hr1, Ht2.
  assert (adds (rows_of j) (rows_of j ++ [ReceiptRow r])) as Ha by (by apply adds_receipt).
  split_and!; [by apply rtc_once|done| |by intros ? [= <-]].
  apply (mailbox_inv_later _ (jn_tokens j)); [done|]. eapply mailbox_inv_adds; [done|done|].
  intros c Hc. apply app_inv_head in Hc. done.
Qed.

Lemma found_command rows id c :
  find_first (λ c, bool_decide (cc_command_id c = id)) (commands_of rows) = Some c →
  c ∈ commands_of rows ∧ cc_command_id c = id ∧ id ∈ ids rows.
Proof.
  intros [Hc Hid]%find_first_Some. apply bool_decide_eq_true in Hid. split_and!; try done.
  rewrite <- Hid. by apply list_elem_of_fmap_2.
Qed.

Lemma get_good id j : mailbox_inv (rows_of j) (jn_tokens j) → wp (run_op clock (OpGet id)) j (good j).
Proof.
  intros Hi. cbn [run_op]. unfold get. apply wp_bind, wp_bind, wp_read. intros j1 H1.
  destruct (find_first _ _) as [c|] eqn:Hf; [|by apply good_err].
  destruct (found_command _ _ _ Hf) as (Hc & Hid & _).
  apply wp_bind, wp_lift. destruct (_latest _ _) as [l|e] eqn:Hl; [|by apply good_err].
  apply latest_ok in Hl. apply good_idle; [done|done|]. pose proof (latest_id _ _ _ Hl) as Hli. split; [|split; [done|congruence]].
  intros r Hr. simpl in Hr. apply list_elem_of_singleton in Hr as ->. by rewrite Hli.
Qed.

Lemma claim_good id controller j : mailbox_inv (rows_of j) (jn_tokens j) → wp (run_op clock (OpClaim id controller)) j (good j).
Proof.
  intros Hi. cbn [run_op]. unfold claim. apply wp_bind, wp_bind, wp_recover. intros j1 H1.
  apply wp_bind, wp_read. intros j2 H2. pose proof (idle_trans _ _ _ H1 H2) as H12.
  pose proof H1 as [Hrows _]. rewrite Hrows in *.
  destruct (find_first _ _) as [c|] eqn:Hf; [|by apply good_err].
  destruct (found_command _ _ _ Hf) as (Hc & Hid & Hin).
  apply wp_bind, wp_lift. destruct (_latest _ _) as [l|e] eqn:Hl; [|by apply good_err]. apply latest_ok in Hl.
  pose proof (latest_id _ _ _ Hl) as Hli.
  destruct (bool_decide (cr_status l = Status.QUEUED)) eqn:Hq; cbn [negb].
  - apply bool_decide_eq_true in Hq. apply wp_bind, wp_now. intros j3 t H3.
    pose proof (idle_trans _ _ _ H12 H3) as H13. apply wp_bind, wp_new_receipt.
    2:{ intros j4 e H4. apply good_err; [done|by eapply idle_trans]. }
    intros j4 r H4 Hrid Hrst Hrt. pose proof (idle_trans _ _ _ H13 H4) as H14.
    apply wp_bind, wp_append; [|intros j5 e H5; apply good_err; [done|by eapply idle_trans]].
    intros j5 Hr5 Ht5. eapply good_receipt; [done|exact H14| | |exact Hr5|exact Ht5|].
    + rewrite Hrid. by rewrite Hid.
    + intros l'. rewrite Hrid, Hid, Hl, Hrst. intros [= <-]. rewrite Hq. destruct (cc_expires_at c <=? t); simpl; set_solver.
    + split.
      * intros r' Hr'. simpl in Hr'. apply list_elem_of_singleton in Hr' as ->. rewrite latest_receipt. by rewrite bool_decide_true.
      * destruct (cc_expires_at c <=? t) eqn:He; cbn [negb]; [done|]. split_and!; [done| |].
        -- exists l. by rewrite Hrid, Hid.
        -- exists c. rewrite Hrid, Hrt. apply Z.leb_gt in He. done.
  - apply good_idle; [done|done|]. split; [|done].
    intros r Hr. simpl in Hr. apply list_elem_of_singleton in Hr as ->. by rewrite Hli.
Qed.

Lemma record_good id st ctl d cur j : mailbox_inv (rows_of j) (jn_tokens j) →
  wp (run_op clock (OpRecord id st ctl d cur)) j (good j).
Proof.
  intros Hi. cbn [run_op]. unfold record. apply wp_bind, wp_bind, wp_recover. intros j1 H1.
  apply wp_bind, wp_read. intros j2 H2. pose proof (idle_trans _ _ _ H1 H2) as H12.
  pose proof H1 as [Hrows _]. rewrite Hrows in *.
  apply wp_bind, wp_raise_if; [|intros e; by apply good_err]. intros Hk.
  apply negb_false_iff, existsb_elem_of in Hk as (c & Hc & Hid). apply bool_decide_eq_true in Hid.
  apply wp_bind, wp_lift. destruct (_latest _ _) as [l|e] eqn:Hl; [|by apply good_err]. apply latest_ok in Hl.
  pose proof (latest_id _ _ _ Hl) as Hli. destruct (bool_decide (cr_status l ∈ _)).
  - apply wp_bind, wp_raise_if; [|intros e; by apply good_err]. intros _. apply good_idle; [done|done|]. split; [|done].
    intros r Hr. simpl in Hr. apply list_elem_of_singleton in Hr as ->. by rewrite Hli.
  - apply wp_bind, wp_raise_if; [|intros e; by apply good_err]. intros Hal.
    apply negb_false_iff, bool_decide_eq_true in Hal.
    apply wp_bind, wp_fresh. intros j3 H3 _. apply wp_bind, wp_now. intros j4 t H4.
    pose proof (idle_trans _ _ _ (idle_trans _ _ _ H12 H3) H4) as H14.
    apply wp_bind, wp_lift. destruct (validate_ControlReceipt _) as [r|e] eqn:Hv; [|by apply good_err].
    apply validate_ControlReceipt_id in Hv as ->.
    apply wp_bind, wp_append; [|intros j5 e H5; apply good_err; [done|by eapply idle_trans]].
    intros j5 Hr5 Ht5. eapply good_receipt; [done|exact H14| | |exact Hr5|exact Ht5|]; cbn [cr_command_id cr_status].
    + rewrite <- Hid. by apply list_elem_of_fmap_2.
    + intros l'. rewrite Hl. by intros [= <-].
    + split; [|done]. intros r' Hr'. simpl in Hr'. apply list_elem_of_singleton in Hr' as ->. rewrite latest_receipt.
      by rewrite bool_decide_true.
Qed.

Lemma fresh_command rows n m c : mailbox_inv rows n → (n ≤ m)%nat → cc_command_id c = "cmd-" +:+ token_hex m →
  (cc_actor c, cc_idempotency_key c) ∉ owners rows →
  adds rows (rows ++ [CommandRow c]) ∧ mailbox_inv (rows ++ [CommandRow c]) (Datatypes.S m) ∧
  latest rows (cc_command_id c) = None.
Proof.
  intros Hi Hnm Hc Ho. assert (cc_command_id c ∉ ids rows) as Hid.
  { intros Hin. destruct (mi_fresh _ _ Hi _ Hin) as (k & Hk & He). rewrite Hc in He.
    assert (token_hex m = token_hex k) as Htk%(inj token_hex); [|lia].
    clear -He. unfold String.app in He. by injection He. }
  assert (latest rows (cc_command_id c) = None) as Hnone.
  { apply eq_None_not_Some. intros [l Hl]. apply Hid. by eapply mi_receipts. }
  assert (adds rows (rows ++ [CommandRow c])) as Ha by (by apply adds_command).
  split; [done|]. split; [|done]. eapply mailbox_inv_adds; [done|apply (mailbox_inv_later _ n); [lia|done]|].
  intros c' Hc'. apply app_inv_head in Hc'. injection Hc' as <-. exists m. split; [lia|done].
Qed.

Lemma submit_good b j : mailbox_inv (rows_of j) (jn_tokens j) → wp (run_op clock (OpSubmit b)) j (good j).
Proof.
  intros Hi. cbn [run_op]. unfold submit. apply wp_bind, wp_bind, wp_raise_if; [|intros e; by apply good_err]. intros _.
  apply wp_bind, wp_lift. destruct (_payload _) as [[bounded digest]|e]; [|by apply good_err].
  apply wp_bind, wp_recover. intros j1 H1. apply wp_bind, wp_read. intros j2 H2.
  pose proof (idle_trans _ _ _ H1 H2) as H12. pose proof H1 as [Hrows _]. rewrite Hrows in *.
  destruct (find_first _ _) as [c|] eqn:Hf.
  - apply find_first_Some in Hf as [Hc Hk]. apply wp_bind, wp_raise_if; [|intros e; by apply good_err]. intros _.
    apply wp_bind, wp_lift. destruct (_latest _ _) as [l|e] eqn:Hl; [|by apply good_err]. apply latest_ok in Hl.
    pose proof (latest_id _ _ _ Hl) as Hli. apply good_idle; [done|done|]. split; [|split_and!; [done| |done]].
    + intros r Hr. simpl in Hr. apply list_elem_of_singleton in Hr as ->. by rewrite Hli.
    + by exists c.
  - assert ((sb_actor b, sb_idempotency_key b) ∉ owners (rows_of j)) as Hown.
    { intros (c & He & Hc)%list_elem_of_fmap. rewrite find_first_None in Hf. specialize (Hf c Hc).
      injection He as He1 He2. simpl in Hf. by rewrite He1, He2, !bool_decide_true in Hf. }
    apply wp_bind, wp_now. intros j3 t H3. apply wp_bind, wp_fresh. intros j4 H4 Hlt.
    pose proof (idle_trans _ _ _ (idle_trans _ _ _ H12 H3) H4) as H14.
    apply wp_bind, wp_lift. destruct (validate_ControlCommand _) as [c|e] eqn:Hv; [|by apply good_err].
    apply validate_ControlCommand_id in Hv. 
    apply wp_bind, wp_new_receipt; [|intros j5 e H5; apply good_err; [done|by eapply idle_trans]].
    intros j5 r H5 Hrid Hrst _. pose proof (idle_trans _ _ _ H14 H5) as H15.
    destruct (fresh_command (rows_of j) (jn_tokens j) (jn_tokens j3) (norm_command c)) as (Ha & Hinv & Hnone);
      [done| |by subst c|by subst c|].
    { destruct H12 as [_ ?], H3 as [_ ?]. lia. }
    assert (jn_tokens j4 ≤ jn_tokens j5)%nat as Ht45 by apply H5.
    apply wp_bind, wp_append; [|intros j6 e H6; apply good_err; [done|by eapply idle_trans]].
    intros j6 Hr6 Ht6. destruct H15 as [Hr5 Ht5]. rewrite Hr5 in Hr6. cbn [norm_row] in Hr6.
    assert (mailbox_inv (rows_of j6) (jn_tokens j6)) as Hi6.
    { rewrite Hr6, Ht6. eapply mailbox_inv_later, Hinv. lia. }
    assert (grows (rows_of j) (rows_of j6)) as Hg by (rewrite Hr6; by apply rtc_once).
    assert (latest (rows_of j6) (cc_command_id c) = None) as Hnone6 by (by rewrite Hr6, latest_command).
    apply wp_bind, wp_append.
    + intros j7 Hr7 Ht7. cbn [norm_row] in Hr7. assert (adds (rows_of j6) (rows_of j7)) as Ha7.
      { rewrite Hr7. apply adds_receipt; rewrite Hrid; [|by rewrite Hnone6].
        rewrite Hr6. unfold ids. rewrite commands_app, fmap_app. apply elem_of_app. right. by left. }
      cbv [wp mret prog_ret fst snd]. unfold good. split_and!; [eapply rtc_r; done|lia| |].
      * rewrite Ht7. eapply mailbox_inv_adds; [exact Ha7|done|]. intros c' Hc'. rewrite Hr7 in Hc'. apply app_inv_head in Hc'. done.
      * intros o [= <-]. split.
        -- intros r' Hr'. simpl in Hr'. apply list_elem_of_singleton in Hr' as ->. rewrite Hr7, latest_receipt. by rewrite bool_decide_true.
        -- split_and!; [done| |by subst c]. exists (norm_command c). split; [|done].
           rewrite Hr7, Hr6, !commands_app. set_solver.
    + intros j7 e [Hr7 Ht7]. unfold good. rewrite Hr7. split_and!; [done|lia|by eapply mailbox_inv_later|done].
Qed.

Lemma pending_loop_good kind id t commands : ∀ j,
  mailbox_inv (rows_of j) (jn_tokens j) → NoDup (cc_command_id <$> commands) →
  (∀ c, c ∈ commands → c ∈ commands_of (rows_of j)) →
  wp (pending_loop kind id t commands (receipts_of (rows_of j))) j (λ j' res,
    grows (rows_of j) (rows_of j') ∧ (jn_tokens j ≤ jn_tokens j')%nat ∧ mailbox_inv (rows_of j') (jn_tokens j') ∧
    (∀ x, x ∉ (cc_command_id <$> commands) → latest (rows_of j') x = latest (rows_of j) x) ∧
    ∀ cs, res = Ok cs → ∀ c, c ∈ cs → c ∈ commands ∧ queued (rows_of j') (cc_command_id c)).
Proof.
  induction commands as [|c commands IH]; intros j Hi Hnd Hin; cbn [pending_loop].
  - cbv [wp mret prog_ret fst snd]. split_and!; [apply rtc_refl|done|done|done|]. intros cs [= <-] c Hc. by apply elem_of_nil in Hc.
  - rewrite fmap_cons in Hnd. apply NoDup_cons in Hnd as [Hc Hnd].
    assert (∀ c', c' ∈ commands → c' ∈ commands_of (rows_of j)) as Hin' by (intros c' Hc'; apply Hin; by right).
    apply wp_bind, wp_lift. destruct (_latest _ _) as [l|e] eqn:Hl; [|by split_and!; [apply rtc_refl|..]].
    apply latest_ok in Hl. destruct (bool_decide (cr_status l = Status.QUEUED)) eqn:Hq; cbn [negb].
    2:{ unfold wp. destruct (IH j Hi Hnd Hin') as (Hg & Ht & Hi' & Hfr & Hcs). split_and!; try done.
        - intros x Hx. rewrite fmap_cons in Hx. apply not_elem_of_cons in Hx as [_ Hx]. by apply Hfr.
        - intros cs Hok c' Hc'. destruct (Hcs cs Hok c' Hc'). split; [by right|done]. }
    apply bool_decide_eq_true in Hq. destruct (cc_expires_at c <=? t).
    + apply wp_bind, wp_new_receipt.
      2:{ intros j1 e [Hr1 Ht1]. rewrite Hr1. split_and!; [apply rtc_refl|done|by eapply mailbox_inv_later|done|done]. }
      intros j1 r [Hr1 Ht1] Hrid Hrst _. apply wp_bind, wp_append.
      2:{ intros j2 e [Hr2 Ht2]. rewrite Hr2, Hr1. split_and!; [apply rtc_refl|lia|eapply mailbox_inv_later; [|done]; lia|done|done]. }
      intros j2 Hr2 Ht2. rewrite Hr1 in Hr2. cbn [norm_row] in Hr2. assert (adds (rows_of j) (rows_of j2)) as Ha.
      { rewrite Hr2. apply adds_receipt; rewrite Hrid; [apply list_elem_of_fmap_2, Hin; by left|].
        rewrite Hl, Hrst. intros ? [= <-]. rewrite Hq. simpl. set_solver. }
      assert (mailbox_inv (rows_of j2) (jn_tokens j2)) as Hi2.
      { rewrite Ht2. eapply mailbox_inv_adds; [exact Ha|by eapply mailbox_inv_later|].
        intros c' Hc'. rewrite Hr2 in Hc'. by apply app_inv_head in Hc'. }
      assert (receipts_of (rows_of j) ++ [r] = receipts_of (rows_of j2)) as -> by (by rewrite Hr2, receipts_app).
      unfold wp. destruct (IH j2 Hi2 Hnd) as (Hg & Ht & Hi' & Hfr & Hcs).
      { intros c' Hc'. rewrite Hr2, commands_app, app_nil_r. by apply Hin'. }
      split_and!; [eapply rtc_l; done|lia|done| |].
      * intros x Hx. rewrite fmap_cons in Hx. apply not_elem_of_cons in Hx as [Hxc Hx]. rewrite Hfr by done.
        rewrite Hr2, latest_receipt, Hrid. by rewrite bool_decide_false.
      * intros cs Hok c' Hc'. destruct (Hcs cs Hok c' Hc'). split; [by right|done].
    + apply wp_bind. unfold wp at 1. destruct (IH j Hi Hnd Hin') as (Hg & Ht & Hi' & Hfr & Hcs).
      assert (∀ x, x ∉ cc_command_id <$> c :: commands → latest (rows_of (pending_loop kind id t commands (receipts_of (rows_of j)) j).1) x = latest (rows_of j) x) as Hfr'.
      { intros x Hx. rewrite fmap_cons in Hx. apply not_elem_of_cons in Hx as [_ Hx]. by apply Hfr. }
      destruct (pending_loop kind id t commands _ j) as [j' [rest|e]]; cbn [fst snd] in *; [|by split_and!].
      cbv [wp mret prog_ret fst snd]. split_and!; try done. intros cs [= <-] c' Hc'.
      assert (c' = c ∨ c' ∈ rest) as [->|Hr] by (case_match; set_solver).
      * split; [by left|]. exists l. rewrite Hfr by done. done.
      * destruct (Hcs rest eq_refl c' Hr). split; [by right|done].
Qed.

Lemma pending_good kind id j : mailbox_inv (rows_of j) (jn_tokens j) → wp (run_op clock (OpPending kind id)) j (good j).
Proof.
  intros Hi. cbn [run_op]. unfold pending. apply wp_bind, wp_bind, wp_recover. intros j1 H1.
  apply wp_bind, wp_read. intros j2 H2. pose proof (idle_trans _ _ _ H1 H2) as H12.
  pose proof H1 as [Hrows _]. rewrite Hrows in *. apply wp_bind, wp_now. intros j3 t H3.
  pose proof (idle_trans _ _ _ H12 H3) as [Hr3 Ht3]. rewrite <- Hr3 in *.
  assert (mailbox_inv (rows_of j3) (jn_tokens j3)) as Hi3 by (by eapply mailbox_inv_later).
  unfold wp at 1. destruct (pending_loop_good kind id t (commands_of (rows_of j3)) j3) as (Hg & Ht & Hi' & _ & Hcs);
    [done|apply (mi_ids _ _ Hi3)|done|].
  destruct (pending_loop _ _ _ _ _ j3) as [j' [cs|e]]; cbn [fst snd] in *.
  - cbv [wp mret prog_ret fst snd]. unfold good. rewrite <- Hr3. split_and!; [done|lia|done|]. intros o [= <-].
    split; [intros r Hr; by apply elem_of_nil in Hr|]. intros c Hc. destruct (Hcs cs eq_refl c Hc).
    split; [by eapply grows_command|done].
  - unfold good. rewrite <- Hr3. split_and!; [done|lia|done|done].
Qed.

Lemma op_good op j : mailbox_inv (rows_of j) (jn_tokens j) → wp (run_op clock op) j (good j).
Proof.
  intros Hi. destruct op; [by apply submit_good|by apply record_good|by apply claim_good|by apply get_good|by apply pending_good].
Qed.
End methods.

(** ** Histories *)
Definition mailbox_rows (j : Journal Mailbox) : Mailbox := jn_rows j.
Lemma step_good step (j : Journal Mailbox) : mailbox_inv (jn_rows j) (jn_tokens j) →
  let '(j', res) := run_step clock (S:=Mailbox) step j in
  grows (jn_rows j) (jn_rows j') ∧ mailbox_inv (jn_rows j') (jn_tokens j') ∧
  ∀ o, res = Ok o → outcome_ok (jn_rows j) (jn_rows j') o.
Proof.
  intros Hi. destruct step as [op [life|]]; unfold run_step; cbn [fst snd].
  - pose proof (op_good (S:=Killable Mailbox) k_store) as H.
    assert (∀ s : Killable Mailbox, (recover_tail s).2 = Ok tt ∧ k_store (recover_tail s).1 = k_store s) as Hrec by done.
    assert (∀ s : Killable Mailbox, read_rows s = (s, Ok (commands_of (k_store s), receipts_of (k_store s)))) as Hread by (by intros []).
    specialize (H Hrec Hread). assert (∀ r (s : Killable Mailbox), match append_row r s with
      | (s', Ok _) => k_store s' = k_store s ++ [norm_row r] | (s', Err _) => k_store s' = k_store s end) as Happ.
    { intros r s. cbn [append_row killable_mailbox]. unfold append_or_die. rewrite prog_bind_eq. unfold raise_if, raise.
      destruct (_ <? _)%nat; cbn [mret prog_ret]; [done|]. unfold write_or_die. by destruct (_ <=? _)%nat. }
    specialize (H Happ op {| jn_rows := {| k_store := jn_rows j; k_life := life |}; jn_ticks := jn_ticks j; jn_tokens := jn_tokens j |} Hi).
    unfold wp, good, rows_of in H. destruct (run_op clock op _) as [j' res]. cbn [fst snd jn_rows jn_tokens k_store] in *.
    destruct H as (? & _ & ? & ?). done.
  - pose proof (op_good (S:=Mailbox) id) as H.
    assert (∀ s : Mailbox, (recover_tail s).2 = Ok tt ∧ id (recover_tail s).1 = id s) as Hrec by done.
    assert (∀ s : Mailbox, read_rows s = (s, Ok (commands_of (id s), receipts_of (id s)))) as Hread by done.
    specialize (H Hrec Hread). assert (∀ r (s : Mailbox), match append_row r s with
      | (s', Ok _) => id s' = id s ++ [norm_row r] | (s', Err _) => id s' = id s end) as Happ.
    { intros r s. cbn [append_row mailbox_store]. rewrite prog_bind_eq. unfold raise_if, raise, modify.
      by destruct (_ <? _)%nat. }
    specialize (H Happ op j Hi). unfold wp, good, rows_of, id in H.
    destruct (run_op clock op j) as [j' res]. cbn [fst snd] in *. destruct H as (? & _ & ? & ?). done.
Qed.

Definition sound (rows : Mailbox) : Prop := ∃ n, mailbox_inv rows n.
(** The outcome at one place of a history, and at two. *)
Lemma trace_one steps (j : Journal Mailbox) i o : mailbox_inv (jn_rows j) (jn_tokens j) →
  (run_trace clock (S:=Mailbox) steps j).2 !! i = Some (Ok o) →
  ∃ b b', grows (jn_rows j) b ∧ sound b ∧ outcome_ok b b' o ∧ grows b b'.
Proof.
  revert j i. induction steps as [|step steps IH]; intros j i Hi H; [done|]. cbn [run_trace] in H.
  pose proof (step_good step j Hi) as Hs. destruct (run_step clock step j) as [j1 res]. destruct Hs as (Hg & Hi1 & Ho).
  specialize (IH j1). destruct (run_trace clock steps j1) as [j2 rs]. cbn [snd] in *. destruct i as [|i]; cbn in H.
  - injection H as ->. exists (jn_rows j), (jn_rows j1). split_and!; [apply rtc_refl|by eexists|by apply Ho|done].
  - destruct (IH i Hi1 H) as (b & b' & Hb & ? & ? & ?). exists b, b'. split_and!; try done. by trans (jn_rows j1).
Qed.
Lemma trace_two steps (j : Journal Mailbox) i k o o' : mailbox_inv (jn_rows j) (jn_tokens j) → (i < k)%nat →
  (run_trace clock (S:=Mailbox) steps j).2 !! i = Some (Ok o) →
  (run_trace clock (S:=Mailbox) steps j).2 !! k = Some (Ok o') →
  ∃ a a' b b', outcome_ok a a' o ∧ grows a' b ∧ sound b ∧ outcome_ok b b' o' ∧ grows b b'.
Proof.
  revert j i k. induction steps as [|step steps IH]; intros j i k Hi Hik H H'; [done|]. cbn [run_trace] in H, H'.
  pose proof (step_good step j Hi) as Hs. destruct (run_step clock step j) as [j1 res]. destruct Hs as (Hg & Hi1 & Ho).
  specialize (IH j1). pose proof (trace_one steps j1) as Hone. destruct (run_trace clock steps j1) as [j2 rs]. cbn [snd] in *.
  destruct k as [|k]; [lia|]. cbn in H'. destruct i as [|i]; cbn in H.
  - injection H as ->. destruct (Hone k o' Hi1 H') as (b & b' & Hb & ? & ? & ?). exists (jn_rows j), (jn_rows j1), b, b'.
    split_and!; try done. by apply Ho.
  - apply (IH i k Hi1 ltac:(lia) H H').
Qed.

Lemma new_mailbox_inv : mailbox_inv (jn_rows new_mailbox) (jn_tokens new_mailbox).
Proof. split; [intros id Hid; by apply elem_of_nil in Hid|constructor|constructor|done]. Qed.

Lemma unique_by {A B} (f : A → B) xs x y : NoDup (f <$> xs) → x ∈ xs → y ∈ xs → f x = f y → x = y.
Proof.
  intros Hnd [i Hi]%list_elem_of_lookup [k Hk]%list_elem_of_lookup Hf.
  assert (i = k) as ->; [|congruence]. apply (NoDup_lookup _ i k (f x) Hnd); rewrite list_lookup_fmap.
  - by rewrite Hi. - rewrite Hk. simpl. by f_equal.
Qed.

(** C27: over any history of calls on the journal file, kills included.  (1) A grant
    of [claim] is an APPLYING receipt, and no command is granted twice.  (2) Once a
    call reports a terminal receipt of a command, every later report on that command
    is that very receipt.  (3) A submission with an actor and key that an earlier one
    reported returns the same command as a duplicate.  (4) A grant made after a
    command was submitted is recorded strictly before the command expires. *)
Theorem command_lifecycle steps outs i k o o' :
  outs = (run_trace clock (S:=ControlFile) steps new_file_journal).2 →
  (i < k)%nat → outs !! i = Some (Ok o) → outs !! k = Some (Ok o') →
  (∀ r r', o = Claimed r true → o' = Claimed r' true →
     cr_status r = Status.APPLYING ∧ cr_command_id r ≠ cr_command_id r') ∧
  (∀ r r', r ∈ reports o → r' ∈ reports o' → cr_command_id r = cr_command_id r' →
     cr_status r ∈ TERMINAL_CONTROL_STATUSES → r' = r) ∧
  (∀ c r d c' r' d', o = Submitted c r d → o' = Submitted c' r' d' → cc_actor c = cc_actor c' →
     cc_idempotency_key c = cc_idempotency_key c' → cc_command_id c = cc_command_id c' ∧ d' = true) ∧
  (∀ c r d r', o = Submitted c r d → o' = Claimed r' true → cr_command_id r' = cc_command_id c →
     cr_recorded_at r' < cc_expires_at c).
Proof.
  intros Houts Hik Hi Hk. pose proof (proj1 (run_trace_sim clock steps _ _ new_journal_related)) as Heq.
  subst outs. rewrite Heq in Hi, Hk. clear Heq.
  destruct (trace_two _ _ _ _ _ _ new_mailbox_inv Hik Hi Hk) as (a & a' & b & b' & [Hr Ho] & Hg & [n Hinv] & [Hr' Ho'] & Hg').
  split_and!.
  - intros r r' -> ->. destruct Ho as (Hst & _), Ho' as (_ & (l & Hl & Hq) & _). split; [done|]. intros He.
    destruct (grows_settled _ _ (cr_command_id r) r Hg) as (l' & Hl' & Hs); [apply Hr; by left|unfold settled; by rewrite Hst|].
    rewrite He, Hl in Hl'. injection Hl' as <-. unfold settled in Hs. by rewrite Hq in Hs.
  - intros r r' Hin Hin' He Ht. specialize (Hr r Hin). specialize (Hr' r' Hin').
    assert (latest b' (cr_command_id r) = Some r) as Hb.
    { eapply (grows_terminal a'); [by etrans|done|by apply bool_decide_eq_true]. }
    rewrite He, Hr' in Hb. by injection Hb.
  - intros c r d c' r' d' -> -> Ha Hkey. destruct Ho as (_ & (c0 & Hc0 & Hs) & _), Ho' as (_ & _ & Hd).
    apply (grows_command _ _ _ Hg) in Hc0. destruct Hs as (Hs1 & Hs2 & Hs3 & _).
    destruct d'.
    + split; [|done]. assert (c0 = c') as ->; [|done].
      eapply (unique_by _ _ _ _ (mi_owners _ _ Hinv)); [done|done|]. simpl. congruence.
    + destruct Hd. apply list_elem_of_fmap. exists c0. split; [congruence|done].
  - intros c r d r' -> -> He. destruct Ho as (_ & (c0 & Hc0 & Hs) & _), Ho' as (_ & _ & (c1 & Hc1 & Hid & Hlt)).
    apply (grows_command _ _ _ Hg) in Hc0. destruct Hs as (Hs1 & _ & _ & Hs4). rewrite Hs4.
    assert (c0 = c1) as ->; [|done]. eapply (unique_by _ _ _ _ (mi_ids _ _ Hinv)); [done|done|congruence].
Qed.
End lifecycle.
