(* ===== verification/ControlSample.v ===== *)
(** * A control journal at work

    A platform whose floats read back, a history on the journal file with a killed
    writer in it, and the witnesses of the journal's theorems. *)
From S2P Require Import Prelude PyDict PyFloat Canonical Sample Json Models Store Control ControlFile ControlCodec ControlRefinement ControlLifecycle.
From stdpp Require Import pretty.
From Stdlib Require Import Ascii.
Local Open Scope Z_scope.

(** ** Floats in binary scientific notation *)
Fixpoint bits (p : positive) : string :=
  match p with
  | xH => "1"
  | xO p => bits p +:+ "0"
  | xI p => bits p +:+ "1"
  end.
Fixpoint bits_value (acc : N) (s : string) : N :=
  match s with
  | EmptyString => acc
  | String c s => bits_value (2 * acc + (N_of_ascii c - 48)) s
  end.
Definition bits_N (n : N) : string := match n with N0 => "0" | Npos p => bits p end.
Fixpoint odd_part (p : positive) : positive * N :=
  match p with xO p => let '(m, k) := odd_part p in (m, N.succ k) | _ => (p, 0%N) end.
Definition repr_pos (p : positive) : string :=
  let '(m, k) := odd_part p in bits m +:+ ".0e+" +:+ bits_N k.
Definition binary_repr (f : float) : string :=
  match f with
  | Z0 => "0.0e+0"
  | Zpos p => repr_pos p
  | Zneg p => "-" +:+ repr_pos p
  end.
Definition value_pos (s : string) : N :=
  let '(m, r) := span is_digit s in
  N.shiftl (bits_value 0 m) (bits_value 0 (String.substring 4 (String.length r - 4) r)).
Definition binary_value (s : string) : float :=
  match s with
  | String c s' => if (N_of_ascii c =? 45)%N then - Z.of_N (value_pos s') else Z.of_N (value_pos s)
  | EmptyString => 0
  end.

Lemma bits_value_app acc s t : bits_value acc (s +:+ t) = bits_value (bits_value acc s) t.
Proof. revert acc. induction s as [|c s IH]; intros acc; [done|]. rewrite str_app_cons. simpl. apply IH. Qed.
Lemma bits_value_bits p : bits_value 0 (bits p) = Npos p.
Proof. induction p as [p IH|p IH|]; cbn [bits]; [rewrite bits_value_app, IH; simpl; lia..|done]. Qed.
Lemma bits_value_N n : bits_value 0 (bits_N n) = n.
Proof. destruct n; [done|apply bits_value_bits]. Qed.
Lemma bits_digits p : str_forallb is_digit (bits p) = true.
Proof. induction p as [p IH|p IH|]; cbn [bits]; rewrite ?str_forallb_app, ?IH; done. Qed.
Lemma bits_N_digits n : str_forallb is_digit (bits_N n) = true ∧ bits_N n ≠ "".
Proof.
  destruct n as [|p]; [done|]. split; [apply bits_digits|]. intros H. pose proof (bits_value_bits p) as Hv.
  cbn [bits_N] in H. by rewrite H in Hv.
Qed.
Lemma bits_first p : ∃ s, bits p = String "1" s.
Proof. induction p as [p [s Hs]|p [s Hs]|]; cbn [bits]; rewrite ?Hs; eauto. Qed.
Lemma odd_part_value p : let '(m, k) := odd_part p in N.shiftl (Npos m) k = Npos p.
Proof.
  induction p as [p IH|p IH|]; simpl; [done| |done]. destruct (odd_part p) as [m k].
  rewrite N.shiftl_succ_r, IH. done.
Qed.
Lemma repr_pos_value p : value_pos (repr_pos p) = Npos p.
Proof.
  unfold value_pos, repr_pos. pose proof (odd_part_value p) as H. destruct (odd_part p) as [m k].
  rewrite span_all; [|apply bits_digits|right; eexists _, _; split; [reflexivity|done]].
  rewrite bits_value_bits, str_length_app.
  replace (String.length ".0e+" + String.length (bits_N k) - 4)%nat with (String.length (bits_N k)) by (simpl; lia).
  rewrite (substring_app_r ".0e+"), substring_all, bits_value_N. done.
Qed.
Lemma repr_pos_text p : nat_text (bits (odd_part p).1) = true ∧ float_text (repr_pos p) = true ∧
  str_forallb num_char (repr_pos p) = true ∧ ∃ s, repr_pos p = String "1" s.
Proof.
  unfold repr_pos. destruct (odd_part p) as [m k]. cbn [fst]. destruct (bits_first m) as [s Hs].
  pose proof (bits_digits m) as Hd. destruct (bits_N_digits k) as [Hk Hne].
  assert (nat_text (bits m) = true) as Ht.
  { unfold nat_text. rewrite Hs in *. rewrite Hd. done. }
  assert (∀ t, str_forallb is_digit t = true → str_forallb num_char t = true) as Hnum.
  { intros t. apply str_forallb_weaken. intros c Hc. unfold num_char. by rewrite Hc. }
  split_and!; [done| | |].
  - assert (drop_minus (bits m +:+ ".0e+" +:+ bits_N k) = bits m +:+ ".0e+" +:+ bits_N k) as Hdm by (by rewrite Hs).
    unfold float_text. rewrite Hdm, span_all by (done || (right; eexists _, _; split; [reflexivity|done])).
    rewrite Ht. change (".0e+" +:+ bits_N k) with (String "." (String "0" (String "e" (String "+" (bits_N k))))).
    destruct (bits_N k) as [|c t]; [done|]. change (str_forallb is_digit (String c t) && true = true). by rewrite Hk.
  - rewrite !str_forallb_app, (Hnum _ Hd), (Hnum _ Hk). done.
  - rewrite Hs. eauto.
Qed.

Definition journal_platform : Platform := {|
  sha256_hex s := hex_digits 64 (checksum 7 s) "";
  float_repr := binary_repr;
  datetime_iso t := match t with
    | Naive us => hex_digits 8 (Z.to_N us) "" | Aware us => hex_digits 8 (Z.to_N us) "Z" end;
  sha256_hex_shape s := hex_digits_shape 64 (checksum 7 s) "" 0 eq_refl;
|}.
#[local] Existing Instance journal_platform.
#[export] Instance journal_floats : FloatText.
Proof.
  refine {| float_of_text s := Some (binary_value s) |}.
  - intros [|p|p]; [done|by apply repr_pos_text|]. pose proof (repr_pos_text p) as (_ & Ht & _ & s & Hs).
    cbn [float_repr journal_platform binary_repr]. revert Ht. rewrite Hs. unfold float_text. done.
  - intros [|p|p]; [done|by apply repr_pos_text|]. cbn [float_repr journal_platform binary_repr].
    rewrite str_forallb_app. by rewrite (proj1 (proj2 (proj2 (repr_pos_text p)))).
  - intros [|p|p]; [done| |]; cbn [float_repr journal_platform binary_repr]; unfold binary_value; f_equal.
    + destruct (repr_pos_text p) as (_ & _ & _ & s & Hs). pose proof (repr_pos_value p) as Hv. rewrite Hs in *.
      change (N_of_ascii "1" =? 45)%N with false. cbv beta iota. by rewrite Hv.
    + change ("-" +:+ repr_pos p) with (String "-" (repr_pos p)). cbv beta iota.
      change (N_of_ascii "-" =? 45)%N with true. cbv beta iota. by rewrite repr_pos_value.
Defined.
Lemma pretty_nat_inj n m : pretty (N.of_nat n) = pretty (N.of_nat m) → n = m.
Proof. intros H%(inj pretty). lia. Qed.
#[export] Instance journal_tokens : Tokens := {| token_hex n := pretty (N.of_nat n); token_hex_inj := pretty_nat_inj |}.

(** ** A history *)
Definition journal_clock (tick : nat) : float := f_of_Z (100 + Z.of_nat tick).
Definition cancel_run : Submission := {|
  sb_actor := "alice"; sb_idempotency_key := "key-1"; sb_target_kind := TargetKind.RUN; sb_target_id := "run-1";
  sb_action := Action.CANCEL; sb_payload := []; sb_expected_state := "running"; sb_ttl_s := f_of_Z 60 |}.
(** Submitted, claimed, claimed again, applied, submitted once more. *)
Definition journal_steps : list (ControlOp * option nat) := [
  (OpSubmit cancel_run, None);
  (OpClaim "cmd-0" "owner-1", None);
  (OpClaim "cmd-0" "owner-2", None);
  (OpRecord "cmd-0" Status.APPLIED "owner-1" "stopped" (Some 7), None);
  (OpSubmit cancel_run, None)].
Definition mailbox_outcomes (steps : list (ControlOp * option nat)) : list (result Outcome) :=
  (run_trace journal_clock (S:=Mailbox) steps new_mailbox).2.
Abbreviation file_outcomes steps := (run_trace journal_clock (S:=ControlFile) steps new_file_journal).2.
Lemma file_outcomes_mailbox steps : file_outcomes steps = mailbox_outcomes steps.
Proof. apply run_trace_sim, new_journal_related. Qed.

Definition granted_first (outs : list (result Outcome)) : bool :=
  match outs with
  | Ok (Submitted c _ false) :: Ok (Claimed g true) :: _ => bool_decide (cr_command_id g = cc_command_id c)
  | _ => false
  end.
Lemma journal_granted_first : granted_first (mailbox_outcomes journal_steps) = true.
Proof. vm_compute. reflexivity. Qed.
Lemma granted_first_spec outs : granted_first outs = true → ∃ c r g,
  outs !! 0%nat = Some (Ok (Submitted c r false)) ∧ outs !! 1%nat = Some (Ok (Claimed g true)) ∧
  cr_command_id g = cc_command_id c.
Proof.
  destruct outs as [|[[c r []| | | |]|] [|[[|?|g []|?|?]|] outs]]; try discriminate.
  intros H%bool_decide_eq_true. by exists c, r, g.
Qed.

(** The claim granted before the command expires, and the history it is part of. *)
Lemma command_lifecycle_witness : ∃ c r g,
  file_outcomes journal_steps !! 0%nat = Some (Ok (Submitted c r false)) ∧
  file_outcomes journal_steps !! 1%nat = Some (Ok (Claimed g true)) ∧
  cr_command_id g = cc_command_id c ∧ cr_recorded_at g < cc_expires_at c.
Proof.
  pose proof journal_granted_first as H. rewrite <- file_outcomes_mailbox in H.
  apply granted_first_spec in H as (c & r & g & H0 & H1 & Hid). exists c, r, g. split_and!; [done..|].
  destruct (command_lifecycle journal_clock journal_steps _ 0 1 (Submitted c r false) (Claimed g true) eq_refl
    ltac:(lia) H0 H1) as (_ & _ & _ & H).
  exact (H c r false g eq_refl eq_refl Hid).
Defined.

(** The writer dies after its command row, before its receipt row. *)
Definition killed_steps : list (ControlOp * option nat) := [
  (OpSubmit cancel_run, Some 700%nat);
  (OpPending (Some TargetKind.SESSION) "session-9", None);
  (OpSubmit cancel_run, None);
  (OpClaim "cmd-0" "owner-1", None)].
Definition no_receipt : result Outcome := Err (Exn ControlCorruptionError "control command has no receipt").
(** From then on [pending] raises for every owner and target, and so do a retry of
    the submission and a claim of the command: the journal stays unusable. *)
Theorem crash_between_rows_blocks_pending :
  file_outcomes killed_steps = [Err (Exn BaseException_ "killed"); no_receipt; no_receipt; no_receipt].
Proof. rewrite file_outcomes_mailbox. vm_compute. reflexivity. Qed.
(** The history with the killed writer, on the file and on the rows. *)
Lemma journal_refines_mailbox_witness :
  file_outcomes killed_steps = mailbox_outcomes killed_steps ∧ length (mailbox_outcomes killed_steps) = 4%nat.
Proof. split; [exact (proj1 (journal_refines_mailbox journal_clock killed_steps))|vm_compute; reflexivity]. Defined.
