(* ===== verification/Activity.v ===== *)
(** * Activity events ([activity.py], the documents)

    The identity attached to an observation, the event, its validation, its digest
    and the bounding and redaction of worker-authored text.  The secret patterns are
    the same two expressions [control.py] has.  A [str] of the model holds code points
    below 256, so the ellipsis that marks a cut stands for U+2026; like it, it is no
    whitespace and JSON text writes it as six characters.  A row read back is checked
    at run time only, so values of other types than the fields' mostly raise; here
    they always do. *)
From S2P Require Import Prelude PyDict PyFloat Canonical Json Models Store JsonLines Control ControlFile.
From Stdlib Require Import Ascii.
Local Open Scope Z_scope.

Definition SCHEMA_VERSION : Z := 1.
Definition DEFAULT_MAX_BYTES : nat := Z.to_nat 16000000.
Definition DEFAULT_MAX_EVENT_BYTES : nat := Z.to_nat 16384.
Definition MAX_REPLAY_LIMIT : Z := 500.
Definition MAX_SUMMARY_CHARS : nat := Z.to_nat 4096.

Module ActivityKind.
Inductive t := STATUS | PHASE | ASSISTANT_TEXT | TOOL_CALL | TOOL_RESULT | FILE_CHANGE | TEST | BUDGET | DISPOSITION | ERROR.
#[export] Instance eq_dec : EqDecision t.
Proof. solve_decision. Defined.
Definition value (k : t) : string :=
  match k with
  | STATUS => "status" | PHASE => "phase" | ASSISTANT_TEXT => "assistant_text" | TOOL_CALL => "tool_call"
  | TOOL_RESULT => "tool_result" | FILE_CHANGE => "file_change" | TEST => "test" | BUDGET => "budget"
  | DISPOSITION => "disposition" | ERROR => "error"
  end.
Definition all : list t :=
  [STATUS; PHASE; ASSISTANT_TEXT; TOOL_CALL; TOOL_RESULT; FILE_CHANGE; TEST; BUDGET; DISPOSITION; ERROR].
End ActivityKind.
Export (hints) ActivityKind.

(** ** Bounding and redaction *)
Definition ellipsis : string := String (ascii_of_N 183) "".
Definition _bounded_text (value : string) (limit : nat) : string :=
  let text := drop_nul value in
  if (String.length text <=? limit)%nat then text else String.substring 0 (limit - 1) text +:+ ellipsis.
Definition sanitize_activity_text (value : string) (limit : nat) : string :=
  let s := _bounded_text value limit in redact (String.length s) s.
(** [out[key] = ...] in the order of the members *)
Definition dict_of (ms : list (string * json)) : list (string * json) :=
  items (foldl (λ d m, <[m.1 := m.2]> d) (∅ : dict string json) ms).
Fixpoint sanitize_activity_data (value : json) (depth : nat) : json :=
  if (4 <? depth)%nat then JStr "[depth-limited]"
  else
    match value with
    | JStr s => JStr (sanitize_activity_text s 2048)
    | JObj ms =>
        JObj (dict_of (take 64 (map (λ m,
          let key := _bounded_text m.1 100 in
          (key, if _SECRET_KEY key then JStr "[redacted]" else sanitize_activity_data m.2 (S depth))) ms)))
    | JArr xs => JArr (take 64 (map (λ x, sanitize_activity_data x (S depth)) xs))
    | _ => value
    end.

(** ** The identity of an observation *)
Record ActivityContext := {
  ac_session_id : string; ac_run_id : string; ac_agent_id : string; ac_job_id : string; ac_role : string;
  ac_phase : string; ac_source : string; ac_card_id : string; ac_card_hash : string; ac_trajectory_id : string;
  ac_team_id : string; ac_parent_agent_id : string; ac_contract_id : string; ac_contract_hash : string;
  ac_plan_hash : string; ac_lease_id : string; ac_attempt_id : string; ac_base_commit : string; ac_evidence_id : string }.
#[export] Instance ActivityContext_eq_dec : EqDecision ActivityContext.
Proof. solve_decision. Defined.
(** The fields in the order of their declaration. *)
Definition context_fields (c : ActivityContext) : list (string * string) :=
  [("session_id", ac_session_id c); ("run_id", ac_run_id c); ("agent_id", ac_agent_id c); ("job_id", ac_job_id c);
   ("role", ac_role c); ("phase", ac_phase c); ("source", ac_source c); ("card_id", ac_card_id c);
   ("card_hash", ac_card_hash c); ("trajectory_id", ac_trajectory_id c); ("team_id", ac_team_id c);
   ("parent_agent_id", ac_parent_agent_id c); ("contract_id", ac_contract_id c); ("contract_hash", ac_contract_hash c);
   ("plan_hash", ac_plan_hash c); ("lease_id", ac_lease_id c); ("attempt_id", ac_attempt_id c);
   ("base_commit", ac_base_commit c); ("evidence_id", ac_evidence_id c)].
Definition id_fields (c : ActivityContext) : list (string * string) :=
  [("session_id", ac_session_id c); ("run_id", ac_run_id c); ("agent_id", ac_agent_id c); ("job_id", ac_job_id c);
   ("role", ac_role c); ("phase", ac_phase c); ("source", ac_source c); ("card_id", ac_card_id c);
   ("trajectory_id", ac_trajectory_id c); ("team_id", ac_team_id c); ("parent_agent_id", ac_parent_agent_id c);
   ("contract_id", ac_contract_id c); ("lease_id", ac_lease_id c); ("attempt_id", ac_attempt_id c)].
Definition digest_fields (c : ActivityContext) : list (string * string) :=
  [("card_hash", ac_card_hash c); ("contract_hash", ac_contract_hash c); ("plan_hash", ac_plan_hash c);
   ("evidence_id", ac_evidence_id c)].
Definition validate_ActivityContext (c : ActivityContext) : result ActivityContext :=
  check_each (id_fields c) (λ nv, value_error (negb (is_empty_str nv.2) && negb (_SAFE_ID nv.2))
    ("activity " +:+ nv.1 +:+ " must be a bounded opaque id")) ;;
  value_error (is_empty_str (ac_session_id c)) "activity session_id is required" ;;
  value_error (is_empty_str (ac_source c)) "activity source is required" ;;
  check_each (digest_fields c) (λ nv, value_error (negb (is_empty_str nv.2) && negb (is_digest nv.2))
    ("activity " +:+ nv.1 +:+ " must be a sha256 digest")) ;;
  value_error (negb (is_empty_str (ac_base_commit c)) && negb (hex_of_length 40 (ac_base_commit c)))
    "activity base_commit must be a full lowercase commit" ;;
  mret c.

(** ** Events *)
(** [ae_context] groups the nineteen fields an event shares with its context. *)
Record ActivityEvent := {
  ae_schema_version : Z; ae_cursor : Z; ae_event_id : string; ae_published_at : float;
  ae_context : ActivityContext; ae_kind : ActivityKind.t; ae_summary : string;
  ae_data : list (string * json); ae_artifact_refs : list string; ae_authority : string }.
Definition validate_ActivityEvent (e : ActivityEvent) : result ActivityEvent :=
  value_error (negb (bool_decide (ae_schema_version e = SCHEMA_VERSION))) "unsupported activity schema_version" ;;
  value_error (ae_cursor e <? 1) "activity cursor must be positive" ;;
  value_error (negb (is_digest (ae_event_id e))) "activity event_id must be a sha256 digest" ;;
  value_error (ae_published_at e <=? 0) "activity published_at must be a positive timestamp" ;;
  validate_ActivityContext (ae_context e) ;;
  value_error (negb (bool_decide (ae_authority e = "observation"))) "activity events never carry control authority" ;;
  value_error (MAX_SUMMARY_CHARS <? String.length (ae_summary e))%nat "activity summary is not bounded" ;;
  value_error (has_nul (ae_summary e)) "activity summary contains NUL" ;;
  check_each (ae_artifact_refs e) (λ ref, value_error (negb (is_digest ref)) "activity artifact refs must be sha256 digests") ;;
  mret e.

Section events.
Context {PF : Platform} {FT : FloatText}.

(** [to_dict] without [event_id], and with it *)
Definition unsigned_event (e : ActivityEvent) : list (string * json) :=
  [("schema_version", JInt (ae_schema_version e)); ("cursor", JInt (ae_cursor e));
   ("published_at", JFloat (ae_published_at e))] ++
  ((λ nv, (nv.1, JStr nv.2)) <$> context_fields (ae_context e)) ++
  [("kind", JStr (ActivityKind.value (ae_kind e))); ("summary", JStr (ae_summary e)); ("data", JObj (ae_data e));
   ("artifact_refs", JArr (JStr <$> ae_artifact_refs e)); ("authority", JStr (ae_authority e))].
Definition event_fields (e : ActivityEvent) : list (string * json) :=
  ("event_id", JStr (ae_event_id e)) :: unsigned_event e.
Definition event_digest (e : ActivityEvent) : string := sorted_digest (JObj (unsigned_event e)).

(** [from_dict] *)
Definition context_names : list string :=
  ["session_id"; "run_id"; "agent_id"; "job_id"; "role"; "phase"; "source"; "card_id"; "card_hash"; "trajectory_id";
   "team_id"; "parent_agent_id"; "contract_id"; "contract_hash"; "plan_hash"; "lease_id"; "attempt_id"; "base_commit";
   "evidence_id"].
Definition required_names : list string :=
  ["schema_version"; "cursor"; "event_id"; "published_at"] ++ context_names ++ ["kind"].
Definition allowed_names : list string := required_names ++ ["summary"; "data"; "artifact_refs"; "authority"].
Definition context_of (d : dict string json) : option ActivityContext :=
  let get := get_str d in
  session_id ← get "session_id"; run_id ← get "run_id"; agent_id ← get "agent_id"; job_id ← get "job_id";
  role ← get "role"; phase ← get "phase"; source ← get "source"; card_id ← get "card_id"; card_hash ← get "card_hash";
  trajectory_id ← get "trajectory_id"; team_id ← get "team_id"; parent_agent_id ← get "parent_agent_id";
  contract_id ← get "contract_id"; contract_hash ← get "contract_hash"; plan_hash ← get "plan_hash";
  lease_id ← get "lease_id"; attempt_id ← get "attempt_id"; base_commit ← get "base_commit"; evidence_id ← get "evidence_id";
  Some {| ac_session_id := session_id; ac_run_id := run_id; ac_agent_id := agent_id; ac_job_id := job_id; ac_role := role;
    ac_phase := phase; ac_source := source; ac_card_id := card_id; ac_card_hash := card_hash;
    ac_trajectory_id := trajectory_id; ac_team_id := team_id; ac_parent_agent_id := parent_agent_id;
    ac_contract_id := contract_id; ac_contract_hash := contract_hash; ac_plan_hash := plan_hash; ac_lease_id := lease_id;
    ac_attempt_id := attempt_id; ac_base_commit := base_commit; ac_evidence_id := evidence_id |}.
(** [x or default]: the values that count as absent. *)
Definition falsy (j : json) : bool :=
  match j with
  | JNull | JBool false | JInt 0 | JFloat 0 | JStr "" | JArr [] | JObj [] => true
  | _ => false
  end.
Definition get_data (d : dict string json) : option (list (string * json)) :=
  match d !! "data" with
  | None => Some []
  | Some (JObj ms) => Some ms
  | Some j => if falsy j then Some [] else None
  end.
Definition str_of (j : json) : option string := match j with JStr s => Some s | _ => None end.
Definition get_refs (d : dict string json) : option (list string) :=
  match d !! "artifact_refs" with
  | None => Some []
  | Some (JArr xs) => mapM str_of xs
  | Some j => if falsy j then Some [] else None
  end.
Definition event_of (d : dict string json) : option ActivityEvent :=
  kind ← get_str d "kind" ≫= enum_of ActivityKind.all ActivityKind.value;
  refs ← get_refs d; data ← get_data d;
  version ← get_int d "schema_version"; cursor ← get_int d "cursor"; id ← get_str d "event_id";
  published_at ← get_float d "published_at"; context ← context_of d;
  summary ← match d !! "summary" with None => Some "" | Some j => str_of j end;
  authority ← match d !! "authority" with None => Some "observation" | Some j => str_of j end;
  Some {| ae_schema_version := version; ae_cursor := cursor; ae_event_id := id; ae_published_at := published_at;
    ae_context := context; ae_kind := kind; ae_summary := summary; ae_data := data; ae_artifact_refs := refs;
    ae_authority := authority |}.
Definition ActivityEvent_from_dict (row : dict string json) : result ActivityEvent :=
  value_error (negb (bool_decide (str_set (keys row) ⊆ str_set allowed_names))) "activity row contains unknown fields" ;;
  match event_of row with
  | None => Err (Exn TypeError "activity row is not an event")
  | Some e =>
      event ← validate_ActivityEvent e;
      value_error (negb (bool_decide (ae_event_id event = event_digest event)))
        "activity event_id does not match event content" ;;
      mret event
  end.
End events.
