(* ===== verification/ActivityFile.v ===== *)
(** * The activity journal ([activity.py], [ActivityJournal])

    A node owns a directory with the journal, lines of JSON, and a file with the
    highest cursor ever given.  A publication truncates what a killed publisher left,
    appends its row, replaces the head file and drops the oldest rows beyond the
    bound; it holds the node's lock, so it is one step, but it may be killed between
    two writes or within the append.  A head file that does not hold a number, a
    truth value or a float reads as zero; Python would also accept a numeral in a
    string, which nothing writes. *)
From S2P Require Import Prelude PyDict PyFloat Canonical Json Models Store JsonLines Control ControlFile Activity.
From Stdlib Require Import Ascii.
Local Open Scope Z_scope.

(** ** Bytes at the end of a file *)
Definition last_bytes (n : nat) (s : string) : string := String.substring (String.length s - n) n s.
Fixpoint lstrip_nl (s : string) : string :=
  match s with EmptyString => "" | String c s' => if Ascii.eqb c nl then lstrip_nl s' else s end.
Definition rstrip_nl (s : string) : string := String.rev (lstrip_nl (String.rev s)).
(** [s.rsplit(b"\n", 1)[-1]] *)
Fixpoint after_last_nl (s : string) : string :=
  match s with
  | EmptyString => ""
  | String c s' => if str_mem nl s' then after_last_nl s' else if Ascii.eqb c nl then s' else s
  end.

Record NodeFiles := { nf_events : option string; nf_head : option string }.
Definition no_files : NodeFiles := {| nf_events := None; nf_head := None |}.
Definition set_events (t : string) (f : NodeFiles) : NodeFiles := {| nf_events := Some t; nf_head := nf_head f |}.
Definition set_head (t : string) (f : NodeFiles) : NodeFiles := {| nf_events := nf_events f; nf_head := Some t |}.

(** The bounds a journal is opened with. *)
Record ActivityJournal := { aj_node : string; aj_max_bytes : nat; aj_max_event_bytes : nat }.
Definition new_ActivityJournal (node : string) (max_bytes max_event_bytes : nat) : result ActivityJournal :=
  value_error (max_bytes <? max_event_bytes * 2)%nat "activity max_bytes must retain at least two events" ;;
  value_error (max_event_bytes <? 1024)%nat "activity max_event_bytes is too small" ;;
  value_error (negb (_SAFE_ID node)) "activity node must be a single safe path segment" ;;
  mret {| aj_node := node; aj_max_bytes := max_bytes; aj_max_event_bytes := max_event_bytes |}.

(** [default_activity_node], of the name the host reports *)
Fixpoint sub_unsafe (s : string) : string :=
  match s with
  | EmptyString => ""
  | String c s => String (if safe_id_char c then c else "-"%char) (sub_unsafe s)
  end.
Definition default_activity_node (hostname : string) : string :=
  let raw := if is_empty_str (strip hostname) then "unknown-node" else strip hostname in
  let node := String.substring 0 200 (sub_unsafe raw) in
  if _SAFE_ID node then node else "unknown-node".

Section journal.
Context {PF : Platform} {FT : FloatText}.

Definition corrupt_row {A} : result A := Err (Exn ActivityCorruptionError "committed activity row is corrupt").
Definition parse_event (line : string) : result ActivityEvent :=
  match utf8_decode line ≫= json_loads with
  | Some (JObj ms) => match ActivityEvent_from_dict (Dict ms) with Ok e => Ok e | Err _ => corrupt_row end
  | _ => corrupt_row
  end.
Definition event_text (e : ActivityEvent) : string := dumps_ascii false (sort_keys (JObj (event_fields e))).
Definition encoded_event (e : ActivityEvent) : string := utf8_encode (line_nl (event_text e)).

(** ** Reading *)
Fixpoint increasing (es : list ActivityEvent) : bool :=
  match es with
  | e :: (e' :: _) as rest => (ae_cursor e <? ae_cursor e') && increasing rest
  | _ => true
  end.
Definition _read_committed_unlocked (f : NodeFiles) : result (list ActivityEvent) :=
  match nf_events f with
  | None => Ok []
  | Some raw =>
      rows ← map_result parse_event (List.filter (λ l, negb (is_empty_str l)) (lines_of (complete_prefix raw)));
      err_if (negb (increasing rows)) ActivityCorruptionError "activity cursors are not strictly increasing" ;;
      mret rows
  end.
Definition head_value (j : json) : Z :=
  match j with
  | JInt n => if n <? 0 then 0 else n
  | JBool b => if b then 1 else 0
  | JFloat f => Z.max 0 (Z.quot f f_unit)
  | _ => 0
  end.
Definition _read_head_unlocked (f : NodeFiles) : Z :=
  match nf_head f with
  | None => 0
  | Some text =>
      match utf8_decode text ≫= json_loads with
      | Some (JObj ms) => match (Dict ms : dict string json) !! "head_cursor" with Some j => head_value j | None => 0 end
      | _ => 0
      end
  end.
(** [_last_committed_unlocked(recover_tail=True)] *)
Definition _last_committed_unlocked (j : ActivityJournal) : prog NodeFiles (option ActivityEvent) := λ f,
  match nf_events f with
  | None | Some "" => (f, Ok None)
  | Some raw =>
      let complete := if ends_nl raw then raw else complete_prefix raw in
      let f := set_events complete f in
      if is_empty_str complete then (f, Ok None)
      else
        let read_size := Nat.min (String.length complete) (aj_max_event_bytes j + 1) in
        match parse_event (after_last_nl (rstrip_nl (last_bytes read_size complete))) with
        | Ok e => (f, Ok (Some e))
        | Err _ => (f, Err (Exn ActivityCorruptionError "last committed activity row is corrupt"))
        end
  end.

(** ** Writing *)
Definition head_text (cursor : Z) : string := line_nl (dumps_ascii true (JObj [("head_cursor", JInt cursor)])).
Definition _write_head_unlocked (cursor : Z) : prog NodeFiles unit := modify (set_head (head_text cursor)).
(** The loop of [_trim_unlocked]. *)
Fixpoint trim_lines (max_bytes total : nat) (lines : list string) : list string :=
  match lines with
  | line :: (_ :: _) as rest => if (max_bytes <? total)%nat then trim_lines max_bytes (total - String.length line) rest else lines
  | _ => lines
  end.
Definition total_length (lines : list string) : nat := foldr (λ l n, String.length l + n)%nat 0%nat lines.
Definition _trim_unlocked (j : ActivityJournal) : prog NodeFiles unit := modify (λ f,
  let raw := default "" (nf_events f) in
  if (String.length raw <=? aj_max_bytes j)%nat then f
  else let lines := splitlines raw in
       set_events (String.concat "" (trim_lines (aj_max_bytes j) (total_length lines) lines)) f).
Definition append_line (e : ActivityEvent) : prog NodeFiles unit :=
  modify (λ f, set_events (default "" (nf_events f) +:+ encoded_event e) f).

(** The event a publication builds; [now] is what [float(self.clock())] reads. *)
Record Publication := {
  pb_context : ActivityContext; pb_kind : ActivityKind.t; pb_summary : string;
  pb_data : list (string * json); pb_artifact_refs : list string }.
Definition draft (o : Publication) (cursor : Z) (now : float) (data : list (string * json)) : ActivityEvent := {|
  ae_schema_version := SCHEMA_VERSION; ae_cursor := cursor; ae_event_id := ""; ae_published_at := now;
  ae_context := pb_context o; ae_kind := pb_kind o; ae_summary := sanitize_activity_text (pb_summary o) MAX_SUMMARY_CHARS;
  ae_data := data; ae_artifact_refs := pb_artifact_refs o; ae_authority := "observation" |}.
(** Up to the checks: the event to append. *)
Definition prepare (j : ActivityJournal) (o : Publication) (now : float) : prog NodeFiles ActivityEvent :=
  match sanitize_activity_data (JObj (pb_data o)) 0 with
  | JObj sanitized =>
      last ← _last_committed_unlocked j;
      head ← gets _read_head_unlocked;
      let cursor := Z.max head (match last with Some e => ae_cursor e | None => 0 end) + 1 in
      let unsigned := draft o cursor now sanitized in
      event ← lift (ActivityEvent_from_dict (Dict (("event_id", JStr (event_digest unsigned)) :: unsigned_event unsigned)));
      raise_if (aj_max_event_bytes j <? String.length (encoded_event event))%nat ValueError "activity event exceeds max_event_bytes" ;;
      mret event
  | _ => raise TypeError "activity data must sanitize to a mapping"
  end.
Definition publish (j : ActivityJournal) (o : Publication) (now : float) : prog NodeFiles ActivityEvent :=
  event ← prepare j o now;
  append_line event ;;
  _write_head_unlocked (ae_cursor event) ;;
  _trim_unlocked j ;;
  mret event.
(** A publisher killed before its row was complete, after it, or before the trim. *)
Inductive kill := InRow (k : nat) | AfterRow | BeforeTrim.
Definition killed_publish (j : ActivityJournal) (o : Publication) (now : float) (at_ : kill) : prog NodeFiles ActivityEvent :=
  event ← prepare j o now;
  match at_ with
  | InRow k => modify (λ f, set_events (default "" (nf_events f) +:+ String.substring 0 k (encoded_event event)) f)
  | AfterRow => append_line event
  | BeforeTrim => append_line event ;; _write_head_unlocked (ae_cursor event)
  end ;;
  mret event.

(** ** Replay *)
Record Filters := {
  fl_session_id : string; fl_run_id : string; fl_agent_id : string; fl_job_id : string; fl_card_id : string;
  fl_contract_id : string; fl_lease_id : string; fl_role : string; fl_kind : string }.
Definition no_filters : Filters := {|
  fl_session_id := ""; fl_run_id := ""; fl_agent_id := ""; fl_job_id := ""; fl_card_id := ""; fl_contract_id := "";
  fl_lease_id := ""; fl_role := ""; fl_kind := "" |}.
Definition filter_pairs (fl : Filters) (c : ActivityContext) : list (string * string) :=
  [(fl_session_id fl, ac_session_id c); (fl_run_id fl, ac_run_id c); (fl_agent_id fl, ac_agent_id c);
   (fl_job_id fl, ac_job_id c); (fl_card_id fl, ac_card_id c); (fl_contract_id fl, ac_contract_id c);
   (fl_lease_id fl, ac_lease_id c); (fl_role fl, ac_role c)].
Definition matches (fl : Filters) (e : ActivityEvent) : bool :=
  forallb (λ p, is_empty_str p.1 || bool_decide (p.2 = p.1)) (filter_pairs fl (ae_context e)) &&
  (is_empty_str (fl_kind fl) || bool_decide (ActivityKind.value (ae_kind e) = fl_kind fl)).
Definition check_filters (fl : Filters) : result unit :=
  check_each [("session_id", fl_session_id fl); ("run_id", fl_run_id fl); ("agent_id", fl_agent_id fl); ("job_id", fl_job_id fl);
    ("card_id", fl_card_id fl); ("contract_id", fl_contract_id fl); ("lease_id", fl_lease_id fl); ("role", fl_role fl)]
    (λ nv, value_error (negb (is_empty_str nv.2) && negb (_SAFE_ID nv.2)) ("invalid activity " +:+ nv.1 +:+ " filter")) ;;
  value_error (negb (is_empty_str (fl_kind fl)) && bool_decide (enum_of ActivityKind.all ActivityKind.value (fl_kind fl) = None))
    "not a valid ActivityKind".
Definition clamp_limit (limit : Z) : nat := Z.to_nat (Z.max 1 (Z.min limit MAX_REPLAY_LIMIT)).
(** The loop over the rows; it stops once [limit] rows are found. *)
Fixpoint select_rows (after_cursor : Z) (fl : Filters) (limit : nat) (rows : list ActivityEvent) : list ActivityEvent :=
  match rows with
  | [] => []
  | e :: rows =>
      if (ae_cursor e <=? after_cursor) || negb (matches fl e) then select_rows after_cursor fl limit rows
      else e :: (if (limit <=? 1)%nat then [] else select_rows after_cursor fl (limit - 1) rows)
  end.
Definition read_after (after_cursor limit : Z) (fl : Filters) (f : NodeFiles) : result (list ActivityEvent) :=
  value_error (after_cursor <? 0) "after_cursor must not be negative" ;;
  check_filters fl ;;
  rows ← _read_committed_unlocked f;
  mret (select_rows after_cursor fl (clamp_limit limit) rows).
Record Window := { wi_retained_from_cursor : Z; wi_head_cursor : Z; wi_retained_events : nat }.
Definition window (f : NodeFiles) : result Window :=
  rows ← _read_committed_unlocked f;
  let head := Z.max (_read_head_unlocked f) (match last rows with Some e => ae_cursor e | None => 0 end) in
  mret {| wi_retained_from_cursor := match rows with e :: _ => ae_cursor e | [] => head + 1 end;
          wi_head_cursor := head; wi_retained_events := length rows |}.
End journal.
