(* ===== verification/ActivityCodec.v ===== *)
(** * The activity journal's rows read back ([activity.py])

    What [sanitize_activity_data] builds is a Python object; an event survives the
    round trip through its line, its data key-sorted; and the end of the file yields
    the last row. *)
From S2P Require Import Prelude PyDict PyFloat Canonical Json Models Store JsonLines Control ControlFile ControlCodec Activity ActivityFile.
From Stdlib Require Import Ascii.
Local Open Scope Z_scope.

(** ** Sanitised data *)
Lemma dict_of_wf (ms : list (string * json)) : Forall (λ m, json_wf m.2) ms → json_wf (JObj (dict_of ms)).
Proof. exact (object_of_wf ms). Qed.
Lemma sanitize_wf j depth : json_wf (sanitize_activity_data j depth).
Proof.
  revert depth. induction j as [| b | z | f | s | xs IH | ms IH] using json_nested_ind; intros depth;
    cbn [sanitize_activity_data]; destruct (4 <? depth)%nat; try done.
  - rewrite json_wf_arr. apply Forall_take, Forall_fmap. eapply Forall_impl; [exact IH|]. simpl. auto.
  - apply dict_of_wf, Forall_take, Forall_fmap. eapply Forall_impl; [exact IH|]. simpl. intros m Hm.
    destruct (_SECRET_KEY _); [done|apply Hm].
Qed.

Section codec.
Context {PF : Platform} {FT : FloatText}.

(** ** Events *)
Definition set_event_id (id : string) (e : ActivityEvent) : ActivityEvent := {|
  ae_schema_version := ae_schema_version e; ae_cursor := ae_cursor e; ae_event_id := id;
  ae_published_at := ae_published_at e; ae_context := ae_context e; ae_kind := ae_kind e; ae_summary := ae_summary e;
  ae_data := ae_data e; ae_artifact_refs := ae_artifact_refs e; ae_authority := ae_authority e |}.
(** The event as a later reader sees it. *)
Definition norm_event (e : ActivityEvent) : ActivityEvent := {|
  ae_schema_version := ae_schema_version e; ae_cursor := ae_cursor e; ae_event_id := ae_event_id e;
  ae_published_at := ae_published_at e; ae_context := ae_context e; ae_kind := ae_kind e; ae_summary := ae_summary e;
  ae_data := sorted_payload (ae_data e); ae_artifact_refs := ae_artifact_refs e; ae_authority := ae_authority e |}.
Record valid_event (e : ActivityEvent) : Prop := {
  va_ok : validate_ActivityEvent e = Ok e;
  va_id : ae_event_id e = event_digest e;
  va_wf : json_wf (JObj (ae_data e)) }.

Lemma mapM_str_of refs : mapM str_of (JStr <$> refs) = Some refs.
Proof. induction refs as [|r refs IH]; [done|]. rewrite fmap_cons. simpl. by rewrite IH. Qed.
Lemma kind_of_value k : enum_of ActivityKind.all ActivityKind.value (ActivityKind.value k) = Some k.
Proof. by destruct k. Qed.
Lemma event_of_fields id e : event_of (Dict (("event_id", JStr id) :: unsigned_event e)) = Some (set_event_id id e).
Proof.
  destruct e as [v c i p ctx k s d r a], ctx. unfold event_of.
  change (get_str _ "kind") with (Some (ActivityKind.value k)). cbn [mbind option_bind]. rewrite kind_of_value.
  change (get_refs _) with (mapM str_of (JStr <$> r)). rewrite mapM_str_of. reflexivity.
Qed.
Lemma event_keys e : (event_fields e).*1 = "event_id" :: ["schema_version"; "cursor"; "published_at"] ++ context_names ++
  ["kind"; "summary"; "data"; "artifact_refs"; "authority"].
Proof. done. Qed.
Lemma event_keys_NoDup e : NoDup (event_fields e).*1.
Proof. rewrite event_keys. apply (bool_decide_unpack _). vm_compute. exact I. Qed.
Lemma event_names e : str_set (event_fields e).*1 = str_set allowed_names.
Proof. rewrite event_keys. apply (bool_decide_unpack _). vm_compute. exact I. Qed.

Lemma from_dict_fields e : ActivityEvent_from_dict (Dict (("event_id", JStr (event_digest e)) :: unsigned_event e)) =
  validate_ActivityEvent (set_event_id (event_digest e) e).
Proof.
  unfold ActivityEvent_from_dict. rewrite event_of_fields.
  change (str_set (keys _)) with (str_set (event_fields (set_event_id (event_digest e) e)).*1).
  rewrite event_names, bool_decide_eq_true_2 by done. cbn [negb value_error err_if mbind result_bind].
  set (e' := set_event_id _ _). destruct (validate_ActivityEvent e') as [e''|x] eqn:Hv; cbn [mbind result_bind]; [|done].
  assert (e'' = e') as ->; [|by rewrite bool_decide_eq_true_2].
  revert Hv. unfold validate_ActivityEvent. intros H. repeat (apply bind_unit_ok in H as [_ H]).
  destruct (validate_ActivityContext _); [|done]. cbn [mbind result_bind] in H.
  repeat (apply bind_unit_ok in H as [_ H]). by injection H.
Qed.

Lemma sort_members_norm e : json_wf (JObj (ae_data e)) →
  map sort_member (unsigned_event (norm_event e)) = map sort_member (unsigned_event e).
Proof.
  intros Hwf. unfold unsigned_event. cbn [norm_event ae_schema_version ae_cursor ae_published_at ae_context ae_kind ae_summary
    ae_data ae_artifact_refs ae_authority]. rewrite !map_app. f_equal. f_equal. cbn [map]. unfold sort_member at 3. cbn [fst snd].
  change (JObj (sorted_payload (ae_data e))) with (sort_keys (JObj (ae_data e))). by rewrite sort_keys_idem.
Qed.
Lemma event_digest_norm e : json_wf (JObj (ae_data e)) → event_digest (norm_event e) = event_digest e.
Proof. intros H. unfold event_digest, sorted_digest, sorted_bytes. by rewrite !sort_keys_obj, sort_members_norm. Qed.

Lemma event_json_wf e : json_wf (JObj (ae_data e)) → json_wf (JObj (event_fields e)).
Proof.
  intros Hd. rewrite json_wf_obj. split; [apply event_keys_NoDup|]. unfold event_fields, unsigned_event. apply Forall_cons. split; [done|].
  rewrite !Forall_app. split_and!; [by repeat constructor|by repeat constructor|].
  repeat (apply Forall_cons; split; [done|]). apply Forall_cons. split; [|by repeat constructor].
  cbn [snd]. rewrite json_wf_arr. apply Forall_fmap, Forall_forall. done.
Qed.
Lemma sort_strings (r : list string) : map sort_keys (JStr <$> r) = JStr <$> r.
Proof. induction r as [|x r IH]; [done|]. rewrite fmap_cons. cbn [map sort_keys]. by rewrite IH. Qed.
Lemma event_of_sorted e :
  event_of (Dict (sort_by fst (map sort_member (event_fields e)))) = Some (norm_event e).
Proof.
  pose proof (event_keys_NoDup e) as Hnd. unfold event_of, context_of, get_refs, get_data, get_str, get_int, get_float.
  rewrite !sorted_lookup by done. destruct e as [v c i p ctx k s d r a], ctx.
  change (Dict (event_fields _) !! "kind") with (Some (JStr (ActivityKind.value k))).
  change (Dict (event_fields _) !! "artifact_refs") with (Some (JArr (JStr <$> r))).
  cbn [fmap option_fmap option_map sort_keys mbind option_bind]. rewrite kind_of_value. cbn [mbind option_bind].
  rewrite sort_strings.
  rewrite mapM_str_of. reflexivity.
Qed.
Lemma norm_event_ok e : validate_ActivityEvent e = Ok e → validate_ActivityEvent (norm_event e) = Ok (norm_event e).
Proof.
  unfold validate_ActivityEvent. cbn [norm_event ae_schema_version ae_cursor ae_published_at ae_context ae_kind ae_summary
    ae_data ae_artifact_refs ae_authority ae_event_id]. intros H. repeat (apply bind_unit_ok in H as [-> H]; cbn [mbind result_bind]).
  destruct (validate_ActivityContext _); [|done]. cbn [mbind result_bind] in *.
  repeat (apply bind_unit_ok in H as [-> H]; cbn [mbind result_bind]). done.
Qed.
Lemma norm_event_valid e : valid_event e → valid_event (norm_event e).
Proof.
  intros [Hok Hid Hwf]. split; [by apply norm_event_ok|by rewrite event_digest_norm|]. cbn [norm_event ae_data].
  change (json_wf (sort_keys (JObj (ae_data e)))). by apply sort_keys_wf.
Qed.

Lemma event_text_printable e : str_forallb printable (event_text e) = true.
Proof. apply dumps_printable. Qed.
Lemma event_text_line e : one_line (event_text e).
Proof. apply printable_no_eol, event_text_printable. Qed.
Lemma encoded_event_line e : encoded_event e = line_nl (event_text e).
Proof.
  unfold encoded_event, line_nl. by rewrite utf8_encode_app, (proj1 (utf8_printable _ (event_text_printable e))).
Qed.
Lemma event_text_open e : ∃ s, event_text e = String "{" s.
Proof. unfold event_text. rewrite sort_keys_obj. by eexists. Qed.
Lemma parse_event_text e : valid_event e → parse_event (event_text e) = Ok (norm_event e).
Proof.
  intros He. pose proof (norm_event_valid e He) as [Hok Hid _]. destruct He as [_ _ Hwf]. unfold parse_event.
  rewrite (proj2 (utf8_printable _ (event_text_printable e))). cbn [mbind option_bind].
  unfold event_text. rewrite json_loads_dumps by (by apply sort_keys_wf, event_json_wf). rewrite sort_keys_obj.
  unfold ActivityEvent_from_dict. rewrite sorted_keys, event_names, bool_decide_eq_true_2 by done.
  cbn [negb value_error err_if mbind result_bind]. rewrite event_of_sorted, Hok. cbn [mbind result_bind].
  by rewrite bool_decide_eq_true_2.
Qed.
End codec.
