(* ===== verification/ActivityFacts.v ===== *)
(** * What the activity journal guarantees ([activity.py])

    [holds] relates a node's files to the events in them; every publication, killed
    or not, keeps it, and the numbers of the events are their places in the history. *)
From S2P Require Import Prelude PyDict PyFloat Canonical Json Models Store JsonLines Control ControlFile ControlCodec Activity ActivityFile ActivityCodec.
From Stdlib Require Import Ascii.
Local Open Scope Z_scope.

(** ** Strings *)
Lemma str_split_at s n : (n ≤ String.length s)%nat → ∃ a b, s = a +:+ b ∧ String.length a = n.
Proof.
  revert n. induction s as [|c s IH]; intros n Hn; simpl in Hn.
  - exists "", "". split; [done|]. simpl. lia.
  - destruct n as [|n]; [by exists "", (String c s)|]. destruct (IH n) as (a & b & -> & Ha); [lia|].
    exists (String c a), b. split; [done|]. simpl. by rewrite Ha.
Qed.
(** The last bytes of a text that ends in [t]. *)
Lemma last_bytes_app s t n : (String.length t ≤ n)%nat →
  ∃ a b, s = a +:+ b ∧ last_bytes (Nat.min (String.length (s +:+ t)) n) (s +:+ t) = b +:+ t ∧
    ((a = "" ∧ b = s) ∨ String.length b = (n - String.length t)%nat).
Proof.
  intros Hn. unfold last_bytes. rewrite str_length_app.
  destruct (str_split_at s (String.length s + String.length t - Nat.min (String.length s + String.length t) n)) as (a & b & -> & Ha); [lia|].
  exists a, b. split; [done|]. rewrite str_length_app in *. split.
  - rewrite <- Ha, str_app_assoc, substring_app_r.
    replace (Nat.min (String.length a + String.length b + String.length t) n) with (String.length (b +:+ t)) by (rewrite str_length_app; lia).
    apply substring_all.
  - destruct (decide (String.length a = 0%nat)) as [H0|H0]; [left; by destruct a|right; lia].
Qed.
Lemma str_rev_snoc s c : String.rev (s +:+ String c "") = String c (String.rev s).
Proof. by rewrite str_rev_app_distr. Qed.
Lemma str_mem_cons c d s : str_mem c (String d s) = Ascii.eqb d c || str_mem c s.
Proof. unfold str_mem. simpl. rewrite negb_andb, negb_involutive. by rewrite (Ascii.eqb_sym c d). Qed.
Lemma str_mem_ends s t : ends_nl s = true → str_mem nl (s +:+ t) = true.
Proof.
  induction s as [|c s IH]; [done|]. intros H. rewrite str_app_cons, str_mem_cons. destruct s as [|d s].
  - simpl in H. by rewrite H.
  - rewrite IH by exact H. apply orb_true_r.
Qed.
Lemma rstrip_nl_line s c : Ascii.eqb c nl = false → rstrip_nl (line_nl (s +:+ String c "")) = s +:+ String c "".
Proof.
  intros Hc. unfold rstrip_nl, line_nl. rewrite !str_rev_snoc. cbn [lstrip_nl]. rewrite Ascii.eqb_refl. cbn [lstrip_nl].
  rewrite Hc. rewrite <- str_rev_snoc. apply str_rev_involutive.
Qed.
Lemma after_last_nl_line s l : (s = "" ∨ ends_nl s = true) → str_mem nl l = false → after_last_nl (s +:+ l) = l.
Proof.
  intros Hs Hl. induction s as [|c s IH].
  - change ("" +:+ l) with l. destruct l as [|c l]; [done|]. rewrite str_mem_cons in Hl. apply orb_false_iff in Hl as [Hc Hl].
    cbn [after_last_nl]. by rewrite Hl, Hc.
  - destruct Hs as [?|Hs]; [done|]. rewrite str_app_cons. cbn [after_last_nl]. destruct (decide (s = "")) as [->|Hne].
    + change ("" +:+ l) with l. rewrite Hl. simpl in Hs. by rewrite Hs.
    + assert (ends_nl s = true) as Hs' by (destruct s; done).
      assert (str_mem nl (s +:+ l) = true) as -> by (by apply str_mem_ends). apply IH. by right.
Qed.
Lemma no_eol_no_nl s : no_eol s = true → str_mem nl s = false.
Proof.
  unfold no_eol. induction s as [|c s IH]; [done|]. intros [[Hc _]%andb_prop Hs]%andb_prop.
  rewrite str_mem_cons, IH by done. by apply negb_true_iff in Hc as ->.
Qed.
Lemma lines_text_nil ls : lines_text ls = "" → ls = [].
Proof. destruct ls as [|l ls]; [done|]. cbn [lines_text]. unfold line_nl. by destruct l. Qed.

Section journal.
Context {PF : Platform} {FT : FloatText} (j : ActivityJournal).

(** ** What the files hold *)
Definition row_fits (e : ActivityEvent) : Prop := (String.length (encoded_event e) ≤ aj_max_event_bytes j)%nat.
Definition earlier (e e' : ActivityEvent) : Prop := ae_cursor e < ae_cursor e'.
Definition texts (es : list ActivityEvent) : list string := event_text <$> es.
Record holds (f : NodeFiles) (es : list ActivityEvent) (tail : string) : Prop := {
  ho_text : default "" (nf_events f) = lines_text (texts es) +:+ tail;
  ho_tail : no_eol tail = true;
  ho_valid : Forall valid_event es;
  ho_fits : Forall row_fits es;
  ho_earlier : StronglySorted earlier es }.

Lemma texts_lines es : Forall one_line (texts es).
Proof. apply Forall_fmap, Forall_forall. intros e _. apply event_text_line. Qed.
Lemma texts_snoc es e : lines_text (texts (es ++ [e])) = lines_text (texts es) +:+ line_nl (event_text e).
Proof. unfold texts. rewrite fmap_app, lines_text_app. cbn [fmap list_fmap lines_text]. by rewrite str_app_nil_r. Qed.
Lemma increasing_sorted es : StronglySorted earlier es → increasing (norm_event <$> es) = true.
Proof.
  induction 1 as [|e es Hs IH He]; [done|]. destruct es as [|e' es]; [done|]. rewrite !fmap_cons in *.
  change (increasing (norm_event e :: norm_event e' :: (norm_event <$> es))) with
    ((ae_cursor e <? ae_cursor e') && increasing (norm_event e' :: (norm_event <$> es))).
  rewrite IH, andb_true_r. apply Forall_cons in He as [He _]. by apply Z.ltb_lt.
Qed.
Lemma filter_texts es : List.filter (λ l, negb (is_empty_str l)) (texts es) = texts es.
Proof.
  unfold texts. induction es as [|e es IH]; [done|]. rewrite fmap_cons. cbn [List.filter].
  destruct (event_text_open e) as [s ->]. cbn [is_empty_str negb]. by rewrite IH.
Qed.
Lemma read_committed_holds f es tail : holds f es tail → _read_committed_unlocked f = Ok (norm_event <$> es).
Proof.
  intros [Ht Hn Hv _ Hs]. unfold _read_committed_unlocked. destruct (nf_events f) as [raw|]; cbn [default from_option id] in Ht.
  - subst raw. rewrite complete_lines_text, lines_of_lines_text, filter_texts by (done || apply texts_lines).
    assert (map_result parse_event (texts es) = Ok (norm_event <$> es)) as ->.
    { apply map_result_ok. clear -Hv. induction Hv; constructor; [by apply parse_event_text|done]. }
    cbn [mbind result_bind]. by rewrite increasing_sorted.
  - assert (texts es = []) as He by (apply lines_text_nil; by destruct (lines_text (texts es))).
    by apply fmap_nil_inv in He as ->.
Qed.

Lemma event_text_close e : ∃ s, event_text e = s +:+ "}".
Proof.
  unfold event_text. rewrite sort_keys_obj. cbn [dumps_ascii].
  eexists (_ +:+ _). rewrite str_app_assoc. reflexivity.
Qed.
Lemma last_line_found ls e :
  (ls = "" ∨ ends_nl ls = true) → row_fits e →
  after_last_nl (rstrip_nl (last_bytes (Nat.min (String.length (ls +:+ line_nl (event_text e))) (aj_max_event_bytes j + 1))
    (ls +:+ line_nl (event_text e)))) = event_text e.
Proof.
  intros Hls Hf. unfold row_fits in Hf. rewrite encoded_event_line in Hf.
  destruct (last_bytes_app ls (line_nl (event_text e)) (aj_max_event_bytes j + 1)) as (a & b & -> & -> & Hab); [lia|].
  assert (b = "" ∨ ends_nl b = true) as Hb.
  { destruct Hab as [[-> ->]|Hl]; [done|]. right. assert (b ≠ "") as Hne by (intros ->; change (String.length "") with 0%nat in Hl; lia).
    destruct Hls as [Hls|Hls]; [by destruct a, b|]. by rewrite ends_nl_app in Hls. }
  destruct (event_text_close e) as [s Hs]. unfold line_nl. rewrite <- str_app_assoc. change (?x +:+ String nl "") with (line_nl x).
  rewrite Hs, <- str_app_assoc, rstrip_nl_line, str_app_assoc, <- Hs by done.
  apply after_last_nl_line; [done|]. apply no_eol_no_nl, event_text_line.
Qed.
Lemma last_committed_holds f es tail : holds f es tail → ∃ f',
  _last_committed_unlocked j f = (f', Ok (norm_event <$> last es)) ∧ holds f' es "" ∧ nf_head f' = nf_head f.
Proof.
  intros [Ht Hn Hv Hf Hs]. assert (lines_text (texts es) +:+ tail = "" → es = [] ∧ tail = "") as Hempty.
  { intros H. destruct (lines_text (texts es)) eqn:Hl; [|done]. apply lines_text_nil, fmap_nil_inv in Hl. by split. }
  unfold _last_committed_unlocked. destruct (nf_events f) as [raw|] eqn:Hev; cbn [default from_option id] in Ht.
  2:{ destruct (Hempty (eq_sym Ht)) as [-> ->]. exists f. split_and!; [done|by split; rewrite ?Hev|done]. }
  destruct raw as [|c raw]; [destruct (Hempty (eq_sym Ht)) as [-> ->]; exists f; split_and!; [done|by split; rewrite ?Hev|done]|].
  assert ((if ends_nl (String c raw) then String c raw else complete_prefix (String c raw)) = lines_text (texts es)) as ->.
  { pose proof (recover_lines_text (texts es) tail Hn) as H. rewrite <- Ht in H. exact H. }
  assert (holds (set_events (lines_text (texts es)) f) es "") as Hh by (split; [by rewrite str_app_nil_r|done..]).
  destruct es as [|e es _] using rev_ind; [eexists; split_and!; [reflexivity|exact Hh|done]|].
  rewrite last_snoc, texts_snoc in *. apply Forall_app in Hf as [_ [Hf _]%Forall_cons], Hv as [_ [Hv _]%Forall_cons].
  rewrite last_line_found by (done || apply lines_text_ends). rewrite parse_event_text by done.
  replace (is_empty_str (lines_text (texts es) +:+ line_nl (event_text e))) with false
    by (destruct (lines_text (texts es)); [unfold line_nl; by destruct (event_text e)|done]).
  eexists. split_and!; [reflexivity|exact Hh|done].
Qed.

(** ** The head file *)
Definition last_cursor (es : list ActivityEvent) : Z := match last es with Some e => ae_cursor e | None => 0 end.
Lemma last_cursor_norm es : last_cursor (norm_event <$> es) = last_cursor es.
Proof. unfold last_cursor. rewrite fmap_last. by destruct (last es). Qed.
Lemma read_head_written cursor f : 0 <= cursor → _read_head_unlocked (set_head (head_text cursor) f) = cursor.
Proof.
  intros Hc. unfold _read_head_unlocked, head_text. cbn [set_head nf_head].
  assert (json_wf (JObj [("head_cursor", JInt cursor)])) as Hwf.
  { rewrite json_wf_obj. split; repeat constructor. apply not_elem_of_nil. }
  rewrite utf8_decode_line by apply dumps_printable. cbn [mbind option_bind]. rewrite json_loads_line by done.
  change ((Dict [("head_cursor", JInt cursor)] : dict string json) !! "head_cursor") with (Some (JInt cursor)).
  cbn [head_value]. destruct (cursor <? 0) eqn:H; lia.
Qed.

(** ** Checks that raise only [ValueError] *)
Definition raises_only (k : exn_class) {A} (r : result A) : Prop := match r with Err x => exn_kind x = k | Ok _ => True end.
Lemma raises_bind {A B} k (m : result A) (g : A → result B) :
  raises_only k m → (∀ a, raises_only k (g a)) → raises_only k (m ≫= g).
Proof. intros Hm Hg. destruct m; [apply Hg|exact Hm]. Qed.
Lemma raises_value_error b msg : raises_only ValueError (value_error b msg).
Proof. by destruct b. Qed.
Lemma raises_check_each {A} k (xs : list A) body : (∀ x, raises_only k (body x)) → raises_only k (check_each xs body).
Proof. intros H. induction xs as [|x xs IH]; [done|]. cbn [check_each]. apply raises_bind; [apply H|intros _; exact IH]. Qed.
Lemma raises_context c : raises_only ValueError (validate_ActivityContext c).
Proof.
  unfold validate_ActivityContext.
  repeat first [apply raises_value_error | apply raises_check_each; intros ? | apply raises_bind; [|intros []] | done].
Qed.
Lemma raises_event e : raises_only ValueError (validate_ActivityEvent e).
Proof.
  unfold validate_ActivityEvent.
  repeat first [apply raises_value_error | apply raises_check_each; intros ? | apply raises_context | apply raises_bind; [|intros ?] | done].
Qed.
Lemma validated_event e e' : validate_ActivityEvent e = Ok e' → e' = e.
Proof.
  unfold validate_ActivityEvent. intros H. repeat (apply bind_unit_ok in H as [_ H]).
  destruct (validate_ActivityContext _); [|done]. cbn [mbind result_bind] in H. repeat (apply bind_unit_ok in H as [_ H]).
  unfold mret, result_ret in H. congruence.
Qed.

(** ** Preparing an event *)
Definition sanitized_data (o : Publication) : list (string * json) :=
  match sanitize_activity_data (JObj (pb_data o)) 0 with JObj ms => ms | _ => [] end.
(** The event that is published with a cursor. *)
Definition observed (o : Publication) (cursor : Z) (now : float) : ActivityEvent :=
  let e := draft o cursor now (sanitized_data o) in set_event_id (event_digest e) e.
Definition acceptable (e : ActivityEvent) : Prop := validate_ActivityEvent e = Ok e ∧ row_fits e.
Lemma observed_valid o cursor now : validate_ActivityEvent (observed o cursor now) = Ok (observed o cursor now) →
  valid_event (observed o cursor now).
Proof.
  intros H. split; [done|done|]. unfold observed. cbn [set_event_id draft ae_data]. unfold sanitized_data.
  pose proof (sanitize_wf (JObj (pb_data o)) 0) as Hwf. destruct (sanitize_activity_data _ _); try exact Hwf; by rewrite json_wf_obj; repeat constructor.
Qed.
Lemma prepare_holds f es tail o now : holds f es tail →
  let cursor := Z.max (_read_head_unlocked f) (last_cursor es) + 1 in
  ∃ f', holds f' es "" ∧ nf_head f' = nf_head f ∧
    ((acceptable (observed o cursor now) ∧ prepare j o now f = (f', Ok (observed o cursor now))) ∨
     (¬ acceptable (observed o cursor now) ∧ ∃ x, prepare j o now f = (f', Err x) ∧ exn_kind x = ValueError)).
Proof.
  intros Hh cursor. destruct (last_committed_holds f es tail Hh) as (f' & Hlast & Hh' & Hhead). exists f'. split; [done|]. split; [done|].
  assert (prepare j o now f = (f', e ← validate_ActivityEvent (observed o cursor now);
    err_if (aj_max_event_bytes j <? String.length (encoded_event e))%nat ValueError "activity event exceeds max_event_bytes" ;;
    mret e)) as ->.
  { unfold prepare. assert (sanitize_activity_data (JObj (pb_data o)) 0 = JObj (sanitized_data o)) as -> by done.
    rewrite prog_bind_eq, Hlast. cbv beta match. prog_gets.
    assert (_read_head_unlocked f' = _read_head_unlocked f) as -> by (unfold _read_head_unlocked; by rewrite Hhead).
    assert (match norm_event <$> last es with Some e => ae_cursor e | None => 0 end = last_cursor es) as ->
      by (unfold last_cursor; by destruct (last es)).
    fold cursor. rewrite from_dict_fields. change (set_event_id _ _) with (observed o cursor now).
    rewrite prog_bind_eq. unfold lift. destruct (validate_ActivityEvent _) as [e|]; [|done]. cbn [mbind result_bind].
    rewrite prog_bind_eq. unfold raise_if, err_if. by destruct (_ <? _)%nat. }
  pose proof (raises_event (observed o cursor now)) as Hr. unfold acceptable, row_fits.
  destruct (validate_ActivityEvent (observed o cursor now)) as [e|x] eqn:Hv; cbn [mbind result_bind].
  - pose proof (validated_event _ _ Hv) as ->.
    destruct (Nat.ltb_spec (aj_max_event_bytes j) (String.length (encoded_event (observed o cursor now)))) as [Hl|Hl].
    + right. split; [intros [_ ?]; lia|]. by eexists.
    + left. done.
  - right. split; [by intros [? _]|]. by eexists.
Qed.

(** ** Appending and trimming *)
Lemma append_holds f es e : holds f es "" → valid_event e → row_fits e → last_cursor es < ae_cursor e →
  holds (set_events (default "" (nf_events f) +:+ encoded_event e) f) (es ++ [e]) "".
Proof.
  intros [Ht _ Hv Hf Hs] He Hfe Hc. split; [|done| | |].
  - cbn [set_events nf_events default from_option id]. rewrite Ht, !str_app_nil_r, texts_snoc, encoded_event_line. done.
  - apply Forall_app; by split; [|constructor].
  - apply Forall_app; by split; [|constructor].
  - apply StronglySorted_app. split_and!; [intros x y Hx ->%list_elem_of_singleton|done|by repeat constructor].
    revert Hs Hc Hx. clear. induction es as [|z es _] using rev_ind; [by intros _ _ ?%elem_of_nil|]. unfold last_cursor. rewrite last_snoc.
    intros Hs Hc [Hx| ->%list_elem_of_singleton]%elem_of_app; [|done].
    apply StronglySorted_app in Hs as (Hs & _ & _). specialize (Hs x z Hx ltac:(by left)). unfold earlier in *. lia.
Qed.
Lemma torn_holds f es e k : holds f es "" → (k < String.length (encoded_event e))%nat →
  ∃ tail, holds (set_events (default "" (nf_events f) +:+ String.substring 0 k (encoded_event e)) f) es tail.
Proof.
  intros [Ht _ Hv Hf Hs] Hk. rewrite encoded_event_line in *. eexists. split; [|by apply torn_line; [apply event_text_line|]|done..].
  cbn [set_events nf_events default from_option id]. by rewrite Ht, str_app_nil_r.
Qed.
Lemma total_length_lines ts : total_length (line_nl <$> ts) = String.length (lines_text ts).
Proof. induction ts as [|t ts IH]; [done|]. rewrite fmap_cons. cbn [total_length foldr lines_text]. rewrite str_length_app, <- IH. done. Qed.
Lemma concat_lines ts : String.concat "" (line_nl <$> ts) = lines_text ts.
Proof.
  induction ts as [|t [|t' ts] IH]; [done|by cbn; rewrite str_app_nil_r|]. 
  change (lines_text (t :: t' :: ts)) with (line_nl t +:+ lines_text (t' :: ts)). by rewrite <- IH.
Qed.
Lemma trim_lines_drop max ts : ts ≠ [] → ∃ k, (k < length ts)%nat ∧
  trim_lines max (total_length (line_nl <$> ts)) (line_nl <$> ts) = line_nl <$> drop k ts ∧
  (String.length (lines_text (drop k ts)) ≤ max ∨ ∃ t, drop k ts = [t])%nat.
Proof.
  induction ts as [|t ts IH]; intros Hne; [done|]. destruct ts as [|t' ts].
  - exists 0%nat. split_and!; [simpl; lia|done|right; by exists t].
  - destruct (Nat.ltb_spec max (total_length (line_nl <$> t :: t' :: ts))) as [Hl|Hl].
    + destruct IH as (k & Hk & Ht & Hb); [done|]. exists (S k). split_and!; [simpl in *; lia| |done].
      rewrite !fmap_cons in *. cbn [trim_lines]. rewrite (proj2 (Nat.ltb_lt _ _) Hl). rewrite <- fmap_cons in *.
      assert (total_length (line_nl t :: (line_nl <$> t' :: ts)) - String.length (line_nl t) = total_length (line_nl <$> t' :: ts))%nat
        as -> by (change (total_length (?a :: ?l)) with (String.length a + total_length l)%nat at 1; lia).
      exact Ht.
    + exists 0%nat. split_and!; [simpl; lia| |left; by rewrite <- total_length_lines].
      rewrite !fmap_cons in *. cbn [trim_lines]. by rewrite (proj2 (Nat.ltb_ge _ _) Hl).
Qed.
Lemma trim_holds f es : holds f es "" → es ≠ [] → (aj_max_event_bytes j ≤ aj_max_bytes j)%nat →
  ∃ k f', (k < length es)%nat ∧ _trim_unlocked j f = (f', Ok tt) ∧ holds f' (drop k es) "" ∧ nf_head f' = nf_head f ∧
    (String.length (default "" (nf_events f')) ≤ aj_max_bytes j)%nat.
Proof.
  intros Hh Hne Hmax. pose proof Hh as [Ht Hn Hv Hf Hs]. rewrite str_app_nil_r in Ht. unfold _trim_unlocked, modify. rewrite Ht.
  destruct (Nat.leb_spec (String.length (lines_text (texts es))) (aj_max_bytes j)) as [Hl|Hl].
  { exists 0%nat, f. split_and!; [destruct es; [done|simpl; lia]|done|done|done|by rewrite Ht]. }
  rewrite splitlines_lines_text by apply texts_lines.
  destruct (trim_lines_drop (aj_max_bytes j) (texts es)) as (k & Hk & -> & Hb); [intros H%fmap_nil_inv; by destruct Hne|].
  rewrite concat_lines. unfold texts in Hk. rewrite length_fmap in Hk. exists k, (set_events (lines_text (drop k (texts es))) f).
  assert (drop k (texts es) = texts (drop k es)) as Hd by (unfold texts; by rewrite fmap_drop). rewrite Hd in *.
  split_and!; [done|done| |done|].
  - split; [by rewrite str_app_nil_r|done|by apply Forall_drop|by apply Forall_drop|].
    rewrite <- (take_drop k es) in Hs. apply StronglySorted_app in Hs as (_ & _ & Hs). exact Hs.
  - cbn [set_events nf_events default from_option id]. destruct Hb as [?|[t Htx]]; [done|]. rewrite Htx.
    destruct (drop k es) as [|e [|]] eqn:Hdr; try done. injection Htx as <-.
    assert (row_fits e) as Hfe by (rewrite Forall_forall in Hf; apply Hf; apply (subseteq_drop k); rewrite Hdr; by left).
    unfold row_fits in Hfe. rewrite encoded_event_line in Hfe. cbn [lines_text]. rewrite str_app_nil_r. lia.
Qed.
End journal.
