(* ===== verification/ActivityHistory.v ===== *)
(** * Histories of the activity journal ([activity.py])

    The ghost state of a run is the list of events whose row reached the file, in the
    order of publication.  Whatever publishers were killed where, the n-th of them has
    the cursor n, the file keeps the latest of them, and replay in pages misses none
    of those. *)
From S2P Require Import Prelude PyDict PyFloat Canonical Json Models Store JsonLines Control ControlFile ControlCodec Activity ActivityFile ActivityCodec ActivityFacts.
Local Open Scope Z_scope.

Section history.
Context {PF : Platform} {FT : FloatText} (j : ActivityJournal).

Inductive activity_step : NodeFiles * list ActivityEvent → NodeFiles * list ActivityEvent → Prop :=
  | step_published o now f H f' e : publish j o now f = (f', Ok e) → activity_step (f, H) (f', H ++ [e])
  | step_refused o now f H f' x : publish j o now f = (f', Err x) → activity_step (f, H) (f', H)
  | step_torn o now f H f' e k : (k < String.length (encoded_event e))%nat →
      killed_publish j o now (InRow k) f = (f', Ok e) → activity_step (f, H) (f', H)
  | step_killed o now f H f' e : killed_publish j o now AfterRow f = (f', Ok e) → activity_step (f, H) (f', H ++ [e])
  | step_untrimmed o now f H f' e : killed_publish j o now BeforeTrim f = (f', Ok e) → activity_step (f, H) (f', H ++ [e]).

Definition numbered (H : list ActivityEvent) : Prop := ae_cursor <$> H = Z.of_nat <$> seq 1 (length H).
Record log_inv (f : NodeFiles) (H : list ActivityEvent) : Prop := {
  li_held : ∃ k tail, holds j f (drop k H) tail ∧ (H = [] ∨ k < length H)%nat;
  li_numbered : numbered H;
  li_head : 0 <= _read_head_unlocked f <= Z.of_nat (length H) }.

Lemma numbered_snoc H e : numbered H → ae_cursor e = Z.of_nat (length H) + 1 → numbered (H ++ [e]).
Proof.
  unfold numbered. intros HH He. rewrite fmap_app, HH, length_app. simpl.
  rewrite seq_app, fmap_app. f_equal. simpl. f_equal. lia.
Qed.
Lemma numbered_last H : numbered H → last_cursor H = Z.of_nat (length H).
Proof.
  unfold numbered, last_cursor. destruct H as [|e H _] using rev_ind; [done|]. rewrite last_snoc, fmap_app, length_app. simpl.
  rewrite seq_app, fmap_app. intros Hn. apply app_inj_2 in Hn as [_ Hn]; [|done]. simpl in Hn. injection Hn as ->. lia.
Qed.
Lemma last_cursor_drop k (H : list ActivityEvent) : (H = [] ∨ k < length H)%nat → last_cursor (drop k H) = last_cursor H.
Proof.
  intros [->|Hk]; [by rewrite drop_nil|]. unfold last_cursor. destruct H as [|e H _] using rev_ind; [simpl in Hk; lia|].
  rewrite length_app in Hk. simpl in Hk. rewrite drop_app_le by lia. by rewrite !last_snoc.
Qed.
Lemma top_is_length f H : log_inv f H → ∃ k tail, holds j f (drop k H) tail ∧ (H = [] ∨ k < length H)%nat ∧
  Z.max (_read_head_unlocked f) (last_cursor (drop k H)) = Z.of_nat (length H).
Proof.
  intros [(k & tail & Hh & Hk) Hn Hhead]. exists k, tail. split_and!; [done..|].
  rewrite last_cursor_drop, numbered_last by done. lia.
Qed.
Lemma read_head_frame f f' : nf_head f' = nf_head f → _read_head_unlocked f' = _read_head_unlocked f.
Proof. unfold _read_head_unlocked. by intros ->. Qed.

(** What every publication first does, killed or not. *)
Lemma prepare_inv f H o now : log_inv f H →
  let e := observed o (Z.of_nat (length H) + 1) now in
  ∃ f', log_inv f' H ∧ (∃ k, holds j f' (drop k H) "" ∧ (H = [] ∨ k < length H)%nat) ∧
    _read_committed_unlocked f' = _read_committed_unlocked f ∧
    ((acceptable j e ∧ prepare j o now f = (f', Ok e)) ∨
     (¬ acceptable j e ∧ ∃ x, prepare j o now f = (f', Err x) ∧ exn_kind x = ValueError)).
Proof.
  intros Hi. destruct (top_is_length f H Hi) as (k & tail & Hh & Hk & Htop).
  destruct (prepare_holds j f (drop k H) tail o now Hh) as (f' & Hh' & Hhead & Hp). rewrite Htop in Hp.
  exists f'. destruct Hi as [_ Hn Hb]. split_and!; [split; [by exists k, ""|done|by rewrite (read_head_frame _ _ Hhead)]|by exists k| |done].
  by rewrite (read_committed_holds _ _ _ _ Hh), (read_committed_holds _ _ _ _ Hh').
Qed.
(** A complete row becomes part of the history. *)
Lemma append_inv f H k e : log_inv f H → holds j f (drop k H) "" → (H = [] ∨ k < length H)%nat →
  valid_event e → row_fits j e → ae_cursor e = Z.of_nat (length H) + 1 →
  let f' := set_events (default "" (nf_events f) +:+ encoded_event e) f in
  log_inv f' (H ++ [e]) ∧ log_inv (set_head (head_text (ae_cursor e)) f') (H ++ [e]) ∧
  ∃ k', holds j (set_head (head_text (ae_cursor e)) f') (drop k' (H ++ [e])) "" ∧ (k' < length (H ++ [e]))%nat.
Proof.
  intros [_ Hn Hb] Hh Hk Hv Hf Hc f'. set (k' := Nat.min k (length H)).
  assert (drop k' (H ++ [e]) = drop k H ++ [e]) as Hd.
  { unfold k'. rewrite drop_app_le by lia. f_equal. destruct Hk as [->|Hk]; [by rewrite !drop_nil|]. by rewrite Nat.min_l by lia. }
  assert (holds j f' (drop k' (H ++ [e])) "") as Hh'.
  { rewrite Hd. apply append_holds; [done..|]. rewrite last_cursor_drop, numbered_last by done. lia. }
  assert (k' < length (H ++ [e]))%nat as Hk' by (unfold k'; rewrite length_app; simpl; lia).
  assert (numbered (H ++ [e])) as Hn' by (by apply numbered_snoc).
  assert (∀ t, holds j (set_head t f') (drop k' (H ++ [e])) "") as Hh'' by (intros t; destruct Hh' as [? ? ? ? ?]; by split).
  split_and!.
  - split; [exists k', ""; by split; [|right]|done|]. rewrite length_app. change (_read_head_unlocked f') with (_read_head_unlocked f). simpl. lia.
  - split; [exists k', ""; by split; [|right]|done|]. rewrite read_head_written by lia. rewrite length_app. simpl. lia.
  - by exists k'.
Qed.
Lemma torn_inv f H k e n : log_inv f H → holds j f (drop k H) "" → (H = [] ∨ k < length H)%nat →
  (n < String.length (encoded_event e))%nat →
  log_inv (set_events (default "" (nf_events f) +:+ String.substring 0 n (encoded_event e)) f) H.
Proof.
  intros [_ Hn Hb] Hh Hk Hlt. destruct (torn_holds j f (drop k H) e n Hh Hlt) as [tail Ht]. split; [by exists k, tail|done|exact Hb].
Qed.

Lemma publish_inv f H o now : (aj_max_event_bytes j ≤ aj_max_bytes j)%nat → log_inv f H →
  let e := observed o (Z.of_nat (length H) + 1) now in
  ∃ f', (acceptable j e ∧ publish j o now f = (f', Ok e) ∧ log_inv f' (H ++ [e]) ∧
         (String.length (default "" (nf_events f')) ≤ aj_max_bytes j)%nat) ∨
    (¬ acceptable j e ∧ (∃ x, publish j o now f = (f', Err x) ∧ exn_kind x = ValueError) ∧ log_inv f' H ∧
     _read_committed_unlocked f' = _read_committed_unlocked f).
Proof.
  intros Hmax Hi e. destruct (prepare_inv f H o now Hi) as (f1 & Hi1 & (k & Hh & Hk) & Hr & Hp).
  unfold publish. rewrite prog_bind_eq. destruct Hp as [[Ha ->]|[Ha (x & -> & Hx)]].
  2:{ exists f1. right. split; [done|]. split; [by exists x|]. by split. }
  destruct (append_inv f1 H k e Hi1 Hh Hk) as (_ & Hi2 & k2 & Hh2 & Hk2);
    [by apply observed_valid; destruct Ha|by destruct Ha|done|].
  destruct (trim_holds j _ _ Hh2) as (k3 & f3 & Hk3 & Htrim & Hh3 & Hhead & Hsize); [|done|].
  { intros Hd%(f_equal length). rewrite length_drop in Hd. simpl in Hd. lia. }
  exists f3. left. split_and!; [done| | |done].
  - cbv beta match. unfold append_line. prog_modify. unfold _write_head_unlocked. prog_modify. rewrite prog_bind_eq. fold e. by rewrite Htrim.
  - destruct Hi2 as [_ Hn Hb]. split; [|done|by rewrite (read_head_frame _ _ Hhead)].
    rewrite drop_drop in Hh3. rewrite length_drop in Hk3. exists (k2 + k3)%nat, "". split; [done|]. right. lia.
Qed.

Lemma killed_inv f H o now at_ : log_inv f H →
  let e := observed o (Z.of_nat (length H) + 1) now in
  ∃ f', (acceptable j e ∧ killed_publish j o now at_ f = (f', Ok e) ∧
         match at_ with
         | InRow k => (k < String.length (encoded_event e))%nat → log_inv f' H
         | _ => log_inv f' (H ++ [e])
         end) ∨
    (¬ acceptable j e ∧ ∃ x, killed_publish j o now at_ f = (f', Err x)).
Proof.
  intros Hi e. destruct (prepare_inv f H o now Hi) as (f1 & Hi1 & (k & Hh & Hk) & _ & Hp).
  unfold killed_publish. rewrite prog_bind_eq. destruct Hp as [[Ha ->]|[Ha (x & -> & Hx)]].
  2:{ exists f1. right. split; [done|]. by exists x. }
  destruct (append_inv f1 H k e Hi1 Hh Hk) as (Hi2 & Hi3 & _); [by apply observed_valid; destruct Ha|by destruct Ha|done|].
  fold e. cbv beta match. destruct at_ as [n| |]; eexists; left; (split; [done|]); (split; [reflexivity|]); [|done|done].
  intros Hn. by eapply torn_inv.
Qed.

Lemma step_inv s s' : (aj_max_event_bytes j ≤ aj_max_bytes j)%nat → activity_step s s' → log_inv s.1 s.2 → log_inv s'.1 s'.2.
Proof.
  intros Hmax Hs Hi. destruct Hs as [o now f H f' e Hp|o now f H f' x Hp|o now f H f' e k Hk Hp|o now f H f' e Hp|o now f H f' e Hp];
    simpl in *.
  - destruct (publish_inv f H o now Hmax Hi) as (f2 & [(_ & Hp2 & Hi2 & _)|(_ & (x & Hp2 & _) & _)]); rewrite Hp in Hp2; [|done].
    by injection Hp2 as -> ->.
  - destruct (publish_inv f H o now Hmax Hi) as (f2 & [(_ & Hp2 & _)|(_ & (x' & Hp2 & _) & Hi2 & _)]); rewrite Hp in Hp2; [done|].
    by injection Hp2 as -> _.
  - destruct (killed_inv f H o now (InRow k) Hi) as (f2 & [(_ & Hp2 & Hi2)|(_ & x & Hp2)]); rewrite Hp in Hp2; [|done].
    injection Hp2 as -> ->. by apply Hi2.
  - destruct (killed_inv f H o now AfterRow Hi) as (f2 & [(_ & Hp2 & Hi2)|(_ & x & Hp2)]); rewrite Hp in Hp2; [|done].
    by injection Hp2 as -> ->.
  - destruct (killed_inv f H o now BeforeTrim Hi) as (f2 & [(_ & Hp2 & Hi2)|(_ & x & Hp2)]); rewrite Hp in Hp2; [|done].
    by injection Hp2 as -> ->.
Qed.

(** Runs of any number of publishers over a fresh directory, with the bounds [j] has. *)
Definition reachable_log (f : NodeFiles) (H : list ActivityEvent) : Prop :=
  (∃ node max_bytes max_event_bytes, new_ActivityJournal node max_bytes max_event_bytes = Ok j) ∧
  rtc activity_step (no_files, []) (f, H).
Lemma journal_bounds f H : reachable_log f H → (aj_max_event_bytes j ≤ aj_max_bytes j)%nat.
Proof.
  intros [(node & mb & meb & Hj) _]. revert Hj. unfold new_ActivityJournal, value_error, err_if.
  destruct (Nat.ltb_spec mb (meb * 2)); [done|]. repeat case_match; try done. intros [= <-]. simpl. lia.
Qed.
Lemma log_reachable_inv f H : reachable_log f H → log_inv f H.
Proof.
  intros Hr. pose proof (journal_bounds f H Hr) as Hmax. destruct Hr as [_ Hr].
  assert (log_inv no_files []) as H0.
  { split; [|done|done]. exists 0%nat, "". split; [|by left]. split; [done|done|constructor..]. }
  assert (∀ s s', rtc activity_step s s' → log_inv s.1 s.2 → log_inv s'.1 s'.2) as Hall; [|by apply (Hall _ _ Hr)].
  induction 1 as [|s1 s2 s3 Hs12 _ IH]; [done|]. intros Hs1. by eapply IH, step_inv.
Qed.
Lemma read_inv f H : log_inv f H → ∃ k, _read_committed_unlocked f = Ok (norm_event <$> drop k H) ∧ (H = [] ∨ k < length H)%nat.
Proof. intros [(k & tail & Hh & Hk) _ _]. exists k. by rewrite (read_committed_holds _ _ _ _ Hh). Qed.

(** C31: over any interleaving of publications, refused ones and publishers killed at
    any byte of their row, before the head file or before the trim, the journal stays
    readable: the n-th event whose row was completed has cursor n, the journal holds
    the latest of them, at least the very last, in order and as they were written
    (their data key-sorted), and the window it reports is exactly that. *)
Theorem journal_is_numbered_suffix f H : reachable_log f H →
  numbered H ∧
  ∃ kept, _read_committed_unlocked f = Ok kept ∧ kept `suffix_of` (norm_event <$> H) ∧ (H ≠ [] → kept ≠ []) ∧
    window f = Ok {| wi_retained_from_cursor := Z.of_nat (length H) - Z.of_nat (length kept) + 1;
                     wi_head_cursor := Z.of_nat (length H); wi_retained_events := length kept |}.
Proof.
  intros Hi%log_reachable_inv. split; [apply Hi|]. destruct (read_inv f H Hi) as (k & Hr & Hk). exists (norm_event <$> drop k H).
  split; [done|]. split; [rewrite fmap_drop; apply suffix_drop|]. split.
  { intros Hne Hd%fmap_nil_inv%(f_equal length). rewrite length_drop in Hd. destruct Hk; [done|]. simpl in Hd. lia. }
  unfold window. rewrite Hr. cbn [mbind result_bind]. rewrite length_fmap, length_drop.
  change (match last (norm_event <$> drop k H) with Some e => ae_cursor e | None => 0 end) with (last_cursor (norm_event <$> drop k H)).
  destruct Hi as [_ Hn Hb]. rewrite last_cursor_norm, last_cursor_drop, numbered_last, Z.max_r by (done || lia).
  unfold mret, result_ret. do 2 f_equal. destruct Hk as [->|Hk]; [by rewrite drop_nil|].
  destruct (lookup_lt_is_Some_2 H k Hk) as [e He]. rewrite (drop_S H e k He). rewrite fmap_cons. cbn [norm_event ae_cursor].
  pose proof (f_equal (λ l, l !! k) Hn) as Hl. simpl in Hl. rewrite !list_lookup_fmap, He, lookup_seq_lt in Hl by done.
  injection Hl as ->. lia.
Qed.

(** C32: in any reachable state a publication is decided by the event it builds: the
    next cursor, the identity of its context, the reading of the clock, text and data
    bounded and redacted, no authority beyond observation, and the digest of all that.
    If that event passes validation and its row row_fits, it is returned, the next reader
    finds exactly it after the previous head, and the journal is within its bound;
    otherwise the call raises [ValueError] and what readers see is unchanged. *)
Theorem publish_exact f H o now f' r : reachable_log f H → publish j o now f = (f', r) →
  let e := observed o (Z.of_nat (length H) + 1) now in
  match r with
  | Ok e' => e' = e ∧ acceptable j e ∧ ae_authority e = "observation" ∧ ae_event_id e = event_digest e ∧
      (String.length (default "" (nf_events f')) ≤ aj_max_bytes j)%nat ∧
      read_after (Z.of_nat (length H)) 1 no_filters f' = Ok [norm_event e]
  | Err x => exn_kind x = ValueError ∧ ¬ acceptable j e ∧ _read_committed_unlocked f' = _read_committed_unlocked f
  end.
Proof.
  intros Hr Hp e. pose proof (journal_bounds f H Hr) as Hmax. apply log_reachable_inv in Hr.
  destruct (publish_inv f H o now Hmax Hr) as (f2 & [(Ha & Hp2 & Hi2 & Hs)|(Ha & (x & Hp2 & Hx) & _ & Hread)]); fold e in Ha, Hp2;
    rewrite Hp in Hp2; injection Hp2 as -> ->; [|done].
  split_and!; [done..|]. unfold read_after. destruct (Z.ltb_spec (Z.of_nat (length H)) 0); [lia|]. cbn [value_error err_if mbind result_bind].
  destruct (read_inv f2 _ Hi2) as (k & -> & Hk). cbn [check_filters]. change (check_filters no_filters) with (Ok tt : result unit).
  cbn [mbind result_bind]. unfold mret, result_ret. f_equal. destruct Hk as [Hk|Hk]; [by destruct H|].
  rewrite length_app in Hk. simpl in Hk. rewrite drop_app_le, fmap_app by lia.
  assert (∀ x, x ∈ H → ae_cursor x <= Z.of_nat (length H)) as Hle.
  { intros x Hx. destruct Hr as [_ Hn _]. apply (list_elem_of_fmap_2 ae_cursor) in Hx. rewrite Hn in Hx.
    apply list_elem_of_fmap in Hx as (n & -> & Hin%elem_of_seq). lia. }
  assert (∀ xs, (∀ x, x ∈ xs → ae_cursor x <= Z.of_nat (length H)) →
    select_rows (Z.of_nat (length H)) no_filters (clamp_limit 1) (xs ++ [norm_event e]) = [norm_event e]) as Hsel.
  { induction xs as [|x xs IH]; intros Hxs; cbn [app select_rows].
    - assert (ae_cursor (norm_event e) = Z.of_nat (length H) + 1) as -> by done. rewrite (proj2 (Z.leb_gt _ _)) by lia. done.
    - rewrite (proj2 (Z.leb_le _ _)) by (apply Hxs; by left). apply IH. intros; apply Hxs; by right. }
  apply Hsel. intros x (y & -> & Hy)%list_elem_of_fmap. simpl. apply Hle. by eapply subseteq_drop.
Qed.

(** ** Replay in pages *)
Definition after (c : Z) (fl : Filters) (e : ActivityEvent) : bool := (c <? ae_cursor e) && matches fl e.
Lemma select_rows_take c fl n rows : (0 < n)%nat → select_rows c fl n rows = take n (List.filter (after c fl) rows).
Proof.
  revert n. induction rows as [|e rows IH]; intros n Hn; [by destruct n|]. cbn [select_rows List.filter]. unfold after at 1.
  rewrite (Z.leb_antisym c). destruct (c <? ae_cursor e); cbn [negb orb andb]; [|by apply IH].
  destruct (matches fl e); cbn [negb]; [|by apply IH]. destruct n as [|n]; [lia|]. cbn [take]. f_equal.
  destruct (Nat.leb_spec (S n) 1) as [H1|H1]; [by destruct n; [|lia]|]. rewrite IH by lia. f_equal. lia.
Qed.
Lemma filter_filter_impl {A} (p q : A → bool) xs : (∀ x, p x = true → q x = true) →
  List.filter p (List.filter q xs) = List.filter p xs.
Proof.
  intros Hpq. induction xs as [|x xs IH]; [done|]. simpl. destruct (q x) eqn:Hq; simpl; rewrite IH; [done|].
  destruct (p x) eqn:Hp; [|done]. by rewrite (Hpq x Hp) in Hq.
Qed.
Lemma filter_after_page c fl rows n e : StronglySorted earlier rows →
  last (take n (List.filter (after c fl) rows)) = Some e →
  List.filter (after (ae_cursor e) fl) rows = drop n (List.filter (after c fl) rows) ∧ c < ae_cursor e.
Proof.
  intros Hs Hl. set (L := List.filter (after c fl) rows) in *.
  assert (StronglySorted earlier L) as HL by (by apply StronglySorted_filter).
  assert (c < ae_cursor e) as Hce.
  { assert (e ∈ L) as Hin by (apply last_Some_elem_of in Hl; by eapply subseteq_take).
    apply elem_of_filter_bool in Hin as [[Hin _]%andb_prop _]. lia. }
  split; [|done]. trans (List.filter (after (ae_cursor e) fl) L).
  { symmetry. apply filter_filter_impl. unfold after. intros x [Hx Hm]%andb_prop. apply andb_true_iff. split; [lia|done]. }
  rewrite <- (take_drop n L) at 1. rewrite List.filter_app. rewrite <- (take_drop n L) in HL.
  apply StronglySorted_app in HL as (Hcross & Htake & _).
  assert (List.filter (after (ae_cursor e) fl) (take n L) = []) as ->.
  { apply filter_nil_iff. intros x Hx. unfold after. apply andb_false_iff. left. apply Z.ltb_ge.
    destruct (take n L) as [|z T _] using rev_ind; [by apply elem_of_nil in Hx|]. rewrite last_snoc in Hl. injection Hl as ->.
    apply elem_of_app in Hx as [Hx|Hx%list_elem_of_singleton]; [|subst; lia].
    apply StronglySorted_app in Htake as (Ht & _ & _). specialize (Ht x e Hx ltac:(by left)). unfold earlier in Ht. lia. }
  cbn [app]. apply filter_id. intros x Hx. unfold after. apply andb_true_iff. split.
  - apply Z.ltb_lt. apply last_Some_elem_of in Hl. exact (Hcross e x Hl Hx).
  - assert (x ∈ L) as HxL by (by eapply subseteq_drop). by apply elem_of_filter_bool in HxL as [[_ ?]%andb_prop _].
Qed.

(** A consumer that asks for the next page after the last cursor it saw, until a page
    is empty; [fuel] bounds the number of pages. *)
Fixpoint replay (fuel : nat) (after_cursor limit : Z) (fl : Filters) (f : NodeFiles) : option (result (list ActivityEvent)) :=
  match fuel with
  | O => None
  | S fuel =>
      match read_after after_cursor limit fl f with
      | Err e => Some (Err e)
      | Ok page =>
          match last page with
          | None => Some (Ok [])
          | Some e => r ← replay fuel (ae_cursor e) limit fl f; Some (rest ← r; Ok (page ++ rest))
          end
      end
  end.
(** C33: replay is complete: whatever page size is asked for, a consumer that starts
    after a cursor and goes on from the last cursor of each page comes to an end, and
    has then seen exactly the retained events after its start that pass its filters,
    each once and in order. *)
Theorem replay_complete f H c limit fl : reachable_log f H → 0 <= c → check_filters fl = Ok tt →
  ∃ kept fuel, _read_committed_unlocked f = Ok kept ∧ replay fuel c limit fl f = Some (Ok (List.filter (after c fl) kept)).
Proof.
  intros Hi%log_reachable_inv Hc Hfl. destruct (li_held f H Hi) as (k & tail & Hh & _).
  pose proof (read_committed_holds j _ _ _ Hh) as Hr. set (kept := norm_event <$> drop k H) in *.
  assert (StronglySorted earlier kept) as Hs.
  { unfold kept. destruct Hh as [_ _ _ _ Hs]. clear -Hs. induction Hs as [|e es _ IH He]; [constructor|]. rewrite fmap_cons.
    constructor; [done|]. by apply Forall_fmap. }
  exists kept, (S (length (List.filter (after c fl) kept))). split; [done|].
  remember (length (List.filter (after c fl) kept)) as n eqn:Hn. revert c Hc Hn.
  induction (lt_wf n) as [n _ IH]. intros c Hc Hn. cbn [replay]. unfold read_after.
  rewrite (proj2 (Z.ltb_ge c 0)) by done. cbn [value_error err_if mbind result_bind]. rewrite Hfl, Hr. cbn [mbind result_bind].
  assert (0 < clamp_limit limit)%nat as Hpos by (unfold clamp_limit, MAX_REPLAY_LIMIT; lia).
  rewrite select_rows_take by done. set (p := clamp_limit limit) in *. unfold mret, result_ret.
  destruct (last (take p (List.filter (after c fl) kept))) as [e|] eqn:Hl.
  - destruct (filter_after_page c fl kept p e Hs Hl) as [Hf Hce].
    assert (length (List.filter (after (ae_cursor e) fl) kept) < n)%nat as Hlt.
    { rewrite Hf, length_drop, Hn. destruct (List.filter (after c fl) kept); [by destruct p|]. simpl. lia. }
    pose proof (IH _ Hlt (ae_cursor e) ltac:(lia) eq_refl) as Hrec.
    assert (∀ fuel fuel' c r, (fuel ≤ fuel')%nat → replay fuel c limit fl f = Some r → replay fuel' c limit fl f = Some r) as Hmono.
    { clear. intros fuel. induction fuel as [|fuel IH]; intros [|fuel'] c r Hle; try done; [lia|]. cbn [replay].
      destruct (read_after c limit fl f) as [page|x]; [|done]. destruct (last page) as [e|]; [|done].
      destruct (replay fuel (ae_cursor e) limit fl f) as [r'|] eqn:Hr; [|done]. by rewrite (IH fuel' _ _ ltac:(lia) Hr). }
    rewrite (Hmono _ n _ _ Hlt Hrec). cbn. rewrite Hf. by rewrite take_drop.
  - apply last_None in Hl. destruct (List.filter (after c fl) kept); [done|]. destruct p; [lia|done].
Qed.
End history.
