(* ===== verification/ActivityFleet.v ===== *)
(** * The journals of all nodes ([activity.py], [read_fleet])

    The base directory holds one directory per node.  A reader takes one node's lock at
    a time; the model reads all nodes in the same state of the base. *)
From S2P Require Import Prelude Orders PyDict PyFloat Canonical Json Models Store JsonLines Control ControlFile ControlCodec Activity ActivityFile ActivityCodec ActivityFacts ActivityHistory.
Local Open Scope Z_scope.

Definition LEGACY_PARTITION : string := "_legacy".
Section fleet.
Context {PF : Platform} {FT : FloatText}.
Abbreviation base := (dict string NodeFiles).

Definition iter_nodes (b : base) : list string :=
  sorted_str (omap (λ nf, if _SAFE_ID nf.1 && bool_decide (is_Some (nf_events nf.2)) then Some nf.1 else None) (items b)).
Definition cursor_of (cursors : dict string Z) (node : string) : Z := default 0 (cursors !! node).
Definition read_node (b : base) (cursors : dict string Z) (node : string) : result (list (string * ActivityEvent)) :=
  events ← read_after (cursor_of cursors node) MAX_REPLAY_LIMIT no_filters (default no_files (b !! node));
  mret (map (pair node) events).
Definition fleet_key (row : string * ActivityEvent) : triple := (ae_published_at row.2, row.1, ae_cursor row.2).
Definition advance (cursors : dict string Z) (row : string * ActivityEvent) : dict string Z :=
  <[row.1 := Z.max (cursor_of cursors row.1) (ae_cursor row.2)]> cursors.
Definition read_fleet (after : dict string Z) (limit : Z) (b : base) :
    result (list (string * ActivityEvent) * dict string Z) :=
  per_node ← map_result (read_node b after) (iter_nodes b);
  let merged := take (clamp_limit limit) (lex_sort fleet_key (concat per_node)) in
  mret (merged, foldl advance after merged).

(** [migrate_legacy_activity_layout]: [top] are the files of the old layout, directly
    under the base.  A file that would replace one is moved under another name, which
    no reader looks at; the names of the moved files are returned. *)
Definition migrate_legacy_activity_layout (top : NodeFiles) (b : base) : NodeFiles * base * list string :=
  match nf_events top with
  | None => (top, b, [])
  | Some events =>
      let target := default no_files (b !! LEGACY_PARTITION) in
      let target := match nf_events target with Some _ => target | None => set_events events target end in
      let target := match nf_head top, nf_head target with Some head, None => set_head head target | _, _ => target end in
      (no_files, <[LEGACY_PARTITION := target]> b,
       "events.jsonl" :: match nf_head top with Some _ => ["head.json"] | None => [] end)
  end.

(** ** Nothing is skipped while clocks run forward *)
(** The node's readable events are in the order of their timestamps. *)
Definition chronological (es : list ActivityEvent) : Prop :=
  ∀ e e', e ∈ es → e' ∈ es → ae_cursor e < ae_cursor e' → ae_published_at e <= ae_published_at e'.
Lemma cursor_of_advance cursors row n :
  cursor_of (advance cursors row) n = if decide (row.1 = n) then Z.max (cursor_of cursors n) (ae_cursor row.2) else cursor_of cursors n.
Proof.
  unfold advance, cursor_of. rewrite dict_lookup_insert. case_decide as Hn; [by rewrite Hn|done].
Qed.
Lemma cursor_of_page page after n :
  cursor_of (foldl advance after page) n = cursor_of after n ∨
  ∃ e, (n, e) ∈ page ∧ cursor_of (foldl advance after page) n = ae_cursor e.
Proof.
  induction page as [|[m e] page IH] using rev_ind; [by left|]. rewrite foldl_app. cbn [foldl]. rewrite cursor_of_advance. simpl.
  case_decide as Hm; [subst m|].
  - destruct (Z.max_spec (cursor_of (foldl advance after page) n) (ae_cursor e)) as [[_ ->]|[_ ->]].
    + right. exists e. split; [|done]. apply elem_of_app. right. by left.
    + destruct IH as [->|(e' & Hin & ->)]; [by left|right]. exists e'. split; [|done]. apply elem_of_app. by left.
  - destruct IH as [->|(e' & Hin & ->)]; [by left|right]. exists e'. split; [|done]. apply elem_of_app. by left.
Qed.
Lemma increasing_inv es : increasing es = true → StronglySorted earlier es.
Proof.
  induction es as [|e es IH]; [constructor|]. destruct es as [|e' es]; [by repeat constructor|].
  cbn [increasing]. intros [Hlt Hs]%andb_prop. specialize (IH Hs). constructor; [done|].
  apply Z.ltb_lt in Hlt. constructor; [done|]. inversion IH as [|? ? _ Hall]. eapply Forall_impl; [exact Hall|]. unfold earlier. lia.
Qed.
Lemma read_committed_sorted f es : _read_committed_unlocked f = Ok es → StronglySorted earlier es.
Proof.
  unfold _read_committed_unlocked. destruct (nf_events f); [|intros [= <-]; constructor].
  destruct (map_result _ _) as [rows|]; cbn [mbind result_bind]; [|done]. destruct (increasing rows) eqn:Hs; [|done].
  intros [= <-]. by apply increasing_inv.
Qed.
(** A page keeps what is before something it holds. *)
Lemma page_prefix es n e e' : StronglySorted earlier es → e ∈ es → e' ∈ take n es → ae_cursor e < ae_cursor e' → e ∈ take n es.
Proof.
  intros Hs He He' Hlt. rewrite <- (take_drop n es) in He, Hs. apply elem_of_app in He as [?|He]; [done|].
  apply StronglySorted_app in Hs as (Hs & _). specialize (Hs e' e He' He). unfold earlier in Hs. lia.
Qed.

Lemma elem_of_iter_nodes (b : base) n : dict_wf b →
  n ∈ iter_nodes b ↔ ∃ f, b !! n = Some f ∧ _SAFE_ID n = true ∧ is_Some (nf_events f).
Proof.
  intros Hwf. unfold iter_nodes. rewrite elem_of_sorted_str, list_elem_of_omap. split.
  - intros ([m f] & Hin%elem_of_items & Hs); [|done]. simpl in Hs. destruct (_SAFE_ID m) eqn:Hm; simpl in Hs; [|done].
    case_bool_decide; [|done]. injection Hs as <-. by exists f.
  - intros (f & Hf%elem_of_items & Hs & He); [|done]. exists (n, f). split; [done|]. simpl. by rewrite Hs, bool_decide_eq_true_2.
Qed.
(** What the view pages of a node, and what one node contributes. *)
Definition pending_rows (seen : dict string Z) (n : string) (es : list ActivityEvent) : list ActivityEvent :=
  take (clamp_limit MAX_REPLAY_LIMIT) (List.filter (after (cursor_of seen n) no_filters) es).
Lemma read_node_ok (b : base) seen n f rows : b !! n = Some f → read_node b seen n = Ok rows →
  ∃ es, _read_committed_unlocked f = Ok es ∧ rows = pair n <$> pending_rows seen n es.
Proof.
  intros Hf. unfold read_node, read_after. rewrite Hf. cbn [default from_option id]. destruct (cursor_of seen n <? 0); [done|].
  cbn [value_error err_if mbind result_bind]. change (check_filters no_filters) with (Ok tt : result unit). cbn [mbind result_bind].
  destruct (_read_committed_unlocked f) as [es|]; cbn [mbind result_bind]; [|done]. intros [= <-].
  exists es. split; [done|]. by rewrite select_rows_take by (unfold clamp_limit, MAX_REPLAY_LIMIT; lia).
Qed.
Lemma elem_of_merged (b : base) seen per_node n e : dict_wf b → map_result (read_node b seen) (iter_nodes b) = Ok per_node →
  (n, e) ∈ concat per_node ↔
  ∃ f es, n ∈ iter_nodes b ∧ b !! n = Some f ∧ _read_committed_unlocked f = Ok es ∧ e ∈ pending_rows seen n es.
Proof.
  intros Hwf Hm. rewrite elem_of_concat. setoid_rewrite (map_result_elem _ _ _ _ Hm). split.
  - intros (rows & Hin & m & Hm' & Hrows). pose proof Hm' as (f & Hf & _)%elem_of_iter_nodes; [|done].
    destruct (read_node_ok b seen m f rows Hf Hrows) as (es & Hes & ->).
    apply list_elem_of_fmap in Hin as (e' & [= -> ->] & Hin). by exists f, es.
  - intros (f & es & Hn & Hf & Hes & Hin). assert (∃ rows, read_node b seen n = Ok rows) as [rows Hrows].
    { apply map_result_ok in Hm. clear -Hn Hm. induction Hm as [|m rows ns rs Hr _ IH]; [by apply elem_of_nil in Hn|].
      apply elem_of_cons in Hn as [->|Hn]; [by exists rows|by apply IH]. }
    exists rows. split; [|by exists n]. destruct (read_node_ok b seen n f rows Hf Hrows) as (es' & Hes' & ->).
    rewrite Hes in Hes'. injection Hes' as <-. by apply list_elem_of_fmap_2.
Qed.

(** a page of the fleet view skips nothing as long as in every node the
    timestamps do not run backwards: an event whose cursor the returned map has
    passed, and the given map had not, is in the page; and the page holds only events
    of the nodes beyond the given cursors. *)
Theorem fleet_page_skips_nothing seen limit (b : base) page cursors : dict_wf b → read_fleet seen limit b = Ok (page, cursors) →
  (∀ n f es, b !! n = Some f → _read_committed_unlocked f = Ok es → chronological es) →
  (∀ n e, (n, e) ∈ page → ∃ f es, b !! n = Some f ∧ _read_committed_unlocked f = Ok es ∧ e ∈ es ∧ cursor_of seen n < ae_cursor e) ∧
  ∀ n f es e, n ∈ iter_nodes b → b !! n = Some f → _read_committed_unlocked f = Ok es → e ∈ es →
    cursor_of seen n < ae_cursor e <= cursor_of cursors n → (n, e) ∈ page.
Proof.
  intros Hwf Hread Hchron. unfold read_fleet in Hread.
  destruct (map_result (read_node b seen) (iter_nodes b)) as [per_node|] eqn:Hm; cbn [mbind result_bind] in Hread; [|done].
  injection Hread as <- <-. pose proof (λ n e, elem_of_merged b seen per_node n e Hwf Hm) as Hall.
  set (page := take (clamp_limit limit) (lex_sort fleet_key (concat per_node))).
  assert (∀ row, row ∈ page → row ∈ concat per_node) as Hsub.
  { intros row Hrow. apply subseteq_take in Hrow. by rewrite (lex_sort_perm fleet_key) in Hrow. }
  assert (∀ n es e, e ∈ pending_rows seen n es → e ∈ es ∧ cursor_of seen n < ae_cursor e) as Hpend.
  { intros n es e Hin%subseteq_take. apply elem_of_filter_bool in Hin as [[Hc _]%andb_prop Hin]. split; [done|lia]. }
  split.
  - intros n e (f & es & _ & Hf & Hes & [? ?]%Hpend)%Hsub%Hall. by exists f, es.
  - intros n f es e Hn Hf Hes He [Hlo Hhi]. destruct (cursor_of_page page seen n) as [Heq|(e' & Hin & Heq)]; rewrite Heq in Hhi; [lia|].
    pose proof Hin as (f' & es' & _ & Hf' & Hes' & Hin')%Hsub%Hall. assert (f' = f) as -> by congruence. assert (es' = es) as -> by congruence.
    pose proof (read_committed_sorted f es Hes) as Hs. destruct (Hpend n es e' Hin') as [He' _].
    destruct (Z.eq_dec (ae_cursor e) (ae_cursor e')) as [Hc|Hne].
    { assert (e = e') as ->; [|done]. clear -Hs He He' Hc.
      induction Hs as [|x xs _ IH Hx]; [by apply elem_of_nil in He|]. rewrite Forall_forall in Hx. unfold earlier in Hx.
      apply elem_of_cons in He as [->|He], He' as [->|He']; [done|specialize (Hx _ He'); lia|specialize (Hx _ He); lia|by apply IH]. }
    assert (ae_cursor e < ae_cursor e') as Hlt by lia.
    assert (e ∈ pending_rows seen n es) as Hpe.
    { eapply page_prefix; [by apply StronglySorted_filter| |exact Hin'|done]. apply elem_of_filter_bool. split; [|done].
      unfold after. rewrite (proj2 (Z.ltb_lt _ _)) by lia. done. }
    apply (lex_sort_prefix fleet_key _ _ _ (n, e')); [apply Hall; by exists f, es|exact Hin| |].
    + apply lex_leb_spec. cbn [fleet_key fst snd]. pose proof (Hchron n f es Hf Hes e e' He He' Hlt).
      destruct (Z.lt_trichotomy (ae_published_at e) (ae_published_at e')) as [?|[?|?]]; [by left|right|lia]. split; [done|]. right. split; [done|lia].
    + unfold fleet_key. simpl. intros [= _ ?]. lia.
Qed.
End fleet.
