(* ===== verification/Pool.v ===== *)
(** * The pool of panes and its autoscale policy
    ([pool.py], [autoscale_policy.py], [autocode/autoscale.py], [autocode/fleet_dispatch.py])

    The controller tracks the panes it spawned; every spawn and archive is the
    harness's, a program on a world [W] of its own, and every change is published to
    an activity journal.  The methods are coroutines; the model runs one call at a
    time.  An authorization check and a recorder of evidence are the caller's programs
    on the world of the harness. *)
From S2P Require Import Prelude Orders PyDict PyFloat Canonical Json Models Store JsonLines Control ControlFile Activity ActivityFile.
From stdpp Require Import pretty.
From Stdlib Require Import Ascii.
Local Open Scope Z_scope.

(** ** [repr] of a string *)
Definition squote : ascii := ascii_of_N 39.
Definition backslash : ascii := ascii_of_N 92.
Definition unprintable (c : ascii) : bool :=
  let n := N_of_ascii c in ((n <? 32) || (127 <=? n) && (n <=? 160) || (n =? 173))%N.
Definition repr_char (quote : ascii) (c : ascii) : string :=
  if Ascii.eqb c quote || Ascii.eqb c backslash then String backslash (String c "")
  else if (N_of_ascii c =? 9)%N then String backslash "t"
  else if (N_of_ascii c =? 10)%N then String backslash "n"
  else if (N_of_ascii c =? 13)%N then String backslash "r"
  else if unprintable c then
    String backslash (String "x" (String (hex_digit (N_of_ascii c / 16)) (String (hex_digit (N_of_ascii c mod 16)) "")))
  else String c "".
Fixpoint repr_chars (quote : ascii) (s : string) : string :=
  match s with EmptyString => "" | String c s => repr_char quote c +:+ repr_chars quote s end.
Definition py_repr (s : string) : string :=
  let quote := if str_mem squote s && negb (str_mem quote_char s) then quote_char else squote in
  String quote (repr_chars quote s +:+ String quote "").

(** ** The harness *)
Record SessionDescriptor := { sd_repo : string; sd_branch : string; sd_model : string; sd_quality : string; sd_mode : string }.
Record HarnessSession := { hs_sid : string; hs_descriptor : option SessionDescriptor; hs_status : string; hs_branch : string }.
(** What [archive] answers: [archived], with the transcript's path or a reason. *)
Record ArchiveResult := {
  rs_sid : string; rs_archived : bool; rs_reason : option string; rs_transcript_path : option string }.
Definition archive_json (r : ArchiveResult) : list (string * json) :=
  [("sid", JStr (rs_sid r)); ("archived", JBool (rs_archived r))] ++
  match rs_reason r with Some s => [("reason", JStr s)] | None => [] end ++
  match rs_transcript_path r with Some s => [("transcript_path", JStr s)] | None => [] end.
Record Harness (W : Type) := {
  harness_spawn : SessionDescriptor → string → prog W HarnessSession;
  harness_archive : string → prog W ArchiveResult }.
Arguments harness_spawn {W} _ _ _.
Arguments harness_archive {W} _ _.

Record PoolMember := {
  pm_sid : string; pm_lane : string; pm_repo : string; pm_branch : string; pm_session : HarnessSession;
  pm_spawned_at : float; pm_drained : bool; pm_drain_result : option ArchiveResult }.
Definition set_drain (drained : bool) (r : ArchiveResult) (m : PoolMember) : PoolMember := {|
  pm_sid := pm_sid m; pm_lane := pm_lane m; pm_repo := pm_repo m; pm_branch := pm_branch m; pm_session := pm_session m;
  pm_spawned_at := pm_spawned_at m; pm_drained := drained; pm_drain_result := Some r |}.

(** [sorted(xs, key=...)] for a numeric key: stable. *)
Fixpoint insert_on {A} (key : A → Z) (x : A) (xs : list A) : list A :=
  match xs with [] => [x] | y :: ys => if key x <=? key y then x :: xs else y :: insert_on key x ys end.
Definition sort_on {A} (key : A → Z) (xs : list A) : list A := foldr (insert_on key) [] xs.

Section pool.
Context {W : Type} {PF : Platform} {FT : FloatText} (harness : Harness W).
(** The clocks of the controller and of its journal, by reading, and the journal. *)
Context (clock activity_clock : nat → float) (activity : option ActivityJournal).

Record PoolController := {
  pc_world : W; pc_pool : dict string PoolMember; pc_ticks : nat; pc_files : NodeFiles; pc_activity_ticks : nat }.
Definition on_world {A} (m : prog W A) : prog PoolController A := λ p,
  let '(w, r) := m (pc_world p) in
  ({| pc_world := w; pc_pool := pc_pool p; pc_ticks := pc_ticks p; pc_files := pc_files p;
      pc_activity_ticks := pc_activity_ticks p |}, r).
Definition set_pool (d : dict string PoolMember) (p : PoolController) : PoolController := {|
  pc_world := pc_world p; pc_pool := d; pc_ticks := pc_ticks p; pc_files := pc_files p; pc_activity_ticks := pc_activity_ticks p |}.
Definition read_time : prog PoolController float := λ p,
  ({| pc_world := pc_world p; pc_pool := pc_pool p; pc_ticks := S (pc_ticks p); pc_files := pc_files p;
      pc_activity_ticks := pc_activity_ticks p |}, Ok (clock (pc_ticks p))).

(** [_emit]; the journal reads its clock when the publication gets that far, and the
    model counts a reading for every publication. *)
Definition pool_context (sid : string) : ActivityContext := {|
  ac_session_id := sid; ac_run_id := ""; ac_agent_id := ""; ac_job_id := ""; ac_role := ""; ac_phase := "";
  ac_source := "lane1-pool"; ac_card_id := ""; ac_card_hash := ""; ac_trajectory_id := ""; ac_team_id := "";
  ac_parent_agent_id := ""; ac_contract_id := ""; ac_contract_hash := ""; ac_plan_hash := ""; ac_lease_id := "";
  ac_attempt_id := ""; ac_base_commit := ""; ac_evidence_id := "" |}.
Definition swallowed (k : exn_class) : bool := exn_isa k ValueError || exn_isa k TypeError || exn_isa k OSError.
Definition _emit (sid : string) (kind : ActivityKind.t) (summary : string) (data : list (string * json)) : prog PoolController unit :=
  match activity with
  | None => mret tt
  | Some j =>
      match validate_ActivityContext (pool_context sid) with
      | Err _ => mret tt
      | Ok context => λ p,
          let o := {| pb_context := context; pb_kind := kind; pb_summary := summary; pb_data := data; pb_artifact_refs := [] |} in
          let '(f, r) := publish j o (activity_clock (pc_activity_ticks p)) (pc_files p) in
          ({| pc_world := pc_world p; pc_pool := pc_pool p; pc_ticks := pc_ticks p; pc_files := f;
              pc_activity_ticks := S (pc_activity_ticks p) |},
           match r with Ok _ => Ok tt | Err e => if swallowed (exn_kind e) then Ok tt else Err e end)
      end
  end.

(** The parameters of [spawn] and [scale] that describe a pane. *)
Record PaneSpec := { ps_lane : string; ps_repo : string; ps_branch : string; ps_prompt : string; ps_model : string;
  ps_quality : string; ps_mode : string }.
Definition pool_spawn (s : PaneSpec) : prog PoolController PoolMember :=
  session ← on_world (harness_spawn harness {| sd_repo := ps_repo s; sd_branch := ps_branch s; sd_model := ps_model s;
    sd_quality := ps_quality s; sd_mode := ps_mode s |} (ps_prompt s));
  spawned_at ← read_time;
  let sid := hs_sid session in
  let member := {| pm_sid := sid; pm_lane := ps_lane s; pm_repo := ps_repo s; pm_branch := ps_branch s; pm_session := session;
    pm_spawned_at := spawned_at; pm_drained := false; pm_drain_result := None |} in
  modify (λ p, set_pool (<[sid := member]> (pc_pool p)) p) ;;
  _emit sid ActivityKind.STATUS ("lane1 pool spawned " +:+ py_repr sid +:+ " in lane " +:+ py_repr (ps_lane s))
    [("lane", JStr (ps_lane s)); ("repo", JStr (ps_repo s)); ("branch", JStr (ps_branch s)); ("quality", JStr (ps_quality s));
     ("mode", JStr (ps_mode s))] ;;
  mret member.

Definition untracked (sid : string) : ArchiveResult := {| rs_sid := sid; rs_archived := false;
  rs_reason := Some "not a pool-tracked session (drain is scoped to panes this controller spawned)"; rs_transcript_path := None |}.
(** The pane is archived, or was gone already. *)
Definition is_gone (r : ArchiveResult) : bool := rs_archived r || str_contains "no live session" (default "" (rs_reason r)).
Definition drain (sid : string) : prog PoolController ArchiveResult :=
  d ← gets pc_pool;
  match d !! sid with
  | None => mret (untracked sid)
  | Some _ =>
      r ← on_world (harness_archive harness sid);
      modify (λ p, match pc_pool p !! sid with
        | Some m => set_pool (<[sid := set_drain (pm_drained m || is_gone r) r m]> (pc_pool p)) p
        | None => p end) ;;
      _emit sid (if rs_archived r then ActivityKind.STATUS else ActivityKind.DISPOSITION)
        ("lane1 pool drained " +:+ py_repr sid +:+ ": archived=" +:+ (if rs_archived r then "True" else "False")) (archive_json r) ;;
      mret r
  end.

Definition _active_members (lane : string) (d : dict string PoolMember) : list PoolMember :=
  List.filter (λ m, bool_decide (pm_lane m = lane) && negb (pm_drained m)) (vals d).
Definition pool_members (lane : option string) (d : dict string PoolMember) : list PoolMember :=
  List.filter (λ m, match lane with Some l => bool_decide (pm_lane m = l) | None => true end) (vals d).

Fixpoint drain_all (members : list PoolMember) : prog PoolController (list ArchiveResult) :=
  match members with
  | [] => mret []
  | m :: members => r ← drain (pm_sid m); rs ← drain_all members; mret (r :: rs)
  end.
Fixpoint spawn_n (n : nat) (s : PaneSpec) : prog PoolController unit :=
  match n with O => mret tt | S n => pool_spawn s ;; spawn_n n s end.
(** The oldest members beyond the target. *)
Definition surplus (active : list PoolMember) (target : Z) : list PoolMember :=
  take (length active - Z.to_nat target) (sort_on pm_spawned_at active).
Definition scale (s : PaneSpec) (target : Z) : prog PoolController (list PoolMember) :=
  raise_if (target <? 0) ValueError "scale target must be >= 0" ;;
  d ← gets pc_pool;
  let active := _active_members (ps_lane s) d in
  (if target <? Z.of_nat (length active) then drain_all (surplus active target) ;; mret tt
   else spawn_n (Z.to_nat target - length active) s) ;;
  d ← gets pc_pool;
  mret (_active_members (ps_lane s) d).
Definition destroy (lane : option string) : prog PoolController (list ArchiveResult) :=
  d ← gets pc_pool;
  drain_all (List.filter (λ m, negb (pm_drained m)) (pool_members lane d)).
End pool.

(** ** Polling the board *)
Section board.
Context {PF : Platform} {FT : FloatText}.
Definition unhashable : exn := Exn TypeError "unhashable type".
Definition not_iterable : exn := Exn TypeError "object is not iterable".
Definition hashable (j : json) : bool := match j with JArr _ | JObj _ => false | _ => true end.
(** [value in wanted] for a set of texts *)
Definition in_texts (wanted : gset string) (j : json) : result bool :=
  match j with
  | JStr s => Ok (bool_decide (s ∈ wanted))
  | JArr _ | JObj _ => Err unhashable
  | _ => Ok false
  end.
(** The texts of a string: its characters. *)
Fixpoint chars (s : string) : list string := match s with EmptyString => [] | String c s => String c "" :: chars s end.
(** [labels.intersection(values)] is not empty. *)
Definition labels_meet (labels : gset string) (values : json) : result bool :=
  match values with
  | JArr xs =>
      err_if (negb (forallb hashable xs)) TypeError "unhashable type" ;;
      mret (existsb (λ x, match x with JStr s => bool_decide (s ∈ labels) | _ => false end) xs)
  | JStr s => Ok (existsb (λ c, bool_decide (c ∈ labels)) (chars s))
  | JObj ms => Ok (existsb (λ k, bool_decide (k ∈ labels)) ms.*1)
  | _ => Err not_iterable
  end.
(** The tests of one card. *)
Definition selects (statuses labels : gset string) (card : list (string * json)) : result bool :=
  let get k := default JNull ((Dict card : dict string json) !! k) in
  wanted ← (if bool_decide (statuses = ∅) then Ok true else in_texts statuses (get "status"));
  match wanted with
  | false => Ok false
  | true =>
      let card_labels := match get "labels" with
        | JNull => let tags := get "tags" in if falsy tags then JArr [] else tags
        | l => l end in
      if bool_decide (labels = ∅) then Ok true else labels_meet labels card_labels
  end.
Fixpoint select_cards (statuses labels : gset string) (items : list json) : result (list (list (string * json))) :=
  match items with
  | [] => Ok []
  | JObj card :: items =>
      keep ← selects statuses labels card;
      rest ← select_cards statuses labels items;
      Ok (match keep with true => card :: rest | false => rest end)
  | _ :: items => select_cards statuses labels items
  end.
(** All items of the board's columns, in order. *)
Definition board_items (board : list (string * json)) : list json :=
  concat (map (λ lane_cols, match lane_cols.2 with
    | JObj cols => concat (map (λ c, match c.2 with JArr items => items | _ => [] end) cols)
    | _ => [] end) board).
(** [raw] is what the board runner gives, if there is one. *)
Definition poll_board (raw : option (result string)) (statuses labels : gset string) : result (list (list (string * json))) :=
  match raw with
  | None => Ok []
  | Some (Err e) => if exn_isa (exn_kind e) ValueError || exn_isa (exn_kind e) TypeError || exn_isa (exn_kind e) OSError then Ok [] else Err e
  | Some (Ok text) =>
      match json_loads text with
      | Some (JObj board) => select_cards statuses labels (board_items board)
      | _ => Ok []
      end
  end.
End board.
