(* ===== verification/PoolFacts.v ===== *)
(** * The pool of panes: what its verbs do

    Every verb is described by its effect on the table of tracked panes; publications
    touch the journal and nothing else.  The theorems are about the calls of the
    harness that were made, whatever the harness answered. *)
From S2P Require Import Prelude Orders PyDict PyFloat Canonical Json Models Store JsonLines Control ControlFile Activity ActivityFile Pool.
From stdpp Require Import pretty.
Local Open Scope Z_scope.

(** ** Stable sorting by a number *)
Section sort_on.
Context {A : Type} (key : A → Z).
Definition key_le (x y : A) : Prop := key x <= key y.
Lemma insert_on_perm x xs : insert_on key x xs ≡ₚ x :: xs.
Proof. induction xs as [|y ys IH]; simpl; [done|]. destruct (key x <=? key y); [done|]. by rewrite IH, Permutation_swap. Qed.
Lemma sort_on_perm xs : sort_on key xs ≡ₚ xs.
Proof. induction xs as [|x xs IH]; simpl; [done|]. by rewrite insert_on_perm, IH. Qed.
Lemma insert_on_sorted x xs : StronglySorted key_le xs → StronglySorted key_le (insert_on key x xs).
Proof.
  induction 1 as [|y ys Hs IH Hy]; simpl; [repeat constructor|]. destruct (Z.leb_spec (key x) (key y)) as [Hle|Hgt].
  - constructor; [by constructor|]. constructor; [done|]. eapply Forall_impl; [exact Hy|]. unfold key_le. intros z ?. simpl in *. lia.
  - constructor; [done|]. rewrite insert_on_perm. constructor; [unfold key_le; lia|done].
Qed.
Lemma sort_on_sorted xs : StronglySorted key_le (sort_on key xs).
Proof. induction xs; simpl; [constructor|]. by apply insert_on_sorted. Qed.
End sort_on.

(** ** Tables of members *)
Definition pool_wf (d : dict string PoolMember) : Prop := dict_wf d ∧ ∀ sid m, d !! sid = Some m → pm_sid m = sid.
Definition active_in (lane : string) (m : PoolMember) : bool := bool_decide (pm_lane m = lane) && negb (pm_drained m).
Definition active_sids (lane : string) (d : dict string PoolMember) : list string := pm_sid <$> _active_members lane d.

Lemma pool_sids d : pool_wf d → pm_sid <$> vals d = keys d.
Proof.
  intros [Hd Hk]. unfold vals, keys. rewrite <- list_fmap_compose. apply list_fmap_ext. intros i [sid m] Hi.
  apply list_elem_of_lookup_2 in Hi. simpl. apply Hk. by apply elem_of_items.
Qed.
Lemma elem_of_pool d m : pool_wf d → m ∈ vals d ↔ d !! pm_sid m = Some m.
Proof.
  intros [Hd Hk]. rewrite elem_of_vals by done. split; [|by eauto]. intros (sid & Hm). by rewrite (Hk _ _ Hm).
Qed.
Lemma active_elem lane d m : pool_wf d → m ∈ _active_members lane d ↔ d !! pm_sid m = Some m ∧ pm_lane m = lane ∧ pm_drained m = false.
Proof.
  intros Hd. unfold _active_members. rewrite elem_of_filter_bool, elem_of_pool, andb_true_iff, bool_decide_eq_true, negb_true_iff by done.
  naive_solver.
Qed.
Lemma active_sids_NoDup lane d : pool_wf d → NoDup (active_sids lane d).
Proof.
  intros Hd. unfold active_sids, _active_members. pose proof (proj1 Hd) as Hn. unfold dict_wf in Hn. rewrite <- pool_sids in Hn by done.
  revert Hn. generalize (vals d). induction l as [|m ms IH]; [constructor|]. cbn [fmap list_fmap List.filter].
  intros [Hm Hms]%NoDup_cons.
  destruct (bool_decide _ && _); [|by apply IH]. cbn [fmap list_fmap]. constructor; [|by apply IH].
  intros (m' & E & Hin)%list_elem_of_fmap. destruct Hm. rewrite E. apply list_elem_of_fmap_2.
  by apply elem_of_filter_bool in Hin as [_ ?].
Qed.

(** The active members are found by their identifiers: of two tables that track the
    same identifiers, one keeps the active members of the other except those that it
    has drained. *)
Lemma active_after lane d d' (gone : list string) : pool_wf d → pool_wf d' → keys d' = keys d →
  (∀ sid m, d !! sid = Some m → ∃ m', d' !! sid = Some m' ∧ pm_lane m' = pm_lane m ∧
    (pm_lane m = lane → pm_drained m' = pm_drained m || bool_decide (sid ∈ gone))) →
  active_sids lane d' = filter (λ sid, sid ∉ gone) (active_sids lane d).
Proof.
  intros Hd Hd' Hk Hm. unfold active_sids, _active_members.
  assert (Forall2 (λ m m', pm_sid m' = pm_sid m ∧ pm_lane m' = pm_lane m ∧
    (pm_lane m = lane → pm_drained m' = pm_drained m || bool_decide (pm_sid m ∈ gone))) (vals d) (vals d')) as H.
  { rewrite <- !pool_sids in Hk by done. apply Forall2_same_length_lookup_2.
    { apply (f_equal length) in Hk. by rewrite !length_fmap in Hk. }
    intros i m m' Hi Hi'.
    assert (pm_sid m' = pm_sid m) as E.
    { apply (f_equal (lookup i)) in Hk. rewrite !list_lookup_fmap, Hi, Hi' in Hk. by injection Hk. }
    apply list_elem_of_lookup_2, elem_of_pool in Hi; [|done]. apply list_elem_of_lookup_2, elem_of_pool in Hi'; [|done].
    destruct (Hm _ _ Hi) as (m'' & Hl & H). rewrite E, Hl in Hi'. by injection Hi' as ->. }
  induction H as [|m m' ms ms' (Hs & Hl & Hg) _ IH]; [done|]. cbn [List.filter]. rewrite Hl.
  destruct (decide (pm_lane m = lane)) as [El|El]; [|by rewrite bool_decide_eq_false_2].
  rewrite bool_decide_eq_true_2, Hg by done. cbn [andb]. destruct (pm_drained m); [exact IH|]. cbn [negb orb].
  rewrite fmap_cons, filter_cons, <- IH. case_bool_decide; case_decide; [done|done|cbn; by rewrite Hs|done].
Qed.

Lemma pool_wf_insert d sid m : pool_wf d → pm_sid m = sid → pool_wf (<[sid := m]> d).
Proof.
  intros [Hd Hk] Hs. split; [by apply dict_wf_insert|]. intros sid' m'. rewrite dict_lookup_insert.
  case_decide; [naive_solver|by apply Hk].
Qed.

(** What a harness promises of the names of its panes: a new pane has a name that no
    pane had before (the harness draws it at random). *)
Class FreshNames {W} (harness : Harness W) := {
  names_used : W → gset string;
  spawn_fresh d prompt w w' session : harness_spawn harness d prompt w = (w', Ok session) →
    hs_sid session ∉ names_used w ∧ {[hs_sid session]} ∪ names_used w ⊆ names_used w' }.

(** ** The calls of a harness that a verb makes *)
Inductive harness_call := Spawned (d : SessionDescriptor) (prompt : string) (session : HarnessSession) | Archived (sid : string) (r : ArchiveResult).
(** The harness, asked exactly these calls in this order, gave these answers and took
    the world [w] to [w'].  The world is the harness's own and may hold anything, so no
    other call was made in between: see [performs_logged]. *)
Fixpoint performs {W} (harness : Harness W) (calls : list harness_call) (w w' : W) : Prop :=
  match calls with
  | [] => w' = w
  | Spawned d prompt session :: calls => ∃ w1, harness_spawn harness d prompt w = (w1, Ok session) ∧ performs harness calls w1 w'
  | Archived sid r :: calls => ∃ w1, harness_archive harness sid w = (w1, Ok r) ∧ performs harness calls w1 w'
  end.
(** A harness whose world also lists the calls that it answered. *)
Definition noting {W A} (call : A → harness_call) (m : prog W A) : prog (W * list harness_call) A := λ '(w, log),
  let '(w', r) := m w in ((w', match r with Ok a => log ++ [call a] | Err _ => log end), r).
Definition logged {W} (harness : Harness W) : Harness (W * list harness_call) := {|
  harness_spawn d prompt := noting (Spawned d prompt) (harness_spawn harness d prompt);
  harness_archive sid := noting (Archived sid) (harness_archive harness sid) |}.
Lemma performs_logged {W} (harness : Harness W) calls w w' : performs (logged harness) calls w w' → w'.2 = w.2 ++ calls.
Proof.
  revert w. induction calls as [|c calls IH]; intros [w log]; simpl; [intros ->; by rewrite app_nil_r|].
  destruct c; simpl; intros (w1 & H & Hp); unfold noting in H;
    [destruct (harness_spawn harness d prompt w)|destruct (harness_archive harness sid w)];
    injection H as <- ->; apply IH in Hp; simpl in Hp; by rewrite Hp, <- app_assoc.
Qed.
#[export] Instance logged_fresh {W} (harness : Harness W) `{!FreshNames harness} : FreshNames (logged harness).
Proof.
  refine {| names_used := λ w, names_used w.1 |}. intros d prompt [w log] w' session. simpl. unfold noting.
  destruct (harness_spawn harness d prompt w) as [w1 r] eqn:Hs. intros [= <- ->]. simpl. by eapply spawn_fresh.
Defined.

Section verbs.
Context {W : Type} {PF : Platform} {FT : FloatText} (harness : Harness W).
Context (clock activity_clock : nat → float) (activity : option ActivityJournal).
Notation emit := (_emit activity_clock activity).
Notation drain := (drain harness activity_clock activity).
Notation pool_spawn := (pool_spawn harness clock activity_clock activity).
Notation PoolController := (PoolController (W:=W)).
Implicit Types p q : PoolController.

(** What a publication leaves alone. *)
Lemma emit_frame sid kind summary data p :
  let q := (emit sid kind summary data p).1 in pc_pool q = pc_pool p ∧ pc_world q = pc_world p ∧ pc_ticks q = pc_ticks p.
Proof.
  unfold _emit. destruct activity as [j|]; [|done]. destruct (validate_ActivityContext _); [|done].
  by destruct (publish _ _ _ _).
Qed.

Definition marked (r : ArchiveResult) (m : PoolMember) : PoolMember := set_drain (pm_drained m || is_gone r) r m.

Lemma drain_ok sid m p q r : pc_pool p !! sid = Some m → drain sid p = (q, Ok r) →
  pc_pool q = <[sid := marked r m]> (pc_pool p) ∧ harness_archive harness sid (pc_world p) = (pc_world q, Ok r).
Proof.
  intros Hm. unfold Pool.drain. prog_gets. rewrite Hm. rewrite prog_bind_eq. unfold on_world at 1.
  destruct (harness_archive harness sid (pc_world p)) as [w' [r'|e]] eqn:Ha; [|done].
  rewrite prog_bind_eq. unfold modify at 1. cbn [pc_pool]. rewrite Hm. rewrite prog_bind_eq.
  match goal with |- context [emit ?a ?b ?c ?d ?s] => pose proof (emit_frame a b c d s) as (Hp & Hw & _); destruct (emit a b c d s) as [s' [u|e]] end;
    [|done].
  intros [= <- <-]. split; [exact Hp|]. cbn in Hw. by rewrite Hw.
Qed.

Lemma spawn_ok s p q m : pool_spawn s p = (q, Ok m) →
  ∃ session w', harness_spawn harness {| sd_repo := ps_repo s; sd_branch := ps_branch s; sd_model := ps_model s;
      sd_quality := ps_quality s; sd_mode := ps_mode s |} (ps_prompt s) (pc_world p) = (w', Ok session) ∧
    m = {| pm_sid := hs_sid session; pm_lane := ps_lane s; pm_repo := ps_repo s; pm_branch := ps_branch s; pm_session := session;
           pm_spawned_at := clock (pc_ticks p); pm_drained := false; pm_drain_result := None |} ∧
    pc_pool q = <[pm_sid m := m]> (pc_pool p) ∧ pc_world q = w' ∧ pc_ticks q = S (pc_ticks p).
Proof.
  unfold Pool.pool_spawn. rewrite prog_bind_eq. unfold on_world at 1.
  destruct (harness_spawn harness _ _ (pc_world p)) as [w' [session|e]] eqn:Hs; [|done]. cbv beta match.
  rewrite prog_bind_eq. unfold read_time at 1. cbn [pc_ticks pc_world pc_pool pc_files pc_activity_ticks]. rewrite prog_bind_eq.
  unfold modify at 1. cbv beta match. rewrite prog_bind_eq.
  match goal with |- context [emit ?a ?b ?c ?d ?st] => pose proof (emit_frame a b c d st) as (Hp & Hw & Ht); destruct (emit a b c d st) as [st' [u|e]] end;
    [|done].
  intros [= <- <-]. exists session, w'. auto.
Qed.

Lemma marked_wf d sid r m : pool_wf d → d !! sid = Some m → pool_wf (<[sid := marked r m]> d).
Proof. intros Hd Hm. apply pool_wf_insert; [done|]. simpl. by apply (proj2 Hd). Qed.

(** Draining some of the tracked panes archives each of them, in order, and calls the
    harness for nothing else; each is marked with the answer, the others are left alone. *)
Definition archives (ms : list PoolMember) (rs : list ArchiveResult) : list harness_call := zip_with (λ m r, Archived (pm_sid m) r) ms rs.
Lemma drain_all_ok ms p q rs : pool_wf (pc_pool p) → NoDup (pm_sid <$> ms) → (∀ m, m ∈ ms → pc_pool p !! pm_sid m = Some m) →
  drain_all harness activity_clock activity ms p = (q, Ok rs) →
  pool_wf (pc_pool q) ∧ keys (pc_pool q) = keys (pc_pool p) ∧
  Forall2 (λ m r, pc_pool q !! pm_sid m = Some (marked r m)) ms rs ∧ performs harness (archives ms rs) (pc_world p) (pc_world q) ∧
  (∀ sid, sid ∉ pm_sid <$> ms → pc_pool q !! sid = pc_pool p !! sid).
Proof.
  revert p rs. induction ms as [|m ms IH]; intros p rs Hp Hn Hms; cbn [drain_all].
  { intros [= <- <-]. split; [done|]. split; [done|]. split; [constructor|]. by split. }
  apply NoDup_cons in Hn as [Hm Hn]. rewrite prog_bind_eq. destruct (drain (pm_sid m) p) as [p1 [r|e]] eqn:Hd; [|done].
  apply (drain_ok _ m) in Hd as [Hd Ha]; [|apply Hms; by left]. rewrite prog_bind_eq.
  destruct (drain_all _ _ _ ms p1) as [p2 [rs'|e]] eqn:Hrest; [|done]. intros [= <- <-].
  assert (pc_pool p !! pm_sid m = Some m) as Hmp by (apply Hms; by left).
  apply IH in Hrest as (Hq & Hk & Hall & Hperf & Hother); [| |done|].
  - split; [done|]. split; [rewrite Hk, Hd; by apply keys_insert_present; eexists|]. split.
    + constructor; [|done]. rewrite Hother, Hd by done. by rewrite dict_lookup_insert_eq.
    + split; [by exists (pc_world p1)|]. intros sid [Hne Hsid]%not_elem_of_cons. rewrite Hother, Hd by done. by rewrite dict_lookup_insert_ne.
  - rewrite Hd. by apply marked_wf.
  - intros m' Hm'. rewrite Hd, dict_lookup_insert_ne; [apply Hms; by right|].
    intros E. destruct Hm. rewrite E. by apply list_elem_of_fmap_2.
Qed.

Definition spawns (s : PaneSpec) (ms : list PoolMember) : list harness_call :=
  (λ m, Spawned {| sd_repo := ps_repo s; sd_branch := ps_branch s; sd_model := ps_model s; sd_quality := ps_quality s;
                   sd_mode := ps_mode s |} (ps_prompt s) (pm_session m)) <$> ms.
Lemma spawn_n_ok `{!FreshNames harness} s n p q : pool_wf (pc_pool p) →
  (∀ sid, sid ∈ keys (pc_pool p) → sid ∈ names_used (pc_world p)) →
  spawn_n harness clock activity_clock activity n s p = (q, Ok tt) →
  ∃ ms, length ms = n ∧ vals (pc_pool q) = vals (pc_pool p) ++ ms ∧ pool_wf (pc_pool q) ∧
    (∀ sid m, pc_pool p !! sid = Some m → pc_pool q !! sid = Some m) ∧
    performs harness (spawns s ms) (pc_world p) (pc_world q) ∧
    Forall (λ m, pm_lane m = ps_lane s ∧ pm_repo m = ps_repo s ∧ pm_branch m = ps_branch s ∧ pm_drained m = false) ms.
Proof.
  revert p. induction n as [|n IH]; intros p Hp Hused; cbn [spawn_n].
  { intros [= <-]. exists []. rewrite app_nil_r. repeat (split; [done|]). constructor. }
  rewrite prog_bind_eq. destruct (pool_spawn s p) as [p1 [m|e]] eqn:Hs; [|done].
  apply spawn_ok in Hs as (session & w' & Hw & -> & Hd & <- & _). cbn [pm_sid] in Hd.
  pose proof Hw as (Hnew & Hsub)%spawn_fresh.
  assert (pc_pool p !! hs_sid session = None) as Hnone.
  { apply eq_None_not_Some. intros Hsome. destruct Hnew. by apply Hused, elem_of_keys. }
  intros Hrest. apply IH in Hrest as (ms & Hl & Hv & Hq & Hkeep & Hperf & Hall).
  - eexists (_ :: ms). split; [cbn; by rewrite Hl|]. split; [rewrite Hv, Hd, vals_insert_fresh by done; by rewrite <- app_assoc|].
    split; [done|]. split; [|split; [by exists (pc_world p1)|by constructor]]. intros sid m Hm. apply Hkeep. rewrite Hd, dict_lookup_insert_ne; [done|].
    intros <-. congruence.
  - rewrite Hd. by apply pool_wf_insert.
  - rewrite Hd, keys_insert_fresh by done. intros sid [Hsid| ->%list_elem_of_singleton]%elem_of_app; apply Hsub; [|set_solver]. apply elem_of_union_r. by apply Hused.
Qed.

(** The panes an archive of which the harness reported done or superfluous. *)
Definition gone_sids (victims : list PoolMember) (answers : list ArchiveResult) : list string :=
  omap (λ vr, if is_gone vr.2 then Some (pm_sid vr.1) else None) (zip victims answers).
Lemma gone_sids_spec victims answers : NoDup (pm_sid <$> victims) → length victims = length answers →
  NoDup (gone_sids victims answers) ∧ (∀ sid, sid ∈ gone_sids victims answers → sid ∈ pm_sid <$> victims) ∧
  (∀ i v r, victims !! i = Some v → answers !! i = Some r → pm_sid v ∈ gone_sids victims answers ↔ is_gone r = true) ∧
  (length (gone_sids victims answers) ≤ length victims)%nat ∧
  (length (gone_sids victims answers) = length victims ↔ Forall (λ r, is_gone r = true) answers).
Proof.
  revert answers. induction victims as [|v vs IH]; intros [|r rs] Hn Hl; try done.
  apply NoDup_cons in Hn as [Hv Hn]. injection Hl as Hl. destruct (IH rs Hn Hl) as (H1 & H2 & H3 & H4 & H5).
  unfold gone_sids in *. cbn [zip zip_with omap list_omap snd fst]. rewrite Forall_cons, <- H5.
  assert (pm_sid v ∉ gone_sids vs rs) as Hv' by (intros ?; by apply Hv, H2). unfold gone_sids in Hv'.
  destruct (is_gone r) eqn:Hr; cbn [length].
  - split; [by constructor|]. split; [intros sid [-> |?]%elem_of_cons; [left|right; by apply H2]|].
    split; [|split; [lia|split; [intros [= ?]; auto|intros [_ ->]; done]]].
    intros [|i] v' r' Hi Hi'; simpl in Hi, Hi'; [simplify_eq; split; [done|left]|].
    rewrite elem_of_cons, <- (H3 i v' r') by done. split; [|by right]. intros [E|?]; [|done]. destruct Hv. rewrite <- E.
    by eapply list_elem_of_fmap_2, list_elem_of_lookup_2.
  - split; [done|]. split; [intros sid ?; right; by apply H2|].
    split; [|split; [lia|split; [lia|by intros [? _]]]].
    intros [|i] v' r' Hi Hi'; simpl in Hi, Hi'; [simplify_eq; by rewrite Hr|by apply H3 with i].
Qed.

Lemma filter_not_in_length (gone xs : list string) : NoDup gone → NoDup xs → (∀ x, x ∈ gone → x ∈ xs) →
  (length (filter (λ x, x ∉ gone) xs) + length gone = length xs)%nat.
Proof.
  intros Hg Hx Hsub. rewrite <- (length_app _ gone). apply Permutation_length. rewrite (Permutation_app_comm _ gone).
  transitivity (filter (λ x, x ∈ gone) xs ++ filter (λ x, x ∉ gone) xs); [|apply filter_app_complement]. f_equiv.
  apply NoDup_Permutation; [done|by apply NoDup_filter|]. intros x. rewrite list_elem_of_filter. naive_solver.
Qed.

(** The table of the controller is well formed, and the harness knows its names. *)
Definition pool_ok `{!FreshNames harness} p : Prop :=
  pool_wf (pc_pool p) ∧ ∀ sid, sid ∈ keys (pc_pool p) → sid ∈ names_used (pc_world p).

Lemma surplus_spec before target : 0 <= target → target < Z.of_nat (length before) →
  Z.of_nat (length (surplus before target)) = Z.of_nat (length before) - target ∧
  ∃ kept, surplus before target ++ kept ≡ₚ before ∧ Forall (λ v, Forall (λ m, pm_spawned_at v <= pm_spawned_at m) kept) (surplus before target).
Proof.
  intros H0 Ht. unfold surplus. pose proof (sort_on_perm pm_spawned_at before) as Hp.
  split; [rewrite length_take, Hp; lia|]. exists (drop (length before - Z.to_nat target) (sort_on pm_spawned_at before)).
  split; [by rewrite take_drop|]. pose proof (sort_on_sorted pm_spawned_at before) as Hs.
  rewrite <- (take_drop (length before - Z.to_nat target)) in Hs. apply StronglySorted_app in Hs as (Hs & _).
  rewrite Forall_forall. intros v Hv. rewrite Forall_forall. intros m Hm. exact (Hs v m Hv Hm).
Qed.

Lemma scale_down_ok s target p q rs : pool_wf (pc_pool p) → 0 <= target → 
  let before := _active_members (ps_lane s) (pc_pool p) in
  let victims := surplus before target in
  target < Z.of_nat (length before) → drain_all harness activity_clock activity victims p = (q, Ok rs) →
  pool_wf (pc_pool q) ∧ keys (pc_pool q) = keys (pc_pool p) ∧
  (∀ sid m, pc_pool p !! sid = Some m → m ∉ victims → pc_pool q !! sid = Some m) ∧
  Forall2 (λ v r, pc_pool q !! pm_sid v = Some (marked r v)) victims rs ∧
  performs harness (archives victims rs) (pc_world p) (pc_world q) ∧
  active_sids (ps_lane s) (pc_pool q) = filter (λ sid, sid ∉ gone_sids victims rs) (active_sids (ps_lane s) (pc_pool p)) ∧
  (Z.of_nat (length (_active_members (ps_lane s) (pc_pool q))) = target ↔ Forall (λ r, is_gone r = true) rs).
Proof.
  intros Hp H0 before victims Ht Hd.
  destruct (surplus_spec before target H0 Ht) as (Hlen & kept & Hperm & _). fold victims in Hlen, Hperm.
  pose proof (active_sids_NoDup (ps_lane s) _ Hp) as Hn. unfold active_sids in Hn. fold before in Hn. rewrite <- Hperm, fmap_app in Hn.
  apply NoDup_app in Hn as (Hn & _ & _).
  assert (∀ m, m ∈ victims → m ∈ before) as Hsub by (intros m Hm; rewrite <- Hperm; apply elem_of_app; by left).
  pose proof Hd as Hd'. apply drain_all_ok in Hd' as (Hq & Hk & Hall & Hperf & Hother);
    [|done|done|intros m Hm; by apply Hsub, active_elem in Hm as [? _]].
  destruct (gone_sids_spec victims rs Hn (Forall2_length _ _ _ Hall)) as (Hgn & Hgs & Hgi & Hgl & Hgf).
  assert (active_sids (ps_lane s) (pc_pool q) = filter (λ sid, sid ∉ gone_sids victims rs) (active_sids (ps_lane s) (pc_pool p))) as Hact.
  { apply active_after; [done|done|done|]. intros sid m Hm. pose proof (proj2 Hp _ _ Hm) as Hs.
    destruct (decide (sid ∈ pm_sid <$> victims)) as [(v & -> & Hv)%list_elem_of_fmap|Hnot].
    - assert (m = v) as -> by (apply Hsub, active_elem in Hv as [? _]; [congruence|done]).
      apply list_elem_of_lookup in Hv as [i Hi]. destruct (Forall2_lookup_l _ _ _ _ _ Hall Hi) as (r & Hr & Hl).
      exists (marked r v). split; [done|]. split; [done|]. intros _. simpl. f_equal. symmetry.
      pose proof (Hgi i v r Hi Hr) as Hg. destruct (is_gone r); [apply bool_decide_eq_true_2|apply bool_decide_eq_false_2]; naive_solver.
    - exists m. split; [by rewrite Hother|]. split; [done|]. intros _. rewrite bool_decide_eq_false_2; [by rewrite orb_false_r|].
      intros ?; by apply Hnot, Hgs. }
  split; [done|]. split; [done|]. split; [|split; [done|split; [done|split; [done|]]]].
  - intros sid m Hm Hv. rewrite Hother; [done|]. intros (v & -> & Hin)%list_elem_of_fmap. destruct Hv.
    assert (m = v) as -> by (apply Hsub, active_elem in Hin as [? _]; [congruence|done]). done.
  - assert (length (active_sids (ps_lane s) (pc_pool q)) + length (gone_sids victims rs) = length before)%nat as Hcount.
    { rewrite Hact. unfold before, active_sids. rewrite <- (length_fmap pm_sid). apply filter_not_in_length; [done|by apply active_sids_NoDup|].
      intros sid (v & -> & Hv)%Hgs%list_elem_of_fmap. by apply list_elem_of_fmap_2, Hsub. }
    unfold active_sids in Hcount. rewrite length_fmap in Hcount. rewrite <- Hgf. lia.
Qed.

Lemma scale_up_ok `{!FreshNames harness} s target p q : pool_ok p →
  let before := _active_members (ps_lane s) (pc_pool p) in Z.of_nat (length before) <= target →
  spawn_n harness clock activity_clock activity (Z.to_nat target - length before) s p = (q, Ok tt) →
  ∃ fresh, _active_members (ps_lane s) (pc_pool q) = before ++ fresh ∧ Z.of_nat (length (before ++ fresh)) = target ∧
    (∀ sid m, pc_pool p !! sid = Some m → pc_pool q !! sid = Some m) ∧
    performs harness (spawns s fresh) (pc_world p) (pc_world q) ∧
    Forall (λ m, pm_lane m = ps_lane s ∧ pm_repo m = ps_repo s ∧ pm_branch m = ps_branch s ∧ pm_drained m = false) fresh.
Proof.
  intros [Hp Hused] before Ht Hd. apply spawn_n_ok in Hd as (ms & Hlen & Hv & Hq & Hkeep & Hperf & Hall); [|done|done].
  exists ms. split; [|split; [rewrite length_app; lia|done]].
  unfold before, _active_members. rewrite Hv, List.filter_app. f_equal. apply filter_id. rewrite Forall_forall in Hall.
  intros m (-> & _ & _ & ->)%Hall. simpl. by rewrite bool_decide_eq_true_2.
Qed.

Lemma scale_reaches `{!FreshNames harness} s target p q active : pool_ok p →
  Z.of_nat (length (_active_members (ps_lane s) (pc_pool p))) < target →
  scale harness clock activity_clock activity s target p = (q, Ok active) →
  Z.of_nat (length (_active_members (ps_lane s) (pc_pool q))) = target.
Proof.
  intros Hp Ht Hs. unfold scale in Hs. revert Hs. prog_raise Hneg. prog_gets.
  destruct (Z.ltb_spec target (Z.of_nat (length (_active_members (ps_lane s) (pc_pool p))))) as [?|_]; [lia|]. rewrite prog_bind_eq.
  destruct (spawn_n _ _ _ _ _ s p) as [q' [[]|e]] eqn:Hd; [|done]. intros [= <- _].
  destruct (scale_up_ok s target p q' Hp ltac:(lia) Hd) as (fresh & -> & Hlen & _). done.
Qed.

(** C34: [scale] converges.  For a controller whose table is well formed and a harness
    that never gives a name twice and knows the names in the table, a call that returns
    answers the active members of the lane it leaves, and changes no member but the
    victims: above the target, the oldest active members of the lane beyond it,
    otherwise none.  Above the target the calls it made of the harness are one archive
    of each victim, in order, and no other; each victim carries the answer, and the lane
    has lost exactly those reported gone, so that it reaches the target exactly when all
    were.  Otherwise the calls are as many spawns as are missing, and no other; the
    members of before stay and the panes that were spawned fill the lane to the target. *)
Theorem scale_converges `{!FreshNames harness} s target p q active : pool_ok p →
  scale harness clock activity_clock activity s target p = (q, Ok active) →
  let lane := ps_lane s in let before := _active_members lane (pc_pool p) in let victims := surplus before target in
  0 <= target ∧ active = _active_members lane (pc_pool q) ∧
  (∀ sid m, pc_pool p !! sid = Some m → m ∉ victims → pc_pool q !! sid = Some m) ∧
  (target < Z.of_nat (length before) ∧
    Z.of_nat (length victims) = Z.of_nat (length before) - target ∧ NoDup (pm_sid <$> victims) ∧
    (∃ kept, victims ++ kept ≡ₚ before ∧ Forall (λ v, Forall (λ m, pm_spawned_at v <= pm_spawned_at m) kept) victims) ∧
    (∃ rs, performs harness (archives victims rs) (pc_world p) (pc_world q) ∧
      Forall2 (λ v r, pc_pool q !! pm_sid v = Some (marked r v)) victims rs ∧
      pm_sid <$> active = filter (λ sid, sid ∉ gone_sids victims rs) (pm_sid <$> before) ∧
      (Z.of_nat (length active) = target ↔ Forall (λ r, is_gone r = true) rs))
   ∨ Z.of_nat (length before) <= target ∧
     ∃ fresh, active = before ++ fresh ∧ Z.of_nat (length active) = target ∧
       performs harness (spawns s fresh) (pc_world p) (pc_world q) ∧
       Forall (λ m, pm_lane m = lane ∧ pm_repo m = ps_repo s ∧ pm_branch m = ps_branch s ∧ pm_drained m = false) fresh).
Proof.
  intros [Hp Hused] Hs lane before victims. unfold scale in Hs. revert Hs. prog_raise Hneg. apply Z.ltb_ge in Hneg.
  prog_gets. fold lane before victims.
  destruct (Z.ltb_spec target (Z.of_nat (length before))) as [Ht|Ht].
  - rewrite (prog_bind_eq (drain_all _ _ _ _ ≫= _)), prog_bind_eq.
    destruct (drain_all harness activity_clock activity victims p) as [q' [rs|e]] eqn:Hd; [|done].
    intros [= <- <-]. destruct (scale_down_ok s target p q' rs Hp Hneg Ht Hd) as (Hq & Hk & Hsame & Hall & Hperf & Hact & Hiff).
    destruct (surplus_spec before target Hneg Ht) as (Hlen & Hord).
    assert (NoDup (pm_sid <$> victims)) as Hn.
    { destruct Hord as (kept & Hperm & _). pose proof (active_sids_NoDup lane _ Hp) as Hn. unfold active_sids in Hn.
      fold before in Hn. rewrite <- Hperm, fmap_app in Hn. by apply NoDup_app in Hn as (Hn & _). }
    split; [done|]. split; [done|]. split; [done|left; eauto 12].
  - rewrite prog_bind_eq. destruct (spawn_n _ _ _ _ _ s p) as [q' [[]|e]] eqn:Hd; [|done]. intros [= <- <-].
    destruct (scale_up_ok s target p q' (conj Hp Hused) Ht Hd) as (fresh & Hact & Hlen & Hkeep & Hperf & Hall).
    split; [done|]. split; [done|]. split; [intros; by apply Hkeep|]. right. split; [done|]. exists fresh.
    split; [done|]. split; [|done]. unfold lane. by rewrite Hact.
Qed.

(** Without a journal, [scale] returns when the harness does. *)
Lemma scale_returns s target p : activity = None → 0 <= target →
  (∀ d prompt w, is_ok (harness_spawn harness d prompt w).2 = true) → (∀ sid w, is_ok (harness_archive harness sid w).2 = true) →
  ∃ q active, scale harness clock activity_clock activity s target p = (q, Ok active).
Proof.
  intros Hact H0 Hs Ha. assert (∀ p sid, ∃ q r, drain sid p = (q, Ok r)) as Hdrain.
  { intros p' sid. unfold Pool.drain. prog_gets. destruct (pc_pool p' !! sid); [|by eexists _, _]. rewrite prog_bind_eq.
    unfold on_world at 1. destruct (run_ok _ _ (Ha sid (pc_world p'))) as (w & r & ->). prog_modify. rewrite prog_bind_eq.
    unfold _emit. rewrite Hact. by eexists _, _. }
  assert (∀ ms p, ∃ q rs, drain_all harness activity_clock activity ms p = (q, Ok rs)) as Hall.
  { induction ms as [|m ms IH]; intros p'; [by eexists _, _|]. cbn [drain_all]. rewrite prog_bind_eq.
    destruct (Hdrain p' (pm_sid m)) as (q & r & ->). rewrite prog_bind_eq. destruct (IH q) as (q' & rs & ->). by eexists _, _. }
  assert (∀ p, ∃ q m, pool_spawn s p = (q, Ok m)) as Hone.
  { intros p'. unfold Pool.pool_spawn. rewrite prog_bind_eq. unfold on_world at 1.
    match goal with |- context [harness_spawn harness ?d ?prompt ?w] =>
      specialize (Hs d prompt w); destruct (harness_spawn harness d prompt w) as [w' [session|e]]; [|done] end.
    rewrite prog_bind_eq. unfold read_time at 1. prog_modify. rewrite prog_bind_eq. unfold _emit. rewrite Hact. by eexists _, _. }
  assert (∀ n p, ∃ q, spawn_n harness clock activity_clock activity n s p = (q, Ok tt)) as Hspawn.
  { induction n as [|n IH]; intros p'; [by exists p'|]. cbn [spawn_n]. rewrite prog_bind_eq. destruct (Hone p') as (q & m & ->). apply IH. }
  unfold scale. rewrite (proj2 (Z.ltb_ge target 0)) by done. cbn [raise_if]. rewrite prog_bind_eq. cbv beta iota delta [mret prog_ret].
  prog_gets. rewrite prog_bind_eq. destruct (target <? Z.of_nat (length (_active_members (ps_lane s) (pc_pool p)))).
  - match goal with |- context [surplus ?b ?t] => destruct (Hall (surplus b t) p) as (q & rs & Hq) end.
    rewrite prog_bind_eq, Hq. by eexists _, _.
  - match goal with |- context [spawn_n _ _ _ _ ?n s] => destruct (Hspawn n p) as (q & Hq) end. rewrite Hq. by eexists _, _.
Qed.

(** Whatever happens, the table stays well formed. *)
Definition keeps_wf p q : Prop := pool_wf (pc_pool p) → pool_wf (pc_pool q).
#[local] Instance keeps_wf_preorder : PreOrder keeps_wf.
Proof. split; unfold keeps_wf; [by intros ? ?|by eauto]. Qed.
Lemma emit_wf sid kind summary data : Evolves keeps_wf (emit sid kind summary data).
Proof. intros p. unfold keeps_wf. destruct (emit_frame sid kind summary data p) as (-> & _). done. Qed.
Lemma on_world_wf {A} (m : prog W A) : Evolves keeps_wf (on_world m).
Proof. intros p. unfold keeps_wf, on_world. by destruct (m (pc_world p)). Qed.
Ltac evolve := first [apply emit_wf | apply on_world_wf | apply evolves_gets; apply _ | apply evolves_ret; apply _ | apply evolves_raise_if; apply _].
Lemma drain_wf sid : Evolves keeps_wf (drain sid).
Proof.
  unfold Pool.drain. apply evolves_bind; [apply _|evolve|]. intros d. destruct (d !! sid); [|evolve].
  apply evolves_bind; [apply _|evolve|]. intros r. apply evolves_bind; [apply _| |intros _; apply evolves_bind; [apply _|evolve|intros; evolve]].
  apply evolves_modify. intros q Hq. destruct (pc_pool q !! sid) as [m|] eqn:Hm; [|done]. simpl. apply pool_wf_insert; [done|]. exact (proj2 Hq _ _ Hm).
Qed.
Lemma pool_spawn_wf s : Evolves keeps_wf (pool_spawn s).
Proof.
  unfold Pool.pool_spawn. apply evolves_bind; [apply _|evolve|]. intros session. apply evolves_bind; [apply _|intros q Hq; exact Hq|]. intros now.
  apply evolves_bind; [apply _| |intros _; apply evolves_bind; [apply _|evolve|intros; evolve]].
  apply evolves_modify. intros q Hq. by apply pool_wf_insert.
Qed.
Lemma scale_wf s target : Evolves keeps_wf (scale harness clock activity_clock activity s target).
Proof.
  assert (∀ ms, Evolves keeps_wf (drain_all harness activity_clock activity ms)) as Hd.
  { induction ms as [|m ms IH]; cbn [drain_all]; [evolve|]. apply evolves_bind; [apply _|apply drain_wf|]. intros r.
    apply evolves_bind; [apply _|done|intros; evolve]. }
  assert (∀ n, Evolves keeps_wf (spawn_n harness clock activity_clock activity n s)) as Hs.
  { induction n as [|n IH]; cbn [spawn_n]; [evolve|]. apply evolves_bind; [apply _|apply pool_spawn_wf|done]. }
  unfold scale. apply evolves_bind; [apply _|evolve|]. intros _. apply evolves_bind; [apply _|evolve|]. intros d.
  apply evolves_bind; [apply _| |intros _; apply evolves_bind; [apply _|evolve|intros; evolve]].
  apply evolves_if; [|done]. apply evolves_bind; [apply _|done|intros; evolve].
Qed.

Lemma scale_answer s target p q active : scale harness clock activity_clock activity s target p = (q, Ok active) →
  active = _active_members (ps_lane s) (pc_pool q).
Proof.
  unfold scale. prog_raise Hneg. prog_gets. rewrite prog_bind_eq.
  match goal with |- context [match ?m with pair _ _ => _ end] => destruct m as [q' [u|e]]; [|done] end. by intros [= <- <-].
Qed.
End verbs.
