(* ===== verification/Autoscale.v ===== *)
(** * Rolling autoscale policy
    ([autoscale_policy.py], [autocode/autoscale.py], [autocode/fleet_dispatch.py])

    Observation, parked proposal and authorised execution over the pool controller.
    What the host has free is read from the world of the harness.  The float division
    [a // b] is the floor of the quotient, as it is for quotients below [2^53]. *)
From S2P Require Import Prelude Orders PyDict PyFloat Canonical Json PyText Models Store JsonLines Control ControlFile Activity ActivityFile Pool.
From stdpp Require Import pretty.
From Stdlib Require Import Ascii.
Local Open Scope Z_scope.

(** ** Concurrency from resources *)
Definition _HARD_CEIL : Z := 12.
Record Resources := { rc_cores : Z; rc_ram_gb : float; rc_disk_gb : float }.
(** [int(a // b)] *)
Definition floor_div (a b : float) : Z := a / b.
Definition _ceiling (aggressive : bool) (r : Resources) : Z :=
  let cpu := if aggressive then rc_cores r else Z.max 1 (rc_cores r - 1) in
  let per := if aggressive then f_of_Z 2 else f_of_Z 3 in
  Z.max 1 (Z.min (Z.min _HARD_CEIL cpu) (Z.min (floor_div (rc_ram_gb r) per) (floor_div (rc_disk_gb r) per))).
Definition recommended (r : Resources) : Z := _ceiling false r.
Definition maximum (r : Resources) : Z := _ceiling true r.

Definition resolve (mode : string) (hard_cap : option Z) (r : Resources) : Z :=
  let m := py_lower (strip mode) in
  let n := if bool_decide (m = "min") then 1
    else if bool_decide (m = "max") then maximum r
    else if bool_decide (m ∈ ["recommended"; "auto"; ""]) then recommended r
    else match int_of_text m with Some k => Z.max 1 (Z.min k (maximum r)) | None => recommended r end in
  let n := match hard_cap with Some cap => if 0 <? cap then Z.min n cap else n | None => n end in
  Z.max 1 n.

(** ** The policy's documents *)
Definition POLICY_SCHEMA : string := "skharness.autoscale-policy.v1".
Record RollingTarget := { rt_target : Z; rt_safe_low : Z; rt_safe_high : Z; rt_mode : string; rt_hard_ceiling : Z; rt_schema : string }.
Definition default_RollingTarget : RollingTarget := {|
  rt_target := 10; rt_safe_low := 8; rt_safe_high := 12; rt_mode := "recommended"; rt_hard_ceiling := 12; rt_schema := POLICY_SCHEMA |}.
Definition validate_RollingTarget (t : RollingTarget) : result RollingTarget :=
  err_if (negb (bool_decide (rt_schema t = POLICY_SCHEMA))) ValueError ("unsupported autoscale policy schema: " +:+ rt_schema t) ;;
  err_if (negb ((0 <=? rt_safe_low t) && (rt_safe_low t <=? rt_target t) && (rt_target t <=? rt_safe_high t))) ValueError
    "safe band must contain the rolling target" ;;
  err_if (negb ((1 <=? rt_hard_ceiling t) && (rt_hard_ceiling t <=? _HARD_CEIL))) ValueError
    ("hard_ceiling must be within autoscale's ceiling of " +:+ pretty _HARD_CEIL) ;;
  mret t.

Record ScaleObservation := {
  so_lane : string; so_current : Z; so_live_headroom : Z; so_effective_target : Z; so_effective_low : Z;
  so_effective_high : Z; so_schema : string; so_authority : string }.
#[export] Instance ScaleObservation_eq_dec : EqDecision ScaleObservation.
Proof. solve_decision. Defined.
Record ScaleProposal := {
  sp_proposal_id : string; sp_lane : string; sp_parent_card : string; sp_target : Z; sp_direction : string;
  sp_reason : string; sp_observation : ScaleObservation; sp_schema : string; sp_state : string; sp_authority : string }.
Record TeardownPreflight := {
  tp_exact_lane : string; tp_exact_current : Z; tp_exact_target : Z; tp_host_healthy : bool; tp_panes_healthy : bool;
  tp_evidence_recorded : bool; tp_parent_card_linked : string; tp_evidence_ref : string }.
Definition validate_teardown (t : TeardownPreflight) (p : ScaleProposal) : result unit :=
  err_if (negb (bool_decide (tp_exact_lane t = sp_lane p)) || negb (tp_exact_current t =? so_current (sp_observation p))
          || negb (tp_exact_target t =? sp_target p)) RuntimeError "teardown preflight does not name the exact observed target" ;;
  err_if (negb (tp_host_healthy t) || negb (tp_panes_healthy t)) RuntimeError "teardown preflight health checks did not pass" ;;
  err_if (negb (tp_evidence_recorded t) || blank (tp_evidence_ref t)) RuntimeError "teardown preflight evidence was not recorded" ;;
  err_if (negb (bool_decide (tp_parent_card_linked t = sp_parent_card p))) RuntimeError
    "teardown preflight is not linked to the parent card" ;;
  mret tt.

Section policy.
Context {W : Type} {PF : Platform} {FT : FloatText} (harness : Harness W).
Context (clock activity_clock : nat → float) (activity : option ActivityJournal).
(** [resources()]: what the host reports. *)
Context (resources : W → Resources).

Record AutoscalePolicy := { ap_rolling : RollingTarget; ap_parent_card : string }.
Definition new_AutoscalePolicy (rolling : RollingTarget) (parent_card : string) : result AutoscalePolicy :=
  err_if (blank parent_card) ValueError "parent_card is required" ;;
  mret {| ap_rolling := rolling; ap_parent_card := parent_card |}.

Definition observe (a : AutoscalePolicy) (lane : string) (p : PoolController) : ScaleObservation :=
  let t := ap_rolling a in
  let current := Z.of_nat (length (List.filter (λ m, negb (pm_drained m)) (pool_members (Some lane) (pc_pool p)))) in
  let headroom := resolve (rt_mode t) (Some (rt_hard_ceiling t)) (resources (pc_world p)) in
  let target := Z.min (rt_target t) headroom in
  {| so_lane := lane; so_current := current; so_live_headroom := headroom; so_effective_target := target;
     so_effective_low := Z.min (rt_safe_low t) target; so_effective_high := Z.min (rt_safe_high t) headroom;
     so_schema := POLICY_SCHEMA; so_authority := "observation" |}.
Definition observation_json (o : ScaleObservation) : json :=
  JObj [("lane", JStr (so_lane o)); ("current", JInt (so_current o)); ("live_headroom", JInt (so_live_headroom o));
    ("effective_target", JInt (so_effective_target o)); ("effective_low", JInt (so_effective_low o));
    ("effective_high", JInt (so_effective_high o)); ("schema", JStr (so_schema o)); ("authority", JStr (so_authority o))].
Definition _proposal_id (payload : json) : string := sorted_digest payload.
Definition evaluate_scale (a : AutoscalePolicy) (lane : string) (p : PoolController) : ScaleObservation * option ScaleProposal :=
  let o := observe a lane p in
  if (so_effective_low o <=? so_current o) && (so_current o <=? so_effective_high o) then (o, None)
  else
    let direction := if so_current o <? so_effective_low o then "up" else "down" in
    let reason := "current=" +:+ pretty (so_current o) +:+ " outside safe band [" +:+ pretty (so_effective_low o) +:+ ","
      +:+ pretty (so_effective_high o) +:+ "]; propose target=" +:+ pretty (so_effective_target o)
      +:+ " from live headroom=" +:+ pretty (so_live_headroom o) in
    let identity := JObj [("schema", JStr POLICY_SCHEMA); ("lane", JStr lane); ("parent_card", JStr (ap_parent_card a));
      ("target", JInt (so_effective_target o)); ("direction", JStr direction); ("observation", observation_json o)] in
    (o, Some {| sp_proposal_id := _proposal_id identity; sp_lane := lane; sp_parent_card := ap_parent_card a;
      sp_target := so_effective_target o; sp_direction := direction; sp_reason := reason; sp_observation := o;
      sp_schema := POLICY_SCHEMA; sp_state := "parked"; sp_authority := "proposal" |}).

(** The identifiers of the members of a lane that are not drained. *)
Definition live_sids (lane : string) (d : dict string PoolMember) : gset string :=
  list_to_set (pm_sid <$> List.filter (λ m, negb (pm_drained m)) (pool_members (Some lane) d)).
Definition archive_reported (m : PoolMember) : bool :=
  match pm_drain_result m with
  | Some r => rs_archived r && match rs_transcript_path r with Some path => negb (is_empty_str path) | None => false end
  | None => false
  end.
(** The preconditions of a scale-down; the recorder runs last. *)
Definition preflight (proposal : ScaleProposal) (teardown : option TeardownPreflight)
    (record_evidence : option (ScaleProposal → TeardownPreflight → prog W unit)) : prog (PoolController (W:=W)) unit :=
  if bool_decide (sp_direction proposal = "down") then
    match teardown with
    | None => raise RuntimeError "scale-down requires teardown preflight"
    | Some t =>
        lift (validate_teardown t proposal) ;;
        match record_evidence with
        | None => raise RuntimeError "scale-down requires an evidence recorder"
        | Some record => on_world (record proposal t)
        end
    end
  else mret tt.
(** The checks on what the scale-down reported. *)
Definition check_teardown (proposal : ScaleProposal) (before : gset string) (active : list PoolMember) :
    prog (PoolController (W:=W)) unit :=
  if bool_decide (sp_direction proposal = "down") then
    d ← gets pc_pool;
    let after_ : gset string := list_to_set (pm_sid <$> active) in
    let drained := List.filter (λ m, bool_decide (pm_sid m ∈ before ∖ after_)) (pool_members (Some (sp_lane proposal)) d) in
    raise_if (negb (Z.of_nat (size after_) =? sp_target proposal)) RuntimeError
      "pool primitive did not reach the exact teardown target" ;;
    raise_if (existsb (λ m, negb (archive_reported m)) drained) RuntimeError
      "pool primitive did not report transcript-first archive"
  else mret tt.
Definition execute (a : AutoscalePolicy) (proposal : ScaleProposal) (authorize : ScaleProposal → prog W bool)
    (repo branch prompt model quality mode : string) (teardown : option TeardownPreflight)
    (record_evidence : option (ScaleProposal → TeardownPreflight → prog W unit)) : prog (PoolController (W:=W)) (list PoolMember) :=
  raise_if (negb (bool_decide (sp_schema proposal = POLICY_SCHEMA)) || negb (bool_decide (sp_state proposal = "parked"))) RuntimeError
    "only a parked current-schema proposal can execute" ;;
  raise_if (negb (bool_decide (sp_parent_card proposal = ap_parent_card a))) RuntimeError
    "proposal parent card does not match this policy" ;;
  allowed ← on_world (authorize proposal);
  raise_if (negb allowed) PermissionError "autoscale proposal is not authorized" ;;
  fresh ← gets (observe a (sp_lane proposal));
  raise_if (negb (bool_decide (fresh = sp_observation proposal))) RuntimeError
    "autoscale observation changed; park and propose again" ;;
  before ← gets (λ p, live_sids (sp_lane proposal) (pc_pool p));
  preflight proposal teardown record_evidence ;;
  active ← scale harness clock activity_clock activity {| ps_lane := sp_lane proposal; ps_repo := repo; ps_branch := branch;
    ps_prompt := prompt; ps_model := model; ps_quality := quality; ps_mode := mode |} (sp_target proposal);
  check_teardown proposal before active ;;
  mret active.
End policy.

(** ** Dispatch to the nodes of the fleet *)
(** [tag[len("node:"):].partition("=")] *)
Fixpoint partition_eq (s : string) : string * string :=
  match s with
  | EmptyString => ("", "")
  | String c s => if (N_of_ascii c =? 61)%N then ("", s) else let '(a, b) := partition_eq s in (String c a, b)
  end.
Definition NODE_TAG_PREFIX : string := "node:".
Definition card_selector (tags : list string) : dict string string :=
  foldl (λ selector tag,
    if negb (startswith tag NODE_TAG_PREFIX) then selector
    else let '(key, value) := partition_eq (String.substring 5 (String.length tag - 5) tag) in
      if is_empty_str key then selector
      else <[key := if is_empty_str value then "true" else value]> selector) ∅ tags.
Record DispatchDecision := { dd_ref : string; dd_node : option string; dd_reason : string }.
(** The placer asks the scheduler of the fleet, which is another package. *)
Fixpoint partition_local {Item Ex} (selected : list (Item * Ex)) (placer : option (Item → DispatchDecision)) (self_node : string) :
    list (Item * Ex) * list (Item * DispatchDecision) :=
  match placer, selected with
  | None, _ => (selected, [])
  | Some _, [] => ([], [])
  | Some place, (item, ex) :: rest =>
      let '(kept, skipped) := partition_local rest placer self_node in
      let decision := place item in
      if bool_decide (dd_node decision = Some self_node) then ((item, ex) :: kept, skipped)
      else (kept, (item, decision) :: skipped)
  end.

(** ** Horizontal placement *)
Record FleetNode := {
  fn_name : string; fn_phase : string; fn_heartbeat_age_s : option float; fn_allocatable_cores : float; fn_allocatable_ram_gb : float }.
Record FleetObservation := {
  fo_package_available : bool; fo_functional : bool; fo_self_node : string; fo_nodes : list FleetNode; fo_blocker : string;
  fo_heartbeat_max_age_s : float }.
(** A node that may take work: Ready, with a recent heartbeat. *)
Definition ready_node (max_age : float) (n : FleetNode) : bool :=
  bool_decide (fn_phase n = "Ready") && match fn_heartbeat_age_s n with Some age => age <=? max_age | None => false end.
