(* ===== verification/AutoscaleFacts.v ===== *)
(** * The autoscale policy: bounds, guards and convergence *)
From S2P Require Import Prelude Orders PyDict PyFloat Canonical Json Models Store JsonLines PyText Control ControlFile Activity ActivityFile Pool PoolFacts Autoscale.
From stdpp Require Import pretty.
Local Open Scope Z_scope.

Lemma ceiling_bounds aggressive r : 1 <= _ceiling aggressive r <= 12.
Proof. unfold _ceiling, _HARD_CEIL. lia. Qed.
Lemma resolve_bounds mode cap r : 1 <= cap → 1 <= resolve mode (Some cap) r <= Z.min cap 12.
Proof.
  intros Hc. pose proof (ceiling_bounds true r) as Hm. pose proof (ceiling_bounds false r) as Hr.
  fold (maximum r) in Hm. fold (recommended r) in Hr. unfold resolve. destruct (Z.ltb_spec 0 cap); [|lia].
  case_bool_decide; [lia|]. case_bool_decide; [lia|]. case_bool_decide; [lia|].
  destruct (int_of_text _) as [k|]; lia.
Qed.

Section policy.
Context {W : Type} {PF : Platform} {FT : FloatText} (harness : Harness W).
Context (clock activity_clock : nat → float) (activity : option ActivityJournal) (resources : W → Resources).
Notation PoolController := (PoolController (W:=W)).
Implicit Types p q : PoolController.
Notation observe := (observe resources).
Notation evaluate_scale := (evaluate_scale resources).

Lemma live_members lane d : List.filter (λ m, negb (pm_drained m)) (pool_members (Some lane) d) = _active_members lane d.
Proof.
  unfold _active_members, pool_members. induction (vals d) as [|m ms IH]; [done|].
  cbn [List.filter]. destruct (bool_decide (pm_lane m = lane)); cbn [List.filter andb]; [|done]. by rewrite IH.
Qed.
Lemma observe_current a lane p : so_current (observe a lane p) = Z.of_nat (length (_active_members lane (pc_pool p))).
Proof. unfold Autoscale.observe. simpl. by rewrite live_members. Qed.
Lemma observe_eq a lane p q : resources (pc_world q) = resources (pc_world p) →
  length (_active_members lane (pc_pool q)) = length (_active_members lane (pc_pool p)) → observe a lane q = observe a lane p.
Proof.
  intros Hr Hl. pose proof (observe_current a lane p) as Hp. pose proof (observe_current a lane q) as Hq.
  unfold Autoscale.observe in *. simpl in *. rewrite Hr. by rewrite Hq, Hl, <- Hp.
Qed.

Lemma validate_RollingTarget_ok t t' : validate_RollingTarget t = Ok t' →
  t' = t ∧ rt_schema t = POLICY_SCHEMA ∧ 0 <= rt_safe_low t <= rt_target t ∧ rt_target t <= rt_safe_high t ∧ 1 <= rt_hard_ceiling t <= 12.
Proof.
  unfold validate_RollingTarget, _HARD_CEIL. rewrite !bind_unit_ok, !err_if_ok, !negb_false_iff, bool_decide_eq_true.
  intros (Hs & Hb & Hc & [= <-]). rewrite !andb_true_iff, !Z.leb_le in Hb, Hc. intuition lia.
Qed.

(** The observation of a valid policy. *)
Lemma observe_bounds a t lane p : validate_RollingTarget t = Ok (ap_rolling a) → let o := observe a lane p in
  1 <= so_live_headroom o <= rt_hard_ceiling t ∧ rt_hard_ceiling t <= 12 ∧
  0 <= so_effective_low o <= so_effective_target o ∧ so_effective_target o <= so_effective_high o <= so_live_headroom o.
Proof.
  intros (<- & _ & Hl & Hh & Hc)%validate_RollingTarget_ok. unfold Autoscale.observe. cbn.
  pose proof (resolve_bounds (rt_mode (ap_rolling a)) (rt_hard_ceiling (ap_rolling a)) (resources (pc_world p)) (proj1 Hc)). lia.
Qed.

(** Observation and proposal of a valid policy.  The headroom is between one and
    the ceiling; the effective band lies within it, around the effective target.  There
    is a proposal exactly when the active members of the lane are outside that band; it
    is parked, moves the lane towards the target, and once the lane has the target's
    number of active members, with the same resources, nothing is proposed. *)
Lemma evaluate_cases a t lane p : validate_RollingTarget t = Ok (ap_rolling a) →
  let '(o, proposal) := evaluate_scale a lane p in
  let current := Z.of_nat (length (_active_members lane (pc_pool p))) in
  o = observe a lane p ∧ so_current o = current ∧
  1 <= so_live_headroom o <= 12 ∧ 0 <= so_effective_low o <= so_effective_target o ∧
  so_effective_target o <= so_effective_high o <= so_live_headroom o ∧
  (proposal = None ↔ so_effective_low o <= current <= so_effective_high o) ∧
  ∀ pr, proposal = Some pr →
    sp_state pr = "parked" ∧ sp_observation pr = o ∧ sp_lane pr = lane ∧ sp_parent_card pr = ap_parent_card a ∧
    sp_target pr = so_effective_target o ∧
    (sp_direction pr = "up" ∧ current < sp_target pr ∨ sp_direction pr = "down" ∧ sp_target pr < current) ∧
    ∀ q, resources (pc_world q) = resources (pc_world p) → Z.of_nat (length (_active_members lane (pc_pool q))) = sp_target pr →
      (evaluate_scale a lane q).2 = None.
Proof.
  intros Ht. pose proof (observe_bounds a t lane p Ht) as Hb. pose proof (observe_current a lane p) as Hc.
  assert (∀ q, Z.of_nat (length (_active_members lane (pc_pool q))) = so_effective_target (observe a lane q) →
    (evaluate_scale a lane q).2 = None) as Hsettled.
  { intros q Hq. pose proof (observe_bounds a t lane q Ht) as Hb'. pose proof (observe_current a lane q) as Hc'.
    cbv zeta in Hb'. unfold Autoscale.evaluate_scale. rewrite (proj2 (andb_true_iff _ _)); [done|]. rewrite !Z.leb_le. lia. }
  assert (∀ q, resources (pc_world q) = resources (pc_world p) →
    so_effective_target (observe a lane q) = so_effective_target (observe a lane p)) as Htarget.
  { intros q Hr. unfold Autoscale.observe. cbn. by rewrite Hr. }
  unfold Autoscale.evaluate_scale at 1. cbv zeta in Hb |- *. rewrite <- Hc. remember (observe a lane p) as o eqn:Ho. clear Ho.
  destruct ((so_effective_low o <=? so_current o) && (so_current o <=? so_effective_high o)) eqn:Hband.
  - rewrite andb_true_iff, !Z.leb_le in Hband. do 5 (split; [done || lia|]). split; [done|]. by intros pr [=].
  - apply andb_false_iff in Hband. rewrite !Z.leb_gt in Hband. do 5 (split; [done || lia|]). split; [split; [done|lia]|].
    intros pr [= <-]. cbn [sp_state sp_observation sp_lane sp_parent_card sp_target sp_direction]. do 5 (split; [reflexivity|]). split.
    + destruct (Z.ltb_spec (so_current o) (so_effective_low o)); [left|right]; (split; [done|lia]).
    + intros q Hr Hq. apply Hsettled. by rewrite Hq, Htarget.
Qed.

(** The controller with another world. *)
Definition with_world (w : W) p : PoolController := {|
  pc_world := w; pc_pool := pc_pool p; pc_ticks := pc_ticks p; pc_files := pc_files p; pc_activity_ticks := pc_activity_ticks p |}.
(** What a scale-down must show before the pool is touched. *)
Definition vouched (pr : ScaleProposal) (t : TeardownPreflight) : Prop :=
  tp_exact_lane t = sp_lane pr ∧ tp_exact_current t = so_current (sp_observation pr) ∧ tp_exact_target t = sp_target pr ∧
  tp_host_healthy t = true ∧ tp_panes_healthy t = true ∧ tp_evidence_recorded t = true ∧ blank (tp_evidence_ref t) = false ∧
  tp_parent_card_linked t = sp_parent_card pr.
Lemma validate_teardown_ok t pr : validate_teardown t pr = Ok tt ↔ vouched pr t.
Proof.
  unfold validate_teardown, vouched.
  rewrite !bind_unit_ok, !err_if_ok, !orb_false_iff, !negb_false_iff, !bool_decide_eq_true, !Z.eqb_eq. naive_solver.
Qed.

Definition specification (pr : ScaleProposal) (repo branch prompt model quality mode : string) : PaneSpec := {|
  ps_lane := sp_lane pr; ps_repo := repo; ps_branch := branch; ps_prompt := prompt; ps_model := model; ps_quality := quality; ps_mode := mode |}.
Notation scale := (scale harness clock activity_clock activity).
Notation execute := (execute harness clock activity_clock activity resources).

Lemma preflight_frame pr teardown record p q r : preflight pr teardown record p = (q, r) →
  pc_pool q = pc_pool p ∧ (r = Ok tt →
    if bool_decide (sp_direction pr = "down") then
      ∃ t f, teardown = Some t ∧ record = Some f ∧ vouched pr t ∧ f pr t (pc_world p) = (pc_world q, Ok tt) ∧ q = with_world (pc_world q) p
    else q = p).
Proof.
  unfold preflight. case_bool_decide; [|by intros [= <- <-]].
  destruct teardown as [t|]; [|by intros [= <- <-]]. rewrite prog_bind_eq. unfold lift.
  destruct (validate_teardown t pr) as [[]|e] eqn:Hv; [|by intros [= <- <-]]. apply validate_teardown_ok in Hv. cbv beta match.
  destruct record as [f|]; [|by intros [= <- <-]]. unfold on_world. destruct (f pr t (pc_world p)) as [w r'] eqn:Hf.
  intros [= <- <-]. split; [done|]. intros ->. exists t, f. auto.
Qed.

Lemma check_teardown_frame pr before active p : (check_teardown pr before active p).1 = p.
Proof.
  unfold check_teardown. case_bool_decide; [|done]. prog_gets. rewrite prog_bind_eq. unfold raise_if at 1.
  destruct (negb _); [done|]. cbn. by destruct (existsb _ _).
Qed.
Lemma check_teardown_ok pr before active p : check_teardown pr before active p = (p, Ok tt) → sp_direction pr = "down" →
  Z.of_nat (size (list_to_set (pm_sid <$> active) : gset string)) = sp_target pr ∧
  ∀ m, m ∈ vals (pc_pool p) → pm_lane m = sp_lane pr → pm_sid m ∈ before → pm_sid m ∉ pm_sid <$> active → archive_reported m = true.
Proof.
  intros Hc Hd. revert Hc. unfold check_teardown. rewrite bool_decide_eq_true_2 by done. prog_gets. prog_raise Hs.
  apply negb_false_iff, Z.eqb_eq in Hs. unfold raise_if. destruct (existsb _ _) eqn:He; [done|]. intros _. split; [done|].
  intros m Hm Hl Hb Ha. destruct (archive_reported m) eqn:Hr; [done|]. rewrite <- not_true_iff_false in He. destruct He.
  apply existsb_exists. exists m. rewrite Hr, <- list_elem_of_In, elem_of_filter_bool. split; [|done]. split.
  - apply bool_decide_eq_true_2. rewrite elem_of_difference, elem_of_list_to_set. done.
  - unfold pool_members. apply elem_of_filter_bool. by rewrite bool_decide_eq_true_2.
Qed.

(** The checks that precede a change of the pool, passed: they leave the world of the
    harness as [w2]. *)
Definition cleared a pr (authorize : ScaleProposal → prog W bool) teardown record p (w2 : W) : Prop :=
  sp_schema pr = POLICY_SCHEMA ∧ sp_state pr = "parked" ∧ sp_parent_card pr = ap_parent_card a ∧
  ∃ w1, authorize pr (pc_world p) = (w1, Ok true) ∧ observe a (sp_lane pr) (with_world w1 p) = sp_observation pr ∧
    if bool_decide (sp_direction pr = "down") then
      ∃ t (f : ScaleProposal → TeardownPreflight → prog W unit), teardown = Some t ∧ record = Some f ∧ vouched pr t ∧ f pr t w1 = (w2, Ok tt)
    else w2 = w1.

Lemma execute_cases a pr authorize repo branch prompt model quality mode teardown record p q r : pool_wf (pc_pool p) →
  execute a pr authorize repo branch prompt model quality mode teardown record p = (q, r) →
  (pc_pool q = pc_pool p ∧ is_ok r = false) ∨
  ∃ w2 rs, cleared a pr authorize teardown record p w2 ∧
    scale (specification pr repo branch prompt model quality mode) (sp_target pr) (with_world w2 p) = (q, rs) ∧
    ∀ active, r = Ok active → rs = Ok active ∧ active = _active_members (sp_lane pr) (pc_pool q) ∧ (sp_direction pr = "down" →
      Z.of_nat (length active) = sp_target pr ∧
      ∀ sid m, pc_pool q !! sid = Some m → pm_lane m = sp_lane pr → sid ∈ active_sids (sp_lane pr) (pc_pool p) →
        sid ∉ pm_sid <$> active → archive_reported m = true).
Proof.
  intros Hp. unfold Autoscale.execute. prog_raise Hstate; [intros [= <- <-]; by left|].
  apply orb_false_iff in Hstate as [Hschema%negb_false_iff%bool_decide_eq_true Hstate%negb_false_iff%bool_decide_eq_true].
  prog_raise Hcard; [intros [= <- <-]; by left|]. apply negb_false_iff, bool_decide_eq_true in Hcard.
  rewrite prog_bind_eq. unfold on_world at 1. destruct (authorize pr (pc_world p)) as [w1 [allowed|e]] eqn:Ha; [|intros [= <- <-]; by left].
  prog_raise Hallowed; [intros [= <- <-]; by left|]. apply negb_false_iff in Hallowed as ->. fold (with_world w1 p). prog_gets.
  prog_raise Hfresh; [intros [= <- <-]; by left|]. apply negb_false_iff, bool_decide_eq_true in Hfresh. prog_gets.
  rewrite prog_bind_eq. destruct (preflight pr teardown record (with_world w1 p)) as [p2 [[]|e]] eqn:Hpre;
    apply preflight_frame in Hpre as [Hsame Hpre]; [specialize (Hpre eq_refl)|intros [= <- <-]; by left].
  rewrite prog_bind_eq. fold (specification pr repo branch prompt model quality mode).
  assert (p2 = with_world (pc_world p2) p) as Hp2.
  { destruct (bool_decide _); [by destruct Hpre as (t & f & _ & _ & _ & _ & ->)|by rewrite Hpre]. }
  destruct (scale _ (sp_target pr) p2) as [p3 rs] eqn:Hs.
  intros Hrest. right. exists (pc_world p2), rs.
  assert (q = p3) as ->.
  { destruct rs as [active|e]; [|congruence]. rewrite prog_bind_eq in Hrest.
    pose proof (check_teardown_frame pr (live_sids (sp_lane pr) (pc_pool (with_world w1 p))) active p3) as Hf.
    destruct (check_teardown _ _ active p3) as [p4 [[]|e]]; simpl in Hf; unfold mret, prog_ret in Hrest; congruence. }
  split.
  { do 3 (split; [done|]). exists w1. do 2 (split; [done|]).
    destruct (bool_decide _); [destruct Hpre as (t & f & ? & ? & ? & ? & _); by exists t, f|by rewrite Hpre]. }
  split; [by rewrite <- Hp2|]. intros active ->. destruct rs as [active'|e]; [|done]. rewrite prog_bind_eq in Hrest.
  pose proof (check_teardown_frame pr (live_sids (sp_lane pr) (pc_pool (with_world w1 p))) active' p3) as Hf.
  destruct (check_teardown _ _ active' p3) as [p4 [[]|e]] eqn:Hc; [|done]. simpl in Hf. injection Hrest as _ ->. subst p4.
  split; [done|]. split; [exact (scale_answer harness clock activity_clock activity _ _ _ _ _ Hs)|].
  intros Hdown. destruct (check_teardown_ok _ _ _ _ Hc Hdown) as [Hsize Harch].
  pose proof (scale_wf harness clock activity_clock activity (specification pr repo branch prompt model quality mode) (sp_target pr) p2) as Hwf.
  unfold keeps_wf in Hwf. rewrite Hs in Hwf. specialize (Hwf ltac:(by rewrite Hsame)). simpl in Hwf. apply scale_answer in Hs as ->.
  split.
  - rewrite <- Hsize. rewrite size_list_to_set by (by apply active_sids_NoDup). by rewrite length_fmap.
  - intros sid m Hm Hl Hbefore Hafter. pose proof (proj2 Hwf _ _ Hm) as <-. apply Harch; [by apply elem_of_pool|done| |done].
    unfold live_sids. rewrite live_members. by apply elem_of_list_to_set.
Qed.

(** C35: Execution is guarded.  Whatever the outcome, either nothing in the pool was
    touched and the call raised, or the proposal was a parked one of the current schema
    for the parent card of the policy, the caller's check authorized it, the pool and
    the host still looked as observed, and a scale-down named the exact observed target,
    vouched for the host and the panes and had its evidence recorded; then the pool was
    scaled to the target.  A scale-down that returns has reached the exact target, and
    every pane that is no longer active was archived with a transcript. *)
Theorem execute_guarded a pr authorize repo branch prompt model quality mode teardown record p q r : pool_wf (pc_pool p) →
  execute a pr authorize repo branch prompt model quality mode teardown record p = (q, r) →
  (pc_pool q = pc_pool p ∧ is_ok r = false) ∨
  (∃ w2 rs, cleared a pr authorize teardown record p w2 ∧
    scale (specification pr repo branch prompt model quality mode) (sp_target pr) (with_world w2 p) = (q, rs) ∧
    (is_ok r = true → r = rs)) ∧
  (sp_direction pr = "down" → ∀ active, r = Ok active →
    Z.of_nat (length active) = sp_target pr ∧
    ∀ sid m, pc_pool q !! sid = Some m → pm_lane m = sp_lane pr → sid ∈ active_sids (sp_lane pr) (pc_pool p) →
      sid ∉ pm_sid <$> active → archive_reported m = true).
Proof.
  intros Hp [?|(w2 & rs & Hc & Hs & Hr)]%execute_cases; [by left| |done]. right. split.
  - exists w2, rs. do 2 (split; [done|]). destruct r as [active|]; [|done]. by destruct (Hr active eq_refl) as [-> _].
  - intros Hdown active ->. destruct (Hr active eq_refl) as (_ & _ & H). by apply H.
Qed.

(** The loop settles.  When a proposal of a valid policy is executed as it was
    made, and the call returns, the lane has exactly the proposed number of active
    panes, within the safe band and the ceiling, and with the same resources of the
    host the policy proposes nothing more. *)
Theorem execution_settles `{!FreshNames harness} a t lane p o pr authorize repo branch prompt model quality mode teardown record q active :
  validate_RollingTarget t = Ok (ap_rolling a) → pool_ok harness p → (∀ w, names_used w ⊆ names_used (authorize pr w).1) →
  evaluate_scale a lane p = (o, Some pr) →
  execute a pr authorize repo branch prompt model quality mode teardown record p = (q, Ok active) →
  resources (pc_world q) = resources (pc_world p) →
  active = _active_members lane (pc_pool q) ∧ Z.of_nat (length active) = sp_target pr ∧
  so_effective_low o <= Z.of_nat (length active) <= so_effective_high o ∧ Z.of_nat (length active) <= 12 ∧
  evaluate_scale a lane q = (observe a lane q, None).
Proof.
  intros Ht [Hp Hused] Hauth He Hx Hres. pose proof (evaluate_cases a t lane p Ht) as H. rewrite He in H.
  destruct H as (Ho & Hcur & Hhead & Hlow & Hhigh & _ & H). destruct (H pr eq_refl) as (_ & _ & Hlane & _ & Htarget & Hdir & Hsettled).
  apply execute_cases in Hx as [[_ [=]]|(w2 & rs & Hc & Hs & Hr)]; [|done]. destruct (Hr active eq_refl) as (-> & Hact & Hdown).
  assert (Z.of_nat (length active) = sp_target pr) as Hlen.
  { destruct Hdir as [[Hup Hlt]|[Hd _]]; [|by apply Hdown]. unfold cleared in Hc. rewrite Hup in Hc.
    destruct Hc as (_ & _ & _ & w1 & Ha & _ & ->). rewrite Hact. clear Hr Hdown H Hsettled.
    apply (scale_reaches harness clock activity_clock activity (specification pr repo branch prompt model quality mode) (sp_target pr)
      (with_world w1 p) q active).
    - split; [exact Hp|]. intros sid Hsid. specialize (Hauth (pc_world p)). rewrite Ha in Hauth. simpl in Hauth. specialize (Hused sid Hsid). set_solver.
    - cbn [with_world pc_pool specification ps_lane]. rewrite Hlane. lia.
    - exact Hs. }
  rewrite Hlane in Hact. split; [done|]. split; [done|]. split; [lia|]. split; [lia|].
  rewrite Hact in Hlen. specialize (Hsettled q Hres Hlen). revert Hsettled. clear.
  unfold Autoscale.evaluate_scale. destruct (_ && _); [done|]. intros [=].
Qed.
End policy.
