(* ===== verification/Catalog.v ===== *)
(** * The research catalog ([arena/collaboration.py])

    Classes ExperimentCatalog, PositiveEvidence, NegativeKnowledge and its index: views
    over immutable experiments and results, and the experiments derived from them. *)
From S2P Require Import Prelude Orders PyDict PyFloat Canonical Models Store.
From Stdlib Require Import Ascii.

(** ** [==] of JSON values

    Numbers compare by value whatever their type, objects without their order. *)
Definition number_units (j : json) : option Z :=
  match j with
  | JBool b => Some (f_of_Z (if b then 1 else 0))
  | JInt n => Some (f_of_Z n)
  | JFloat f => Some f
  | _ => None
  end.
Fixpoint json_same (fuel : nat) (a b : json) : bool :=
  match fuel with
  | O => false
  | S fuel =>
      match a, b with
      | JNull, JNull => true
      | JStr s, JStr t => bool_decide (s = t)
      | JArr xs, JArr ys => (length xs =? length ys) && forallb (λ xy, json_same fuel xy.1 xy.2) (zip xs ys)
      | JObj ms, JObj ns =>
          (length ms =? length ns) &&
          forallb (λ m, match (Dict ns : dict string json) !! m.1 with Some n => json_same fuel m.2 n | None => false end) ms
      | _, _ => match number_units a, number_units b with Some x, Some y => (x =? y)%Z | _, _ => false end
      end
  end.
Fixpoint json_depth (j : json) : nat :=
  match j with
  | JArr xs => S (list_max (map json_depth xs))
  | JObj ms => S (list_max (map (λ m, json_depth m.2) ms))
  | _ => 1
  end.
Definition json_eqb (a b : json) : bool := json_same (json_depth a) a b.

Section catalog.
Context {PF : Platform}.

Record ExperimentMatch := { em_experiment : Experiment; em_result : option Result }.
Record ExperimentCatalog := { _experiments : dict string Experiment; _results : dict string Result }.

Fixpoint add_experiments (experiments : list Experiment) (d : dict string Experiment) : result (dict string Experiment) :=
  match experiments with
  | [] => Ok d
  | e :: rest =>
      err_if (match d !! ex_id e with
              | Some previous => negb (bool_decide (Experiment_content_hash previous = Experiment_content_hash e)) | None => false end)
        CollaborationError ("conflicting experiment identity: " +:+ ex_id e) ;;
      add_experiments rest (<[ex_id e := e]> d)
  end.
Fixpoint add_results (experiments : dict string Experiment) (results : list Result) (d : dict string Result) : result (dict string Result) :=
  match results with
  | [] => Ok d
  | r :: rest =>
      err_if (match d !! re_experiment_id r with
              | Some previous => negb (bool_decide (Result_content_hash previous = Result_content_hash r)) | None => false end)
        CollaborationError ("conflicting result identity: " +:+ re_experiment_id r) ;;
      match experiments !! re_experiment_id r with
      | None => Err (Exn CollaborationError "result is not bound to the catalog experiment")
      | Some e =>
          err_if (negb (bool_decide (Experiment_content_hash e = re_experiment_hash r))) CollaborationError
            "result is not bound to the catalog experiment" ;;
          err_if (negb (bool_decide (ex_challenge_hash e = re_challenge_hash r))) CollaborationError
            "result challenge does not match experiment" ;;
          add_results experiments rest (<[re_experiment_id r := r]> d)
      end
  end.
Definition new_ExperimentCatalog (experiments : list Experiment) (results : list Result) : result ExperimentCatalog :=
  es ← add_experiments experiments ∅;
  rs ← add_results es results ∅;
  mret {| _experiments := es; _results := rs |}.

(** [wanted is not None and value != wanted] *)
Definition differs {A} `{EqDecision A} (wanted : option A) (value : A) : bool :=
  match wanted with Some w => negb (bool_decide (value = w)) | None => false end.
Definition discover (c : ExperimentCatalog) (challenge_hash actor harness : option string) (verification : option VerificationState.t) :
    list ExperimentMatch :=
  sort_by (ex_id ∘ em_experiment) (omap (λ e,
    let r := _results c !! ex_id e in
    if differs challenge_hash (ex_challenge_hash e) || differs actor (ex_actor e) || differs harness (ex_harness e)
       || match verification with
          | Some v => match r with Some r => negb (bool_decide (re_verification r = v)) | None => true end
          | None => false end
    then None else Some {| em_experiment := e; em_result := r |}) (vals (_experiments c))).

(** ** Positive evidence *)
Record PositiveEvidence := {
  pe_evidence_id : string; pe_experiment_id : string; pe_experiment_hash : string; pe_result_hash : string;
  pe_challenge_hash : string; pe_actor : string; pe_parent_id : option string; pe_reproduces_id : option string }.
Definition positive_from_result (e : Experiment) (r : Result) : result PositiveEvidence :=
  err_if (negb (bool_decide (re_verification r = VerificationState.VALID))) CollaborationError
    "positive evidence requires a verified-valid result" ;;
  err_if (negb (bool_decide (re_experiment_id r = ex_id e)) || negb (bool_decide (re_experiment_hash r = Experiment_content_hash e)))
    CollaborationError "positive result is not bound to the experiment" ;;
  err_if (negb (bool_decide (re_challenge_hash r = ex_challenge_hash e))) CollaborationError
    "positive result challenge does not match experiment" ;;
  mret {| pe_evidence_id := Result_content_hash r; pe_experiment_id := ex_id e; pe_experiment_hash := Experiment_content_hash e;
    pe_result_hash := Result_content_hash r; pe_challenge_hash := ex_challenge_hash e; pe_actor := ex_actor e;
    pe_parent_id := ex_parent_id e; pe_reproduces_id := ex_reproduces_id e |}.
Definition positive_evidence (c : ExperimentCatalog) : result (list PositiveEvidence) :=
  map_result (λ kr, match _experiments c !! kr.1 with
      | Some e => positive_from_result e kr.2 | None => Err (Exn KeyError kr.1) end)
    (List.filter (λ kr, bool_decide (re_verification kr.2 = VerificationState.VALID)) (sort_by fst (items (_results c)))).

(** ** Derived experiments *)
Definition _source (c : ExperimentCatalog) (source_id new_id : string) : result Experiment :=
  err_if (has_key new_id (_experiments c)) CollaborationError ("experiment id already exists: " +:+ new_id) ;;
  match _experiments c !! source_id with
  | Some e => Ok e
  | None => Err (Exn CollaborationError ("unknown source experiment: " +:+ source_id))
  end.
(** What every derived experiment replaces of its source. *)
Definition derived (source : Experiment) (experiment_id actor run_id : string) (attempt : Z) (parent reproduces : option string)
    (dimensions : list string) (configuration : list (string * json)) (created_at : datetime) : Experiment := {|
  ex_id := experiment_id; ex_attempt := attempt; ex_parent_id := parent; ex_reproduces_id := reproduces;
  ex_changed_dimensions := dimensions; ex_challenge_hash := ex_challenge_hash source; ex_actor := actor;
  ex_harness := ex_harness source; ex_card_id := ex_card_id source; ex_run_id := run_id;
  ex_repository_url := ex_repository_url source; ex_repository_base_sha := ex_repository_base_sha source;
  ex_repository_result_sha := None; ex_image_digest := ex_image_digest source; ex_sbom_digest := ex_sbom_digest source;
  ex_requested_route := ex_requested_route source; ex_requested_model := ex_requested_model source; ex_served_model := None;
  ex_gateway_request_id := None; ex_gateway_backend_id := None; ex_configuration := configuration; ex_seeds := ex_seeds source;
  ex_hardware_telemetry := []; ex_budgets := ex_budgets source; ex_created_at := created_at; ex_artifacts := [] |}.
Definition reproduce_experiment (c : ExperimentCatalog) (source_id experiment_id actor run_id : string) (created_at : datetime) (attempt : Z) :
    result Experiment :=
  source ← _source c source_id experiment_id;
  validate_Experiment (derived source experiment_id actor run_id attempt None (Some (ex_id source)) [] (ex_configuration source) created_at).
Definition mutate_experiment (c : ExperimentCatalog) (parent_id experiment_id actor run_id : string) (changed_dimensions : list string)
    (configuration : list (string * json)) (created_at : datetime) (attempt : Z) : result Experiment :=
  parent ← _source c parent_id experiment_id;
  let dimensions := sorted_str (remove_dups changed_dimensions) in
  err_if (bool_decide (dimensions = []) || existsb blank dimensions) CollaborationError "mutation requires named changed dimensions" ;;
  err_if (json_eqb (JObj configuration) (JObj (ex_configuration parent))) CollaborationError
    "mutation configuration must differ from its parent" ;;
  validate_Experiment (derived parent experiment_id actor run_id attempt (Some (ex_id parent)) None dimensions configuration created_at).
Definition reproduce_evidence (c : ExperimentCatalog) (immutable_evidence_id experiment_id actor run_id : string) (created_at : datetime)
    (attempt : Z) : result Experiment :=
  records ← positive_evidence c;
  match List.filter (λ p, bool_decide (pe_evidence_id p = immutable_evidence_id)) records with
  | [p] => reproduce_experiment c (pe_experiment_id p) experiment_id actor run_id created_at attempt
  | _ => Err (Exn CollaborationError "unknown or non-valid immutable evidence ID")
  end.

(** ** Negative knowledge *)
Inductive NegativeKind := NEG_INVALID | NEG_INCONCLUSIVE | NEG_FAILED.
#[export] Instance NegativeKind_eq_dec : EqDecision NegativeKind.
Proof. solve_decision. Defined.
Definition NegativeKind_value (k : NegativeKind) : string :=
  match k with NEG_INVALID => "invalid" | NEG_INCONCLUSIVE => "inconclusive" | NEG_FAILED => "failed" end.
Record NegativeKnowledge := {
  nk_evidence_id : string; nk_experiment_id : string; nk_challenge_hash : string; nk_kind : NegativeKind;
  nk_reason_codes : list string; nk_summary : string; nk_changed_dimensions : list string; nk_artifact_digests : list string;
  nk_created_at : datetime }.
Definition dump_NegativeKnowledge (xn : bool) (k : NegativeKnowledge) : json :=
  JObj (field "schema_version" (JStr "arena.negative.v1") ++ field "evidence_id" (JStr (nk_evidence_id k)) ++
    field "experiment_id" (JStr (nk_experiment_id k)) ++ field "challenge_hash" (JStr (nk_challenge_hash k)) ++
    field "kind" (JStr (NegativeKind_value (nk_kind k))) ++ field "reason_codes" (jstrs (nk_reason_codes k)) ++
    field "summary" (JStr (nk_summary k)) ++ field "changed_dimensions" (jstrs (nk_changed_dimensions k)) ++
    field "artifact_digests" (jstrs (nk_artifact_digests k)) ++ field "created_at" (jtime (nk_created_at k))).
Definition Negative_content_hash (k : NegativeKnowledge) : string := canonical_digest (dump_NegativeKnowledge true k).
Definition validate_NegativeKnowledge (k : NegativeKnowledge) : result NegativeKnowledge :=
  err_if (blank (nk_evidence_id k) || blank (nk_experiment_id k)) ValidationError "negative evidence identity is required" ;;
  err_if (bool_decide (nk_reason_codes k = []) || existsb blank (nk_reason_codes k)) ValidationError
    "negative evidence requires reason codes" ;;
  err_if (blank (nk_summary k)) ValidationError "negative evidence requires a summary" ;;
  mret k.
Definition negative_kind (v : VerificationState.t) : option NegativeKind :=
  match v with VerificationState.INVALID => Some NEG_INVALID | VerificationState.INCONCLUSIVE => Some NEG_INCONCLUSIVE | _ => None end.
Definition negative_from_result (e : Experiment) (r : Result) (summary : string) (created_at : option datetime) : result NegativeKnowledge :=
  err_if (negb (bool_decide (re_experiment_id r = ex_id e)) || negb (bool_decide (re_experiment_hash r = Experiment_content_hash e)))
    CollaborationError "negative result is not bound to the experiment" ;;
  err_if (negb (bool_decide (re_challenge_hash r = ex_challenge_hash e))) CollaborationError
    "negative result challenge does not match experiment" ;;
  match negative_kind (re_verification r) with
  | None => Err (Exn CollaborationError "only invalid or inconclusive results are negative evidence")
  | Some kind =>
      let reason := match re_verification_reason r with Some s => if is_empty_str s then "verifier_unspecified" else s | None => "verifier_unspecified" end in
      validate_NegativeKnowledge {| nk_evidence_id := Result_content_hash r; nk_experiment_id := ex_id e; nk_challenge_hash := ex_challenge_hash e;
        nk_kind := kind; nk_reason_codes := [reason]; nk_summary := summary; nk_changed_dimensions := ex_changed_dimensions e;
        nk_artifact_digests := sorted_str (remove_dups (ar_digest <$> ex_artifacts e ++ re_artifacts r));
        nk_created_at := default (re_created_at r) created_at |}
  end.

Fixpoint index_records (records : list NegativeKnowledge) (d : dict string NegativeKnowledge) : result (dict string NegativeKnowledge) :=
  match records with
  | [] => Ok d
  | k :: rest =>
      err_if (match d !! nk_evidence_id k with
              | Some previous => negb (bool_decide (Negative_content_hash previous = Negative_content_hash k)) | None => false end)
        CollaborationError ("conflicting evidence id: " +:+ nk_evidence_id k) ;;
      index_records rest (<[nk_evidence_id k := k]> d)
  end.
Definition new_NegativeKnowledgeIndex (records : list NegativeKnowledge) : result (dict string NegativeKnowledge) := index_records records ∅.
(** [re.findall(r"[a-z0-9_.:-]+", text)] *)
Definition term_char (c : ascii) : bool :=
  let n := N_of_ascii c in ((97 <=? n) && (n <=? 122) || (48 <=? n) && (n <=? 58) || (n =? 95) || (n =? 46) || (n =? 45))%N.
Fixpoint terms_from (cur : string) (s : string) : list string :=
  match s with
  | EmptyString => if is_empty_str cur then [] else [String.rev cur]
  | String c s =>
      if term_char c then terms_from (String c cur) s
      else if is_empty_str cur then terms_from "" s else String.rev cur :: terms_from "" s
  end.
Definition terms_of (query : string) : list string := terms_from "" (py_lower query).
Definition haystack (k : NegativeKnowledge) : string :=
  py_lower (str_join " " (nk_summary k :: nk_reason_codes k ++ nk_changed_dimensions k)).
Definition found (query : string) (challenge_hash : option string) (kind : option NegativeKind) (changed_dimension : option string)
    (k : NegativeKnowledge) : bool :=
  negb (differs challenge_hash (nk_challenge_hash k)) && negb (differs kind (nk_kind k))
  && match changed_dimension with Some d => bool_decide (d ∈ nk_changed_dimensions k) | None => true end
  && forallb (λ t, str_contains t (haystack k)) (terms_of query).
Definition found_key (k : NegativeKnowledge) : triple := (dt_us (nk_created_at k), nk_evidence_id k, 0%Z).
Definition search (records : dict string NegativeKnowledge) (query : string) (challenge_hash : option string) (kind : option NegativeKind)
    (changed_dimension : option string) : result (list NegativeKnowledge) :=
  let hits := List.filter (found query challenge_hash kind changed_dimension) (vals records) in
  err_if (existsb (λ k, is_aware (nk_created_at k)) hits && existsb (λ k, negb (is_aware (nk_created_at k))) hits)
    TypeError "can't compare offset-naive and offset-aware datetimes" ;;
  mret (lex_sort found_key hits).
Definition evidence_ids (records : dict string NegativeKnowledge) : gset string := list_to_set (keys records).
End catalog.

Definition evidence_id {PF : Platform} (payload : string) : string := "sha256:" +:+ sha256_hex payload.
