(* ===== verification/CatalogFacts.v ===== *)
(** * The research catalog is consistent, and derived experiments fit into it *)
From S2P Require Import Prelude Orders PyDict PyFloat Canonical Models Store Catalog.
From Stdlib Require Import Ascii.

Section facts.
Context {PF : Platform}.
Implicit Types (es : list Experiment) (rs : list Result) (c : ExperimentCatalog).

Definition keyed {A} (key : A → string) (d : dict string A) : Prop := dict_wf d ∧ ∀ k x, d !! k = Some x → key x = k.
Lemma keyed_insert {A} (key : A → string) d x : keyed key d → keyed key (<[key x := x]> d).
Proof.
  intros [Hd Hk]. split; [by apply dict_wf_insert|]. intros k y. rewrite dict_lookup_insert. case_decide; [naive_solver|by apply Hk].
Qed.

Lemma add_experiments_ok es d d' : keyed ex_id d → add_experiments es d = Ok d' →
  keyed ex_id d' ∧
  (∀ e, e ∈ es → ∃ e', d' !! ex_id e = Some e' ∧ Experiment_content_hash e' = Experiment_content_hash e) ∧
  (∀ k e, d !! k = Some e → ∃ e', d' !! k = Some e' ∧ Experiment_content_hash e' = Experiment_content_hash e) ∧
  (∀ k e', d' !! k = Some e' → e' ∈ es ∨ d !! k = Some e').
Proof.
  revert d. induction es as [|e es IH]; intros d Hd; cbn [add_experiments].
  { intros [= <-]. split; [done|]. split; [by intros e ?%elem_of_nil|]. split; [by eauto|by right]. }
  rewrite bind_unit_ok, err_if_ok. intros [Hc Hrest]. apply IH in Hrest as (Hk & Hin & Hold & Hback); [|by apply keyed_insert].
  split; [done|]. split; [|split].
  - intros e' [-> |?]%elem_of_cons; [|by apply Hin]. apply Hold. by rewrite dict_lookup_insert_eq.
  - intros k e0 Hl. destruct (decide (ex_id e = k)) as [<-|Hne]; [|apply Hold; by rewrite dict_lookup_insert_ne].
    rewrite Hl in Hc. apply negb_false_iff, bool_decide_eq_true in Hc. destruct (Hold (ex_id e) e) as (e' & ? & ?); [by rewrite dict_lookup_insert_eq|].
    exists e'. split; [done|congruence].
  - intros k e' Hl. destruct (Hback k e' Hl) as [?|Hl']; [left; by right|]. rewrite dict_lookup_insert in Hl'.
    case_decide; [left; simplify_eq; left|by right].
Qed.

(** The result belongs to this experiment of the catalog. *)
Definition bound (d : dict string Experiment) (r : Result) : Prop :=
  ∃ e, d !! re_experiment_id r = Some e ∧ Experiment_content_hash e = re_experiment_hash r ∧ ex_challenge_hash e = re_challenge_hash r.
Lemma add_results_ok ds rs d d' : keyed re_experiment_id d → (∀ k r, d !! k = Some r → bound ds r) → add_results ds rs d = Ok d' →
  keyed re_experiment_id d' ∧ (∀ k r, d' !! k = Some r → bound ds r) ∧
  (∀ r, r ∈ rs → ∃ r', d' !! re_experiment_id r = Some r' ∧ Result_content_hash r' = Result_content_hash r) ∧
  (∀ k r, d !! k = Some r → ∃ r', d' !! k = Some r' ∧ Result_content_hash r' = Result_content_hash r).
Proof.
  revert d. induction rs as [|r rs IH]; intros d Hd Hb; cbn [add_results].
  { intros [= <-]. split; [done|]. split; [done|]. split; [by intros r ?%elem_of_nil|by eauto]. }
  rewrite bind_unit_ok, err_if_ok. intros [Hc Hrest]. destruct (ds !! re_experiment_id r) as [e|] eqn:He; [|done].
  rewrite !bind_unit_ok, !err_if_ok, !negb_false_iff, !bool_decide_eq_true in Hrest. destruct Hrest as (Hh & Hch & Hrest).
  apply IH in Hrest as (Hk & Hbound & Hin & Hold); [|by apply keyed_insert|].
  - split; [done|]. split; [done|]. split.
    + intros r' [-> |?]%elem_of_cons; [|by apply Hin]. apply Hold. by rewrite dict_lookup_insert_eq.
    + intros k r0 Hl. destruct (decide (re_experiment_id r = k)) as [<-|Hne]; [|apply Hold; by rewrite dict_lookup_insert_ne].
      rewrite Hl in Hc. apply negb_false_iff, bool_decide_eq_true in Hc.
      destruct (Hold (re_experiment_id r) r) as (r' & ? & ?); [by rewrite dict_lookup_insert_eq|]. exists r'. split; [done|congruence].
  - intros k r'. rewrite dict_lookup_insert. case_decide; [|by apply Hb]. intros [= <-]. by exists e.
Qed.
Lemma add_results_mono ds ds' rs d d' : (∀ k e, ds !! k = Some e → ds' !! k = Some e) → add_results ds rs d = Ok d' → add_results ds' rs d = Ok d'.
Proof.
  intros Hs. revert d. induction rs as [|r rs IH]; intros d; cbn [add_results]; [done|]. rewrite !bind_unit_ok. intros [Hc Hrest]. split; [done|].
  destruct (ds !! re_experiment_id r) as [e|] eqn:He; [|done]. rewrite (Hs _ _ He). rewrite !bind_unit_ok in *. naive_solver.
Qed.
Lemma add_experiments_app es es' d : add_experiments (es ++ es') d = (add_experiments es d ≫= λ d', add_experiments es' d').
Proof.
  revert d. induction es as [|e es IH]; intros d; [done|]. cbn [app add_experiments]. destruct (err_if _ _ _) as [[]|]; [|done]. apply IH.
Qed.

Lemma catalog_ok es rs c : new_ExperimentCatalog es rs = Ok c →
  keyed ex_id (_experiments c) ∧ keyed re_experiment_id (_results c) ∧ (∀ k r, _results c !! k = Some r → bound (_experiments c) r) ∧
  add_experiments es ∅ = Ok (_experiments c) ∧ add_results (_experiments c) rs ∅ = Ok (_results c).
Proof.
  unfold new_ExperimentCatalog. destruct (add_experiments es ∅) as [d|] eqn:He; [|done]. cbn [mbind result_bind].
  destruct (add_results d rs ∅) as [dr|] eqn:Hr; [|done]. intros [= <-]. cbn [_experiments _results].
  assert (∀ A (key : A → string), keyed key ∅) as Hempty by (intros A key; split; [apply dict_wf_empty|done]).
  destruct (add_experiments_ok es ∅ d (Hempty _ _) He) as (Hk & _).
  destruct (add_results_ok d rs ∅ dr (Hempty _ _) ltac:(done) Hr) as (Hkr & Hb & _). done.
Qed.
Lemma positive_ok e r : re_verification r = VerificationState.VALID → re_experiment_id r = ex_id e → Experiment_content_hash e = re_experiment_hash r →
  ex_challenge_hash e = re_challenge_hash r → ∃ p, positive_from_result e r = Ok p ∧ pe_evidence_id p = Result_content_hash r ∧
    pe_experiment_id p = ex_id e ∧ pe_experiment_hash p = Experiment_content_hash e ∧ pe_actor p = ex_actor e.
Proof.
  intros Hv Hi Hh Hc. unfold positive_from_result. rewrite Hv, Hi, <- Hh, <- Hc, !bool_decide_eq_true_2 by done. by eexists.
Qed.

Lemma sorted_by_keys {A} (key : A → string) xs : StronglySorted (key_le key) xs → StronglySorted String.le (key <$> xs).
Proof.
  induction 1 as [|x xs _ IH Hx]; [constructor|]. cbn [fmap list_fmap]. constructor; [done|]. by apply Forall_fmap.
Qed.
Lemma NoDup_fmap_filter {A B} (key : A → B) (p : A → bool) xs : NoDup (key <$> xs) → NoDup (key <$> List.filter p xs).
Proof.
  induction xs as [|x xs IH]; [done|]. cbn [fmap list_fmap List.filter]. intros [Hx Hn]%NoDup_cons. destruct (p x); [|by apply IH].
  cbn [fmap list_fmap]. constructor; [|by apply IH]. intros (y & E & [_ Hy]%elem_of_filter_bool)%list_elem_of_fmap.
  destruct Hx. rewrite E. by apply list_elem_of_fmap_2.
Qed.
(** A catalog that can be constructed is consistent.  Every experiment it was given
    is found under its identifier with the same content, every result it holds names an
    experiment of the catalog by identifier, content hash and challenge, and the
    positive evidence is always available: one record per valid result and no other,
    naming that result and crediting the actor of its experiment, in the order of the
    experiment identifiers. *)
Theorem catalog_consistent es rs c : new_ExperimentCatalog es rs = Ok c →
  (∀ e, e ∈ es → ∃ e', _experiments c !! ex_id e = Some e' ∧ Experiment_content_hash e' = Experiment_content_hash e) ∧
  (∀ k r, _results c !! k = Some r → re_experiment_id r = k ∧ bound (_experiments c) r) ∧
  ∃ ps, positive_evidence c = Ok ps ∧ StronglySorted String.le (pe_experiment_id <$> ps) ∧ NoDup (pe_experiment_id <$> ps) ∧
    ∀ p, p ∈ ps ↔ ∃ r e, _results c !! ex_id e = Some r ∧ _experiments c !! ex_id e = Some e ∧
      re_verification r = VerificationState.VALID ∧ positive_from_result e r = Ok p.
Proof.
  intros Hnew. destruct (catalog_ok es rs c Hnew) as ([Hd Hk] & [Hdr Hkr] & Hb & He & Hr).
  split; [by eapply add_experiments_ok in He as (_ & H & _); [exact H|split; [apply dict_wf_empty|done]]|].
  split; [intros k r Hl; split; [by apply Hkr|by eapply Hb]|].
  set (valid := λ kr : string * Result, bool_decide (re_verification kr.2 = VerificationState.VALID)).
  set (rows := List.filter valid (sort_by fst (items (_results c)))).
  assert (∀ kr, kr ∈ rows ↔ _results c !! kr.1 = Some kr.2 ∧ re_verification kr.2 = VerificationState.VALID) as Hrows.
  { intros [k r]. unfold rows, valid. rewrite elem_of_filter_bool, elem_of_sort_by, elem_of_items by done. rewrite bool_decide_eq_true. simpl. tauto. }
  assert (∀ kr, kr ∈ rows → ∃ e p, _experiments c !! kr.1 = Some e ∧ ex_id e = kr.1 ∧ positive_from_result e kr.2 = Ok p ∧ pe_experiment_id p = kr.1) as Hrow.
  { intros [k r] [Hl Hv]%Hrows. simpl in *. destruct (Hb k r Hl) as (e & He' & Hh & Hch). rewrite (Hkr _ _ Hl) in He'. pose proof (Hk _ _ He') as Hid.
    destruct (positive_ok e r Hv) as (p & Hp & _ & Hpid & _); [by rewrite (Hkr _ _ Hl)|done|done|]. exists e, p. rewrite Hpid. done. }
  unfold positive_evidence. fold valid. fold rows.
  match goal with |- context [map_result ?f rows] => destruct (map_result f rows) as [ps|err] eqn:Hps end.
  2:{ apply map_result_err in Hps as (kr & Hin & Herr). destruct (Hrow kr Hin) as (e & p & He' & _ & Hp & _). rewrite He' in Herr. congruence. }
  exists ps. split; [done|]. pose proof (λ p, map_result_elem _ _ _ p Hps) as Helem.
  assert (pe_experiment_id <$> ps = fst <$> rows) as Hids.
  { apply map_result_ok in Hps. clear -Hps Hrow. induction Hps as [|kr p rows' ps Hp _ IH]; [done|]. rewrite !fmap_cons. f_equal.
    - destruct (Hrow kr (list_elem_of_here _ _)) as (e & p' & He & _ & Hp' & Hid). rewrite He in Hp. congruence.
    - apply IH. intros x Hx. apply Hrow. by right. }
  rewrite Hids. split; [|split].
  - apply sorted_by_keys. apply StronglySorted_filter, sort_by_sorted.
  - apply NoDup_fmap_filter. rewrite sort_by_perm. exact Hdr.
  - intros p. rewrite Helem. split.
    + intros ([k r] & Hin & Hf). destruct (Hrow _ Hin) as (e & p' & He' & Hid & Hp & _). simpl in *. rewrite He' in Hf. apply Hrows in Hin as [Hl Hv].
      simpl in *. subst k. exists r, e. done.
    + intros (r & e & Hl & He' & Hv & Hp). exists (ex_id e, r). split; [by apply Hrows|]. simpl. by rewrite He'.
Qed.

Lemma source_ok c source_id new_id e : _source c source_id new_id = Ok e ↔ _experiments c !! new_id = None ∧ _experiments c !! source_id = Some e.
Proof.
  unfold _source. rewrite bind_unit_ok, err_if_ok, has_key_false. destruct (_experiments c !! source_id); naive_solver.
Qed.
Lemma validate_Experiment_same e e' : validate_Experiment e = Ok e' → e' = e.
Proof.
  unfold validate_Experiment, validate_lineage. rewrite bind_unit_ok. intros [_ H]. destruct (validate_BudgetSpec _); [|done].
  cbn [mbind result_bind] in H. rewrite !bind_unit_ok in H. destruct H as (_ & _ & _ & [= <-]). done.
Qed.
(** An experiment with a new identifier can join. *)
Lemma joins es rs c e : new_ExperimentCatalog es rs = Ok c → _experiments c !! ex_id e = None →
  ∃ c', new_ExperimentCatalog (es ++ [e]) rs = Ok c' ∧ _experiments c' = <[ex_id e := e]> (_experiments c) ∧ _results c' = _results c.
Proof.
  intros Hnew Hfresh. destruct (catalog_ok es rs c Hnew) as (_ & _ & _ & He & Hr). unfold new_ExperimentCatalog.
  rewrite add_experiments_app, He. cbn [mbind result_bind add_experiments]. rewrite Hfresh. cbn.
  assert (add_results (<[ex_id e := e]> (_experiments c)) rs ∅ = Ok (_results c)) as Hr'.
  { apply (add_results_mono (_experiments c)); [|done]. intros k e0 Hl. rewrite dict_lookup_insert_ne; [done|]. intros <-. congruence. }
  setoid_rewrite Hr'. cbn. by eexists.
Qed.

(** Derived experiments fit the catalog.  A reproduction or a mutation succeeds only
    for a known source and an identifier the catalog does not have; it is a valid
    experiment of the same challenge, repository, image, route, model, seeds and
    budgets, without any observed field of the source; a reproduction keeps the
    configuration and names its source, a mutation names its parent and the changed
    dimensions, sorted, none of them blank, and its configuration differs.  The catalog
    with it can be constructed and still holds the same results. *)
Theorem derived_fits es rs c source_id id actor run_id at_ attempt dimensions configuration e : new_ExperimentCatalog es rs = Ok c →
  (reproduce_experiment c source_id id actor run_id at_ attempt = Ok e ∨
   mutate_experiment c source_id id actor run_id dimensions configuration at_ attempt = Ok e) →
  ∃ source, _experiments c !! source_id = Some source ∧ ex_id source = source_id ∧ _experiments c !! id = None ∧ id ≠ source_id ∧
    ex_id e = id ∧ ex_challenge_hash e = ex_challenge_hash source ∧ ex_seeds e = ex_seeds source ∧ ex_budgets e = ex_budgets source ∧
    ex_artifacts e = [] ∧ ex_served_model e = None ∧ ex_repository_result_sha e = None ∧ ex_actor e = actor ∧
    ((ex_reproduces_id e = Some source_id ∧ ex_parent_id e = None ∧ ex_configuration e = ex_configuration source) ∨
     (ex_parent_id e = Some source_id ∧ ex_reproduces_id e = None ∧ ex_changed_dimensions e ≠ [] ∧ existsb blank (ex_changed_dimensions e) = false ∧
      (∀ x, x ∈ ex_changed_dimensions e ↔ x ∈ dimensions) ∧ json_eqb (JObj (ex_configuration e)) (JObj (ex_configuration source)) = false)) ∧
    validate_Experiment e = Ok e ∧
    ∃ c', new_ExperimentCatalog (es ++ [e]) rs = Ok c' ∧ _experiments c' !! id = Some e ∧ _results c' = _results c.
Proof.
  intros Hnew Hderive. destruct (catalog_ok es rs c Hnew) as ([_ Hk] & _).
  assert (∃ source, _source c source_id id = Ok source) as [source Hsource].
  { unfold reproduce_experiment, mutate_experiment in Hderive. destruct (_source c source_id id) as [s|]; [by exists s|by destruct Hderive]. }
  pose proof Hsource as [Hfresh Hl]%source_ok. exists source. pose proof (Hk _ _ Hl) as Hid.
  assert (ex_id e = id ∧ validate_Experiment e = Ok e → ∃ c', new_ExperimentCatalog (es ++ [e]) rs = Ok c' ∧ _experiments c' !! id = Some e ∧ _results c' = _results c) as Hjoin.
  { intros [Heid _]. destruct (joins es rs c e Hnew) as (c' & Hc' & He' & Hr'); [by rewrite Heid|]. exists c'. split; [done|].
    rewrite He', Heid, dict_lookup_insert_eq. done. }
  split; [done|]. split; [done|]. split; [done|]. split; [intros E; congruence|].
  destruct Hderive as [H|H]; unfold reproduce_experiment, mutate_experiment in H; rewrite Hsource in H; cbn [mbind result_bind] in H.
  - pose proof (validate_Experiment_same _ _ H) as ->. do 8 (split; [done|]). split; [left; by rewrite <- Hid|]. split; [done|]. by apply Hjoin.
  - rewrite !bind_unit_ok, !err_if_ok, orb_false_iff, bool_decide_eq_false in H. destruct H as ([Hne Hblank] & Hdiff & H).
    pose proof (validate_Experiment_same _ _ H) as ->. do 8 (split; [done|]). split; [right|split; [done|by apply Hjoin]].
    cbn [derived ex_parent_id ex_reproduces_id ex_changed_dimensions ex_configuration]. rewrite Hid. do 4 (split; [done|]). split; [|done].
    intros x. rewrite elem_of_sorted_str. apply elem_of_remove_dups.
Qed.
End facts.
