(* ===== verification/Refinement.v ===== *)
(** * The refinement journal ([arena/collaboration.py], class RefinementJournal)

    Two JSON-lines files: the proposals, and the events that authorize them.  The
    program appends and never recovers; a process killed inside an append leaves a
    prefix of its line.  Whether evidence exists is the caller's program on a world
    [W]; the class the controller gives a piece of evidence is a function of its
    identifier.  The lock of the journal makes [propose] and [_transition] one step
    each; the checks that precede a transition run before the lock is taken. *)
From S2P Require Import Prelude PyDict PyFloat Canonical Models Store JsonLines LeaseScheduler.
From Stdlib Require Import Ascii.

(** pydantic's one-line JSON of a model: it parses back, a proper prefix of it does
    not parse, nor does a line that runs into the beginning of another. *)
Class LineCodec {A : Type} (validate : A → result A) := {
  line_text : A → string;
  parse_line : string → option A;
  line_one_line a : one_line (line_text a);
  line_nonempty a : line_text a ≠ "";
  parse_line_text a : validate a = Ok a → parse_line (line_text a) = Some a;
  parse_line_cut a k : k < String.length (line_text a) → parse_line (String.substring 0 k (line_text a)) = None;
  parse_line_joined a b k : 0 < k → parse_line (line_text a +:+ String.substring 0 k (line_text b)) = None;
  parse_line_valid s a : parse_line s = Some a → validate a = Ok a;
}.

Inductive RefinementScope := SCOPE_EXPERIMENT | SCOPE_PROJECT | SCOPE_GLOBAL.
Definition RefinementScope_value (s : RefinementScope) : string :=
  match s with SCOPE_EXPERIMENT => "experiment" | SCOPE_PROJECT => "project" | SCOPE_GLOBAL => "global" end.
Inductive RefinementTargetKind := MEMORY | SKILL | PROMPT | EXECUTABLE_EXTENSION.
Definition RefinementTargetKind_value (k : RefinementTargetKind) : string :=
  match k with MEMORY => "memory" | SKILL => "skill" | PROMPT => "prompt" | EXECUTABLE_EXTENSION => "executable_extension" end.
Inductive RefinementEvidenceKind := RAW_REWARD | VERIFIED_RESULT | CANARY_RESULT | OPERATOR_APPROVAL | SECURITY_REVIEW.
Inductive RefinementState :=
  | R_PROPOSED | CANARY_AUTHORIZED | CANARY_PASSED | CANARY_FAILED | APPROVED | REJECTED | PROMOTION_AUTHORIZED | PROMOTED
  | ROLLBACK_AUTHORIZED | ROLLED_BACK.
Definition RefinementState_value (s : RefinementState) : string :=
  match s with
  | R_PROPOSED => "proposed" | CANARY_AUTHORIZED => "canary_authorized" | CANARY_PASSED => "canary_passed"
  | CANARY_FAILED => "canary_failed" | APPROVED => "approved" | REJECTED => "rejected"
  | PROMOTION_AUTHORIZED => "promotion_authorized" | PROMOTED => "promoted" | ROLLBACK_AUTHORIZED => "rollback_authorized"
  | ROLLED_BACK => "rolled_back"
  end.
#[export] Instance RefinementScope_eq_dec : EqDecision RefinementScope.
Proof. solve_decision. Defined.
#[export] Instance RefinementTargetKind_eq_dec : EqDecision RefinementTargetKind.
Proof. solve_decision. Defined.
#[export] Instance RefinementEvidenceKind_eq_dec : EqDecision RefinementEvidenceKind.
Proof. solve_decision. Defined.
#[export] Instance RefinementState_eq_dec : EqDecision RefinementState.
Proof. solve_decision. Defined.

Record RefinementProposal := {
  rp_id : string; rp_scope : RefinementScope; rp_target : string; rp_target_kind : RefinementTargetKind;
  rp_proposed_content : string; rp_evidence_ids : list string; rp_proposer : string; rp_created_at : datetime }.
#[export] Instance RefinementProposal_eq_dec : EqDecision RefinementProposal.
Proof. solve_decision. Defined.
Definition validate_RefinementProposal (p : RefinementProposal) : result RefinementProposal :=
  err_if (blank (rp_id p) || blank (rp_target p) || blank (rp_proposed_content p)) ValidationError
    "proposal identity, target and content are required" ;;
  err_if (bool_decide (rp_evidence_ids p = []) || existsb blank (rp_evidence_ids p)) ValidationError
    "refinement proposals require evidence" ;;
  mret p.

Record RefinementEvent := {
  rv_event_id : string; rv_sequence : Z; rv_proposal_id : string; rv_proposal_hash : string;
  rv_from_state : option RefinementState; rv_to_state : RefinementState; rv_timestamp : datetime; rv_provenance : Provenance;
  rv_evidence_ids : list string; rv_receipt : option string; rv_prior_event_hash : option string; rv_event_hash : option string }.
#[export] Instance RefinementEvent_eq_dec : EqDecision RefinementEvent.
Proof. solve_decision. Defined.
Definition validate_RefinementEvent (e : RefinementEvent) : result RefinementEvent :=
  require (1 <=? rv_sequence e)%Z "sequence" ;; mret e.
Definition with_refinement_hash (h : option string) (e : RefinementEvent) : RefinementEvent := {|
  rv_event_id := rv_event_id e; rv_sequence := rv_sequence e; rv_proposal_id := rv_proposal_id e;
  rv_proposal_hash := rv_proposal_hash e; rv_from_state := rv_from_state e; rv_to_state := rv_to_state e;
  rv_timestamp := rv_timestamp e; rv_provenance := rv_provenance e; rv_evidence_ids := rv_evidence_ids e;
  rv_receipt := rv_receipt e; rv_prior_event_hash := rv_prior_event_hash e; rv_event_hash := h |}.

Section documents.
Context {PF : Platform}.
Definition dump_RefinementProposal (xn : bool) (p : RefinementProposal) : json :=
  JObj (field "schema_version" (JStr "arena.refinement-proposal.v1") ++ field "id" (JStr (rp_id p)) ++
    field "scope" (JStr (RefinementScope_value (rp_scope p))) ++ field "target" (JStr (rp_target p)) ++
    field "target_kind" (JStr (RefinementTargetKind_value (rp_target_kind p))) ++
    field "proposed_content" (JStr (rp_proposed_content p)) ++ field "evidence_ids" (jstrs (rp_evidence_ids p)) ++
    field "proposer" (JStr (rp_proposer p)) ++ field "created_at" (jtime (rp_created_at p))).
Definition proposal_digest (p : RefinementProposal) : string := canonical_digest (dump_RefinementProposal true p).
(** [model_dump(mode="json", exclude={"event_hash"})] keeps the [None]s. *)
Definition dump_refinement_body (e : RefinementEvent) : json :=
  JObj (field "schema_version" (JStr "arena.refinement-event.v1") ++ field "event_id" (JStr (rv_event_id e)) ++
    field "sequence" (JInt (rv_sequence e)) ++ field "proposal_id" (JStr (rv_proposal_id e)) ++
    field "proposal_hash" (JStr (rv_proposal_hash e)) ++
    field_opt false "from_state" (JStr ∘ RefinementState_value) (rv_from_state e) ++
    field "to_state" (JStr (RefinementState_value (rv_to_state e))) ++ field "timestamp" (jtime (rv_timestamp e)) ++
    field "provenance" (dump_Provenance false (rv_provenance e)) ++ field "evidence_ids" (jstrs (rv_evidence_ids e)) ++
    field_opt false "receipt" JStr (rv_receipt e) ++ field_opt false "prior_event_hash" JStr (rv_prior_event_hash e)).
Definition refinement_hash (e : RefinementEvent) : string := canonical_digest (dump_refinement_body e).
Definition refinement_sealed (e : RefinementEvent) : result RefinementEvent :=
  err_if (match rv_event_hash e with Some h => negb (bool_decide (h = refinement_hash e)) | None => false end) CollaborationError
    "refinement event hash does not match content" ;;
  mret (with_refinement_hash (Some (refinement_hash e)) e).
End documents.

(** [_REFINEMENT_TRANSITIONS.get(current, set())] *)
Definition _REFINEMENT_TRANSITIONS (current : option RefinementState) : list RefinementState :=
  match current with
  | None => [R_PROPOSED]
  | Some R_PROPOSED => [CANARY_AUTHORIZED; REJECTED]
  | Some CANARY_AUTHORIZED => [CANARY_PASSED; CANARY_FAILED]
  | Some CANARY_PASSED => [APPROVED; REJECTED]
  | Some APPROVED => [PROMOTION_AUTHORIZED]
  | Some PROMOTION_AUTHORIZED => [PROMOTED]
  | Some PROMOTED => [ROLLBACK_AUTHORIZED]
  | Some ROLLBACK_AUTHORIZED => [ROLLED_BACK]
  | Some _ => []
  end.
Definition external_states : list RefinementState := [CANARY_PASSED; CANARY_FAILED; PROMOTED; ROLLED_BACK].

Section journal.
Context {W : Type} {PF : Platform} {PC : LineCodec validate_RefinementProposal} {RC : LineCodec validate_RefinementEvent} {EN : Entropy}.
Context (approvers : gset string) (_evidence_exists : string → prog W bool)
  (_evidence_kind : option (string → result RefinementEvidenceKind)) (clock : nat → datetime).

Record RefinementJournal := {
  rj_world : W; rj_proposals : option string; rj_events : option string; rj_ticks : nat }.
Definition put_proposals (f : option string) (j : RefinementJournal) : RefinementJournal :=
  {| rj_world := rj_world j; rj_proposals := f; rj_events := rj_events j; rj_ticks := rj_ticks j |}.
Definition put_events (f : option string) (j : RefinementJournal) : RefinementJournal :=
  {| rj_world := rj_world j; rj_proposals := rj_proposals j; rj_events := f; rj_ticks := rj_ticks j |}.
Definition on_evidence {A} (m : prog W A) : prog RefinementJournal A := λ j,
  let '(w, r) := m (rj_world j) in
  ({| rj_world := w; rj_proposals := rj_proposals j; rj_events := rj_events j; rj_ticks := rj_ticks j |}, r).
(** A fresh event identifier and the time. *)
Definition stamp : prog RefinementJournal (string * datetime) := λ j,
  ({| rj_world := rj_world j; rj_proposals := rj_proposals j; rj_events := rj_events j; rj_ticks := S (rj_ticks j) |},
   Ok (uuid4_hex (rj_ticks j), clock (rj_ticks j))).

(** ** Reading *)
Fixpoint read_proposals (lines : list string) (records : dict string RefinementProposal) : result (dict string RefinementProposal) :=
  match lines with
  | [] => Ok records
  | line :: lines =>
      match parse_line line with
      | None => Err (Exn CollaborationError "invalid refinement proposal")
      | Some proposal =>
          err_if (has_key (rp_id proposal) records) CollaborationError ("duplicate refinement proposal: " +:+ rp_id proposal) ;;
          read_proposals lines (<[rp_id proposal := proposal]> records)
      end
  end.
(** The loop of [events] over the lines: how many were read, and the hash of the last. *)
Fixpoint read_events (lines : list string) (n : Z) (prior : option string) : result (list RefinementEvent) :=
  match lines with
  | [] => Ok []
  | line :: lines =>
      match parse_line line with
      | None => Err (Exn CollaborationError "invalid refinement event")
      | Some event =>
          err_if (negb (rv_sequence event =? n + 1)%Z || negb (bool_decide (rv_prior_event_hash event = prior))) CollaborationError
            "refinement event sequence/hash chain is corrupt" ;;
          err_if (negb (bool_decide (rv_event_hash event = Some (refinement_hash event)))) CollaborationError
            "refinement event seal is invalid" ;;
          events ← read_events lines (n + 1) (rv_event_hash event);
          Ok (event :: events)
      end
  end.
Definition events (j : RefinementJournal) : result (list RefinementEvent) :=
  match rj_events j with None => Ok [] | Some raw => read_events (lines_of raw) 0 None end.
(** The hashes of the proposals that have a first event. *)
Definition proposed_hashes (evs : list RefinementEvent) : dict string string :=
  foldl (λ d e, if bool_decide (rv_from_state e = None) && bool_decide (rv_to_state e = R_PROPOSED)
                then <[rv_proposal_id e := rv_proposal_hash e]> d else d) ∅ evs.
Definition proposals (j : RefinementJournal) : result (dict string RefinementProposal) :=
  match rj_proposals j with
  | None => Ok ∅
  | Some raw =>
      records ← read_proposals (lines_of raw) ∅;
      (if bool_decide (is_Some (rj_events j)) then
         evs ← events j;
         let proposed := proposed_hashes evs in
         check_each (items records) (λ kp,
           err_if (match proposed !! kp.1 with Some h => negb (bool_decide (h = proposal_digest kp.2)) | None => false end)
             CollaborationError "refinement proposal content was modified")
       else Ok tt) ;;
      Ok records
  end.
Definition current_state (evs : list RefinementEvent) (proposal_id : string) : option RefinementState :=
  rv_to_state <$> last (List.filter (λ e, bool_decide (rv_proposal_id e = proposal_id)) evs).
Definition state (proposal_id : string) (j : RefinementJournal) : result (option RefinementState) :=
  evs ← events j; Ok (current_state evs proposal_id).

(** ** Transitions *)
(** [any(not self._evidence_exists(item) for item in items)] *)
Fixpoint any_unknown (items : list string) : prog RefinementJournal bool :=
  match items with
  | [] => mret false
  | item :: items =>
      known ← on_evidence (_evidence_exists item);
      match known with true => any_unknown items | false => mret true end
  end.
(** [tuple(sorted(set(evidence_ids)))] *)
Definition evidence_set (evidence_ids : list string) : list string := sorted_str (remove_dups evidence_ids).
(** [_transition] up to the write: the event it appends. *)
Definition prepare_transition (proposal_id : string) (to_state : RefinementState) (provenance : Provenance)
    (evidence_ids : list string) (receipt : option string) : prog RefinementJournal RefinementEvent :=
  j ← gets (λ j, j);
  known ← lift (proposals j);
  match known !! proposal_id with
  | None => raise CollaborationError ("unknown proposal: " +:+ proposal_id)
  | Some proposal =>
      let evidence := evidence_set evidence_ids in
      unknown ← (if bool_decide (evidence = []) then mret true else any_unknown evidence);
      raise_if unknown CollaborationError "transition requires known evidence" ;;
      raise_if (bool_decide (to_state ∈ external_states) && match receipt with Some s => is_empty_str s | None => true end)
        CollaborationError "external state transitions require a receipt" ;;
      evs ← lift (events j);
      let current := current_state evs proposal_id in
      raise_if (negb (bool_decide (to_state ∈ _REFINEMENT_TRANSITIONS current))) CollaborationError "illegal refinement transition" ;;
      st ← stamp;
      lift (refinement_sealed {|
        rv_event_id := st.1; rv_sequence := Z.of_nat (length evs) + 1; rv_proposal_id := proposal_id;
        rv_proposal_hash := proposal_digest proposal; rv_from_state := current; rv_to_state := to_state; rv_timestamp := st.2;
        rv_provenance := provenance; rv_evidence_ids := evidence; rv_receipt := receipt;
        rv_prior_event_hash := match last evs with Some e => rv_event_hash e | None => None end; rv_event_hash := None |})
  end.
(** [_append_json], of the first [k] bytes of the line. *)
Definition append_event_bytes (e : RefinementEvent) (k : nat) : prog RefinementJournal unit :=
  modify (λ j, put_events (Some (default "" (rj_events j) +:+ String.substring 0 k (line_nl (line_text e)))) j).
Definition append_proposal_bytes (p : RefinementProposal) (k : nat) : prog RefinementJournal unit :=
  modify (λ j, put_proposals (Some (default "" (rj_proposals j) +:+ String.substring 0 k (line_nl (line_text p)))) j).
Definition whole {A} `{LineCodec A validate} (a : A) : nat := String.length (line_nl (line_text a)).

Definition _transition (proposal_id : string) (to_state : RefinementState) (provenance : Provenance)
    (evidence_ids : list string) (receipt : option string) : prog RefinementJournal RefinementEvent :=
  event ← prepare_transition proposal_id to_state provenance evidence_ids receipt;
  append_event_bytes event (whole event) ;;
  mret event.
(** A process killed inside the append, when [k] bytes had reached the file. *)
Definition killed_transition (proposal_id : string) (to_state : RefinementState) (provenance : Provenance)
    (evidence_ids : list string) (receipt : option string) (k : nat) : prog RefinementJournal unit :=
  event ← prepare_transition proposal_id to_state provenance evidence_ids receipt;
  append_event_bytes event k.

Definition prepare_propose (p : RefinementProposal) : prog RefinementJournal unit :=
  unknown ← any_unknown (rp_evidence_ids p);
  raise_if unknown CollaborationError "proposal cites unknown evidence" ;;
  j ← gets (λ j, j);
  known ← lift (proposals j);
  raise_if (has_key (rp_id p) known) CollaborationError ("proposal already exists: " +:+ rp_id p).
Definition propose (p : RefinementProposal) (provenance : Provenance) : prog RefinementJournal RefinementEvent :=
  prepare_propose p ;;
  append_proposal_bytes p (whole p) ;;
  _transition (rp_id p) R_PROPOSED provenance (rp_evidence_ids p) None.
(** A process killed inside one of the two appends, or between them ([k = 0]). *)
Inductive refinement_kill := InProposal (k : nat) | InEvent (k : nat).
Definition killed_propose (p : RefinementProposal) (provenance : Provenance) (at_ : refinement_kill) : prog RefinementJournal unit :=
  prepare_propose p ;;
  match at_ with
  | InProposal k => append_proposal_bytes p k
  | InEvent k =>
      append_proposal_bytes p (whole p) ;;
      killed_transition (rp_id p) R_PROPOSED provenance (rp_evidence_ids p) None k
  end.

(** ** Authority *)
Definition _require_approver (proposal_id actor : string) : prog RefinementJournal unit :=
  j ← gets (λ j, j);
  known ← lift (proposals j);
  match known !! proposal_id with
  | None => raise CollaborationError ("unknown proposal: " +:+ proposal_id)
  | Some proposal =>
      raise_if (negb (bool_decide (actor ∈ approvers)) || bool_decide (actor = rp_proposer proposal)) CollaborationError
        "independent authorized approver required"
  end.
Definition required_kinds (target : RefinementTargetKind) : list RefinementEvidenceKind :=
  [VERIFIED_RESULT; CANARY_RESULT; OPERATOR_APPROVAL] ++ (if bool_decide (target = EXECUTABLE_EXTENSION) then [SECURITY_REVIEW] else []).
Definition _require_governed_promotion_evidence (proposal_id : string) (evidence_ids : list string) : prog RefinementJournal unit :=
  match _evidence_kind with
  | None => raise CollaborationError "governed evidence classifier required for promotion"
  | Some kind =>
      j ← gets (λ j, j);
      known ← lift (proposals j);
      match known !! proposal_id with
      | None => raise KeyError proposal_id
      | Some proposal =>
          kinds ← lift (map_result kind evidence_ids);
          raise_if (existsb (λ k, negb (bool_decide (k ∈ kinds))) (required_kinds (rp_target_kind proposal))) CollaborationError
            "promotion lacks governed evidence"
      end
  end.

Definition authorize_canary (proposal_id : string) (provenance : Provenance) (evidence_ids : list string) : prog RefinementJournal RefinementEvent :=
  _require_approver proposal_id (pv_actor provenance) ;;
  _transition proposal_id CANARY_AUTHORIZED provenance evidence_ids None.
Definition record_canary (proposal_id : string) (provenance : Provenance) (passed : bool) (evidence_ids : list string) (receipt : string) :
    prog RefinementJournal RefinementEvent :=
  _transition proposal_id (if passed then CANARY_PASSED else CANARY_FAILED) provenance evidence_ids (Some receipt).
Definition approve (proposal_id : string) (provenance : Provenance) (evidence_ids : list string) : prog RefinementJournal RefinementEvent :=
  _require_approver proposal_id (pv_actor provenance) ;;
  _transition proposal_id APPROVED provenance evidence_ids None.
Definition reject (proposal_id : string) (provenance : Provenance) (evidence_ids : list string) : prog RefinementJournal RefinementEvent :=
  _require_approver proposal_id (pv_actor provenance) ;;
  _transition proposal_id REJECTED provenance evidence_ids None.
Definition authorize_promotion (proposal_id : string) (provenance : Provenance) (evidence_ids : list string) : prog RefinementJournal RefinementEvent :=
  _require_approver proposal_id (pv_actor provenance) ;;
  _require_governed_promotion_evidence proposal_id evidence_ids ;;
  _transition proposal_id PROMOTION_AUTHORIZED provenance evidence_ids None.
Definition record_promoted (proposal_id : string) (provenance : Provenance) (evidence_ids : list string) (receipt : string) :
    prog RefinementJournal RefinementEvent :=
  _transition proposal_id PROMOTED provenance evidence_ids (Some receipt).
Definition authorize_rollback (proposal_id : string) (provenance : Provenance) (evidence_ids : list string) : prog RefinementJournal RefinementEvent :=
  _require_approver proposal_id (pv_actor provenance) ;;
  _transition proposal_id ROLLBACK_AUTHORIZED provenance evidence_ids None.
Definition record_rolled_back (proposal_id : string) (provenance : Provenance) (evidence_ids : list string) (receipt : string) :
    prog RefinementJournal RefinementEvent :=
  _transition proposal_id ROLLED_BACK provenance evidence_ids (Some receipt).
End journal.
