(* ===== verification/RefinementFacts.v ===== *)
(** * The refinement journal: what its two files hold

    Over any interleaving of calls and killed processes the files hold a list of
    proposals and a list of governed events, or are unreadable and never change again. *)
From S2P Require Import Prelude PyDict PyFloat Canonical Models Store JsonLines LeaseScheduler Refinement.
From stdpp Require Import relations.
From Stdlib Require Import Ascii.

Section facts.
Context {W : Type} {PF : Platform} {PC : LineCodec validate_RefinementProposal} {RC : LineCodec validate_RefinementEvent} {EN : Entropy}.
Context (approvers : gset string) (_evidence_exists : string → prog W bool)
  (_evidence_kind : option (string → result RefinementEvidenceKind)) (clock : nat → datetime).
Notation J := (RefinementJournal (W:=W)).
Implicit Types (j : J) (P : list RefinementProposal) (H : list RefinementEvent).

Definition texts {A} {validate : A → result A} `{!LineCodec validate} (xs : list A) : list string := line_text <$> xs.
Lemma line_texts_lines {A} {validate : A → result A} `{!LineCodec validate} (xs : list A) :
  Forall one_line (texts xs) ∧ Forall (λ t, t ≠ "") (texts xs).
Proof. split; apply Forall_fmap, Forall_true; intros x; [apply line_one_line|apply line_nonempty]. Qed.

(** ** Reading back *)
Fixpoint chained (n : Z) (prior : option string) H : Prop :=
  match H with
  | [] => True
  | e :: H => rv_sequence e = (n + 1)%Z ∧ rv_prior_event_hash e = prior ∧ rv_event_hash e = Some (refinement_hash e) ∧
      validate_RefinementEvent e = Ok e ∧ chained (n + 1) (rv_event_hash e) H
  end.
Definition last_hash_from (prior : option string) H : option string := match last H with Some e => rv_event_hash e | None => prior end.
Lemma journal_chained_snoc n prior H e : chained n prior H → rv_sequence e = (n + Z.of_nat (length H) + 1)%Z →
  rv_prior_event_hash e = last_hash_from prior H → rv_event_hash e = Some (refinement_hash e) → validate_RefinementEvent e = Ok e →
  chained n prior (H ++ [e]).
Proof.
  revert n prior. induction H as [|x H IH]; intros n prior; cbn [app chained].
  { intros _ Hs Hp Hh Hv. unfold last_hash_from in Hp. simpl in Hs, Hp. repeat split; try done. lia. }
  intros (Hxs & Hxp & Hxh & Hxv & Hc) Hs Hp Hh Hv. repeat (split; [done|]). apply IH; [done| | |done|done].
  - rewrite Hs. cbn [length]. lia.
  - rewrite Hp. unfold last_hash_from. destruct H as [|y H]; [done|]. rewrite last_cons_cons.
    destruct (last (y :: H)) eqn:E; [done|]. by apply last_None in E.
Qed.
Lemma read_events_texts n prior H : chained n prior H → read_events (texts H) n prior = Ok H.
Proof.
  revert n prior. induction H as [|e H IH]; intros n prior; [done|]. cbn [chained texts fmap list_fmap read_events].
  intros (Hs & Hp & Hh & Hv & Hc). rewrite (parse_line_text e Hv), Hs, Z.eqb_refl, Hp, (bool_decide_eq_true_2 _ eq_refl). cbn [negb orb].
  rewrite (bool_decide_eq_true_2 _ Hh). cbn. fold (texts H). by rewrite (IH _ _ Hc).
Qed.
Lemma read_events_bad ls bad n prior : parse_line (validate:=validate_RefinementEvent) bad = None → ∃ e, read_events (ls ++ [bad]) n prior = Err e.
Proof.
  intros Hb. revert n prior. induction ls as [|l ls IH]; intros n prior; cbn [app read_events]; [rewrite Hb; by eexists|].
  destruct (parse_line l) as [e|]; [|by eexists]. destruct (_ || _); [by eexists|]. cbn. destruct (negb _); [by eexists|]. cbn.
  destruct (IH (n + 1)%Z (rv_event_hash e)) as [err ->]. by eexists.
Qed.
Lemma read_events_inv ls n prior H : read_events ls n prior = Ok H → chained n prior H.
Proof.
  revert n prior H. induction ls as [|l ls IH]; intros n prior H; cbn [read_events]; [by intros [= <-]|].
  destruct (parse_line l) as [e|] eqn:Hp; [|done]. rewrite bind_unit_ok, err_if_ok, orb_false_iff, !negb_false_iff, Z.eqb_eq, bool_decide_eq_true.
  intros ((Hs & Hpr) & Hrest). rewrite bind_unit_ok, err_if_ok, negb_false_iff, bool_decide_eq_true in Hrest. destruct Hrest as (Hh & Hrest).
  destruct (read_events ls (n + 1) (rv_event_hash e)) as [es|] eqn:Hes; [|done]. injection Hrest as <-. apply IH in Hes.
  cbn [chained]. repeat (split; [done|]). split; [by eapply parse_line_valid|done].
Qed.

Definition wf_proposals P : Prop := NoDup (rp_id <$> P) ∧ Forall (λ p, validate_RefinementProposal p = Ok p) P.
Lemma read_proposals_texts P d : wf_proposals P → (∀ p, p ∈ P → d !! rp_id p = None) →
  read_proposals (texts P) d = Ok (foldl (λ d p, <[rp_id p := p]> d) d P).
Proof.
  intros [Hn Hv]. revert d. induction P as [|p P IH]; intros d Hd; [done|]. cbn [texts fmap list_fmap read_proposals foldl] in *.
  apply NoDup_cons in Hn as [Hp Hn]. apply Forall_cons in Hv as [Hvp Hv].
  rewrite (parse_line_text p Hvp). rewrite (proj2 (has_key_false _ _)) by (apply Hd; left). cbn. fold (texts P).
  apply IH; [done|done|]. intros p' Hp'. rewrite dict_lookup_insert_ne; [apply Hd; by right|].
  intros E. destruct Hp. rewrite E. by apply list_elem_of_fmap_2.
Qed.
Lemma read_proposals_bad ls bad d : parse_line (validate:=validate_RefinementProposal) bad = None → ∃ e, read_proposals (ls ++ [bad]) d = Err e.
Proof.
  intros Hb. revert d. induction ls as [|l ls IH]; intros d; cbn [app read_proposals]; [rewrite Hb; by eexists|].
  destruct (parse_line l) as [p|]; [|by eexists]. destruct (has_key _ _); [by eexists|]. cbn. apply IH.
Qed.
Lemma known_lookup P pid p : wf_proposals P → dict_by rp_id P !! pid = Some p ↔ p ∈ P ∧ rp_id p = pid.
Proof.
  intros [Hn _]. rewrite dict_by_lookup by done. done.
Qed.

(** ** Governed histories *)
Definition needs_approver (to : RefinementState) : bool :=
  bool_decide (to ∈ [CANARY_AUTHORIZED; APPROVED; REJECTED; PROMOTION_AUTHORIZED; ROLLBACK_AUTHORIZED]).
(** The actor may decide on the proposal: an authorized approver, not its proposer. *)
Definition independent (p : RefinementProposal) (actor : string) : Prop := actor ∈ approvers ∧ actor ≠ rp_proposer p.
(** The evidence contains every class that a promotion of the proposal requires. *)
Definition governed_evidence (p : RefinementProposal) (ids : list string) : Prop :=
  ∃ kind, _evidence_kind = Some kind ∧ ∀ k, k ∈ required_kinds (rp_target_kind p) → ∃ x, x ∈ ids ∧ kind x = Ok k.
(** What an event says of the proposal, given the events before it. *)
Record admissible P H (e : RefinementEvent) (p : RefinementProposal) : Prop := {
  ad_proposal : p ∈ P ∧ rp_id p = rv_proposal_id e ∧ rv_proposal_hash e = proposal_digest p;
  ad_sequence : rv_sequence e = (Z.of_nat (length H) + 1)%Z;
  ad_prior : rv_prior_event_hash e = last_hash_from None H;
  ad_sealed : rv_event_hash e = Some (refinement_hash e);
  ad_from : rv_from_state e = current_state H (rv_proposal_id e);
  ad_legal : rv_to_state e ∈ _REFINEMENT_TRANSITIONS (rv_from_state e);
  ad_evidence : rv_evidence_ids e ≠ [];
  ad_receipt : rv_to_state e ∈ external_states → ∃ r, rv_receipt e = Some r ∧ r ≠ "";
  ad_approver : needs_approver (rv_to_state e) = true → independent p (pv_actor (rv_provenance e));
  ad_governed : rv_to_state e = PROMOTION_AUTHORIZED → governed_evidence p (rv_evidence_ids e) }.
Inductive governed P : list RefinementEvent → Prop :=
  | governed_nil : governed P []
  | governed_snoc H e p : governed P H → admissible P H e p → governed P (H ++ [e]).

Lemma governed_mono P P' H : (∀ p, p ∈ P → p ∈ P') → governed P H → governed P' H.
Proof.
  intros Hs. induction 1 as [|H e p _ IH Ha]; [constructor|]. apply governed_snoc with p; [done|].
  destruct Ha as [(? & ? & ?) ? ? ? ? ? ? ? ? ?]. constructor; auto.
Qed.
Lemma governed_chained P H : governed P H → chained 0 None H.
Proof.
  induction 1 as [|H e p _ IH Ha]; [done|]. apply journal_chained_snoc; [done|apply Ha|apply Ha|apply Ha|].
  unfold validate_RefinementEvent, require. rewrite (ad_sequence _ _ _ _ Ha), (proj2 (Z.leb_le _ _)) by lia. done.
Qed.
Lemma governed_elem P H e : governed P H → e ∈ H → ∃ H0 p, admissible P H0 e p.
Proof.
  induction 1 as [|H e' p _ IH Ha]; [by intros ?%elem_of_nil|]. intros [?| ->%list_elem_of_singleton]%elem_of_app; eauto.
Qed.
(** Every proposal of the events has the recorded content. *)
Lemma proposed_hashes_ok P H pid h : governed P H → proposed_hashes H !! pid = Some h →
  ∃ p, p ∈ P ∧ rp_id p = pid ∧ h = proposal_digest p.
Proof.
  intros Hg. unfold proposed_hashes. induction Hg as [|H e p _ IH Ha]; [done|]. rewrite foldl_app. cbn [foldl].
  destruct (_ && _); [|done]. rewrite dict_lookup_insert. case_decide as E; [|done]. intros [= <-].
  destruct (ad_proposal _ _ _ _ Ha) as (? & ? & ?). exists p. naive_solver.
Qed.

(** ** What the files hold *)
Definition events_hold j H : Prop := holds_lines (rj_events j) (texts H).
Definition readable j P H : Prop := holds_lines (rj_proposals j) (texts P) ∧ events_hold j H.
Lemma readable_events j H : events_hold j H → chained 0 None H → events j = Ok H.
Proof.
  intros He Hc. destruct (line_texts_lines H) as [Hl Hn]. pose proof (holds_lines_of _ _ Hl Hn He) as Hlines. unfold events.
  destruct (rj_events j) as [raw|]; simpl in Hlines.
  - rewrite Hlines. by apply read_events_texts.
  - by destruct H.
Qed.
Lemma readable_proposals j P H : readable j P H → wf_proposals P → governed P H → proposals j = Ok (dict_by rp_id P).
Proof.
  intros [Hp He] Hwf Hg. destruct (line_texts_lines P) as [Hl Hn]. pose proof (holds_lines_of _ _ Hl Hn Hp) as Hlines. unfold proposals.
  destruct (rj_proposals j) as [raw|]; simpl in Hlines; [|by destruct P].
  rewrite Hlines, read_proposals_texts by done. cbn [mbind result_bind].
  rewrite (readable_events j H He (governed_chained P H Hg)). fold (dict_by rp_id P). rewrite bind_unit_ok. split; [|done].
  case_bool_decide; [|done]. cbn [mbind result_bind].
  apply check_each_ok, Forall_forall. intros [pid p] Hin. apply err_if_ok. cbn [fst snd].
  assert (p ∈ P ∧ rp_id p = pid) as [Hpp Hid].
  { apply known_lookup; [done|]. apply dict_elem_lookup; [|done]. apply dict_wf_foldl, dict_wf_empty. }
  destruct (proposed_hashes H !! pid) as [h|] eqn:Hh; [|done]. apply (proposed_hashes_ok P) in Hh as (p' & Hp' & Hid' & ->); [|done].
  assert (p' = p) as ->; [|by rewrite bool_decide_eq_true_2].
  assert (dict_by rp_id P !! pid = Some p ∧ dict_by rp_id P !! pid = Some p') as [H1 H2] by (by rewrite !known_lookup).
  congruence.
Qed.

(** ** One transition *)
Definition same_files j j' : Prop := rj_proposals j' = rj_proposals j ∧ rj_events j' = rj_events j.
#[local] Instance same_files_preorder : PreOrder same_files.
Proof. split; [done|]. intros ??? [] []. split; congruence. Qed.
Lemma on_evidence_frame {A} (m : prog W A) : Evolves same_files (on_evidence m).
Proof. intros j. unfold on_evidence. by destruct (m (rj_world j)). Qed.
Lemma any_unknown_frame items : Evolves same_files (any_unknown _evidence_exists items).
Proof.
  induction items as [|x items IH]; cbn [any_unknown]; [apply evolves_ret; apply _|].
  apply evolves_bind; [apply _|apply on_evidence_frame|]. intros []; [done|apply evolves_ret; apply _].
Qed.
Lemma same_files_reads j j' : same_files j j' → proposals j' = proposals j ∧ events j' = events j.
Proof. intros [Hp He]. unfold proposals, events. by rewrite Hp, He. Qed.
Notation prepare := (prepare_transition _evidence_exists clock).
Lemma prepare_frame pid to prov ids receipt : Evolves same_files (prepare pid to prov ids receipt).
Proof.
  unfold prepare_transition. repeat (first [apply evolves_bind; [apply _| |intros ?] | apply evolves_gets; apply _ | apply evolves_lift; apply _
    | apply evolves_raise; apply _ | apply evolves_raise_if; apply _ | apply any_unknown_frame | apply evolves_ret; apply _ | intros ?; split; reflexivity | case_match]).
Qed.
(** The event a transition appends. *)
Definition drafted (p : RefinementProposal) H (to : RefinementState) (prov : Provenance) (ids : list string) (receipt : option string)
    (tick : nat) : RefinementEvent :=
  let e := {| rv_event_id := uuid4_hex tick; rv_sequence := (Z.of_nat (length H) + 1)%Z; rv_proposal_id := rp_id p;
    rv_proposal_hash := proposal_digest p; rv_from_state := current_state H (rp_id p); rv_to_state := to; rv_timestamp := clock tick;
    rv_provenance := prov; rv_evidence_ids := evidence_set ids; rv_receipt := receipt; rv_prior_event_hash := last_hash_from None H;
    rv_event_hash := None |} in
  with_refinement_hash (Some (refinement_hash e)) e.
Lemma prepare_ok pid to prov ids receipt j j' e : prepare pid to prov ids receipt j = (j', Ok e) →
  same_files j j' ∧ ∃ known p evs, proposals j = Ok known ∧ known !! pid = Some p ∧ events j = Ok evs ∧
    evidence_set ids ≠ [] ∧ (to ∈ external_states → ∃ r, receipt = Some r ∧ r ≠ "") ∧ to ∈ _REFINEMENT_TRANSITIONS (current_state evs pid) ∧
    (pid = rp_id p → ∃ tick, e = drafted p evs to prov ids receipt tick).
Proof.
  intros Hrun. pose proof (prepare_frame pid to prov ids receipt j) as Hf. rewrite Hrun in Hf. split; [exact Hf|]. clear Hf.
  revert Hrun. unfold prepare_transition. prog_gets. prog_lift Hk known. destruct (known !! pid) as [p|] eqn:Hp; [|done].
  rewrite prog_bind_eq. case_bool_decide as Hev.
  { intros [=]. }
  destruct (any_unknown _evidence_exists (evidence_set ids) j) as [j1 [u|]] eqn:Hu; [|done].
  pose proof (any_unknown_frame (evidence_set ids) j) as Hf. rewrite Hu in Hf. simpl in Hf.
  prog_raise Hunk. prog_raise Hext. prog_lift He evs.  prog_raise Hleg.
  apply negb_false_iff, bool_decide_eq_true in Hleg.
  rewrite prog_bind_eq. unfold stamp at 1. unfold lift, refinement_sealed. cbn. intros [= <- <-].
  exists known, p, evs. repeat (split; [done|]). split; [|split; [done|]].
  - intros Hx. apply andb_false_iff in Hext as [Hext|Hext]; [by apply bool_decide_eq_false in Hext|].
    destruct receipt as [[|c r]|]; [done|by eexists|done].
  - intros ->. by eexists.
Qed.

(** ** Appending to the files *)
Lemma readable_same j j' P H : same_files j j' → readable j P H → readable j' P H.
Proof. intros [Hp He] [??]. split; unfold events_hold; [by rewrite Hp|by rewrite He]. Qed.
Lemma line_texts_snoc {A} {validate : A → result A} `{!LineCodec validate} (xs : list A) x : texts (xs ++ [x]) = texts xs ++ [line_text x].
Proof. unfold texts. by rewrite fmap_app. Qed.
Lemma bad_piece {A} {validate : A → result A} `{!LineCodec validate} (xs : list A) x bad :
  (∃ i, (0 < i < String.length (line_text x)) ∧ bad = String.substring 0 i (line_text x)) ∨
  (∃ old i, old ∈ texts xs ∧ 0 < i ∧ bad = old +:+ String.substring 0 i (line_text x)) → parse_line bad = None.
Proof.
  intros [(i & Hi & ->)|(old & i & (y & -> & _)%list_elem_of_fmap & Hi & ->)]; [by apply parse_line_cut; lia|by apply parse_line_joined].
Qed.
Lemma writing_cases j P H e p k : wf_proposals P → readable j P H → admissible P H e p →
  let j' := (append_event_bytes e k j).1 in
  readable j' P H ∨ readable j' P (H ++ [e]) ∨ (∃ err, proposals j' = Err err) ∧ (∃ err, events j' = Err err).
Proof.
  intros Hwf [Hp He] Ha j'. destruct (line_texts_lines H) as [Hl Hn].
  destruct (append_line_cases (rj_events j) (texts H) (line_text e) k Hl Hn (line_one_line e) (line_nonempty e) He)
    as [[_ Hk]|[(_ & _ & Hk & _)|(ts0 & bad & Hls & Hbad)]].
  - left. split; [exact Hp|]. unfold events_hold, holds_lines in *. assert (default "" (rj_events j') = default "" (rj_events j)) as -> by exact Hk. exact He.
  - right. left. split; [exact Hp|]. unfold events_hold. by rewrite line_texts_snoc.
  - right. right. assert (∃ err, events j' = Err err) as [err Herr].
    { unfold events, j'. cbn [append_event_bytes modify put_events rj_events fst]. cbn [default from_option id] in Hls. rewrite Hls.
      apply read_events_bad. by apply (bad_piece H e). }
    split; [|by eexists]. unfold proposals. rewrite Herr.
    assert (rj_proposals j' = rj_proposals j ∧ rj_events j' ≠ None) as [-> Hsome] by done.
    destruct (rj_proposals j) as [raw|] eqn:Hraw.
    + destruct (read_proposals _ _); [|by eexists]. cbn [mbind result_bind]. rewrite bool_decide_eq_true_2; [by eexists|].
      by apply not_eq_None_Some.
    + exfalso. destruct (ad_proposal _ _ _ _ Ha) as (Hin & _). destruct Hp as [Hp|(ts' & t & Hts & Hp)]; simpl in Hp.
      * destruct P; [by apply elem_of_nil in Hin|]. simpl in Hp. unfold line_nl in Hp. by destruct (line_text _).
      * assert (t ∈ texts P) as Ht by (rewrite Hts; apply elem_of_app; right; by apply list_elem_of_singleton).
        apply list_elem_of_fmap in Ht as (q & -> & _). pose proof (line_nonempty q). by destruct (lines_text ts'), (line_text q).
Qed.
Lemma append_proposal_cases j P H p k : wf_proposals P → readable j P H → let j' := (append_proposal_bytes p k j).1 in
  readable j' P H ∨ readable j' (P ++ [p]) H ∨ (∃ err, proposals j' = Err err) ∧ events_hold j' H.
Proof.
  intros Hwf [Hp He] j'. destruct (line_texts_lines P) as [Hl Hn].
  destruct (append_line_cases (rj_proposals j) (texts P) (line_text p) k Hl Hn (line_one_line p) (line_nonempty p) Hp)
    as [[_ Hk]|[(_ & _ & Hk & _)|(ts0 & bad & Hls & Hbad)]].
  - left. split; [|exact He]. unfold holds_lines in *. assert (default "" (rj_proposals j') = default "" (rj_proposals j)) as -> by exact Hk. exact Hp.
  - right. left. split; [|exact He]. by rewrite line_texts_snoc.
  - right. right. split; [|exact He]. unfold proposals, j'. cbn [append_proposal_bytes modify put_proposals rj_proposals fst].
    cbn [default from_option id] in Hls. rewrite Hls.
    destruct (read_proposals_bad ts0 bad ∅) as [err ->]; [by apply (bad_piece P p)|by eexists].
Qed.

(** ** Histories

    The checks of an approver and of the promotion evidence run before the lock is
    taken: [run_approved] and [run_governed] remember those that passed, and a
    transition that needs one may come any time later, after other calls.  Anything may
    happen to the world that knows the evidence. *)
Record Run := { run_journal : J; run_approved : list (string * string); run_governed : list (string * list string) }.
Definition on_journal (j : J) (r : Run) : Run :=
  {| run_journal := j; run_approved := run_approved r; run_governed := run_governed r |}.
Definition cleared (r : Run) (pid : string) (to : RefinementState) (prov : Provenance) (ids : list string) : Prop :=
  (needs_approver to = true → (pid, pv_actor prov) ∈ run_approved r) ∧ (to = PROMOTION_AUTHORIZED → (pid, ids) ∈ run_governed r).
Notation require_approver := (_require_approver approvers).
Notation require_governed := (_require_governed_promotion_evidence _evidence_kind).
Notation transition := (_transition _evidence_exists clock).
Notation propose := (propose _evidence_exists clock).
Inductive journal_step : Run → Run → Prop :=
  | step_world r w : journal_step r (on_journal {| rj_world := w; rj_proposals := rj_proposals (run_journal r);
      rj_events := rj_events (run_journal r); rj_ticks := rj_ticks (run_journal r) |} r)
  | step_approver r pid actor j : require_approver pid actor (run_journal r) = (j, Ok tt) →
      journal_step r {| run_journal := j; run_approved := (pid, actor) :: run_approved r; run_governed := run_governed r |}
  | step_evidence r pid ids j : require_governed pid ids (run_journal r) = (j, Ok tt) →
      journal_step r {| run_journal := j; run_approved := run_approved r; run_governed := (pid, ids) :: run_governed r |}
  | step_propose r p prov : validate_RefinementProposal p = Ok p → journal_step r (on_journal (propose p prov (run_journal r)).1 r)
  | step_propose_killed r p prov at_ : validate_RefinementProposal p = Ok p →
      journal_step r (on_journal (killed_propose _evidence_exists clock p prov at_ (run_journal r)).1 r)
  | step_transition r pid to prov ids receipt : cleared r pid to prov ids →
      journal_step r (on_journal (transition pid to prov ids receipt (run_journal r)).1 r)
  | step_transition_killed r pid to prov ids receipt k : cleared r pid to prov ids →
      journal_step r (on_journal (killed_transition _evidence_exists clock pid to prov ids receipt k (run_journal r)).1 r).
Definition fresh_run (w : W) (ticks : nat) : Run :=
  {| run_journal := {| rj_world := w; rj_proposals := None; rj_events := None; rj_ticks := ticks |}; run_approved := []; run_governed := [] |}.

Definition unreadable j H : Prop := (∃ err, proposals j = Err err) ∧ (events_hold j H ∨ ∃ err, events j = Err err).
Definition journal_inv j P H : Prop := wf_proposals P ∧ governed P H ∧ (readable j P H ∨ unreadable j H).
Definition passed P (r : Run) : Prop :=
  (∀ pid actor, (pid, actor) ∈ run_approved r → ∃ p, p ∈ P ∧ rp_id p = pid ∧ independent p actor) ∧
  (∀ pid ids, (pid, ids) ∈ run_governed r → ∃ p, p ∈ P ∧ rp_id p = pid ∧ governed_evidence p ids).
Definition run_inv (r : Run) : Prop := ∃ P H, journal_inv (run_journal r) P H ∧ passed P r.

Lemma inv_same j j' P H : same_files j j' → journal_inv j P H → journal_inv j' P H.
Proof.
  intros Hs (Hwf & Hg & Hr). split; [done|]. split; [done|]. destruct Hr as [Hr|[Hp He]]; [left; by eapply readable_same|right].
  destruct (same_files_reads j j' Hs) as [Ep Ee]. unfold unreadable, events_hold. by rewrite Ep, Ee, (proj2 Hs).
Qed.
Lemma readable_inv j P H known : journal_inv j P H → proposals j = Ok known → readable j P H ∧ known = dict_by rp_id P.
Proof.
  intros (Hwf & Hg & [Hr|[[err Herr] _]]) Hk; [|congruence]. split; [done|]. pose proof (readable_proposals j P H Hr Hwf Hg). congruence.
Qed.
Lemma same_id P p p' : wf_proposals P → p ∈ P → p' ∈ P → rp_id p = rp_id p' → p = p'.
Proof.
  intros Hwf Hp Hp' E. assert (dict_by rp_id P !! rp_id p' = Some p ∧ dict_by rp_id P !! rp_id p' = Some p') as [? ?] by (by rewrite !known_lookup).
  congruence.
Qed.
Lemma elem_evidence_set x ids : x ∈ evidence_set ids ↔ x ∈ ids.
Proof. unfold evidence_set. rewrite sorted_str_perm. apply elem_of_remove_dups. Qed.

(** A prepared transition is admissible when its checks have passed. *)
Lemma prepared_admissible r P H pid to prov ids receipt j' e : journal_inv (run_journal r) P H → passed P r → cleared r pid to prov ids →
  prepare pid to prov ids receipt (run_journal r) = (j', Ok e) →
  readable j' P H ∧ ∃ p, admissible P H e p.
Proof.
  intros Hi [Ha Hg] [Hca Hcg] (Hs & known & p & evs & Hk & Hp & He & Hev & Hext & Hleg & Hdraft)%prepare_ok.
  destruct (readable_inv _ _ _ _ Hi Hk) as [Hr ->]. destruct Hi as (Hwf & Hgov & _).
  apply known_lookup in Hp as [Hp <-]; [|done]. rewrite (readable_events _ H (proj2 Hr) (governed_chained P H Hgov)) in He. injection He as <-.
  destruct (Hdraft eq_refl) as [tick ->]. split; [by eapply readable_same|]. exists p. constructor; simpl; auto.
  - intros Hn. destruct (Ha _ _ (Hca Hn)) as (q & Hq & Hid & Hind). by rewrite (same_id P p q).
  - intros Hto. destruct (Hg _ _ (Hcg Hto)) as (q & Hq & Hid & (kind & Hkind & Hall)). rewrite (same_id P p q) by done.
    exists kind. split; [done|]. intros k Hkk. destruct (Hall k Hkk) as (x & Hx & ?). exists x. by rewrite elem_evidence_set.
Qed.

(** A transition, killed in its append or not: the bytes written depend on the event. *)
Definition appended (pid : string) (to : RefinementState) (prov : Provenance) (ids : list string) (receipt : option string)
    (k : RefinementEvent → nat) : prog J unit :=
  event ← prepare pid to prov ids receipt; append_event_bytes event (k event).
Lemma transition_appended pid to prov ids receipt j :
  (transition pid to prov ids receipt j).1 = (appended pid to prov ids receipt whole j).1.
Proof. unfold _transition, appended. rewrite !prog_bind_eq. by destruct (prepare pid to prov ids receipt j) as [j' [e|]]. Qed.
Lemma appended_inv r pid to prov ids receipt k P H : journal_inv (run_journal r) P H → passed P r → cleared r pid to prov ids →
  ∃ H', journal_inv (appended pid to prov ids receipt k (run_journal r)).1 P H'.
Proof.
  intros Hi Hp Hc. unfold appended. rewrite prog_bind_eq.
  destruct (prepare pid to prov ids receipt (run_journal r)) as [j' [e|err]] eqn:Hrun.
  - destruct (prepared_admissible r P H pid to prov ids receipt j' e Hi Hp Hc Hrun) as (Hr & p & Ha). destruct Hi as (Hwf & Hg & _).
    destruct (writing_cases j' P H e p (k e) Hwf Hr Ha) as [Hr'|[Hr'|[? ?]]].
    + exists H. split; [done|]. split; [done|by left].
    + exists (H ++ [e]). split; [done|]. split; [by apply governed_snoc with p|by left].
    + exists H. split; [done|]. split; [done|]. right. split; [done|by right].
  - exists H. apply (inv_same (run_journal r)); [|done].
    pose proof (prepare_frame pid to prov ids receipt (run_journal r)) as Hf. by rewrite Hrun in Hf.
Qed.

Notation prepare_propose := (prepare_propose _evidence_exists).
Lemma prepare_propose_frame p : Evolves same_files (prepare_propose p).
Proof.
  unfold prepare_propose. repeat (first [apply evolves_bind; [apply _| |intros ?] | apply evolves_gets; apply _ | apply evolves_lift; apply _
    | apply evolves_raise_if; apply _ | apply any_unknown_frame]).
Qed.
Lemma prepare_propose_ok p j j' : prepare_propose p j = (j', Ok tt) → same_files j j' ∧ ∃ known, proposals j = Ok known ∧ known !! rp_id p = None.
Proof.
  intros Hrun. pose proof (prepare_propose_frame p j) as Hf. rewrite Hrun in Hf. split; [exact Hf|]. clear Hf.
  revert Hrun. unfold prepare_propose. rewrite prog_bind_eq. destruct (any_unknown _ _ j) as [j1 [u|]] eqn:Hu; [|done].
  pose proof (any_unknown_frame (rp_evidence_ids p) j) as Hf. rewrite Hu in Hf. simpl in Hf.
  prog_raise Hunk. prog_gets. prog_lift Hk known. unfold raise_if. destruct (has_key _ known) eqn:Hkey; [done|]. intros _.
  exists known. rewrite <- (proj1 (same_files_reads _ _ Hf)). split; [done|]. by apply has_key_false.
Qed.
Definition grows P P' : Prop := ∀ p, p ∈ P → p ∈ P'.
Lemma passed_mono P P' r : grows P P' → passed P r → passed P' r.
Proof. intros Hg [Ha Hb]. split; [intros pid actor Hin; destruct (Ha _ _ Hin) as (p & ? & ?)|intros pid ids Hin; destruct (Hb _ _ Hin) as (p & ? & ?)]; exists p; auto. Qed.
(** [propose], killed or not: the row of the proposal, then the first transition. *)
Lemma proposed_inv r p k P H : journal_inv (run_journal r) P H → validate_RefinementProposal p = Ok p →
  let j' := (prepare_propose p ;; append_proposal_bytes p k : prog J unit) (run_journal r) in
  ∃ P', grows P P' ∧ journal_inv j'.1 P' H.
Proof.
  intros Hi Hv j'. subst j'. rewrite prog_bind_eq. destruct (prepare_propose p (run_journal r)) as [j1 [[]|err]] eqn:Hrun.
  - apply prepare_propose_ok in Hrun as (Hs & known & Hk & Hfresh). destruct (readable_inv _ _ _ _ Hi Hk) as [Hr ->].
    destruct Hi as (Hwf & Hg & _). apply (readable_same _ j1) in Hr; [|done].
    assert (wf_proposals (P ++ [p])) as Hwf'.
    { destruct Hwf as [Hn Hval]. split; [|by apply Forall_app; split; [|constructor]]. rewrite fmap_app. apply NoDup_app. split; [done|].
      split; [|apply NoDup_singleton]. intros x (q & -> & Hq)%list_elem_of_fmap Hx%list_elem_of_singleton.
      assert (dict_by rp_id P !! rp_id p = Some q) by (by apply known_lookup). congruence. }
    destruct (append_proposal_cases j1 P H p k Hwf Hr) as [Hr'|[Hr'|[? ?]]].
    + exists P. split; [done|]. split; [done|]. split; [done|by left].
    + exists (P ++ [p]). assert (grows P (P ++ [p])) by (intros q ?; apply elem_of_app; by left). split; [done|]. split; [done|].
      split; [by apply governed_mono with P|by left].
    + exists P. split; [done|]. split; [done|]. split; [done|]. right. split; [done|by left].
  - exists P. split; [done|]. apply (inv_same (run_journal r)); [|done]. pose proof (prepare_propose_frame p (run_journal r)) as Hf. by rewrite Hrun in Hf.
Qed.
Lemma propose_inv r p prov k P H : journal_inv (run_journal r) P H → passed P r → validate_RefinementProposal p = Ok p →
  let m := (prepare_propose p ;; append_proposal_bytes p (whole p) ;; appended (rp_id p) R_PROPOSED prov (rp_evidence_ids p) None k) : prog J unit in
  ∃ P' H', grows P P' ∧ journal_inv (m (run_journal r)).1 P' H'.
Proof.
  intros Hi Hp Hv m. destruct (proposed_inv r p (whole p) P H Hi Hv) as (P' & Hgr & Hi'). unfold m.
  rewrite prog_bind_eq in Hi' |- *. destruct (prepare_propose p (run_journal r)) as [j1 [[]|err]]; [|by exists P', H].
  rewrite prog_bind_eq. unfold append_proposal_bytes at 1, modify at 1. cbv beta match.
  destruct (appended_inv (on_journal (put_proposals (Some (default "" (rj_proposals j1) +:+ String.substring 0 (whole p) (line_nl (line_text p)))) j1) r)
    (rp_id p) R_PROPOSED prov (rp_evidence_ids p) None k P' H Hi') as (H' & Hi'').
  - by apply passed_mono with P.
  - by split.
  - by exists P', H'.
Qed.

Lemma propose_appended p prov j : (propose p prov j).1 =
  ((prepare_propose p ;; append_proposal_bytes p (whole p) ;; appended (rp_id p) R_PROPOSED prov (rp_evidence_ids p) None whole) j).1.
Proof.
  unfold Refinement.propose. rewrite !(prog_bind_eq (prepare_propose p)). destruct (prepare_propose p j) as [j1 [[]|err]]; [|done].
  rewrite !prog_bind_eq. unfold append_proposal_bytes at 1 2, modify at 1 2. cbv beta match. apply transition_appended.
Qed.
Lemma require_approver_ok pid actor j j' P H : journal_inv j P H → require_approver pid actor j = (j', Ok tt) →
  j' = j ∧ ∃ p, p ∈ P ∧ rp_id p = pid ∧ independent p actor.
Proof.
  intros Hi. unfold _require_approver. prog_gets. prog_lift Hk known. destruct (readable_inv _ _ _ _ Hi Hk) as [_ ->].
  destruct (dict_by rp_id P !! pid) as [p|] eqn:Hp; [|done]. apply known_lookup in Hp as [Hp Hid]; [|apply Hi].
  unfold raise_if. destruct (_ || _) eqn:Hc; [done|]. apply orb_false_iff in Hc as [Ha%negb_false_iff%bool_decide_eq_true Hb%bool_decide_eq_false].
  intros [= <-]. split; [done|]. exists p. done.
Qed.
Lemma require_governed_ok pid ids j j' P H : journal_inv j P H → require_governed pid ids j = (j', Ok tt) →
  j' = j ∧ ∃ p, p ∈ P ∧ rp_id p = pid ∧ governed_evidence p ids.
Proof.
  intros Hi. unfold _require_governed_promotion_evidence. destruct _evidence_kind as [kind|] eqn:Hkind; [|done].
  prog_gets. prog_lift Hk known. destruct (readable_inv _ _ _ _ Hi Hk) as [_ ->].
  destruct (dict_by rp_id P !! pid) as [p|] eqn:Hp; [|done]. apply known_lookup in Hp as [Hp Hid]; [|apply Hi].
  prog_lift Hks kinds. unfold raise_if. destruct (existsb _ _) eqn:Hc; [done|]. intros [= <-]. split; [done|]. exists p. split; [done|]. split; [done|].
  exists kind. split; [done|]. intros k Hin. rewrite <- not_true_iff_false, existsb_exists in Hc.
  destruct (decide (k ∈ kinds)) as [Hkin|Hnot].
  - by apply (map_result_elem _ _ _ _ Hks) in Hkin.
  - destruct Hc. exists k. split; [by apply list_elem_of_In|]. by rewrite bool_decide_eq_false_2.
Qed.

Lemma journal_step_inv r r' P H : journal_step r r' → journal_inv (run_journal r) P H → passed P r →
  ∃ P' H', grows P P' ∧ journal_inv (run_journal r') P' H' ∧ passed P' r'.
Proof.
  intros Hstep Hi Hp. assert (grows P P) as Hrefl by done.
  destruct Hstep as [r w|r pid actor j Hc|r pid ids j Hc|r p prov Hv|r p prov at_ Hv|r pid to prov ids receipt Hc|r pid to prov ids receipt k Hc]; simpl in *.
  - exists P, H. split; [done|]. split; [|done]. by apply (inv_same (run_journal r)).
  - destruct (require_approver_ok _ _ _ _ _ _ Hi Hc) as [-> Hok]. exists P, H. split; [done|]. split; [done|].
    split; [|apply Hp]. intros pid' actor' [[= -> ->]|Hin]%elem_of_cons; [done|by apply Hp].
  - destruct (require_governed_ok _ _ _ _ _ _ Hi Hc) as [-> Hok]. exists P, H. split; [done|]. split; [done|].
    split; [apply Hp|]. intros pid' ids' [[= -> ->]|Hin]%elem_of_cons; [done|by apply Hp].
  - destruct (propose_inv r p prov whole P H Hi Hp Hv) as (P' & H' & Hg & Hi'). exists P', H'. split; [done|]. rewrite propose_appended.
    split; [done|]. by apply (passed_mono P).
  - destruct at_ as [k|k].
    + destruct (proposed_inv r p k P H Hi Hv) as (P' & Hg & Hi'). exists P', H. split; [done|]. split; [done|]. by apply (passed_mono P).
    + destruct (propose_inv r p prov (λ _, k) P H Hi Hp Hv) as (P' & H' & Hg & Hi'). exists P', H'. split; [done|]. split; [done|]. by apply (passed_mono P).
  - destruct (appended_inv r pid to prov ids receipt whole P H Hi Hp Hc) as (H' & Hi'). exists P, H'. split; [done|]. by rewrite transition_appended.
  - destruct (appended_inv r pid to prov ids receipt (λ _, k) P H Hi Hp Hc) as (H' & Hi'). by exists P, H'.
Qed.
Lemma journal_reachable_inv w ticks r : rtc journal_step (fresh_run w ticks) r → ∃ P H, journal_inv (run_journal r) P H ∧ passed P r.
Proof.
  intros Hr. apply (rtc_ind_r (λ r, ∃ P H, journal_inv (run_journal r) P H ∧ passed P r)) in Hr; [done| |].
  - exists [], []. split; [|split; intros ? ? []%elem_of_nil]. split; [split; constructor|]. split; [constructor|]. left. split; by left.
  - intros r1 r2 _ Hstep (P & H & Hi & Hp). destruct (journal_step_inv r1 r2 P H Hstep Hi Hp) as (P' & H' & _ & Hi' & Hp'). by exists P', H'.
Qed.

(** ** Every public call is a run of steps

    The methods that write: each answers the event that it appended.  The others,
    [proposals], [events] and [state], only read. *)
Inductive writing_call : prog J RefinementEvent → Prop :=
  | call_propose p prov : validate_RefinementProposal p = Ok p → writing_call (propose p prov)
  | call_canary pid prov ids : writing_call (authorize_canary approvers _evidence_exists clock pid prov ids)
  | call_record_canary pid prov passed ids receipt : writing_call (record_canary _evidence_exists clock pid prov passed ids receipt)
  | call_approve pid prov ids : writing_call (approve approvers _evidence_exists clock pid prov ids)
  | call_reject pid prov ids : writing_call (reject approvers _evidence_exists clock pid prov ids)
  | call_promotion pid prov ids : writing_call (authorize_promotion approvers _evidence_exists _evidence_kind clock pid prov ids)
  | call_promoted pid prov ids receipt : writing_call (record_promoted _evidence_exists clock pid prov ids receipt)
  | call_rollback pid prov ids : writing_call (authorize_rollback approvers _evidence_exists clock pid prov ids)
  | call_rolled_back pid prov ids receipt : writing_call (record_rolled_back _evidence_exists clock pid prov ids receipt).

Lemma require_approver_frame pid actor j : (require_approver pid actor j).1 = j.
Proof.
  unfold _require_approver. rewrite prog_bind_eq. cbn. rewrite prog_bind_eq. unfold lift at 1. destruct (proposals j) as [known|]; [|done].
  destruct (known !! pid); [|done]. unfold raise_if. by destruct (_ || _).
Qed.
Lemma require_governed_frame pid ids j : (require_governed pid ids j).1 = j.
Proof.
  unfold _require_governed_promotion_evidence. destruct _evidence_kind as [kind|]; [|done]. rewrite prog_bind_eq. cbn. rewrite prog_bind_eq.
  unfold lift at 1. destruct (proposals j) as [known|]; [|done]. destruct (known !! pid) as [p|]; [|done]. rewrite prog_bind_eq.
  unfold lift at 1. destruct (map_result kind ids); [|done]. unfold raise_if. by case_match.
Qed.
Lemma approved_transition_steps r pid to prov ids : to ≠ PROMOTION_AUTHORIZED →
  ∃ r', rtc journal_step r r' ∧ run_journal r' = ((require_approver pid (pv_actor prov) ;; transition pid to prov ids None) (run_journal r)).1.
Proof.
  intros Hto. rewrite prog_bind_eq. pose proof (require_approver_frame pid (pv_actor prov) (run_journal r)) as Hf.
  destruct (require_approver pid (pv_actor prov) (run_journal r)) as [j [[]|err]] eqn:Hc; simpl in Hf; subst j; [|by exists r].
  eexists. split; [eapply rtc_l; [by apply (step_approver _ _ _ _ Hc)|]; apply rtc_once, (step_transition _ pid to prov ids None)|done].
  split; [intros _; left|done].
Qed.
Lemma calls_are_steps m r : writing_call m → ∃ r', rtc journal_step r r' ∧ run_journal r' = (m (run_journal r)).1.
Proof.
  assert (∀ pid to prov ids receipt, needs_approver to = false → ∃ r', rtc journal_step r r' ∧ run_journal r' = (transition pid to prov ids receipt (run_journal r)).1) as Hfree.
  { intros pid to prov ids receipt Hn. eexists. split; [apply rtc_once, (step_transition _ pid to prov ids receipt)|done].
    split; [by rewrite Hn|]. by intros ->. }
  intros [p prov Hv|pid prov ids|pid prov ok ids receipt|pid prov ids|pid prov ids|pid prov ids|pid prov ids receipt|pid prov ids|pid prov ids receipt];
    try (by apply approved_transition_steps); try (by apply Hfree).
  - eexists. split; [by apply rtc_once, (step_propose _ p prov)|done].
  - apply Hfree. by destruct ok.
  - unfold authorize_promotion. rewrite prog_bind_eq. pose proof (require_approver_frame pid (pv_actor prov) (run_journal r)) as Hf.
    destruct (require_approver pid (pv_actor prov) (run_journal r)) as [j [[]|err]] eqn:Hc; simpl in Hf; subst j; [|by exists r].
    rewrite prog_bind_eq. pose proof (require_governed_frame pid ids (run_journal r)) as Hf.
    destruct (require_governed pid ids (run_journal r)) as [j [[]|err]] eqn:Hg; simpl in Hf; subst j; [|by exists r].
    eexists. split; [eapply rtc_l; [by apply (step_approver _ _ _ _ Hc)|]; eapply rtc_l; [by eapply step_evidence|];
      apply rtc_once, (step_transition _ pid PROMOTION_AUTHORIZED prov ids None)|done].
    split; intros _; left.
Qed.

(** ** The events of one proposal *)
Definition about (pid : string) H : list RefinementEvent := List.filter (λ e, bool_decide (rv_proposal_id e = pid)) H.
Lemma governed_prefix P H H' : governed P (H ++ H') → governed P H.
Proof.
  induction H' as [|e H' IH] using rev_ind; [by rewrite app_nil_r|]. rewrite app_assoc. intros Hg. apply IH. inversion Hg as [E|? ? ? Hg' _ E].
  - by destruct (H ++ H').
  - by apply app_inj_tail in E as [<- _].
Qed.
Lemma governed_last P H e : governed P (H ++ [e]) → ∃ p, admissible P H e p.
Proof.
  intros Hg. inversion Hg as [E|H0 e0 p _ Ha E]; [by destruct H|]. apply app_inj_tail in E as [E1 E2]. subst. by exists p.
Qed.
(** The event that put the proposal in its state. *)
Lemma current_event P H pid s : governed P H → current_state H pid = Some s →
  ∃ H0 e p, governed P H0 ∧ admissible P H0 e p ∧ rv_proposal_id e = pid ∧ rv_to_state e = s ∧ about pid H = about pid H0 ++ [e].
Proof.
  induction 1 as [|H e p Hg IH Ha]; [done|]. unfold current_state. rewrite List.filter_app. cbn [List.filter].
  case_bool_decide as Hid.
  - rewrite last_snoc. intros [= <-]. exists H, e, p. split; [done|]. split; [done|]. split; [done|]. split; [done|].
    unfold about. rewrite List.filter_app. cbn [List.filter]. by rewrite bool_decide_eq_true_2.
  - rewrite app_nil_r. intros Hs. destruct (IH Hs) as (H0 & e0 & p0 & ? & ? & ? & ? & Hab). exists H0, e0, p0. repeat (split; [done|]).
    unfold about in *. rewrite List.filter_app. cbn [List.filter]. by rewrite bool_decide_eq_false_2, app_nil_r.
Qed.
Lemma no_state_no_events H pid : current_state H pid = None → about pid H = [].
Proof. unfold current_state, about. destruct (List.filter _ H) as [|e l]; [done|]. destruct (last (e :: l)) eqn:E; [done|]. by apply last_None in E. Qed.

(** The only way into each state of the promotion. *)
Lemma legal_before s to : to ∈ _REFINEMENT_TRANSITIONS s → to ∈ [R_PROPOSED; CANARY_AUTHORIZED; CANARY_PASSED; APPROVED; PROMOTION_AUTHORIZED; PROMOTED] →
  s = match to with
      | R_PROPOSED => None | CANARY_AUTHORIZED => Some R_PROPOSED | CANARY_PASSED => Some CANARY_AUTHORIZED | APPROVED => Some CANARY_PASSED
      | PROMOTION_AUTHORIZED => Some APPROVED | _ => Some PROMOTION_AUTHORIZED end.
Proof. destruct s as [[]|]; simpl; set_solver. Qed.
Lemma step_back P H e p : admissible P H e p → governed P H →
  rv_to_state e ∈ [CANARY_AUTHORIZED; CANARY_PASSED; APPROVED; PROMOTION_AUTHORIZED; PROMOTED] →
  ∃ H0 e0, governed P H0 ∧ about (rv_proposal_id e) H = about (rv_proposal_id e) H0 ++ [e0] ∧ rv_proposal_id e0 = rv_proposal_id e ∧
    (∃ p0, admissible P H0 e0 p0) ∧ Some (rv_to_state e0) = match rv_to_state e with
      | CANARY_AUTHORIZED => Some R_PROPOSED | CANARY_PASSED => Some CANARY_AUTHORIZED | APPROVED => Some CANARY_PASSED
      | PROMOTION_AUTHORIZED => Some APPROVED | _ => Some PROMOTION_AUTHORIZED end.
Proof.
  intros Ha Hg Hto. pose proof (legal_before _ _ (ad_legal _ _ _ _ Ha) ltac:(set_solver)) as Hfrom. rewrite (ad_from _ _ _ _ Ha) in Hfrom.
  assert (∃ s, current_state H (rv_proposal_id e) = Some s) as [s Hs].
  { revert Hto Hfrom. clear. destruct (rv_to_state e); intros; eauto; set_solver. }
  destruct (current_event P H _ s Hg Hs) as (H0 & e0 & p0 & Hg0 & Ha0 & Hid & Hto0 & Hab).
  exists H0, e0. split; [done|]. split; [done|]. split; [done|]. split; [by exists p0|]. rewrite Hto0, <- Hs, Hfrom. revert Hto. clear.
  destruct (rv_to_state e); intros; try reflexivity; set_solver.
Qed.

(** C36: Only governed promotions.  Over any calls from any processes, the checks of
    one interleaved with the appends of others, and with processes killed at any byte
    of an append, every promotion that the journal can ever show has this history and
    no other event of its proposal before it: proposed, canary authorized by an
    independent approver, canary passed with a receipt, approved and promotion
    authorized by independent approvers on every class of evidence that the target
    requires; all events carry the digest of the one recorded proposal. *)
Theorem promotion_governed w ticks r evs pre e post : rtc journal_step (fresh_run w ticks) r → events (run_journal r) = Ok evs →
  evs = pre ++ e :: post → rv_to_state e = PROMOTED →
  ∃ p proposed canary passed approved authorized,
    about (rv_proposal_id e) pre = [proposed; canary; passed; approved; authorized] ∧
    rv_to_state <$> [proposed; canary; passed; approved; authorized] = [R_PROPOSED; CANARY_AUTHORIZED; CANARY_PASSED; APPROVED; PROMOTION_AUTHORIZED] ∧
    rp_id p = rv_proposal_id e ∧
    Forall (λ x, rv_proposal_hash x = proposal_digest p ∧ rv_evidence_ids x ≠ []) [proposed; canary; passed; approved; authorized; e] ∧
    Forall (λ x, independent p (pv_actor (rv_provenance x))) [canary; approved; authorized] ∧
    Forall (λ x, ∃ receipt, rv_receipt x = Some receipt ∧ receipt ≠ "") [passed; e] ∧
    governed_evidence p (rv_evidence_ids authorized).
Proof.
  intros Hreach He -> Hto. destruct (journal_reachable_inv _ _ _ Hreach) as (P & H & (Hwf & Hg & Hfiles) & _).
  assert (H = pre ++ e :: post) as ->.
  { assert (events_hold (run_journal r) H ∨ ∃ err, events (run_journal r) = Err err) as [Hh|[err Herr]] by (destruct Hfiles as [[_ ?]|[_ ?]]; auto).
    - rewrite (readable_events _ _ Hh (governed_chained _ _ Hg)) in He. congruence.
    - congruence. }
  rewrite cons_middle, app_assoc in Hg. apply governed_prefix in Hg. destruct (governed_last _ _ _ Hg) as [p Ha]. apply governed_prefix in Hg.
  destruct (step_back _ _ _ _ Ha Hg) as (H5 & e5 & Hg5 & Hab5 & Hid5 & (p5 & Ha5) & Hto5); [rewrite Hto; set_solver|]. rewrite Hto in Hto5. injection Hto5 as Hto5.
  destruct (step_back _ _ _ _ Ha5 Hg5) as (H4 & e4 & Hg4 & Hab4 & Hid4 & (p4 & Ha4) & Hto4); [rewrite Hto5; set_solver|]. rewrite Hto5 in Hto4. injection Hto4 as Hto4.
  destruct (step_back _ _ _ _ Ha4 Hg4) as (H3 & e3 & Hg3 & Hab3 & Hid3 & (p3 & Ha3) & Hto3); [rewrite Hto4; set_solver|]. rewrite Hto4 in Hto3. injection Hto3 as Hto3.
  destruct (step_back _ _ _ _ Ha3 Hg3) as (H2 & e2 & Hg2 & Hab2 & Hid2 & (p2 & Ha2) & Hto2); [rewrite Hto3; set_solver|]. rewrite Hto3 in Hto2. injection Hto2 as Hto2.
  destruct (step_back _ _ _ _ Ha2 Hg2) as (H1 & e1 & Hg1 & Hab1 & Hid1 & (p1 & Ha1) & Hto1); [rewrite Hto2; set_solver|]. rewrite Hto2 in Hto1. injection Hto1 as Hto1.
  assert (about (rv_proposal_id e1) H1 = []) as Hab0.
  { apply no_state_no_events. pose proof (legal_before _ _ (ad_legal _ _ _ _ Ha1)) as Hl. rewrite Hto1, (ad_from _ _ _ _ Ha1) in Hl. apply Hl. set_solver. }
  assert (∀ H' e' p', admissible P H' e' p' → rv_proposal_id e' = rv_proposal_id e → p' = p) as Hsame.
  { intros H' e' p' Ha' Hid. apply (same_id P); [done|apply Ha'|apply Ha|]. destruct (ad_proposal _ _ _ _ Ha') as (_ & -> & _).
    destruct (ad_proposal _ _ _ _ Ha) as (_ & -> & _). done. }
  rewrite Hid5 in *. rewrite Hid4 in *. rewrite Hid3 in *. rewrite Hid2 in *. rewrite Hid1 in *.
  rewrite (Hsame _ _ _ Ha5) in Ha5 by done. rewrite (Hsame _ _ _ Ha4) in Ha4 by done. rewrite (Hsame _ _ _ Ha3) in Ha3 by done.
  rewrite (Hsame _ _ _ Ha2) in Ha2 by done. rewrite (Hsame _ _ _ Ha1) in Ha1 by done.
  exists p, e1, e2, e3, e4, e5. split; [by rewrite Hab5, Hab4, Hab3, Hab2, Hab1, Hab0|]. split; [cbn; congruence|]. split; [apply Ha|].
  split; [|split; [|split]].
  - repeat (constructor; [split; [eapply ad_proposal; eassumption|eapply ad_evidence; eassumption]|]). constructor.
  - constructor; [apply (ad_approver _ _ _ _ Ha2); by rewrite Hto2|]. constructor; [apply (ad_approver _ _ _ _ Ha4); by rewrite Hto4|].
    constructor; [apply (ad_approver _ _ _ _ Ha5); by rewrite Hto5|constructor].
  - constructor; [apply (ad_receipt _ _ _ _ Ha3); rewrite Hto3; set_solver|].
    constructor; [apply (ad_receipt _ _ _ _ Ha); rewrite Hto; set_solver|constructor].
  - exact (ad_governed _ _ _ _ Ha5 Hto5).
Qed.

(** ** Unreadable journals *)
Lemma blocked_prepare j err pid to prov ids receipt : proposals j = Err err →
  ∃ j' e, prepare pid to prov ids receipt j = (j', Err e) ∧ same_files j j'.
Proof.
  intros Hp. pose proof (prepare_frame pid to prov ids receipt j) as Hf. destruct (prepare pid to prov ids receipt j) as [j' [e|e]] eqn:Hrun.
  - apply prepare_ok in Hrun as (_ & known & _ & _ & Hk & _). congruence.
  - by exists j', e.
Qed.
Lemma blocked_propose j err p : proposals j = Err err → ∃ j' e, prepare_propose p j = (j', Err e) ∧ same_files j j'.
Proof.
  intros Hp. pose proof (prepare_propose_frame p j) as Hf. destruct (prepare_propose p j) as [j' [[]|e]] eqn:Hrun.
  - apply prepare_propose_ok in Hrun as (_ & known & Hk & _). congruence.
  - by exists j', e.
Qed.
Definition refuses {A} (m : prog J A) : Prop := ∀ j err, proposals j = Err err → is_ok (m j).2 = false ∧ same_files j (m j).1.
Lemma refuses_bind {A B} (m : prog J A) (k : A → prog J B) : refuses m → refuses (m ≫= k).
Proof. intros Hm j err Hp. destruct (Hm j err Hp) as [Hr Hs]. rewrite prog_bind_eq. destruct (m j) as [j' [a|e]]; [done|]. done. Qed.
Lemma refuses_prepare pid to prov ids receipt : refuses (prepare pid to prov ids receipt).
Proof. intros j err Hp. by destruct (blocked_prepare j err pid to prov ids receipt Hp) as (j' & e & -> & ?). Qed.
Lemma refuses_propose p : refuses (prepare_propose p).
Proof. intros j err Hp. by destruct (blocked_propose j err p Hp) as (j' & e & -> & ?). Qed.
Lemma refuses_approver pid actor : refuses (require_approver pid actor).
Proof.
  intros j err Hp. rewrite require_approver_frame. split; [|done]. unfold _require_approver. rewrite prog_bind_eq. cbn. rewrite prog_bind_eq.
  unfold lift at 1. by rewrite Hp.
Qed.
Lemma step_blocked r r' err : proposals (run_journal r) = Err err → journal_step r r' → same_files (run_journal r) (run_journal r').
Proof.
  intros Hp Hstep. destruct Hstep as [r w|r pid actor j Hc|r pid ids j Hc|r p prov _|r p prov at_ _|r pid to prov ids receipt _|r pid to prov ids receipt k _];
    cbn [run_journal on_journal].
  - done.
  - pose proof (require_approver_frame pid actor (run_journal r)) as Hf. rewrite Hc in Hf. by simpl in Hf; subst.
  - pose proof (require_governed_frame pid ids (run_journal r)) as Hf. rewrite Hc in Hf. by simpl in Hf; subst.
  - by apply (refuses_bind _ _ (refuses_propose p) _ err).
  - by apply (refuses_bind _ _ (refuses_propose p) _ err).
  - by apply (refuses_bind _ _ (refuses_prepare pid to prov ids receipt) _ err).
  - by apply (refuses_bind _ _ (refuses_prepare pid to prov ids receipt) _ err).
Qed.

(** C37: An unreadable journal is final.  Once the proposals do not read back, as after
    a process was killed inside the line of an append, no call ever changes a file
    again: from then on [proposals] and every method that writes raise, and what
    [events] and [state], which do not read the proposals, answer stays as it was. *)
Theorem unreadable_is_final r r' err : proposals (run_journal r) = Err err → rtc journal_step r r' →
  same_files (run_journal r) (run_journal r') ∧ proposals (run_journal r') = Err err ∧
  (∀ m, writing_call m → is_ok (m (run_journal r')).2 = false ∧ same_files (run_journal r') (m (run_journal r')).1) ∧
  events (run_journal r') = events (run_journal r) ∧
  ∀ pid, state pid (run_journal r') = state pid (run_journal r).
Proof.
  intros Hp Hsteps. assert (same_files (run_journal r) (run_journal r')) as Hs.
  { apply (rtc_ind_r (λ r', same_files (run_journal r) (run_journal r'))) in Hsteps; [done|done|]. intros r1 r2 _ Hstep Hs.
    transitivity (run_journal r1); [done|]. apply (step_blocked r1 r2 err); [|done]. by rewrite (proj1 (same_files_reads _ _ Hs)). }
  destruct (same_files_reads _ _ Hs) as [Ep Ee].
  split; [done|]. assert (proposals (run_journal r') = Err err) as Hp' by (by rewrite Ep).
  split; [done|]. split; [|split; [done|intros pid; unfold state; by rewrite Ee]].
  intros m Hcall. destruct Hcall; first [exact (refuses_bind _ _ (refuses_propose _) _ err Hp') | exact (refuses_bind _ _ (refuses_approver _ _) _ err Hp')
    | exact (refuses_bind _ _ (refuses_prepare _ _ _ _ _) _ err Hp')].
Qed.

(** ** What a transition does on an undamaged journal *)
Definition clean j P H : Prop :=
  default "" (rj_proposals j) = lines_text (texts P) ∧ default "" (rj_events j) = lines_text (texts H).
Lemma clean_readable j P H : clean j P H → readable j P H.
Proof. intros [??]. by split; left. Qed.
Lemma append_clean j P H e : clean j P H → clean (append_event_bytes e (whole e) j).1 P (H ++ [e]).
Proof.
  intros [Hp He]. split; [exact Hp|]. cbn [append_event_bytes modify put_events rj_events fst default from_option id]. rewrite He, line_texts_snoc, lines_text_app.
  cbn [lines_text]. rewrite str_app_nil_r. f_equal. apply substring_whole.
Qed.
(** What the rules of the journal ask of a transition, when the evidence is known or not. *)
Definition permitted H (pid : string) (to : RefinementState) (ids : list string) (receipt : option string) (unknown : bool) : bool :=
  negb (bool_decide (evidence_set ids = [])) && negb unknown &&
  negb (bool_decide (to ∈ external_states) && match receipt with Some r => is_empty_str r | None => true end) &&
  bool_decide (to ∈ _REFINEMENT_TRANSITIONS (current_state H pid)).

Local Ltac refused Hf := eexists _, _; split; [reflexivity|first [exact Hf|done]].
Lemma transition_cases j P H p to prov ids receipt j1 unknown :
  wf_proposals P → governed P H → clean j P H → p ∈ P → any_unknown _evidence_exists (evidence_set ids) j = (j1, Ok unknown) →
  let e := drafted p H to prov ids receipt (rj_ticks j1) in
  if permitted H (rp_id p) to ids receipt unknown then
    ∃ j', transition (rp_id p) to prov ids receipt j = (j', Ok e) ∧ clean j' P (H ++ [e]) ∧ events j' = Ok (H ++ [e])
  else ∃ j' msg, transition (rp_id p) to prov ids receipt j = (j', Err (Exn CollaborationError msg)) ∧ same_files j j'.
Proof.
  intros Hwf Hg Hc Hp Hu e. pose proof (clean_readable _ _ _ Hc) as Hr.
  pose proof (any_unknown_frame (evidence_set ids) j) as Hf. rewrite Hu in Hf. simpl in Hf.
  unfold _transition, prepare_transition. rewrite prog_bind_eq, (prog_bind_eq (gets _)). unfold gets. cbv beta match. rewrite prog_bind_eq. unfold lift.
  rewrite (readable_proposals j P H Hr Hwf Hg). cbv beta match. rewrite (proj2 (known_lookup P (rp_id p) p Hwf)) by done. unfold permitted.
  case_bool_decide as Hev; [refused Hf|]. rewrite prog_bind_eq, Hu. cbn [negb andb]. destruct unknown; [refused Hf|]. cbn [negb andb].
  rewrite prog_bind_eq. unfold raise_if. destruct (bool_decide (to ∈ external_states) && _); [refused Hf|]. cbn [negb andb].
  unfold mret, prog_ret. cbv beta match. rewrite prog_bind_eq.
  rewrite (readable_events j H (proj2 Hr) (governed_chained P H Hg)). cbv beta match. rewrite prog_bind_eq. unfold raise_if.
  case_bool_decide as Hleg; cbn [negb]; [|refused Hf].
  assert (clean (append_event_bytes e (whole e) {| rj_world := rj_world j1; rj_proposals := rj_proposals j1; rj_events := rj_events j1;
    rj_ticks := S (rj_ticks j1) |}).1 P (H ++ [e])) as Hclean.
  { apply append_clean. unfold clean. cbn. by rewrite (proj1 Hf), (proj2 Hf). }
  eexists. split; [reflexivity|]. split; [exact Hclean|].
  apply readable_events; [by apply (clean_readable _ P)|]. apply journal_chained_snoc; [by apply (governed_chained P)|done|done|done|].
  unfold validate_RefinementEvent, require. rewrite (proj2 (Z.leb_le _ _)); [done|]. simpl. lia.
Qed.

(** The outcome of a transition on an undamaged journal.  It succeeds exactly when
    there is evidence and all of it is known, an external result brings its receipt,
    and the state machine allows it from the state of the proposal; it then appends the
    event that continues the chain.  Otherwise it raises [CollaborationError] and
    changes no file. *)
Theorem transition_exact j P H p to prov ids receipt j1 unknown :
  wf_proposals P → governed P H → clean j P H → p ∈ P → any_unknown _evidence_exists (evidence_set ids) j = (j1, Ok unknown) →
  let e := drafted p H to prov ids receipt (rj_ticks j1) in
  if permitted H (rp_id p) to ids receipt unknown then
    ∃ j', transition (rp_id p) to prov ids receipt j = (j', Ok e) ∧ clean j' P (H ++ [e]) ∧ events j' = Ok (H ++ [e])
  else ∃ j' msg, transition (rp_id p) to prov ids receipt j = (j', Err (Exn CollaborationError msg)) ∧ same_files j j'.
Proof. apply transition_cases. Qed.
End facts.
