(* ===== verification/Grading.v ===== *)
(** * Work grading

    [autocode/grading.py]: the vocabulary of the grade, the reading of a model's
    grading reply and the capability floor.  The text of the rubric shown to the model
    is not modelled. *)
From S2P Require Import Prelude PyDict PyFloat Canonical Json PyText.
From Stdlib Require Import Ascii.
Local Open Scope Z_scope.

(** ** The vocabulary, [autocode/data/joule-grade-vocabulary.json] *)
Definition SIZE_VALUES : list string := ["S"; "M"; "L"; "XL"].
Definition RISK_VALUES : list string := ["low"; "med"; "high"; "crit"].
Definition SENSITIVITY_VALUES : list string := ["public"; "internal"; "secret"].
Definition SIZE_RANK : dict string Z := Dict [("S", 0); ("M", 1); ("L", 2); ("XL", 3)].
Definition RISK_RANK : dict string Z := Dict [("low", 0); ("med", 1); ("high", 2); ("crit", 3)].
Definition CLASS : list string := ["S"; "M"; "L"; "XL"].
Definition _GRADE_KEYS : list string := ["size"; "risk"; "sensitivity"].

Record Grade := { gr_size : string; gr_risk : string; gr_sensitivity : string }.
#[export] Instance Grade_eq_dec : EqDecision Grade.
Proof. solve_decision. Defined.
(** The member of [values] whose code points these are. *)
Definition member_of (values : list string) (points : list N) : option string :=
  find_first (λ v, bool_decide (code_points v = points)) values.

Section grading.
Context {PF : Platform} {FT : FloatText}.

(** ** The reply *)
(** [```(?:json)?\s*(.*?)```], found repeatedly: the opening fence, the word, the
    whitespace, then everything up to the next fence. *)
Definition fence : string := "```".
Definition skip_json_word (s : string) : string :=
  if bool_decide (py_lower (String.substring 0 4 s) = "json") then str_drop 4 s else s.
Fixpoint fences (fuel : nat) (s : string) : list string :=
  match fuel with
  | O => []
  | S fuel =>
      match split_first fence s with
      | None => []
      | Some (_, after) =>
          match split_first fence (lstrip (skip_json_word after)) with
          | None => []
          | Some (body, rest) => body :: fences fuel rest
          end
      end
  end.
Definition _candidate_texts (raw : string) : list string := fences (S (String.length raw)) raw ++ [raw].

(** [\{.*\}] with a dot that matches line ends: from the first brace to the last. *)
Definition object_span (text : string) : option string :=
  match split_first "{" text with
  | Some (_, after) => match upto_last "}" after with Some body => Some ("{" +:+ body) | None => None end
  | None => None
  end.
Definition digit_limit_error : exn := Exn ValueError "Exceeds the limit (4300 digits) for integer string conversion".
Definition _try_parse_object (text : string) : result json :=
  let text := strip text in
  if is_empty_str text then Ok JNull
  else match loads text with
       | Loaded j => Ok j
       | DigitLimit => Err digit_limit_error
       | DecodeError =>
           match object_span text with
           | None => Ok JNull
           | Some object =>
               match loads object with Loaded j => Ok j | DecodeError => Ok JNull | DigitLimit => Err digit_limit_error end
           end
       end.

Definition grade_key (k : string) : string := py_lower (strip k).
Definition carries_grade (ms : list (string * json)) : bool :=
  forallb (λ g, existsb (λ m, bool_decide (grade_key m.1 = g)) ms) _GRADE_KEYS.
Definition _select_grade_source (obj : json) : option (list (string * json)) :=
  match obj with
  | JObj ms =>
      if carries_grade ms then Some ms
      else match jget "grade" ms with
           | Some (JObj nested) => if carries_grade nested then Some nested else None
           | _ => None
           end
  | _ => None
  end.
(** [{str(k).strip().lower(): v for k, v in source.items()}] *)
Definition lowered (ms : list (string * json)) : dict string json := foldl (λ d m, <[grade_key m.1 := m.2]> d) ∅ ms.
Definition present (j : option json) : option json := match j with Some JNull => None | _ => j end.
Definition read_grade (source : list (string * json)) : option Grade :=
  let d := lowered source in
  size_raw ← present (d !! "size"); risk_raw ← present (d !! "risk"); sensitivity_raw ← present (d !! "sensitivity");
  size ← member_of SIZE_VALUES (py_upper (strip (py_str size_raw)));
  risk ← member_of RISK_VALUES (code_points (py_lower (strip (py_str risk_raw))));
  sensitivity ← member_of SENSITIVITY_VALUES (code_points (py_lower (strip (py_str sensitivity_raw))));
  Some {| gr_size := size; gr_risk := risk; gr_sensitivity := sensitivity |}.
Fixpoint first_grade (candidates : list string) : result (option Grade) :=
  match candidates with
  | [] => Ok None
  | candidate :: rest =>
      obj ← _try_parse_object candidate;
      match _select_grade_source obj with
      | None => first_grade rest
      | Some source => match read_grade source with Some g => Ok (Some g) | None => first_grade rest end
      end
  end.
Definition parse_grade (raw : json) : result (option Grade) :=
  match raw with
  | JStr raw => if blank raw then Ok None else first_grade (_candidate_texts raw)
  | _ => Ok None
  end.

(** ** The floor *)
Definition size_key (size : json) : list N := match size with JNull => [] | _ => py_upper (strip (py_str size)) end.
Definition risk_key (risk : json) : string := match risk with JNull => "" | _ => py_lower (strip (py_str risk)) end.
Definition model_class_for (size risk : json) : result string :=
  err_if (bool_decide (is_Some (member_of SIZE_VALUES (py_upper (risk_key risk))))) ValueError
    ("risk must not reuse a size label: " +:+ py_repr risk) ;;
  match member_of SIZE_VALUES (size_key size) with
  | None => Err (Exn ValueError ("unknown size: " +:+ py_repr size))
  | Some sk =>
      match SIZE_RANK !! sk, RISK_RANK !! risk_key risk with
      | None, _ => Err (Exn ValueError ("unknown size: " +:+ py_repr size))
      | Some _, None => Err (Exn ValueError ("unknown risk: " +:+ py_repr risk))
      | Some s, Some r => match CLASS !! Z.to_nat (Z.max s r) with Some c => Ok c | None => Err (Exn IndexError "tuple index out of range") end
      end
  end.
End grading.
