(* ===== verification/Buckets.v ===== *)
(** * Routing buckets and escalation

    [autocode/buckets.py], [autocode/routing_guard.py] and [autocode/escalation.py]: the
    bucket address of a graded card, the only attribute the routing layer may write on
    a brief, and the report of how often a run was served above its floor.  A card
    payload, a grade and a ledger row are JSON values. *)
From S2P Require Import Prelude PyDict PyFloat PyStats Canonical Json PyText.
From Stdlib Require Import Ascii.
Local Open Scope Z_scope.

(** ** Bucket ids *)
Definition BUCKET_CLASSES : list string := ["s"; "m"; "l"; "xl"].
Definition BUCKET_SENSITIVITIES : list string := ["public"; "internal"; "secret"].
Definition SENSITIVITY_RANK : dict string Z := Dict [("public", 0); ("internal", 1); ("secret", 2)].
Definition TIGHTEST_SENSITIVITY : string := "secret".
Definition DISPATCH_MODEL_ATTR : json := JStr "model".

Definition bucket_text (c z : string) : string := "sk-" +:+ c +:+ "-" +:+ z.
Definition newline : string := String (ascii_of_N 10) "".
(** One character of the expression against a code point, ignoring case: Python folds
    the upper case of a letter, and for three letters code points of other alphabets,
    the long s, the sign of the kelvin, and the i with a dot and the one without. *)
Definition folds_to (c : ascii) (p : N) : bool :=
  ((p =? N_of_ascii c) || ((97 <=? N_of_ascii c) && (N_of_ascii c <=? 122) && (p + 32 =? N_of_ascii c)) ||
   (Ascii.eqb c "s" && (p =? 383)) || (Ascii.eqb c "k" && (p =? 8490)) || (Ascii.eqb c "i" && ((p =? 304) || (p =? 305))))%N.
Fixpoint spells (text : string) (points : list N) : bool :=
  match text, points with
  | EmptyString, [] => true
  | String c text, p :: points => folds_to c p && spells text points
  | _, _ => false
  end.
(** [BUCKET_RE.match]: [^sk-(s|m|l|xl)-(public|internal|secret)$], ignoring case; the
    [$] of Python also matches before a line end that closes the text. *)
Definition bucket_match (points : list N) : option (string * string) :=
  find_first (λ cz, let t := bucket_text cz.1 cz.2 in spells t points || spells (t +:+ newline) points)
    (list_prod BUCKET_CLASSES BUCKET_SENSITIVITIES).
(** The two groups of the match. *)
Definition bucket_groups (s : string) : option (string * string) :=
  '(c, z) ← bucket_match (code_points s);
  Some (String.substring 3 (String.length c) s, String.substring (4 + String.length c) (String.length z) s).

Definition jopt {A} (f : A → json) (o : option A) : json := match o with Some x => f x | None => JNull end.
Section buckets.
Context {PF : Platform}.

Definition validate_bucket (bucket : json) : result string :=
  match bucket with
  | JStr s =>
      err_if (negb (bool_decide (s = py_lower s))) BucketError ("bucket id must be lowercase on the wire: " +:+ repr_str s) ;;
      err_if (bool_decide (bucket_groups s = None)) BucketError
        ("refusing to send " +:+ repr_str s +:+ ": it does not match the skgateway bucket " +:+
         "grammar sk-(s|m|l|xl)-(public|internal|secret). skgateway would NOT " +:+
         "reject it; it would fall through to defaults.role (sk-auto) and answer " +:+
         "200 from an arbitrary model with no sensitivity ceiling.") ;;
      Ok s
  | _ => Err (Exn BucketError ("bucket id must be a string, got " +:+ type_name bucket))
  end.
(** [repr] of a tuple of strings *)
Definition repr_tuple (xs : list string) : string := "(" +:+ str_join ", " (map repr_str xs) +:+ ")".
Definition bucket_id (model_class sensitivity : json) : result string :=
  match model_class, sensitivity with
  | JStr c, JStr z =>
      let cls := py_lower (strip c) in
      let zone := py_lower (strip z) in
      err_if (negb (bool_decide (cls ∈ BUCKET_CLASSES))) BucketError
        ("unknown model_class " +:+ repr_str c +:+ "; expected one of " +:+ repr_tuple BUCKET_CLASSES) ;;
      err_if (negb (bool_decide (zone ∈ BUCKET_SENSITIVITIES))) BucketError
        ("unknown sensitivity " +:+ repr_str z +:+ "; expected one of " +:+ repr_tuple BUCKET_SENSITIVITIES) ;;
      validate_bucket (JStr (bucket_text cls zone))
  | _, _ => Err (Exn BucketError ("model_class and sensitivity must both be strings, got " +:+
      type_name model_class +:+ " and " +:+ type_name sensitivity))
  end.
(** The grade of a card, an object, or [None]. *)
Definition work_grade (payload : json) : option (list (string * json)) :=
  match payload with
  | JObj ms => match jget "work_grade" ms with Some (JObj grade) => Some grade | _ => None end
  | _ => None
  end.
Definition bucket_for_grade (grade : json) : result string :=
  match grade with
  | JObj ms =>
      match jget "model_class" ms, jget "sensitivity" ms with
      | Some c, Some z => bucket_id c z
      | _, _ => Err (Exn BucketError
          ("work grade is missing model_class and/or sensitivity; the contract is a " +:+
           "COMPLETE grade or None, never partial. got keys: " +:+ repr_strs (sorted_str ms.*1)))
      end
  | _ => Err (Exn BucketError ("work grade must be a dict, got " +:+ type_name grade))
  end.
Definition bucket_for_payload (payload : json) : result (option string) :=
  match work_grade payload with
  | None => Ok None
  | Some grade => b ← bucket_for_grade (JObj grade); Ok (Some b)
  end.
Definition ungraded_floor_bucket : result string := bucket_id (JStr "s") (JStr TIGHTEST_SENSITIVITY).
Definition sensitivity_rank_of (zone : string) : result Z :=
  match SENSITIVITY_RANK !! py_lower zone with Some r => Ok r | None => Err (Exn KeyError (repr_str zone)) end.
Definition is_wider_than (bucket other : string) : result bool :=
  b ← validate_bucket (JStr bucket); o ← validate_bucket (JStr other);
  match bucket_groups b, bucket_groups o with
  | Some l, Some r => x ← sensitivity_rank_of l.2; y ← sensitivity_rank_of r.2; Ok (x <? y)
  | _, _ => Err (Exn BucketError ("unparseable bucket pair: " +:+ repr_str bucket +:+ ", " +:+ repr_str other))
  end.

(** ** The fence around the routing layer's write *)
Definition _ROUTING_ONLY_FIELDS : list string := ["model"].
Definition _GATE_DECISION_FIELDS : list string := [
  "score"; "passed"; "notes"; "artifact"; "mode"; "ci_status"; "diff_coverage"; "acceptance"; "acceptance_criteria";
  "updated_acceptance"; "verdict"; "reason"; "updated_description"; "subtasks"; "ratified"; "ratification"; "ratify";
  "escalate"; "escalated"; "human_review"; "automerge"].
Definition assert_routing_field (name : json) : result string :=
  let refuse (gate_hit : bool) := Err (Exn RoutingScopeViolation
    ("routing refused to set " +:+ py_repr name +:+ ": only " +:+ repr_strs (sorted_str _ROUTING_ONLY_FIELDS) +:+ " " +:+
     "may ever be written by the routing layer (which adapter, model, and " +:+ "effort tier attempts a card). " +:+
     (if gate_hit then py_repr name +:+ " is a gate-decision field (twin gate / CI requirement / " +:+
        "acceptance criteria / human ratification) and must never be " +:+ "reachable from routing."
      else py_repr name +:+ " is not a recognised routing field either."))) in
  match name with
  | JStr s => if bool_decide (s ∈ _ROUTING_ONLY_FIELDS) then Ok s else refuse (bool_decide (s ∈ _GATE_DECISION_FIELDS))
  | _ => refuse false
  end.
(** The brief is its table of attributes; [attr] is the value the module constant
    [DISPATCH_MODEL_ATTR] has at the call, which is read once. *)
Definition attach_dispatch_model (attr : json) (brief : dict string json) (model_id : option string) : result (dict string json) :=
  match model_id with Some m => validate_bucket (JStr m) ;; Ok tt | None => Ok tt end ;;
  field ← assert_routing_field attr;
  Ok (<[field := jopt JStr model_id]> brief).
(** [getattr] with a name that is not a string raises. *)
Definition dispatch_model_of (attr : json) (brief : dict string json) : result json :=
  match attr with
  | JStr name => Ok (default JNull (brief !! name))
  | _ => Err (Exn TypeError ("attribute name must be string, not '" +:+ type_name attr +:+ "'"))
  end.
End buckets.

(** ** Escalation: what served against the floor *)
Definition ESCALATED : string := "escalated".
Definition WITHIN_FLOOR : string := "within_floor".
Definition UNOBSERVED : string := "unobserved".
Definition ESCALATION_STATES : list string := [ESCALATED; WITHIN_FLOOR; UNOBSERVED].
Definition CLASS_RANK : dict string Z := Dict (zip_with (λ i c, (c, Z.of_nat i)) (seq 0 (length BUCKET_CLASSES)) BUCKET_CLASSES).
Definition REASON_KEY : string := "escalation_reason".

Definition served_class (model_served : json) : option string :=
  match model_served with
  | JStr s => '(c, _) ← bucket_groups (strip s); let cls := py_lower c in if has_key cls CLASS_RANK then Some cls else None
  | _ => None
  end.
Definition floor_class (work_grade : json) : option string :=
  match work_grade with
  | JObj ms => match jget "model_class" ms with
               | Some (JStr raw) => let cls := py_lower (strip raw) in if has_key cls CLASS_RANK then Some cls else None
               | _ => None end
  | _ => None
  end.
(** No step of the comparison raises, so the handler of the code is not reached. *)
Definition class_state (floor served : option string) : string :=
  match floor, served with
  | Some f, Some s =>
      if (default 0 (CLASS_RANK !! f) <? default 0 (CLASS_RANK !! s)) then ESCALATED else WITHIN_FLOOR
  | _, _ => UNOBSERVED
  end.
Definition classify (work_grade model_served : json) : list (string * json) :=
  let floor := floor_class work_grade in
  let served := served_class model_served in
  [("escalation_state", JStr (class_state floor served)); ("escalation_floor_class", jopt JStr floor);
   ("escalation_served_class", jopt JStr served)].
Definition clean_reason (reason : json) : option string :=
  match reason with JStr s => let cleaned := strip s in if is_empty_str cleaned then None else Some cleaned | _ => None end.
Definition reason_from_payload (payload : json) : option string :=
  match payload with JObj ms => clean_reason (jget_or_none REASON_KEY ms) | _ => None end.
Definition unobserved_row (reason : json) (with_reason : bool) : list (string * json) :=
  [("escalation_state", JStr UNOBSERVED); ("escalation_floor_class", JNull); ("escalation_served_class", JNull)] ++
  (if with_reason then [(REASON_KEY, jopt JStr (clean_reason reason))] else []).
Definition escalation_row (work_grade model_served reason : json) : list (string * json) :=
  classify work_grade model_served ++ [(REASON_KEY, jopt JStr (clean_reason reason))].

(** ** Rates per class *)
Record stratum := { st_rows : Z; st_escalated : Z; st_within_floor : Z; st_unobserved : Z; st_escalated_without_reason : Z }.
Definition _empty_stratum : stratum := {|
  st_rows := 0; st_escalated := 0; st_within_floor := 0; st_unobserved := 0; st_escalated_without_reason := 0 |}.
Record finished := {
  fi_stratum : stratum; fi_observed : Z; fi_observed_fraction : float; fi_escalation_rate : option float }.
Definition int_div (n d : Z) : float := rnd_q (n * f_unit) d.
Definition _finish (s : stratum) : finished :=
  let observed := st_escalated s + st_within_floor s in {|
  fi_stratum := s; fi_observed := observed;
  fi_observed_fraction := if st_rows s =? 0 then 0 else int_div observed (st_rows s);
  fi_escalation_rate := if observed =? 0 then None else Some (int_div (st_escalated s) observed) |}.
Definition tally (state : string) (without_reason : bool) (s : stratum) : stratum := {|
  st_rows := st_rows s + 1;
  st_escalated := st_escalated s + (if bool_decide (state = ESCALATED) then 1 else 0);
  st_within_floor := st_within_floor s + (if bool_decide (state = WITHIN_FLOOR) then 1 else 0);
  st_unobserved := st_unobserved s + (if bool_decide (state = UNOBSERVED) then 1 else 0);
  st_escalated_without_reason := st_escalated_without_reason s + (if bool_decide (state = ESCALATED) && without_reason then 1 else 0) |}.
(** What one row adds: nothing, a row without a floor, or a row of a class; a list or
    an object has no hash, so looking the state up in the set raises. *)
Inductive row_read := SkipRow | Ungraded | Row (cls state : string) (without_reason : bool) | Unhashable.
Definition read_row (row : json) : row_read :=
  match row with
  | JObj ms =>
      match jget "escalation_floor_class" ms with
      | Some (JStr cls) =>
          if has_key cls CLASS_RANK then
            let without := bool_decide (clean_reason (jget_or_none REASON_KEY ms) = None) in
            match jget_or_none "escalation_state" ms with
            | JArr _ | JObj _ => Unhashable
            | JStr s => Row cls (if bool_decide (s ∈ ESCALATION_STATES) then s else UNOBSERVED) without
            | _ => Row cls UNOBSERVED without
            end
          else Ungraded
      | _ => Ungraded
      end
  | _ => SkipRow
  end.
Record rates := { ra_by_class : dict string stratum; ra_totals : stratum; ra_ungraded : Z }.
(** The loop: an exception ends it, and what was counted so far is reported. *)
Fixpoint count_rows (rows : list json) (r : rates) : rates :=
  match rows with
  | [] => r
  | row :: rows =>
      match read_row row with
      | SkipRow => count_rows rows r
      | Ungraded => count_rows rows {| ra_by_class := ra_by_class r; ra_totals := ra_totals r; ra_ungraded := ra_ungraded r + 1 |}
      | Row cls state without =>
          count_rows rows {|
            ra_by_class := <[cls := tally state without (default _empty_stratum (ra_by_class r !! cls))]> (ra_by_class r);
            ra_totals := tally state without (ra_totals r); ra_ungraded := ra_ungraded r |}
      | Unhashable => r
      end
  end.
Definition no_rates : rates := {| ra_by_class := ∅; ra_totals := _empty_stratum; ra_ungraded := 0 |}.
Definition escalation_rates (rows : list json) : list (string * finished) * finished * Z :=
  let r := count_rows rows no_rates in
  ((λ cs, (cs.1, _finish cs.2)) <$> sort_by fst (items (ra_by_class r)), _finish (ra_totals r), ra_ungraded r).
