(* ===== verification/RoutingFacts.v ===== *)
(** * Graded routing: addresses, the write fence and the escalation report *)
From S2P Require Import Prelude PyDict PyFloat PyStats Canonical Json PyText Grading Buckets.
From Stdlib Require Import Ascii.
Local Open Scope Z_scope.

(** ** Finite enumerations *)
(** Evaluate the comparisons of constant texts. *)
Ltac decide_texts := repeat match goal with
  | |- context [@bool_decide (?a = ?b) ?d] => let v := eval vm_compute in (@bool_decide (a = b) d) in
      first [constr_eq v true | constr_eq v false]; change (@bool_decide (a = b) d) with v end.
Lemma member_of_elem values points v : member_of values points = Some v → v ∈ values ∧ code_points v = points.
Proof. unfold member_of. by intros [H Hp%bool_decide_eq_true]%find_first_Some. Qed.
(** On a text of the model, folding is lowering: the characters of the addresses are
    ASCII, and no code point below 256 but their own two cases folds to one. *)
Definition address_char (c : ascii) : bool := str_mem c ("skmlxpubicntear-" +:+ newline).
Lemma folds_lower c d : address_char c = true → folds_to c (N_of_ascii d) = Ascii.eqb (latin_lower d) c.
Proof.
  intros Hc. assert (∀ c, nat_of_ascii c ∈ seq 0 256) as Hn by (intros a; apply elem_of_seq; pose proof (nat_ascii_bounded a); lia).
  assert (forallb (λ m, forallb (λ n, implb (address_char (ascii_of_nat m)) (Bool.eqb (folds_to (ascii_of_nat m) (N_of_ascii (ascii_of_nat n)))
    (Ascii.eqb (latin_lower (ascii_of_nat n)) (ascii_of_nat m)))) (seq 0 256)) (seq 0 256) = true) as Hall by (vm_compute; reflexivity).
  rewrite forallb_elem_of in Hall. specialize (Hall _ (Hn c)). rewrite forallb_elem_of in Hall. specialize (Hall _ (Hn d)).
  rewrite !ascii_nat_embedding, Hc in Hall. by apply Bool.eqb_prop.
Qed.
Lemma spells_lower t s : str_forallb address_char t = true → spells t (code_points s) = bool_decide (py_lower s = t).
Proof.
  revert s. induction t as [|c t IH]; intros [|d s] Ht; try done. cbn [str_forallb] in Ht. apply andb_true_iff in Ht as [Hc Ht].
  cbn [code_points spells py_lower]. rewrite folds_lower, IH by done. destruct (Ascii.eqb_spec (latin_lower d) c) as [->|Hd]; simpl.
  - apply bool_decide_ext. split; [by intros ->|by intros [= ->]].
  - symmetry. apply bool_decide_eq_false. congruence.
Qed.
Lemma legal_bucket_groups c z : c ∈ BUCKET_CLASSES → z ∈ BUCKET_SENSITIVITIES →
  bucket_groups (bucket_text c z) = Some (c, z) ∧ bucket_groups (bucket_text c z +:+ newline) = Some (c, z) ∧
  py_lower (bucket_text c z) = bucket_text c z ∧ py_lower (bucket_text c z +:+ newline) = bucket_text c z +:+ newline.
Proof.
  intros Hc%list_elem_of_In Hz%list_elem_of_In. cbn in Hc, Hz. destruct_or! Hc; destruct_or! Hz; subst; done.
Qed.
Lemma bucket_match_legal s : bucket_match (code_points s) ≠ None ↔
  ∃ c z, c ∈ BUCKET_CLASSES ∧ z ∈ BUCKET_SENSITIVITIES ∧ (py_lower s = bucket_text c z ∨ py_lower s = bucket_text c z +:+ newline).
Proof.
  assert (∀ c z, c ∈ BUCKET_CLASSES → z ∈ BUCKET_SENSITIVITIES →
    str_forallb address_char (bucket_text c z) = true ∧ str_forallb address_char (bucket_text c z +:+ newline) = true) as Hchars.
  { intros c z Hc%list_elem_of_In Hz%list_elem_of_In. cbn in Hc, Hz. destruct_or! Hc; destruct_or! Hz; subst; done. }
  unfold bucket_match. destruct (find_first _ _) as [[c z]|] eqn:H.
  - split; [|done]. intros _. apply find_first_Some in H as [H Hp]. exists c, z.
    apply list_elem_of_In, in_prod_iff in H as [Hc Hz]. rewrite !list_elem_of_In. split; [done|]. split; [done|].
    rewrite <- !list_elem_of_In in *. destruct (Hchars c z Hc Hz). cbn [fst snd] in Hp.
    apply orb_true_iff in Hp. by rewrite !spells_lower, !bool_decide_eq_true in Hp.
  - split; [done|]. intros (c & z & Hc & Hz & Hs). rewrite find_first_None in H. destruct (Hchars c z Hc Hz).
    specialize (H (c, z)). rewrite list_elem_of_In, in_prod_iff, <- !list_elem_of_In in H. specialize (H (conj Hc Hz)).
    cbn [fst snd] in H. apply orb_false_iff in H. rewrite !spells_lower, !bool_decide_eq_false in H by done. naive_solver.
Qed.
Lemma bucket_groups_legal s : bucket_groups s ≠ None ↔
  ∃ c z, c ∈ BUCKET_CLASSES ∧ z ∈ BUCKET_SENSITIVITIES ∧ (py_lower s = bucket_text c z ∨ py_lower s = bucket_text c z +:+ newline).
Proof. rewrite <- bucket_match_legal. unfold bucket_groups. by destruct (bucket_match _) as [[c z]|]. Qed.

Section routing.
Context {PF : Platform} {FT : FloatText}.

(** ** Addresses *)
Lemma validate_bucket_ok j b : validate_bucket j = Ok b ↔
  j = JStr b ∧ ∃ c z, c ∈ BUCKET_CLASSES ∧ z ∈ BUCKET_SENSITIVITIES ∧ (b = bucket_text c z ∨ b = bucket_text c z +:+ newline).
Proof.
  unfold validate_bucket. destruct j as [| | | |s| |]; try (split; [discriminate|intros [? _]; discriminate]).
  rewrite !bind_unit_ok, !err_if_ok, negb_false_iff, bool_decide_eq_true, bool_decide_eq_false, bucket_groups_legal. split.
  - intros (Hl & (c & z & Hc & Hz & Hs) & [= <-]). rewrite <- Hl in Hs. split; [done|]. by exists c, z.
  - intros ([= ->] & c & z & Hc & Hz & Hs). destruct (legal_bucket_groups c z Hc Hz) as (_ & _ & H1 & H2).
    assert (b = py_lower b) as Hb by (destruct Hs as [-> | ->]; congruence). split; [done|]. split; [|done].
    exists c, z. rewrite <- Hb. done.
Qed.
Lemma bucket_id_ok jc jz b : bucket_id jc jz = Ok b ↔
  ∃ c z, jc = JStr c ∧ jz = JStr z ∧ py_lower (strip c) ∈ BUCKET_CLASSES ∧ py_lower (strip z) ∈ BUCKET_SENSITIVITIES ∧
    b = bucket_text (py_lower (strip c)) (py_lower (strip z)).
Proof.
  unfold bucket_id. destruct jc as [| | | |cs| |], jz as [| | | |zs| |];
    try (split; [discriminate|intros (? & ? & ? & ? & _); discriminate]).
  rewrite !bind_unit_ok, !err_if_ok, !negb_false_iff, !bool_decide_eq_true, validate_bucket_ok. split.
  - intros (Hc & Hz & [= <-] & _). by exists cs, zs.
  - intros (c' & z' & [= <-] & [= <-] & Hc & Hz & ->). split; [done|]. split; [done|]. split; [done|]. exists (py_lower (strip cs)), (py_lower (strip zs)). auto.
Qed.

(** The texts that the routing layer may address, spelled out.  The second form, with a
    line end after the address, is outside the documented grammar. *)
Definition bucket_address (b : string) : Prop :=
  ∃ c z, c ∈ ["s"; "m"; "l"; "xl"] ∧ z ∈ ["public"; "internal"; "secret"] ∧
    (b = "sk-" +:+ c +:+ "-" +:+ z ∨ b = "sk-" +:+ c +:+ "-" +:+ z +:+ newline).

Lemma bucket_address_legal b : bucket_address b ↔
  ∃ c z, c ∈ BUCKET_CLASSES ∧ z ∈ BUCKET_SENSITIVITIES ∧ (b = bucket_text c z ∨ b = bucket_text c z +:+ newline).
Proof.
  assert (∀ c z, bucket_text c z +:+ newline = "sk-" +:+ c +:+ "-" +:+ z +:+ newline) as Heq
    by (intros c z; unfold bucket_text; by rewrite !str_app_assoc).
  unfold bucket_address. by setoid_rewrite Heq.
Qed.

(** C38: The routing layer can only write the model of a brief.  Whatever the name of the
    attribute has become and whatever text (of code points below 256) it is given, the
    write either raises or sets the attribute "model", to nothing or to one of the
    twelve lower-case addresses of the vocabulary, possibly with one line end after it,
    and leaves every other attribute as it was, the fields that decide the gate among
    them.  Any other text is refused with [BucketError], and a name other than "model"
    with [RoutingScopeViolation] unless the text was refused first. *)
Theorem dispatch_write_confined attr brief model_id :
  match attach_dispatch_model attr brief model_id with
  | Ok brief' => attr = JStr "model" ∧ brief' !! "model" = Some (jopt JStr model_id) ∧
      (∀ name, name ≠ "model" → brief' !! name = brief !! name) ∧
      (∀ name, name ∈ _GATE_DECISION_FIELDS → brief' !! name = brief !! name) ∧
      (∀ b, model_id = Some b → bucket_address b)
  | Err e => (exn_kind e = BucketError ∧ ∃ b, model_id = Some b ∧ ¬ bucket_address b) ∨
      (exn_kind e = RoutingScopeViolation ∧ attr ≠ JStr "model" ∧ ∀ b, model_id = Some b → bucket_address b)
  end.
Proof.
  unfold attach_dispatch_model.
  assert (∀ b, (∃ e, validate_bucket (JStr b) = Err e ∧ exn_kind e = BucketError ∧ ¬ bucket_address b) ∨
    (validate_bucket (JStr b) = Ok b ∧ bucket_address b)) as Hv.
  { intros b. destruct (validate_bucket (JStr b)) as [b'|e] eqn:Hb.
    - right. apply validate_bucket_ok in Hb as [Heq Ha]. split; [congruence|]. injection Heq as ->. by apply bucket_address_legal.
    - left. exists e. split; [done|]. split.
      + revert Hb. unfold validate_bucket, err_if. destruct (negb _); cbn; [by intros [= <-]|]. destruct (bool_decide _); cbn; [by intros [= <-]|discriminate].
      + intros Ha. assert (validate_bucket (JStr b) = Ok b) as Hok by (apply validate_bucket_ok; split; [done|]; by apply bucket_address_legal). congruence. }
  assert ((∃ e, assert_routing_field attr = Err e ∧ exn_kind e = RoutingScopeViolation ∧ attr ≠ JStr "model") ∨
    (assert_routing_field attr = Ok "model" ∧ attr = JStr "model")) as Hf.
  { unfold assert_routing_field. destruct attr as [| | | |s| |]; try (left; eexists; split; [reflexivity|]; split; [reflexivity|discriminate]).
    destruct (decide (s = "model")) as [->|Hs]; [right; done|]. left. rewrite bool_decide_eq_false_2.
    - eexists. split; [reflexivity|]. split; [reflexivity|]. congruence.
    - unfold _ROUTING_ONLY_FIELDS. by rewrite list_elem_of_singleton. }
  assert (∀ name, name ∈ _GATE_DECISION_FIELDS → name ≠ "model") as Hg
    by (intros name Hn%list_elem_of_In ->; cbn in Hn; by destruct_or! Hn).
  destruct model_id as [b|].
  - destruct (Hv b) as [(e & -> & Hk & Hb)|(-> & Hb)]; cbn; [left; eauto|].
    destruct Hf as [(e & -> & ? & ?)|(-> & ->)]; cbn; [right; split_and!; [done|done|by intros ? [= <-]]|].
    split; [done|]. split; [by rewrite dict_lookup_insert_eq|]. split; [intros name Hn; by rewrite dict_lookup_insert_ne|].
    split; [intros name Hn; rewrite dict_lookup_insert_ne; [done|by apply not_eq_sym, Hg]|]. intros ? [= <-]. done.
  - cbn. destruct Hf as [(e & -> & ? & ?)|(-> & ->)]; cbn; [right; done|].
    split; [done|]. split; [by rewrite dict_lookup_insert_eq|]. split; [intros name Hn; by rewrite dict_lookup_insert_ne|].
    split; [intros name Hn; rewrite dict_lookup_insert_ne; [done|by apply not_eq_sym, Hg]|]. done.
Qed.

(** The expression also matches letters of other alphabets that fold to its own; the
    long s and the dotless i are their own lower case, so [validate_bucket] lets them
    through, and the gateway's pattern does not match them. *)
Lemma foreign_letters_match :
  bucket_match (383 :: code_points "k-xl-secret")%N = Some ("xl", "secret") ∧
  bucket_match (code_points "sk-s-publ" ++ [305; 99])%N = Some ("s", "public").
Proof. by split. Qed.
(** The address check lets a closing line end through, which the gateway's own pattern
    does not match. *)
Lemma newline_passes_validation c z : c ∈ BUCKET_CLASSES → z ∈ BUCKET_SENSITIVITIES →
  validate_bucket (JStr (bucket_text c z +:+ newline)) = Ok (bucket_text c z +:+ newline).
Proof. intros Hc Hz. apply validate_bucket_ok. split; [done|]. exists c, z. auto. Qed.

(** ** Grades *)
Definition canonical_grade (g : Grade) : Prop :=
  gr_size g ∈ SIZE_VALUES ∧ gr_risk g ∈ RISK_VALUES ∧ gr_sensitivity g ∈ SENSITIVITY_VALUES.
Lemma read_grade_canonical source g : read_grade source = Some g → canonical_grade g.
Proof.
  unfold read_grade. intros H. repeat (apply bind_Some in H as (? & ? & H)). simplify_eq.
  repeat match goal with Hm : member_of _ _ = Some _ |- _ => apply member_of_elem in Hm as [Hm _] end. done.
Qed.
Lemma try_parse_error text e : _try_parse_object text = Err e → e = digit_limit_error.
Proof.
  unfold _try_parse_object. destruct (is_empty_str _); [done|]. destruct (loads _); [done| |naive_solver].
  destruct (object_span _) as [o|]; [|done]. destruct (loads o); naive_solver.
Qed.
Lemma first_grade_outcomes candidates :
  match first_grade candidates with Ok (Some g) => canonical_grade g | Ok None => True | Err e => e = digit_limit_error end.
Proof.
  induction candidates as [|t candidates IH]; [done|]. cbn [first_grade]. destruct (_try_parse_object t) as [obj|e] eqn:Ht.
  - cbn [mbind result_bind]. destruct (_select_grade_source obj) as [source|]; [|done].
    destruct (read_grade source) as [g|] eqn:Hg; [|done]. by eapply read_grade_canonical.
  - by apply try_parse_error in Ht.
Qed.
Lemma parse_grade_outcomes raw :
  match parse_grade raw with Ok (Some g) => canonical_grade g | Ok None => True | Err e => e = digit_limit_error end.
Proof. unfold parse_grade. destruct raw; try done. destruct (blank s); [done|]. apply first_grade_outcomes. Qed.

Lemma class_of_grade size risk : size ∈ SIZE_VALUES → risk ∈ RISK_VALUES → ∃ s r c,
  SIZE_RANK !! size = Some s ∧ RISK_RANK !! risk = Some r ∧ CLASS !! Z.to_nat (Z.max s r) = Some c ∧
  model_class_for (JStr size) (JStr risk) = Ok c ∧ py_lower (strip c) = py_lower c ∧ CLASS_RANK !! py_lower c = Some (Z.max s r) ∧
  py_lower c ∈ BUCKET_CLASSES.
Proof.
  intros Hs%list_elem_of_In Hr%list_elem_of_In. cbn in Hs, Hr.
  destruct_or! Hs; destruct_or! Hr; subst; try done; eexists _, _, _; (split_and!; [reflexivity..|]); apply list_elem_of_In; cbn; tauto.
Qed.
Lemma served_of_bucket c z : c ∈ BUCKET_CLASSES → z ∈ BUCKET_SENSITIVITIES → served_class (JStr (bucket_text c z)) = Some c.
Proof.
  intros Hc%list_elem_of_In Hz%list_elem_of_In. cbn in Hc, Hz. destruct_or! Hc; destruct_or! Hz; subst; done.
Qed.
Lemma state_of_bucket c z f rank : c ∈ BUCKET_CLASSES → z ∈ BUCKET_SENSITIVITIES → CLASS_RANK !! f = Some rank →
  class_state (Some f) (served_class (JStr (bucket_text c z))) =
    if rank <? default 0 (CLASS_RANK !! c) then ESCALATED else WITHIN_FLOOR.
Proof.
  intros Hc Hz Hf. unfold class_state. by rewrite (served_of_bucket c z), Hf.
Qed.
(** ** The escalation report *)
Definition count {A} (p : A → bool) (xs : list A) : Z := Z.of_nat (length (List.filter p xs)).
Lemma count_cons {A} (p : A → bool) x xs : count p (x :: xs) = (if p x then 1 else 0) + count p xs.
Proof. unfold count. cbn [List.filter]. destruct (p x); cbn [length]; lia. Qed.
Lemma count_ext {A} (p q : A → bool) xs : (∀ x, p x = q x) → count p xs = count q xs.
Proof. intros H. induction xs as [|x xs IH]; [done|]. by rewrite !count_cons, IH, H. Qed.

(** A run as the ledger records it, and what a stratum should count. *)
Record esc_run := { run_grade : json; run_served : json; run_reason : json }.
Definition run_row (r : esc_run) : json := JObj (escalation_row (run_grade r) (run_served r) (run_reason r)).
Definition run_floor (r : esc_run) : option string := floor_class (run_grade r).
Definition run_state (r : esc_run) : string := class_state (run_floor r) (served_class (run_served r)).
Definition in_floor (P : string → bool) (r : esc_run) : bool := match run_floor r with Some c => P c | None => false end.
Definition run_stratum (P : string → bool) (runs : list esc_run) : stratum := {|
  st_rows := count (in_floor P) runs;
  st_escalated := count (λ r, in_floor P r && bool_decide (run_state r = ESCALATED)) runs;
  st_within_floor := count (λ r, in_floor P r && bool_decide (run_state r = WITHIN_FLOOR)) runs;
  st_unobserved := count (λ r, in_floor P r && bool_decide (run_state r = UNOBSERVED)) runs;
  st_escalated_without_reason :=
    count (λ r, in_floor P r && (bool_decide (run_state r = ESCALATED) && bool_decide (clean_reason (run_reason r) = None))) runs |}.

Lemma clean_reason_idemp j : clean_reason (jopt JStr (clean_reason j)) = clean_reason j.
Proof.
  destruct j as [| | | |s| |]; try done. cbn. destruct (is_empty_str (strip s)) eqn:E; [done|]. cbn. by rewrite strip_idemp, E.
Qed.
Lemma run_state_known r : run_state r ∈ ESCALATION_STATES.
Proof.
  unfold run_state, class_state, ESCALATION_STATES. destruct (run_floor r), (served_class (run_served r)); try case_match; set_solver.
Qed.
Lemma floor_class_ranked g c : floor_class g = Some c → has_key c CLASS_RANK = true.
Proof.
  unfold floor_class. destruct g; try done. destruct (jget _ _) as [[| | | |s| |]|]; try done. cbv zeta.
  destruct (has_key _ _) eqn:E; [|done]. by intros [= <-].
Qed.
Lemma read_run_row r : read_row (run_row r) =
  match run_floor r with Some c => Row c (run_state r) (bool_decide (clean_reason (run_reason r) = None)) | None => Ungraded end.
Proof.
  unfold read_row, run_row. set (ms := escalation_row _ _ _).
  assert (jget "escalation_floor_class" ms = Some (jopt JStr (run_floor r))) as -> by reflexivity.
  assert (jget_or_none "escalation_state" ms = JStr (run_state r)) as -> by reflexivity.
  assert (jget_or_none REASON_KEY ms = jopt JStr (clean_reason (run_reason r))) as -> by reflexivity.
  rewrite clean_reason_idemp. destruct (run_floor r) as [c|] eqn:Hf; [|done]. cbn [jopt].
  rewrite (floor_class_ranked _ _ Hf). cbv zeta. rewrite bool_decide_eq_true_2; [done|]. apply run_state_known.
Qed.
Definition stratum_add (s t : stratum) : stratum := {|
  st_rows := st_rows s + st_rows t; st_escalated := st_escalated s + st_escalated t; st_within_floor := st_within_floor s + st_within_floor t;
  st_unobserved := st_unobserved s + st_unobserved t;
  st_escalated_without_reason := st_escalated_without_reason s + st_escalated_without_reason t |}.
Lemma stratum_add_empty s : stratum_add _empty_stratum s = s ∧ stratum_add s _empty_stratum = s.
Proof. destruct s; unfold stratum_add, _empty_stratum; simpl. split; f_equal; lia. Qed.
Lemma run_stratum_cons P r runs s : stratum_add s (run_stratum P (r :: runs)) =
  stratum_add (if in_floor P r then tally (run_state r) (bool_decide (clean_reason (run_reason r) = None)) s else s) (run_stratum P runs).
Proof.
  unfold run_stratum, stratum_add. simpl. rewrite !count_cons. destruct (in_floor P r); simpl; f_equal; lia.
Qed.

Lemma count_rows_runs runs r : dict_wf (ra_by_class r) →
  let r' := count_rows (run_row <$> runs) r in
  dict_wf (ra_by_class r') ∧
  ra_ungraded r' = ra_ungraded r + count (λ x, bool_decide (run_floor x = None)) runs ∧
  ra_totals r' = stratum_add (ra_totals r) (run_stratum (λ _, true) runs) ∧
  ∀ c, ra_by_class r' !! c = match ra_by_class r !! c with
    | Some s => Some (stratum_add s (run_stratum (λ d, bool_decide (d = c)) runs))
    | None => if existsb (in_floor (λ d, bool_decide (d = c))) runs
              then Some (run_stratum (λ d, bool_decide (d = c)) runs) else None end.
Proof.
  revert r. induction runs as [|x runs IH]; intros r Hwf.
  - cbn -[run_stratum]. split; [done|]. split; [unfold count; simpl; lia|]. split; [symmetry; apply stratum_add_empty|].
    intros c. destruct (_ !! c); [|done]. f_equal. symmetry. apply stratum_add_empty.
  - rewrite fmap_cons. cbn [count_rows]. rewrite read_run_row, count_cons. destruct (run_floor x) as [c0|] eqn:Hf.
    + edestruct IH as (Hwf' & Hu & Ht & Hc); [|split; [exact Hwf'|split; [rewrite Hu; simpl; lia|split]]].
      * simpl. by apply dict_wf_insert.
      * rewrite Ht. cbn [ra_totals]. rewrite run_stratum_cons.
        by assert (in_floor (λ _, true) x = true) as -> by (unfold in_floor; by rewrite Hf).
      * intros c. rewrite Hc. cbn [ra_by_class existsb]. rewrite dict_lookup_insert.
        pose proof (run_stratum_cons (λ d, bool_decide (d = c)) x runs) as Hs.
        assert (in_floor (λ d, bool_decide (d = c)) x = bool_decide (c0 = c)) as Hin by (unfold in_floor; by rewrite Hf).
        pose proof (proj1 (stratum_add_empty (run_stratum (λ d, bool_decide (d = c)) (x :: runs)))) as He. rewrite Hs in He. rewrite Hin in *.
        case_decide as E; [subst c0; rewrite (bool_decide_eq_true_2 (c = c)) in * by done|rewrite (bool_decide_eq_false_2 (c0 = c)) in * by done].
        -- cbn [orb]. destruct (ra_by_class r !! c); cbn [default]; [by rewrite Hs|by rewrite <- He].
        -- cbn [orb]. destruct (ra_by_class r !! c); [by rewrite Hs|]. by rewrite <- He, (proj1 (stratum_add_empty _)).
    + edestruct IH as (Hwf' & Hu & Ht & Hc); [|split; [exact Hwf'|split; [rewrite Hu; simpl; lia|split]]].
      * done.
      * rewrite Ht. cbn [ra_totals]. rewrite run_stratum_cons.
        by assert (in_floor (λ _, true) x = false) as -> by (unfold in_floor; by rewrite Hf).
      * intros c. rewrite Hc. cbn [ra_by_class existsb].
        pose proof (run_stratum_cons (λ d, bool_decide (d = c)) x runs) as Hs.
        assert (in_floor (λ d, bool_decide (d = c)) x = false) as Hin by (unfold in_floor; by rewrite Hf). rewrite Hin in *. cbn [orb].
        destruct (ra_by_class r !! c); [by rewrite Hs|].
        by rewrite <- (proj1 (stratum_add_empty (run_stratum _ (x :: runs)))), Hs, (proj1 (stratum_add_empty _)).
Qed.
Lemma run_stratum_partition P runs : let s := run_stratum P runs in
  st_rows s = st_escalated s + st_within_floor s + st_unobserved s ∧
  0 <= st_escalated_without_reason s <= st_escalated s ∧ 0 <= st_within_floor s ∧ 0 <= st_unobserved s.
Proof.
  cbv zeta. induction runs as [|r runs IH]; [done|].
  rewrite <- (proj1 (stratum_add_empty (run_stratum P (r :: runs)))), run_stratum_cons.
  set (t := run_stratum P runs) in *. clearbody t. destruct (in_floor P r); [|rewrite (proj1 (stratum_add_empty _)); exact IH].
  pose proof (run_state_known r) as H. unfold ESCALATION_STATES in H. apply list_elem_of_In in H. cbn in H.
  unfold stratum_add, tally, _empty_stratum.
  destruct_or! H; try done; rewrite <- H; destruct (bool_decide (clean_reason _ = None)); decide_texts; cbn -[Z.add]; lia.
Qed.

(** The escalation report counts what the ledger recorded.  Over the rows of any
    runs, each class has exactly one line if some run had that floor and none
    otherwise, in order; a line counts exactly the runs of its floor by what served
    them, escalations without a written reason apart; the totals count the runs with a
    floor, the runs without one are counted separately; every line's counts add up, and
    a rate is given exactly when something was observed. *)
Theorem rates_count_runs runs :
  let '(by_class, totals, ungraded) := escalation_rates (run_row <$> runs) in
  ungraded = count (λ r, bool_decide (run_floor r = None)) runs ∧
  totals = _finish (run_stratum (λ _, true) runs) ∧
  NoDup by_class.*1 ∧ StronglySorted String.le by_class.*1 ∧
  (∀ c line, (c, line) ∈ by_class ↔
    (∃ r, r ∈ runs ∧ run_floor r = Some c) ∧ line = _finish (run_stratum (λ d, bool_decide (d = c)) runs)) ∧
  ∀ P, let s := run_stratum P runs in
    st_rows s = st_escalated s + st_within_floor s + st_unobserved s ∧ st_escalated_without_reason s <= st_escalated s ∧
    (fi_escalation_rate (_finish s) = None ↔ st_escalated s = 0 ∧ st_within_floor s = 0).
Proof.
  unfold escalation_rates. destruct (count_rows_runs runs no_rates) as (Hwf & Hu & Ht & Hc); [apply dict_wf_empty|].
  set (r := count_rows _ _) in *. split; [by rewrite Hu|]. split; [by rewrite Ht, (proj1 (stratum_add_empty _))|].
  assert (((λ cs : string * stratum, (cs.1, _finish cs.2)) <$> sort_by fst (items (ra_by_class r))).*1 = fst <$> sort_by fst (items (ra_by_class r))) as ->
    by (rewrite <- list_fmap_compose; done).
  split; [rewrite sort_by_perm; exact Hwf|]. split.
  { pose proof (sort_by_sorted fst (items (ra_by_class r))) as H. induction H as [|x l _ IH Hx]; [constructor|].
    rewrite fmap_cons. constructor; [done|]. by apply Forall_fmap. }
  split.
  - intros c line. rewrite list_elem_of_fmap.
    assert (∀ s, (c, s) ∈ sort_by fst (items (ra_by_class r)) ↔
      existsb (in_floor (λ d, bool_decide (d = c))) runs = true ∧ s = run_stratum (λ d, bool_decide (d = c)) runs) as Hin.
    { intros s. rewrite elem_of_sort_by, elem_of_items by done. rewrite Hc. change (ra_by_class no_rates !! c) with (None : option stratum).
      cbv iota. destruct (existsb _ _); naive_solver. }
    assert (existsb (in_floor (λ d, bool_decide (d = c))) runs = true ↔ ∃ r, r ∈ runs ∧ run_floor r = Some c) as Hex.
    { rewrite existsb_elem_of. unfold in_floor. split; intros (x & ? & ?); exists x; destruct (run_floor x); try done.
      - case_bool_decide; naive_solver.
      - split; [done|]. case_bool_decide; naive_solver. }
    rewrite <- Hex. split.
    + intros ([c' s] & [= -> ->] & Hs). apply Hin in Hs as [H ->]. done.
    + intros [H ->]. exists (c, run_stratum (λ d, bool_decide (d = c)) runs). split; [done|]. by apply Hin.
  - intros P. cbv zeta. destruct (run_stratum_partition P runs) as (H1 & H2 & H3 & H4). split; [done|]. split; [lia|].
    unfold _finish. cbn [fi_escalation_rate]. destruct (Z.eqb_spec (st_escalated (run_stratum P runs) + st_within_floor (run_stratum P runs)) 0); split; try done; lia.
Qed.
End routing.
