(* ===== verification/GoldenSet.v ===== *)
(** * The golden set of work grades

    [autocode/golden_set.py]: entries that propose a grade for a source text, bound to
    it by hash, their ratification by a human and the gate over the ratified ones.
    Reading the document from its file is [json.load] of the file. *)
From S2P Require Import Prelude PyDict PyFloat Canonical Json PyText Grading Buckets RoutingFacts.
From stdpp Require Import pretty.

Local Open Scope Z_scope.

Definition DOCUMENT_SCHEMA_V2 : string := "skharness.joule-economy-golden-set.v2".
Definition ENTRY_SCHEMA_V2 : string := "skharness.joule-economy-golden-entry.v2".
Definition CANDIDATE : string := "candidate".
Definition RATIFIED : string := "ratified".
Definition _BASE_KEYS : list string := ["schema"; "state"; "source_text"; "source_sha256"; "size"; "risk"; "model_class"; "why"].

Section golden.
Context {PF : Platform} {FT : FloatText}.
Implicit Types (entry : json) (ms : list (string * json)).

Definition _required_text (value : json) (field : string) : result string :=
  match value with
  | JStr s => if blank s then Err (Exn GoldenSetSchemaError (field +:+ " must be non-empty text")) else Ok s
  | _ => Err (Exn GoldenSetSchemaError (field +:+ " must be non-empty text"))
  end.
Definition _digest (text : string) : string := sha256_hex (utf8_encode text).
Definition is_text (j : json) (s : string) : bool := match j with JStr t => bool_decide (t = s) | _ => false end.
Definition text_in (j : json) (values : list string) : bool := match j with JStr t => bool_decide (t ∈ values) | _ => false end.
(** [value in {a, b}]: looking a list or an object up in a set raises. *)
Definition hashed_in (j : json) (values : list string) : result bool :=
  match j with
  | JArr _ | JObj _ => Err (Exn TypeError ("unhashable type: '" +:+ type_name j +:+ "'"))
  | _ => Ok (text_in j values)
  end.
Definition schema_error_if (b : bool) (msg : string) : result unit := err_if b GoldenSetSchemaError msg.

Definition expected_keys (state : string) : list string :=
  _BASE_KEYS ++ if bool_decide (state = RATIFIED) then ["human_signoff"; "human_signoff_sha256"] else [].
Definition validate_entry (entry : json) : result (list (string * json)) :=
  match entry with
  | JObj ms =>
      let get k := jget_or_none k ms in
      schema_error_if (negb (is_text (get "schema") ENTRY_SCHEMA_V2)) ("entry schema must be " +:+ repr_str ENTRY_SCHEMA_V2) ;;
      known ← hashed_in (get "state") [CANDIDATE; RATIFIED];
      schema_error_if (negb known) "entry state must be candidate or ratified" ;;
      let state := py_str (get "state") in
      schema_error_if (negb (bool_decide (str_set ms.*1 = str_set (expected_keys state))))
        (state +:+ " entry keys must be exactly " +:+ repr_strs (sorted_str (expected_keys state))) ;;
      source_text ← _required_text (get "source_text") "source_text";
      schema_error_if (negb (is_text (get "source_sha256") (_digest source_text))) "source_sha256 does not match source_text" ;;
      schema_error_if (negb (text_in (get "size") SIZE_VALUES)) "size is not canonical" ;;
      schema_error_if (negb (text_in (get "risk") RISK_VALUES)) "risk is not canonical" ;;
      schema_error_if (negb (text_in (get "model_class") CLASS)) "model_class is not canonical" ;;
      _required_text (get "why") "why" ;;
      (if bool_decide (state = RATIFIED) then
         signoff ← _required_text (get "human_signoff") "human_signoff";
         schema_error_if (negb (is_text (get "human_signoff_sha256") (_digest signoff))) "human_signoff_sha256 does not match human_signoff"
       else Ok tt) ;;
      Ok ms
  | _ => Err (Exn GoldenSetSchemaError "entry must be an object")
  end.
(** The entries of a valid document. *)
Definition validate_document (document : json) : result (list json) :=
  match document with
  | JObj ms =>
      schema_error_if (negb (bool_decide (str_set ms.*1 = str_set ["schema"; "entries"]))) "v2 document keys must be exactly schema and entries" ;;
      schema_error_if (negb (is_text (jget_or_none "schema" ms) DOCUMENT_SCHEMA_V2)) ("document schema must be " +:+ repr_str DOCUMENT_SCHEMA_V2) ;;
      match jget_or_none "entries" ms with
      | JArr entries => check_each entries (λ e, validate_entry e ;; Ok tt) ;; Ok entries
      | _ => Err (Exn GoldenSetSchemaError "entries must be a list")
      end
  | _ => Err (Exn GoldenSetSchemaError "v2 document keys must be exactly schema and entries")
  end.
Definition create_candidate (source_text : json) (size risk model_class why : json) : result (list (string * json)) :=
  source ← _required_text source_text "source_text";
  validate_entry (JObj [("schema", JStr ENTRY_SCHEMA_V2); ("state", JStr CANDIDATE); ("source_text", JStr source);
    ("source_sha256", JStr (_digest source)); ("size", size); ("risk", risk); ("model_class", model_class); ("why", why)]).
(** [{**validated, key: value, ...}] *)
Definition updated (ms : list (string * json)) (changes : list (string * json)) : list (string * json) :=
  foldl (λ acc kv, alist_set kv.1 kv.2 acc) ms changes.
Definition ratify_entry (entry : json) (human_signoff : json) : result (list (string * json)) :=
  validated ← validate_entry entry;
  schema_error_if (negb (is_text (jget_or_none "state" validated) CANDIDATE)) "only a candidate may be ratified" ;;
  signoff ← _required_text human_signoff "human_signoff";
  validate_entry (JObj (updated validated [("state", JStr RATIFIED); ("human_signoff", JStr signoff); ("human_signoff_sha256", JStr (_digest signoff))])).

Definition entry_field (k : string) (entry : json) : json := match entry with JObj ms => jget_or_none k ms | _ => JNull end.
Fixpoint failures_from (index : Z) (entries : list json) : result (list string) :=
  match entries with
  | [] => Ok []
  | entry :: rest =>
      if negb (is_text (entry_field "state" entry) RATIFIED) then failures_from (index + 1) rest
      else
        expected ← model_class_for (entry_field "size" entry) (entry_field "risk" entry);
        more ← failures_from (index + 1) rest;
        Ok ((if is_text (entry_field "model_class" entry) expected then []
             else ["entry " +:+ pretty index +:+ ": model_class " +:+ py_repr (entry_field "model_class" entry) +:+
                   ", expected " +:+ repr_str expected]) ++ more)
  end.
Definition gating_failures (document : json) : result (list string) :=
  entries ← validate_document document; failures_from 0 entries.
End golden.

(** * Golden set entries: binding, ratification and the gate *)
Local Open Scope Z_scope.

Section facts.
Context {PF : Platform} {FT : FloatText}.
Implicit Types (entry : json) (ms r : list (string * json)).
Notation get k ms := (jget_or_none k ms).

Lemma is_text_true j s : is_text j s = true ↔ j = JStr s.
Proof. destruct j; simpl; try done. rewrite bool_decide_eq_true. naive_solver. Qed.
Lemma text_in_true j values : text_in j values = true ↔ ∃ s, j = JStr s ∧ s ∈ values.
Proof.
  destruct j as [| | | |t| |]; simpl; try (split; [done|intros (? & ? & _); discriminate]). rewrite bool_decide_eq_true.
  split; [by exists t|by intros (? & [= <-] & ?)].
Qed.
Lemma required_text_ok j f s : _required_text j f = Ok s ↔ j = JStr s ∧ blank s = false.
Proof.
  unfold _required_text. destruct j as [| | | |t| |]; try (split; [done|intros [? _]; discriminate]).
  destruct (blank t) eqn:E; (split; [try done|]).
  - intros [[= <-] E']. congruence.
  - by intros [= <-].
  - by intros [[= <-] _].
Qed.
Lemma hashed_in_ok j values b : hashed_in j values = Ok b → b = text_in j values.
Proof. destruct j; simpl; congruence. Qed.
Lemma hashed_in_text j values : text_in j values = true → hashed_in j values = Ok true.
Proof. intros [s [-> H]]%text_in_true. simpl. by rewrite bool_decide_eq_true_2. Qed.
Lemma schema_error_ok b msg : schema_error_if (negb b) msg = Ok tt ↔ b = true.
Proof. unfold schema_error_if. rewrite err_if_ok. apply negb_false_iff. Qed.

(** ** What a valid entry is *)
Definition bound_text (ms : list (string * json)) (k h : string) : Prop :=
  ∃ s, get k ms = JStr s ∧ blank s = false ∧ get h ms = JStr (_digest s).
Definition valid_entry (state : string) (ms : list (string * json)) : Prop :=
  get "schema" ms = JStr ENTRY_SCHEMA_V2 ∧ get "state" ms = JStr state ∧ (state = CANDIDATE ∨ state = RATIFIED) ∧
  str_set ms.*1 = str_set (expected_keys state) ∧ bound_text ms "source_text" "source_sha256" ∧
  text_in (get "size" ms) SIZE_VALUES = true ∧ text_in (get "risk" ms) RISK_VALUES = true ∧ text_in (get "model_class" ms) CLASS = true ∧
  (∃ why, get "why" ms = JStr why ∧ blank why = false) ∧ (state = RATIFIED → bound_text ms "human_signoff" "human_signoff_sha256").
Lemma bound_text_ok ms k h fk msg : bound_text ms k h ↔
  (s ← _required_text (get k ms) fk; schema_error_if (negb (is_text (get h ms) (_digest s))) msg) = Ok tt.
Proof.
  rewrite bind_ok. setoid_rewrite required_text_ok. setoid_rewrite schema_error_ok. setoid_rewrite is_text_true. unfold bound_text. naive_solver.
Qed.
Lemma validate_entry_ok entry ms : validate_entry entry = Ok ms ↔ entry = JObj ms ∧ ∃ state, valid_entry state ms.
Proof.
  unfold validate_entry. destruct entry as [| | | | | |ms0]; try (split; [done|intros [? _]; discriminate]).
  rewrite bind_unit_ok, schema_error_ok, is_text_true, bind_ok. split.
  - intros (Hsch & known & Hk & H). apply hashed_in_ok in Hk as ->. rewrite bind_unit_ok, schema_error_ok, text_in_true in H.
    destruct H as ((st & Hst & Hin) & H). rewrite Hst in H. cbn [py_str] in H. rewrite bind_unit_ok, schema_error_ok, bool_decide_eq_true, bind_ok in H.
    destruct H as (Hkeys & src & Hsrc & H). apply required_text_ok in Hsrc as [Hsrc Hb].
    rewrite !bind_unit_ok, !schema_error_ok, is_text_true, bind_ok in H. destruct H as (Hh & Hsize & Hrisk & Hclass & why & Hwhy & H).
    apply required_text_ok in Hwhy. rewrite bind_unit_ok in H. destruct H as [Hsign [= <-]].
    split; [done|]. exists st. unfold valid_entry. split; [done|]. split; [done|].
    split; [apply list_elem_of_In in Hin; cbn in Hin; naive_solver|]. split; [done|]. split; [by exists src|].
    do 3 (split; [done|]). split; [by exists why|]. intros ->. rewrite bool_decide_eq_true_2 in Hsign by done. by apply bound_text_ok in Hsign.
  - intros ([= ->] & st & Hsch & Hst & Hin & Hkeys & (src & Hsrc & Hb & Hh) & Hsize & Hrisk & Hclass & (why & Hwhy & Hwb) & Hsign).
    split; [done|]. exists true. split.
    { apply hashed_in_text, text_in_true. exists st. split; [done|]. destruct Hin as [-> | ->]; set_solver. }
    rewrite bind_unit_ok. split; [done|]. rewrite Hst. cbn [py_str]. rewrite bind_unit_ok, schema_error_ok, bool_decide_eq_true, bind_ok. split; [done|].
    exists src. split; [by apply required_text_ok|]. rewrite !bind_unit_ok, !schema_error_ok, is_text_true, bind_ok. do 4 (split; [done|]).
    exists why. split; [by apply required_text_ok|]. rewrite bind_unit_ok. split; [|done]. case_bool_decide as E; [|done]. by apply bound_text_ok, Hsign.
Qed.

(** ** Ratification *)
Lemma jget_set k v ms k' : jget k' (alist_set k v ms) = if decide (k = k') then Some v else jget k' ms.
Proof. exact (dict_lookup_insert (Dict ms) k k' v). Qed.
Lemma keys_set k v ms : str_set (alist_set k v ms).*1 = {[k]} ∪ str_set ms.*1.
Proof.
  apply set_eq. intros x. rewrite elem_of_union, elem_of_singleton, !elem_of_str_set.
  change (x ∈ (alist_set k v ms).*1) with (x ∈ keys (<[k := v]> (Dict ms))). change (x ∈ ms.*1) with (x ∈ keys (Dict ms)).
  rewrite !elem_of_keys, dict_lookup_insert.
  case_decide; [naive_solver|]. naive_solver.
Qed.
Definition signed (ms : list (string * json)) (signoff : string) : list (string * json) :=
  updated ms [("state", JStr RATIFIED); ("human_signoff", JStr signoff); ("human_signoff_sha256", JStr (_digest signoff))].
Lemma get_signed ms s k : get k (signed ms s) =
  if decide (k = "state") then JStr RATIFIED else if decide (k = "human_signoff") then JStr s
  else if decide (k = "human_signoff_sha256") then JStr (_digest s) else get k ms.
Proof.
  unfold signed, updated, jget_or_none. cbn [foldl fst snd]. rewrite !jget_set.
  repeat (case_decide; subst; try done).
Qed.
Lemma signed_valid ms s : valid_entry CANDIDATE ms → blank s = false → valid_entry RATIFIED (signed ms s).
Proof.
  intros (Hsch & Hst & _ & Hkeys & Hsrc & Hsize & Hrisk & Hclass & Hwhy & _) Hs. unfold valid_entry, bound_text.
  rewrite !get_signed. cbn. split; [done|]. split; [done|]. split; [by right|]. split; [|split; [done|]].
  - unfold signed, updated. cbn [foldl fst snd]. rewrite !keys_set, Hkeys.
    change (expected_keys CANDIDATE) with (_BASE_KEYS ++ []). change (expected_keys RATIFIED) with (_BASE_KEYS ++ ["human_signoff"; "human_signoff_sha256"]).
    unfold _BASE_KEYS, str_set. set_solver.
  - do 3 (split; [done|]). split; [done|]. intros _. by exists s.
Qed.

(** Ratification binds exactly what a human signed.  An entry is ratified precisely
    when it is a valid candidate and the signature is not blank.  The result is valid,
    holds the signature and its hash, differs from the candidate in no other field
    than its state, so grade and source text are the ones proposed and the source
    still matches its hash, and it can never be ratified again. *)
Theorem ratify_binds entry signoff r : ratify_entry entry signoff = Ok r ↔
  ∃ ms s, entry = JObj ms ∧ signoff = JStr s ∧ blank s = false ∧ valid_entry CANDIDATE ms ∧ r = signed ms s ∧
    validate_entry (JObj r) = Ok r ∧ get "human_signoff" r = JStr s ∧ get "human_signoff_sha256" r = JStr (_digest s) ∧
    (∀ k, k ∉ ["state"; "human_signoff"; "human_signoff_sha256"] → get k r = get k ms) ∧
    (∃ text, get "source_text" r = JStr text ∧ get "source_sha256" r = JStr (_digest text)) ∧
    (∀ again, is_ok (ratify_entry (JObj r) again) = false).
Proof.
  assert (∀ e sg x, ratify_entry e sg = Ok x → ∃ ms s, e = JObj ms ∧ sg = JStr s ∧ blank s = false ∧ valid_entry CANDIDATE ms ∧ x = signed ms s) as Hinv.
  { intros e sg x. unfold ratify_entry. rewrite bind_ok. intros (ms & Hv & H). apply validate_entry_ok in Hv as [-> [st Hst]].
    rewrite bind_unit_ok, schema_error_ok, is_text_true, bind_ok in H. destruct H as (Hc & s & Hs & H). apply required_text_ok in Hs as [-> Hb].
    apply validate_entry_ok in H as [[= <-] _]. exists ms, s. split; [done|]. split; [done|]. split; [done|]. split; [|done].
    assert (st = CANDIDATE) as <- by (destruct Hst as (_ & Hst & _); congruence). done. }
  split.
  - intros H. destruct (Hinv _ _ _ H) as (ms & s & -> & -> & Hb & Hv & ->). exists ms, s. do 5 (split; [done|]).
    pose proof (signed_valid ms s Hv Hb) as Hsv. split; [apply validate_entry_ok; split; [done|by exists RATIFIED]|].
    rewrite !get_signed. split; [done|]. split; [done|]. split; [|split].
    + intros k Hk. rewrite get_signed. rewrite !decide_False; [done|set_solver..].
    + destruct Hsv as (_ & _ & _ & _ & (text & Ht & _ & Hh) & _). rewrite get_signed in Ht, Hh. by exists text.
    + intros again. destruct (ratify_entry (JObj (signed ms s)) again) as [x|] eqn:Hx; [|done]. exfalso.
      destruct (Hinv _ _ _ Hx) as (ms' & s' & [= <-] & _ & _ & (_ & Hst & _) & _). rewrite get_signed in Hst. by cbn in Hst.
  - intros (ms & s & -> & -> & Hb & Hv & -> & Hval & _). unfold ratify_entry.
    rewrite (proj2 (validate_entry_ok (JObj ms) ms)) by (split; [done|by exists CANDIDATE]). cbn [mbind result_bind].
    destruct Hv as (_ & Hst & _). rewrite Hst. cbn. rewrite Hb. exact Hval.
Qed.

(** ** The gate *)
Lemma model_class_total size risk : size ∈ SIZE_VALUES → risk ∈ RISK_VALUES → ∃ c, model_class_for (JStr size) (JStr risk) = Ok c.
Proof. intros Hs Hr. destruct (class_of_grade _ _ Hs Hr) as (_ & _ & c & _ & _ & _ & Hc & _). by exists c. Qed.
Definition gate_passes (entry : json) : Prop :=
  entry_field "state" entry = JStr RATIFIED → model_class_for (entry_field "size" entry) (entry_field "risk" entry) = Ok (py_str (entry_field "model_class" entry)).
Lemma failures_from_exact i entries : Forall (λ e, validate_entry e ≫= (λ _, Ok tt) = Ok tt) entries →
  ∃ fs, failures_from i entries = Ok fs ∧ (fs = [] ↔ Forall gate_passes entries).
Proof.
  intros H. revert i. induction H as [|e entries He _ IH]; intros i; [by exists []|]. destruct (IH (i + 1)) as (fs & Hfs & Hiff). cbn [failures_from].
  apply bind_ok in He as (ms & Hv & _). apply validate_entry_ok in Hv as [-> (st & Hsch & Hst & Hin & _ & _ & Hsize & Hrisk & Hclass & _)].
  assert (Forall gate_passes (JObj ms :: entries) ↔ gate_passes (JObj ms) ∧ fs = []) as Hall by (by rewrite Forall_cons, Hiff).
  apply text_in_true in Hsize as (size & Es & Hsize), Hrisk as (risk & Er & Hrisk), Hclass as (cls & Ec & _).
  destruct (model_class_total _ _ Hsize Hrisk) as [c Hc].
  assert (gate_passes (JObj ms) ↔ (st = RATIFIED → c = cls)) as Hgp.
  { unfold gate_passes. cbn [entry_field]. rewrite Hst, Es, Er, Ec, Hc. cbn [py_str]. naive_solver. }
  cbn [entry_field]. rewrite Hst, Es, Er, Ec, Hc, Hfs. destruct (decide (st = RATIFIED)) as [->|Hne].
  - rewrite (proj2 (is_text_true (JStr RATIFIED) RATIFIED)) by done. cbn [negb mbind result_bind]. eexists. split; [reflexivity|].
    rewrite Hall, Hgp. destruct (is_text (JStr cls) c) eqn:E; cbn [app].
    + apply is_text_true in E as [= ->]. naive_solver.
    + split; [done|]. intros [Hp _]. rewrite (Hp eq_refl), (proj2 (is_text_true _ _)) in E; done.
  - assert (is_text (JStr st) RATIFIED = false) as -> by (apply not_true_iff_false; rewrite is_text_true; congruence).
    cbn [negb]. exists fs. split; [done|]. rewrite Hall, Hgp. naive_solver.
Qed.
(** The gate speaks for every valid document, and only of ratified entries.  On a
    document that validates it always gives a list of failures, never an exception, and
    the list is empty exactly when every ratified entry has the class that its size and
    risk derive; on any other document it raises what the validation raises. *)
Theorem gate_exact document :
  match validate_document document with
  | Ok entries => ∃ fs, gating_failures document = Ok fs ∧ (fs = [] ↔ ∀ e, e ∈ entries → gate_passes e)
  | Err err => gating_failures document = Err err
  end.
Proof.
  unfold gating_failures. destruct (validate_document document) as [entries|err] eqn:Hd; [|done]. cbn [mbind result_bind].
  assert (Forall (λ e, validate_entry e ≫= (λ _, Ok tt) = Ok tt) entries) as Hall.
  { unfold validate_document in Hd. destruct document as [| | | | | |ms]; try done. rewrite !bind_unit_ok in Hd. destruct Hd as (_ & _ & Hd).
    destruct (jget_or_none "entries" ms); try done. rewrite bind_unit_ok in Hd. destruct Hd as [Hc [= <-]]. by apply check_each_ok in Hc. }
  destruct (failures_from_exact 0 entries Hall) as (fs & Hfs & Hiff). exists fs. split; [done|]. by rewrite Hiff, Forall_forall.
Qed.
End facts.
