(* ===== verification/Sovereignty.v ===== *)
(** * Sovereignty of a serving observation

    [autocode/sovereignty.py]: who answered a call, from the backend and the energy
    basis it reported.  The extension variable of the operator is an argument; the
    command line is not modelled. *)
From S2P Require Import Prelude PyDict PyFloat Canonical Json PyText Buckets.
From Stdlib Require Import Ascii.

Definition SOVEREIGN : string := "sovereign".
Definition VIOLATED : string := "violated".
Definition UNOBSERVED_ : string := "unobserved".
Definition BASIS_MEASURED_GPU : string := "measured_gpu".
Definition BASIS_IMPUTED_LOCAL : string := "imputed_local".
Definition THIRD_PARTY_BACKENDS : list string := [
  "anthropic"; "anthropic-direct"; "openai"; "azure"; "bedrock"; "vertex"; "google"; "gemini"; "nvidia"; "openrouter";
  "opencode"; "groq"; "together"; "fireworks"; "deepinfra"; "replicate"; "perplexity"; "mistral"; "cohere"; "deepseek";
  "xai"; "moonshot"; "cerebras"; "sambanova"; "hyperbolic"].
Definition _DEFAULT_SOVEREIGN_BACKEND_PREFIXES : list string := [
  "reg:"; "local"; "ollama"; "llamacpp"; "llama.cpp"; "vllm"; "chiap"; "sk-local"; "sklocal"; "beellama"; "mxbai-arc"; "qwen3-arc"].
Definition SOVEREIGN_BACKENDS_ENV : string := "SK_SOVEREIGN_BACKEND_PREFIXES".

Record Verdict := { vd_state : string; vd_backend : option string; vd_basis : option string; vd_node : option string; vd_reason : string }.
(** The property [sovereign] of a verdict. *)
Definition is_sovereign (v : Verdict) : bool := bool_decide (vd_state v = SOVEREIGN).

(** [extra] is the value of the environment variable, empty when it is not set. *)
Definition sovereign_backends (extra : string) : list string :=
  _DEFAULT_SOVEREIGN_BACKEND_PREFIXES ++
  ((λ p, py_lower (strip p)) <$> List.filter (λ p, negb (is_empty_str (strip p))) (str_split "," extra)).
Definition _clean (value : json) : option string :=
  match value with JStr s => if is_empty_str (strip s) then None else Some (strip s) | _ => None end.
Definition before_colon (s : string) : string := match split_first ":" s with Some (a, _) => a | None => s end.
Definition _is_third_party (backend : string) : bool :=
  bool_decide (backend ∈ THIRD_PARTY_BACKENDS) || bool_decide (before_colon backend ∈ THIRD_PARTY_BACKENDS).
Definition _is_sovereign_backend (extra backend : string) : bool := existsb (λ p, startswith backend p) (sovereign_backends extra).

Definition Sovereignty_classify (extra : string) (backend basis node : json) : Verdict :=
  let b := _clean backend in let ba := _clean basis in let n := _clean node in
  let verdict state b reason := {| vd_state := state; vd_backend := b; vd_basis := ba; vd_node := n; vd_reason := reason |} in
  match b with
  | None => verdict UNOBSERVED_ None "no serving backend was observed, so who answered is unknown"
  | Some b' =>
      let bl := py_lower b' in
      if _is_third_party bl then
        verdict VIOLATED b ("served by " +:+ repr_str b' +:+ ", a third-party backend" +:+
          match ba with Some x => " (basis " +:+ repr_str x +:+ ")" | None => "" end)
      else if negb (_is_sovereign_backend extra bl) then
        verdict UNOBSERVED_ b ("backend " +:+ repr_str b' +:+ " is not a known sovereign backend and is not a known " +:+
          "third party, so its jurisdiction is unknown; add its prefix to " +:+ SOVEREIGN_BACKENDS_ENV +:+ " only if we own the hardware")
      else match ba with
        | None => verdict UNOBSERVED_ b ("backend " +:+ repr_str b' +:+ " is allowlisted but no energy basis was observed, " +:+
            "so nothing corroborates it")
        | Some x =>
            if bool_decide (x = BASIS_MEASURED_GPU) then
              match n with
              | None => verdict UNOBSERVED_ b ("backend " +:+ repr_str b' +:+ " reports " +:+ repr_str x +:+
                  " but names no node, so there is no " +:+ "meter behind the measurement")
              | Some m => verdict SOVEREIGN b (repr_str b' +:+ " on node " +:+ repr_str m +:+
                  " reported measured_gpu joules: physical evidence " +:+ "from hardware we own")
              end
            else if bool_decide (x = BASIS_IMPUTED_LOCAL) then
              verdict SOVEREIGN b ("served by " +:+ repr_str b' +:+ " with basis " +:+ repr_str x +:+
                ": config-grounded local backend, " +:+ "no physical measurement")
            else verdict VIOLATED b ("backend " +:+ repr_str b' +:+ " is allowlisted but reported basis " +:+ repr_str x +:+
              "; the two " +:+ "observations contradict each other, so sovereignty is not certified")
        end
  end.

(** The headers of a response in order, their names in any case; the last one of a name
    counts.  [None] stands for an object without [items]. *)
Definition lower_headers (headers : list (string * json)) : dict string json :=
  foldl (λ d kv, <[py_lower kv.1 := kv.2]> d) ∅ headers.
Definition from_headers (extra : string) (headers : option (list (string * json))) : Verdict :=
  match headers with
  | None => {| vd_state := UNOBSERVED_; vd_backend := None; vd_basis := None; vd_node := None;
      vd_reason := "no headers to read, so who answered is unknown" |}
  | Some hs =>
      let h k := default JNull (lower_headers hs !! k) in
      Sovereignty_classify extra (h "x-sk-backend") (h "x-sk-energy-basis") (h "x-sk-energy-node")
  end.
(** The attributes an object reports. *)
Definition from_attributes (extra : string) (attributes : dict string json) : Verdict :=
  let a k := default JNull (attributes !! k) in
  Sovereignty_classify extra (a "backend_served") (a "energy_basis") (a "energy_node").
Definition exit_code (state : string) : option Z := dict_lookup state (Dict [(SOVEREIGN, 0%Z); (VIOLATED, 1%Z); (UNOBSERVED_, 2%Z)]).

(** ** What certifies *)
(** The observation certifies: the backend is on a list of ours and is no third party,
    and either names the meter or reports the local imputation. *)
Definition certifies (extra : string) (backend basis node : json) : Prop :=
  ∃ b ba, _clean backend = Some b ∧ _clean basis = Some ba ∧ _is_third_party (py_lower b) = false ∧
    (∃ p, p ∈ sovereign_backends extra ∧ startswith (py_lower b) p = true) ∧
    (ba = BASIS_IMPUTED_LOCAL ∨ (ba = BASIS_MEASURED_GPU ∧ ∃ n, _clean node = Some n)).

Lemma sovereign_backend_ok extra b : _is_sovereign_backend extra b = true ↔ ∃ p, p ∈ sovereign_backends extra ∧ startswith b p = true.
Proof. apply existsb_elem_of. Qed.
Lemma sovereign_prefix_nonempty extra p : p ∈ sovereign_backends extra → p ≠ "".
Proof.
  unfold sovereign_backends. rewrite elem_of_app. intros [H%list_elem_of_In|(q & -> & [Hq _]%elem_of_filter_bool)%list_elem_of_fmap].
  - cbn in H. by destruct_or! H; subst.
  - destruct (strip q); done.
Qed.

(** Sovereignty is certified by evidence only.  The verdict is one of three states; it
    is sovereign exactly when the observation certifies, whatever the operator has
    added to the list; a third party that answered is always a violation; and a
    missing backend, or an unknown one, is never a violation nor sovereign. *)
Theorem sovereign_exactly extra backend basis node : let v := Sovereignty_classify extra backend basis node in
  vd_state v ∈ [SOVEREIGN; VIOLATED; UNOBSERVED_] ∧
  (is_sovereign v = true ↔ certifies extra backend basis node) ∧
  (∀ b, _clean backend = Some b → _is_third_party (py_lower b) = true → vd_state v = VIOLATED) ∧
  ((_clean backend = None ∨ ∃ b, _clean backend = Some b ∧ _is_third_party (py_lower b) = false ∧ _is_sovereign_backend extra (py_lower b) = false) →
    vd_state v = UNOBSERVED_).
Proof.
  unfold Sovereignty_classify, certifies, is_sovereign. cbv zeta. setoid_rewrite <- sovereign_backend_ok.
  assert (SOVEREIGN ≠ UNOBSERVED_ ∧ SOVEREIGN ≠ VIOLATED) as [Hsu Hsv] by done.
  assert (∀ s, s = SOVEREIGN ∨ s = VIOLATED ∨ s = UNOBSERVED_ → s ∈ [SOVEREIGN; VIOLATED; UNOBSERVED_]) as Hin by set_solver.
  destruct (_clean backend) as [b|]; rewrite bool_decide_eq_true;
    [|split; [by apply Hin; auto|]; split; [split; [by intros ?|by intros (? & ? & ? & _)]|]; split; [by intros ? ?|done]].
  destruct (_is_third_party (py_lower b)) eqn:H3.
  { split; [apply Hin; auto|]. split; [split; [by intros ?|intros (? & ? & [= <-] & _ & ? & _); congruence]|]. split; [done|].
    intros [?|(? & [= <-] & ? & _)]; congruence. }
  destruct (_is_sovereign_backend extra (py_lower b)) eqn:Hs; cbn [negb].
  2:{ split; [apply Hin; auto|]. split; [split; [by intros ?|intros (? & ? & [= <-] & _ & _ & ? & _); congruence]|].
      split; [|done]. intros ? [= <-]. congruence. }
  assert (∀ s, (∀ b', Some b = Some b' → _is_third_party (py_lower b') = true → s = VIOLATED) ∧
    ((Some b = None ∨ ∃ b', Some b = Some b' ∧ _is_third_party (py_lower b') = false ∧ _is_sovereign_backend extra (py_lower b') = false) →
      s = UNOBSERVED_)) as Hrest.
  { intros s. split; [intros ? [= <-]; congruence|]. intros [?|(? & [= <-] & _ & ?)]; congruence. }
  destruct (_clean basis) as [ba|]; [|split; [apply Hin; auto|]; split; [split; [by intros ?|by intros (? & ? & _ & ? & _)]|apply Hrest]].
  destruct (decide (ba = BASIS_MEASURED_GPU)) as [->|Hg].
  { rewrite bool_decide_eq_true_2 by done. destruct (_clean node) as [n|]; cbn [vd_state];
      (split; [apply Hin; auto|split; [|apply Hrest]]); split; try done; intros H.
    - eexists _, _. do 4 (split; [reflexivity || assumption|]). right. by eauto.
    - by destruct H as (? & ? & _ & [= <-] & _ & _ & [?|(_ & ? & ?)]). }
  rewrite (bool_decide_eq_false_2 (ba = BASIS_MEASURED_GPU)) by done. destruct (decide (ba = BASIS_IMPUTED_LOCAL)) as [->|Hl].
  - rewrite bool_decide_eq_true_2 by done. cbn [vd_state]. split; [apply Hin; auto|]. split; [|apply Hrest]. split; [|done]. intros _.
    eexists _, _. do 4 (split; [reflexivity || assumption|]). by left.
  - rewrite (bool_decide_eq_false_2 (ba = BASIS_IMPUTED_LOCAL)) by done. cbn [vd_state]. split; [apply Hin; auto|]. split; [|apply Hrest].
    split; [by intros ?|]. by intros (? & ? & _ & [= <-] & _ & _ & [?|(? & _)]).
Qed.
