(* ===== verification/FailureMemory.v ===== *)
(** * Cross-run memory of a card

    [autocode/failure_memory.py]: distilling the notes of a failed run to one line, and
    the bounded block of earlier failures or successes a fresh session may see.  The
    regular expressions are matchers over the text; a card payload is a JSON value. *)
From S2P Require Import Prelude Orders PyDict PyFloat Canonical Json PyText Regex Buckets.
From Stdlib Require Import Ascii.

Definition MAX_ATTEMPTS : nat := 3.
Definition MAX_CHARS : nat := 600.
Definition MAX_CAUSE_CHARS : nat := 180.
Definition _HEADER : string :=
  "Prior attempts on this card (distilled, UNVERIFIED: these are " +:+ "reports from earlier runs that FAILED, not findings, so verify each " +:+
  "against the code before acting on it):".
Definition _SUCCESS_HEADER : string :=
  "Prior successes on this card (distilled, UNVERIFIED: these " +:+ "are reports from earlier runs, not findings, so verify each " +:+
  "against the code before relying on it):".

(** ** Lines and patterns *)
(** The line ends of [str.splitlines()] below 256. *)
Definition line_end (c : ascii) : bool :=
  let n := N_of_ascii c in ((10 <=? n) && (n <=? 13) || (28 <=? n) && (n <=? 30) || (n =? 133))%N.
Definition is_cr (c : ascii) : bool := (N_of_ascii c =? 13)%N.
Definition is_lf (c : ascii) : bool := (N_of_ascii c =? 10)%N.
(** [after_cr]: the previous character was a carriage return, with which a line feed
    forms one line end. *)
Fixpoint lines_from (after_cr : bool) (cur : string) (s : string) : list string :=
  match s with
  | EmptyString => if is_empty_str cur then [] else [String.rev cur]
  | String c s' =>
      if after_cr && is_lf c then lines_from false "" s'
      else if line_end c then String.rev cur :: lines_from (is_cr c) "" s'
      else lines_from false (String c cur) s'
  end.
Definition text_lines (s : string) : list string := lines_from false "" s.
(** The words of [s.split()] joined by single spaces *)
Definition collapse (s : string) : string := str_join " " (words s).

Definition head_is (p : ascii → bool) (s : string) : bool := match s with String c _ => p c | EmptyString => false end.
(** What follows [p] at the start of [s], ignoring case. *)
Definition after_word (p s : string) : option string :=
  if bool_decide (py_lower (String.substring 0 (String.length p) s) = p) then Some (str_drop (String.length p) s) else None.
(** [\s+] and then a character that [q] accepts, which is not a space *)
Definition gap_then (q : ascii → bool) (s : string) : bool := head_is is_space s && head_is q (lstrip s).
(** [^\s*(?:FAILED|ERROR)\s+\S+], ignoring case *)
Definition failed_line (ln : string) : bool :=
  match after_word "failed" (lstrip ln), after_word "error" (lstrip ln) with
  | Some r, _ | None, Some r => gap_then (λ _, true) r
  | None, None => false
  end.
(** [\b\S*::\S*test\S*]: in one run of text, a word character before the colons. *)
Fixpoint node_from (seen : bool) (t : string) : bool :=
  (seen && startswith t "::" && str_contains "test" (str_drop 2 t)) ||
  match t with EmptyString => false | String c t' => node_from (seen || word_char c) t' end.
Definition node_line (ln : string) : bool := existsb (node_from false) (words ln).
(** [^\s*E\s{2,}\S] *)
Definition detail_line (ln : string) : bool :=
  match lstrip ln with
  | String c r => (N_of_ascii c =? 69)%N && match r with
      | String d r' => is_space d && gap_then (λ _, true) r' | EmptyString => false end
  | EmptyString => false
  end.
(** [\bassert\b] *)
Fixpoint assert_from (before : bool) (s : string) : bool :=
  (negb before && startswith s "assert" && negb (head_is word_char (str_drop 6 s))) ||
  match s with EmptyString => false | String c s' => assert_from (word_char c) s' end.
Definition _SIGNAL : list (string → bool) := [failed_line; node_line; detail_line; assert_from false].
(** The word File, a gap and a double quote, or [^\s*Traceback\b], ignoring case *)
Definition noise_line (ln : string) : bool :=
  match after_word "file" (lstrip ln) with Some r => gap_then (Ascii.eqb quote_char) r | None => false end ||
  match after_word "traceback" (lstrip ln) with Some r => negb (head_is word_char r) | None => false end.

Section memory.
Context {PF : Platform}.
(** [str(value or ...)] with an empty default *)
Definition text_or_empty (j : json) : string := if py_truthy j then py_str j else "".

Fixpoint first_signal (patterns : list (string → bool)) (lines : list string) : option string :=
  match patterns with
  | [] => None
  | p :: rest => match find_first p lines with Some ln => Some ln | None => first_signal rest lines end
  end.
Definition clip (limit : nat) (ln : string) : string := rstrip (String.substring 0 limit ln).
Definition cause_lines (notes : json) : list string :=
  List.filter (λ ln, negb (is_empty_str ln) && negb (noise_line ln)) (collapse <$> text_lines (text_or_empty notes)).
Definition distill_failure (notes : json) (limit : nat) : string :=
  match cause_lines notes with
  | [] => "no grader detail was returned"
  | ln :: _ => clip limit (default ln (first_signal _SIGNAL (cause_lines notes)))
  end.

(** ** The stored entries *)
Definition entry := list (string * json).
Definition as_object (j : option json) : option entry := match j with Some (JObj ms) => Some ms | _ => None end.
Definition stored (array : string) (payload : json) : list entry :=
  match as_object (Some payload) ≫= λ p, as_object (jget "meta" p) ≫= λ m, as_object (jget "autopilot" m) ≫= λ a, jget array a with
  | Some (JArr raw) => omap (λ e, as_object (Some e)) raw
  | _ => []
  end.
Definition _attempts (payload : json) : list entry := stored "attempts" payload.
Definition _successes (payload : json) : list entry := stored "successes" payload.
Definition _one_line (text : json) : string := collapse (text_or_empty text).
Definition field_line (k : string) (e : entry) : string := _one_line (jget_or_none k e).

(** ** The newest distinct entries *)
Definition numbered (es : list entry) : list (Z * entry) := zip_with (λ i e, (Z.of_nat i, e)) (seq 0 (length es)) es.
Definition when_key (p : Z * entry) : triple := (0%Z, text_or_empty (jget_or_none "ts" p.2), p.1).
Definition cause_key (field : string) (p : Z * entry) : string * string :=
  (text_or_empty (jget_or_none "outcome" p.2), py_lower (strip (field_line field p.2))).
(** The loop over the entries from the newest on. *)
Fixpoint pick_newest (field : string) (seen : list (string * string)) (kept : list (Z * entry)) (ps : list (Z * entry)) : list (Z * entry) :=
  match ps with
  | [] => kept
  | p :: rest =>
      if bool_decide (cause_key field p ∈ seen) then pick_newest field seen kept rest
      else let kept := kept ++ [p] in
           if (MAX_ATTEMPTS <=? length kept)%nat then kept else pick_newest field (cause_key field p :: seen) kept rest
  end.
Definition newest_pairs (field : string) (es : list entry) : list (Z * entry) :=
  lex_sort when_key (pick_newest field [] [] (reverse (lex_sort when_key (numbered es)))).
Definition _distinct_newest (es : list entry) : list entry := (newest_pairs "why_failed" es).*2.
Definition _distinct_newest_successes (es : list entry) : list entry := (newest_pairs "why_succeeded" es).*2.

Definition _render (e : entry) : string :=
  let why := field_line "why_failed" e in
  let hint := field_line "replacement_hint" e in
  if is_empty_str hint then "- This previously failed for " +:+ why +:+ "; avoid repeating that approach."
  else "- This failed for " +:+ why +:+ ", try " +:+ hint +:+ ".".
Definition _render_success (e : entry) : string :=
  let why := field_line "why_succeeded" e in
  let hint := field_line "approach_hint" e in
  if is_empty_str hint then "- This previously succeeded via " +:+ why +:+ "."
  else "- This succeeded via " +:+ why +:+ ", using " +:+ hint +:+ ".".

(** ** The block *)
Definition block_of (header : string) (lines pointer : list string) : string := str_join newline (header :: lines ++ pointer).
Fixpoint fit_block (header : string) (pointer lines : list string) : string :=
  let block := block_of header lines pointer in
  if (String.length block <=? MAX_CHARS)%nat then block
  else match lines with
       | [] | [_] => String.substring 0 MAX_CHARS block
       | _ :: rest => fit_block header pointer rest
       end.
Definition pointer_to (kept : list entry) : list string :=
  match last kept with
  | Some e => let run := field_line "run_id" e in if is_empty_str run then [] else ["Raw history: autopilot/runs/" +:+ run]
  | None => []
  end.
Definition feedback (header : string) (render : entry → string) (kept : list entry) : option string :=
  match kept with [] => None | _ => Some (fit_block header (pointer_to kept) (map render kept)) end.
Definition build_prior_feedback (payload : json) : option string := feedback _HEADER _render (_distinct_newest (_attempts payload)).
Definition build_prior_success_feedback (payload : json) : option string :=
  feedback _SUCCESS_HEADER _render_success (_distinct_newest_successes (_successes payload)).
End memory.

(** * The memory keeps the newest distinct entries, within its bound *)
Section facts.
Context {PF : Platform}.
Implicit Types (p q : Z * entry) (field : string).
Notation older := (lex_le when_key).

(** ** Picking from the newest on *)
Definition remembered field (kept : list (Z * entry)) p : Prop :=
  (∃ q, q ∈ kept ∧ cause_key field q = cause_key field p ∧ older p q) ∨ (length kept = MAX_ATTEMPTS ∧ ∀ q, q ∈ kept → older p q).
Lemma older_refl p : older p p.
Proof. destruct (lex_leb_total (when_key p) (when_key p)); done. Qed.
Lemma pick_newest_spec field seen kept ps :
  StronglySorted (flip older) ps → (∀ p q, p ∈ ps → q ∈ kept → older p q) →
  (∀ k, k ∈ seen ↔ k ∈ cause_key field <$> kept) → NoDup (cause_key field <$> kept) → (length kept < MAX_ATTEMPTS)%nat →
  let r := pick_newest field seen kept ps in
  (length r ≤ MAX_ATTEMPTS)%nat ∧ NoDup (cause_key field <$> r) ∧ (∀ q, q ∈ kept → q ∈ r) ∧ (∀ q, q ∈ r → q ∈ kept ∨ q ∈ ps) ∧
  ∀ p, p ∈ ps → remembered field r p.
Proof.
  cbv zeta. revert seen kept. induction ps as [|p ps IH]; intros seen kept Hs Hold Hseen Hnd Hlen; cbn [pick_newest].
  { split; [lia|]. split; [done|]. split; [done|]. split; [by left|]. by intros ? ?%elem_of_nil. }
  apply StronglySorted_inv in Hs as [Hs Hp]. rewrite Forall_forall in Hp.
  assert (∀ p' q, p' ∈ ps → q ∈ kept → older p' q) as Hold' by (intros p' q Hp'; apply Hold; by right).
  case_bool_decide as Hk.
  - destruct (IH seen kept Hs Hold' Hseen Hnd Hlen) as (H1 & H2 & H3 & H4 & H5). do 3 (split; [done|]). split; [set_solver|].
    intros p' [-> |Hp']%elem_of_cons; [|by apply H5]. left. apply Hseen, list_elem_of_fmap in Hk as (q & Eq & Hq). exists q.
    split; [by apply H3|]. split; [done|]. apply Hold; [left|done].
  - assert (NoDup (cause_key field <$> kept ++ [p])) as Hnd'.
    { rewrite fmap_app. apply NoDup_app. split; [done|]. split; [|apply NoDup_singleton]. intros k Hk' Hin.
      cbn in Hin. apply list_elem_of_singleton in Hin as ->. by rewrite Hseen in Hk. }
    assert (∀ p' q, p' ∈ ps → q ∈ kept ++ [p] → older p' q) as Hold2.
    { intros p' q Hp' [Hq|Hq%list_elem_of_singleton]%elem_of_app; [by apply Hold'|]. subst q. by apply Hp. }
    destruct (Nat.leb_spec MAX_ATTEMPTS (length (kept ++ [p]))) as [Hl|Hl]; rewrite length_app in Hl; cbn [length] in Hl.
    + assert (length (kept ++ [p]) = MAX_ATTEMPTS) as Hl' by (rewrite length_app; cbn [length]; lia).
      split; [lia|]. split; [done|]. split; [set_solver|]. split; [set_solver|].
      intros p' [-> |Hp']%elem_of_cons.
      * left. exists p. split; [set_solver|]. split; [done|apply older_refl].
      * right. split; [done|]. intros q. by apply Hold2.
    + destruct (IH (cause_key field p :: seen) (kept ++ [p]) Hs Hold2) as (H1 & H2 & H3 & H4 & H5).
      * intros k. rewrite fmap_app, elem_of_app, elem_of_cons, Hseen. cbn. rewrite list_elem_of_singleton. tauto.
      * done.
      * rewrite length_app. cbn [length]. lia.
      * do 2 (split; [done|]). split; [set_solver|]. split; [set_solver|].
        intros p' [-> |Hp']%elem_of_cons; [|by apply H5]. left. exists p. split; [apply H3; set_solver|]. split; [done|apply older_refl].
Qed.
Lemma StronglySorted_reverse {A} (R : A → A → Prop) xs : StronglySorted R xs → StronglySorted (flip R) (reverse xs).
Proof.
  induction 1 as [|x xs _ IH Hx]; [constructor|]. rewrite reverse_cons. apply StronglySorted_app. split; [|split; [done|]].
  - intros y z Hy Hz. apply list_elem_of_singleton in Hz as ->. rewrite elem_of_reverse in Hy. rewrite Forall_forall in Hx. by apply Hx.
  - by repeat constructor.
Qed.

(** C40: The memory forgets by policy, not by accident.  Of the stored entries it keeps at
    most three, no two with the same outcome and cause, oldest first; every stored
    entry is either represented by a kept one with its outcome and cause that is at
    least as new, or older than all three that were kept.  In particular nothing is
    forgotten while there is room. *)
Theorem memory_keeps_newest field es : let kept := newest_pairs field es in
  (length kept ≤ MAX_ATTEMPTS)%nat ∧ NoDup (cause_key field <$> kept) ∧ StronglySorted older kept ∧
  (∀ q, q ∈ kept → q ∈ numbered es) ∧ ∀ p, p ∈ numbered es → remembered field kept p.
Proof.
  cbv zeta. unfold newest_pairs.
  destruct (pick_newest_spec field [] [] (reverse (lex_sort when_key (numbered es)))) as (H1 & H2 & _ & H4 & H5).
  - apply StronglySorted_reverse, lex_sort_sorted.
  - by intros ? ? _ ?%elem_of_nil.
  - done.
  - constructor.
  - unfold MAX_ATTEMPTS. cbn. lia.
  - set (r := pick_newest _ _ _ _) in *. pose proof (lex_sort_perm when_key r) as Hperm.
    split; [by rewrite Hperm|]. split; [by rewrite Hperm|]. split; [apply lex_sort_sorted|]. split.
    + intros q. rewrite Hperm. intros [?%elem_of_nil|Hq]%H4; [done|]. by rewrite elem_of_reverse, lex_sort_perm in Hq.
    + intros p Hp. rewrite <- (lex_sort_perm when_key (numbered es)), <- elem_of_reverse in Hp.
      destruct (H5 p Hp) as [(q & Hq & ?)|[Hl Hq]]; [left; exists q; by rewrite Hperm|right].
      split; [by rewrite Hperm|]. intros q. rewrite Hperm. apply Hq.
Qed.

(** ** The block *)
Lemma substring_id n s : (String.length s ≤ n)%nat → String.substring 0 n s = s.
Proof.
  revert n. induction s as [|c s IH]; intros n Hn; [by destruct n|]. destruct n as [|n]; cbn in *; [lia|]. f_equal. apply IH. lia.
Qed.
Lemma substring_length n s : (String.length (String.substring 0 n s) ≤ n)%nat.
Proof. revert n. induction s as [|c s IH]; intros [|n]; cbn; try lia. specialize (IH n). lia. Qed.
Lemma fit_block_spec header pointer lines : lines ≠ [] → ∃ k, (k < length lines)%nat ∧
  fit_block header pointer lines = String.substring 0 MAX_CHARS (block_of header (drop k lines) pointer) ∧
  (S k = length lines ∨ (String.length (block_of header (drop k lines) pointer) ≤ MAX_CHARS)%nat) ∧
  ∀ j, (j < k)%nat → (MAX_CHARS < String.length (block_of header (drop j lines) pointer))%nat.
Proof.
  induction lines as [|l lines IH]; [done|]. intros _. cbn -[MAX_CHARS block_of].
  destruct (Nat.leb_spec (String.length (block_of header (l :: lines) pointer)) MAX_CHARS) as [Hl|Hl].
  { exists 0%nat. split; [lia|]. rewrite substring_id by done. split; [done|]. split; [by right|lia]. }
  destruct lines as [|l' lines]; [exists 0%nat; split; [lia|]; split; [done|]; split; [by left|lia]|].
  destruct (IH ltac:(done)) as (k & Hk & Hfit & Hor & Hj). exists (S k). split; [cbn in *; lia|]. split; [exact Hfit|].
  split; [destruct Hor; [left; cbn in *; lia|by right]|]. intros [|j] Hjk; [done|]. apply Hj. lia.
Qed.
Lemma numbered_elem es i e : es !! i = Some e → (Z.of_nat i, e) ∈ numbered es.
Proof.
  intros H. unfold numbered. apply (list_elem_of_lookup_2 _ i). rewrite lookup_zip_with, H.
  rewrite lookup_seq_lt by (by eapply lookup_lt_Some). done.
Qed.
Lemma newest_pairs_nil field es : newest_pairs field es = [] → es = [].
Proof.
  intros H. destruct es as [|e es]; [done|]. destruct (memory_keeps_newest field (e :: es)) as (_ & _ & _ & _ & Hr).
  destruct (Hr (0%Z, e)) as [(q & Hq & _)|[Hl _]]; [by apply (numbered_elem _ 0)| |].
  - rewrite H in Hq. by apply elem_of_nil in Hq.
  - by rewrite H in Hl.
Qed.
(** The block of [kept]: within the bound, without the [k] oldest lines, as few as make
    it fit, but never without the newest. *)
Definition bounded_block (header : string) (render : entry → string) (kept : list entry) (block : string) : Prop :=
  (String.length block ≤ MAX_CHARS)%nat ∧ ∃ k, (k < length kept)%nat ∧
    block = String.substring 0 MAX_CHARS (block_of header (map render (drop k kept)) (pointer_to kept)) ∧
    (S k = length kept ∨ (String.length (block_of header (map render (drop k kept)) (pointer_to kept)) ≤ MAX_CHARS)%nat) ∧
    ∀ j, (j < k)%nat → (MAX_CHARS < String.length (block_of header (map render (drop j kept)) (pointer_to kept)))%nat.
Lemma feedback_spec header render kept : match feedback header render kept with
  | None => kept = [] | Some block => bounded_block header render kept block end.
Proof.
  unfold feedback. destruct kept as [|e kept]; [done|]. set (es := e :: kept).
  destruct (fit_block_spec header (pointer_to es) (map render es)) as (k & Hk & Hfit & Hor & Hj); [done|].
  rewrite Hfit. rewrite length_map in *. setoid_rewrite skipn_map in Hj. rewrite skipn_map in *. split; [apply substring_length|].
  exists k. done.
Qed.
(** The block a fresh session sees is bounded and says the most it can.  There is none
    exactly when nothing was stored; otherwise it has at most 600 characters and holds
    the header, the kept entries without as many of the oldest as had to go, never
    without the newest, and the pointer to the newest run, cut only when the newest
    line alone does not fit.  The same holds of failures and of successes. *)
Theorem feedback_bounded payload :
  match build_prior_feedback payload with
  | None => _attempts payload = []
  | Some block => bounded_block _HEADER _render (_distinct_newest (_attempts payload)) block end ∧
  match build_prior_success_feedback payload with
  | None => _successes payload = []
  | Some block => bounded_block _SUCCESS_HEADER _render_success (_distinct_newest_successes (_successes payload)) block end.
Proof.
  unfold build_prior_feedback, build_prior_success_feedback. split.
  - pose proof (feedback_spec _HEADER _render (_distinct_newest (_attempts payload))) as H. destruct (feedback _ _ _); [done|].
    apply fmap_nil_inv in H. by apply newest_pairs_nil in H.
  - pose proof (feedback_spec _SUCCESS_HEADER _render_success (_distinct_newest_successes (_successes payload))) as H. destruct (feedback _ _ _); [done|].
    apply fmap_nil_inv in H. by apply newest_pairs_nil in H.
Qed.

(** ** One line per cause *)
Definition no_space (w : string) : bool := str_forallb (λ c, negb (is_space c)) w.
Lemma str_forallb_rev f s : str_forallb f (String.rev s) = str_forallb f s.
Proof. induction s as [|c s IH]; [done|]. rewrite str_rev_cons, str_forallb_app, IH. cbn. by destruct (f c), (str_forallb f s). Qed.
Lemma words_from_spec cur s : no_space cur = true → Forall (λ w, w ≠ "" ∧ no_space w = true) (words_from cur s).
Proof.
  assert (∀ cur, no_space cur = true → is_empty_str cur = false → String.rev cur ≠ "" ∧ no_space (String.rev cur) = true) as Hrev.
  { intros c H He. split; [|unfold no_space; by rewrite str_forallb_rev]. intros E. apply (f_equal String.rev) in E.
    rewrite str_rev_involutive in E. subst c. done. }
  revert cur. induction s as [|c s IH]; intros cur Hc; cbn [words_from].
  - destruct (is_empty_str cur) eqn:He; [constructor|]. constructor; [by apply Hrev|constructor].
  - destruct (is_space c) eqn:Hs; [|apply IH; unfold no_space; cbn; by rewrite Hs].
    destruct (is_empty_str cur) eqn:He; [by apply IH|]. constructor; [by apply Hrev|by apply IH].
Qed.
(** The pattern of an assertion detail, the letter E and at least two spaces, is tried on
    lines whose runs of whitespace were already joined: it never matches. *)
Theorem detail_never_matches s : detail_line (collapse s) = false.
Proof.
  unfold collapse, words. pose proof (words_from_spec "" s eq_refl) as H. destruct (words_from "" s) as [|w ws]; [done|].
  apply Forall_cons in H as [[Hne Hw] Hws]. destruct w as [|c w]; [done|]. unfold no_space in Hw. cbn in Hw. apply andb_prop in Hw as [Hc Hw].
  apply negb_true_iff in Hc. unfold detail_line.
  destruct w as [|d w].
  - destruct ws as [|w' ws].
    + cbn [str_join lstrip]. rewrite Hc. by rewrite andb_false_r.
    + assert (lstrip (str_join " " (String c "" :: w' :: ws)) = String c (String " " (str_join " " (w' :: ws)))) as ->
        by (change (str_join " " (String c "" :: w' :: ws)) with (String c (String " " (str_join " " (w' :: ws)))); cbn [lstrip]; by rewrite Hc).
      apply Forall_cons in Hws as [[Hne' Hw'] _]. destruct w' as [|d w']; [done|]. unfold no_space in Hw'. cbn in Hw'. apply andb_prop in Hw' as [Hd _].
      apply negb_true_iff in Hd. unfold gap_then. assert (head_is is_space (str_join " " (String d w' :: ws)) = false) as ->.
      { destruct ws; exact Hd. }
      by rewrite andb_false_l, !andb_false_r.
  - cbn in Hw. apply andb_prop in Hw as [Hd _]. apply negb_true_iff in Hd.
    assert (∃ t, str_join " " (String c (String d w) :: ws) = String c (String d t)) as [t ->] by (destruct ws; cbn; by eexists).
    cbn [lstrip]. rewrite Hc, Hd. by rewrite andb_false_r.
Qed.
End facts.
