(* ===== verification/WalletCorrection.v ===== *)
(** * Correcting the joule wallet

    [autocode/wallet_correction.py]: the series of balances a ledger would have had
    without the mints of the test suite.  A ledger row is the fields it carries, as the
    writer of the wallet records them: texts and integers.  Reading the ledger,
    publishing the correction beside it and the command line are file and terminal I/O
    around [correct_ledger]. *)
From S2P Require Import Prelude PyFloat PyStats.
Local Open Scope Z_scope.

Definition FIXTURE_DESCRIPTION : string := "autocode task_complete t1".
Definition FIXTURE_AMOUNT : Z := 75.
Definition FIXTURE_KIND : string := "mint".
Definition FIXTURE_COUNTERPARTY : string := "economy".
Definition LAST_FIXTURE_TIMESTAMP : string := "2026-08-17T01:48:06.760525+00:00".

Record wallet_row := {
  wr_timestamp : option string; wr_kind : option string; wr_amount : option Z; wr_description : option string;
  wr_counterparty : option string; wr_balance_after : option Z }.
Definition is_fabricated (cutoff : string) (row : wallet_row) : bool :=
  match wr_description row with Some d => bool_decide (strip d = FIXTURE_DESCRIPTION) | None => false end &&
  bool_decide (wr_kind row = Some FIXTURE_KIND) && bool_decide (wr_amount row = Some FIXTURE_AMOUNT) &&
  bool_decide (wr_counterparty row = Some FIXTURE_COUNTERPARTY) &&
  match wr_timestamp row with Some t => bool_decide (String.le t cutoff) | None => false end.

Record CorrectedRow := {
  cr_index : Z; cr_timestamp : string; cr_kind : string; cr_amount : Z; cr_description : string; cr_fabricated : bool;
  cr_recorded_balance : Z; cr_corrected_balance : Z; cr_cumulative_fabricated : Z }.
Record ContinuityAnomaly := {
  ca_index : Z; ca_timestamp : string; ca_kind : string; ca_amount : Z; ca_recorded_balance : Z; ca_expected_balance : Z; ca_description : string }.
Record Correction := {
  co_rows : list CorrectedRow; co_total_rows : Z; co_fabricated_count : Z; co_fabricated_joules : Z; co_recorded_balance : Z;
  co_corrected_balance : Z; co_first_fabricated_index : option Z; co_first_fabricated_timestamp : option string;
  co_last_fabricated_timestamp : option string; co_min_corrected_balance : Z; co_spends_requiring_fabricated_joules : Z;
  co_continuity_anomalies : list ContinuityAnomaly }.
(** [fraction_fabricated] *)
Definition fraction_fabricated (c : Correction) : float :=
  if co_total_rows c =? 0 then 0 else rnd_q (co_fabricated_count c * f_unit) (co_total_rows c).

Definition is_mint (row : wallet_row) : bool := bool_decide (wr_kind row = Some FIXTURE_KIND).
Definition _delta (row : wallet_row) : Z := let amount := default 0 (wr_amount row) in if is_mint row then amount else - Z.abs amount.
Definition recorded_of (row : wallet_row) : Z := default 0 (wr_balance_after row).

(** The variables of the loop: the correction so far, the fabricated total and the
    balance recorded before. *)
Record loop_state := { ls_result : Correction; ls_cumulative : Z; ls_previous : Z }.
Definition correct_row (cutoff : string) (st : loop_state) (ir : Z * wallet_row) : loop_state :=
  let '(index, row) := ir in
  let r := ls_result st in
  let recorded := recorded_of row in
  let fabricated := is_fabricated cutoff row in
  let cumulative := ls_cumulative st + if fabricated then default 0 (wr_amount row) else 0 in
  let first := fabricated && bool_decide (co_first_fabricated_index r = None) in
  let corrected := recorded - cumulative in
  let expected := ls_previous st + _delta row in
  let anomaly := {|
    ca_index := index; ca_timestamp := default "" (wr_timestamp row); ca_kind := default "" (wr_kind row); ca_amount := default 0 (wr_amount row);
    ca_recorded_balance := recorded; ca_expected_balance := expected; ca_description := default "" (wr_description row) |} in
  let corrected_row := {|
    cr_index := index; cr_timestamp := default "" (wr_timestamp row); cr_kind := default "" (wr_kind row); cr_amount := default 0 (wr_amount row);
    cr_description := default "" (wr_description row); cr_fabricated := fabricated; cr_recorded_balance := recorded;
    cr_corrected_balance := corrected; cr_cumulative_fabricated := cumulative |} in
  {| ls_result := {|
       co_rows := co_rows r ++ [corrected_row]; co_total_rows := co_total_rows r;
       co_fabricated_count := co_fabricated_count r + if fabricated then 1 else 0;
       co_fabricated_joules := co_fabricated_joules r; co_recorded_balance := co_recorded_balance r; co_corrected_balance := co_corrected_balance r;
       co_first_fabricated_index := if first then Some index else co_first_fabricated_index r;
       co_first_fabricated_timestamp := if first then wr_timestamp row else co_first_fabricated_timestamp r;
       co_last_fabricated_timestamp := if fabricated then wr_timestamp row else co_last_fabricated_timestamp r;
       co_min_corrected_balance :=
         if (index =? 0) || (corrected <? co_min_corrected_balance r) then corrected else co_min_corrected_balance r;
       co_spends_requiring_fabricated_joules :=
         co_spends_requiring_fabricated_joules r + if negb (is_mint row) && (corrected <? 0) then 1 else 0;
       co_continuity_anomalies := co_continuity_anomalies r ++ if expected =? recorded then [] else [anomaly] |};
     ls_cumulative := cumulative; ls_previous := recorded |}.
Definition enumerate {A} (xs : list A) : list (Z * A) := zip_with (λ i x, (Z.of_nat i, x)) (seq 0 (length xs)) xs.
Definition correction_start (total : Z) : loop_state := {|
  ls_result := {| co_rows := []; co_total_rows := total; co_fabricated_count := 0; co_fabricated_joules := 0;
    co_recorded_balance := 0; co_corrected_balance := 0; co_first_fabricated_index := None; co_first_fabricated_timestamp := None;
    co_last_fabricated_timestamp := None; co_min_corrected_balance := 0; co_spends_requiring_fabricated_joules := 0;
    co_continuity_anomalies := [] |};
  ls_cumulative := 0; ls_previous := 0 |}.
Definition correct_ledger (rows : list wallet_row) (cutoff : string) : Correction :=
  let st := foldl (correct_row cutoff) (correction_start (Z.of_nat (length rows))) (enumerate rows) in
  let r := ls_result st in
  let recorded := match last rows with Some row => recorded_of row | None => 0 end in
  {| co_rows := co_rows r; co_total_rows := co_total_rows r; co_fabricated_count := co_fabricated_count r;
     co_fabricated_joules := ls_cumulative st; co_recorded_balance := recorded; co_corrected_balance := recorded - ls_cumulative st;
     co_first_fabricated_index := co_first_fabricated_index r; co_first_fabricated_timestamp := co_first_fabricated_timestamp r;
     co_last_fabricated_timestamp := co_last_fabricated_timestamp r; co_min_corrected_balance := co_min_corrected_balance r;
     co_spends_requiring_fabricated_joules := co_spends_requiring_fabricated_joules r; co_continuity_anomalies := co_continuity_anomalies r |}.

(** ** What the correction says *)
Lemma zsum_cons {A} (f : A → Z) x xs : zsum f (x :: xs) = f x + zsum f xs.
Proof. done. Qed.
Section facts.
Variable cutoff : string.
Implicit Types (rows : list wallet_row).
Definition fabricated_amount (row : wallet_row) : Z := if is_fabricated cutoff row then default 0 (wr_amount row) else 0.
(** What the genuine rows of a ledger add up to: the ledger replayed without the fixture mints. *)
Definition genuine_delta (row : wallet_row) : Z := if is_fabricated cutoff row then 0 else _delta row.
Lemma fabricated_is_mint row : is_fabricated cutoff row = true → _delta row = FIXTURE_AMOUNT ∧ fabricated_amount row = FIXTURE_AMOUNT.
Proof.
  intros H. unfold fabricated_amount. rewrite H. unfold is_fabricated in H. rewrite !andb_true_iff, !bool_decide_eq_true in H.
  destruct H as [[[[_ Hk] Ha] _] _]. unfold _delta, is_mint. rewrite Ha, Hk. done.
Qed.
Lemma delta_split row : genuine_delta row + fabricated_amount row = _delta row.
Proof.
  destruct (is_fabricated cutoff row) eqn:H.
  - destruct (fabricated_is_mint row H) as [-> ->]. unfold genuine_delta. by rewrite H.
  - unfold genuine_delta, fabricated_amount. rewrite H. lia.
Qed.
Lemma enumerate_snoc {A} (xs : list A) x : enumerate (xs ++ [x]) = enumerate xs ++ [(Z.of_nat (length xs), x)].
Proof.
  unfold enumerate. rewrite length_app, seq_app. cbn [length]. rewrite zip_with_app; [done|]. by rewrite length_seq.
Qed.
(** A ledger without a gap: each balance is the one before plus what the row moves. *)
Fixpoint continuous_from (before : Z) (rows : list wallet_row) : Prop :=
  match rows with
  | [] => True
  | row :: rows => recorded_of row = before + _delta row ∧ continuous_from (recorded_of row) rows
  end.
Lemma continuous_snoc before rows row : continuous_from before (rows ++ [row]) ↔
  continuous_from before rows ∧ recorded_of row = (match last rows with Some r => recorded_of r | None => before end) + _delta row.
Proof.
  revert before. induction rows as [|r rows IH]; intros before; simpl; [tauto|]. rewrite IH, last_cons. destruct (last rows); tauto.
Qed.
Lemma continuous_replay rows : continuous_from 0 rows →
  (match last rows with Some r => recorded_of r | None => 0 end) = zsum _delta rows.
Proof.
  induction rows as [|row rows IH] using rev_ind; [done|]. rewrite continuous_snoc, last_snoc, zsum_app. intros [Hc ->]. rewrite IH by done.
  change (zsum _delta [row]) with (_delta row + 0). lia.
Qed.
Lemma zsum_split rows : zsum genuine_delta rows + zsum fabricated_amount rows = zsum _delta rows.
Proof. induction rows as [|row rows IH]; [done|]. rewrite !zsum_cons. pose proof (delta_split row). lia. Qed.

(** The state of the loop after the rows. *)
Definition after (total : Z) rows : loop_state := foldl (correct_row cutoff) (correction_start total) (enumerate rows).
Lemma after_snoc total rows row : after total (rows ++ [row]) = correct_row cutoff (after total rows) (Z.of_nat (length rows), row).
Proof. unfold after. rewrite enumerate_snoc, foldl_app. done. Qed.
Definition previous_balance rows : Z := match last rows with Some r => recorded_of r | None => 0 end.
Lemma after_cumulative total rows : ls_cumulative (after total rows) = zsum fabricated_amount rows ∧ ls_previous (after total rows) = previous_balance rows.
Proof.
  induction rows as [|row rows [IH1 IH2]] using rev_ind; [done|]. rewrite after_snoc, zsum_app. unfold previous_balance. rewrite last_snoc.
  split; [|done]. change (zsum fabricated_amount [row]) with (fabricated_amount row + 0). unfold fabricated_amount at 2.
  cbn [correct_row ls_cumulative]. rewrite IH1. lia.
Qed.
(** The line of the series for each row. *)
Definition series_row rows (i : nat) (row : wallet_row) (cr : CorrectedRow) : Prop :=
  cr_index cr = Z.of_nat i ∧ cr_fabricated cr = is_fabricated cutoff row ∧ cr_recorded_balance cr = recorded_of row ∧
  cr_cumulative_fabricated cr = zsum fabricated_amount (take (S i) rows) ∧
  cr_corrected_balance cr = recorded_of row - zsum fabricated_amount (take (S i) rows).
Lemma after_rows total rows : let out := co_rows (ls_result (after total rows)) in
  length out = length rows ∧ ∀ i row, rows !! i = Some row → ∃ cr, out !! i = Some cr ∧ series_row rows i row cr.
Proof.
  cbv zeta. induction rows as [|row rows [Hl IH]] using rev_ind; [done|]. rewrite after_snoc.
  destruct (after_cumulative total rows) as [Hc _]. cbn [correct_row ls_result co_rows]. rewrite !length_app, Hl. split; [done|].
  intros i r [Hi|[Hi Hr]]%lookup_app_Some.
  - destruct (IH i r Hi) as (cr & Hcr & Hs). exists cr. split; [by apply lookup_app_l_Some|]. unfold series_row in *.
    rewrite take_app_le; [done|]. apply lookup_lt_Some in Hi. lia.
  - assert (i = length rows ∧ r = row) as [-> ->].
    { destruct (i - length rows)%nat as [|n] eqn:E; cbn in Hr; [|done]. split; [lia|congruence]. }
    eexists. rewrite lookup_app_r, Hl, Nat.sub_diag by lia. split; [done|]. unfold series_row. cbn [cr_index cr_fabricated cr_recorded_balance cr_cumulative_fabricated cr_corrected_balance].
    rewrite take_ge by (rewrite length_app; cbn; lia). rewrite zsum_app, Hc. change (zsum fabricated_amount [row]) with (fabricated_amount row + 0).
    fold (fabricated_amount row). do 3 (split; [done|]). split; lia.
Qed.
Lemma after_anomalies total rows : co_continuity_anomalies (ls_result (after total rows)) = [] ↔ continuous_from 0 rows.
Proof.
  induction rows as [|row rows IH] using rev_ind; [done|]. rewrite after_snoc, continuous_snoc, <- IH.
  destruct (after_cumulative total rows) as [_ Hp]. cbn [correct_row ls_result co_continuity_anomalies]. rewrite Hp. unfold previous_balance.
  destruct (Z.eqb_spec (match last rows with Some r => recorded_of r | None => 0 end + _delta row) (recorded_of row)) as [E|E].
  - rewrite app_nil_r, E. tauto.
  - split; [by intros [_ ?]%app_eq_nil|]. intros [_ H]. lia.
Qed.
Lemma after_min total rows : rows ≠ [] → let r := ls_result (after total rows) in
  (∃ cr, cr ∈ co_rows r ∧ cr_corrected_balance cr = co_min_corrected_balance r) ∧
  ∀ cr, cr ∈ co_rows r → co_min_corrected_balance r <= cr_corrected_balance cr.
Proof.
  cbv zeta. induction rows as [|row rows IH] using rev_ind; [done|]. intros _. rewrite after_snoc.
  destruct (after_rows total rows) as [Hl _]. cbn [correct_row ls_result co_rows co_min_corrected_balance].
  destruct rows as [|r0 rows0] eqn:Erows; rewrite <- ?Erows in *.
  - subst rows. change (co_rows (ls_result (after total []))) with (@nil CorrectedRow). cbn [length Z.of_nat Z.eqb orb app]. split.
    + eexists. split; [apply list_elem_of_singleton; reflexivity|]. done.
    + intros cr ->%list_elem_of_singleton. apply Z.le_refl.
  - destruct IH as [(cr & Hcr & Hmin) Hall]; [by rewrite Erows|]. destruct (Z.eqb_spec (Z.of_nat (length rows)) 0) as [E|_]; [rewrite Erows in E; cbn in E; lia|].
    cbn [orb]. match goal with |- context [?c <? ?m] => destruct (Z.ltb_spec c m) as [Hlt|Hge] end; (split;
      [|intros cr' [Hcr'| ->%list_elem_of_singleton]%elem_of_app; [specialize (Hall cr' Hcr')|cbn [cr_corrected_balance]]; lia]).
    + eexists. rewrite elem_of_app, list_elem_of_singleton. split; [right; reflexivity|done].
    + exists cr. rewrite elem_of_app. auto.
Qed.

(** The corrected series is what the wallet would have shown.  Every row has its line,
    whose corrected balance is the recorded one less the fixture mints up to that row;
    no anomaly is reported exactly when every recorded balance is the one before plus
    what the row moves, and then each corrected balance is the sum of the genuine rows
    so far, the ledger replayed without the fixture mints; the smallest corrected
    balance is one of the series, and the totals are those of the last row. *)
Theorem corrected_series rows : let c := correct_ledger rows cutoff in
  length (co_rows c) = length rows ∧
  (∀ i row, rows !! i = Some row → ∃ cr, co_rows c !! i = Some cr ∧ series_row rows i row cr ∧
    (co_continuity_anomalies c = [] → cr_corrected_balance cr = zsum genuine_delta (take (S i) rows))) ∧
  (co_continuity_anomalies c = [] ↔ continuous_from 0 rows) ∧
  (rows ≠ [] → (∃ cr, cr ∈ co_rows c ∧ cr_corrected_balance cr = co_min_corrected_balance c) ∧
    ∀ cr, cr ∈ co_rows c → co_min_corrected_balance c <= cr_corrected_balance cr) ∧
  co_fabricated_joules c = zsum fabricated_amount rows ∧ co_corrected_balance c = previous_balance rows - zsum fabricated_amount rows.
Proof.
  cbv zeta. set (total := Z.of_nat (length rows)). pose proof (after_rows total rows) as [Hl Hrows]. pose proof (after_anomalies total rows) as Ha.
  pose proof (after_cumulative total rows) as [Hc _]. unfold correct_ledger. fold total. fold (after total rows).
  cbn [co_rows co_continuity_anomalies co_min_corrected_balance co_fabricated_joules co_corrected_balance].
  split; [done|]. split; [|split; [done|split; [apply after_min|]]].
  - intros i row Hi. destruct (Hrows i row Hi) as (cr & Hcr & Hs). exists cr. split; [done|]. split; [done|]. intros Hcont%Ha.
    destruct Hs as (_ & _ & _ & _ & ->). pose proof (take_S_r _ _ _ Hi) as Ht.
    assert (continuous_from 0 (take (S i) rows)) as Hct.
    { rewrite <- (take_drop (S i) rows) in Hcont. revert Hcont. generalize (drop (S i) rows) as rest. generalize 0. generalize (take (S i) rows) as xs.
      induction xs as [|x xs IH]; intros b rest; [done|]. cbn. intros [? ?]. split; [done|]. by eapply IH. }
    apply continuous_replay in Hct. rewrite Ht, last_snoc in Hct. rewrite Hct, <- Ht, <- (zsum_split (take (S i) rows)). lia.
  - rewrite Hc. done.
Qed.
End facts.
