(* ===== verification/SensitivityFacts.v ===== *)
(** * The classification is exact and strictness is sticky

    A card is public only by an explicit mark; unmarked, it is internal exactly when it
    has text and no rule of the three tables means any piece of it; and a card that the
    rules call secret stays secret whatever text is added around its own. *)
From S2P Require Import Prelude PyDict PyFloat Canonical Json PyText Grading Regex Sensitivity.
From Stdlib Require Import Ascii.

(** Every pattern of the tables is one that [Regex] reads. *)
Definition all_rules : list (string * string) := _LITERAL_RULES ++ _SECRET_RULES ++ _AMBIGUOUS_RULES.
Lemma rules_compile : forallb (λ rule, bool_decide (is_Some (re_compile rule.1))) all_rules = true.
Proof. vm_compute. reflexivity. Qed.

(** A rule fires on a text when a piece of it, in its context, is what the pattern
    means. *)
Definition fires (text : string) (rule : string * string) : Prop :=
  ∃ r before m post, re_compile rule.1 = Some r ∧ text = before +:+ m +:+ post ∧ Matches r before m post.
Lemma found_fires text rule : found rule.1 text = true ↔ fires text rule.
Proof.
  unfold found, fires. destruct (re_compile rule.1) as [r|]; [|by split; [|intros (? & ? & ? & ? & ? & _)]].
  rewrite search_exact. split; [intros (b & m & p & ?); by exists r, b, m, p|]. intros (r' & b & m & p & [= <-] & ?). by exists b, m, p.
Qed.
Lemma matches_nil text rules : _matches text rules = [] ↔ ∀ rule, rule ∈ rules → ¬ fires text rule.
Proof.
  unfold _matches. split.
  - intros H rule Hin Hf. assert (rule.2 ∈ ([] : list string)) as ?%elem_of_nil; [|done].
    rewrite <- H. apply list_elem_of_omap. exists rule. split; [done|]. apply found_fires in Hf. by rewrite Hf.
  - intros H. destruct (omap _ _) as [|x xs] eqn:E; [done|]. assert (x ∈ omap (λ rule : string * string, if found rule.1 text then Some rule.2 else None) rules) as Hx
      by (rewrite E; left). apply list_elem_of_omap in Hx as (rule & Hin & Hr). destruct (found rule.1 text) eqn:Hf; [|done].
    apply found_fires in Hf. by destruct (H rule).
Qed.

Section facts.
Context {PF : Platform}.

Definition readable (ms : list (string * json)) : Prop := is_empty_str (strip (py_lower (card_text ms))) = false.
Definition clean_card (ms : list (string * json)) : Prop :=
  (∀ n, n ∈ _repo_names ms → n ∉ SECRET_REPOS) ∧ (∀ t, t ∈ _card_tags ms → t ∉ SECRET_TAGS) ∧
  (∀ rule, rule ∈ _LITERAL_RULES → ¬ fires (card_text ms) rule) ∧
  (∀ rule, rule ∈ _SECRET_RULES ++ _AMBIGUOUS_RULES → ¬ fires (py_lower (card_text ms)) rule).

Lemma sorted_set_nil (p : string → bool) xs : sorted_set (List.filter p xs) = [] ↔ ∀ x, x ∈ xs → p x = false.
Proof.
  unfold sorted_set. split.
  - intros H x Hx. destruct (p x) eqn:Hp; [|done]. assert (x ∈ sorted_str (remove_dups (List.filter p xs))) as Hin.
    { apply elem_of_sorted_str, elem_of_remove_dups, elem_of_filter_bool. done. }
    rewrite H in Hin. by apply elem_of_nil in Hin.
  - intros H. assert (List.filter p xs = []) as -> by (apply filter_nil_iff; done). done.
Qed.
Lemma rule_reasons_nil ms : rule_reasons ms = [] ↔
  (∀ n, n ∈ _repo_names ms → n ∉ SECRET_REPOS) ∧ (∀ t, t ∈ _card_tags ms → t ∉ SECRET_TAGS) ∧
  (∀ rule, rule ∈ _LITERAL_RULES → ¬ fires (card_text ms) rule) ∧ (∀ rule, rule ∈ _SECRET_RULES → ¬ fires (py_lower (card_text ms)) rule).
Proof.
  unfold rule_reasons. cbv zeta. assert (∀ (f : string → string) xs, map f xs = [] ↔ xs = []) as Hmap by (intros f [|]; done).
  assert (∀ (xs ys : list string), xs ++ ys = [] ↔ xs = [] ∧ ys = []) as Happ by (intros [|] ys; simpl; [tauto|split; [done|by intros [? _]]]).
  rewrite !Happ, !Hmap, !sorted_set_nil, !matches_nil. setoid_rewrite bool_decide_eq_false. done.
Qed.
Lemma clean_exact ms : clean_card ms ↔ rule_reasons ms = [] ∧ _matches (py_lower (card_text ms)) _AMBIGUOUS_RULES = [].
Proof. unfold clean_card. rewrite rule_reasons_nil, matches_nil. setoid_rewrite elem_of_app. split.
  - intros (? & ? & ? & H). auto 8.
  - intros [(? & ? & ? & ?) ?]. do 3 (split; [done|]). intros rule [?|?]; auto.
Qed.

(** A mark that is read is a value of the vocabulary. *)
Lemma override_value ms mark : _read_override ms = Ok (Some mark) → mark ∈ SENSITIVITY_VALUES.
Proof.
  unfold _read_override. destruct (jget_or_none "meta" ms) as [| | | | | |meta]; try done. destruct (jget_or_none OVERRIDE_KEY meta); try done;
    intros Ho; apply bind_unit_ok in Ho as [Hv [= <-]]; apply err_if_ok in Hv; by apply negb_false_iff, bool_decide_eq_true in Hv.
Qed.
(** What the rules say of a card without a mark. *)
Lemma classify_unmarked ms : _read_override ms = Ok None → ∃ s reasons, classify_sensitivity (JObj ms) = Ok (s, reasons) ∧ reasons ≠ [] ∧
  ((s = "internal" ∧ readable ms ∧ clean_card ms) ∨ (s = "secret" ∧ ¬ (readable ms ∧ clean_card ms))).
Proof.
  intros Ho. unfold classify_sensitivity. rewrite Ho. cbn [mbind result_bind]. cbv zeta. setoid_rewrite clean_exact. unfold readable.
  destruct (is_empty_str (strip (py_lower (card_text ms)))) eqn:He; [by do 2 eexists; split; [reflexivity|]; split; [done|right; split; [done|intros [? _]]]|].
  destruct (rule_reasons ms) as [|x xs]; [|by do 2 eexists; split; [reflexivity|]; split; [done|right; split; [done|intros (_ & ? & _)]]].
  destruct (_matches (py_lower (card_text ms)) _AMBIGUOUS_RULES) as [|y ys].
  - do 2 eexists. split; [reflexivity|]. split; [done|]. by left.
  - do 2 eexists. split; [reflexivity|]. split; [done|]. right. split; [done|]. by intros (_ & _ & ?).
Qed.

(** C24: The classification is exact and fails closed.  It raises only for a mark that is
    not a value of the vocabulary; every other answer is a value of the vocabulary with
    its reasons.  Only a mark makes a card public.  Without a mark a card is internal
    exactly when it can be read, no repository or tag of it is listed as secret, and no
    pattern of the three tables means any piece of its text; it is secret otherwise. *)
Theorem sensitivity_exact card :
  match classify_sensitivity card with
  | Err e => exn_kind e = SensitivityOverrideError ∧ ∃ ms meta raw, card = JObj ms ∧ jget_or_none "meta" ms = JObj meta ∧
      jget_or_none OVERRIDE_KEY meta = raw ∧ raw ≠ JNull ∧ py_lower (strip (py_str raw)) ∉ SENSITIVITY_VALUES
  | Ok (s, reasons) => reasons ≠ [] ∧ s ∈ SENSITIVITY_VALUES ∧
      match card with
      | JObj ms => match _read_override ms with
                   | Ok (Some mark) => s = mark
                   | _ => s ≠ "public" ∧ (s = "internal" ↔ readable ms ∧ clean_card ms)
                   end
      | _ => s = "secret"
      end
  end.
Proof.
  assert ("secret" ∈ SENSITIVITY_VALUES ∧ "internal" ∈ SENSITIVITY_VALUES) as [Hs Hi] by set_solver.
  destruct card as [| | | | | |ms]; try (split; [done|]; split; [done|reflexivity]).
  destruct (_read_override ms) as [[mark|]|e] eqn:Ho.
  - unfold classify_sensitivity. rewrite Ho. cbn [mbind result_bind]. split; [done|]. split; [|done]. by eapply override_value.
  - destruct (classify_unmarked ms Ho) as (s & reasons & -> & Hr & Hc). split; [done|].
    destruct Hc as [(-> & ? & ?)|(-> & ?)]; (split; [done|]); (split; [done|]); split; done.
  - unfold classify_sensitivity. rewrite Ho. cbn [mbind result_bind].
    unfold _read_override in Ho. destruct (jget_or_none "meta" ms) as [| | | | | |meta] eqn:Hm; try done.
    destruct (jget_or_none OVERRIDE_KEY meta) as [| | | | | |] eqn:Hraw; try done;
      (match type of Ho with context [err_if ?b _ _] => destruct b eqn:Hb; [|done] end; injection Ho as <-; split; [done|];
       eexists ms, meta, _; split; [done|]; split; [done|]; split; [exact Hraw|]; split; [done|]; by apply negb_true_iff, bool_decide_eq_false in Hb).
Qed.

(** ** Text added around a text *)
Lemma py_lower_app s t : py_lower (s +:+ t) = py_lower s +:+ py_lower t.
Proof. induction s as [|c s IH]; [done|]. rewrite !str_app_cons. cbn [py_lower]. by rewrite IH. Qed.
Lemma join_app sep xs ys : xs ≠ [] → ys ≠ [] → str_join sep (xs ++ ys) = str_join sep xs +:+ sep +:+ str_join sep ys.
Proof.
  intros Hx Hy. induction xs as [|x xs IH]; [done|]. destruct xs as [|x' xs]; [by destruct ys|].
  change (x +:+ sep +:+ str_join sep ((x' :: xs) ++ ys) = (x +:+ sep +:+ str_join sep (x' :: xs)) +:+ sep +:+ str_join sep ys).
  rewrite IH by done. by rewrite !str_app_assoc.
Qed.
Lemma join_around pre xs post : xs ≠ [] → ∃ a b, str_join nl_text (pre ++ xs ++ post) = a +:+ str_join nl_text xs +:+ b ∧
  (a = "" ∨ ∃ a', a = a' +:+ nl_text) ∧ (b = "" ∨ ∃ b', b = nl_text +:+ b').
Proof.
  intros Hx. assert (∃ b, str_join nl_text (xs ++ post) = str_join nl_text xs +:+ b ∧ (b = "" ∨ ∃ b', b = nl_text +:+ b')) as (b & Hb & Hb').
  { destruct post as [|y ys]; [exists ""; rewrite app_nil_r, str_app_nil_r; auto|]. exists (nl_text +:+ str_join nl_text (y :: ys)).
    rewrite join_app by done. eauto. }
  destruct pre as [|y ys]; [by exists "", b; rewrite app_nil_l, Hb; auto|]. exists (str_join nl_text (y :: ys) +:+ nl_text), b.
  rewrite (join_app nl_text (y :: ys) (xs ++ post)) by (first [done|by intros [? _]%app_nil]). rewrite Hb, str_app_assoc. eauto.
Qed.
Lemma fires_around text a b rule : fires text rule → (a = "" ∨ ∃ a', a = a' +:+ nl_text) → (b = "" ∨ ∃ b', b = nl_text +:+ b') →
  fires (a +:+ text +:+ b) rule.
Proof.
  intros (r & before & m & post & Hr & -> & Hm) Ha Hb.
  exists r, (a +:+ before), m, (post +:+ b). split; [done|]. split; [by rewrite !str_app_assoc|]. apply matches_context; [done| |].
  - destruct Ha as [->|[a' ->]]; [done|]. by rewrite last_word_app.
  - by destruct Hb as [->|[b' ->]].
Qed.
Lemma lower_around a b : (a = "" ∨ ∃ a', a = a' +:+ nl_text) → (b = "" ∨ ∃ b', b = nl_text +:+ b') →
  (py_lower a = "" ∨ ∃ a', py_lower a = a' +:+ nl_text) ∧ (py_lower b = "" ∨ ∃ b', py_lower b = nl_text +:+ b').
Proof.
  intros Ha Hb. split.
  - destruct Ha as [->|[a' ->]]; [by left|right]. exists (py_lower a'). by rewrite py_lower_app.
  - destruct Hb as [->|[b' ->]]; [by left|right]. exists (py_lower b'). by rewrite py_lower_app.
Qed.

(** Strictness is sticky.  A readable card that the rules call secret stays secret when
    text is added before or after all of its own, in whatever fields, and when
    repositories and tags are added: more text never relaxes the ceiling of a card. *)
Theorem secret_is_sticky ms ms' pre post reasons :
  _read_override ms = Ok None → _read_override ms' = Ok None → readable ms → text_parts ms' = pre ++ text_parts ms ++ post →
  (∀ n, n ∈ _repo_names ms → n ∈ _repo_names ms') → (∀ t, t ∈ _card_tags ms → t ∈ _card_tags ms') →
  classify_sensitivity (JObj ms) = Ok ("secret", reasons) → ∃ reasons', classify_sensitivity (JObj ms') = Ok ("secret", reasons').
Proof.
  intros Ho Ho' Hread Hparts Hrepos Htags Hc. destruct (classify_unmarked ms Ho) as (s & r & Hcl & _ & Hs). rewrite Hc in Hcl. injection Hcl as <- <-.
  destruct Hs as [(? & _)|[_ Hs]]; [done|]. destruct (classify_unmarked ms' Ho') as (s' & r' & -> & _ & Hs').
  destruct Hs' as [(-> & _ & Hclean)|[-> _]]; [|by eexists]. destruct Hs. split; [done|].
  assert (text_parts ms ≠ []) as Hne by (intros E; unfold readable, card_text in Hread; by rewrite E in Hread).
  destruct (join_around pre (text_parts ms) post Hne) as (a & b & Hjoin & Ha & Hb). rewrite <- Hparts in Hjoin. fold (card_text ms') (card_text ms) in Hjoin.
  destruct (lower_around a b Ha Hb) as [Ha' Hb']. destruct Hclean as (H1 & H2 & H3 & H4). rewrite Hjoin in H3, H4. rewrite !py_lower_app in H4.
  split; [auto|]. split; [auto|]. split.
  - intros rule Hin Hf. destruct (H3 rule Hin). by apply fires_around.
  - intros rule Hin Hf. destruct (H4 rule Hin). by apply fires_around.
Qed.
End facts.
