(* ===== verification/AutopilotTypes.v ===== *)
(** * Data contracts of the autopilot

    [autocode/types.py] and the caps and settings of [autocode/config.py] that the
    engine reads.  A card, and the payload of a work item, is a JSON object. *)
From S2P Require Import Prelude PyDict PyFloat Canonical Json PyText.
From Stdlib Require Import Ascii.

Local Open Scope Z_scope.

(** ** The quality axis *)
Inductive QualityMode := GATED | DIRECT | NONE_.
#[export] Instance QualityMode_eq_dec : EqDecision QualityMode.
Proof. solve_decision. Defined.
Definition QualityMode_value (m : QualityMode) : string := match m with GATED => "gated" | DIRECT => "direct" | NONE_ => "none" end.
Definition QUALITY_RANK (m : QualityMode) : Z := match m with NONE_ => 0 | DIRECT => 1 | GATED => 2 end.

(** ** Work items *)
Record WorkItem := {
  wi_kind : string; wi_ref : string; wi_source : json; wi_repo : option string; wi_payload : list (string * json) }.
Record RepoSpec := {
  rs_name : string; rs_path : string; rs_base_branch : string; rs_integration_branch : string; rs_test_cmd : string; rs_ci : string;
  rs_coverage_cmd : option string; rs_ci_poll_timeout : Z; rs_ci_scope : string; rs_advisory_checks : list string;
  rs_automerge : bool; rs_agentrun_refused : option bool; rs_auto_revert : bool; rs_min_diff_coverage : float;
  rs_sandbox_image : option string; rs_min_quality : option QualityMode; rs_deploy_cmd : option string }.
Record DecisionItem := { di_qid : string; di_prompt : string; di_options : list (string * string); di_action_ref : option string; di_priority : string }.
#[export] Instance DecisionItem_eq_dec : EqDecision DecisionItem.
Proof. solve_decision. Defined.

(** ** Results of the gate *)
Definition GATE_OUTCOMES : list string := ["pass"; "ci_red"; "no_op"; "salvage"; "direct_fail"].
Definition UNRECORDED : string := "unrecorded".
Record GateResult := {
  gr_result_score : option Z; gr_passed : bool; gr_notes : string; gr_artifact : option string; gr_mode : string; gr_outcome : string;
  gr_tokens : Z; gr_cost_usd : float; gr_mutation_report : option json }.
Section contracts.
Context {PF : Platform}.
(** [__post_init__] *)
Definition validate_GateResult (g : GateResult) : result GateResult :=
  err_if (negb (bool_decide (gr_outcome g ∈ GATE_OUTCOMES)) && negb (bool_decide (gr_outcome g = UNRECORDED))) ValueError
    ("GateResult.outcome must be one of " +:+ repr_strs (sorted_str GATE_OUTCOMES) +:+ " or " +:+ repr_str UNRECORDED +:+ ", got " +:+ repr_str (gr_outcome g)) ;;
  Ok g.

(** [coerce_quality(value)] of a value that is no [QualityMode] already. *)
Definition quality_of_text (s : string) : option QualityMode :=
  find_first (λ m, bool_decide (QualityMode_value m = s)) [GATED; DIRECT; NONE_].
Definition coerce_quality (value : json) : QualityMode :=
  match value with
  | JNull => GATED
  | _ => default GATED (quality_of_text (py_lower (strip (py_str value))))
  end.

(** ** What a provider event can say about a result *)
Inductive HarnessProvenanceReason :=
  | MODEL_SERVED_NOT_OBSERVED | MODEL_SERVED_PARTIAL | MODEL_SERVED_CONFLICT | MODEL_SERVED_INCOMPLETE_STREAM
  | BACKEND_SERVED_NOT_OBSERVED | GATEWAY_REQ_ID_NOT_OBSERVED.
#[export] Instance HarnessProvenanceReason_eq_dec : EqDecision HarnessProvenanceReason.
Proof. solve_decision. Defined.
Definition reason_value (r : HarnessProvenanceReason) : string :=
  match r with
  | MODEL_SERVED_NOT_OBSERVED => "provider_event_missing_response_model"
  | MODEL_SERVED_PARTIAL => "provider_events_partial_response_model"
  | MODEL_SERVED_CONFLICT => "provider_events_conflicting_response_models"
  | MODEL_SERVED_INCOMPLETE_STREAM => "provider_event_stream_malformed_or_incomplete"
  | BACKEND_SERVED_NOT_OBSERVED => "provider_event_missing_gateway_backend"
  | GATEWAY_REQ_ID_NOT_OBSERVED => "provider_event_missing_gateway_request_id"
  end.
Definition all_reasons : list HarnessProvenanceReason :=
  [MODEL_SERVED_NOT_OBSERVED; MODEL_SERVED_PARTIAL; MODEL_SERVED_CONFLICT; MODEL_SERVED_INCOMPLETE_STREAM; BACKEND_SERVED_NOT_OBSERVED; GATEWAY_REQ_ID_NOT_OBSERVED].
Record HarnessResult := {
  hr_ok : bool; hr_artifact : option string; hr_tokens : Z; hr_cost_usd : float; hr_raw : list (string * json); hr_model_requested : option string;
  hr_model_served : option string; hr_backend_served : option string; hr_gateway_req_id : option string;
  hr_model_served_reason : option string; hr_backend_served_reason : option string; hr_gateway_req_id_reason : option string }.
Definition check_reason (name : string) (value reason : option string) (allowed : list HarnessProvenanceReason) : result unit :=
  match reason with
  | None => Ok tt
  | Some text =>
      match find_first (λ r, bool_decide (reason_value r = text)) all_reasons with
      | None => Err (Exn ValueError (name +:+ "_reason is not a recognized provenance reason"))
      | Some r =>
          err_if (negb (bool_decide (r ∈ allowed))) ValueError (name +:+ "_reason cannot use " +:+ repr_str (reason_value r)) ;;
          err_if (bool_decide (is_Some value)) ValueError (name +:+ "_reason requires " +:+ name +:+ " to be None")
      end
  end.
Definition validate_HarnessResult (h : HarnessResult) : result HarnessResult :=
  check_reason "model_served" (hr_model_served h) (hr_model_served_reason h)
    [MODEL_SERVED_NOT_OBSERVED; MODEL_SERVED_PARTIAL; MODEL_SERVED_CONFLICT; MODEL_SERVED_INCOMPLETE_STREAM] ;;
  check_reason "backend_served" (hr_backend_served h) (hr_backend_served_reason h) [BACKEND_SERVED_NOT_OBSERVED] ;;
  check_reason "gateway_req_id" (hr_gateway_req_id h) (hr_gateway_req_id_reason h) [GATEWAY_REQ_ID_NOT_OBSERVED] ;;
  Ok h.

(** ** Assessment *)
Record AssessBrief := {
  ab_task_id : string; ab_title : json; ab_description : json; ab_acceptance : json; ab_tags : json; ab_repo : option string; ab_codebase_context : string }.
Record AssessVerdict := {
  ve_verdict : string; ve_reason : string; ve_updated_description : option string; ve_updated_acceptance : option (list string);
  ve_concreteness : option float; ve_size : option string; ve_risk : option string }.

(** ** Settings, [autocode/config.py] *)
Record Caps := {
  cp_max_concurrent : Z; cp_concurrency : string; cp_new_tasks_per_run : Z; cp_max_tokens_per_run : Z; cp_max_usd_per_day : float;
  cp_max_subtasks_per_card : Z; cp_max_decompose_children_per_run : Z; cp_max_decompose_depth : Z; cp_concreteness_floor : float }.
Record Config := {
  cf_enabled : bool; cf_dry_run : bool; cf_repo_map : dict string RepoSpec; cf_automerge_repos : list string; cf_caps : Caps;
  cf_default_quality : QualityMode; cf_fleet_dispatch : bool }.
Definition config_repo (c : Config) (name : string) : option RepoSpec := cf_repo_map c !! name.

(** ** Reading a card *)
(** [for x in value] *)
Definition py_iter (j : json) : result (list json) :=
  match j with
  | JArr xs => Ok xs
  | JStr s => Ok (map (λ c, JStr (String c "")) (String.list_ascii_of_string s))
  | JObj ms => Ok (map (λ m, JStr m.1) ms)
  | _ => Err (Exn TypeError ("'" +:+ type_name j +:+ "' object is not iterable"))
  end.
(** The receiver of a method of text. *)
Definition as_text (method : string) (j : json) : result string :=
  match j with JStr s => Ok s | _ => Err (Exn AttributeError ("'" +:+ type_name j +:+ "' object has no attribute '" +:+ method +:+ "'")) end.
(** [card.get(k) or []], as what is iterated. *)
Definition or_empty (j : json) : json := if py_truthy j then j else JArr [].
Definition tags_of (card : list (string * json)) : result (list json) := py_iter (or_empty (jget_or_none "tags" card)).
(** [t.split(":", 1)[1]] of a text that has a colon. *)
Definition after_colon (s : string) : string := match split_first ":" s with Some (_, r) => r | None => s end.
Fixpoint repo_names (tags : list json) : result (list string) :=
  match tags with
  | [] => Ok []
  | t :: rest =>
      s ← as_text "startswith" t;
      more ← repo_names rest;
      Ok (if startswith s "repo:" then after_colon s :: more else more)
  end.
Definition repo_tag (card : list (string * json)) : result (option string) :=
  tags ← tags_of card; names ← repo_names tags; Ok (match names with [n] => Some n | _ => None end).
End contracts.

(** * The usage of a build

    Class [BuildUsage] of [autocode/joules.py]: what the rounds of a build used, as the
    envelope of the harness reports it.  Pricing and settlement are not modelled. *)
Local Open Scope Z_scope.

Record BuildUsage := { bu_model : string; bu_input_tokens : Z; bu_output_tokens : Z; bu_cost_usd : float; bu_turns : Z }.
Definition new_BuildUsage : BuildUsage := {| bu_model := "unknown"; bu_input_tokens := 0; bu_output_tokens := 0; bu_cost_usd := 0; bu_turns := 0 |}.
Definition usage_tokens (u : BuildUsage) : Z := bu_input_tokens u + bu_output_tokens u.
(** [u.add(...)] with the fields of another usage. *)
Definition usage_add (u r : BuildUsage) : BuildUsage := {|
  bu_model := if is_empty_str (bu_model r) then bu_model u else bu_model r;
  bu_input_tokens := bu_input_tokens u + bu_input_tokens r; bu_output_tokens := bu_output_tokens u + bu_output_tokens r;
  bu_cost_usd := fadd (bu_cost_usd u) (bu_cost_usd r); bu_turns := bu_turns u + bu_turns r |}.

Section usage.
Context {PF : Platform} {FT : FloatText}.
(** [value or fallback] *)
Definition or_value (j fallback : json) : json := if py_truthy j then j else fallback.
(** [int(u.get(k, 0) or 0)] and [float(u.get(k, 0.0) or 0.0)]; a receiver that is no
    dictionary has no [get]. *)
Definition get_field (k : string) (j : json) : result json :=
  match j with
  | JObj ms => Ok (jget_or_none k ms)
  | _ => Err (Exn AttributeError ("'" +:+ type_name j +:+ "' object has no attribute 'get'"))
  end.
Definition int_field (k : string) (j : json) : result Z := v ← get_field k j; py_int (or_value v (JInt 0)).
Definition from_claude_json (raw : json) (default_model : string) : result BuildUsage :=
  usage ← get_field "usage" raw;
  let u := or_value usage (JObj []) in
  model ← get_field "model" raw;
  input ← int_field "input_tokens" u;
  cache_read ← int_field "cache_read_input_tokens" u;
  cache_creation ← int_field "cache_creation_input_tokens" u;
  output ← int_field "output_tokens" u;
  cost ← get_field "total_cost_usd" raw;
  cost ← py_float (or_value cost (JFloat 0));
  turns ← int_field "num_turns" raw;
  Ok {| bu_model := (if py_truthy model then py_str model else default_model); bu_input_tokens := input + cache_read + cache_creation;
        bu_output_tokens := output; bu_cost_usd := cost; bu_turns := turns |}.
Definition from_harness_result (hr : HarnessResult) (adapter : string) : result BuildUsage :=
  let name := if is_empty_str adapter then "unknown" else adapter in
  if py_truthy (jget_or_none "usage" (hr_raw hr)) then from_claude_json (JObj (hr_raw hr)) name
  else Ok {| bu_model := name; bu_input_tokens := 0; bu_output_tokens := hr_tokens hr; bu_cost_usd := hr_cost_usd hr; bu_turns := 1 |}.
(** [_accrue_usage]: a round that cannot be read adds nothing. *)
Definition accrue (before : BuildUsage) (hr : HarnessResult) (adapter : string) : BuildUsage :=
  match from_harness_result hr adapter with Ok r => usage_add before r | Err _ => before end.
End usage.
