(* ===== verification/CarveOut.v ===== *)
(** * The self-modification carve-out

    [autocode/protected.py]: which changed paths touch the guardrails of the autopilot.
    [fnmatch] is the one of a POSIX system.  The manifest file is given as what asking
    for it and reading it give, and the signature check is the caller's function; each
    may raise.  The module's own words and the operating manual say that a missing
    manifest protects everything; [_manifest_for], which the merge asks, adds nothing
    for one. *)
From S2P Require Import Prelude PyDict PyFloat Canonical Json JsonLines PyText Regex.
From Stdlib Require Import Ascii.

(** ** [fnmatch.fnmatch] *)
Inductive glob_item := GStar | GOne | GChar (c : ascii) | GSet (negated : bool) (items : list item).
(** The body of a set up to its closing bracket, which may come first as a member. *)
Fixpoint set_body (first : bool) (s : string) : option (string * string) :=
  match s with
  | String c r =>
      if Ascii.eqb c "]" && negb first then Some ("", r)
      else match set_body false r with Some (b, r) => Some (String c b, r) | None => None end
  | EmptyString => None
  end.
Fixpoint set_items (fuel : nat) (s : string) : list item :=
  match fuel with
  | O => []
  | S fuel =>
      match s with
      | EmptyString => []
      | String c (String d (String b r) as rest) => if Ascii.eqb d "-" then Span c b :: set_items fuel r else One c :: set_items fuel rest
      | String c r => One c :: set_items fuel r
      end
  end.
Fixpoint parse_glob (fuel : nat) (s : string) : list glob_item :=
  match fuel with
  | O => []
  | S fuel =>
      match s with
      | EmptyString => []
      | String c r =>
          if Ascii.eqb c "*" then GStar :: parse_glob fuel r
          else if Ascii.eqb c "?" then GOne :: parse_glob fuel r
          else if Ascii.eqb c "[" then
            let negated := startswith r "!" in
            match set_body true (if negated then String.substring 1 (String.length r - 1) r else r) with
            | Some (body, rest) => GSet negated (set_items (String.length body) body) :: parse_glob fuel rest
            | None => GChar c :: parse_glob fuel r
            end
          else GChar c :: parse_glob fuel r
      end
  end.
Definition glob (pattern : string) : list glob_item := parse_glob (String.length pattern) pattern.
Definition glob_has (i : glob_item) (c : ascii) : bool :=
  match i with
  | GStar | GOne => true
  | GChar d => Ascii.eqb c d
  | GSet negated items => xorb negated (existsb (λ i, item_has i c) items)
  end.
Fixpoint glob_match (items : list glob_item) (s : string) : bool :=
  match items with
  | [] => is_empty_str s
  | GStar :: rest => (fix any_suffix s := glob_match rest s || match s with String _ s => any_suffix s | EmptyString => false end) s
  | i :: rest => match s with String c s => glob_has i c && glob_match rest s | EmptyString => false end
  end.
Definition fnmatch (name pattern : string) : bool := glob_match (glob pattern) name.

(** ** The floor *)
Definition _ALWAYS_PROTECTED : list string := [
  "*/skharness/autocode/protected.py"; "*skharness/autocode/protected.py";
  "*/skharness/autocode/engineering.py"; "*skharness/autocode/engineering.py";
  "*/skcapstone/fleet/store.py"; "*skcapstone/fleet/store.py";
  "*/skcapstone/itil.py"; "*skcapstone/itil.py";
  "*/objects/_protected.json"; "*objects/_protected.json";
  "*/objects/_freeze.json"; "*objects/_freeze.json";
  "*/skharness/autocode/grading.py"; "*skharness/autocode/grading.py";
  "*/skharness/autocode/sensitivity.py"; "*skharness/autocode/sensitivity.py";
  "*/skharness/autocode/buckets.py"; "*skharness/autocode/buckets.py";
  "*/skharness/autocode/routing_guard.py"; "*skharness/autocode/routing_guard.py";
  "*/skharness/autocode/mutation.py"; "*skharness/autocode/mutation.py";
  "*/autocode/data/joule-grade-vocabulary.json"; "*autocode/data/joule-grade-vocabulary.json";
  "*/tests/data/joule-economy-golden-set-*.json"; "*tests/data/joule-economy-golden-set-*.json";
  "*/tests/data/grading-floor-allowances.json"; "*tests/data/grading-floor-allowances.json";
  "*/.coveragerc"; "*.coveragerc";
  "*/pyproject.toml"; "*pyproject.toml";
  "*/pytest.ini"; "*pytest.ini";
  "*/setup.cfg"; "*setup.cfg";
  "*/tox.ini"; "*tox.ini";
  "*/conftest.py"; "*conftest.py"].
Definition _FAIL_CLOSED : list (string * json) := [("protected", JArr [JStr "**"]); ("_fail_closed", JBool true)].

(** The answers of the file system about the manifest, in the order it is asked:
    [mpath.exists()], [path.exists()] and [path.read_text()]. *)
Record ManifestProbe := { mp_exists : result bool; mp_still_exists : result bool; mp_text : result string }.

Section carve_out.
Context {PF : Platform} {FT : FloatText}.

(** [any(fnmatch(path, g) for g in globs)]: a glob of the manifest that is not a string
    raises. *)
Fixpoint any_glob (path : string) (globs : list json) : result bool :=
  match globs with
  | [] => Ok false
  | JStr g :: rest => if fnmatch path g then Ok true else any_glob path rest
  | g :: _ => Err (Exn TypeError ("expected str, bytes or os.PathLike object, not " +:+ type_name g))
  end.
(** [list(value)] of the field of the manifest. *)
Definition globs_of (manifest : list (string * json)) : result (list json) :=
  match jget "protected" manifest with
  | None => Ok []
  | Some (JArr xs) => Ok xs
  | Some (JStr s) => Ok (map (λ c, JStr (String c "")) (String.list_ascii_of_string s))
  | Some (JObj ms) => Ok (map (λ m, JStr m.1) ms)
  | Some j => Err (Exn TypeError ("'" +:+ type_name j +:+ "' object is not iterable"))
  end.
Fixpoint any_path (paths : list string) (globs : list json) : result bool :=
  match paths with
  | [] => Ok false
  | p :: rest => match any_glob p globs with Ok true => Ok true | Ok false => any_path rest globs | Err e => Err e end
  end.
Definition is_protected (changed_paths : list string) (manifest : list (string * json)) : result bool :=
  globs ← globs_of manifest; any_path changed_paths (globs ++ map JStr _ALWAYS_PROTECTED).

Definition load_manifest (verify : option (json → result bool)) (exists_ : result bool) (text : result string) :
    result (list (string * json)) :=
  there ← exists_;
  if negb there then Ok _FAIL_CLOSED
  else
    match text with
    | Err e => if exn_isa (exn_kind e) OSError || exn_isa (exn_kind e) ValueError then Ok _FAIL_CLOSED else Err e
    | Ok text =>
        match loads text with
        | Loaded data =>
            accepted ← match verify with Some v => v data | None => Ok true end;
            if negb accepted then Ok _FAIL_CLOSED
            else match data with
                 | JObj ms => match jget_or_none "protected" ms with JArr (_ :: _) => Ok ms | _ => Ok _FAIL_CLOSED end
                 | _ => Ok _FAIL_CLOSED
                 end
        | _ => Ok _FAIL_CLOSED
        end
    end.
Definition _manifest_for (verify : json → result bool) (file : ManifestProbe) : result (list (string * json)) :=
  there ← mp_exists file;
  if negb there then Ok [("protected", JArr [])]
  else load_manifest (Some verify) (mp_still_exists file) (mp_text file).
Fixpoint hits (paths : list string) (manifest : list (string * json)) : result (list string) :=
  match paths with
  | [] => Ok []
  | p :: rest => match is_protected [p] manifest with
                 | Ok hit => more ← hits rest manifest; Ok (if hit : bool then p :: more else more)
                 | Err e => Err e
                 end
  end.
Definition matched_protected_paths (verify : json → result bool) (file : ManifestProbe) (changed_paths : list string) : result (list string) :=
  manifest ← _manifest_for verify file; hits changed_paths manifest.
Definition changed_paths_are_protected (verify : json → result bool) (file : ManifestProbe) (changed_paths : list string) : result bool :=
  manifest ← _manifest_for verify file; is_protected changed_paths manifest.
End carve_out.

(** ** What a glob of the floor means *)
Definition plain (c : ascii) : bool := negb (str_mem c "*?[").
Lemma glob_match_star rest s : glob_match (GStar :: rest) s = true ↔ ∃ a b, s = a +:+ b ∧ glob_match rest b = true.
Proof.
  cbn [glob_match]. induction s as [|c s IH].
  - rewrite orb_false_r. split; [by exists "", ""|]. intros (a & b & Hs & Hb). by destruct a, b.
  - rewrite orb_true_iff, IH. split.
    + intros [H|(a & b & -> & H)]; [by exists "", (String c s)|by exists (String c a), b].
    + intros ([|d a] & b & Hs & Hb); [left; by rewrite Hs|right]. rewrite str_app_cons in Hs. injection Hs as -> ->. by exists a, b.
Qed.
Lemma glob_plain n s t : (String.length s ≤ n)%nat → str_forallb plain s = true → glob_match (parse_glob n s) t = bool_decide (t = s).
Proof.
  revert n t. induction s as [|c s IH]; intros n t Hn Hp.
  - destruct n; cbn [parse_glob glob_match]; by destruct t.
  - destruct n as [|n]; [cbn in Hn; lia|]. cbn [str_forallb] in Hp. apply andb_true_iff in Hp as [Hc Hp]. cbn in Hn.
    cbn [parse_glob]. assert (Ascii.eqb c "*" = false ∧ Ascii.eqb c "?" = false ∧ Ascii.eqb c "[" = false) as (-> & -> & ->).
    { unfold plain, str_mem in Hc. cbn [str_forallb] in Hc. destruct (Ascii.eqb c "*"), (Ascii.eqb c "?"), (Ascii.eqb c "["); done. }
    destruct t as [|d t]; cbn [glob_match glob_has]; [done|]. rewrite (IH n t) by (done || lia).
    destruct (Ascii.eqb_spec d c) as [->|Hd]; simpl.
    + apply bool_decide_ext. split; [by intros ->|by intros [= ->]].
    + symmetry. apply bool_decide_eq_false. congruence.
Qed.
(** A leading star and a plain name: the paths that end with the name. *)
Lemma fnmatch_suffix lit p : str_forallb plain lit = true → fnmatch p (String "*" lit) = true ↔ ∃ dir, p = dir +:+ lit.
Proof.
  intros Hp. unfold fnmatch, glob. cbn [String.length parse_glob]. change (Ascii.eqb "*" "*") with true. cbv iota. rewrite glob_match_star. split.
  - intros (a & b & -> & Hb). rewrite glob_plain, bool_decide_eq_true in Hb by done. subst. by exists a.
  - intros [dir ->]. exists dir, lit. rewrite glob_plain, bool_decide_eq_true by done. done.
Qed.
Lemma fnmatch_everything p : fnmatch p "**" = true.
Proof. apply glob_match_star. exists "", p. split; [done|]. apply glob_match_star. exists p, "". by rewrite str_app_nil_r. Qed.

Section facts.
Context {PF : Platform} {FT : FloatText}.

Definition floor_hit (p : string) : bool := existsb (fnmatch p) _ALWAYS_PROTECTED.
#[local] Opaque _ALWAYS_PROTECTED fnmatch.
(** The manifest that is taken at its word: it is there, it parses, its signature is
    accepted, and it lists something. *)
Definition manifest_there (file : ManifestProbe) : Prop := mp_exists file = Ok true ∧ mp_still_exists file = Ok true.
Definition trusted (verify : json → result bool) (file : ManifestProbe) (globs : list json) : Prop :=
  manifest_there file ∧
  ∃ text ms, mp_text file = Ok text ∧ loads text = Loaded (JObj ms) ∧ verify (JObj ms) = Ok true ∧
    jget_or_none "protected" ms = JArr globs ∧ globs ≠ [].
(** What escapes from the look at the manifest. *)
Definition manifest_raises (verify : json → result bool) (file : ManifestProbe) (e : exn) : Prop :=
  mp_exists file = Err e ∨ (mp_exists file = Ok true ∧ mp_still_exists file = Err e) ∨
  (manifest_there file ∧
   ((mp_text file = Err e ∧ exn_isa (exn_kind e) OSError = false ∧ exn_isa (exn_kind e) ValueError = false) ∨
    ∃ text data, mp_text file = Ok text ∧ loads text = Loaded data ∧ verify data = Err e)).
Definition listed (globs : list json) (p : string) : bool := existsb (λ g, match g with JStr g => fnmatch p g | _ => false end) globs.

Lemma any_glob_ok p globs b : any_glob p globs = Ok b → b = listed globs p.
Proof.
  induction globs as [|g globs IH]; cbn [any_glob listed existsb]; [congruence|]. destruct g; try done. fold (listed globs p).
  destruct (fnmatch p s); [by intros [= <-]|]. exact IH.
Qed.
Lemma any_glob_texts p globs : any_glob p (map JStr globs) = Ok (existsb (fnmatch p) globs).
Proof. induction globs as [|g globs IH]; [done|]. cbn. by destruct (fnmatch p g). Qed.
Lemma any_glob_app p globs more : any_glob p (globs ++ map JStr more) =
  match any_glob p globs with Ok true => Ok true | Ok false => Ok (existsb (fnmatch p) more) | Err e => Err e end.
Proof. induction globs as [|g globs IH]; cbn [app any_glob]; [apply any_glob_texts|]. destruct g; try done. by destruct (fnmatch p s). Qed.
Lemma any_glob_err p globs e : any_glob p globs = Err e → exn_kind e = TypeError ∧ ∃ g, g ∈ globs ∧ ∀ s, g ≠ JStr s.
Proof.
  induction globs as [|g globs IH]; cbn [any_glob]; [done|].
  destruct g as [| | | |s| |]; try (intros [= <-]; split; [done|]; eexists; split; [left|done]).
  destruct (fnmatch p s); [done|]. intros (? & g & ? & ?)%IH. split; [done|]. exists g. split; [by right|done].
Qed.
(** The manifest as one of three: absent, trusted, or failed closed. *)
Lemma load_manifest_cases verify file ms :
  mp_exists file = Ok true → load_manifest (Some verify) (mp_still_exists file) (mp_text file) = Ok ms →
  (∃ globs, trusted verify file globs ∧ globs_of ms = Ok globs) ∨ (ms = _FAIL_CLOSED ∧ ∀ gs, ¬ trusted verify file gs).
Proof.
  intros He. unfold load_manifest, trusted, manifest_there. rewrite He.
  destruct (mp_still_exists file) as [[]|]; cbn [mbind result_bind negb]; [| |done].
  2:{ intros [= <-]. right. split; [done|]. by intros gs ((_ & ?) & _). }
  destruct (mp_text file) as [text|e].
  2:{ destruct (_ || _); [|done]. intros [= <-]. right. split; [done|]. by intros gs (_ & ? & ? & ? & _). }
  destruct (loads text) as [data| |] eqn:Hl.
  2,3: intros [= <-]; right; split; [done|]; intros gs (_ & ? & ? & [= <-] & ? & _); congruence.
  destruct (verify data) as [[]|] eqn:Hv; cbn [mbind result_bind negb]; [| |done].
  2:{ intros [= <-]. right. split; [done|]. intros gs (_ & ? & ? & [= <-] & ? & ? & _). congruence. }
  intros H. destruct data as [| | | | | |d];
    try (right; split; [by injection H|]; intros gs (_ & ? & ? & [= <-] & Hl' & _); congruence).
  destruct (jget_or_none "protected" d) as [| | | | |[|g gs]|] eqn:Hp;
    try (right; split; [by injection H|]; intros gs' (_ & ? & ? & [= <-] & Hl' & _ & Hp' & ?);
         rewrite Hl in Hl'; injection Hl' as <-; congruence).
  injection H as <-. left. exists (g :: gs). split; [split; [done|]; by exists text, d|].
  unfold globs_of. unfold jget_or_none in Hp. destruct (jget "protected" d); cbn in Hp; [by subst|done].
Qed.
(** The globs that the manifest adds to the floor. *)
Lemma manifest_cases verify file ms : _manifest_for verify file = Ok ms → ∃ globs, globs_of ms = Ok globs ∧
  ((mp_exists file = Ok false ∧ globs = []) ∨ trusted verify file globs ∨
   (mp_exists file = Ok true ∧ (∀ gs, ¬ trusted verify file gs) ∧ globs = [JStr "**"])).
Proof.
  unfold _manifest_for. destruct (mp_exists file) as [[]|] eqn:He; cbn [mbind result_bind negb]; [| |done].
  - intros H. destruct (load_manifest_cases _ _ _ He H) as [(globs & Ht & Hg)|[-> Hno]]; [exists globs; auto|].
    exists [JStr "**"]. split; [done|]. right. right. done.
  - intros [= <-]. exists []. auto.
Qed.
Lemma manifest_err verify file e : _manifest_for verify file = Err e → manifest_raises verify file e.
Proof.
  unfold _manifest_for, load_manifest, manifest_raises, manifest_there.
  destruct (mp_exists file) as [[]|]; cbn [mbind result_bind negb]; [|done|intros [= ->]; by left].
  destruct (mp_still_exists file) as [[]|]; cbn [mbind result_bind negb]; [|done|intros [= ->]; right; by left].
  intros H. right. right. split; [done|]. destruct (mp_text file) as [text|e'].
  - right. destruct (loads text) as [data| |] eqn:Hl; [|done..]. exists text, data. split_and!; [done..|].
    destruct (verify data) as [[]|]; cbn in H; [by repeat case_match|done|by injection H as ->].
  - left. destruct (exn_isa (exn_kind e') OSError) eqn:H1; [done|]. destruct (exn_isa (exn_kind e') ValueError) eqn:H2; [done|].
    cbn in H. by injection H as <-.
Qed.

(** C19: The carve-out cannot be opened from its manifest.  Whatever the file system
    answers about the manifest and whatever the signature check says, the evaluation
    either raises or names, in order, exactly the changed paths that are on the
    hard-coded floor or on the manifest: a manifest that is absent adds nothing, one
    that is there, parses, is accepted and lists something adds what it lists, and any
    other protects every path.  It raises only for a glob that is not text, or what
    asking for the file, the signature check, or a reading that fails with something
    that is no operating system or value error raised.  Every path that ends with a
    plain name of the floor is on it. *)
Theorem carve_out_exact verify file paths :
  match matched_protected_paths verify file paths with
  | Ok found => ∃ globs, found = List.filter (λ p, floor_hit p || listed globs p) paths ∧
      (mp_exists file = Ok false → globs = []) ∧ (∀ gs, trusted verify file gs → globs = gs) ∧
      (mp_exists file = Ok true → (∀ gs, ¬ trusted verify file gs) → found = paths)
  | Err e => (∃ g globs, trusted verify file globs ∧ g ∈ globs ∧ (∀ s, g ≠ JStr s) ∧ exn_kind e = TypeError) ∨
      manifest_raises verify file e
  end ∧
  ∀ lit dir, String "*" lit ∈ _ALWAYS_PROTECTED → str_forallb plain lit = true → floor_hit (dir +:+ lit) = true.
Proof.
  split.
  2:{ intros lit dir Hin Hp. apply existsb_elem_of. exists (String "*" lit). split; [done|]. apply fnmatch_suffix; [done|]. by exists dir. }
  unfold matched_protected_paths. destruct (_manifest_for verify file) as [ms|e] eqn:Hm; cbn [mbind result_bind]; [|right; by apply manifest_err].
  destruct (manifest_cases _ _ _ Hm) as (globs & Hg & Hcase).
  assert (∀ p, is_protected [p] ms = match any_glob p globs with Ok b => Ok (b || floor_hit p) | Err e => Err e end) as Hp.
  { intros p. unfold is_protected. rewrite Hg. cbn [mbind result_bind any_path]. rewrite any_glob_app. destruct (any_glob p globs) as [[]|]; cbn [mbind result_bind orb]; try done.
    unfold floor_hit. by destruct (existsb (fnmatch p) _ALWAYS_PROTECTED). }
  assert (∀ gs, trusted verify file gs → globs = gs) as Htr.
  { intros gs Ht. pose proof Ht as ([He _] & text & d & Htext & Hl & Hv & Hd & Hne).
    destruct Hcase as [[? _]|[(_ & text' & d' & Htext' & Hl' & _ & Hd' & _)|(_ & Hno & _)]]; [congruence| |].
    - rewrite Htext in Htext'. injection Htext' as <-. rewrite Hl in Hl'. injection Hl' as <-. rewrite Hd in Hd'. by injection Hd'.
    - by destruct (Hno gs). }
  destruct (hits paths ms) as [found|e] eqn:Hh.
  - exists globs. assert (found = List.filter (λ p, floor_hit p || listed globs p) paths) as Hf.
    { revert found Hh. induction paths as [|p paths IH]; intros found; cbn [hits List.filter]; [by intros [= <-]|]. rewrite Hp.
      destruct (any_glob p globs) as [b|] eqn:Hb; [|done]. apply any_glob_ok in Hb as ->. cbn [mbind result_bind].
      destruct (hits paths ms) as [more|]; [|done]. cbn [mbind result_bind]. intros [= <-]. rewrite <- (IH more) by done. rewrite orb_comm. done. }
    split; [done|]. split; [intros He; destruct Hcase as [[_ ?]|[([? _] & _)|(? & _)]]; congruence|]. split; [done|].
    intros He Hno. destruct Hcase as [[? _]|[?|(_ & _ & ->)]]; [congruence|by destruct (Hno globs)|]. rewrite Hf. apply filter_id.
    intros p _. cbn [listed existsb]. rewrite fnmatch_everything. apply orb_true_r.
  - left. assert (∃ p, any_glob p globs = Err e) as [p He].
    { revert Hh. induction paths as [|p paths IH]; cbn [hits]; [done|]. rewrite Hp. destruct (any_glob p globs) as [b|e'] eqn:Hb; cbn [mbind result_bind].
      - destruct (hits paths ms); cbn [mbind result_bind]; [done|]. intros [= <-]. by apply IH.
      - intros [= <-]. by exists p. }
    apply any_glob_err in He as (? & g & Hin & Hns). exists g, globs. destruct Hcase as [[_ ->]|[?|(_ & _ & ->)]]; [by apply elem_of_nil in Hin|done|].
    apply list_elem_of_singleton in Hin as ->. by destruct (Hns "**").
Qed.
End facts.
