(* ===== verification/BuildWorld.v ===== *)
(** * What a build asks of the world

    The executors of the autopilot drive git, gh, a model, a test suite and a task
    board.  Each request is a [call]; the [World] answers it, and the trace keeps what
    was asked and answered.  The journal calls are those of the run journal, and the
    measurements of [autocode/ci.py], of the mutation probe and of the accounting
    modules, which run other programs, are calls too. *)
From S2P Require Import Prelude PyDict PyFloat Canonical Json PyText AutopilotTypes CarveOut.
Local Open Scope Z_scope.

(** What the grader and the worker are given. *)
Record TaskBrief := {
  tb_task_id : string; tb_worktree : string; tb_title : json; tb_description : json; tb_acceptance : json;
  tb_prior_feedback : option string; tb_round : Z; tb_prior_success_feedback : option string; tb_model : json }.
Record GradeBrief := {
  gb_task_id : string; gb_worktree : string; gb_diff : string; gb_acceptance : json; gb_ci_status : string; gb_diff_coverage : option float; gb_model : json }.
(** The fields of one verdict record that decide something. *)
Record RunRecordRow := { rr_round : Z; rr_score : option Z; rr_passed : bool; rr_outcome : string; rr_ci_status : string; rr_cov : option float; rr_pr : option string }.

Inductive call : Type → Type :=
  | Subprocess (argv : list string) : call (Z * string)     (* the exit status and the output *)
  | IsDir (path : string) : call bool
  | PathExists (path : string) : call bool
  | Mkdir (path : string) : call unit
  | RmTree (path : string) : call unit
  | ClaimTask (agent ref : string) : call unit
  | CompleteTask (agent ref : string) : call unit
  | ScoreTask (ref : string) (round score : Z) (notes : string) : call unit
  | RecordAttempt (ref : string) (round : Z) (outcome tried why_failed hint : string) : call unit
  | RecordSuccess (ref : string) (round : Z) (outcome tried why_succeeded hint : string) : call unit
  | ClearAttempts (ref : string) : call (list json)
  | WriteMerge (ref : string) (merge : list (string * json)) : call unit
  | RecordClaim (ref : string) : call unit
  | SetWorktree (ref path : string) : call unit
  | WorktreeFor (ref : string) : call (option string)
  | ArchiveAttempts (ref : string) (entries : list json) : call unit
  | RunTask (brief : TaskBrief) : call HarnessResult
  | Grade (brief : GradeBrief) : call GateResult
  | CiVerdict (branch head worktree diff : string) : call string
  | DiffCoverage (worktree diff : string) : call (option float)
  | MutationProbe (worktree diff : string) : call (option json)
  | WriteRunRecord (ref : string) (row : RunRecordRow) : call unit
  | AlreadySettled (ref : string) : call bool
  | SettleJoules (ref : string) (priority : json) (score : Z) (usage : BuildUsage) (sha : string) : call bool  (* was it recorded *)
  | RecordSettlement (ref sha : string) : call unit
  | QueueDecision (prompt : string) (options : list (string * string)) (action_ref priority : string) : call unit
  | ManifestFile : call ManifestProbe                       (* _protected.json of the fleet tree *)
  | Monotonic : call Z                                      (* in nanoseconds *)
  | Sleep (seconds : Z) : call unit.

Inductive event := Event (A : Type) (c : call A) (r : result A).
Arguments Event {A} c r.
Class World (W : Type) := answer : ∀ A, call A → W → W * result A.
Arguments answer {W _ A} c w.
(** The state of an executor: the world, what happened, and the usage of its builds. *)
Record build_state (W : Type) := { bs_world : W; bs_trace : list event; bs_usage : dict string BuildUsage }.
Arguments bs_world {W} _.
Arguments bs_trace {W} _.
Arguments bs_usage {W} _.
Arguments Build_build_state {W} _ _ _.

Section world.
Context {W : Type} {WW : World W}.
Definition ask {A} (c : call A) : prog (build_state W) A := λ s,
  let '(w, r) := answer c (bs_world s) in
  ({| bs_world := w; bs_trace := bs_trace s ++ [Event c r]; bs_usage := bs_usage s |}, r).
(** [try: ... except Exception: a default] *)
Definition best_effort {A} (fallback : A) (m : prog (build_state W) A) : prog (build_state W) A :=
  try_ m (λ r, match r with
               | Ok a => mret a
               | Err e => if exn_isa (exn_kind e) Exception_ then mret fallback else lift (Err e)
               end).
Definition set_usage (f : dict string BuildUsage → dict string BuildUsage) : prog (build_state W) unit :=
  modify (λ s, {| bs_world := bs_world s; bs_trace := bs_trace s; bs_usage := f (bs_usage s) |}).

(** ** What a program can have asked

    [leaves m K Q]: started where [K] holds of the trace, [m] only ever issues calls
    that [ok] allows after the trace so far, and if it returns [a], then [Q a] holds of
    the trace. *)
Section leaves.
Context (ok : list event → event → Prop).
Definition allowed (old new : list event) : Prop := ∀ pre e post, new = pre ++ e :: post → ok (old ++ pre) e.
Definition leaves {A} (K : list event → Prop) (m : prog (build_state W) A) (Q : A → list event → Prop) : Prop :=
  ∀ s, K (bs_trace s) → ∃ new, bs_trace (m s).1 = bs_trace s ++ new ∧ allowed (bs_trace s) new ∧ ∀ a, (m s).2 = Ok a → Q a (bs_trace s ++ new).
Lemma allowed_nil old : allowed old [].
Proof. intros [|? ?] ? ? ?; done. Qed.
Lemma allowed_app old new more : allowed old new → allowed (old ++ new) more → allowed old (new ++ more).
Proof.
  intros H1 H2 pre e post Heq. apply app_eq_app in Heq as (mid & [[-> Hr]|[-> Hr]]).
  - destruct mid as [|e' mid].
    + cbn in Hr. subst more. rewrite app_nil_r in H2. specialize (H2 [] e post eq_refl). by rewrite app_nil_r in H2.
    + cbn in Hr. injection Hr as <- ->. by eapply H1.
  - rewrite app_assoc. by eapply H2.
Qed.
Lemma leaves_ret {A} K (a : A) (Q : A → list event → Prop) : (∀ h, K h → Q a h) → leaves K (mret a) Q.
Proof. intros H s Hs. exists []. rewrite app_nil_r. split; [done|]. split; [apply allowed_nil|]. intros b [= <-]. auto. Qed.
Lemma leaves_err {A} K (e : exn) (Q : A → list event → Prop) : leaves K (lift (Err e)) Q.
Proof. intros s Hs. exists []. rewrite app_nil_r. split; [done|]. split; [apply allowed_nil|]. done. Qed.
Lemma leaves_raise {A} K k msg (Q : A → list event → Prop) : leaves K (raise k msg) Q.
Proof. apply leaves_err. Qed.
Lemma leaves_lift {A} K (r : result A) (Q : A → list event → Prop) : (∀ a h, r = Ok a → K h → Q a h) → leaves K (lift r) Q.
Proof. intros H. destruct r; [|apply leaves_err]. apply leaves_ret. auto. Qed.
Lemma leaves_bind {A B} K (m : prog (build_state W) A) (k : A → prog (build_state W) B) R Q :
  leaves K m R → (∀ a, leaves (R a) (k a) Q) → leaves K (m ≫= k) Q.
Proof.
  intros Hm Hk s Hs. destruct (Hm s Hs) as (new & Ht & Ha & Hr). rewrite prog_bind_eq. destruct (m s) as [s' [a|e]]; cbn [fst snd] in *.
  - destruct (Hk a s') as (more & Ht' & Ha' & Hr'); [rewrite Ht; auto|]. exists (new ++ more). rewrite app_assoc, <- Ht. split; [done|].
    split; [|done]. apply allowed_app; [done|]. by rewrite <- Ht.
  - exists new. done.
Qed.
Lemma leaves_weaken {A} K K' (m : prog (build_state W) A) Q Q' : leaves K m Q → (∀ h, K' h → K h) → (∀ a h, Q a h → Q' a h) → leaves K' m Q'.
Proof. intros H HK HQ s Hs. destruct (H s) as (new & ? & ? & ?); [auto|]. exists new. auto. Qed.
Lemma leaves_ask {A} K (c : call A) (Q : A → list event → Prop) :
  (∀ h r, K h → ok h (Event c r)) → (∀ h a, K h → Q a (h ++ [Event c (Ok a)])) → leaves K (ask c) Q.
Proof.
  intros Hok HQ s Hs. unfold ask. destruct (answer c (bs_world s)) as [w r]. exists [Event c r]. cbn. split; [done|]. split.
  - intros [|e' pre] e post Heq.
    + apply (f_equal (λ l, match l with x :: _ => x | [] => Event c r end)) in Heq. cbn in Heq. subst e. rewrite app_nil_r. by apply Hok.
    + apply (f_equal (λ l, length l)) in Heq. cbn in Heq. rewrite length_app in Heq. cbn in Heq. lia.
  - intros a ->. by apply HQ.
Qed.
Lemma leaves_best_effort {A} K fallback (m : prog (build_state W) A) (Q : A → list event → Prop) :
  leaves K m Q → (∀ s new, K (bs_trace s) → bs_trace (m s).1 = bs_trace s ++ new → Q fallback (bs_trace s ++ new)) → leaves K (best_effort fallback m) Q.
Proof.
  intros Hm Hf s Hs. destruct (Hm s Hs) as (new & Ht & Ha & Hr). specialize (Hf s new Hs). unfold best_effort, try_.
  destruct (m s) as [s' [a|e]]; cbn [fst snd] in *; [by exists new; auto|]. exists new. split; [by destruct (exn_isa _ _)|]. split; [done|].
  destruct (exn_isa _ _); cbn; [|done]. intros b [= <-]. auto.
Qed.
Lemma leaves_gets {A} K (f : build_state W → A) (Q : A → list event → Prop) : (∀ a h, K h → Q a h) → leaves K (gets f) Q.
Proof. intros H s Hs. exists []. rewrite app_nil_r. split; [done|]. split; [apply allowed_nil|]. intros a [= <-]. auto. Qed.
Lemma leaves_set_usage K f (Q : unit → list event → Prop) : (∀ h, K h → Q tt h) → leaves K (set_usage f) Q.
Proof. intros H s Hs. exists []. rewrite app_nil_r. split; [done|]. split; [apply allowed_nil|]. intros [] _. auto. Qed.
Lemma leaves_raise_if K b k msg (Q : unit → list event → Prop) : (∀ h, b = false → K h → Q tt h) → leaves K (raise_if b k msg) Q.
Proof. intros H. destruct b; [apply leaves_raise|]. apply leaves_ret. auto. Qed.

(** Programs that only ever issue calls that are allowed anywhere. *)
Definition harmless (e : event) : Prop := ∀ h, ok h e.
Definition quiet {A} (m : prog (build_state W) A) : Prop :=
  ∀ s, ∃ new, bs_trace (m s).1 = bs_trace s ++ new ∧ Forall harmless new.
Lemma quiet_same {A} (m : prog (build_state W) A) : (∀ s, bs_trace (m s).1 = bs_trace s) → quiet m.
Proof. intros H s. exists []. by rewrite app_nil_r. Qed.
Lemma quiet_ret {A} (a : A) : quiet (mret a).
Proof. by apply quiet_same. Qed.
Lemma quiet_lift {A} (r : result A) : quiet (lift r).
Proof. by apply quiet_same. Qed.
Lemma quiet_raise {A} k msg : quiet (raise k msg : prog _ A).
Proof. by apply quiet_same. Qed.
Lemma quiet_gets {A} (f : build_state W → A) : quiet (gets f).
Proof. by apply quiet_same. Qed.
Lemma quiet_set_usage f : quiet (set_usage f).
Proof. by apply quiet_same. Qed.
Lemma quiet_raise_if b k msg : quiet (raise_if b k msg).
Proof. destruct b; [apply quiet_raise|apply quiet_ret]. Qed.
Lemma quiet_ask {A} (c : call A) : (∀ r, harmless (Event c r)) → quiet (ask c).
Proof. intros H s. unfold ask. destruct (answer c (bs_world s)) as [w r]. exists [Event c r]. split; [done|]. by constructor. Qed.
Lemma quiet_bind {A B} (m : prog (build_state W) A) (k : A → prog (build_state W) B) : quiet m → (∀ a, quiet (k a)) → quiet (m ≫= k).
Proof.
  intros Hm Hk s. destruct (Hm s) as (new & Ht & Hn). rewrite prog_bind_eq. destruct (m s) as [s' [a|e]]; cbn [fst] in *; [|by exists new].
  destruct (Hk a s') as (more & Ht' & Hn'). exists (new ++ more). rewrite app_assoc, <- Ht. split; [done|]. by apply Forall_app.
Qed.
Lemma quiet_try {A B} (m : prog (build_state W) A) (k : result A → prog (build_state W) B) : quiet m → (∀ r, quiet (k r)) → quiet (try_ m k).
Proof.
  intros Hm Hk s. destruct (Hm s) as (new & Ht & Hn). unfold try_. destruct (m s) as [s' r]; cbn [fst] in *.
  destruct (Hk r s') as (more & Ht' & Hn'). exists (new ++ more). rewrite app_assoc, <- Ht. split; [done|]. by apply Forall_app.
Qed.
Lemma quiet_best_effort {A} fallback (m : prog (build_state W) A) : quiet m → quiet (best_effort fallback m).
Proof. intros H. apply quiet_try; [done|]. intros [a|e]; [apply quiet_ret|]. destruct (exn_isa _ _); [apply quiet_ret|apply quiet_lift]. Qed.
Definition monotone (K : list event → Prop) : Prop := ∀ h new, K h → K (h ++ new).
Lemma allowed_harmless old new : Forall harmless new → allowed old new.
Proof. intros H pre e post ->. apply Forall_app in H as [_ H]. by inversion H. Qed.
Lemma quiet_leaves {A} K (m : prog (build_state W) A) : quiet m → monotone K → leaves K m (λ _, K).
Proof. intros Hm HK s Hs. destruct (Hm s) as (new & Ht & Hn). exists new. split; [done|]. split; [by apply allowed_harmless|]. auto. Qed.
(** A harmless call, whose answer is known afterwards. *)
Lemma leaves_answer {A} K (c : call A) : (∀ r, harmless (Event c r)) → monotone K → leaves K (ask c) (λ a h, K h ∧ Event c (Ok a) ∈ h).
Proof.
  intros Hc HK. apply leaves_ask; [intros; by apply Hc|]. intros h a Hh. split; [by apply HK|]. apply elem_of_app. right. by left.
Qed.
End leaves.
End world.

(** Decompose a quiet program; the calls of [ok] are left to [tac]. *)
Ltac quiet_step tac :=
  lazymatch goal with
  | |- quiet _ (mret _) => apply quiet_ret
  | |- quiet _ (lift _) => apply quiet_lift
  | |- quiet _ (raise _ _) => apply quiet_raise
  | |- quiet _ (gets _) => apply quiet_gets
  | |- quiet _ (set_usage _) => apply quiet_set_usage
  | |- quiet _ (raise_if _ _ _) => apply quiet_raise_if
  | |- quiet _ (ask _) => apply quiet_ask; tac
  | |- quiet _ (best_effort _ _) => apply quiet_best_effort
  | |- quiet _ (try_ _ _) => apply quiet_try; [|intros ?]
  | |- quiet _ (_ ≫= _) => apply quiet_bind; [|intros ?]
  | |- quiet _ (match ?x with _ => _ end) => destruct x
  end.
