(* ===== verification/MergeGate.v ===== *)
(** * Merging a pull request

    [autocode/merge_method.py], and the helpers of [autocode/engineering.py] that read
    the state of a pull request through gh and merge it. *)
From S2P Require Import Prelude PyDict PyFloat Canonical Json PyText Grading AutopilotTypes BuildWorld.
From Stdlib Require Import Ascii.
Local Open Scope Z_scope.

(** ** The merge method *)
Definition _MERGE_METHODS : list string := ["squash"; "rebase"; "merge"].
Definition _REPO_FLAG_TO_METHOD : list (string * string) :=
  [("allow_squash_merge", "squash"); ("allow_rebase_merge", "rebase"); ("allow_merge_commit", "merge")].
Record ProtectedMergePolicy := { mp_repository_allowed : list string; mp_branch_allowed : list string }.
Definition all_methods (ms : list string) : bool := forallb (λ m, bool_decide (m ∈ _MERGE_METHODS)) ms.
Definition resolve_protected_merge_method (policy : option ProtectedMergePolicy) : option string :=
  match policy with
  | None => None
  | Some p =>
      if negb (all_methods (mp_repository_allowed p)) || negb (all_methods (mp_branch_allowed p)) then None
      else find_first (λ m, bool_decide (m ∈ mp_repository_allowed p) && bool_decide (m ∈ mp_branch_allowed p)) _MERGE_METHODS
  end.
Fixpoint allowed_flags (flags : list (string * string)) (ms : list (string * json)) : option (list string) :=
  match flags with
  | [] => Some []
  | (flag, method) :: rest =>
      match jget_or_none flag ms with
      | JBool b => match allowed_flags rest ms with Some more => Some (if b then method :: more else more) | None => None end
      | _ => None
      end
  end.
Definition repository_allowed_from_repo_json (data : json) : option (list string) :=
  match data with JObj ms => allowed_flags _REPO_FLAG_TO_METHOD ms | _ => None end.
(** The methods of one rule: [None] refuses the payload. *)
Fixpoint normalized (methods : list json) : option (list string) :=
  match methods with
  | [] => Some []
  | JStr s :: rest =>
      let name := py_lower (strip s) in
      if bool_decide (name ∈ _MERGE_METHODS) then match normalized rest with Some more => Some (name :: more) | None => None end else None
  | _ :: _ => None
  end.
Fixpoint declared (rules : list json) : option (list (list string)) :=
  match rules with
  | [] => Some []
  | JObj rule :: rest =>
      match jget_or_none "type" rule, jget_or_none "parameters" rule with
      | JStr t, JObj params =>
          if negb (bool_decide (t = "pull_request")) then declared rest
          else match jget "allowed_merge_methods" params with
               | None => declared rest
               | Some (JArr (m :: ms)) =>
                   match normalized (m :: ms), declared rest with Some one, Some more => Some (one :: more) | _, _ => None end
               | Some _ => None
               end
      | _, _ => declared rest
      end
  | _ :: rest => declared rest
  end.
Definition branch_allowed_from_rules_json (rules : json) : option (list string) :=
  match rules with
  | JArr rules =>
      match declared rules with
      | None => None
      | Some sets => Some (List.filter (λ m, forallb (λ set, bool_decide (m ∈ set)) sets) _MERGE_METHODS)
      end
  | _ => None
  end.
Definition merge_argv (pr_branch method head_sha : string) : list string :=
  ["gh"; "pr"; "merge"; pr_branch; "--" +:+ method; "--delete-branch"; "--match-head-commit"; head_sha].

(** ** The checks of a pull request *)
Definition _AUTOMERGE_CI_TIMEOUT : Z := 1500.
Definition _AUTOMERGE_CORE : list string := ["lint"; "test"; "qa"; "pytest"].
Definition _AUTOMERGE_SECURITY : list string := ["gitguardian"; "security"].
Definition nanoseconds (s : Z) : Z := s * 1000000000.
Definition _hit (names : list string) (name : json) : result bool :=
  n ← (if py_truthy name then as_text "lower" name else Ok "");
  Ok (existsb (λ k, str_contains k (py_lower n)) names).
(** [c.get(k)] of an element of the parsed list. *)
Definition field_of (k : string) (c : json) : result json :=
  match c with
  | JObj ms => Ok (jget_or_none k ms)
  | _ => Err (Exn AttributeError ("'" +:+ type_name c +:+ "' object has no attribute 'get'"))
  end.
Fixpoint filter_result {A} (p : A → result bool) (xs : list A) : result (list A) :=
  match xs with
  | [] => Ok []
  | x :: rest => match p x with
                 | Ok keep => more ← filter_result p rest; Ok (if keep : bool then x :: more else more)
                 | Err e => Err e
                 end
  end.
Definition is_core (advisory : list string) (c : json) : result bool :=
  name ← field_of "name" c;
  match _hit _AUTOMERGE_CORE name with
  | Ok true => match _hit advisory name with Ok b => Ok (negb b) | Err e => Err e end
  | r => r
  end.
Definition is_security (c : json) : result bool := name ← field_of "name" c; _hit _AUTOMERGE_SECURITY name.
Definition bucket_is (b : string) (c : json) : bool := match c with JObj ms => bool_decide (jget_or_none "bucket" ms = JStr b) | _ => false end.
Section gate.
Context {PF : Platform} {FT : FloatText}.

Definition parsed_checks (out : string) : json :=
  match loads (if is_empty_str out then "[]" else out) with Loaded j => j | _ => JArr [] end.
(** One round of the poll; [None] goes on waiting. *)
Definition checks_round (repo : RepoSpec) (out : string) : result (option string) :=
  checks ← py_iter (parsed_checks out);
  core ← filter_result (is_core (py_lower <$> rs_advisory_checks repo)) checks;
  sec ← filter_result is_security checks;
  Ok (if existsb (bucket_is "fail") sec then Some "blocked"
      else if existsb (bucket_is "fail") core then Some "red"
      else if negb (match core with [] => true | _ => false end) && negb (existsb (bucket_is "pending") (core ++ sec)) then Some "green"
      else None).

Section world.
Context {W : Type} {WW : World W}.
Fixpoint poll_checks (polls : nat) (repo : RepoSpec) (pr_branch : string) (deadline : Z) : prog (build_state W) (option string) :=
  match polls with
  | O => mret None
  | S polls =>
      out ← ask (Subprocess ["gh"; "pr"; "checks"; pr_branch; "--json"; "name,bucket"]);
      verdict ← lift (checks_round repo out.2);
      match verdict with
      | Some v => mret (Some v)
      | None =>
          now ← ask Monotonic;
          if deadline <=? now then mret (Some "timeout") else ask (Sleep 20) ;; poll_checks polls repo pr_branch deadline
      end
  end.
(** [None] when the given number of polls was not enough; see [polls_enough]. *)
Definition _github_checks_verdict (polls : nat) (repo : RepoSpec) (pr_branch : string) : prog (build_state W) (option string) :=
  start ← ask Monotonic; poll_checks polls repo pr_branch (start + nanoseconds _AUTOMERGE_CI_TIMEOUT).

(** [_gh_json]: [None] is [JNull]. *)
Definition _gh_json (argv : list string) : prog (build_state W) json :=
  try_ (ask (Subprocess argv)) (λ r,
    match r with
    | Err e => if exn_isa (exn_kind e) OSError || exn_isa (exn_kind e) SubprocessError then mret JNull else lift (Err e)
    | Ok (status, out) =>
        if negb (status =? 0) then mret JNull
        else match loads (if is_empty_str out then "null" else out) with
             | Loaded j => mret j
             | DecodeError => mret JNull
             | DigitLimit => lift (Err digit_limit_error)
             end
    end).
Definition _pr_base (repo : RepoSpec) : prog (build_state W) string :=
  out ← ask (Subprocess ["git"; "-C"; rs_path repo; "ls-remote"; "--heads"; "origin"; rs_integration_branch repo]);
  mret (if is_empty_str (strip out.2) then rs_base_branch repo else rs_integration_branch repo).
Definition _protected_merge_policy (repo : RepoSpec) : prog (build_state W) (option ProtectedMergePolicy) :=
  repo_json ← _gh_json ["gh"; "api"; "repos/:owner/:repo"];
  match repository_allowed_from_repo_json repo_json with
  | None => mret None
  | Some repository_allowed =>
      base ← _pr_base repo;
      rules ← _gh_json ["gh"; "api"; "repos/:owner/:repo/rules/branches/" +:+ base];
      mret (match branch_allowed_from_rules_json rules with
            | None => None
            | Some branch_allowed => Some {| mp_repository_allowed := repository_allowed; mp_branch_allowed := branch_allowed |}
            end)
  end.
Definition _pr_head_sha (pr_branch : string) : prog (build_state W) string :=
  data ← _gh_json ["gh"; "pr"; "view"; pr_branch; "--json"; "headRefOid"];
  mret (match data with JObj ms => match jget_or_none "headRefOid" ms with JStr head => head | _ => "" end | _ => "" end).
Definition _gh_merge (repo : RepoSpec) (pr_branch : string) : prog (build_state W) bool :=
  policy ← _protected_merge_policy repo;
  match resolve_protected_merge_method policy with
  | None => mret false
  | Some method =>
      head ← _pr_head_sha pr_branch;
      if is_empty_str head then mret false
      else out ← ask (Subprocess (merge_argv pr_branch method head)); mret (out.1 =? 0)
  end.
Definition _merge_commit_sha (pr_branch : string) : prog (build_state W) string :=
  try_ (ask (Subprocess ["gh"; "pr"; "view"; pr_branch; "--json"; "mergeCommit"; "-q"; ".mergeCommit.oid"])) (λ r,
    match r with
    | Err e => if exn_isa (exn_kind e) OSError || exn_isa (exn_kind e) SubprocessError then mret "" else lift (Err e)
    | Ok (status, out) => mret (if status =? 0 then strip out else "")
    end).
End world.
End gate.
