(* ===== verification/GatedBuild.v ===== *)
(** * The gated build

    Class [EngineeringExecutor] of [autocode/engineering.py] up to the verdict: the
    promise token, the twin gate, the choice of cards, the claim, the worktree and the
    loop of rounds.  [adapter] is the name of the harness. *)
From S2P Require Import Prelude PyDict PyFloat Canonical Json PyText Grading Buckets FailureMemory AutopilotTypes BuildWorld MergeGate.
From stdpp Require Import pretty.
From Stdlib Require Import Ascii.
Local Open Scope Z_scope.

(** ** The promise token *)
Definition signal_char (c : ascii) : bool := ((65 <=? N_of_ascii c) && (N_of_ascii c <=? 90) || (N_of_ascii c =? 95))%N.
Fixpoint take_signal (s : string) : string * string :=
  match s with
  | String c r => if signal_char c then let '(a, b) := take_signal r in (String c a, b) else ("", s)
  | EmptyString => ("", s)
  end.
(** A match of [<promise>\s*([A-Z_]+)\s*</promise>] at the start of the text: the signal and
    the text after it. *)
Definition promise_here (s : string) : option (string * string) :=
  if startswith s "<promise>" then
    let '(signal, r) := take_signal (lstrip (str_drop 9 s)) in
    let r := lstrip r in
    if negb (is_empty_str signal) && startswith r "</promise>" then Some (signal, str_drop 10 r) else None
  else None.
Fixpoint find_promise (s : string) : option string :=
  match promise_here s with
  | Some (signal, _) => Some signal
  | None => match s with String _ s => find_promise s | EmptyString => None end
  end.
Definition parse_promise (text : string) : option string := find_promise text.
(** [_PROMISE.sub("", text)]; [skip] is what is left of a match that is being removed. *)
Fixpoint remove_promises (skip : nat) (s : string) : string :=
  match s with
  | EmptyString => ""
  | String c r =>
      match skip with
      | S skip => remove_promises skip r
      | O => match promise_here s with
             | Some (_, rest) => remove_promises (String.length r - String.length rest) r
             | None => String c (remove_promises O r)
             end
      end
  end.
Definition strip_promise (text : string) : string := strip (remove_promises O text).
Definition is_complete (text : string) : bool := bool_decide (parse_promise text = Some "COMPLETE").

(** ** The twin gate *)
Definition cov_floor (repo : RepoSpec) (cov : option float) : bool := match cov with Some c => rs_min_diff_coverage repo <=? c | None => false end.
Definition twin_gate_passed (gr : GateResult) (ci_status : string) (cov : option float) (repo : RepoSpec) : bool :=
  bool_decide (gr_result_score gr = Some 5) && is_complete (gr_notes gr) && bool_decide (ci_status = "green") && cov_floor repo cov.
Definition _MAX_ROUNDS : nat := 4.

Section build.
Context {PF : Platform} {FT : FloatText} (config : Config) (agent_name adapter : string).

(** ** The choice of cards *)
Definition payload_field (k : string) (item : WorkItem) : json := jget_or_none k (wi_payload item).
(** [payload.get(k, fallback)] *)
Definition payload_or (k : string) (fallback : json) (item : WorkItem) : json := default fallback (jget k (wi_payload item)).
Definition _repo_names (item : WorkItem) : result (list string) := tags ← py_iter (payload_or "tags" (JArr []) item); repo_names tags.
Definition resolve_repo (item : WorkItem) : result (option RepoSpec) :=
  names ← _repo_names item; Ok (match names with [n] => cf_repo_map config !! n | _ => None end).
(** [text in value] *)
Definition contained (text : string) (j : json) : result bool :=
  match j with
  | JArr xs => Ok (bool_decide (JStr text ∈ xs))
  | JStr s => Ok (str_contains text s)
  | JObj ms => Ok (bool_decide (is_Some (jget text ms)))
  | _ => Err (Exn TypeError ("argument of type '" +:+ type_name j +:+ "' is not iterable"))
  end.
(** The tests both executors share; [deliverable] is the last one. *)
Definition selectable_when (deliverable : result bool) (item : WorkItem) : result bool :=
  if negb (py_truthy (payload_field "unblocked" item)) then Ok false
  else if negb (bool_decide (payload_field "verdict" item = JStr "valid")) then Ok false
  else match contained "autopilot-untriaged" (payload_or "tags" (JArr []) item) with
       | Ok true => Ok false
       | Err e => Err e
       | Ok false => match resolve_repo item with
                     | Ok (Some _) => deliverable
                     | Ok None => Ok false
                     | Err e => Err e
                     end
       end.
Definition selectable (item : WorkItem) : result bool :=
  selectable_when (Ok (py_truthy (payload_field "acceptance" item) || py_truthy (payload_field "deliverable" item))) item.
(** [DirectExecutor.selectable] *)
Definition direct_selectable (item : WorkItem) : result bool :=
  selectable_when (let d := payload_field "description" item in
                   s ← (if py_truthy d then as_text "strip" d else Ok ""); Ok (negb (is_empty_str (strip s)))) item.

(** ** Before the rounds *)
Section world.
Context {W : Type} {WW : World W}.
Definition claim (item : WorkItem) : prog (build_state W) unit :=
  try_ (ask (ClaimTask agent_name (wi_ref item))) (λ r,
    match r with
    | Ok _ => mret tt
    | Err e => if exn_isa (exn_kind e) ValueError then raise ClaimRaced (wi_ref item +:+ ": " +:+ exn_msg e) else lift (Err e)
    end) ;;
  ask (RecordClaim (wi_ref item)).
Definition the_repo (repo : option RepoSpec) (attribute : string) : result RepoSpec :=
  match repo with Some r => Ok r | None => Err (Exn AttributeError ("'NoneType' object has no attribute '" +:+ attribute +:+ "'")) end.
(** The parts of a path, and the path of the worktree beside the repository. *)
Definition path_parts (p : string) : list string := List.filter (λ c, negb (bool_decide (c ∈ [""; "."]))) (str_split "/" p).
Definition path_text (absolute : bool) (parts : list string) : string :=
  if absolute then "/" +:+ str_join "/" parts else match parts with [] => "." | _ => str_join "/" parts end.
Definition path_name (p : string) : string := default "" (last (path_parts p)).
Definition _worktree_path (item : WorkItem) (repo : RepoSpec) : string :=
  let base := rs_path repo in
  let ref := wi_ref item in
  if startswith ref "/" then path_text true (path_parts ref)
  else path_text (startswith base "/") (removelast (path_parts base) ++ path_parts (path_name base +:+ "-wt") ++ path_parts ref).
Definition parent_of (p : string) : string := path_text (startswith p "/") (removelast (path_parts p)).
Definition branch_of (item : WorkItem) : string := "autopilot/" +:+ wi_ref item.
Definition git (directory : string) (args : list string) : prog (build_state W) (Z * string) := ask (Subprocess ("git" :: "-C" :: directory :: args)).
Definition _clear_stale_worktree (repo : RepoSpec) (wt branch : string) : prog (build_state W) unit :=
  git (rs_path repo) ["worktree"; "remove"; "--force"; wt] ;;
  git (rs_path repo) ["worktree"; "prune"] ;;
  there ← ask (PathExists wt);
  (if there : bool then best_effort tt (ask (RmTree wt)) else mret tt) ;;
  git (rs_path repo) ["branch"; "-D"; branch] ;; mret tt.
Definition make_worktree (item : WorkItem) (repo : RepoSpec) : prog (build_state W) string :=
  let wt := _worktree_path item repo in
  try_ (ask (Mkdir (parent_of wt))) (λ r, match r with Ok _ => mret tt | Err e => if exn_isa (exn_kind e) OSError then mret tt else lift (Err e) end) ;;
  _clear_stale_worktree repo wt (branch_of item) ;;
  added ← git (rs_path repo) ["worktree"; "add"; "-b"; branch_of item; wt; rs_base_branch repo];
  raise_if (negb (added.1 =? 0)) SubprocessError "Command returned non-zero exit status" ;;
  mret wt.
Definition _stage_work (wt : string) : prog (build_state W) unit :=
  git wt ["add"; "-A"] ;;
  git wt ["reset"; "-q"; "--"; "coverage.xml"; ".coverage"; ".pytest_cache"; ":(glob)**/__pycache__/**"; ":(glob)**/*.pyc"] ;; mret tt.
Definition _diff (repo : RepoSpec) (wt : string) : prog (build_state W) string :=
  _stage_work wt ;; out ← git wt ["diff"; "--cached"; rs_base_branch repo]; mret out.2.
Definition _head_sha (wt : string) : prog (build_state W) string := out ← git wt ["rev-parse"; "HEAD"]; mret (strip out.2).

(** ** Usage *)
Definition _accrue_usage (ref : string) (hr : HarnessResult) : prog (build_state W) unit :=
  set_usage (λ d, <[ref := accrue (default new_BuildUsage (d !! ref)) hr adapter]> d).
Definition _peek_usage (ref : string) : prog (build_state W) BuildUsage := gets (λ s, default new_BuildUsage (bs_usage s !! ref)).
Definition _take_usage (ref : string) : prog (build_state W) BuildUsage :=
  u ← _peek_usage ref; set_usage (λ d, dict_delete ref d) ;; mret u.

(** ** The pull request *)
Definition payload_title (item : WorkItem) : string := py_str (payload_or "title" (JStr (wi_ref item)) item).
Definition _commit_and_push (wt pr_branch : string) (item : WorkItem) : prog (build_state W) unit :=
  _stage_work wt ;;
  git wt ["commit"; "-m"; "autopilot: " +:+ payload_title item] ;;
  git wt ["push"; "-u"; "origin"; pr_branch] ;; mret tt.
Definition _open_pr (repo : RepoSpec) (pr_branch : string) (item : WorkItem) (base : string) : prog (build_state W) string :=
  out ← ask (Subprocess ["gh"; "pr"; "create"; "--head"; pr_branch; "--base"; base; "--title"; "autopilot: " +:+ payload_title item;
                         "--body"; "Autopilot task " +:+ wi_ref item]);
  mret (strip out.2).
Definition _record_attempt (item : WorkItem) (round : Z) (outcome tried why_failed hint : string) : prog (build_state W) unit :=
  best_effort tt (ask (RecordAttempt (wi_ref item) round outcome tried why_failed hint)).
(** [_shadow_mutation_report]: a probe that fails reports nothing. *)
Definition _shadow_mutation_report (wt diff : string) : prog (build_state W) (option json) := best_effort None (ask (MutationProbe wt diff)).
(** [_salvage_to_review] *)
Definition _salvage_to_review (item : WorkItem) (repo : RepoSpec) (wt pr_branch : string) : prog (build_state W) string :=
  _commit_and_push wt pr_branch item ;; base ← _pr_base repo; _open_pr repo pr_branch item base.

(** ** The rounds *)
Definition no_changes_feedback : string :=
  "You produced NO changes to the repository. If the acceptance criteria are ALREADY satisfied by existing code on this branch, do not re-implement -- instead make a minimal no-op-safe adjustment ONLY if something is genuinely missing. Otherwise create/edit the required files now; an empty diff cannot pass review.".
Definition no_op_notes : string :=
  "no-op: the agent produced no diff in 2 rounds. The acceptance is likely ALREADY satisfied on the base branch (stale card) or the harness cannot write. This is not a gate failure -- review the card.".
(** What a build fixes before its first round. *)
Record build_plan := {
  bp_item : WorkItem; bp_repo : RepoSpec; bp_worktree : string; bp_success_feedback : option string; bp_model : json }.
Definition gate_result (score : option Z) (passed : bool) (notes : string) (artifact : option string) (outcome : string) (u : BuildUsage) (shadow : option json) : GateResult := {|
  gr_result_score := score; gr_passed := passed; gr_notes := notes; gr_artifact := artifact; gr_mode := "gated"; gr_outcome := outcome;
  gr_tokens := usage_tokens u; gr_cost_usd := bu_cost_usd u; gr_mutation_report := shadow |}.
(** The last round that was graded: its grade, and the measurements it was judged with. *)
Record graded := { gd_grade : GateResult; gd_ci : string; gd_cov : option float }.
(** What becomes of a round with a diff: the build ends, or the grade is carried on. *)
Inductive judged := Ended (r : GateResult) | Carried (g : graded).
Definition salvages (gate_ok : bool) (g : graded) (diff : string) (repo : RepoSpec) : bool :=
  negb gate_ok && bool_decide (gr_result_score (gd_grade g) = None) && bool_decide (gd_ci g = "green") && negb (is_empty_str (strip diff)) &&
  match gd_cov g with Some c => rs_min_diff_coverage repo <=? c | None => true end.
Definition judge_round (p : build_plan) (round : Z) (diff : string) : prog (build_state W) judged :=
  let ref := wi_ref (bp_item p) in
  let wt := bp_worktree p in
  let pr_branch := branch_of (bp_item p) in
  head ← _head_sha wt;
  ci ← ask (CiVerdict pr_branch head wt diff);
  cov ← ask (DiffCoverage wt diff);
  gr ← ask (Grade {| gb_task_id := ref; gb_worktree := wt; gb_diff := diff; gb_acceptance := payload_or "acceptance" (JArr []) (bp_item p);
                     gb_ci_status := ci; gb_diff_coverage := cov; gb_model := bp_model p |});
  ask (ScoreTask ref round (default 0 (gr_result_score gr)) (strip_promise (gr_notes gr))) ;;
  let g := {| gd_grade := gr; gd_ci := ci; gd_cov := cov |} in
  let gate_ok := twin_gate_passed gr ci cov (bp_repo p) in
  let salvage := salvages gate_ok g diff (bp_repo p) in
  shadow ← (if gate_ok || salvage then _shadow_mutation_report wt diff else mret None);
  if gate_ok then
    u ← _peek_usage ref;
    ask (WriteRunRecord ref {| rr_round := round; rr_score := gr_result_score gr; rr_passed := true; rr_outcome := "pass"; rr_ci_status := ci; rr_cov := cov; rr_pr := None |}) ;;
    mret (Ended (gate_result (gr_result_score gr) true (strip_promise (gr_notes gr)) (gr_artifact gr) "pass" u shadow))
  else if salvage then
    pr_url ← _salvage_to_review (bp_item p) (bp_repo p) wt pr_branch;
    u ← _take_usage ref;
    let notes := "grade inconclusive but CI green + coverage met; opened PR " +:+ pr_url +:+ " for human review (NOT auto-merged)." in
    ask (WriteRunRecord ref {| rr_round := round; rr_score := None; rr_passed := false; rr_outcome := "salvage"; rr_ci_status := ci; rr_cov := cov; rr_pr := Some pr_url |}) ;;
    mret (Ended (gate_result None false notes (Some pr_url) "salvage" u shadow))
  else mret (Carried g).
Definition quoted_title (p : build_plan) : string := py_repr (payload_or "title" (JStr (wi_ref (bp_item p))) (bp_item p)).
(** The build that spent its rounds. *)
Definition not_converged (p : build_plan) (last_graded : option graded) : prog (build_state W) GateResult :=
  let ref := wi_ref (bp_item p) in
  let last_notes := match last_graded with Some g => strip_promise (gr_notes (gd_grade g)) | None => "" end in
  let round := Z.of_nat _MAX_ROUNDS in
  _record_attempt (bp_item p) round "ci_red" ("gated build of " +:+ quoted_title p +:+ ", " +:+ pretty round +:+ " rounds") (distill_failure (JStr last_notes) MAX_CAUSE_CHARS) "" ;;
  u ← _take_usage ref;
  let notes := "did not converge in " +:+ pretty round +:+ " rounds: " +:+ last_notes in
  (match last_graded with
   | Some g => ask (WriteRunRecord ref {| rr_round := round; rr_score := gr_result_score (gd_grade g); rr_passed := false; rr_outcome := "ci_red";
                                          rr_ci_status := gd_ci g; rr_cov := gd_cov g; rr_pr := None |})
   | None => mret tt
   end) ;;
  mret (gate_result (match last_graded with Some g => gr_result_score (gd_grade g) | None => None end) false notes
          (match last_graded with Some g => gr_artifact (gd_grade g) | None => None end) "ci_red" u None).
(** The rounds from [round] on; [rounds] of them are left. *)
Fixpoint rounds_from (p : build_plan) (rounds : nat) (round : Z)
    (feedback : option string) (last_graded : option graded) (empty_rounds : Z) : prog (build_state W) GateResult :=
  match rounds with
  | O => not_converged p last_graded
  | S rounds =>
      let item := bp_item p in
      let ref := wi_ref item in
      used ← ask (RunTask {| tb_task_id := ref; tb_worktree := bp_worktree p; tb_title := payload_or "title" (JStr "") item;
                             tb_description := payload_or "description" (JStr "") item; tb_acceptance := payload_or "acceptance" (JArr []) item;
                             tb_prior_feedback := feedback; tb_round := round; tb_prior_success_feedback := bp_success_feedback p; tb_model := bp_model p |});
      _accrue_usage ref used ;;
      diff ← _diff (bp_repo p) (bp_worktree p);
      if is_empty_str (strip diff) then
        if 2 <=? empty_rounds + 1 then
          _record_attempt item round "no_op" ("gated build of " +:+ quoted_title p +:+ ": the harness produced no changes")
            "no diff in 2 rounds; acceptance likely already satisfied on the base branch, or the harness cannot write"
            "verify against the base branch before re-implementing" ;;
          u ← _take_usage ref;
          mret (gate_result None false no_op_notes None "no_op" u None)
        else rounds_from p rounds (round + 1) (Some no_changes_feedback) last_graded (empty_rounds + 1)
      else
        verdict ← judge_round p round diff;
        match verdict with
        | Ended r => mret r
        | Carried g => rounds_from p rounds (round + 1) (Some (strip_promise (gr_notes (gd_grade g)))) (Some g) 0
        end
  end.
(** [EngineeringExecutor.run] *)
Definition run (item : WorkItem) : prog (build_state W) GateResult :=
  claim item ;;
  repo ← lift (resolve_repo item);
  repo ← lift (the_repo repo "path");
  wt ← make_worktree item repo;
  ask (SetWorktree (wi_ref item) wt) ;;
  let payload := JObj (wi_payload item) in
  dispatch_model ← lift (bucket_for_payload payload);
  brief ← lift (attach_dispatch_model DISPATCH_MODEL_ATTR ∅ dispatch_model);
  model ← lift (dispatch_model_of DISPATCH_MODEL_ATTR brief);
  rounds_from
    {| bp_item := item; bp_repo := repo; bp_worktree := wt; bp_success_feedback := build_prior_success_feedback payload; bp_model := model |}
    _MAX_ROUNDS 1 (build_prior_feedback payload) None 0.
End world.
End build.
