(* ===== verification/Finalize.v ===== *)
(** * Finalizing a build

    [EngineeringExecutor.finalize] of [autocode/engineering.py], with the pull request,
    the carve-out and the automatic merge; and class [DirectExecutor] of
    [autocode/direct.py], which never merges.  Health events, prints and the time stamp
    of a merge record are not modelled. *)
From S2P Require Import Prelude PyDict PyFloat Canonical Json PyText Grading Buckets FailureMemory AutopilotTypes BuildWorld MergeGate GatedBuild CarveOut.
From Stdlib Require Import Ascii.
Local Open Scope Z_scope.

Section finalize.
Context {PF : Platform} {FT : FloatText} (config : Config) (agent_name : string) (verify : json → result bool).
Context {W : Type} {WW : World W}.

(** The files the pull request changes; what git prints is read whatever its status. *)
Definition _changed_paths (repo : RepoSpec) (pr_branch : string) : prog (build_state W) (list string) :=
  out ← git (rs_path repo) ["diff"; "--name-only"; rs_base_branch repo +:+ "..." +:+ pr_branch];
  mret (List.filter (λ ln, negb (is_empty_str (strip ln))) (text_lines out.2)).
Definition _record_success (item : WorkItem) (round : Z) (outcome tried why_succeeded hint : string) : prog (build_state W) unit :=
  if negb (bool_decide (outcome ∈ GATE_OUTCOMES)) then mret tt
  else best_effort tt (ask (RecordSuccess (wi_ref item) round outcome tried why_succeeded hint)).
Definition _archive_attempts (item : WorkItem) : prog (build_state W) (list json) :=
  best_effort [] (removed ← ask (ClearAttempts (wi_ref item));
                  (match removed with [] => mret tt | _ => ask (ArchiveAttempts (wi_ref item) removed) end) ;;
                  mret removed).
(** The largest round of the archived attempts, zero when there is none. *)
Fixpoint rounds_max (archived : list json) : result Z :=
  match archived with
  | [] => Ok 0
  | JObj a :: rest =>
      let round := jget_or_none "round" a in
      n ← (if py_truthy round then py_int round else Ok 0);
      more ← rounds_max rest;
      Ok (match List.filter (λ a, match a with JObj _ => true | _ => false end) rest with [] => n | _ => Z.max n more end)
  | _ :: rest => rounds_max rest
  end.
(** [_settle_economics]; the wallet is the one of the agent of the process. *)
Definition _settle_economics (item : WorkItem) (sha : string) : prog (build_state W) unit :=
  best_effort tt (
    settled ← ask (AlreadySettled (wi_ref item));
    usage ← _take_usage (wi_ref item);
    if settled : bool then mret tt
    else
      recorded ← ask (SettleJoules (wi_ref item) (payload_field "priority" item) 5 usage sha);
      if recorded : bool then ask (RecordSettlement (wi_ref item) sha) else mret tt).
Definition prune_worktree (repo : RepoSpec) (wt : string) : prog (build_state W) unit :=
  git (rs_path repo) ["worktree"; "remove"; "--force"; wt] ;; git (rs_path repo) ["worktree"; "prune"] ;; mret tt.
Definition repr_opt (o : option string) : string := match o with Some s => repr_str s | None => "None" end.
Definition outcome_or_pass (r : GateResult) : string := if is_empty_str (gr_outcome r) then "pass" else gr_outcome r.
Definition score_text (r : GateResult) : string := py_str (jopt JInt (gr_result_score r)).
Definition pr_base_of (repo : option RepoSpec) : prog (build_state W) (RepoSpec * string) :=
  r ← lift (the_repo repo "path"); base ← _pr_base r; mret (r, base).
Definition review_options : list (string * string) := [("yes", "merge"); ("no", "close"); ("defer", "later")].
Definition named (guardrails : list string) : string := str_join ", " (take 20 guardrails).
(** The merge of a pull request whose checks are green. *)
Definition merge_green (item : WorkItem) (repo : RepoSpec) (wt pr_branch pr_url : string) : prog (build_state W) bool :=
  prune_worktree repo wt ;;
  merged ← _gh_merge repo pr_branch;
  if merged : bool then
    sha ← _merge_commit_sha pr_branch;
    ask (WriteMerge (wi_ref item) ([("pr", JStr pr_url); ("branch", JStr pr_branch); ("auto", JBool true)] ++
      (if is_empty_str sha then [("sha_unavailable", JBool true)] else [("sha", JStr sha)]))) ;;
    ask (CompleteTask agent_name (wi_ref item)) ;;
    mret true
  else mret false.
Definition automerge_allowed (repo : RepoSpec) (result : GateResult) : bool :=
  bool_decide (rs_name repo ∈ cf_automerge_repos config) && negb (bool_decide (rs_ci repo = "none")) && gr_passed result && rs_automerge repo.
(** What follows the pull request. *)
Definition offer (polls : nat) (item : WorkItem) (repo : RepoSpec) (result : GateResult) (wt pr_branch pr_url : string) : prog (build_state W) unit :=
  let ref := wi_ref item in
  paths ← _changed_paths repo pr_branch;
  file ← ask ManifestFile;
  guardrails ← lift (matched_protected_paths verify file paths);
  if automerge_allowed repo result then
    match guardrails with
    | _ :: _ =>
        ask (QueueDecision ("CARVE-OUT HELD: PR " +:+ pr_url +:+ " task " +:+ ref +:+
          " touches protected guardrail files (freeze / twin gate / signing / escalation / carve-out). Never auto-merges regardless of grade or CI; review then merge by hand. Files: "
          +:+ named guardrails) [("reviewed", "merge"); ("no", "close")] ("carveout:" +:+ ref) "high")
    | [] =>
        verdict ← _github_checks_verdict polls repo pr_branch;
        match verdict with
        | None => raise BaseException_ "the checks were still polled"
        | Some v =>
            merged ← (if bool_decide (v = "green") then merge_green item repo wt pr_branch pr_url else mret false);
            if merged : bool then mret tt
            else ask (QueueDecision ("auto-merge HELD (" +:+ v +:+ ") for PR " +:+ pr_url +:+ " task " +:+ ref +:+ " -- review then merge/close")
                        review_options ("merge:" +:+ ref) "high")
        end
    end
  else
    ask (QueueDecision ("Merge PR " +:+ pr_url +:+ " for task " +:+ ref +:+ "?" +:+
      match guardrails with
      | [] => ""
      | _ => " TOUCHES PROTECTED GUARDRAILS (self-modification carve-out): " +:+ named guardrails +:+ ". Review these files by hand before merging."
      end) review_options ("merge:" +:+ ref) "high").
Definition worktree_of (item : WorkItem) : prog (build_state W) string :=
  wt ← ask (WorktreeFor (wi_ref item));
  there ← match wt with Some w => if is_empty_str w then mret false else ask (IsDir w) | None => mret false end;
  raise_if (negb there) RuntimeError ("finalize: worktree for " +:+ wi_ref item +:+ " is missing (" +:+ repr_opt wt +:+
    "); it was pruned or the journal lost it. The gate passed but the built diff is not on disk to commit. Retry to rebuild.") ;;
  mret (default "" wt).
(** [EngineeringExecutor.finalize] *)
Definition finalize (polls : nat) (item : WorkItem) (result : GateResult) : prog (build_state W) unit :=
  raise_if (negb (bool_decide (gr_mode result = "gated"))) RuntimeError
    "EngineeringExecutor cannot finalize a non-gated result; non-gated work is finalized by its own executor (toggle spec G1/G2/G4)." ;;
  repo ← lift (resolve_repo config item);
  wt ← worktree_of item;
  (if gr_passed result then
     _record_success item 1 (outcome_or_pass result) ("twin-gated build of " +:+ py_repr (payload_or "title" (JStr (wi_ref item)) item))
       ("the twin gate closed: grade " +:+ score_text result +:+ ", external CI green, diff coverage at or above the repo floor")
       (String.substring 0 180 (strip_promise (gr_notes result))) ;;
     archived ← _archive_attempts item; lift (rounds_max archived) ;; mret tt
   else mret tt) ;;
  let pr_branch := branch_of item in
  _commit_and_push wt pr_branch item ;;
  (if gr_passed result then sha ← _head_sha wt; _settle_economics item sha else mret tt) ;;
  rb ← pr_base_of repo;
  pr_url ← _open_pr rb.1 pr_branch item rb.2;
  offer polls item rb.1 result wt pr_branch pr_url.

(** [escalate]; [sha1_hex] is [hashlib.sha1(...).hexdigest()]. *)
Definition escalate (sha1_hex : string → string) (item : WorkItem) (reason : string) : DecisionItem := {|
  di_qid := String.substring 0 12 (sha1_hex (utf8_encode ("engineering:" +:+ wi_ref item +:+ ":" +:+ reason)));
  di_prompt := "Engineering task " +:+ wi_ref item +:+ " did not converge: " +:+ reason;
  di_options := [("take", "take"); ("defer", "defer")]; di_action_ref := Some (wi_ref item); di_priority := "high" |}.

(** ** [DirectExecutor] *)
Definition direct_run (item : WorkItem) : prog (build_state W) GateResult :=
  claim agent_name item ;;
  repo ← lift (resolve_repo config item);
  repo ← lift (the_repo repo "path");
  wt ← make_worktree item repo;
  ask (SetWorktree (wi_ref item) wt) ;;
  let payload := JObj (wi_payload item) in
  res ← ask (RunTask {| tb_task_id := wi_ref item; tb_worktree := wt; tb_title := payload_or "title" (JStr "") item;
                      tb_description := payload_or "description" (JStr "") item; tb_acceptance := payload_or "acceptance" (JArr []) item;
                      tb_prior_feedback := build_prior_feedback payload; tb_round := 1;
                      tb_prior_success_feedback := build_prior_success_feedback payload; tb_model := JNull |});
  diff ← _diff repo wt;
  let ok := hr_ok res in
  let passed := ok && negb (is_empty_str (strip diff)) in
  (if passed then mret tt
   else _record_attempt item 1 "direct_fail" ("ungated single run of " +:+ py_repr (payload_or "title" (JStr (wi_ref item)) item))
     (if ok then "the harness produced an empty diff" else "the harness run reported not-ok")
     (if ok then "check the acceptance is not already satisfied on the base branch" else "")) ;;
  mret {| gr_result_score := None; gr_passed := passed; gr_notes := "direct mode: UNGATED single run; review required"; gr_artifact := Some wt;
          gr_mode := "direct"; gr_outcome := (if passed then "pass" else "direct_fail"); gr_tokens := hr_tokens res; gr_cost_usd := hr_cost_usd res; gr_mutation_report := None |}.
Definition direct_finalize (item : WorkItem) (result : GateResult) : prog (build_state W) unit :=
  raise_if (bool_decide (gr_mode result = "gated")) RuntimeError
    "DirectExecutor cannot finalize a gated result; gated work is finalized by EngineeringExecutor behind the twin gate." ;;
  repo ← lift (resolve_repo config item);
  wt ← ask (WorktreeFor (wi_ref item));
  let pr_branch := branch_of item in
  wt ← lift (match wt with Some w => Ok w | None => Err (Exn TypeError "expected str, bytes or os.PathLike object, not NoneType") end);
  _commit_and_push wt pr_branch item ;;
  (if gr_passed result then
     sha ← _head_sha wt;
     _settle_economics item sha ;;
     _record_success item 1 (outcome_or_pass result) ("ungated single run of " +:+ py_repr (payload_or "title" (JStr (wi_ref item)) item))
       "an UNGATED direct-mode run produced a reviewable diff; no grade, no twin gate, human review pending" ""
   else mret tt) ;;
  rb ← pr_base_of repo;
  pr_url ← _open_pr rb.1 pr_branch item rb.2;
  ask (QueueDecision ("Merge PR " +:+ pr_url +:+ " for task " +:+ wi_ref item +:+ "? (UNGATED direct-mode work, review before merge)")
    review_options ("merge:" +:+ wi_ref item) "high").
End finalize.
