(* ===== verification/BuildFacts.v ===== *)
(** * What a build may do on its own

    The verdict of a gated build, the evidence behind every automatic merge, the
    executor that never merges, and the end of the poll of the checks. *)
From S2P Require Import Prelude PyDict PyFloat Canonical Json PyText Grading Buckets FailureMemory AutopilotTypes BuildWorld MergeGate GatedBuild CarveOut Finalize.
From Stdlib Require Import Ascii.
Local Open Scope Z_scope.

(** ** The methods of a merge *)
Lemma resolved_method policy m : resolve_protected_merge_method policy = Some m ↔ ∃ p, policy = Some p ∧
  (∀ x, x ∈ mp_repository_allowed p → x ∈ _MERGE_METHODS) ∧ (∀ x, x ∈ mp_branch_allowed p → x ∈ _MERGE_METHODS) ∧
  find_first (λ m, bool_decide (m ∈ mp_repository_allowed p) && bool_decide (m ∈ mp_branch_allowed p)) _MERGE_METHODS = Some m.
Proof.
  unfold resolve_protected_merge_method, all_methods. destruct policy as [p|]; [|by split; [|intros (? & ? & _)]].
  assert (∀ ms, forallb (λ m, bool_decide (m ∈ _MERGE_METHODS)) ms = true ↔ ∀ x, x ∈ ms → x ∈ _MERGE_METHODS) as Hall.
  { intros ms. rewrite forallb_elem_of. split; intros H x Hx; [by apply (bool_decide_eq_true_1 _ (H x Hx))|by apply bool_decide_eq_true_2, H]. }
  destruct (forallb _ (mp_repository_allowed p)) eqn:H1; cbn [negb orb].
  - destruct (forallb _ (mp_branch_allowed p)) eqn:H2; cbn [negb].
    + split; [intros H; exists p; rewrite <- !Hall; auto|]. by intros (? & [= <-] & _ & _ & ?).
    + split; [done|]. intros (? & [= <-] & _ & H & _). apply Hall in H. congruence.
  - split; [done|]. intros (? & [= <-] & H & _). apply Hall in H. congruence.
Qed.

Section facts.
Context {PF : Platform} {FT : FloatText} (config : Config) (agent_name adapter : string) (verify : json → result bool).
Context {W : Type} {WW : World W}.

(** ** Merges *)
Definition is_merge (e : event) : bool :=
  match e with Event c _ => match c with Subprocess ("gh" :: "pr" :: "merge" :: _) => true | _ => false end end.
Definition argv_of (e : event) : list string := match e with Event c _ => match c with Subprocess argv => argv | _ => [] end end.

(** The evidence of a closed gate: one diff, for which the external suite was green, the
    coverage was measured at or above the floor, and a grader who was shown both gave 5
    with a promise. *)
Definition gate_evidence (repo : RepoSpec) (h : list event) : Prop :=
  ∃ branch head wt diff gb g c, Event (CiVerdict branch head wt diff) (Ok "green") ∈ h ∧ Event (DiffCoverage wt diff) (Ok (Some c)) ∈ h ∧
    Event (Grade gb) (Ok g) ∈ h ∧ gb_diff gb = diff ∧ gb_ci_status gb = "green" ∧ gb_diff_coverage gb = Some c ∧
    is_empty_str (strip diff) = false ∧ gr_result_score g = Some 5 ∧ is_complete (gr_notes g) = true ∧ rs_min_diff_coverage repo <= c.
(** A reading of the checks of the pull request was green; the carve-out held none of
    the names that [git diff] printed. *)
Definition checks_evidence (repo : RepoSpec) (branch : string) (h : list event) : Prop :=
  ∃ status out, Event (Subprocess ["gh"; "pr"; "checks"; branch; "--json"; "name,bucket"]) (Ok (status, out)) ∈ h ∧ checks_round repo out = Ok (Some "green").
Definition carve_out_evidence (repo : RepoSpec) (branch : string) (h : list event) : Prop :=
  ∃ file status out, Event ManifestFile (Ok file) ∈ h ∧
    Event (Subprocess ["git"; "-C"; rs_path repo; "diff"; "--name-only"; rs_base_branch repo +:+ "..." +:+ branch]) (Ok (status, out)) ∈ h ∧
    matched_protected_paths verify file (List.filter (λ ln, negb (is_empty_str (strip ln))) (text_lines out)) = Ok [].
(** What gh printed for a request that succeeded. *)
Definition gh_said (argv : list string) (j : json) (h : list event) : Prop :=
  ∃ out, Event (Subprocess argv) (Ok (0, out)) ∈ h ∧ loads (if is_empty_str out then "null" else out) = Loaded j.
(** The method is the preferred one that the flags of the repository and the rules of the
    base branch both allow. *)
Definition method_evidence (repo : RepoSpec) (method : string) (h : list event) : Prop :=
  ∃ flags base rules allowed on_branch, gh_said ["gh"; "api"; "repos/:owner/:repo"] flags h ∧ repository_allowed_from_repo_json flags = Some allowed ∧
    base ∈ [rs_base_branch repo; rs_integration_branch repo] ∧ gh_said ["gh"; "api"; "repos/:owner/:repo/rules/branches/" +:+ base] rules h ∧
    branch_allowed_from_rules_json rules = Some on_branch ∧
    find_first (λ m, bool_decide (m ∈ allowed) && bool_decide (m ∈ on_branch)) _MERGE_METHODS = Some method.
Definition head_evidence (branch head : string) (h : list event) : Prop :=
  is_empty_str head = false ∧ ∃ data, gh_said ["gh"; "pr"; "view"; branch; "--json"; "headRefOid"] (JObj data) h ∧ jget_or_none "headRefOid" data = JStr head.
Definition merge_command (repo : RepoSpec) (branch : string) (h : list event) (argv : list string) : Prop :=
  ∃ method head, method_evidence repo method h ∧ head_evidence branch head h ∧ argv = merge_argv branch method head.
Definition earned (gate : RepoSpec → list event → Prop) (item : WorkItem) (h : list event) (e : event) : Prop :=
  ∃ repo, resolve_repo config item = Ok (Some repo) ∧ rs_name repo ∈ cf_automerge_repos config ∧ rs_automerge repo = true ∧ rs_ci repo ≠ "none" ∧
    gate repo h ∧ carve_out_evidence repo (branch_of item) h ∧ checks_evidence repo (branch_of item) h ∧ merge_command repo (branch_of item) h (argv_of e).
Definition only_earned gate (item : WorkItem) (h : list event) (e : event) : Prop := is_merge e = true → earned gate item h e.
Definition no_merge (h : list event) (e : event) : Prop := is_merge e = false.

Lemma quiet_weaken (ok ok' : list event → event → Prop) {A} (m : prog (build_state W) A) : (∀ h e, ok h e → ok' h e) → quiet ok m → quiet ok' m.
Proof. intros H Hq s. destruct (Hq s) as (new & ? & Hf). exists new. split; [done|]. eapply Forall_impl; [exact Hf|]. intros e He h. by apply H. Qed.
Ltac calls := intros ? ?; reflexivity.
Ltac quiet := repeat quiet_step calls.

Lemma quiet_git dir args : quiet no_merge (@git W _ dir args).
Proof. apply quiet_ask. calls. Qed.
Lemma quiet_stage wt : quiet no_merge (@_stage_work W _ wt).
Proof. unfold _stage_work, git. quiet. Qed.
Lemma quiet_diff repo wt : quiet no_merge (@_diff W _ repo wt).
Proof. unfold _diff. apply quiet_bind; [apply quiet_stage|]. intros _. unfold git. quiet. Qed.
Lemma quiet_commit wt branch item : quiet no_merge (@_commit_and_push PF W _ wt branch item).
Proof. unfold _commit_and_push. apply quiet_bind; [apply quiet_stage|]. intros _. unfold git. quiet. Qed.
Lemma quiet_head wt : quiet no_merge (@_head_sha W _ wt).
Proof. unfold _head_sha, git. quiet. Qed.
Lemma quiet_claim item : quiet no_merge (claim agent_name item).
Proof. unfold claim. quiet. Qed.
Lemma quiet_worktree item repo : quiet no_merge (make_worktree item repo).
Proof. unfold make_worktree, _clear_stale_worktree, git. quiet. Qed.
Lemma quiet_pr_base repo : quiet no_merge (@_pr_base W _ repo).
Proof. unfold _pr_base. quiet. Qed.
Lemma quiet_salvage item repo wt branch : quiet no_merge (_salvage_to_review item repo wt branch).
Proof.
  unfold _salvage_to_review. apply quiet_bind; [apply quiet_commit|]. intros _. apply quiet_bind; [apply quiet_pr_base|]. intros base. unfold _open_pr. quiet.
Qed.
Lemma quiet_take ref : quiet no_merge (@_take_usage W ref).
Proof. unfold _take_usage, _peek_usage. quiet. Qed.
Lemma quiet_settle item sha : quiet no_merge (_settle_economics item sha).
Proof. unfold _settle_economics, _take_usage, _peek_usage. quiet. Qed.
Lemma quiet_not_converged p g : quiet no_merge (not_converged p g).
Proof. unfold not_converged, _record_attempt. quiet. all: try apply quiet_take. Qed.

(** ** The verdict of a gated build *)
(** What a build that returns has established. *)
Definition verdict_of (repo : RepoSpec) (r : GateResult) (h : list event) : Prop :=
  gr_mode r = "gated" ∧ (gr_passed r = true ↔ gr_outcome r = "pass") ∧ gr_outcome r ∈ ["pass"; "ci_red"; "no_op"; "salvage"] ∧
  (gr_passed r = true → gr_result_score r = Some 5 ∧ gate_evidence repo h).
Lemma monotone_true : monotone (λ _, True).
Proof. done. Qed.
Lemma monotone_and K K' : monotone K → monotone K' → monotone (λ h, K h ∧ K' h).
Proof. intros H H' h new [? ?]. auto. Qed.
Lemma monotone_in e : monotone (λ h, e ∈ h).
Proof. intros h new H. apply elem_of_app. by left. Qed.
Lemma monotone_const (P : Prop) : monotone (λ _, P).
Proof. by intros h new. Qed.
#[local] Hint Resolve monotone_true monotone_and monotone_in monotone_const : core.
Lemma monotone_gate repo : monotone (gate_evidence repo).
Proof.
  intros h new (b & hd & wt & d & gb & g & c & H1 & H2 & H3 & H). exists b, hd, wt, d, gb, g, c.
  split; [apply elem_of_app; by left|]. split; [apply elem_of_app; by left|]. split; [apply elem_of_app; by left|done].
Qed.
(** A failed verdict needs no evidence. *)
Lemma failed_verdict repo score notes artifact outcome u shadow h : outcome ∈ ["ci_red"; "no_op"; "salvage"] →
  verdict_of repo (gate_result score false notes artifact outcome u shadow) h.
Proof.
  intros Ho%list_elem_of_In. cbn in Ho. split; [done|]. cbn [gr_passed gr_outcome gate_result].
  destruct_or! Ho; subst outcome; try done; (split; [done|]; split; [apply list_elem_of_In; cbn; auto 6|done]).
Qed.
Lemma twin_gate_ok gr ci cov repo : twin_gate_passed gr ci cov repo = true →
  gr_result_score gr = Some 5 ∧ is_complete (gr_notes gr) = true ∧ ci = "green" ∧ ∃ c, cov = Some c ∧ rs_min_diff_coverage repo <= c.
Proof.
  unfold twin_gate_passed, cov_floor. rewrite !andb_true_iff, !bool_decide_eq_true. intros (((? & ?) & ?) & Hfl). do 3 (split; [done|]).
  destruct cov as [c|]; [|done]. exists c. split; [done|]. by apply Z.leb_le.
Qed.
Lemma judge_round_verdict ok p round diff : (∀ h e, no_merge h e → ok h e) → is_empty_str (strip diff) = false →
  leaves ok (λ _, True) (judge_round p round diff : prog (build_state W) judged)
    (λ j h, match j with Ended r => verdict_of (bp_repo p) r h | Carried _ => True end).
Proof.
  intros Hok Hd. unfold judge_round. cbv zeta.
  assert (∀ A (c : call A), (∀ r, is_merge (Event c r) = false) → ∀ r, harmless ok (Event c r)) as Hc by (intros A c H r h; by apply Hok, H).
  eapply leaves_bind; [apply quiet_leaves; [eapply quiet_weaken; [exact Hok|apply quiet_head]|done]|]. intros head.
  eapply leaves_bind; [apply leaves_answer; [apply Hc; by intros|apply monotone_true]|]. intros ci.
  eapply leaves_bind; [apply leaves_answer; [apply Hc; by intros|auto]|]. intros cov.
  eapply leaves_bind; [apply leaves_answer; [apply Hc; by intros|auto]|]. intros gr.
  eapply leaves_bind; [apply quiet_leaves; [apply quiet_ask, Hc; by intros|auto]|]. intros ?.
  eapply leaves_bind; [apply quiet_leaves; [|auto]|]. { destruct (_ || _); [apply quiet_best_effort, quiet_ask, Hc; by intros|apply quiet_ret]. } intros shadow.
  destruct (twin_gate_passed gr ci cov (bp_repo p)) eqn:Hgate.
  - eapply leaves_bind; [apply quiet_leaves; [apply quiet_gets|auto]|]. intros u.
    eapply leaves_bind; [apply quiet_leaves; [apply quiet_ask, Hc; by intros|auto]|]. intros ?. apply leaves_ret.
    intros h (((_ & Hci) & Hcov) & Hgr). apply twin_gate_ok in Hgate as (Hs & Hp & -> & c & -> & Hfl).
    split; [done|]. split; [done|]. split; [by left|]. intros _. split; [done|]. eexists _, _, _, diff, _, gr, c. repeat (split; [eassumption || reflexivity|]). done.
  - destruct (salvages false _ diff (bp_repo p)).
    + eapply leaves_bind; [apply quiet_leaves; [eapply quiet_weaken; [exact Hok|apply quiet_salvage]|auto]|]. intros url.
      eapply leaves_bind; [apply quiet_leaves; [eapply quiet_weaken; [exact Hok|apply quiet_take]|auto]|]. intros u.
      eapply leaves_bind; [apply quiet_leaves; [apply quiet_ask, Hc; by intros|auto]|]. intros ?. apply leaves_ret. intros h _. apply failed_verdict. set_solver.
    + by apply leaves_ret.
Qed.
Lemma rounds_verdict ok p rounds round feedback last empty_rounds : (∀ h e, no_merge h e → ok h e) →
  leaves ok (λ _, True) (rounds_from adapter p rounds round feedback last empty_rounds : prog (build_state W) GateResult) (verdict_of (bp_repo p)).
Proof.
  intros Hok. assert (∀ A (c : call A), (∀ r, is_merge (Event c r) = false) → ∀ r, harmless ok (Event c r)) as Hc by (intros A c H r h; by apply Hok, H).
  revert round feedback last empty_rounds. induction rounds as [|rounds IH]; intros round feedback last empty_rounds; cbn [rounds_from].
  - unfold not_converged. cbv zeta. eapply leaves_bind; [apply quiet_leaves; [apply quiet_best_effort, quiet_ask, Hc; by intros|done]|]. intros ?.
    eapply leaves_bind; [apply quiet_leaves; [eapply quiet_weaken; [exact Hok|apply quiet_take]|done]|]. intros u.
    eapply leaves_bind; [apply quiet_leaves; [destruct last; [apply quiet_ask, Hc; by intros|apply quiet_ret]|done]|]. intros ?.
    apply leaves_ret. intros h _. apply failed_verdict. set_solver.
  - cbv zeta. eapply leaves_bind; [apply quiet_leaves; [apply quiet_ask, Hc; by intros|done]|]. intros used.
    eapply leaves_bind; [apply quiet_leaves; [apply quiet_set_usage|done]|]. intros ?.
    eapply leaves_bind; [apply quiet_leaves; [eapply quiet_weaken; [exact Hok|apply quiet_diff]|done]|]. intros diff.
    destruct (is_empty_str (strip diff)) eqn:Hd.
    + destruct (2 <=? empty_rounds + 1); [|apply IH].
      eapply leaves_bind; [apply quiet_leaves; [apply quiet_best_effort, quiet_ask, Hc; by intros|done]|]. intros ?.
      eapply leaves_bind; [apply quiet_leaves; [eapply quiet_weaken; [exact Hok|apply quiet_take]|done]|]. intros u.
      apply leaves_ret. intros h _. apply failed_verdict. set_solver.
    + eapply leaves_bind; [by apply judge_round_verdict|]. intros [r|g]; [by apply leaves_ret|].
      eapply leaves_weaken; [apply IH|done|done].
Qed.
Lemma run_verdict ok item : (∀ h e, no_merge h e → ok h e) →
  leaves ok (λ _, True) (run config agent_name adapter item : prog (build_state W) GateResult)
    (λ r h, ∃ repo, resolve_repo config item = Ok (Some repo) ∧ verdict_of repo r h).
Proof.
  intros Hok. unfold run. cbv zeta.
  eapply leaves_bind; [apply quiet_leaves; [eapply quiet_weaken; [exact Hok|apply quiet_claim]|done]|]. intros ?.
  eapply leaves_bind; [apply (leaves_lift ok (λ _, True) _ (λ o _, resolve_repo config item = Ok o)); auto|]. intros o.
  eapply leaves_bind; [apply (leaves_lift ok _ _ (λ r _, resolve_repo config item = Ok (Some r)))|].
  { intros r h Hr Ho. destruct o; cbn in Hr; [by injection Hr as <-|done]. } intros repo.
  eapply leaves_bind; [apply quiet_leaves; [eapply quiet_weaken; [exact Hok|apply quiet_worktree]|done]|]. intros wt.
  eapply leaves_bind; [apply quiet_leaves; [apply quiet_ask; intros ? ?; by apply Hok|done]|]. intros ?.
  eapply leaves_bind; [apply quiet_leaves; [apply quiet_lift|done]|]. intros m1.
  eapply leaves_bind; [apply quiet_leaves; [apply quiet_lift|done]|]. intros m2.
  eapply leaves_bind; [apply quiet_leaves; [apply quiet_lift|done]|]. intros m3.
  intros s Hs. destruct (rounds_verdict ok {| bp_item := item; bp_repo := repo; bp_worktree := wt;
    bp_success_feedback := build_prior_success_feedback (JObj (wi_payload item)); bp_model := m3 |} _MAX_ROUNDS 1
    (build_prior_feedback (JObj (wi_payload item))) None 0 Hok s I) as (new & ? & ? & H). exists new. split; [done|]. split; [done|]. intros r Hr. exists repo. auto.
Qed.

(** ** What precedes a merge *)
Lemma quiet_gh_json argv : (∀ r, is_merge (Event (Subprocess argv) r) = false) → quiet no_merge (@_gh_json PF FT W _ argv).
Proof. intros H. unfold _gh_json. apply quiet_try; [apply quiet_ask; intros r h; apply H|]. intros r. repeat case_match; quiet. Qed.
Lemma quiet_policy repo : quiet no_merge (@_protected_merge_policy PF FT W _ repo).
Proof.
  unfold _protected_merge_policy. apply quiet_bind; [apply quiet_gh_json; by intros|]. intros j. destruct (repository_allowed_from_repo_json j); [|apply quiet_ret].
  apply quiet_bind; [apply quiet_pr_base|]. intros base. apply quiet_bind; [apply quiet_gh_json; by intros|]. intros rules. apply quiet_ret.
Qed.
Lemma quiet_pr_head branch : quiet no_merge (@_pr_head_sha PF FT W _ branch).
Proof. unfold _pr_head_sha. apply quiet_bind; [apply quiet_gh_json; by intros|]. intros j. apply quiet_ret. Qed.
Section merge.
Context (ok : list event → event → Prop) (Hok : ∀ h e, no_merge h e → ok h e).
Lemma harmless_call {A} (c : call A) : (∀ r, is_merge (Event c r) = false) → ∀ r, harmless ok (Event c r).
Proof. intros H r h. by apply Hok, H. Qed.
Lemma quiet_ok {A} (m : prog (build_state W) A) : quiet no_merge m → quiet ok m.
Proof. by apply quiet_weaken. Qed.
Lemma monotone_said argv j : monotone (gh_said argv j).
Proof. intros h new (out & ? & ?). exists out. split; [apply elem_of_app; by left|done]. Qed.
Lemma gh_json_leaves K argv : (∀ r, is_merge (Event (Subprocess argv) r) = false) → monotone K →
  leaves ok K (_gh_json argv) (λ j h, K h ∧ (j ≠ JNull → gh_said argv j h)).
Proof.
  intros Hm HK s Hs. destruct (leaves_answer ok K (Subprocess argv) (harmless_call _ Hm) HK s Hs) as (new & Ht & Ha & Hr).
  exists new. unfold _gh_json, try_. destruct (ask (Subprocess argv) s) as [s' [[status out]|e]]; cbn [fst snd] in *.
  - destruct (Hr _ eq_refl) as [Hk He]. destruct (Z.eqb_spec status 0) as [->|]; cbn [negb]; [|split; [done|]; split; [done|]; by intros j [= <-]].
    destruct (loads _) as [j| |] eqn:Hl; (split; [done|]); (split; [done|]); [|by intros j [= <-]|done]. intros j' [= <-]. split; [done|]. intros _. by exists out.
  - split; [by destruct (_ || _)|]. split; [done|]. destruct (_ || _); cbn; [|done]. intros j [= <-]. split; [by apply HK|done].
Qed.
Lemma policy_leaves K repo : monotone K →
  leaves ok K (_protected_merge_policy repo) (λ p h, K h ∧ ∀ method, resolve_protected_merge_method p = Some method → method_evidence repo method h).
Proof.
  intros HK. unfold _protected_merge_policy. eapply leaves_bind; [by apply gh_json_leaves|]. intros flags.
  destruct (repository_allowed_from_repo_json flags) as [allowed|] eqn:Hflags; [|by apply leaves_ret; intros h [? _]].
  set (K1 := λ h, K h ∧ gh_said ["gh"; "api"; "repos/:owner/:repo"] flags h).
  assert (monotone K1) as HK1 by (apply monotone_and; [done|apply monotone_said]).
  apply leaves_weaken with (K := K1) (Q := λ p h, K h ∧ ∀ method, resolve_protected_merge_method p = Some method → method_evidence repo method h);
    [|intros h [? H]; split; [done|]; apply H; by destruct flags|done].
  eapply leaves_bind with (R := λ base h, K1 h ∧ base ∈ [rs_base_branch repo; rs_integration_branch repo]).
  { unfold _pr_base. eapply leaves_bind; [apply quiet_leaves; [apply quiet_ask; by apply harmless_call|done]|]. intros out. apply leaves_ret. intros h Hh. split; [done|].
    destruct (is_empty_str _); [by left|by right; left]. }
  intros base. eapply leaves_bind; [apply gh_json_leaves; [by intros|by apply monotone_and]|]. intros rules. apply leaves_ret.
  intros h [[[Hk Hf] Hb] Hr]. split; [done|]. intros method Hm. destruct (branch_allowed_from_rules_json rules) as [on_branch|] eqn:Hrules; [|done].
  apply resolved_method in Hm as (p & [= <-] & _ & _ & Hm). exists flags, base, rules, allowed, on_branch.
  do 3 (split; [done|]). split; [apply Hr; by destruct rules|]. done.
Qed.
Lemma head_leaves K branch : monotone K → leaves ok K (_pr_head_sha branch) (λ head h, K h ∧ (is_empty_str head = false → head_evidence branch head h)).
Proof.
  intros HK. unfold _pr_head_sha. eapply leaves_bind; [by apply gh_json_leaves|]. intros data. apply leaves_ret. intros h [? Hd]. split; [done|]. intros He.
  destruct data as [| | | | | |ms]; try done. split; [done|]. exists ms. split; [by apply Hd|]. by destruct (jget_or_none "headRefOid" ms).
Qed.
Lemma monotone_method repo method : monotone (method_evidence repo method).
Proof.
  intros h new (f & b & r & al & ob & H1 & H2 & H3 & H4 & H5). exists f, b, r, al, ob. split; [by apply monotone_said|]. do 2 (split; [done|]).
  split; [by apply monotone_said|done].
Qed.
(** The one call that merges. *)
Lemma gh_merge_leaves K repo branch : monotone K →
  (∀ h r method head, K h → method_evidence repo method h → head_evidence branch head h → ok h (Event (Subprocess (merge_argv branch method head)) r)) →
  leaves ok K (_gh_merge repo branch) (λ _, K).
Proof.
  intros HK Hm. unfold _gh_merge. eapply leaves_bind; [by apply policy_leaves|]. intros policy.
  destruct (resolve_protected_merge_method policy) as [method|] eqn:Hp; [|by apply leaves_ret; intros h [? _]].
  apply leaves_weaken with (K := λ h, K h ∧ method_evidence repo method h) (Q := λ _ : bool, K); [|intros h [? H]; split; [done|by apply H]|done].
  eapply leaves_bind; [apply head_leaves, monotone_and; [done|apply monotone_method]|]. intros head.
  destruct (is_empty_str head) eqn:He; [by apply leaves_ret; intros h [[? _] _]|].
  eapply leaves_bind; [apply (leaves_ask ok _ _ (λ _, K))|].
  - intros h r [[Hk Hme] Hh]. by apply Hm; [| |apply Hh].
  - intros h a [[Hk _] _]. by apply HK.
  - intros out. by apply leaves_ret.
Qed.
Lemma poll_checks_leaves K polls repo branch deadline : monotone K →
  leaves ok K (poll_checks polls repo branch deadline) (λ v h, K h ∧ (v = Some "green" → checks_evidence repo branch h)).
Proof.
  intros HK. induction polls as [|polls IH]; cbn [poll_checks]; [by apply leaves_ret|].
  eapply leaves_bind; [apply leaves_answer; [by apply harmless_call|done]|]. intros [status out].
  eapply leaves_bind; [apply (leaves_lift ok _ _ (λ v h, (K h ∧ Event (Subprocess ["gh"; "pr"; "checks"; branch; "--json"; "name,bucket"]) (Ok (status, out)) ∈ h) ∧
    checks_round repo out = Ok v)); auto|]. intros [v|].
  - apply leaves_ret. intros h [[? ?] Hv]. split; [done|]. intros [= ->]. by exists status, out.
  - eapply leaves_bind; [apply quiet_leaves; [apply quiet_ask; by apply harmless_call|auto]|]. intros now.
    destruct (deadline <=? now); [apply leaves_ret; by intros h [[? ?] _]|].
    eapply leaves_bind; [apply quiet_leaves; [apply quiet_ask; by apply harmless_call|auto]|]. intros ?.
    eapply leaves_weaken; [apply IH|by intros h [[? ?] _]|done].
Qed.
Lemma merge_green_leaves K item repo wt branch url : monotone K →
  (∀ h r method head, K h → method_evidence repo method h → head_evidence branch head h → ok h (Event (Subprocess (merge_argv branch method head)) r)) →
  leaves ok K (merge_green agent_name item repo wt branch url) (λ _, K).
Proof.
  intros HK Hm. unfold merge_green. eapply leaves_bind; [apply quiet_leaves; [apply quiet_ok; unfold prune_worktree, git; quiet|done]|]. intros ?.
  eapply leaves_bind; [by apply gh_merge_leaves|]. intros [|]; [|by apply leaves_ret].
  eapply leaves_bind; [apply quiet_leaves; [|done]|].
  { apply quiet_ok. unfold _merge_commit_sha. apply quiet_try; [apply quiet_ask; calls|]. intros r. repeat case_match; quiet. }
  intros sha. eapply leaves_bind; [apply quiet_leaves; [apply quiet_ask; by apply harmless_call|done]|]. intros ?.
  eapply leaves_bind; [apply quiet_leaves; [apply quiet_ask; by apply harmless_call|done]|]. intros ?. by apply leaves_ret.
Qed.
End merge.

Lemma monotone_carve repo branch : monotone (carve_out_evidence repo branch).
Proof. intros h new (f & st & out & ? & ? & ?). exists f, st, out. split; [apply elem_of_app; by left|]. split; [apply elem_of_app; by left|done]. Qed.
Lemma monotone_checks repo branch : monotone (checks_evidence repo branch).
Proof. intros h new (st & out & ? & ?). exists st, out. split; [apply elem_of_app; by left|done]. Qed.
#[local] Hint Resolve monotone_carve monotone_checks monotone_gate : core.

Section earned.
Context (gate : RepoSpec → list event → Prop) (Hgate : ∀ repo, monotone (gate repo)) (item : WorkItem).
Lemma only_earned_calls h e : no_merge h e → only_earned gate item h e.
Proof. intros H Hm. unfold no_merge in H. congruence. Qed.
Lemma offer_earned polls repo result wt url : resolve_repo config item = Ok (Some repo) →
  leaves (only_earned gate item) (λ h, gr_passed result = true → gate repo h)
    (offer config agent_name verify polls item repo result wt (branch_of item) url) (λ _ _, True).
Proof.
  intros Hrepo. set (K := λ h, gr_passed result = true → gate repo h).
  assert (monotone K) as HK by (intros h new Hh Hp; by apply Hgate, Hh).
  unfold offer. cbv zeta. pose proof (only_earned_calls) as Hok.
  eapply leaves_bind with (R := λ paths h, K h ∧ ∃ status out,
      paths = List.filter (λ ln, negb (is_empty_str (strip ln))) (text_lines out) ∧
      Event (Subprocess ["git"; "-C"; rs_path repo; "diff"; "--name-only"; rs_base_branch repo +:+ "..." +:+ branch_of item]) (Ok (status, out)) ∈ h).
  { unfold _changed_paths, git. eapply leaves_bind; [apply leaves_answer; [by apply harmless_call|done]|]. intros [status out].
    apply leaves_ret. intros h [? ?]. split; [done|]. by exists status, out. }
  intros paths. eapply leaves_bind; [apply leaves_answer; [by apply harmless_call|]|].
  { intros h new [? (st & out & ? & ?)]. split; [by apply HK|]. exists st, out. split; [done|]. apply elem_of_app. by left. }
  intros file. eapply leaves_bind; [apply (leaves_lift _ _ _ (λ guardrails h, K h ∧ (guardrails = [] → carve_out_evidence repo (branch_of item) h)))|].
  { intros g h Hg [[? (status & out & -> & Hout)] Hf]. split; [done|]. intros ->. by exists file, status, out. }
  intros guardrails. destruct (automerge_allowed config repo result) eqn:Hauto.
  2:{ eapply leaves_weaken; [apply quiet_leaves; [apply quiet_ask; by apply harmless_call|apply monotone_true]|done|done]. }
  destruct guardrails as [|g gs].
  2:{ eapply leaves_weaken; [apply quiet_leaves; [apply quiet_ask; by apply harmless_call|apply monotone_true]|done|done]. }
  set (K' := λ h, K h ∧ carve_out_evidence repo (branch_of item) h). assert (monotone K') as HK' by (apply monotone_and; auto).
  eapply leaves_weaken with (K := K') (Q := λ _ _, True); [|by intros h [? ?]; split; auto|done].
  eapply leaves_bind with (R := λ v h, K' h ∧ (v = Some "green" → checks_evidence repo (branch_of item) h)).
  { unfold _github_checks_verdict. eapply leaves_bind; [apply quiet_leaves; [apply quiet_ask; by apply harmless_call|done]|]. intros start. by apply poll_checks_leaves. }
  intros [v|]; [|apply leaves_raise].
  eapply leaves_bind with (R := λ _ _, True).
  - destruct (bool_decide (v = "green")) eqn:Hv; [|by apply leaves_ret]. apply bool_decide_eq_true in Hv as ->.
    eapply leaves_weaken; [apply (merge_green_leaves _ Hok (λ h, K' h ∧ checks_evidence repo (branch_of item) h)); [apply monotone_and; auto|]|by intros h [? H]; split; auto|done].
    intros h r method head [[Hk Hcv] Hch] Hpol Hhead _. unfold automerge_allowed in Hauto. rewrite !andb_true_iff, negb_true_iff, bool_decide_eq_true, bool_decide_eq_false in Hauto.
    destruct Hauto as (((Hin & Hci) & Hp) & Ham). exists repo. do 4 (split; [done|]). split; [by apply Hk|]. do 2 (split; [done|]). by exists method, head.
  - intros merged. destruct merged; [by apply leaves_ret|]. eapply leaves_weaken; [apply quiet_leaves; [apply quiet_ask; by apply harmless_call|apply monotone_true]|done|done].
Qed.
(** What [finalize] issues before the pull request merges nothing. *)
Lemma quiet_before_offer result wt (repo : option RepoSpec) :
  quiet no_merge (@worktree_of W _ item) ∧ quiet no_merge (@_commit_and_push PF W _ wt (branch_of item) item) ∧
  quiet no_merge (@pr_base_of W _ repo) ∧
  quiet no_merge ((if gr_passed result then sha ← @_head_sha W _ wt; _settle_economics item sha else mret tt)) ∧
  (∀ base r, quiet no_merge (@_open_pr PF W _ r (branch_of item) item base)) ∧
  (∀ round outcome tried why hint, quiet no_merge (@_record_success W _ item round outcome tried why hint)) ∧
  quiet no_merge (@_archive_attempts W _ item).
Proof.
  split; [unfold worktree_of; quiet|]. split; [apply quiet_commit|]. split.
  { unfold pr_base_of. quiet. all: apply quiet_pr_base. }
  split. { destruct (gr_passed result); quiet. all: apply quiet_head || apply quiet_settle. }
  split; [intros; unfold _open_pr; quiet|]. split; [intros; unfold _record_success; quiet|]. unfold _archive_attempts. quiet.
Qed.
Lemma finalize_earned polls result :
  leaves (only_earned gate item) (λ h, ∀ repo, resolve_repo config item = Ok (Some repo) → gr_passed result = true → gate repo h)
    (finalize config agent_name verify polls item result : prog (build_state W) unit) (λ _ _, True).
Proof.
  set (K := λ h, ∀ repo, resolve_repo config item = Ok (Some repo) → gr_passed result = true → gate repo h).
  assert (monotone K) as HK by (intros h new Hh repo Hr Hp; by apply Hgate, Hh).
  assert (∀ A (m : prog (build_state W) A), quiet no_merge m → leaves (only_earned gate item) K m (λ _, K)) as Hq
    by (intros A m Hm; apply quiet_leaves; [|done]; eapply quiet_weaken; [exact only_earned_calls|exact Hm]).
  unfold finalize. cbv zeta. eapply leaves_bind; [apply Hq; quiet|]. intros ?.
  eapply leaves_bind; [apply (leaves_lift _ _ _ (λ o h, K h ∧ resolve_repo config item = Ok o)); auto|]. intros o.
  set (K' := λ h, K h ∧ resolve_repo config item = Ok o). assert (monotone K') as HK' by (apply monotone_and; auto).
  assert (∀ A (m : prog (build_state W) A), quiet no_merge m → leaves (only_earned gate item) K' m (λ _, K')) as Hq'
    by (intros A m Hm; apply quiet_leaves; [|done]; eapply quiet_weaken; [exact only_earned_calls|exact Hm]).
  eapply leaves_bind; [apply Hq', (quiet_before_offer result "" o)|]. intros wt.
  destruct (quiet_before_offer result wt o) as (_ & Hcommit & _ & Hsettle & Hopen & Hsuccess & Harchive).
  eapply leaves_bind; [apply Hq'; destruct (gr_passed result); [|apply quiet_ret]; apply quiet_bind; [apply Hsuccess|]; intros ?; apply quiet_bind; [done|]; intros ?; apply quiet_bind; [apply quiet_lift|]; intros ?; apply quiet_ret|]. intros ?.
  eapply leaves_bind; [by apply Hq'|]. intros ?. eapply leaves_bind; [by apply Hq'|]. intros ?.
  eapply leaves_bind with (R := λ rb h, K' h ∧ o = Some rb.1).
  { unfold pr_base_of. eapply leaves_bind; [apply (leaves_lift _ _ _ (λ r h, K' h ∧ o = Some r))|].
    { intros r h Hr Hh. split; [done|]. destruct o; cbn in Hr; [by injection Hr as ->|done]. }
    intros r. eapply leaves_bind; [apply quiet_leaves; [eapply quiet_weaken; [exact only_earned_calls|apply quiet_pr_base]|by apply monotone_and]|]. intros base. by apply leaves_ret. }
  intros [r base]. cbn [fst snd].
  eapply leaves_bind; [apply quiet_leaves; [eapply quiet_weaken; [exact only_earned_calls|apply Hopen]|by apply monotone_and]|]. intros url.
  intros s [[Hk Hres] Ho]. subst o. apply (offer_earned polls r result wt url Hres). auto.
Qed.
End earned.

Lemma evidence_of_verdict repo r h : verdict_of repo r h → gr_passed r = true → gate_evidence repo h.
Proof. intros (_ & _ & _ & H) Hp. by apply H. Qed.

(** ** The two executors, and the orchestrator's use of one *)
(** What [phase2_swarm] does with an item: it runs the build, and finalizes a build that
    passed. *)
Definition run_and_finalize (polls : nat) (item : WorkItem) : prog (build_state W) unit :=
  result ← run config agent_name adapter item;
  if gr_passed result then finalize config agent_name verify polls item result else mret tt.
Definition fresh (w : W) : build_state W := Build_build_state w [] ∅.

(** C17: A pull request is merged automatically only when everything the policy asks for
    was established before, in this very build: whatever git, gh, the model, the test
    suite and the board answer, each [gh pr merge] that a build and its finalizing issue
    follows a round whose diff the external suite called green, whose coverage was measured
    at or above the floor of the repository, and to which a grader who was shown that very
    diff with those measurements gave 5 with a promise; the repository is on the allow-list
    of automatic merges, asks for them and has a suite; the carve-out, evaluated on the
    file names that [git diff] printed, held none of them; a reading of its checks was green; and the command names
    the preferred method that the flags of the repository and the rules of the base branch,
    as gh printed them, both allow, and binds the merge to the head that gh printed. *)
Theorem merge_is_earned polls item w pre e post :
  bs_trace (run_and_finalize polls item (fresh w)).1 = pre ++ e :: post → is_merge e = true → earned gate_evidence item pre e.
Proof.
  intros Ht He. pose proof (only_earned_calls gate_evidence item) as Hok.
  assert (leaves (only_earned gate_evidence item) (λ _, True) (run_and_finalize polls item : prog (build_state W) unit) (λ _ _, True)) as Hl.
  { unfold run_and_finalize. eapply leaves_bind; [by apply run_verdict|]. intros r. destruct (gr_passed r) eqn:Hp; [|by apply leaves_ret].
    eapply leaves_weaken; [by apply (finalize_earned gate_evidence monotone_gate)| |done].
    intros h (repo & Hres & Hv) repo' Hres' _. assert (repo' = repo) as -> by congruence. by eapply evidence_of_verdict. }
  destruct (Hl (fresh w) I) as (new & Heq & Ha & _). rewrite Ht in Heq. cbn in Heq. subst new. by apply (Ha pre e post).
Qed.

(** C18: What a gated build returns is its verdict and no more: a result marked gated
    whose outcome is one of pass, ci_red, no_op and salvage, passed exactly when the
    outcome is pass; and it is passed only with the score 5 and with the evidence of the
    closed gate on record: a diff that is not empty, the green verdict of the external
    suite on that diff, a measured coverage at or above the floor, and a grader who saw
    all of them and promised completion.  A build that raises returns nothing. *)
Theorem verdict_is_earned item w r : (run config agent_name adapter item (fresh w)).2 = Ok r →
  ∃ repo, resolve_repo config item = Ok (Some repo) ∧ verdict_of repo r (bs_trace (run config agent_name adapter item (fresh w)).1).
Proof.
  intros Hr. destruct (run_verdict no_merge item (λ _ _ H, H) (fresh w) I) as (new & Heq & _ & H). cbn in Heq. rewrite Heq. by apply H.
Qed.

(** The direct executor never merges: whatever the world answers, neither its run
    nor its finalizing issues a [gh pr merge], and a gated build issues none before it is
    finalized; what they leave in the trace is all they asked for. *)
Theorem direct_never_merges polls item result s :
  (∃ new, bs_trace (direct_run config agent_name item s).1 = bs_trace s ++ new ∧ Forall (λ e, is_merge e = false) new) ∧
  (∃ new, bs_trace (direct_finalize config item result s).1 = bs_trace s ++ new ∧ Forall (λ e, is_merge e = false) new) ∧
  (gr_mode result ≠ "gated" → (finalize config agent_name verify polls item result s).1 = s).
Proof.
  assert (∀ A (m : prog (build_state W) A), quiet no_merge m → ∃ new, bs_trace (m s).1 = bs_trace s ++ new ∧ Forall (λ e, is_merge e = false) new) as H.
  { intros A m Hm. destruct (Hm s) as (new & ? & Hf). exists new. split; [done|]. eapply Forall_impl; [exact Hf|]. intros e He. apply (He []). }
  destruct (quiet_before_offer item result "" None) as (_ & _ & _ & _ & Hopen & Hsuccess & _).
  split; [|split].
  - apply H. unfold direct_run. apply quiet_bind; [apply quiet_claim|]. intros ?. apply quiet_bind; [apply quiet_lift|]. intros ?.
    apply quiet_bind; [apply quiet_lift|]. intros repo. apply quiet_bind; [apply quiet_worktree|]. intros wt. cbv zeta.
    apply quiet_bind; [apply quiet_ask; calls|]. intros ?. apply quiet_bind; [apply quiet_ask; calls|]. intros res.
    apply quiet_bind; [apply quiet_diff|]. intros diff. unfold _record_attempt. quiet.
  - apply H. unfold direct_finalize. apply quiet_bind; [apply quiet_raise_if|]. intros ?. apply quiet_bind; [apply quiet_lift|]. intros repo.
    apply quiet_bind; [apply quiet_ask; calls|]. intros ?. cbv zeta. apply quiet_bind; [apply quiet_lift|]. intros wt.
    apply quiet_bind; [apply quiet_commit|]. intros ?. apply quiet_bind.
    { destruct (gr_passed result); [|apply quiet_ret]. apply quiet_bind; [apply quiet_head|]. intros sha. apply quiet_bind; [apply quiet_settle|]. intros ?. apply Hsuccess. }
    intros ?. apply quiet_bind; [apply (quiet_before_offer item result "" repo)|]. intros rb. apply quiet_bind; [apply Hopen|]. intros url. quiet.
  - intros Hg. unfold finalize. rewrite bool_decide_eq_false_2 by done. reflexivity.
Qed.
End facts.

(** ** The poll ends *)
(** A clock that no call turns back, that a sleep advances by what it slept, and that
    [time.monotonic] reads. *)
Record lawful_clock (W : Type) (WW : World W) (clock : W → Z) : Prop := {
  clock_forward : ∀ A (c : call A) w, clock w <= clock (answer c w).1;
  clock_reads : ∀ w, (answer Monotonic w).2 = Ok (clock (answer Monotonic w).1);
  clock_sleeps : ∀ w secs, clock w + nanoseconds secs <= clock (answer (Sleep secs) w).1 }.
Section clock.
Context {PF : Platform} {FT : FloatText} {W : Type} {WW : World W} (clock : W → Z) (Hclock : lawful_clock W WW clock).
Lemma ask_forward {A} (c : call A) (s : build_state W) : clock (bs_world s) <= clock (bs_world (ask c s).1).
Proof. unfold ask. pose proof (clock_forward _ _ _ Hclock A c (bs_world s)) as H. by destruct (answer c (bs_world s)). Qed.
Lemma poll_decides polls repo branch deadline (s : build_state W) :
  deadline <= clock (bs_world s) + Z.of_nat polls * nanoseconds 20 →
  (poll_checks (S polls) repo branch deadline s).2 ≠ Ok None.
Proof.
  revert s. induction polls as [|polls IH]; intros s Hs; cbn [poll_checks]; rewrite prog_bind_eq.
  all: pose proof (ask_forward (Subprocess ["gh"; "pr"; "checks"; branch; "--json"; "name,bucket"]) s) as H1.
  all: destruct (ask (Subprocess _) s) as [s1 [out|e]]; [|done]; cbn [fst] in H1; rewrite prog_bind_eq.
  all: unfold lift; destruct (checks_round repo out.2) as [[v|]|e]; cbn [fst snd]; [done| |done]; rewrite prog_bind_eq.
  all: pose proof (ask_forward Monotonic s1) as H2; pose proof (clock_reads _ _ _ Hclock (bs_world s1)) as Hr.
  all: unfold ask at 1; unfold ask in H2; destruct (answer Monotonic (bs_world s1)) as [w2 r2]; cbn [fst snd bs_world] in *; subst r2; cbn [fst snd].
  all: destruct (Z.leb_spec deadline (clock w2)) as [?|Hlt]; [done|].
  - lia.
  - rewrite prog_bind_eq. unfold ask at 1. pose proof (clock_sleeps _ _ _ Hclock w2 20) as H3. cbn [bs_world].
    destruct (answer (Sleep 20) w2) as [w3 [[]|e]]; [|done]. cbn [fst snd] in *. apply IH. cbn [bs_world]. unfold nanoseconds in *. lia.
Qed.

(** C25: The wait for the checks of a pull request ends: on a clock that is never turned
    back, 76 readings of the checks, twenty seconds apart, decide within the timeout of
    1500 seconds; so with that many the verdict is one of green, red, blocked and timeout,
    or the wait raises, and it is never still polling. *)
Theorem polls_enough polls repo branch (s : build_state W) : (76 <= polls)%nat →
  (_github_checks_verdict polls repo branch s).2 ≠ Ok None ∧
  (∀ v, (_github_checks_verdict polls repo branch s).2 = Ok (Some v) → v ∈ ["green"; "red"; "blocked"; "timeout"]).
Proof.
  intros Hp. split.
  - unfold _github_checks_verdict. rewrite prog_bind_eq. pose proof (clock_reads _ _ _ Hclock (bs_world s)) as Hr.
    unfold ask at 1. destruct (answer Monotonic (bs_world s)) as [w r]. cbn [fst snd] in *. subst r. destruct polls as [|polls]; [lia|].
    apply poll_decides. cbn [bs_world]. unfold nanoseconds, _AUTOMERGE_CI_TIMEOUT. lia.
  - intros v. unfold _github_checks_verdict. rewrite prog_bind_eq. destruct (ask Monotonic s) as [s1 [t|e]]; [|done]. generalize (t + nanoseconds _AUTOMERGE_CI_TIMEOUT).
    intros deadline. revert s1. clear Hp. induction polls as [|polls IH]; intros s1; cbn [poll_checks]; [done|]. rewrite prog_bind_eq.
    destruct (ask (Subprocess _) s1) as [s2 [out|e]]; [|done]. rewrite prog_bind_eq. unfold lift. destruct (checks_round repo out.2) as [[v'|]|e] eqn:Hv; cbn [fst snd]; [| |done].
    + intros [= ->]. unfold checks_round in Hv. apply bind_ok in Hv as (cs & _ & Hv). apply bind_ok in Hv as (core & _ & Hv).
      apply bind_ok in Hv as (sec & _ & Hv). revert Hv.
      intros Hv. apply list_elem_of_In. cbn. repeat (case_match; [injection Hv as <-; auto 6|]); done.
    + rewrite prog_bind_eq. destruct (ask Monotonic s2) as [s3 [now|e]]; [|done]. cbn [fst snd]. destruct (deadline <=? now).
      * intros [= <-]. apply list_elem_of_In. cbn. auto 6.
      * rewrite prog_bind_eq. destruct (ask (Sleep 20) s3) as [s4 [[]|e]]; [|done]. apply IH.
Qed.
End clock.
