(* ===== verification/AutopilotRun.v ===== *)
(** * What a run of the autopilot records

    The ledger of the caps, the outcome rows, the kill switch and the decision ids of
    [autocode/orchestrator.py], the bucket of the grader of [autocode/grader_pin.py], and
    the journal of a run, [autocode/journal.py], with the handle through which executors
    change it.  The journal file holds a value; its JSON text is not modelled. *)
From S2P Require Import Prelude PyDict PyFloat Canonical Json PyText Autoscale Grading Buckets AutopilotTypes.
From Stdlib Require Import Ascii.
Local Open Scope Z_scope.

(** ** The caps *)
Record CapLedger := { cl_caps : Caps; cl_tokens : Z; cl_usd : float }.
Definition new_CapLedger (caps : Caps) : CapLedger := {| cl_caps := caps; cl_tokens := 0; cl_usd := 0 |}.
Definition CapLedger_add (l : CapLedger) (tokens : Z) (usd : float) : CapLedger :=
  {| cl_caps := cl_caps l; cl_tokens := cl_tokens l + tokens; cl_usd := fadd (cl_usd l) usd |}.
Definition CapLedger_exceeded (l : CapLedger) : bool :=
  (cp_max_tokens_per_run (cl_caps l) <? cl_tokens l) || (cp_max_usd_per_day (cl_caps l) <? cl_usd l).
(** [SKOS_AUTOPILOT_OFF] is given as its value. *)
Definition kill_switch_active (off : option string) (enabled : bool) : bool := bool_decide (off = Some "1") || negb enabled.
(** The number of threads: an explicit one is clamped to the cap, otherwise the host
    decides. *)
Definition swarm_workers (caps : Caps) (override : option Z) (host : Resources) : Z :=
  let hard_cap := if cp_max_concurrent caps =? 0 then 3 else cp_max_concurrent caps in
  match override with None => resolve (cp_concurrency caps) (Some hard_cap) host | Some n => Z.max 1 (Z.min n hard_cap) end.

(** ** The bucket of the grader *)
Definition GRADER_CAPABILITY_CLASS : string := "m".
Section records.
Context {PF : Platform}.
Definition grader_bucket (build_bucket : option string) : result (option string) :=
  match build_bucket with
  | None => Ok None
  | Some b =>
      b ← validate_bucket (JStr b);
      match bucket_groups b with
      | None => Err (Exn BucketError ("unparseable bucket: " +:+ repr_str b))
      | Some (_, zone) => b ← bucket_id (JStr GRADER_CAPABILITY_CLASS) (JStr (py_lower zone)); Ok (Some b)
      end
  end.

(** ** Outcome rows *)
Definition TERMINAL_STATES : list string := ["finalized"; "finalize-failed"; "escalated"; "claim-raced"; "off-node"; "kill-switch"; "budget-hit"].
(** The name and the static model of the harness. *)
Record Harness := { ha_name : option string; ha_model : option string }.
Definition stripped (s : option string) : option string :=
  match s with Some s => if is_empty_str (strip s) then None else Some (strip s) | None => None end.
Definition _adapter_name (h : Harness) : option string := stripped (ha_name h).
Definition bucket_or_static (bucket : result (option string)) (h : Harness) : option string :=
  match bucket with Ok (Some b) => if is_empty_str b then stripped (ha_model h) else Some b | _ => stripped (ha_model h) end.
Definition _model_requested (item : WorkItem) (h : Harness) : option string := bucket_or_static (bucket_for_payload (JObj (wi_payload item))) h.
Definition _grader_model (item : WorkItem) (h : Harness) : option string :=
  bucket_or_static (b ← bucket_for_payload (JObj (wi_payload item)); grader_bucket b) h.
Record OutcomeRow := {
  or_card_id : string; or_repo : string; or_tokens : Z; or_cost_usd : float; or_passed : bool; or_run_id : string; or_terminal_state : string; or_outcome : string;
  or_adapter : option string; or_model_requested : option string; or_grader_model : option string; or_score : option Z; or_retries : Z;
  or_quality_mode : json; or_work_grade : json; or_escalation_reason : option string; or_mutation_report : option json }.
(** The row that [record_outcome_row] hands to the cost ledger; the model that served is
    never known here. *)
Definition outcome_row (run_id : string) (h : Harness) (item : WorkItem) (terminal_state : string) (r : option GateResult) (retries : Z) : OutcomeRow := {|
  or_card_id := wi_ref item; or_repo := default "" (wi_repo item);
  or_tokens := match r with Some r => gr_tokens r | None => 0 end; or_cost_usd := match r with Some r => gr_cost_usd r | None => 0 end;
  or_passed := match r with Some r => gr_passed r | None => false end; or_run_id := run_id; or_terminal_state := terminal_state;
  or_outcome := match r with Some r => if is_empty_str (gr_outcome r) then UNRECORDED else gr_outcome r | None => UNRECORDED end;
  or_adapter := _adapter_name h; or_model_requested := _model_requested item h; or_grader_model := _grader_model item h;
  or_score := match r with Some r => gr_result_score r | None => None end; or_retries := retries;
  or_quality_mode := match r with Some r => JStr (gr_mode r) | None => jget_or_none "quality" (wi_payload item) end;
  or_work_grade := jget_or_none "work_grade" (wi_payload item); or_escalation_reason := reason_from_payload (JObj (wi_payload item));
  or_mutation_report := match r with Some r => gr_mutation_report r | None => None end |}.
(** [stable_qid] *)
Definition stable_qid (prompt : string) (action_ref : option string) : string :=
  String.substring 0 12 (sha256_hex (utf8_encode (match action_ref with Some a => a | None => "None" end +:+ "|" +:+ prompt))).
End records.

(** ** The journal of a run *)
Definition jupdate (ms patch : list (string * json)) : list (string * json) := foldl (λ acc kv, alist_set kv.1 kv.2 acc) ms patch.
Definition read_run (file : option json) : json := default (JObj []) file.
Definition as_object (method : string) (j : json) : result (list (string * json)) :=
  match j with JObj ms => Ok ms | _ => Err (Exn AttributeError ("'" +:+ type_name j +:+ "' object has no attribute '" +:+ method +:+ "'")) end.
(** What [RunHandle._mutate] makes of what it has read. *)
Definition mutated (run_id now ref : string) (change : list (string * json) → list (string * json)) (data : json) : result json :=
  let data := if py_truthy data then data else JObj [("run_id", JStr run_id); ("items", JObj []); ("tokens", JInt 0); ("cost_usd", JFloat 0)] in
  ms ← as_object "setdefault" data;
  items ← as_object "setdefault" (default (JObj []) (jget "items" ms));
  item ← as_object "update" (default (JObj []) (jget ref items));
  Ok (JObj (alist_set "items" (JObj (alist_set ref (JObj (alist_set "updated_at" (JStr now) (change item))) items)) ms)).
Definition set_worktree_patch (path : string) : list (string * json) := [("worktree", JStr path)].
Definition record_claim_patch (claimed_at : string) : list (string * json) := [("state", JStr "claimed"); ("claimed_at", JStr claimed_at)].
(** [worktree_for]: [(a.get(k) or {}).get(...)] *)
Definition worktree_for (ref : string) (file : option json) : result json :=
  ms ← as_object "get" (read_run file);
  items ← as_object "get" (or_value (jget_or_none "items" ms) (JObj []));
  item ← as_object "get" (or_value (jget_or_none ref items) (JObj []));
  Ok (jget_or_none "worktree" item).
(** The value the orchestrator writes over the file. *)
Definition swarm_record (run_id : string) (state : dict string json) : json :=
  JObj [("run_id", JStr run_id); ("phase", JStr "swarm"); ("items", JObj (items state))].
(** The rounds an item has burned before: of [state.get(ref, {}) or {}]. *)
Definition _prior_rounds (state : dict string json) (ref : string) : result Z := int_field "round" (or_value (default (JObj []) (state !! ref)) (JObj [])).
