(* ===== verification/Phase2.v ===== *)
(** * The swarm of builds

    [phase2_swarm] of [autocode/orchestrator.py]: one thread per item up to a number of
    threads, over the shared state, caps, decisions, outcome rows and run journal.  A
    locked region is one step; what an executor answers, and when it reads and writes
    the journal of the run through its handle, is the choice of the environment. *)
From S2P Require Import Prelude PyDict PyFloat Canonical Json PyText Grading Buckets Status AutopilotTypes AutopilotRun.
From Stdlib Require Import Ascii.
Local Open Scope Z_scope.

(** ** What is shared *)
Inductive session_event := Registered (sid repo last_message : string) | Closed (sid last_message : string).
Record shared := {
  sh_state : dict string json; sh_ledger : CapLedger; sh_decisions : list DecisionItem; sh_budget_hit : bool;
  sh_rows : list OutcomeRow; sh_journal : option json; sh_sessions : list session_event }.
Definition with_state (f : dict string json → dict string json) (s : shared) : shared := {|
  sh_state := f (sh_state s); sh_ledger := sh_ledger s; sh_decisions := sh_decisions s; sh_budget_hit := sh_budget_hit s;
  sh_rows := sh_rows s; sh_journal := sh_journal s; sh_sessions := sh_sessions s |}.
Definition with_ledger (l : CapLedger) (s : shared) : shared := {|
  sh_state := sh_state s; sh_ledger := l; sh_decisions := sh_decisions s; sh_budget_hit := sh_budget_hit s;
  sh_rows := sh_rows s; sh_journal := sh_journal s; sh_sessions := sh_sessions s |}.
Definition add_decisions (ds : list DecisionItem) (s : shared) : shared := {|
  sh_state := sh_state s; sh_ledger := sh_ledger s; sh_decisions := sh_decisions s ++ ds; sh_budget_hit := sh_budget_hit s;
  sh_rows := sh_rows s; sh_journal := sh_journal s; sh_sessions := sh_sessions s |}.
Definition set_budget_hit (s : shared) : shared := {|
  sh_state := sh_state s; sh_ledger := sh_ledger s; sh_decisions := sh_decisions s; sh_budget_hit := true;
  sh_rows := sh_rows s; sh_journal := sh_journal s; sh_sessions := sh_sessions s |}.
Definition add_row (r : OutcomeRow) (s : shared) : shared := {|
  sh_state := sh_state s; sh_ledger := sh_ledger s; sh_decisions := sh_decisions s; sh_budget_hit := sh_budget_hit s;
  sh_rows := sh_rows s ++ [r]; sh_journal := sh_journal s; sh_sessions := sh_sessions s |}.
Definition write_journal (j : json) (s : shared) : shared := {|
  sh_state := sh_state s; sh_ledger := sh_ledger s; sh_decisions := sh_decisions s; sh_budget_hit := sh_budget_hit s;
  sh_rows := sh_rows s; sh_journal := Some j; sh_sessions := sh_sessions s |}.
Definition add_session (es : list session_event) (s : shared) : shared := {|
  sh_state := sh_state s; sh_ledger := sh_ledger s; sh_decisions := sh_decisions s; sh_budget_hit := sh_budget_hit s;
  sh_rows := sh_rows s; sh_journal := sh_journal s; sh_sessions := sh_sessions s ++ es |}.

(** ** Where the thread of an item is *)
(** How an item ends: its terminal state, its result when a build gave one, the rounds
    before this one, and the decision that was queued for it. *)
Record ending := { en_state : string; en_result : option GateResult; en_retries : Z; en_decision : option DecisionItem }.
Inductive worker :=
  | Queued                                             (* no thread has it yet *)
  | Starting                                           (* before the kill switch is read *)
  | Unstopped                                          (* before the caps are read *)
  | Building (snapshot : option (option json))         (* in [ex.run]; what its handle has read of the journal *)
  | Raced (message : string)                           (* the claim was lost *)
  | Judged (r : GateResult)                            (* [ex.run] has returned *)
  | Accounted (r : GateResult) (rnd : Z) (snapshot : option (option json))    (* in [ex.finalize] or [ex.escalate] *)
  | Deciding (en : ending) (d : DecisionItem) (entry : json)     (* before the decision is appended *)
  | Storing (en : ending) (entry : json)               (* before the state is stored *)
  | Stored (en : ending)                               (* before the outcome row *)
  | Finished (en : ending)
  | Died (e : exn).                                    (* an exception left [_process] *)
Inductive action :=
  | Pick                                               (* a thread takes the item *)
  | ReadSwitch (off : option string)                   (* the environment variable *)
  | ReadCaps
  | HandleRead                                         (* the executor's handle reads the journal of the run *)
  | HandleWrite (now : string) (patch : list (string * json))    (* and writes it back *)
  | RunEnds (answer : result GateResult)
  | StoreRaced
  | Account
  | FinalizeEnds (answer : result unit)
  | EscalateEnds (answer : result DecisionItem)
  | Append
  | Store
  | Close.

Section swarm.
Context {PF : Platform} (run_id : string) (harness : Harness) (enabled registry : bool) (work : list WorkItem) (workers : Z).
Record swarm := { sm_shared : shared; sm_workers : list worker }.

Definition budget_decision : DecisionItem := {|
  di_qid := stable_qid "budget-hit" (Some run_id); di_prompt := "Autopilot hit its budget ceiling (token/dollar limits); stopped early.";
  di_options := [("ok", "acknowledge")]; di_action_ref := Some run_id; di_priority := "high" |}.
Definition finalize_failed_decision (item : WorkItem) (e : exn) : DecisionItem := {|
  di_qid := stable_qid "finalize-failed" (Some (wi_ref item));
  di_prompt := "Task " +:+ wi_ref item +:+ " PASSED the gate but finalize failed: " +:+ exn_name (exn_kind e) +:+ ": " +:+ exn_msg e +:+ ". Branch autopilot/" +:+
    wi_ref item +:+ " may already be pushed; open/merge it manually or retry.";
  di_options := [("retry", "retry"); ("skip", "skip")]; di_action_ref := Some (wi_ref item); di_priority := "high" |}.
Definition sid_of (item : WorkItem) : string := "autocode-" +:+ run_id +:+ "-" +:+ wi_ref item.
Definition registering (item : WorkItem) : list session_event :=
  if registry then [Registered (sid_of item) (default "" (wi_repo item)) (wi_kind item +:+ ":" +:+ wi_ref item)] else [].
Definition closing (item : WorkItem) (state : string) : list session_event := if registry then [Closed (sid_of item) state] else [].
Definition entry_of (state : string) (rnd : Z) (r : GateResult) : json :=
  JObj [("state", JStr state); ("round", JInt rnd); ("score", jopt JInt (gr_result_score r))].
Definition row_of (item : WorkItem) (en : ending) : OutcomeRow := outcome_row run_id harness item (en_state en) (en_result en) (en_retries en).
Definition unbuilt (state : string) (retries : Z) : ending := {| en_state := state; en_result := None; en_retries := retries; en_decision := None |}.
Definition built (state : string) (r : GateResult) (rnd : Z) (d : option DecisionItem) : ending :=
  {| en_state := state; en_result := Some r; en_retries := rnd - 1; en_decision := d |}.
(** An item that ends before its build: its row is written where it stops. *)
Definition stop_at (item : WorkItem) (state : string) (s : shared) : shared * worker :=
  match _prior_rounds (sh_state s) (wi_ref item) with
  | Ok n => (add_row (row_of item (unbuilt state n)) s, Finished (unbuilt state n))
  | Err e => (s, Died e)
  end.
Definition store_entry (item : WorkItem) (entry : json) (s : shared) : shared :=
  let s := with_state (insert (wi_ref item) entry) s in write_journal (swarm_record run_id (sh_state s)) s.
(** The handle of the executor of an item: it reads the journal, and writes back what it
    read with a change, in two steps. *)
Definition handle_step (item : WorkItem) (a : action) (snapshot : option (option json)) (s : shared) : option (shared * option (option json)) :=
  match a, snapshot with
  | HandleRead, None => Some (s, Some (sh_journal s))
  | HandleWrite now patch, Some seen =>
      match mutated run_id now (wi_ref item) (λ ms, jupdate ms patch) (read_run seen) with
      | Ok j => Some (write_journal j s, None)
      | Err _ => Some (s, None)
      end
  | _, _ => None
  end.
(** One step of [_process] for an item whose thread runs. *)
Definition process_step (item : WorkItem) (w : worker) (a : action) (s : shared) : option (shared * worker) :=
  match w, a with
  | Starting, ReadSwitch off => Some (if kill_switch_active off enabled then stop_at item "kill-switch" s else (s, Unstopped))
  | Unstopped, ReadCaps =>
      if CapLedger_exceeded (sh_ledger s) then
        Some (stop_at item "budget-hit" (if sh_budget_hit s then s else add_decisions [budget_decision] (set_budget_hit s)))
      else Some (add_session (registering item) s, Building None)
  | Building _, RunEnds (Ok r) => Some (s, Judged r)
  | Building _, RunEnds (Err e) => Some (s, if exn_isa (exn_kind e) ClaimRaced then Raced (exn_msg e) else Died e)
  | Building snapshot, a =>
      match handle_step item a snapshot s with Some (s, snapshot) => Some (s, Building snapshot) | None => None end
  | Raced message, StoreRaced =>
      match _prior_rounds (sh_state s) (wi_ref item) with
      | Ok n => Some (store_entry item (JObj [("state", JStr "claim-raced"); ("detail", JStr message)]) s, Stored (unbuilt "claim-raced" n))
      | Err e => Some (s, Died e)
      end
  | Judged r, Account =>
      let s := with_ledger (CapLedger_add (sh_ledger s) (gr_tokens r) (gr_cost_usd r)) s in
      match int_field "round" (default (JObj []) (sh_state s !! wi_ref item)) with
      | Ok n => Some (s, Accounted r (n + 1) None)
      | Err e => Some (s, Died e)
      end
  | Accounted r rnd _, FinalizeEnds answer =>
      if gr_passed r then
        Some (s, match answer with
                 | Ok _ => Storing (built "finalized" r rnd None) (entry_of "finalized" rnd r)
                 | Err e =>
                     if exn_isa (exn_kind e) Exception_
                     then let d := finalize_failed_decision item e in Deciding (built "finalize-failed" r rnd (Some d)) d (entry_of "finalize-failed" rnd r)
                     else Died e
                 end)
      else None
  | Accounted r rnd _, EscalateEnds answer =>
      if gr_passed r then None
      else Some (s, match answer with Ok d => Deciding (built "escalated" r rnd (Some d)) d (entry_of "escalated" rnd r) | Err e => Died e end)
  | Accounted r rnd snapshot, a =>
      match handle_step item a snapshot s with Some (s, snapshot) => Some (s, Accounted r rnd snapshot) | None => None end
  | Deciding en d entry, Append => Some (add_decisions [d] s, Storing en entry)
  | Storing en entry, Store => Some (store_entry item entry s, Stored en)
  | Stored en, Close => Some (add_session (closing item (en_state en)) (add_row (row_of item en) s), Finished en)
  | _, _ => None
  end.
Definition is_queued (w : worker) : bool := match w with Queued => true | _ => false end.
Definition is_over (w : worker) : bool := match w with Finished _ | Died _ => true | _ => false end.
Definition is_dead (w : worker) : bool := match w with Died _ => true | _ => false end.
(** The threads that are at work. *)
Definition running (ws : list worker) : Z := Z.of_nat (length (List.filter (λ w, negb (is_queued w) && negb (is_over w)) ws)).
(** A thread takes the items in their order; a single thread is the caller itself, which
    an exception ends. *)
Definition may_pick (i : nat) (ws : list worker) : bool :=
  match ws !! i with Some Queued => true | _ => false end && forallb (λ w, negb (is_queued w)) (take i ws) &&
  (running ws <? Z.max 1 workers) && negb ((workers <=? 1) && existsb is_dead ws).
Definition step (i : nat) (a : action) (sm : swarm) : option swarm :=
  let ws := sm_workers sm in
  match a with
  | Pick => if may_pick i ws then Some {| sm_shared := sm_shared sm; sm_workers := <[i := Starting]> ws |} else None
  | _ =>
      match work !! i, ws !! i with
      | Some item, Some w =>
          match process_step item w a (sm_shared sm) with
          | Some (s, w) => Some {| sm_shared := s; sm_workers := <[i := w]> ws |}
          | None => None
          end
      | _, _ => None
      end
  end.
Definition launched (s : shared) : swarm := {| sm_shared := s; sm_workers := map (λ _, Queued) work |}.
(** What the steps that satisfy [P] can reach. *)
Inductive reachable (P : action → Prop) (s : shared) : swarm → Prop :=
  | reachable_launched : reachable P s (launched s)
  | reachable_step sm i a sm' : reachable P s sm → P a → step i a sm = Some sm' → reachable P s sm'.
(** A schedule. *)
Fixpoint follow (schedule : list (nat * action)) (sm : swarm) : option swarm :=
  match schedule with [] => Some sm | (i, a) :: rest => match step i a sm with Some sm => follow rest sm | None => None end end.
End swarm.
