(* ===== verification/Phase2Facts.v ===== *)
(** * The swarm keeps its books

    One outcome row per item that ended, every decision in place, the overshoot of the
    caps, and the state that is stored. *)
From S2P Require Import Prelude PyDict PyFloat Canonical Json PyText Grading Buckets Status AutopilotTypes AutopilotRun Phase2.
From Stdlib Require Import Ascii.
Local Open Scope Z_scope.

(** ** Sums over the workers *)
Section totals.
Context {A B C : Type} (contrib : A → B → list C).
Definition total (xs : list A) (ys : list B) : list C := concat (zip_with contrib xs ys).
Lemma total_insert xs ys i x y y' : xs !! i = Some x → ys !! i = Some y →
  total xs (<[i := y']> ys) ++ contrib x y ≡ₚ total xs ys ++ contrib x y'.
Proof.
  unfold total. revert ys i. induction xs as [|x' xs IH]; intros ys i Hx Hy; [done|].
  destruct ys as [|y0 ys]; [done|]. destruct i as [|i]; cbn in *.
  - injection Hx as ->. injection Hy as ->. rewrite <- !(assoc_L (++)), (Permutation_app_comm (contrib x y')), (Permutation_app_comm (contrib x y)), <- !(assoc_L (++)).
    by rewrite (Permutation_app_comm (contrib x y')).
  - rewrite <- !(assoc_L (++)). by rewrite (IH ys i).
Qed.
Lemma total_same xs ys i x y y' : xs !! i = Some x → ys !! i = Some y → contrib x y' = contrib x y → total xs (<[i := y']> ys) ≡ₚ total xs ys.
Proof. intros Hx Hy Hc. pose proof (total_insert xs ys i x y y' Hx Hy) as H. rewrite Hc in H. by apply Permutation_app_inv_r in H. Qed.
Lemma total_grows xs ys i x y y' : xs !! i = Some x → ys !! i = Some y → contrib x y = [] → total xs (<[i := y']> ys) ≡ₚ total xs ys ++ contrib x y'.
Proof. intros Hx Hy Hc. pose proof (total_insert xs ys i x y y' Hx Hy) as H. by rewrite Hc, app_nil_r in H. Qed.
Lemma total_length xs ys i x y y' : xs !! i = Some x → ys !! i = Some y →
  (length (total xs (<[i := y']> ys)) + length (contrib x y) = length (total xs ys) + length (contrib x y'))%nat.
Proof. intros Hx Hy. by rewrite <- !length_app, (total_insert xs ys i x y y'). Qed.
Lemma total_nil xs ys : (∀ x y, x ∈ xs → y ∈ ys → contrib x y = []) → total xs ys = [].
Proof.
  unfold total. revert ys. induction xs as [|x xs IH]; intros [|y ys] H; cbn; try done. rewrite (H x y), IH; [done| |left|left].
  intros; apply H; by right.
Qed.
End totals.

Section facts.
Context {PF : Platform} (run_id : string) (harness : Harness) (enabled registry : bool) (work : list WorkItem) (workers : Z).
Abbreviation step := (step run_id harness enabled registry work workers).
Abbreviation process_step := (process_step run_id harness enabled registry).
Abbreviation reachable := (reachable run_id harness enabled registry work workers).
Abbreviation launched := (launched work).
Implicit Types (s : shared) (sm : swarm) (ws : list worker).

(** A step is either a pick, or a step of one worker. *)
Lemma step_cases i a sm sm' : step i a sm = Some sm' → length (sm_workers sm) = length work →
  ∃ item w s w', work !! i = Some item ∧ sm_workers sm !! i = Some w ∧ sm' = {| sm_shared := s; sm_workers := <[i := w']> (sm_workers sm) |} ∧
    ((a = Pick ∧ w = Queued ∧ w' = Starting ∧ s = sm_shared sm ∧ may_pick workers i (sm_workers sm) = true) ∨
     (a ≠ Pick ∧ process_step item w a (sm_shared sm) = Some (s, w'))).
Proof.
  intros Hs Hlen. unfold Phase2.step in Hs. assert (a = Pick ∨ a ≠ Pick) as [->|Ha] by (destruct a; (by left) || (by right)).
  - destruct (may_pick workers i (sm_workers sm)) eqn:Hp; [|done]. injection Hs as <-. pose proof Hp as Hp'. unfold may_pick in Hp'.
    destruct (sm_workers sm !! i) as [w|] eqn:Hw; [|done]. apply lookup_lt_Some in Hw as Hi. rewrite Hlen in Hi. apply lookup_lt_is_Some in Hi as [item Hi].
    destruct w; try done. exists item, Queued, (sm_shared sm), Starting. auto 9.
  - assert (∃ item w, work !! i = Some item ∧ sm_workers sm !! i = Some w ∧ match process_step item w a (sm_shared sm) with
      | Some (s, w) => Some {| sm_shared := s; sm_workers := <[i := w]> (sm_workers sm) |} | None => None end = Some sm') as (item & w & Hi & Hw & H).
    { destruct a; try done; destruct (work !! i) as [item|], (sm_workers sm !! i) as [w|]; try done; eauto. }
    destruct (process_step item w a (sm_shared sm)) as [[s w']|] eqn:Hp; [|done]. injection H as <-. exists item, w, s, w'. auto 9.
Qed.
Lemma workers_length P s0 sm : reachable P s0 sm → length (sm_workers sm) = length work.
Proof.
  induction 1 as [|sm i a sm' Hr IH HP Hs]; [cbn; apply length_map|].
  destruct (step_cases _ _ _ _ Hs IH) as (item & w & s & w' & _ & _ & -> & _). cbn. by rewrite length_insert.
Qed.

(** ** Rows and decisions *)
Definition ended (w : worker) : option ending := match w with Finished en => Some en | _ => None end.
Definition settled (w : worker) : option ending := match w with Storing en _ | Stored en | Finished en => Some en | _ => None end.
Definition row_at (item : WorkItem) (w : worker) : list OutcomeRow := match ended w with Some en => [row_of run_id harness item en] | None => [] end.
Definition decision_at (_ : WorkItem) (w : worker) : list DecisionItem := match settled w with Some en => option_list (en_decision en) | None => [] end.
(** How an item may end; [hit] says whether the caps were seen exceeded. *)
Definition good (hit : bool) (en : ending) : Prop :=
  (en_result en = None ∧ en_decision en = None ∧ en_state en ∈ ["kill-switch"; "budget-hit"; "claim-raced"] ∧ (en_state en = "budget-hit" → hit = true)) ∨
  (∃ r, en_result en = Some r ∧
     ((en_state en = "finalized" ∧ en_decision en = None ∧ gr_passed r = true) ∨
      (en_state en = "finalize-failed" ∧ is_Some (en_decision en) ∧ gr_passed r = true) ∨
      (en_state en = "escalated" ∧ is_Some (en_decision en) ∧ gr_passed r = false))).
Definition good_worker (hit : bool) (w : worker) : Prop :=
  match w with
  | Deciding en d _ => good hit en ∧ en_decision en = Some d
  | Storing en _ | Stored en | Finished en => good hit en
  | _ => True
  end.
Lemma good_hit hit w : good_worker hit w → good_worker true w.
Proof.
  assert (∀ en, good hit en → good true en) as H by (intros en [(? & ? & ? & ?)|?]; [left|right]; auto).
  destruct w; cbn; try done; [intros [? ?]; split; auto|apply H..].
Qed.
(** What one step of a worker adds. *)
Record tallied (item : WorkItem) (w : worker) (s : shared) (w' : worker) (s' : shared) : Prop := {
  ta_rows : ∃ new, sh_rows s' = sh_rows s ++ new ∧ row_at item w' = row_at item w ++ new;
  ta_decisions : ∃ new, sh_decisions s' ≡ₚ sh_decisions s ++ (if sh_budget_hit s then [] else if sh_budget_hit s' then [budget_decision run_id] else []) ++ new ∧
    decision_at item w' = decision_at item w ++ new;
  ta_hit : sh_budget_hit s = true → sh_budget_hit s' = true;
  ta_good : good_worker (sh_budget_hit s') w' }.
Lemma nothing_new item w s w' s' : sh_rows s' = sh_rows s → sh_decisions s' = sh_decisions s → sh_budget_hit s' = sh_budget_hit s →
  row_at item w' = row_at item w → decision_at item w' = decision_at item w → good_worker (sh_budget_hit s) w' → tallied item w s w' s'.
Proof.
  intros Hr Hd Hh Hrow Hdec Hg. split.
  - exists []. by rewrite !app_nil_r.
  - exists []. rewrite !app_nil_r, Hd, Hh. split; [|done]. destruct (sh_budget_hit s); by rewrite app_nil_r.
  - by rewrite Hh.
  - by rewrite Hh.
Qed.
Lemma stop_tallied item w s st s' w' :
  stop_at run_id harness item st s = (s', w') → row_at item w = [] → decision_at item w = [] →
  (st = "kill-switch" ∨ (st = "budget-hit" ∧ sh_budget_hit s = true)) → tallied item w s w' s'.
Proof.
  intros H Hrow Hdec Hst. unfold stop_at in H. destruct (_prior_rounds (sh_state s) (wi_ref item)) as [n|e]; injection H as <- <-.
  - split; cbn.
    + exists [row_of run_id harness item (unbuilt st n)]. by rewrite Hrow.
    + exists []. rewrite Hdec, !app_nil_r. split; [|done]. destruct (sh_budget_hit s); by rewrite app_nil_r.
    + done.
    + left. cbn. split; [done|]. split; [done|]. split; [apply list_elem_of_In; cbn; destruct Hst as [->|[-> _]]; auto|]. destruct Hst as [->|[-> ?]]; done.
  - by apply nothing_new.
Qed.
Lemma process_tallied item w a s s' w' : process_step item w a s = Some (s', w') → good_worker (sh_budget_hit s) w → tallied item w s w' s'.
Proof.
  assert (∀ snapshot s1 sn, handle_step run_id item a snapshot s = Some (s1, sn) →
    sh_rows s1 = sh_rows s ∧ sh_decisions s1 = sh_decisions s ∧ sh_budget_hit s1 = sh_budget_hit s) as Hh.
  { intros snapshot s1 sn. unfold handle_step. destruct a, snapshot; try done; [by intros [= <- <-]|]. destruct (mutated _ _ _ _ _); by intros [= <- <-]. }
  intros Hp Hg. destruct w; try done; cbn [Phase2.process_step] in Hp.
  - destruct a; try done. destruct (kill_switch_active off enabled); [injection Hp as Hp|injection Hp as <- <-; by apply nothing_new].
    eapply stop_tallied; [exact Hp|done..|by left].
  - destruct a; try done. destruct (CapLedger_exceeded (sh_ledger s)); [|injection Hp as <- <-; by apply nothing_new]. injection Hp as Hp.
    destruct (sh_budget_hit s) eqn:Hb; [eapply stop_tallied; [exact Hp|done..|by right]|].
    eapply (stop_tallied item Unstopped) in Hp as [[nr [H1 H2]] [nd [H3 H4]] H5 H6]; [|done..|by right]. cbn in *.
    split; [by exists nr| |by rewrite Hb|done]. exists nd. split; [|done]. rewrite Hb, (H5 eq_refl). rewrite H3. cbn. by rewrite <- (assoc_L (++)).
  - destruct a as [| | | | |answer| | | | | | |]; try done.
    3:{ destruct answer as [r|e]; injection Hp as <- <-; [by apply nothing_new|]. destruct (exn_isa _ _); by apply nothing_new. }
    all: destruct (handle_step run_id item _ _ _) as [[s1 sn]|] eqn:H; [|done]; injection Hp as <- <-; destruct (Hh _ _ _ H) as (? & ? & ?); by apply nothing_new.
  - destruct a; try done. destruct (_prior_rounds _ _) as [n|e]; injection Hp as <- <-; [|by apply nothing_new]. apply nothing_new; try done. cbn.
    left. cbn. split; [done|]. split; [done|]. split; [apply list_elem_of_In; cbn; auto|done].
  - destruct a; try done. destruct (int_field _ _) as [n|e]; injection Hp as <- <-; by apply nothing_new.
  - destruct a as [| | | | | | | |answer|answer| | |]; try done.
    3:{ destruct (gr_passed r) eqn:Hpass; [|done]. injection Hp as <- <-. destruct answer as [[]|e].
        - apply nothing_new; try done. right. exists r. cbn. auto.
        - destruct (exn_isa _ _); apply nothing_new; try done. cbn. split; [|done]. right. exists r. cbn. split; [done|]. right. left. by eauto. }
    3:{ destruct (gr_passed r) eqn:Hpass; [done|]. injection Hp as <- <-. destruct answer as [d|e]; apply nothing_new; try done. cbn. split; [|done].
        right. exists r. cbn. split; [done|]. right. right. by eauto. }
    all: destruct (handle_step run_id item _ _ _) as [[s1 sn]|] eqn:H; [|done]; injection Hp as <- <-; destruct (Hh _ _ _ H) as (? & ? & ?); by apply nothing_new.
  - destruct a; try done. injection Hp as <- <-. destruct Hg as [Hg Hd]. split; cbn; [exists []; by rewrite app_nil_r| |done|done].
    exists [d]. split; [by destruct (sh_budget_hit s)|]. unfold decision_at. cbn. by rewrite Hd.
  - destruct a; try done. injection Hp as <- <-. by apply nothing_new.
  - destruct a; try done. injection Hp as <- <-. split; cbn; [by exists [row_of run_id harness item en]| |done|done].
    exists []. rewrite !app_nil_r. split; [|done]. by destruct (sh_budget_hit s); rewrite app_nil_r.
Qed.

Abbreviation rows_due := (total row_at work).
Abbreviation decisions_due := (total decision_at work).
Definition budget_due (hit : bool) : list DecisionItem := if hit then [budget_decision run_id] else [].
(** C20: The swarm loses no item.  In every state that any interleaving of the threads
    reaches, whatever the executors answer and the environment says, the outcome rows are
    exactly one for each item that has ended, with its terminal state, result and prior
    rounds; the decisions are those that were there, one for the caps when they were seen
    exceeded (one in all, however many items they stopped), and one for each item whose
    finalizing failed or that did not converge; and every item that ended did so in one of
    the terminal states, without a build only for the kill switch, the caps and a lost
    claim, finalized only when its result passed.  Only an item whose thread an exception
    other than a lost claim killed has no row. *)
Theorem every_item_accounted P s0 sm : sh_budget_hit s0 = false → reachable P s0 sm →
  sh_rows (sm_shared sm) ≡ₚ sh_rows s0 ++ rows_due (sm_workers sm) ∧
  sh_decisions (sm_shared sm) ≡ₚ sh_decisions s0 ++ budget_due (sh_budget_hit (sm_shared sm)) ++ decisions_due (sm_workers sm) ∧
  (∀ en, Finished en ∈ sm_workers sm → good (sh_budget_hit (sm_shared sm)) en ∧ en_state en ∈ TERMINAL_STATES).
Proof.
  intros H0 Hr. assert (sh_rows (sm_shared sm) ≡ₚ sh_rows s0 ++ rows_due (sm_workers sm) ∧
    sh_decisions (sm_shared sm) ≡ₚ sh_decisions s0 ++ budget_due (sh_budget_hit (sm_shared sm)) ++ decisions_due (sm_workers sm) ∧
    Forall (good_worker (sh_budget_hit (sm_shared sm))) (sm_workers sm)) as (Hrows & Hdec & Hgood).
  - induction Hr as [|sm i a sm' Hr (Hrows & Hdec & Hgood) HP Hs].
    + cbn [launched sm_shared sm_workers]. rewrite H0. cbn [budget_due app]. assert (∀ C (f : WorkItem → worker → list C), (∀ item, f item Queued = []) →
        total f work (map (λ _, Queued) work) = []) as Ht.
      { intros C f Hf. apply total_nil. intros x y _ Hy. apply list_elem_of_fmap in Hy as (_ & -> & _). apply Hf. }
      rewrite !Ht, !app_nil_r by done. split; [done|]. split; [done|]. apply Forall_forall. intros w Hw. by apply list_elem_of_fmap in Hw as (_ & -> & _).
    + destruct (step_cases _ _ _ _ Hs (workers_length _ _ _ Hr)) as (item & w & s' & w' & Hi & Hw & -> & Hcase). cbn [sm_shared sm_workers].
      assert (good_worker (sh_budget_hit (sm_shared sm)) w) as Hgw by (by eapply Forall_lookup_1).
      assert (tallied item w (sm_shared sm) w' s') as [[nr [H1 H2]] [nd [H3 H4]] H5 H6].
      { destruct Hcase as [(_ & -> & -> & -> & _)|[_ Hp]]; [by apply nothing_new|by eapply process_tallied]. }
      split; [|split].
      * pose proof (total_insert row_at work (sm_workers sm) i item w w' Hi Hw) as Ht. rewrite H2 in Ht.
        rewrite H1, Hrows, <- (assoc_L (++)). apply Permutation_app_head. apply (Permutation_app_inv_r (row_at item w)). rewrite Ht, <- !(assoc_L (++)).
        apply Permutation_app_head, Permutation_app_comm.
      * pose proof (total_insert decision_at work (sm_workers sm) i item w w' Hi Hw) as Ht. rewrite H4 in Ht.
        rewrite H3, Hdec, <- !(assoc_L (++)). apply Permutation_app_head.
        assert (budget_due (sh_budget_hit s') ≡ₚ budget_due (sh_budget_hit (sm_shared sm)) ++
          (if sh_budget_hit (sm_shared sm) then [] else if sh_budget_hit s' then [budget_decision run_id] else [])) as Hb.
        { destruct (sh_budget_hit (sm_shared sm)); [by rewrite H5|done]. }
        rewrite Hb, <- (assoc_L (++)). apply Permutation_app_head. rewrite (Permutation_app_comm _ (_ ++ nd)), <- (assoc_L (++)).
        rewrite (Permutation_app_comm _ (decisions_due _)). 
        assert (decisions_due (<[i:=w']> (sm_workers sm)) ≡ₚ decisions_due (sm_workers sm) ++ nd) as ->.
        { apply (Permutation_app_inv_r (decision_at item w)). rewrite Ht, <- !(assoc_L (++)). apply Permutation_app_head, Permutation_app_comm. }
        solve_Permutation.
      * apply Forall_insert; [|done]. eapply Forall_impl; [exact Hgood|]. intros x Hx. destruct (sh_budget_hit s') eqn:Hb; [by eapply good_hit|].
        destruct (sh_budget_hit (sm_shared sm)) eqn:Hb'; [by specialize (H5 eq_refl)|done].
  - split; [done|]. split; [done|]. intros en Hen. rewrite Forall_forall in Hgood. pose proof (Hgood _ Hen) as Hg. cbn in Hg. split; [done|].
    apply list_elem_of_In. destruct Hg as [(_ & _ & Hst & _)|(r & _ & [[-> _]|[[-> _]|[-> _]]])]; [|cbn; auto 8..].
    apply list_elem_of_In in Hst. cbn in *. destruct_or! Hst; try done; rewrite <- Hst; auto 9.
Qed.

(** ** The caps are overshot by what is in flight *)
Definition in_flight (_ : WorkItem) (w : worker) : list unit := match w with Building _ | Judged _ => [tt] | _ => [] end.
Definition at_work (_ : WorkItem) (w : worker) : list unit := if negb (is_queued w) && negb (is_over w) then [tt] else [].
Abbreviation flight ws := (length (total in_flight work ws)).
Lemma running_total ws : length ws = length work → running ws = Z.of_nat (length (total at_work work ws)).
Proof.
  unfold running, total. revert ws. generalize work. intros xs. induction xs as [|x xs IH]; intros [|w ws] Hlen; try done.
  cbn. injection Hlen as Hlen. specialize (IH ws Hlen). unfold at_work at 1. destruct (negb (is_queued w) && negb (is_over w)); cbn; lia.
Qed.
Lemma flight_running ws : (flight ws ≤ length (total at_work work ws))%nat.
Proof.
  unfold total. revert ws. generalize work. intros xs. induction xs as [|x xs IH]; intros [|w ws]; cbn; try lia.
  rewrite !length_app. specialize (IH ws). destruct w; cbn in *; lia.
Qed.
Definition affordable (T : Z) (a : action) : Prop := match a with RunEnds (Ok r) => gr_tokens r <= T | _ => True end.
Definition cheap (T : Z) (w : worker) : Prop := match w with Judged r => gr_tokens r <= T | _ => True end.
Abbreviation limit s := (cp_max_tokens_per_run (cl_caps (sh_ledger s))).
Abbreviation tokens s := (cl_tokens (sh_ledger s)).
(** A step that launches no build, with its amounts in sight. *)
Ltac no_launch := cbn; (split; [done|]); (split; [done|]); (split; [lia|]); left; lia.
(** What a step of a worker spends, and whether it launches a build. *)
Lemma process_spends T item w a s s' w' : process_step item w a s = Some (s', w') → affordable T a → cheap T w → 0 <= T →
  limit s' = limit s ∧ cheap T w' ∧ (length (at_work item w') ≤ length (at_work item w))%nat ∧
  ((tokens s' + T * Z.of_nat (length (in_flight item w')) <= tokens s + T * Z.of_nat (length (in_flight item w))) ∨
   (tokens s' = tokens s ∧ tokens s <= limit s ∧ in_flight item w = [] ∧ in_flight item w' = [tt])).
Proof.
  assert (∀ st s1 s2 w2, stop_at run_id harness item st s1 = (s2, w2) → sh_ledger s2 = sh_ledger s1 ∧ is_over w2 = true) as Hstop.
  { intros st s1 s2 w2. unfold stop_at. destruct (_prior_rounds _ _); by intros [= <- <-]. }
  assert (∀ snapshot s1 sn, handle_step run_id item a snapshot s = Some (s1, sn) → sh_ledger s1 = sh_ledger s) as Hh.
  { intros snapshot s1 sn. unfold handle_step. destruct a, snapshot; try done; [by intros [= <- <-]|]. destruct (mutated _ _ _ _ _); by intros [= <- <-]. }
  intros Hp Ha Hc HT. destruct w; try done; cbn [Phase2.process_step] in Hp.
  - destruct a; try done. destruct (kill_switch_active off enabled).
    + injection Hp as Hp. apply Hstop in Hp as [-> Hw]. destruct w'; try done; no_launch.
    + injection Hp as <- <-. no_launch.
  - destruct a; try done. destruct (CapLedger_exceeded (sh_ledger s)) eqn:He.
    + injection Hp as Hp. apply Hstop in Hp as [Hl Hw]. assert (sh_ledger s' = sh_ledger s) as -> by (by rewrite Hl; destruct (sh_budget_hit s)).
      destruct w'; try done; no_launch.
    + injection Hp as <- <-. cbn. split; [done|]. split; [done|]. split; [lia|]. right. split; [done|]. unfold CapLedger_exceeded in He.
      apply orb_false_iff in He as [He _]. apply Z.ltb_ge in He. done.
  - destruct a as [| | | | |answer| | | | | | |]; try done.
    3:{ destruct answer as [r|e]; injection Hp as <- <-; [no_launch|].
        destruct (exn_isa _ _); no_launch. }
    all: destruct (handle_step run_id item _ _ _) as [[s1 sn]|] eqn:H; [|done]; injection Hp as <- <-; rewrite (Hh _ _ _ H); no_launch.
  - destruct a; try done. destruct (_prior_rounds _ _) as [n|e]; injection Hp as <- <-; no_launch.
  - destruct a; try done. cbn in Hc. destruct (int_field _ _) as [n|e]; injection Hp as <- <-; no_launch.
  - destruct a as [| | | | | | | |answer|answer| | |]; try done.
    3:{ destruct (gr_passed r); [|done]. injection Hp as <- <-. destruct answer as [[]|e]; [|destruct (exn_isa _ _)]; no_launch. }
    3:{ destruct (gr_passed r); [done|]. injection Hp as <- <-. destruct answer as [d|e]; no_launch. }
    all: destruct (handle_step run_id item _ _ _) as [[s1 sn]|] eqn:H; [|done]; injection Hp as <- <-; rewrite (Hh _ _ _ H); no_launch.
  - destruct a; try done. injection Hp as <- <-. no_launch.
  - destruct a; try done. injection Hp as <- <-. no_launch.
  - destruct a; try done. injection Hp as <- <-. no_launch.
Qed.
(** C21: The token cap is overshot by at most what one round of threads can spend: when
    no build spends more than [T] tokens, then in every state of every interleaving the
    tokens on the ledger, together with [T] for each build whose cost is not yet known,
    stay within the cap plus [T] for each thread; and at most that many threads are at
    work. *)
Theorem overshoot_bounded T s0 sm : 0 <= T → tokens s0 <= limit s0 → reachable (affordable T) s0 sm →
  tokens (sm_shared sm) + T * Z.of_nat (flight (sm_workers sm)) <= limit s0 + T * Z.max 1 workers ∧ running (sm_workers sm) <= Z.max 1 workers.
Proof.
  intros HT H0 Hr. assert (limit (sm_shared sm) = limit s0 ∧ Forall (cheap T) (sm_workers sm) ∧ running (sm_workers sm) <= Z.max 1 workers ∧
    tokens (sm_shared sm) + T * Z.of_nat (flight (sm_workers sm)) <= limit s0 + T * Z.max 1 workers) as (_ & _ & ? & ?); [|done].
  induction Hr as [|sm i a sm' Hr (Hl & Hc & Hn & Hb) HP Hs].
  - cbn. assert (∀ f : WorkItem → worker → list unit, (∀ item, f item Queued = []) → total f work (map (λ _, Queued) work) = []) as Ht.
    { intros f Hf. apply total_nil. intros x y _ Hy. apply list_elem_of_fmap in Hy as (_ & -> & _). apply Hf. }
    split; [done|]. split; [apply Forall_forall; intros w Hw; by apply list_elem_of_fmap in Hw as (_ & -> & _)|].
    rewrite running_total, !Ht by (done || apply length_map). cbn. nia.
  - pose proof (workers_length _ _ _ Hr) as Hlen. destruct (step_cases _ _ _ _ Hs Hlen) as (item & w & s' & w' & Hi & Hw & -> & Hcase).
    cbn [sm_shared sm_workers]. assert (length (<[i:=w']> (sm_workers sm)) = length work) as Hlen' by (by rewrite length_insert).
    pose proof (total_length in_flight work (sm_workers sm) i item w w' Hi Hw) as Hf. pose proof (total_length at_work work (sm_workers sm) i item w w' Hi Hw) as Hat.
    pose proof (flight_running (<[i:=w']> (sm_workers sm))) as Hfr. rewrite running_total in Hn |- * by done.
    destruct Hcase as [(-> & -> & -> & -> & Hp)|[_ Hp]].
    + unfold may_pick in Hp. rewrite !andb_true_iff in Hp. destruct Hp as [[_ Hp] _]. apply Z.ltb_lt in Hp. rewrite running_total in Hp by done. cbn in Hf, Hat.
      split; [done|]. split; [by apply Forall_insert|]. split; [lia|]. replace (flight (<[i:=Starting]> (sm_workers sm))) with (flight (sm_workers sm)) by lia. done.
    + destruct (process_spends T item w a _ _ _ Hp HP) as (Hl' & Hc' & Ha' & Hcase); [by eapply Forall_lookup_1|done|].
      split; [congruence|]. split; [by apply Forall_insert|]. split; [lia|]. destruct Hcase as [Hle|(Ht & Hle & Hf0 & Hf1)].
      * nia.
      * rewrite Hf0, Hf1 in Hf. cbn in Hf. rewrite Ht. nia.
Qed.

(** ** What is stored *)
Definition unstored : list string := ["kill-switch"; "budget-hit"].
Lemma not_unstored st : bool_decide (st ∈ unstored) = false → st ∉ unstored.
Proof. apply bool_decide_eq_false_1. Qed.
Definition before (item : WorkItem) (s0 : shared) : result Z := _prior_rounds (sh_state s0) (wi_ref item).
(** The entry that says how an item ended. *)
Definition says (en : ending) (entry : option json) : Prop := ∃ ms, entry = Some (JObj ms) ∧ jget "state" ms = Some (JStr (en_state en)) ∧
  (∀ r, en_result en = Some r → jget "round" ms = Some (JInt (en_retries en + 1)) ∧ jget "score" ms = Some (jopt JInt (gr_result_score r))).
Definition built_well (item : WorkItem) (s0 : shared) (en : ending) : Prop := (en_state en ∉ unstored) ∧ before item s0 = Ok (en_retries en).
Definition stored_well (item : WorkItem) (s0 : shared) (w : worker) (now : option json) : Prop :=
  match w with
  | Accounted r rnd _ => now = sh_state s0 !! wi_ref item ∧ before item s0 = Ok (rnd - 1)
  | Deciding en _ entry | Storing en entry => now = sh_state s0 !! wi_ref item ∧ built_well item s0 en ∧ says en (Some entry)
  | Stored en => built_well item s0 en ∧ says en now
  | Finished en => before item s0 = Ok (en_retries en) ∧ (if bool_decide (en_state en ∈ unstored) then now = sh_state s0 !! wi_ref item else says en now)
  | Died _ => True
  | _ => now = sh_state s0 !! wi_ref item
  end.
Lemma says_built item s0 st r n d : before item s0 = Ok (n - 1) → st ∉ unstored → built_well item s0 (built st r n d) ∧ says (built st r n d) (Some (entry_of st n r)).
Proof.
  intros Hn Hst. split; [done|]. eexists. split; [done|]. split; [done|]. intros r' [= <-]. cbn [built en_retries]. replace (n - 1 + 1) with n by lia. done.
Qed.
Lemma rounds_read item s0 n : int_field "round" (default (JObj []) (sh_state s0 !! wi_ref item)) = Ok n → before item s0 = Ok n.
Proof.
  unfold before, _prior_rounds. destruct (default (JObj []) (sh_state s0 !! wi_ref item)) as [| | | | | |ms]; try done. unfold or_value.
  destruct (py_truthy (JObj ms)) eqn:Ht; [done|]. destruct ms; done.
Qed.
Lemma process_stores item s0 w a s s' w' : process_step item w a s = Some (s', w') → stored_well item s0 w (sh_state s !! wi_ref item) →
  stored_well item s0 w' (sh_state s' !! wi_ref item) ∧ (∀ ref, ref ≠ wi_ref item → sh_state s' !! ref = sh_state s !! ref).
Proof.
  assert (∀ st s1 s2 w2, stop_at run_id harness item st s1 = (s2, w2) → st ∈ unstored → sh_state s1 = sh_state s → sh_state s !! wi_ref item = sh_state s0 !! wi_ref item →
    stored_well item s0 w2 (sh_state s2 !! wi_ref item) ∧ (∀ ref, ref ≠ wi_ref item → sh_state s2 !! ref = sh_state s !! ref)) as Hstop.
  { intros st s1 s2 w2 H Hst Hs1 Hs. unfold stop_at in H. rewrite Hs1 in H. unfold _prior_rounds in H. destruct (int_field _ _) as [n|e] eqn:Hn in H; injection H as <- <-; cbn; rewrite Hs1; [|done].
    split; [|done]. unfold before, _prior_rounds. rewrite <- Hs. split; [done|]. by rewrite bool_decide_eq_true_2. }
  assert (∀ snapshot s1 sn, handle_step run_id item a snapshot s = Some (s1, sn) → sh_state s1 = sh_state s) as Hh.
  { intros snapshot s1 sn. unfold handle_step. destruct a, snapshot; try done; [by intros [= <- <-]|]. destruct (mutated _ _ _ _ _); by intros [= <- <-]. }
  intros Hp Hw. destruct w; try done; cbn [Phase2.process_step] in Hp.
  - destruct a; try done. destruct (kill_switch_active off enabled); [injection Hp as Hp|injection Hp as <- <-; done].
    eapply Hstop; [exact Hp|left|done|done].
  - destruct a; try done. destruct (CapLedger_exceeded (sh_ledger s)); [|injection Hp as <- <-; done]. injection Hp as Hp.
    eapply Hstop; [exact Hp|right; left|by destruct (sh_budget_hit s)|done].
  - destruct a as [| | | | |answer| | | | | | |]; try done.
    3:{ destruct answer as [r|e]; injection Hp as <- <-; [done|]. by destruct (exn_isa _ _). }
    all: destruct (handle_step run_id item _ _ _) as [[s1 sn]|] eqn:H; [|done]; injection Hp as <- <-; rewrite (Hh _ _ _ H); done.
  - destruct a; try done. destruct (_prior_rounds (sh_state s) _) as [n|e] eqn:Hn; injection Hp as <- <-; [|done]. cbn in *. split.
    + rewrite dict_lookup_insert_eq. split; [|by eexists]. unfold built_well, before, _prior_rounds in *. rewrite <- Hw. split; [|done].
      by apply not_unstored.
    + intros ref Href. by rewrite dict_lookup_insert_ne.
  - destruct a; try done. destruct (int_field _ _) as [n|e] eqn:Hn in Hp; injection Hp as <- <-; [|done]. cbn in *. split; [|done]. split; [done|].
    replace (n + 1 - 1) with n by lia. apply rounds_read. by rewrite <- Hw.
  - destruct a as [| | | | | | | |answer|answer| | |]; try done; cbn in Hw; destruct Hw as [Hw Hb].
    3:{ destruct (gr_passed r); [|done]. injection Hp as <- <-. destruct answer as [[]|e]; [|destruct (exn_isa _ _); [|done]]; (split; [|done]); split; try done;
        apply says_built; (done || by apply not_unstored). }
    3:{ destruct (gr_passed r); [done|]. injection Hp as <- <-. destruct answer as [d|e]; [|done]. split; [|done]. split; [done|].
        apply says_built; [done|]. by apply not_unstored. }
    all: destruct (handle_step run_id item _ _ _) as [[s1 sn]|] eqn:H; [|done]; injection Hp as <- <-; rewrite (Hh _ _ _ H); done.
  - destruct a; try done. injection Hp as <- <-. done.
  - destruct a; try done. injection Hp as <- <-. cbn in *. destruct Hw as (Hw & Hb & Hsay). split; [|intros ref Href; by rewrite dict_lookup_insert_ne].
    by rewrite dict_lookup_insert_eq.
  - destruct a; try done. injection Hp as <- <-. cbn in *. destruct Hw as [[Hu Hb] Hsay]. split; [|done]. split; [done|]. by rewrite bool_decide_eq_false_2.
Qed.
(** C22: What the swarm returns tells how each item ended: for distinct items, the entry of
    one that ended after a build or a lost claim says its terminal state, and after a build
    its score and its round, one more than the rounds it had burned before, which are the
    retries of its row; the entry of one that the kill switch or the caps stopped is the
    one it had; and no other entry changes. *)
Theorem state_tells P s0 sm : NoDup (wi_ref <$> work) → reachable P s0 sm →
  (∀ i item en, work !! i = Some item → sm_workers sm !! i = Some (Finished en) →
     before item s0 = Ok (en_retries en) ∧
     (if bool_decide (en_state en ∈ unstored) then sh_state (sm_shared sm) !! wi_ref item = sh_state s0 !! wi_ref item
      else says en (sh_state (sm_shared sm) !! wi_ref item))) ∧
  (∀ ref, ref ∉ wi_ref <$> work → sh_state (sm_shared sm) !! ref = sh_state s0 !! ref).
Proof.
  intros Hnd Hr. assert ((∀ i item w, work !! i = Some item → sm_workers sm !! i = Some w → stored_well item s0 w (sh_state (sm_shared sm) !! wi_ref item)) ∧
    (∀ ref, ref ∉ wi_ref <$> work → sh_state (sm_shared sm) !! ref = sh_state s0 !! ref)) as [Hall ?].
  - induction Hr as [|sm i a sm' Hr [Hall Hother] HP Hs].
    + split; [|done]. intros i item w _ Hw. cbn in Hw. apply list_lookup_fmap_Some in Hw as (_ & -> & _). done.
    + destruct (step_cases _ _ _ _ Hs (workers_length _ _ _ Hr)) as (item & w & s' & w' & Hi & Hw & -> & Hcase). cbn [sm_shared sm_workers].
      assert (stored_well item s0 w' (sh_state s' !! wi_ref item) ∧ (∀ ref, ref ≠ wi_ref item → sh_state s' !! ref = sh_state (sm_shared sm) !! ref)) as [Hw' Hrest].
      { destruct Hcase as [(_ & -> & -> & -> & _)|[_ Hp]]; [split; [|done]; by apply (Hall _ _ _ Hi Hw)|]. eapply process_stores; [exact Hp|]. by apply (Hall _ _ _ Hi Hw). }
      split.
      * intros j item' w'' Hj Hw''. destruct (decide (i = j)) as [->|Hij].
        -- assert (item' = item) as -> by congruence. rewrite list_lookup_insert_eq in Hw''; [|by eapply lookup_lt_Some]. by injection Hw'' as <-.
        -- rewrite list_lookup_insert_ne in Hw'' by done. rewrite Hrest; [by apply (Hall j)|]. intros Heq. apply Hij.
           eapply NoDup_lookup; [exact Hnd| |]; rewrite list_lookup_fmap; [by rewrite Hi|by rewrite Hj, <- Heq].
      * intros ref Href. rewrite Hrest; [by apply Hother|]. intros ->. apply Href. apply list_elem_of_fmap. exists item. split; [done|]. by eapply list_elem_of_lookup_2.
  - split; [|done]. intros i item en Hi Hw. exact (Hall _ _ _ Hi Hw).
Qed.

Abbreviation follow := (follow run_id harness enabled registry work workers).
Lemma follow_reachable P s0 schedule sm sm' : reachable P s0 sm → Forall (λ l, P l.2) schedule → follow schedule sm = Some sm' → reachable P s0 sm'.
Proof.
  revert sm. induction schedule as [|[i a] rest IH]; intros sm Hr HP; cbn [Phase2.follow]; [by intros [= <-]|].
  inversion_clear HP. destruct (step i a sm) as [sm1|] eqn:Hs; [|done]. intros Hf. eapply IH; [|done|exact Hf]. by eapply reachable_step.
Qed.
End facts.
