(* ===== verification/Triage.v ===== *)
(** * Triage: how a card becomes a work item

    The quality of a card and its executor, its work grade, the work item and the triage
    of [autocode/orchestrator.py], with the rows of the items that run elsewhere.  A card
    is a JSON object. *)
From S2P Require Import Prelude PyDict PyFloat Canonical Models Store Json PyText Regex JsonLines Control ControlFile Activity ActivityFile Pool Autoscale Grading Buckets RoutingFacts Sensitivity SensitivityFacts AutopilotTypes BuildWorld MergeGate GatedBuild AutopilotRun Phase2.
From Stdlib Require Import Ascii.

Local Open Scope Z_scope.

Section triage.
Context {PF : Platform} {FT : FloatText}.

(** ** The quality of a card *)
Fixpoint first_quality (tags : list json) : result (option QualityMode) :=
  match tags with
  | [] => Ok None
  | t :: rest =>
      s ← as_text "startswith" t;
      if startswith s "quality:" then Ok (Some (coerce_quality (JStr (after_colon s)))) else first_quality rest
  end.
Definition _quality_from_tags (task : list (string * json)) : result (option QualityMode) := tags ← tags_of task; first_quality tags.
Definition _repo_floor (task : list (string * json)) (config : option Config) : result (option QualityMode) :=
  name ← repo_tag task;
  Ok (match name, config with
      | Some n, Some c => if is_empty_str n then None else match cf_repo_map c !! n with Some r => rs_min_quality r | None => None end
      | _, _ => None
      end).
Definition operator_quality_baseline (task : list (string * json)) (config : option Config) : result QualityMode :=
  let q := match config with Some c => cf_default_quality c | None => GATED end in
  floor ← _repo_floor task config;
  Ok (match floor with Some f => if QUALITY_RANK q <? QUALITY_RANK f then f else q | None => q end).
Definition resolve_quality (task : list (string * json)) (config : option Config) : result QualityMode :=
  baseline ← operator_quality_baseline task config;
  tag ← _quality_from_tags task;
  Ok (match tag with Some t => if QUALITY_RANK t <=? QUALITY_RANK baseline then baseline else t | None => baseline end).

(** ** The executor *)
Fixpoint any_repo_tag (tags : list json) : result bool :=
  match tags with
  | [] => Ok false
  | t :: rest => s ← as_text "startswith" t; if startswith s "repo:" then Ok true else any_repo_tag rest
  end.
Definition source_kinds : list (string * string) :=
  [("itil", "ops"); ("email", "research"); ("telegram", "research"); ("order", "orders"); ("calendar", "calendar")].
Definition source_of (task : list (string * json)) : json := default (JStr "coord") (jget "source" task).
Definition classify_kind (task : list (string * json)) (config : option Config) : result string :=
  tags ← tags_of task;
  has_repo ← any_repo_tag tags;
  if has_repo : bool then q ← resolve_quality task config; Ok (if bool_decide (q = DIRECT) then "engineering-direct" else "engineering")
  else match source_of task with
       | JStr s => Ok (default "engineering" (alist_get s source_kinds))
       | JArr _ | JObj _ => Err (Exn TypeError ("unhashable type: '" +:+ type_name (source_of task) +:+ "'"))
       | _ => Ok "engineering"
       end.

(** ** The grade of an assessment, [autocode/adapters/base.py]

    The card that the rules classify before the full card is at hand, and the axes of the
    verdict.  What raises is an axis that is absent; the health records are left out. *)
Definition or_text (j : json) : json := if py_truthy j then j else JStr "".
Definition _brief_as_card (brief : AssessBrief) : json :=
  JObj [("title", or_text (ab_title brief)); ("description", or_text (ab_description brief)); ("acceptance", or_empty (ab_acceptance brief));
    ("tags", or_empty (ab_tags brief)); ("repo", JStr (default "" (ab_repo brief)))].
Definition _grade_axes (out : json) (brief : AssessBrief) : option string * option string * option string :=
  let parsed := match out with
                | JObj _ => match parse_grade (JStr (dumps_ascii true out)) with Ok (Some g) => Some g | _ => None end
                | _ => None
                end in
  (gr_size <$> parsed, gr_risk <$> parsed,
   match classify_sensitivity (_brief_as_card brief) with Ok (sensitivity, _) => Some sensitivity | Err _ => None end).

(** ** The work grade *)
(** [work_grade_for] with the size and the risk of a verdict; what the rules or the table
    refuse is no grade. *)
Definition work_grade_for (task : list (string * json)) (size risk : option string) : option (list (string * json)) :=
  match size, risk with
  | Some size, Some risk =>
      if is_empty_str size || is_empty_str risk then None
      else match classify_sensitivity (JObj task), model_class_for (JStr size) (JStr risk) with
           | Ok (sensitivity, _), Ok model_class =>
               Some [("size", JStr size); ("risk", JStr risk); ("sensitivity", JStr sensitivity); ("model_class", JStr model_class)]
           | _, _ => None
           end
  | _, _ => None
  end.
Fixpoint full_texts (ks : list string) (grade : list (string * json)) : option (list (string * json)) :=
  match ks with
  | [] => Some []
  | k :: rest =>
      match jget_or_none k grade, full_texts rest grade with
      | JStr v, Some more => if is_empty_str v then None else Some ((k, JStr v) :: more)
      | _, _ => None
      end
  end.
Definition stored_work_grade (task : list (string * json)) : option (list (string * json)) :=
  match jget_or_none "meta" task with
  | JObj meta => match jget_or_none "grade" meta with JObj grade => full_texts ["size"; "risk"; "sensitivity"; "model_class"] grade | _ => None end
  | _ => None
  end.

(** ** The work item *)
Definition card_acceptance (task : list (string * json)) : json :=
  let a := jget_or_none "acceptance_criteria" task in
  if py_truthy a then a else let b := jget_or_none "acceptance" task in if py_truthy b then b else JArr [].
(** The identifier of a card is a text; another is not modelled and stands for an error
    here. *)
Definition card_ref (task : list (string * json)) : result string :=
  match jget "id" task with
  | Some (JStr s) => Ok s
  | Some _ => Err (Exn TypeError "id")
  | None => Err (Exn KeyError "'id'")
  end.
Definition _to_workitem (task : list (string * json)) (unblocked : bool) (verdict : string) (config : option Config) (grade : option (list (string * json))) : result WorkItem :=
  let grade := match grade with Some g => Some g | None => stored_work_grade task end in
  q ← resolve_quality task config;
  let payload := jupdate task [("unblocked", JBool unblocked); ("verdict", JStr verdict); ("acceptance", card_acceptance task);
    ("quality", JStr (QualityMode_value q)); ("work_grade", jopt JObj grade)] in
  kind ← classify_kind task config;
  ref ← card_ref task;
  repo ← repo_tag task;
  Ok {| wi_kind := kind; wi_ref := ref; wi_source := source_of task; wi_repo := repo; wi_payload := payload |}.

(** ** Triage *)
Definition is_untriaged (item : WorkItem) : result bool := contained "autopilot-untriaged" (or_empty (payload_field "tags" item)).
Definition no_executor_decision (item : WorkItem) : DecisionItem := {|
  di_qid := stable_qid ("no-exec:" +:+ wi_kind item) (Some (wi_ref item)); di_prompt := "No executor registered for kind '" +:+ wi_kind item +:+ "' (task " +:+ wi_ref item +:+ ").";
  di_options := [("skip", "skip")]; di_action_ref := Some (wi_ref item); di_priority := "medium" |}.
Definition which_repo_decision (item : WorkItem) : DecisionItem := {|
  di_qid := stable_qid "which-repo" (Some (wi_ref item)); di_prompt := "Task " +:+ wi_ref item +:+ " has no known repo:<name>; add to repo_map or route?";
  di_options := [("map", "add-to-repo_map"); ("skip", "skip")]; di_action_ref := Some (wi_ref item); di_priority := "high" |}.
Definition not_selectable_decision (item : WorkItem) : DecisionItem := {|
  di_qid := stable_qid "not-selectable" (Some (wi_ref item));
  di_prompt := "Task " +:+ wi_ref item +:+ " (" +:+ wi_kind item +:+ ") is not autonomously actionable; needs you.";
  di_options := [("take", "take"); ("defer", "defer")]; di_action_ref := Some (wi_ref item); di_priority := "medium" |}.
Definition queue (d : DecisionItem) : prog (list DecisionItem) unit := modify (λ ds, ds ++ [d]).
Definition known_repo (repo_map : dict string RepoSpec) (item : WorkItem) : bool := match wi_repo item with Some r => has_key r repo_map | None => false end.
(** An executor is its [selectable]. *)
Fixpoint phase1_triage (repo_map : dict string RepoSpec) (executors : dict string (WorkItem → result bool)) (candidates : list WorkItem) :
    prog (list DecisionItem) (list WorkItem) :=
  match candidates with
  | [] => mret []
  | item :: rest =>
      untriaged ← lift (is_untriaged item);
      kept ← (if untriaged : bool then mret []
              else match executors !! wi_kind item with
                   | None => queue (no_executor_decision item) ;; mret []
                   | Some selectable =>
                       if bool_decide (wi_kind item = "engineering") && negb (known_repo repo_map item) then queue (which_repo_decision item) ;; mret []
                       else ok ← lift (selectable item); if ok : bool then mret [item] else queue (not_selectable_decision item) ;; mret []
                   end);
      more ← phase1_triage repo_map executors rest;
      mret (kept ++ more)
  end.
(** [build_executors]: the executors of the other kinds are stubs that select nothing. *)
Definition build_executors (config : Config) (stubs : list string) : dict string (WorkItem → result bool) :=
  <["engineering-direct" := direct_selectable config]> (<["engineering" := selectable config]> (Dict (map (λ k, (k, λ _, Ok false)) stubs))).
(** The items that the fleet placed on another node: their state and their rows. *)
Fixpoint record_off_node_rows (run_id : string) (h : Harness) (off_node : list (WorkItem * DispatchDecision)) : prog shared unit :=
  match off_node with
  | [] => mret tt
  | (item, d) :: rest =>
      state ← gets sh_state;
      prior ← lift (_prior_rounds state (wi_ref item));
      modify (with_state (insert (wi_ref item) (JObj [("state", JStr "off-node"); ("node", jopt JStr (dd_node d)); ("reason", JStr (dd_reason d))]))) ;;
      modify (add_row (outcome_row run_id h item "off-node" None prior)) ;;
      record_off_node_rows run_id h rest
  end.
End triage.

(** * A card cannot switch off its own gate

    The quality of a card is never below what the operator configured, phase-0 facts win
    over the text of the card, and triage deals with every candidate once. *)
Local Open Scope Z_scope.

Section facts.
Context {PF : Platform} {FT : FloatText}.

Lemma alist_get_set (k k' : string) (v : json) ms : alist_get k (alist_set k' v ms) = if decide (k' = k) then Some v else alist_get k ms.
Proof. apply (dict_lookup_insert (Dict ms)). Qed.
(** The last change of a key wins. *)
Lemma jget_update k ms patch : jget k (jupdate ms patch) = match alist_get k (rev patch) with Some v => Some v | None => jget k ms end.
Proof.
  unfold jupdate. revert ms. induction patch as [|[k' v] patch IH] using rev_ind; intros ms; [done|].
  rewrite foldl_app, rev_app_distr. cbn [foldl rev app alist_get fst snd]. unfold jget. rewrite alist_get_set.
  destruct (decide (k' = k)); [done|]. apply IH.
Qed.
Lemma rank_raised (b t : QualityMode) : QUALITY_RANK b <= QUALITY_RANK (if QUALITY_RANK t <=? QUALITY_RANK b then b else t).
Proof. destruct (Z.leb_spec (QUALITY_RANK t) (QUALITY_RANK b)); lia. Qed.
(** The operator's baseline sees of a card nothing but its repository. *)
Lemma baseline_of_repo task task' config : repo_tag task' = repo_tag task → operator_quality_baseline task' config = operator_quality_baseline task config.
Proof. unfold operator_quality_baseline, _repo_floor. by intros ->. Qed.

(** The grade that triage gives is the one on the item. *)
Lemma item_graded task unblocked verdict config grade item : _to_workitem task unblocked verdict config (Some grade) = Ok item →
  jget "work_grade" (wi_payload item) = Some (JObj grade).
Proof.
  unfold _to_workitem. cbv zeta. intros H. apply bind_ok in H as (q & _ & H). apply bind_ok in H as (kind & _ & H). apply bind_ok in H as (ref & _ & H).
  apply bind_ok in H as (repo & _ & H). assert (∀ i : WorkItem, Ok i = Ok item → item = i) as Hi by (by intros ? [=]). apply Hi in H as ->.
  cbn [wi_payload]. by rewrite jget_update.
Qed.

(** C23: A card cannot weaken the gate that judges it, nor claim for itself what triage
    found.  Of every card that becomes a work item, the quality that is written on the item
    is at least the operator's baseline, which the settings and the repository of the card
    determine, whatever its tags say; the item goes to the executor without a gate only
    when the operator's own baseline is not gated, and then its quality says so; and the
    fields that say that the item is unblocked, what its verdict is and how it is graded
    are those of triage even when the card has fields of these names. *)
Theorem card_cannot_weaken_gate task unblocked verdict config grade item :
  _to_workitem task unblocked verdict config grade = Ok item →
  (∃ baseline q, (∀ task', repo_tag task' = repo_tag task → operator_quality_baseline task' config = Ok baseline) ∧
     QUALITY_RANK baseline <= QUALITY_RANK q ∧ payload_field "quality" item = JStr (QualityMode_value q) ∧
     (wi_kind item = "engineering-direct" → q = DIRECT ∧ baseline ≠ GATED)) ∧
  payload_field "unblocked" item = JBool unblocked ∧ payload_field "verdict" item = JStr verdict ∧
  payload_field "work_grade" item = jopt JObj (match grade with Some g => Some g | None => stored_work_grade task end) ∧
  repo_tag task = Ok (wi_repo item).
Proof.
  unfold _to_workitem. cbv zeta. intros H. apply bind_ok in H as (q & Hq & H). apply bind_ok in H as (kind & Hkind & H). apply bind_ok in H as (ref & _ & H).
  apply bind_ok in H as (repo & Hrepo & [= <-]). cbn [wi_kind wi_repo].
  set (patch := [("unblocked", JBool unblocked); ("verdict", JStr verdict); ("acceptance", card_acceptance task);
    ("quality", JStr (QualityMode_value q)); ("work_grade", jopt JObj match grade with Some g => Some g | None => stored_work_grade task end)]).
  assert (∀ k v, alist_get k (rev patch) = Some v →
    payload_field k {| wi_kind := kind; wi_ref := ref; wi_source := source_of task; wi_repo := repo; wi_payload := jupdate task patch |} = v) as Hf.
  { intros k v Hv. unfold payload_field, jget_or_none. cbn [wi_payload]. by rewrite jget_update, Hv. }
  split; [|split; [exact (Hf "unblocked" _ eq_refl)|]; split; [exact (Hf "verdict" _ eq_refl)|]; split; [exact (Hf "work_grade" _ eq_refl)|done]]. unfold resolve_quality in Hq. apply bind_ok in Hq as (baseline & Hb & Hq). apply bind_ok in Hq as (tag & Htag & [= Hq]).
  exists baseline, q. split; [intros task' Ht; by rewrite (baseline_of_repo task task')|]. split; [|split; [exact (Hf "quality" _ eq_refl)|]].
  - rewrite <- Hq. destruct tag; [apply rank_raised|lia].
  - intros ->. unfold classify_kind in Hkind. apply bind_ok in Hkind as (tags & _ & Hkind). apply bind_ok in Hkind as ([|] & _ & Hkind).
    + apply bind_ok in Hkind as (q' & Hq' & [= Hkind]). unfold resolve_quality in Hq'. rewrite Hb in Hq'. cbn in Hq'. rewrite Htag in Hq'. cbn in Hq'.
      assert (q' = q) as -> by congruence. destruct (bool_decide (q = DIRECT)) eqn:Hd; [|done]. apply bool_decide_eq_true in Hd. split; [done|].
      intros ->. rewrite <- Hq in Hd. destruct tag as [[]|]; done.
    + exfalso. destruct (source_of task) as [| | | |s| |]; try done. injection Hkind as Hkind. unfold source_kinds in Hkind. cbn [alist_get] in Hkind.
      repeat (destruct (decide _); [done|]). done.
Qed.

(** ** From a grading reply to a bucket *)
Lemma axes_legal out brief : let '(size, risk, _) := _grade_axes out brief in
  (size = None ∧ risk = None) ∨ ∃ sz rk, size = Some sz ∧ risk = Some rk ∧ sz ∈ SIZE_VALUES ∧ rk ∈ RISK_VALUES.
Proof.
  unfold _grade_axes. cbv zeta. destruct out as [| | | | | |ms]; try by left.
  pose proof (parse_grade_outcomes (JStr (dumps_ascii true (JObj ms)))) as H. destruct (parse_grade _) as [[g|]|]; [|by left..].
  right. destruct H as (? & ? & _). eauto 6.
Qed.
Lemma classified_value task z reasons : classify_sensitivity (JObj task) = Ok (z, reasons) → z ∈ SENSITIVITY_VALUES.
Proof.
  destruct (_read_override task) as [[mark|]|e] eqn:Ho; [| |unfold classify_sensitivity; by rewrite Ho].
  - unfold classify_sensitivity. rewrite Ho. cbn [mbind result_bind]. intros [= <- _]. by eapply override_value.
  - destruct (classify_unmarked task Ho) as (s & rs & -> & _ & Hc). intros [= <- _]. destruct Hc as [(-> & _)|(-> & _)]; set_solver.
Qed.
Lemma zone_legal z : z ∈ SENSITIVITY_VALUES → z ∈ BUCKET_SENSITIVITIES ∧ py_lower (strip z) = z ∧ is_empty_str z = false ∧
  ∀ c, c ∈ BUCKET_CLASSES → is_wider_than "sk-s-secret" (bucket_text c z) = Ok false.
Proof.
  intros Hz%list_elem_of_In. cbn in Hz. destruct_or! Hz; try done; subst; (split; [apply list_elem_of_In; cbn; tauto|]); (split; [done|]); (split; [done|]);
    intros c Hc%list_elem_of_In; cbn in Hc; destruct_or! Hc; try done; subst; reflexivity.
Qed.
Lemma work_grade_cases task size risk :
  (size = None ∧ risk = None) ∨ (∃ sz rk, size = Some sz ∧ risk = Some rk ∧ sz ∈ SIZE_VALUES ∧ rk ∈ RISK_VALUES) →
  match work_grade_for task size risk with
  | None => (size = None ∧ risk = None) ∨ ∃ e, classify_sensitivity (JObj task) = Err e
  | Some grade => ∃ sz rk c zone reasons, size = Some sz ∧ risk = Some rk ∧ sz ∈ SIZE_VALUES ∧ rk ∈ RISK_VALUES ∧
      classify_sensitivity (JObj task) = Ok (zone, reasons) ∧ model_class_for (JStr sz) (JStr rk) = Ok c ∧
      grade = [("size", JStr sz); ("risk", JStr rk); ("sensitivity", JStr zone); ("model_class", JStr c)]
  end.
Proof.
  intros [[-> ->]|(sz & rk & -> & -> & Hs & Hr)]; [by left|]. unfold work_grade_for.
  assert (is_empty_str sz || is_empty_str rk = false) as ->
    by (apply list_elem_of_In in Hs, Hr; cbn in Hs, Hr; destruct_or! Hs; destruct_or! Hr; subst; done).
  destruct (class_of_grade _ _ Hs Hr) as (s & r & c & _ & _ & _ & Hc & _).
  destruct (classify_sensitivity (JObj task)) as [[zone reasons]|e] eqn:Hz; [|by right; exists e].
  rewrite Hc. by exists sz, rk, c, zone, reasons.
Qed.

(** C39: A grading reply routes its card by size and risk, and never by the sensitivity
    that it proposes.  Whatever object the harness answers, the card has no work grade
    only when no grade could be read or when the mark on the card is not a value of the
    vocabulary.  Otherwise its class is that of the larger of the ranks of size and risk,
    its sensitivity is what the rules say of the full card, and every work item made of
    the card with that grade is addressed to the bucket of that class and that
    sensitivity; the bucket an ungraded card may get is not wider, and a run that is
    served by any bucket is reported escalated exactly when the class that served
    outranks both size and risk. *)
Theorem graded_reply_routes task out brief :
  let '(size, risk, _) := _grade_axes out brief in
  match work_grade_for task size risk with
  | None => (size = None ∧ risk = None) ∨ ∃ e, classify_sensitivity (JObj task) = Err e
  | Some grade => ∃ sz rk s r c zone reasons,
      size = Some sz ∧ risk = Some rk ∧ SIZE_RANK !! sz = Some s ∧ RISK_RANK !! rk = Some r ∧
      CLASS !! Z.to_nat (Z.max s r) = Some c ∧ classify_sensitivity (JObj task) = Ok (zone, reasons) ∧
      grade = [("size", JStr sz); ("risk", JStr rk); ("sensitivity", JStr zone); ("model_class", JStr c)] ∧
      (∀ unblocked verdict config item, _to_workitem task unblocked verdict config (Some grade) = Ok item →
         bucket_for_payload (JObj (wi_payload item)) = Ok (Some (bucket_text (py_lower c) zone))) ∧
      is_wider_than "sk-s-secret" (bucket_text (py_lower c) zone) = Ok false ∧
      ∀ c' z', c' ∈ BUCKET_CLASSES → z' ∈ BUCKET_SENSITIVITIES →
        classify (JObj grade) (JStr (bucket_text c' z')) =
          [("escalation_state", JStr (if Z.max s r <? default 0 (CLASS_RANK !! c') then ESCALATED else WITHIN_FLOOR));
           ("escalation_floor_class", JStr (py_lower c)); ("escalation_served_class", JStr c')]
  end.
Proof.
  pose proof (axes_legal out brief) as Ha. destruct (_grade_axes out brief) as [[size risk] w]. apply work_grade_cases with (task := task) in Ha.
  destruct (work_grade_for task size risk) as [grade|]; [|done].
  destruct Ha as (sz & rk & c' & zone & reasons & -> & -> & Hs & Hr & Hz & Hc' & ->).
  destruct (class_of_grade _ _ Hs Hr) as (s & r & c & Es & Er & Ec & Em & Estrip & Erank & Hin). assert (c' = c) as -> by congruence.
  exists sz, rk, s, r, c, zone, reasons. destruct (zone_legal _ (classified_value _ _ _ Hz)) as (Hz' & Ez & _ & Hw).
  do 7 (split; [done|]). split; [|split; [by apply Hw|]].
  - intros unblocked verdict config item Hi. assert (jget "work_grade" (wi_payload item) =
      Some (JObj [("size", JStr sz); ("risk", JStr rk); ("sensitivity", JStr zone); ("model_class", JStr c)])) as Hg by (by eapply item_graded).
    unfold bucket_for_payload, work_grade. rewrite Hg.
    change (bucket_for_grade _) with (bucket_id (JStr c) (JStr zone)).
    enough (bucket_id (JStr c) (JStr zone) = Ok (bucket_text (py_lower c) zone)) as -> by done.
    apply bucket_id_ok. exists c, zone. rewrite Estrip, Ez. done.
  - intros c' z' Hcc Hzz. unfold classify. assert (floor_class (JObj [("size", JStr sz); ("risk", JStr rk); ("sensitivity", JStr zone); ("model_class", JStr c)]) = Some (py_lower c)) as ->.
    { unfold floor_class. change (jget "model_class" _) with (Some (JStr c)). cbv beta iota zeta. rewrite Estrip. unfold has_key.
      rewrite bool_decide_eq_true_2; [done|]. rewrite Erank. by eexists. }
    rewrite (state_of_bucket c' z' _ _ Hcc Hzz Erank). cbn [jopt]. by rewrite (served_of_bucket c' z').
Qed.

(** ** Triage *)
Definition dealt (repo_map : dict string RepoSpec) (executors : dict string (WorkItem → result bool)) (item : WorkItem) (kept : list WorkItem) (ds : list DecisionItem) : Prop :=
  (is_untriaged item = Ok true ∧ kept = [] ∧ ds = []) ∨
  (is_untriaged item = Ok false ∧ kept = [] ∧ ∃ d, ds = [d] ∧ di_action_ref d = Some (wi_ref item)) ∨
  (is_untriaged item = Ok false ∧ kept = [item] ∧ ds = [] ∧ (wi_kind item = "engineering" → known_repo repo_map item = true) ∧
     ∃ selectable, executors !! wi_kind item = Some selectable ∧ selectable item = Ok true).
Lemma triage_dealt repo_map executors candidates ds ds' sel : phase1_triage repo_map executors candidates ds = (ds', Ok sel) →
  ∃ parts, Forall2 (λ item p, dealt repo_map executors item p.1 p.2) candidates parts ∧ sel = concat (fst <$> parts) ∧ ds' = ds ++ concat (snd <$> parts).
Proof.
  revert ds ds' sel. induction candidates as [|item rest IH]; intros ds ds' sel; cbn [phase1_triage].
  - intros [= <- <-]. exists []. rewrite app_nil_r. split; [constructor|done].
  - intros H. rewrite prog_bind_eq in H. unfold lift at 1 in H. destruct (is_untriaged item) as [u|] eqn:Hu; [|done]. cbv beta iota in H.
    rewrite prog_bind_eq in H. destruct (_ ds) as [ds1 [kept|]] eqn:Hk in H; [|done]. rewrite prog_bind_eq in H.
    destruct (phase1_triage repo_map executors rest ds1) as [ds2 [more|]] eqn:Hm; [|done]. injection H as <- <-. apply IH in Hm as (parts & Hp & -> & ->).
    assert (∃ new, ds1 = ds ++ new ∧ dealt repo_map executors item kept new) as (new & -> & Hd).
    { destruct u; [injection Hk as <- <-; exists []; rewrite app_nil_r; split; [done|by left]|].
      assert (∀ d, di_action_ref d = Some (wi_ref item) → (queue d ;; mret []) ds = (ds1, Ok kept) → ∃ new, ds1 = ds ++ new ∧ dealt repo_map executors item kept new) as Hq.
      { intros d Hd [= <- <-]. exists [d]. split; [done|]. right. left. eauto. }
      destruct (executors !! wi_kind item) as [selectable|] eqn:He; [|by eapply Hq; [|exact Hk]].
      destruct (bool_decide (wi_kind item = "engineering") && negb (known_repo repo_map item)) eqn:Hr; [by eapply Hq; [|exact Hk]|].
      rewrite prog_bind_eq in Hk. unfold lift in Hk. destruct (selectable item) as [[|]|] eqn:Hs; [|by eapply Hq; [|exact Hk]|done].
      injection Hk as <- <-. exists []. rewrite app_nil_r. split; [done|]. right. right. split; [done|]. do 2 (split; [done|]). split; [|by exists selectable].
      intros Hkind. apply andb_false_iff in Hr as [Hr|Hr]; [by apply bool_decide_eq_false in Hr|]. by apply negb_false_iff. }
    exists ((kept, new) :: parts). split; [by constructor|]. cbn. by rewrite (assoc_L (++)).
Qed.
Lemma selectable_when_true config deliverable item : selectable_when config deliverable item = Ok true →
  py_truthy (payload_field "unblocked" item) = true ∧ payload_field "verdict" item = JStr "valid" ∧ (∃ repo, resolve_repo config item = Ok (Some repo)) ∧ deliverable = Ok true.
Proof.
  unfold selectable_when. destruct (py_truthy _); [|done]. destruct (bool_decide (payload_field "verdict" item = JStr "valid")) eqn:Hv; [|done].
  apply bool_decide_eq_true in Hv. cbn [negb]. destruct (contained _ _) as [[|]|]; try done. destruct (resolve_repo config item) as [[repo|]|]; try done. eauto 6.
Qed.

(** Triage deals with every candidate once.  With the executors of a run, each
    candidate is passed over because it is untriaged, or selected, or answered with one
    decision that names it, in the order of the candidates; and what is selected has an
    executor that builds, is unblocked and judged valid, belongs to exactly one repository
    of the settings, and says what is to be done: criteria or a deliverable for the gated
    executor, a description for the direct one. *)
Theorem triage_exact config stubs candidates ds ds' sel :
  phase1_triage (cf_repo_map config) (build_executors config stubs) candidates ds = (ds', Ok sel) →
  (∃ parts, Forall2 (λ item p, (is_untriaged item = Ok true ∧ p = ([], [])) ∨
       (is_untriaged item = Ok false ∧ (p = ([item], []) ∨ ∃ d, p = ([], [d]) ∧ di_action_ref d = Some (wi_ref item)))) candidates parts ∧
     sel = concat (fst <$> parts) ∧ ds' = ds ++ concat (snd <$> parts)) ∧
  (∀ item, item ∈ sel → wi_kind item ∈ ["engineering"; "engineering-direct"] ∧ py_truthy (payload_field "unblocked" item) = true ∧
     payload_field "verdict" item = JStr "valid" ∧ (∃ repo, resolve_repo config item = Ok (Some repo)) ∧
     (wi_kind item = "engineering" → known_repo (cf_repo_map config) item = true ∧
        (py_truthy (payload_field "acceptance" item) || py_truthy (payload_field "deliverable" item)) = true) ∧
     (wi_kind item = "engineering-direct" → ∃ d, payload_field "description" item = JStr d ∧ is_empty_str (strip d) = false)).
Proof.
  intros H. destruct (triage_dealt _ _ _ _ _ _ H) as (parts & Hp & -> & ->). split.
  - exists parts. split; [|done]. eapply Forall2_impl; [exact Hp|]. intros item [kept new]. cbn.
    intros [(? & -> & ->)|[(? & -> & d & -> & ?)|(? & -> & -> & _)]]; [by left|right; eauto|right; eauto].
  - intros item Hin. rewrite list_elem_of_In, in_concat in Hin. destruct Hin as (kept & Hkept & Hin). apply list_elem_of_In, list_elem_of_fmap in Hkept as (p & -> & Hpart).
    apply list_elem_of_lookup in Hpart as [i Hi]. destruct (Forall2_lookup_r _ _ _ _ _ Hp Hi) as (x & _ & Hd).
    destruct Hd as [(_ & Hk & _)|[(_ & Hk & _)|(_ & Hk & _ & Hknown & selectable & He & Hs)]]; rewrite Hk in Hin; try done. destruct Hin as [->|[]].
    unfold build_executors in He. rewrite !dict_lookup_insert in He. destruct (decide ("engineering-direct" = wi_kind item)) as [Hkind|].
    + injection He as <-. apply selectable_when_true in Hs as (? & ? & ? & Hd). split; [rewrite <- Hkind; right; left|]. do 3 (split; [done|]). rewrite <- Hkind. split; [done|]. intros _.
      apply bind_ok in Hd as (d & Ht & [= Hd]). apply negb_true_iff in Hd. destruct (py_truthy (payload_field "description" item)); [|by injection Ht as <-].
      destruct (payload_field "description" item); try done. injection Ht as <-. eauto.
    + destruct (decide ("engineering" = wi_kind item)) as [Hkind|].
      * injection He as <-. apply selectable_when_true in Hs as (? & ? & ? & [= Hd]). split; [rewrite <- Hkind; left|]. do 3 (split; [done|]). split; [|intros Hbad; congruence].
        intros _. split; [by apply Hknown|done].
      * exfalso. assert (∀ ks, Dict (map (λ k, (k, λ _ : WorkItem, Ok false)) ks) !! wi_kind item = Some selectable → selectable item = Ok false) as Hstub.
        { intros ks. unfold lookup, dict_lookup. cbn [items]. induction ks as [|k ks IH]; cbn; [done|]. destruct (decide (k = wi_kind item)); [by intros [= <-]|done]. }
        apply Hstub in He. congruence.
Qed.
End facts.
