(* ===== verification/ArenaSamples.v ===== *)
(** * The arena at concrete inputs

    One module per component: the witnesses of its theorems, and the runs that show a
    defect. *)
From S2P Require Prelude Orders PyDict PyFloat PyStats Canonical Sample Models Store Metrics MetricsFacts Verifier VerifierFacts LeaseScheduler LeaseSchedulerFacts Access Lineage ArenaMetrics Controller ControllerFacts Status StatusFacts JsonLines Catalog CatalogFacts Refinement RefinementFacts.
From stdpp Require Import pretty.
From stdpp Require Import countable.
From Stdlib Require Import Ascii.
From stdpp Require Import countable relations.

(** * A scheduler at work

    Witnesses of the scheduler's theorems on a concrete run, and the run that
    shows what rounding does to a float capacity. *)
Module SchedulerSample.
Import Prelude PyDict PyFloat Canonical LeaseScheduler LeaseSchedulerFacts.
Local Open Scope Z_scope.

#[export] Instance sample_entropy : Entropy.
Proof.
  refine {| uuid4_hex n := pretty n |}.
  intros n H. change "" with (pretty_N_go 0 "") in H. unfold pretty, pretty_nat in H.
  unfold pretty, pretty_N in H. case_decide; [done|].
  destruct (decide (N.of_nat n = 0%N)); [done|]. rewrite pretty_N_go_step in H by lia.
  assert (∀ x s, s ≠ "" → pretty_N_go x s ≠ "") as Hgo.
  { intros x. induction (N.lt_wf_0 x) as [x _ IH]. intros s Hs.
    destruct (decide (0 < x)%N); [|by replace x with 0%N by lia].
    rewrite pretty_N_go_step by lia. apply IH; [apply N.div_lt; lia|done]. }
  by eapply Hgo in H.
Defined.

Definition sample_clock (n : nat) : float := Z.of_nat n * f_unit.
Lemma sample_clock_mono m n : (m ≤ n)%nat → sample_clock m <= sample_clock n.
Proof. unfold sample_clock. assert (0 < f_unit) by (by vm_compute). nia. Qed.

Definition sample_capacity : ResourceRequest := {|
  cpu := f_of_Z 4; ram_gb := f_of_Z 8; gpu := 2; vram_gb := f_of_Z 16; gateway_slots := 3;
  budget_units := f_of_Z 10; verifier_slots := 1 |}.
Definition sample_request (key : string) (gpus : Z) : AttemptRequest := {|
  ar_challenge_id := "c"; ar_experiment_id := "e"; ar_attempt_id := "a"; ar_idempotency_key := key;
  ar_resources := {| cpu := f_unit; ram_gb := f_unit; gpu := gpus; vram_gb := 0; gateway_slots := 1;
                     budget_units := 0; verifier_slots := 0 |} |}.
Definition sample_sched0 : LeaseScheduler := {|
  capacity := sample_capacity; lease_ttl_s := f_of_Z 5; _leases := ∅; _by_key := ∅;
  ticks := 0; next_obj := 0 |}.
Definition sample_sched1 : LeaseScheduler := (admit_ sample_clock (sample_request "k" 2) sample_sched0).1.
Definition sample_cancel (s : LeaseScheduler) : LeaseScheduler := (cancel "0" s).1.
Definition sample_sched2 : LeaseScheduler := sample_cancel sample_sched1.

Lemma sample_valid : valid_request (sample_request "k" 2).
Proof. by split; vm_compute. Qed.
Lemma sample_step1 : sched_step sample_clock sample_sched0 sample_sched1.
Proof. eexists. split; [apply (call_admit _ (sample_request "k" 2)), sample_valid|done]. Qed.
Lemma sample_cancel_call : sched_call sample_clock sample_cancel.
Proof. exact (call_cancel sample_clock "0"). Qed.
Lemma sample_step2 : sched_step sample_clock sample_sched1 sample_sched2.
Proof. unfold sample_sched2. exists sample_cancel. split; [exact sample_cancel_call|reflexivity]. Qed.
Lemma sample_ticks2 : ticks sample_sched2 = 2%nat.
Proof. by vm_compute. Qed.
Lemma sample_dead : ∃ l, _leases sample_sched2 !! "0" = Some l ∧
  active l (sample_clock (ticks sample_sched2)) = false.
Proof. rewrite sample_ticks2. vm_compute. eexists. split; reflexivity. Qed.
Lemma sample_live : ∃ l, _leases sample_sched1 !! "0" = Some l ∧ active l (sample_clock 3) = true.
Proof. vm_compute. eexists. split; reflexivity. Qed.
Lemma sample_reachable0 : sched_reachable sample_clock sample_capacity (f_of_Z 5) sample_sched0.
Proof. split; [by vm_compute|]. exists sample_sched0. split; [by vm_compute|done]. Qed.
Lemma sample_reachable1 : sched_reachable sample_clock sample_capacity (f_of_Z 5) sample_sched1.
Proof.
  split; [by vm_compute|]. exists sample_sched0. split; [by vm_compute|].
  apply rtc_once, sample_step1.
Qed.
Lemma sample_reachable2 : sched_reachable sample_clock sample_capacity (f_of_Z 5) sample_sched2.
Proof.
  destruct sample_reachable1 as (Hc & s0 & H0 & Hs). split; [done|]. exists s0. split; [done|].
  exact (rtc_r _ _ _ Hs sample_step2).
Qed.

Lemma capacity_never_exceeded_witness :
  in_use sample_clock gpu 3 sample_sched1 = 2 ∧ in_use sample_clock gpu 3 sample_sched1 <= 2.
Proof.
  split; [vm_compute; reflexivity|].
  exact (capacity_never_exceeded _ sample_clock_mono _ _ _ gpu 3 sample_reachable1 dim_gpu
    ltac:(vm_compute; lia)).
Defined.

Lemma one_live_lease_per_key_witness :
  ∃ l, _leases sample_sched1 !! "0" = Some l ∧ _by_key sample_sched1 !! lease_key l = Some "0".
Proof.
  destruct sample_live as (l & Hl & Ha). exists l. split; [exact Hl|].
  exact (proj2 (one_live_lease_per_key _ sample_clock_mono _ _ _ "0" "0" l l 3 sample_reachable1
    Hl Hl eq_refl ltac:(vm_compute; lia) Ha Ha)).
Defined.

Lemma admit_outcomes_witness :
  new_outcome (sample_request "k" 2) (sample_clock 0) sample_sched0
    (admit_ sample_clock (sample_request "k" 2) sample_sched0).
Proof. exact (admit_outcomes _ sample_clock_mono _ _ _ _ sample_reachable0 sample_valid). Defined.

Lemma dead_lease_stays_dead_witness :
  ∃ l, _leases sample_sched2 !! "0" = Some l ∧ active l (sample_clock 7) = false.
Proof.
  destruct sample_dead as (l & Hl & Hd). exists l. split; [exact Hl|].
  exact (proj2 (dead_lease_stays_dead _ sample_clock_mono _ _ _ _ "0" l l 7 sample_reachable2
    (rtc_refl _ _) Hl Hd Hl ltac:(rewrite sample_ticks2; lia))).
Defined.

Lemma reclaim_expired_exact_witness :
  ∃ s' ls, reclaim_expired sample_clock sample_sched1 = (s', Ok ls).
Proof.
  destruct (reclaim_expired_exact _ sample_clock_mono _ _ _ sample_reachable1) as (s' & ls & H & _).
  exists s', ls. exact H.
Defined.

(** Rounding can carry the sum of admitted float requests past the capacity:
    after two admissions that both fit, [available] is negative, and every
    further call of [admit] with a fresh key raises instead of answering. *)
Definition round_request (key : string) (c : float) : AttemptRequest := {|
  ar_challenge_id := "c"; ar_experiment_id := "e"; ar_attempt_id := "a"; ar_idempotency_key := key;
  ar_resources := {| cpu := c; ram_gb := 0; gpu := 0; vram_gb := 0; gateway_slots := 0;
                     budget_units := 0; verifier_slots := 0 |} |}.
Definition round_sched : LeaseScheduler := {|
  capacity := ar_resources (round_request "" ((2 ^ 53 + 6) * 2 ^ 1021));
  lease_ttl_s := f_of_Z 100; _leases := ∅; _by_key := ∅; ticks := 0; next_obj := 0 |}.
Lemma rounding_breaks_admission :
  let a1 := admit_ sample_clock (round_request "a" (3 * 2 ^ 1021)) round_sched in
  let a2 := admit_ sample_clock (round_request "b" ((2 ^ 53 + 4) * 2 ^ 1021)) a1.1 in
  let a3 := admit_ sample_clock (round_request "c" 0) a2.1 in
  (∃ l, a1.2 = Ok (adm_granted false l)) ∧ (∃ l, a2.2 = Ok (adm_granted false l)) ∧
  a3.2 = Err (Exn ValueError "cpu must be non-negative").
Proof. vm_compute. split_and!; [eexists; reflexivity..|reflexivity]. Qed.
End SchedulerSample.

(** * Concrete codecs and a concrete store

    The store's theorems hold for every JSON codec with the laws of [EventCodec]
    and [RecordCodec].  This file gives one that satisfies them, the digits of a
    countable encoding closed by a full stop, and runs the theorems on it. *)
Module StoreSample.
Import Prelude PyDict PyFloat Canonical Sample Models Store.
(** ** Countable models *)
Fixpoint json_tree (j : json) : gen_tree (bool + Z + string) :=
  match j with
  | JNull => GenNode 0 []
  | JBool b => GenNode 1 [GenLeaf (inl (inl b))]
  | JInt z => GenNode 2 [GenLeaf (inl (inr z))]
  | JFloat f => GenNode 3 [GenLeaf (inl (inr f))]
  | JStr s => GenNode 4 [GenLeaf (inr s)]
  | JArr xs => GenNode 5 (map json_tree xs)
  | JObj ms => GenNode 6 (map (λ m, GenNode 7 [GenLeaf (inr m.1); json_tree m.2]) ms)
  end.
Fixpoint tree_json (t : gen_tree (bool + Z + string)) : json :=
  match t with
  | GenNode 1 [GenLeaf (inl (inl b))] => JBool b
  | GenNode 2 [GenLeaf (inl (inr z))] => JInt z
  | GenNode 3 [GenLeaf (inl (inr f))] => JFloat f
  | GenNode 4 [GenLeaf (inr s)] => JStr s
  | GenNode 5 ts => JArr (map tree_json ts)
  | GenNode 6 ts => JObj (map (λ t, match t with
      | GenNode 7 [GenLeaf (inr k); t'] => (k, tree_json t') | _ => ("", JNull) end) ts)
  | _ => JNull
  end.
Lemma tree_json_tree j : tree_json (json_tree j) = j.
Proof.
  revert j. fix IH 1. intros [| | | | |xs|ms]; simpl; try done; f_equal.
  - induction xs as [|x xs IHl]; simpl; [done|]. by rewrite IH, IHl.
  - induction ms as [|[k m] ms IHl]; simpl; [done|]. by rewrite IH, IHl.
Qed.
#[export] Instance json_countable : Countable json := inj_countable' json_tree tree_json tree_json_tree.

#[export] Instance ExperimentState_countable : Countable ExperimentState.
Proof.
  refine (inj_countable' (λ s, match s with PROPOSED => 0 | ADMITTED => 1 | RUNNING => 2
    | PROVISIONAL => 3 | VERIFYING => 4 | VALID => 5 | INVALID => 6 | INCONCLUSIVE => 7
    | FAILED => 8 | CANCELLED => 9 end)
    (λ n, match n with 0 => PROPOSED | 1 => ADMITTED | 2 => RUNNING | 3 => PROVISIONAL
    | 4 => VERIFYING | 5 => VALID | 6 => INVALID | 7 => INCONCLUSIVE | 8 => FAILED
    | _ => CANCELLED end) _)%nat. by intros [].
Defined.
#[export] Instance datetime_countable : Countable datetime.
Proof.
  refine (inj_countable' (λ t, match t with Naive z => inl z | Aware z => inr z end)
    (λ t, match t with inl z => Naive z | inr z => Aware z end) _). by intros [].
Defined.
#[export] Instance Provenance_countable : Countable Provenance.
Proof.
  refine (inj_countable'
    (λ p, (pv_actor p, pv_node p, pv_session_id p, pv_action p, pv_target p,
           pv_observed_prior_state p, pv_signature p))
    (λ '(a, b, c, d, e, f, g), Build_Provenance a b c d e f g) _). by intros [].
Defined.
#[export] Instance ExperimentEvent_countable : Countable ExperimentEvent.
Proof.
  refine (inj_countable'
    (λ e, (ev_event_id e, ev_writer_id e, ev_sequence e, ev_experiment_id e, ev_attempt e,
           ev_from_state e, ev_to_state e, ev_timestamp e, ev_provenance e, ev_payload e,
           ev_prior_event_hash e, ev_event_hash e))
    (λ '(a, b, c, d, e, f, g, h, i, j, k, l), Build_ExperimentEvent a b c d e f g h i j k l) _).
  by intros [].
Defined.
#[export] Instance BudgetSpec_eq_dec : EqDecision BudgetSpec.
Proof. solve_decision. Defined.
#[export] Instance BudgetSpec_countable : Countable BudgetSpec.
Proof.
  refine (inj_countable'
    (λ b, (bs_wall_seconds b, bs_token_limit b, bs_cost_limit b, bs_energy_joules b, bs_concurrency b))
    (λ '(a, b, c, d, e), Build_BudgetSpec a b c d e) _). by intros [].
Defined.
#[export] Instance ArtifactRef_countable : Countable ArtifactRef.
Proof.
  refine (inj_countable' (λ a, (ar_digest a, ar_media_type a, ar_size a, ar_role a))
    (λ '(a, b, c, d), Build_ArtifactRef a b c d) _). by intros [].
Defined.
#[export] Instance Experiment_eq_dec : EqDecision Experiment.
Proof. solve_decision. Defined.
#[export] Instance Experiment_countable : Countable Experiment.
Proof.
  refine (inj_countable'
    (λ e, (ex_id e, ex_attempt e, ex_parent_id e, ex_reproduces_id e, ex_changed_dimensions e,
      ex_challenge_hash e, ex_actor e, ex_harness e, ex_card_id e, ex_run_id e,
      ex_repository_url e, ex_repository_base_sha e, ex_repository_result_sha e,
      (ex_image_digest e, ex_sbom_digest e, ex_requested_route e, ex_requested_model e,
       ex_served_model e, ex_gateway_request_id e, ex_gateway_backend_id e, ex_configuration e,
       ex_seeds e, ex_hardware_telemetry e, ex_budgets e, ex_created_at e, ex_artifacts e)))
    (λ '(a, b, c, d, e, f, g, h, i, j, k, l, m, (n, o, p, q, r, s, t, u, v, w, x, y, z)),
      Build_Experiment a b c d e f g h i j k l m n o p q r s t u v w x y z) _). by intros [].
Defined.

(** ** Digits closed by a full stop *)
Fixpoint pos_digits (p : positive) : string :=
  match p with
  | xH => "."
  | xO p => String "0" (pos_digits p)
  | xI p => String "1" (pos_digits p)
  end.
Fixpoint digits_pos (s : string) : positive :=
  match s with
  | String c s =>
      if Ascii.eqb c "0" then xO (digits_pos s)
      else if Ascii.eqb c "1" then xI (digits_pos s) else xH
  | EmptyString => xH
  end.
Lemma digits_pos_digits p t : digits_pos (pos_digits p +:+ t) = p.
Proof. induction p as [p IH|p IH|]; [..|done]; cbn [pos_digits]; rewrite str_app_cons; simpl; by rewrite IH. Qed.

Section codec.
Context {A : Type} `{Countable A} (validate : A → result A).
Definition text_of (a : A) : string := pos_digits (encode a).
Definition of_text (s : string) : option A :=
  a ← decode (digits_pos s);
  if bool_decide (s = text_of a ∨ s = text_of a +:+ String nl "") then
    match validate a with Ok _ => Some a | Err _ => None end
  else None.

Lemma of_text_digits a t :
  (t = "" ∨ t = String nl "") → validate a = Ok a → of_text (text_of a +:+ t) = Some a.
Proof.
  intros Ht Hv. unfold of_text, text_of. rewrite digits_pos_digits, decode_encode. simpl.
  rewrite bool_decide_true by (destruct Ht as [-> | ->]; [left; apply str_app_nil_r|by right]).
  by rewrite Hv.
Qed.
Lemma text_of_stop a s k :
  k < String.length (text_of a) → String.substring 0 k (text_of a) ≠ pos_digits s +:+ "" ∧
    String.substring 0 k (text_of a) ≠ pos_digits s +:+ String nl "".
Proof.
  unfold text_of. generalize (encode a) as p. revert k s.
  assert (∀ k p q t, k < String.length (pos_digits p) →
    String.substring 0 k (pos_digits p) ≠ pos_digits q +:+ t) as Hgen; [|by eauto].
  intros k p. revert k. induction p as [p IH|p IH|]; simpl; intros [|k] q t Hk;
    try (by destruct q); try lia;
    destruct q; cbn [pos_digits]; rewrite str_app_cons; intros Heq; simplify_eq;
    eapply IH, Heq; lia.
Qed.
End codec.

#[export] Instance sample_event_codec : EventCodec.
Proof.
  refine {| event_dump_json := text_of; event_parse_json := of_text validate_ExperimentEvent |}.
  - intros e. unfold text_of. induction (encode e); simpl; done.
  - intros e. unfold text_of. by destruct (encode e).
  - intros e Hv. apply of_text_digits; [by right|done].
  - intros e Hv. rewrite <- (str_app_nil_r (text_of e)). apply of_text_digits; [by left|done].
  - intros e k Hk. unfold of_text. destruct (decode _) as [e'|]; [|done]. cbn [mbind option_bind].
    destruct (text_of_stop e (encode e') k Hk) as [H1 H2]. rewrite str_app_nil_r in H1.
    rewrite bool_decide_false; [done|]. intros [?|?]; done.
  - intros s e. unfold of_text. destruct (decode _) as [e'|]; [|done]. cbn [mbind option_bind].
    case_bool_decide; [|done]. destruct (validate_ExperimentEvent e') as [e''|] eqn:Hv; [|done].
    intros [= ->]. rewrite Hv. unfold validate_ExperimentEvent, validate_transition, require in Hv.
    by prog_inv Hv.
Defined.

#[export] Instance sample_experiment_codec : RecordCodec validate_Experiment.
Proof.
  refine {| record_dump_json := text_of; record_parse_json := of_text validate_Experiment |}.
  intros e Hv. apply of_text_digits; [by right|done].
Defined.

(** ** A store at work *)
Definition sample_provenance : Provenance := {|
  pv_actor := "ada"; pv_node := "n1"; pv_session_id := "s1"; pv_action := "register";
  pv_target := "exp-1"; pv_observed_prior_state := None; pv_signature := None |}.
Definition sample_event (seq : Z) (from : option ExperimentState) (to : ExperimentState)
    (prior : option string) : ExperimentEvent := {|
  ev_event_id := "e"; ev_writer_id := "arena"; ev_sequence := seq; ev_experiment_id := "exp-1";
  ev_attempt := 1; ev_from_state := from; ev_to_state := to; ev_timestamp := Aware 1000;
  ev_provenance := sample_provenance; ev_payload := [("k", JInt 3)];
  ev_prior_event_hash := prior; ev_event_hash := None |}.
Definition sample_e1 : ExperimentEvent := sample_event 1 None PROPOSED None.
Definition sample_e2 : ExperimentEvent :=
  sample_event 2 (Some PROPOSED) ADMITTED (Some (calculated_hash sample_e1)).

Lemma append_event_extends_witness :
  ∃ s' r, append_event sample_e1 empty_fs = (s', Ok r) ∧
    ev_event_hash r = Some (calculated_hash r) ∧ read_segment "arena" s' = Ok ([] ++ [r]).
Proof.
  destruct (append_event_run sample_e1 empty_fs [] "" []) as (s' & Happ & _); try reflexivity.
  eexists s', _. split; [exact Happ|].
  destruct (append_event_extends sample_e1 empty_fs s' _ eq_refl Happ)
    as (es & kept & Hes & Hkept & _ & _ & _ & _ & Hh & _ & _ & Hread & _).
  split; [exact Hh|]. injection Hes as <-. injection Hkept as <-. exact Hread.
Defined.

Lemma segments_append_only_witness :
  ∃ s1 es1 es2, append_event sample_e1 empty_fs = (s1, Ok (with_event_hash (Some (calculated_hash sample_e1)) sample_e1)) ∧
    read_segment "arena" empty_fs = Ok es1 ∧ read_segment "arena" s1 = Ok (es1 ++ es2).
Proof.
  destruct (append_event_run sample_e1 empty_fs [] "" []) as (s1 & Happ & _); try reflexivity.
  assert (store_step false empty_fs s1) as Hstep by exact (step_append sample_e1 _ _ _ eq_refl Happ).
  destruct (segments_append_only empty_fs s1 "arena" (rtc_once _ _ (ex_intro _ false Hstep)))
    as (_ & _ & Hclean).
  destruct (Hclean eq_refl (rtc_refl _ _) (rtc_once _ _ Hstep)) as (es1 & es2 & ? & ?).
  exists s1, es1, es2. split; [exact Happ|]. split; assumption.
Defined.

Lemma read_segment_chained_witness :
  ∃ s1 es, read_segment "arena" s1 = Ok es ∧ es ≠ [] ∧ chained 0 None es.
Proof.
  destruct (append_event_run sample_e1 empty_fs [] "" []) as (s1 & Happ & Hf); try reflexivity.
  destruct (log_state_append sample_e1 empty_fs s1 _ [] eq_refl log_repr_empty Happ) as (_ & Hlog & _).
  apply read_log in Hlog. assert (read_segment "arena" s1 = Ok ([] ++
    [with_event_hash (Some (calculated_hash sample_e1)) sample_e1])) as Hr.
  { rewrite read_segment_bytes by reflexivity. exact Hlog. }
  eexists s1, _. split; [exact Hr|]. split; [discriminate|]. exact (read_segment_chained _ _ _ Hr).
Defined.

Lemma lost_newline_corrupts_witness :
  ∃ s1 s2 r, append_event sample_e2 s1 = (s2, Ok r) ∧
    read_segment "arena" s2 = Err (Exn CorruptEventLogError "non-contiguous sequence").
Proof.
  destruct (torn_append sample_e1 (String.length (event_dump_json
    (with_event_hash (Some (calculated_hash sample_e1)) sample_e1))) empty_fs) as [s1 r1] eqn:Htorn.
  assert (r1 = Ok tt) as Hr by (apply (f_equal snd) in Htorn; symmetry; exact Htorn).
  subst r1. exists s1.
  destruct (lost_newline_corrupts sample_e1 sample_e2 empty_fs s1 [] eq_refl eq_refl eq_refl eq_refl
    eq_refl eq_refl log_repr_empty Htorn) as (_ & s2 & r & Happ & Hread).
  exists s2, r. split; assumption.
Defined.

Lemma put_artifact_roundtrip_witness :
  ∃ s' d, put_artifact "bytes" empty_fs = (s', Ok d) ∧ get_artifact d s' = Ok "bytes".
Proof.
  eexists _, _. split; [reflexivity|].
  exact (proj1 (put_artifact_roundtrip "bytes" empty_fs _ _ eq_refl)).
Defined.

Definition sample_budget : BudgetSpec := {|
  bs_wall_seconds := Some (f_of_Z 60); bs_token_limit := Some 1000%Z; bs_cost_limit := None;
  bs_energy_joules := None; bs_concurrency := 1 |}.
Definition sample_experiment (id : string) (parent : option string) : Experiment := {|
  ex_id := id; ex_attempt := 1; ex_parent_id := parent; ex_reproduces_id := None;
  ex_changed_dimensions := match parent with Some _ => ["seed"] | None => [] end;
  ex_challenge_hash := "c"; ex_actor := "ada"; ex_harness := "h"; ex_card_id := "card";
  ex_run_id := "run"; ex_repository_url := "url"; ex_repository_base_sha := "b";
  ex_repository_result_sha := None; ex_image_digest := "i"; ex_sbom_digest := "s";
  ex_requested_route := "r"; ex_requested_model := "m"; ex_served_model := None;
  ex_gateway_request_id := None; ex_gateway_backend_id := None; ex_configuration := [];
  ex_seeds := [1%Z]; ex_hardware_telemetry := []; ex_budgets := sample_budget;
  ex_created_at := Aware 0; ex_artifacts := [] |}.

Lemma put_experiment_roundtrip_witness :
  ∃ s' d after, put_experiment (sample_experiment "exp-1" None) empty_fs = (s', Ok d) ∧
    read_experiments s' = Ok after ∧ sample_experiment "exp-1" None ∈ after.
Proof.
  destruct (put_experiment (sample_experiment "exp-1" None) empty_fs) as [s' r] eqn:Hput.
  assert (r = Ok (Experiment_content_hash (sample_experiment "exp-1" None))) as Hr
    by (apply (f_equal snd) in Hput; symmetry; exact Hput).
  subst r.
  destruct (put_experiment_roundtrip (sample_experiment "exp-1" None) empty_fs s' _ eq_refl
    (records_ok_empty _ _) Hput)
    as (_ & _ & before & after & _ & Ha & Hin & _).
  eexists s', _, after. split; [exact eq_refl|]. split; assumption.
Defined.
End StoreSample.

(** * Ownership and messages at work *)
Module AccessSample.
Import Prelude PyDict PyFloat Canonical LeaseScheduler LeaseSchedulerFacts SchedulerSample Access.
Definition sample_wall (n : nat) : datetime := Aware (Z.of_nat n).
Definition sample_lease : Lease := {|
  lease_obj := 0; lease_id := "0"; lease_request := sample_request "k" 2; acquired_at := 0;
  expires_at := f_of_Z 5; lease_cancelled := false |}.
Definition sample_access0 : CollaborationAccess := new_CollaborationAccess sample_sched1.
Definition sample_access1 : CollaborationAccess :=
  (grant_peer "ada" "ada" "bob" (bind sample_clock sample_lease "ada" sample_access0).1).1.

Lemma bind_owner_permanent_witness :
  ∃ a' o, bind sample_clock sample_lease "ada" sample_access0 = (a', Ok o) ∧ ow_owner o = "ada".
Proof.
  destruct (run_ok (bind sample_clock sample_lease "ada") sample_access0) as (a' & o & H);
    [vm_compute; reflexivity|].
  exists a', o. split; [exact H|]. exact (proj1 (proj2 (bind_owner_permanent _ _ _ _ _ _ H))).
Defined.

Lemma send_delivers_witness :
  ∃ a' m, send sample_clock sample_wall "ada" "bob" "e" "a" "hello" sample_access1 = (a', Ok m) ∧
    inbox "bob" a' = inbox "bob" sample_access1 ++ [m].
Proof.
  destruct (run_ok (send sample_clock sample_wall "ada" "bob" "e" "a" "hello") sample_access1)
    as (a' & m & H); [vm_compute; reflexivity|].
  destruct (send_delivers _ _ _ _ _ _ _ _ _ _ H) as (_ & _ & _ & _ & Hm & _).
  exists a', m. split; [exact H|exact Hm].
Defined.
End AccessSample.

(** * A lineage at work, and the empty parent identifier *)
Module LineageSample.
Import Prelude PyDict PyFloat Canonical Sample Models StoreSample Lineage.
Definition sample_e_root : Experiment := sample_experiment "exp-1" None.
Definition sample_e_child : Experiment := sample_experiment "exp-2" (Some "exp-1").
Definition sample_lineage1 : LineageGraph := (add_experiment sample_e_root empty_lineage).1.
Definition sample_lineage2 : LineageGraph := (add_experiment sample_e_child sample_lineage1).1.

Lemma sample_lineage_reachable : lineage_reachable sample_lineage2.
Proof.
  apply lineage_add; [apply lineage_add; [apply lineage_empty| |discriminate]| |discriminate];
    intros e' He'; vm_compute in He'; discriminate He'.
Qed.

Lemma sample_lineage_built : lineage_built sample_lineage2.
Proof. apply built_add, built_add, built_empty. Qed.

Lemma lineage_acyclic_witness : acyclic sample_lineage2.
Proof. exact (proj1 (proj2 (lineage_acyclic _ sample_lineage_built)) eq_refl). Defined.

Lemma ancestors_complete_witness :
  ∃ l, ancestors sample_lineage2 "exp-2" = Some (Ok l) ∧ NoDup (ex_id <$> l).
Proof.
  destruct (ancestors_complete sample_lineage2 "exp-2" sample_lineage_reachable) as (l & Hl & Hnd & _).
  { vm_compute. eexists. reflexivity. }
  exists l. split; [exact Hl|exact Hnd].
Defined.

Lemma descendants_complete_witness :
  ∃ l, descendants sample_lineage2 "exp-1" = Some (Ok l) ∧ NoDup (ex_id <$> l).
Proof.
  destruct (descendants_complete sample_lineage2 "exp-1" sample_lineage_reachable) as (l & Hl & Hnd & _).
  exists l. split; [exact Hl|exact Hnd].
Defined.

(** The cycle test is guarded by the truth of the parent identifier, and the
    empty string is false: an experiment whose parent is empty enters unchecked, and
    with an experiment of empty name above it the lineage has a cycle that [ancestors]
    reports as an error. *)
Lemma empty_parent_makes_cycle :
  let e1 := sample_experiment "" (Some "x") in
  let e2 := sample_experiment "x" (Some "") in
  let a1 := add_experiment e1 empty_lineage in
  let a2 := add_experiment e2 a1.1 in
  is_ok (validate_Experiment e1) = true ∧ is_ok (validate_Experiment e2) = true ∧
  a1.2 = Ok tt ∧ a2.2 = Ok tt ∧
  ancestors a2.1 "x" = Some (Err (Exn ValueError "experiment lineage contains a cycle")).
Proof. vm_compute. done. Qed.
End LineageSample.

(** * The controller at work, and a clock that runs backwards *)
Module ControllerSample.
Import Prelude PyDict PyFloat Canonical Sample LeaseScheduler LeaseSchedulerFacts SchedulerSample Models Store StoreSample ArenaMetrics Controller ControllerFacts.
Definition fwd_wall (n : nat) : datetime := Aware (1000 + Z.of_nat n).
Lemma fwd_wall_aware n : is_aware (fwd_wall n) = true.
Proof. done. Qed.
Lemma fwd_wall_later m n : (m < n)%nat → (dt_us (fwd_wall m) < dt_us (fwd_wall n))%Z.
Proof. simpl. lia. Qed.

Definition sample_ctrl0 : ArenaController := {|
  store := empty_fs; sched := sample_sched0; writer_id := "arena"; actor := "ada"; node := "n1";
  session_id := "s1"; metrics := Some new_metrics; _lease_by_attempt := ∅; now_ticks := 0 |}.
Definition ctrl_propose (c : ArenaController) : ArenaController := (propose fwd_wall "e" 1 [] c).1.
Definition sample_ctrl1 : ArenaController := ctrl_propose sample_ctrl0.

Lemma sample_fresh : fresh_controller sample_ctrl0.
Proof. exact eq_refl. Qed.
Lemma propose_step c : ctrl_step sample_clock fwd_wall c (ctrl_propose c).
Proof. exists ctrl_propose. split; [exact (call_propose sample_clock fwd_wall "e" 1 [])|reflexivity]. Qed.

(** One legal transition after another from a controller with the invariant. *)
Lemma legal_append c e t st p :
  ctrl_inv fwd_wall c → safe_writer (writer_id c) = true → (0 < t)%Z →
  st ∈ allowed (ev_to_state <$> last (events_of c e t)) →
  ∃ c' ev, _append fwd_wall e t st p c = (c', Ok ev) ∧ ctrl_inv fwd_wall c' ∧
    writer_id c' = writer_id c ∧ _lease_by_attempt c' = _lease_by_attempt c ∧
    ev_to_state <$> last (events_of c' e t) = Some st ∧ sched c' = with_new_obj (sched c).
Proof.
  intros Hi Hw Ht Hst. pose proof Hi as [Hok Haw Hl _].
  destruct (append_accepts fwd_wall c e t st p Hok Haw Hw Ht Hst)
    as (c' & ev & ? & ? & Hr & _ & _ & _ & _ & _ & _ & _ & _ & _ & Hsc & Hb & Hw').
  pose proof (append_history fwd_wall fwd_wall_aware fwd_wall_later e t st p c Hi) as [Hi' _].
  pose proof (transition_recorded fwd_wall c e t st p Hok Haw Hw Ht eq_refl Hl) as Hrec.
  rewrite bool_decide_true in Hrec by done. destruct Hrec as (c2 & ev2 & Hr2 & _ & Hs & _).
  rewrite Hr in Hr2, Hi'. simpl in Hi'. injection Hr2 as <- <-.
  rewrite state_run in Hs by apply Hi'. injection Hs as Hs. by exists c', ev.
Qed.

Lemma metrics_labels_bounded_witness :
  labels_in _STATES (_transitions (transition "running" new_metrics).1).
Proof.
  refine (met_transitions _ (proj1 (metrics_labels_bounded (transition "running") new_metrics _ _
    (met_transition "running") _ (surjective_pairing _)))).
  split; intros k [v Hk]; discriminate Hk.
Defined.

Lemma transition_recorded_witness :
  ∃ c' ev, _append fwd_wall "e" 1 PROPOSED [] sample_ctrl0 = (c', Ok ev) ∧
    (state "e" 1 c').2 = Ok (Some PROPOSED).
Proof.
  destruct (fresh_inv fwd_wall _ sample_fresh) as [Hok Haw Hl _].
  destruct (transition_recorded fwd_wall sample_ctrl0 "e" 1 PROPOSED [] Hok Haw eq_refl eq_refl eq_refl Hl)
    as (c' & ev & Hr & _ & Hst & _).
  exists c', ev. split; [exact Hr|exact Hst].
Defined.

Lemma lifecycle_path_witness : is_path None (world_events (store sample_ctrl1) "e" 1).
Proof.
  exact (lifecycle_path sample_clock fwd_wall fwd_wall_aware fwd_wall_later 0%nat
    (store sample_ctrl1, now_ticks sample_ctrl1) "e" 1%Z
    (rtc_once _ _ (world_call sample_clock fwd_wall _ _ (propose_step sample_ctrl0)))).
Defined.

(** Proposed, then cancelled. *)
Lemma sample_cancelled :
  ∃ c2, rtc (ctrl_step sample_clock fwd_wall) sample_ctrl0 c2 ∧ (state "e" 1 c2).2 = Ok (Some CANCELLED).
Proof.
  destruct (legal_append sample_ctrl0 "e" 1 PROPOSED [] (fresh_inv fwd_wall _ sample_fresh))
    as (c1 & ev1 & H1 & Hi1 & Hw1 & Hb1 & Hs1 & _); [done|done|apply list_elem_of_here|].
  assert (ctrl_step sample_clock fwd_wall sample_ctrl0 c1) as Hstep1.
  { eexists. split; [apply (call_propose sample_clock fwd_wall "e" 1 [])|]. unfold propose. by rewrite H1. }
  exists (cancel_attempt fwd_wall "e" 1 None [] c1).1. split.
  { eapply rtc_l; [exact Hstep1|]. apply rtc_once. eexists.
    split; [apply (call_cancel_attempt sample_clock fwd_wall "e" 1 None [])|reflexivity]. }
  unfold cancel_attempt. rewrite prog_bind_eq. cbn [lift default from_option id].
  rewrite prog_bind_eq. destruct (on_metrics_ok (add_signal "cancellation" f_unit) c1) as [m Hm]; [done|].
  rewrite Hm. cbn beta iota. rewrite prog_bind_eq.
  destruct (legal_append (set_metrics m c1) "e" 1 CANCELLED []) as (c2 & ev2 & H2 & Hi2 & _ & Hb2 & Hs2 & _).
  - apply (history_frame fwd_wall fwd_wall_later c1); done.
  - simpl. by rewrite Hw1.
  - done.
  - change (events_of (set_metrics m c1) "e" 1) with (events_of c1 "e" 1). rewrite Hs1. right. left.
  - rewrite H2. cbn beta iota. unfold _release. rewrite prog_bind_eq, prog_bind_eq. cbn [gets modify].
    rewrite prog_bind_eq. rewrite Hb2. simpl. rewrite Hb1. cbn.
    rewrite state_run by apply Hi2. by rewrite <- Hs2.
Qed.

Lemma terminal_is_final_witness :
  ∃ c2, events_of (ctrl_propose c2) "e" 1 = events_of c2 "e" 1.
Proof.
  destruct sample_cancelled as (c2 & Hs & Hst). exists c2.
  exact (terminal_is_final sample_clock fwd_wall fwd_wall_aware fwd_wall_later sample_ctrl0 c2 _
    "e" 1%Z CANCELLED sample_fresh Hs (rtc_once _ _ (propose_step c2)) Hst eq_refl).
Defined.

(** A controller that proposed and admitted an attempt and still holds its lease. *)
Definition sample_ready : AttemptRequest := {|
  ar_challenge_id := "c"; ar_experiment_id := "e"; ar_attempt_id := "1"; ar_idempotency_key := "k";
  ar_resources := ar_resources (sample_request "k" 2) |}.
Lemma sample_admitted :
  ∃ c, shared_reachable sample_clock fwd_wall sample_capacity (f_of_Z 5) c ∧
    (state "e" 1 c).2 = Ok (Some ADMITTED) ∧
    ∃ l, indexed (sched c) sample_ready = Some l ∧ active l (sample_clock (ticks (sched c))) = true.
Proof.
  destruct (legal_append sample_ctrl0 "e" 1 PROPOSED [] (fresh_inv fwd_wall _ sample_fresh))
    as (c1 & ev1 & H1 & Hi1 & Hw1 & Hb1 & Hs1 & Hsc1); [done|done|apply list_elem_of_here|].
  pose (s1 := admit_ sample_clock sample_ready (sched c1)).
  assert (∃ l, s1.2 = Ok (adm_granted false l) ∧ indexed (with_new_obj s1.1) sample_ready = Some l ∧
            active l (sample_clock (ticks (with_new_obj s1.1))) = true) as (l & Hl & Hx & Ha).
  { subst s1. rewrite Hsc1. vm_compute. eexists. split_and!; reflexivity. }
  destruct (on_metrics_ok (admission "admitted") (set_sched s1.1 c1)) as [m Hm]; [done|].
  destruct (legal_append (set_metrics m (set_sched s1.1 c1)) "e" 1 ADMITTED
    [("lease_id", JStr (lease_id l)); ("expires_at", JFloat (expires_at l))])
    as (c2 & ev2 & H2 & Hi2 & _ & _ & Hs2 & Hsc2).
  { by apply (history_frame fwd_wall fwd_wall_later c1). }
  { simpl. by rewrite Hw1. }
  { done. }
  { change (events_of (set_metrics m (set_sched s1.1 c1)) "e" 1) with (events_of c1 "e" 1). rewrite Hs1. left. }
  assert (admit_attempt sample_clock fwd_wall sample_ready 1 c1
          = (set_attempts (<[("e", 1%Z) := lease_id l]> (_lease_by_attempt c2)) c2, Ok (adm_granted false l))) as Hadmit.
  { unfold admit_attempt. rewrite bool_decide_true by done.
    change (ar_experiment_id sample_ready) with "e". prog_step.
    rewrite prog_bind_eq, state_run by apply Hi1. rewrite Hs1. cbn beta iota. prog_step.
    change (opt_in (Some PROPOSED) [PROPOSED; ADMITTED; RUNNING]) with true. cbn beta iota.
    rewrite prog_bind_eq. unfold on_sched at 1. fold s1. rewrite (surjective_pairing s1), Hl. cbn beta iota.
    change (opt_in (Some PROPOSED) [ADMITTED; RUNNING]) with false. cbn.
    rewrite prog_bind_eq, Hm. cbn beta iota. rewrite bool_decide_true by apply list_elem_of_here.
    rewrite prog_bind_eq. cbn beta iota. by rewrite prog_bind_eq, H2. }
  exists (set_attempts (<[("e", 1%Z) := lease_id l]> (_lease_by_attempt c2)) c2). split_and!.
  - split; [by vm_compute|]. exists sample_ctrl0. split; [by vm_compute|].
    eapply rtc_l; [apply (shared_call sample_clock fwd_wall _ _ (call_propose sample_clock fwd_wall "e" 1 []))|].
    unfold propose. rewrite H1. apply rtc_once.
    pose proof (shared_call sample_clock fwd_wall c1 _
      (call_admit_attempt sample_clock fwd_wall sample_ready 1 (conj eq_refl eq_refl))) as Hstep.
    cbn beta in Hstep. by rewrite Hadmit in Hstep.
  - rewrite state_run by apply Hi2. simpl. by rewrite <- Hs2.
  - exists l. cbn [sched set_attempts]. rewrite Hsc2. done.
Qed.

Lemma no_second_worker_witness :
  ∃ c l, indexed (sched c) sample_ready = Some l ∧ active l (sample_clock (ticks (sched c))) = true ∧
    store (admit_attempt sample_clock fwd_wall sample_ready 1 c).1 = store c ∧
    _leases (sched (admit_attempt sample_clock fwd_wall sample_ready 1 c).1) = _leases (sched c).
Proof.
  destruct sample_admitted as (c & Hreach & Hst & l & Hx & Ha). exists c, l.
  destruct (no_second_worker sample_clock fwd_wall sample_capacity (f_of_Z 5) c sample_ready 1%Z
    ADMITTED _ _ sample_clock_mono Hreach (conj eq_refl eq_refl) Hst (or_introl eq_refl)
    (surjective_pairing _)) as (Hs & Hl & _).
  split_and!; assumption.
Defined.

(** The state of an attempt is the target of its latest event by timestamp.  When
    the wall clock steps back between two transitions, the later transition sorts
    first: an attempt that was just cancelled reads as proposed, and its admission
    is recorded as a legal transition. *)
Definition back_wall (n : nat) : datetime := Aware (1000 - Z.of_nat n).
Lemma backwards_clock_revives_attempt :
  ∃ c1 ev1 c2 ev2 c3 ev3,
    _append back_wall "e" 1 PROPOSED [] sample_ctrl0 = (c1, Ok ev1) ∧
    _append back_wall "e" 1 CANCELLED [] c1 = (c2, Ok ev2) ∧
    (state "e" 1 c2).2 = Ok (Some PROPOSED) ∧
    _append back_wall "e" 1 ADMITTED [] c2 = (c3, Ok ev3).
Proof.
  destruct (fresh_inv fwd_wall _ sample_fresh) as [Hok0 Haw0 _ _].
  destruct (append_accepts back_wall sample_ctrl0 "e" 1 PROPOSED [] Hok0 Haw0 eq_refl eq_refl)
    as (c1 & ev1 & xs & ys & H1 & He1 & Ha1 & _ & Ht1 & Hts1 & Hok1 & Hxs & Hall1 & Hn1 & _ & _ & Hw1).
  { apply list_elem_of_here. }
  assert (xs = [] ∧ ys = []) as [-> ->] by (by symmetry in Hxs; apply app_eq_nil in Hxs).
  simpl in Hall1.
  assert (∀ c, (∀ z, z ∈ all_events (store c) → is_aware (ev_timestamp z) = true) → aware_events (store c))
    as Haw by done.
  assert (events_of c1 "e" 1 = [ev1]) as Hev1.
  { unfold events_of. rewrite Hall1. simpl. by rewrite He1, Ha1. }
  assert (aware_events (store c1)) as Haw1.
  { intros z. rewrite Hall1, list_elem_of_singleton. intros ->. by rewrite Hts1. }
  destruct (append_accepts back_wall c1 "e" 1 CANCELLED [] Hok1 Haw1)
    as (c2 & ev2 & xs & ys & H2 & He2 & Ha2 & _ & Ht2 & Hts2 & Hok2 & Hxs2 & Hall2 & _ & _ & _ & Hw2);
    [by rewrite Hw1|done|rewrite Hev1; simpl; rewrite Ht1; right; left|].
  assert (event_le ev2 ev1 = true ∧ event_le ev1 ev2 = false) as [Hle Hle'].
  { unfold event_le. rewrite Hts1, Hts2, Hn1. done. }
  assert (sort_events (all_events (store c2)) = [ev2; ev1]) as Hsort.
  { rewrite Hall2. rewrite Hall1 in Hxs2. destruct xs as [|x [|? xs]], ys as [|y [|? ys]]; simplify_eq/=;
      by rewrite ?Hle, ?Hle'. }
  assert (events_of c2 "e" 1 = [ev2; ev1]) as Hev2.
  { unfold events_of. rewrite Hsort. simpl. by rewrite He1, Ha1, He2, Ha2. }
  assert (aware_events (store c2)) as Haw2.
  { intros z Hz. rewrite <- elem_of_sort_events, Hsort in Hz.
    apply elem_of_cons in Hz as [->|Hz]; [by rewrite Hts2|]. apply list_elem_of_singleton in Hz as ->.
    by rewrite Hts1. }
  destruct (append_accepts back_wall c2 "e" 1 ADMITTED [] Hok2 Haw2)
    as (c3 & ev3 & _ & _ & H3 & _); [by rewrite Hw2, Hw1|done|rewrite Hev2; simpl; rewrite Ht1; left|].
  exists c1, ev1, c2, ev2, c3, ev3. split_and!; try done.
  rewrite state_run, Hev2 by done. simpl. by rewrite Ht1.
Qed.
End ControllerSample.

(** * The research catalog at work *)
Module CatalogSample.
Import Prelude Orders PyDict PyFloat Canonical Sample Models Store StoreSample Catalog CatalogFacts.
Local Open Scope Z_scope.
#[local] Existing Instance small_platform.

Definition base_experiment : Experiment := sample_experiment "exp-1" None.
(** A result of the base experiment. *)
Definition catalog_result (verification : VerificationState.t) (at_ : Z) : Result := {|
  re_experiment_id := "exp-1"; re_experiment_hash := Experiment_content_hash base_experiment; re_challenge_hash := "c";
  re_verification := verification; re_verification_reason := None; re_measurements := []; re_artifacts := []; re_created_at := Aware at_ |}.

Notation base_catalog results := (new_ExperimentCatalog [base_experiment] results).
Notation mutated c := (mutate_experiment c "exp-1" "exp-2" "eve" "run-2" ["seed"] [("temperature", JInt 1)] (Aware 9) 1).

Lemma catalog_consistent_witness : ∃ c, base_catalog [catalog_result VerificationState.VALID 1] = Ok c ∧
  ∃ ps, positive_evidence c = Ok ps ∧ NoDup (pe_experiment_id <$> ps).
Proof.
  assert (is_ok (base_catalog [catalog_result VerificationState.VALID 1]) = true) as Hok by (vm_compute; reflexivity).
  destruct (base_catalog [catalog_result VerificationState.VALID 1]) as [c|err] eqn:Hnew; [|discriminate Hok].
  destruct (catalog_consistent _ _ c Hnew) as (_ & _ & ps & Hps & _ & Hnd & _). exists c. split; [reflexivity|]. exists ps. split; [exact Hps|exact Hnd].
Defined.

Lemma derived_fits_witness : ∃ c e, base_catalog [] = Ok c ∧ mutated c = Ok e ∧
  ∃ c', new_ExperimentCatalog ([base_experiment] ++ [e]) [] = Ok c' ∧ _experiments c' !! "exp-2" = Some e.
Proof.
  assert (is_ok (base_catalog [] ≫= λ c, mutated c) = true) as Hok by (vm_compute; reflexivity).
  destruct (base_catalog []) as [c|err] eqn:Hnew; [|discriminate Hok]. cbn [mbind result_bind] in Hok.
  destruct (mutated c) as [e|err] eqn:Hm; [|discriminate Hok].
  destruct (derived_fits [base_experiment] [] c "exp-1" "exp-2" "eve" "run-2" (Aware 9) 1 ["seed"] [("temperature", JInt 1)] e Hnew (or_intror Hm))
    as (source & _ & _ & _ & _ & _ & _ & _ & _ & _ & _ & _ & _ & _ & _ & c' & Hc' & He & _).
  exists c, e. split; [reflexivity|]. split; [exact Hm|]. exists c'. split; [exact Hc'|exact He].
Defined.

(** The provisional result of an experiment and its verified result are two records with
    distinct contents, so the catalog of both cannot be constructed, although it can be
    constructed with either one. *)
Lemma verification_breaks_catalog :
  let provisional := catalog_result VerificationState.UNVERIFIED 1 in
  let verified := catalog_result VerificationState.VALID 2 in
  is_ok (base_catalog [provisional]) = true ∧ is_ok (base_catalog [verified]) = true ∧
  base_catalog [provisional; verified] = Err (Exn CollaborationError "conflicting result identity: exp-1").
Proof. split_and!; vm_compute; reflexivity. Qed.
End CatalogSample.

(** * Statistics, fronts and verdicts at work

    Concrete candidates, trials and backends, and two effects of the arithmetic:
    rounding of a mean, and dominance with a tolerance that is not transitive.  Where
    only the order of the values matters they are a few units of the least positive
    float, so that they evaluate fast. *)
Module MetricsSample.
Import Prelude PyDict PyFloat PyStats Canonical Models Metrics MetricsFacts Verifier VerifierFacts.
Local Open Scope Z_scope.

Definition sample_metric (name : string) (d : MetricDirection) (tolerance : float) : MetricObjective :=
  {| mo_name := name; mo_direction := d; mo_minimum := None; mo_maximum := None; mo_tolerance := tolerance |}.
Definition sample_summary (mean : float) : MetricSummary := {|
  su_count := 1; su_mean := mean; su_standard_deviation := 0; su_minimum := mean; su_maximum := mean;
  su_confidence_low := Fin mean; su_confidence_high := Fin mean |}.
Definition sample_candidate (id : string) (values : list (string * float)) : ParetoCandidate :=
  {| pc_experiment_id := id; pc_metrics := Dict ((λ kv, (kv.1, sample_summary kv.2)) <$> values) |}.
Definition slow := sample_candidate "slow" [("tps", 10); ("joules", 9)].
Definition frugal := sample_candidate "frugal" [("tps", 8); ("joules", 2)].
Definition fast := sample_candidate "fast" [("tps", 12); ("joules", 9)].
Definition sample_objectives := [sample_metric "tps" MAXIMIZE 0; sample_metric "joules" MINIMIZE 0].
Example sample_front : pareto_frontier [slow; frugal; fast] sample_objectives = Ok [fast; frugal].
Proof. vm_compute. reflexivity. Qed.

Lemma float_means_sample id values : Forall is_float values.*2 → float_means (sample_candidate id values).
Proof.
  intros Hv k s Hs. apply dict_lookup_Some_elem in Hs. simpl in Hs.
  apply list_elem_of_fmap in Hs as ([k' v] & [= -> ->] & Hin). rewrite Forall_forall in Hv. apply Hv.
  by apply (list_elem_of_fmap_2 snd) in Hin.
Qed.
Lemma frontier_covers_witness : ∃ d, d ∈ [fast; frugal] ∧ (d = slow ∨ beats sample_objectives d slow = true).
Proof.
  refine (frontier_covers [slow; frugal; fast] sample_objectives [fast; frugal] slow sample_front _ _ _ _).
  - intros o Ho. set_solver.
  - intros d Hd. rewrite !elem_of_cons, elem_of_nil in Hd.
    destruct Hd as [->|[->|[->|[]]]]; apply float_means_sample; repeat constructor; vm_compute; reflexivity.
  - left.
  - vm_compute. reflexivity.
Defined.

(** ** A tolerance can empty the front *)
(** Each of three candidates beats the next, on the metric where it leads by more
    than the tolerance; on the others it is behind by no more than that. *)
Definition rock := sample_candidate "rock" [("x", 2); ("y", 1); ("z", 0)].
Definition paper := sample_candidate "paper" [("x", 0); ("y", 2); ("z", 1)].
Definition scissors := sample_candidate "scissors" [("x", 1); ("y", 0); ("z", 2)].
Definition tolerant := (λ name, sample_metric name MAXIMIZE 1) <$> ["x"; "y"; "z"].
Lemma tolerance_empties_frontier :
  forallb (admissible tolerant) [rock; paper; scissors] = true ∧
  pareto_frontier [rock; paper; scissors] tolerant = Ok [].
Proof. split; vm_compute; reflexivity. Qed.

(** ** A backend and its verdicts *)
Definition sample_policy (o : MetricObjective) : VerificationPolicy := {|
  vp_challenge_hash := "c"; vp_expected_model_digest := "m"; vp_repetitions := 3; vp_objectives := [o];
  vp_required_modalities := ∅; vp_required_capabilities := ∅; vp_confidence_z := Fin default_z; vp_require_controls := true |}.
Definition sample_submission : ProvisionalSubmission := {|
  su_experiment_id := "e"; su_challenge_hash := "c"; su_artifact_digest := "a"; su_requested_model_digest := "m";
  su_claimed_metrics := ∅ |}.
Definition sample_handle : PrivateEvaluationHandle := {| ph_evaluation_id := "v"; ph_version := "1"; ph_capability := "cap" |}.
Definition sample_trial (v : float) : TrialEvidence := {|
  te_metrics := Dict [("error", Fin v)]; te_served_model_digest := "m"; te_artifact_digest := "a";
  te_modalities_exercised := ∅; te_capabilities_exercised := ∅; te_completed_work := true; te_output_truncated := false;
  te_cache_disclosed := true; te_warm_cache_used := false; te_cache_key_digest := None |}.
(** It counts the trials it ran, and answers every control as it must. *)
Definition sample_backend (v : float) : VerificationBackend nat := {|
  run_trial _ _ _ n := (S n, Ok (sample_trial v));
  run_control kind _ n := (n, Ok (match kind with GOLD => true | _ => false end)) |}.

Definition status_of (r : nat * result VerificationVerdict) : result (VerificationStatus.t * list string) :=
  (λ v, (vv_status v, vv_reasons v)) <$> r.2.

(** Three trials that each observe the permitted maximum: the mean of 0.003, 0.003
    and 0.003 is 0.0030000000000000005, and the verdict is invalid. *)
Definition at_most (v : float) : MetricObjective := {|
  mo_name := "error"; mo_direction := MINIMIZE; mo_minimum := None; mo_maximum := Some v; mo_tolerance := 0 |}.
Lemma rounding_rejects_exact_trials :
  accepts (at_most (f_ratio 3 1000)) (f_ratio 3 1000) = true ∧
  status_of (verify (sample_backend (f_ratio 3 1000)) None sample_submission (sample_policy (at_most (f_ratio 3 1000)))
    sample_handle O) = Ok (VerificationStatus.INVALID, ["constraint_failed:error"]).
Proof. split; vm_compute; reflexivity. Qed.
End MetricsSample.

(** * The status views at work *)
Module StatusSample.
Import Prelude PyDict PyFloat PyStats Canonical Sample Models Store StoreSample LeaseScheduler SchedulerSample Metrics ArenaMetrics Controller ControllerFacts ControllerSample Status StatusFacts.
Local Open Scope Z_scope.

Lemma status_agrees_witness : ∃ s rows,
  NoDup (row_key <$> rows) ∧
  (∃ es, read_all_events s = Ok es ∧ _current_attempts es = Ok rows) ∧
  ∃ row, row ∈ rows ∧ row_key row = ("e", 1) ∧ at_state row = "proposed".
Proof.
  destruct (fresh_inv fwd_wall _ sample_fresh) as [Hok Haw _ _].
  destruct (append_accepts fwd_wall sample_ctrl0 "e" 1 PROPOSED [] Hok Haw eq_refl eq_refl)
    as (c1 & ev1 & xs & ys & _ & He & Ha & _ & Ht & Hts & Hok1 & Hxs & Hall & _); [apply list_elem_of_here|].
  assert (xs = [] ∧ ys = []) as [-> ->] by (by symmetry in Hxs; apply app_eq_nil in Hxs). simpl in Hall.
  assert (read_all_events (store c1) = Ok [ev1]) as Hread.
  { rewrite read_all_events_run; [by rewrite Hall|done|]. intros e. rewrite Hall, list_elem_of_singleton. intros ->. by rewrite Hts. }
  destruct (status_agrees (store c1) [ev1] Hread) as (rows & Hrows & Hnd & Hst); [by apply NoDup_singleton|].
  exists (store c1), rows. split_and!; [done|by exists [ev1]|]. apply (Hst "e" 1 PROPOSED).
  unfold state_of, select. simpl. rewrite He, Ha. simpl. by rewrite Ht.
Defined.

(** ** Verifying an experiment a second time *)
Definition sample_result (at_ : Z) : Result := {|
  re_experiment_id := "e"; re_experiment_hash := "h"; re_challenge_hash := "c";
  re_verification := VerificationState.VALID; re_verification_reason := None;
  re_measurements := [{| me_metric := "tps"; me_unit := "1/s";
    me_observations := [{| ob_value := 5; ob_seed := None; ob_warm := false; ob_recorded_at := Aware 0 |}];
    me_mean := 5; me_standard_deviation := 0; me_confidence_low := None; me_confidence_high := None; me_best_of_n := None |}];
  re_artifacts := []; re_created_at := Aware at_ |}.
Definition sample_service (results : list Result) : ArenaStatusService := {|
  as_store := None; as_scheduler := None; as_experiments := Ok []; as_results := Ok results; as_refinements := Ok [];
  as_scheduled_runs := Ok []; as_probes := []; as_metrics := new_metrics |}.
Definition by_speed : list MetricObjective :=
  [{| mo_name := "tps"; mo_direction := MAXIMIZE; mo_minimum := None; mo_maximum := None; mo_tolerance := 0 |}].
(** One valid result of an experiment is on the front of its challenge.  When the
    experiment is verified valid once more, at another time, the view of the front
    raises, although the two results are distinct records of the store. *)
Lemma second_verification_breaks_frontier :
  (λ rows, map fr_experiment_id rows) <$> frontier (sample_service [sample_result 1]) "c" by_speed = Ok ["e"] ∧
  validate_Result (sample_result 2) = Ok (sample_result 2) ∧
  Result_content_hash (sample_result 1) ≠ Result_content_hash (sample_result 2) ∧
  frontier (sample_service [sample_result 1; sample_result 2]) "c" by_speed =
    Err (Exn ValueError "verified candidate experiment IDs must be unique").
Proof. split_and!; [vm_compute; reflexivity|vm_compute; reflexivity|vm_compute; discriminate|vm_compute; reflexivity]. Qed.
End StatusSample.

(** * A refinement journal at work

    A codec with the laws of [LineCodec], a promotion from its proposal to its receipt,
    and what a killed process leaves behind. *)
Module RefinementSample.
Import Prelude PyDict PyFloat Canonical Sample Models Store StoreSample JsonLines LeaseScheduler SchedulerSample Refinement RefinementFacts.
(** ** The codec: digits closed by a full stop *)
#[export] Instance RefinementScope_countable : Countable RefinementScope.
Proof.
  refine (inj_countable' (λ s, match s with SCOPE_EXPERIMENT => 0 | SCOPE_PROJECT => 1 | SCOPE_GLOBAL => 2 end)
    (λ n, match n with 0 => SCOPE_EXPERIMENT | 1 => SCOPE_PROJECT | _ => SCOPE_GLOBAL end) _)%nat. by intros [].
Defined.
#[export] Instance RefinementTargetKind_countable : Countable RefinementTargetKind.
Proof.
  refine (inj_countable' (λ s, match s with MEMORY => 0 | SKILL => 1 | PROMPT => 2 | EXECUTABLE_EXTENSION => 3 end)
    (λ n, match n with 0 => MEMORY | 1 => SKILL | 2 => PROMPT | _ => EXECUTABLE_EXTENSION end) _)%nat. by intros [].
Defined.
#[export] Instance RefinementState_countable : Countable RefinementState.
Proof.
  refine (inj_countable' (λ s, match s with R_PROPOSED => 0 | CANARY_AUTHORIZED => 1 | CANARY_PASSED => 2 | CANARY_FAILED => 3
    | APPROVED => 4 | REJECTED => 5 | PROMOTION_AUTHORIZED => 6 | PROMOTED => 7 | ROLLBACK_AUTHORIZED => 8 | ROLLED_BACK => 9 end)
    (λ n, match n with 0 => R_PROPOSED | 1 => CANARY_AUTHORIZED | 2 => CANARY_PASSED | 3 => CANARY_FAILED | 4 => APPROVED
    | 5 => REJECTED | 6 => PROMOTION_AUTHORIZED | 7 => PROMOTED | 8 => ROLLBACK_AUTHORIZED | _ => ROLLED_BACK end) _)%nat. by intros [].
Defined.
#[export] Instance RefinementProposal_countable : Countable RefinementProposal.
Proof.
  refine (inj_countable' (λ p, (rp_id p, rp_scope p, rp_target p, rp_target_kind p, rp_proposed_content p, rp_evidence_ids p,
      rp_proposer p, rp_created_at p))
    (λ '(a, b, c, d, e, f, g, h), Build_RefinementProposal a b c d e f g h) _). by intros [].
Defined.
#[export] Instance RefinementEvent_countable : Countable RefinementEvent.
Proof.
  refine (inj_countable' (λ e, (rv_event_id e, rv_sequence e, rv_proposal_id e, rv_proposal_hash e, rv_from_state e, rv_to_state e,
      rv_timestamp e, rv_provenance e, rv_evidence_ids e, rv_receipt e, rv_prior_event_hash e, rv_event_hash e))
    (λ '(a, b, c, d, e, f, g, h, i, j, k, l), Build_RefinementEvent a b c d e f g h i j k l) _). by intros [].
Defined.

Lemma digits_one_line p : one_line (pos_digits p).
Proof. unfold one_line, no_eol. induction p; done. Qed.
Lemma digits_joined p q k t : 0 < k → t = "" ∨ t = String nl "" → pos_digits p +:+ String.substring 0 k (pos_digits q) ≠ pos_digits p +:+ t.
Proof.
  intros Hk Ht. induction p as [p IH|p IH|]; cbn [pos_digits]; rewrite !str_app_cons; [intros [= E]; by apply IH..|].
  intros [= E]. change ("" +:+ ?x) with x in E. destruct k as [|k]; [lia|]. destruct q, Ht as [-> | ->]; simpl in E; by try discriminate E.
Qed.
Section codec.
Context {A : Type} `{Countable A} (validate : A → result A) (Hsame : ∀ a b, validate a = Ok b → b = a).
Lemma of_text_valid s a : of_text validate s = Some a → validate a = Ok a.
Proof using All.
  unfold of_text. destruct (decode _) as [a'|]; [|done]. cbn [mbind option_bind]. case_bool_decide; [|done].
  destruct (validate a') as [b|] eqn:Hv; [|done]. intros [= <-]. by rewrite (Hsame a' b Hv) in Hv.
Qed.
Definition digits_codec : LineCodec validate.
Proof using All.
  refine {| line_text := text_of; parse_line := of_text validate |}.
  - intros a. apply digits_one_line.
  - intros a. unfold text_of. by destruct (encode a).
  - intros a Hv. rewrite <- (str_app_nil_r (text_of a)). apply of_text_digits; [by left|done].
  - intros a k Hk. unfold of_text. destruct (decode _) as [a'|]; [|done]. cbn [mbind option_bind].
    destruct (text_of_stop a (encode a') k Hk) as [H1 H2]. rewrite str_app_nil_r in H1.
    rewrite bool_decide_false; [done|]. intros [?|?]; done.
  - intros a b k Hk. unfold of_text, text_of. rewrite digits_pos_digits, decode_encode. cbn [mbind option_bind].
    rewrite bool_decide_false; [done|]. rewrite <- (str_app_nil_r (pos_digits (encode a))) at 2.
    intros [E|E]; eapply digits_joined, E; auto.
  - intros s a. apply of_text_valid.
Defined.
End codec.
Lemma validate_proposal_same a b : validate_RefinementProposal a = Ok b → b = a.
Proof. unfold validate_RefinementProposal. intros H. prog_inv H. Qed.
Lemma validate_refinement_same a b : validate_RefinementEvent a = Ok b → b = a.
Proof. unfold validate_RefinementEvent, require. intros H. prog_inv H. Qed.
#[export] Instance proposal_codec : LineCodec validate_RefinementProposal := digits_codec _ validate_proposal_same.
#[export] Instance refinement_codec : LineCodec validate_RefinementEvent := digits_codec _ validate_refinement_same.

(** ** A promotion *)
Definition sample_proposal_ : RefinementProposal := {|
  rp_id := "p1"; rp_scope := SCOPE_PROJECT; rp_target := "t"; rp_target_kind := MEMORY; rp_proposed_content := "c";
  rp_evidence_ids := ["r"]; rp_proposer := "ann"; rp_created_at := Aware 1 |}.
Definition by_actor (actor : string) : Provenance := {|
  pv_actor := actor; pv_node := "n"; pv_session_id := "s"; pv_action := "a"; pv_target := "t"; pv_observed_prior_state := None; pv_signature := None |}.
Definition all_known (x : string) : prog unit bool := mret true.
Definition sample_kinds (x : string) : result RefinementEvidenceKind :=
  if bool_decide (x = "r") then Ok VERIFIED_RESULT else if bool_decide (x = "k") then Ok CANARY_RESULT else Ok OPERATOR_APPROVAL.
Definition sample_now (n : nat) : datetime := Aware (Z.of_nat n).
Definition sample_approvers : gset string := {["bob"]}.
Notation sample_step := (journal_step sample_approvers all_known (Some sample_kinds) sample_now).
Notation sample_reach := (rtc sample_step (fresh_run tt 0)).
Lemma sample_wf : wf_proposals [sample_proposal_].
Proof. split; [apply NoDup_singleton|]. by repeat constructor. Qed.

(** A run that has reached [r] with the events [H], the proposal in state [s]. *)
Record promoting (r : Run (W:=unit)) (H : list RefinementEvent) (s : option RefinementState) : Prop := {
  pr_reach : sample_reach r;
  pr_clean : clean (run_journal r) [sample_proposal_] H;
  pr_governed : governed sample_approvers (Some sample_kinds) [sample_proposal_] H;
  pr_passed : passed sample_approvers (Some sample_kinds) [sample_proposal_] r;
  pr_state : current_state H "p1" = s }.
Lemma sample_unknown ids (j : RefinementJournal (W:=unit)) : any_unknown all_known ids j = (j, Ok false).
Proof. induction ids as [|x ids IH]; [done|]. cbn [any_unknown]. rewrite prog_bind_eq. unfold on_evidence at 1, all_known at 1. cbn. by destruct j. Qed.
Lemma current_snoc H e : current_state (H ++ [e]) (rv_proposal_id e) = Some (rv_to_state e).
Proof. unfold current_state. rewrite List.filter_app. cbn [List.filter]. by rewrite bool_decide_eq_true_2, last_snoc. Qed.
Lemma advance r H s to prov ids receipt : promoting r H s → cleared r "p1" to prov ids →
  evidence_set ids ≠ [] → negb (bool_decide (to ∈ external_states) && match receipt with Some x => is_empty_str x | None => true end) = true →
  to ∈ _REFINEMENT_TRANSITIONS s →
  ∃ r' e, promoting r' (H ++ [e]) (Some to) ∧ rv_to_state e = to ∧ rv_proposal_id e = "p1" ∧
    run_approved r' = run_approved r ∧ run_governed r' = run_governed r.
Proof.
  intros [Hr Hc Hg Hp Hs] Hcl Hev Hext Hleg.
  pose proof (transition_cases sample_approvers all_known (Some sample_kinds) sample_now (run_journal r) [sample_proposal_] H sample_proposal_ to prov ids receipt
    (run_journal r) false sample_wf Hg Hc (list_elem_of_here _ _) (sample_unknown _ _)) as Ht.
  change (rp_id sample_proposal_) with "p1" in Ht. unfold permitted in Ht. rewrite Hs, Hext, bool_decide_eq_false_2, bool_decide_eq_true_2 in Ht by done.
  destruct Ht as (j' & Hrun & Hc' & _). pose proof Hrun as Hrun'. unfold _transition in Hrun'. rewrite prog_bind_eq in Hrun'.
  destruct (prepare_transition _ _ _ _ _ _ _ (run_journal r)) as [j1 [e1|err]] eqn:Hprep; [|done].
  assert (journal_inv sample_approvers (Some sample_kinds) (run_journal r) [sample_proposal_] H) as Hi by (split; [apply sample_wf|split; [done|left; by apply clean_readable]]).
  destruct (prepared_admissible _ _ _ _ r [sample_proposal_] H "p1" to prov ids receipt j1 e1 Hi Hp Hcl Hprep) as (_ & p & Ha).
  injection Hrun' as _ ->.
  eexists (on_journal j' r), (drafted sample_now sample_proposal_ H to prov ids receipt (rj_ticks (run_journal r))). split; [|split; [reflexivity|split; [reflexivity|done]]]. constructor; [| |by eapply governed_snoc|done|].
  - eapply rtc_r; [exact Hr|]. replace j' with (_transition all_known sample_now "p1" to prov ids receipt (run_journal r)).1 by (by rewrite Hrun).
    by constructor.
  - exact Hc'.
  - apply (current_snoc H (drafted sample_now sample_proposal_ H to prov ids receipt (rj_ticks (run_journal r)))).
Qed.

Lemma first_row (p : RefinementProposal) (raw : option string) : raw = None → Some (default "" raw +:+ String.substring 0 (whole p) (line_nl (line_text p))) =
  Some (lines_text (texts [p])).
Proof.
  intros ->. f_equal. cbn [default from_option texts fmap list_fmap lines_text]. change ("" +:+ ?x) with x. rewrite str_app_nil_r. apply substring_whole.
Qed.
Definition proposed_row : Run (W:=unit) := {| run_journal := {| rj_world := tt; rj_proposals := Some (lines_text (texts [sample_proposal_]));
  rj_events := None; rj_ticks := 0 |}; run_approved := []; run_governed := [] |}.
Lemma append_first : append_proposal_bytes sample_proposal_ (whole sample_proposal_) (run_journal (fresh_run tt 0)) = (run_journal proposed_row, Ok tt).
Proof.
  unfold append_proposal_bytes, modify, put_proposals. by rewrite first_row.
Qed.
Lemma proposed_clean : clean (run_journal proposed_row) [sample_proposal_] [].
Proof. by split. Qed.
Lemma proposed_internal : R_PROPOSED ∉ external_states.
Proof. unfold external_states. set_solver. Qed.
(** After [propose]. *)
Lemma start : ∃ r e, promoting r [e] (Some R_PROPOSED) ∧ rv_proposal_id e = "p1" ∧ rv_to_state e = R_PROPOSED.
Proof.
  pose proof (transition_cases sample_approvers all_known (Some sample_kinds) sample_now (run_journal proposed_row) [sample_proposal_] [] sample_proposal_
    R_PROPOSED (by_actor "ann") ["r"] None (run_journal proposed_row) false sample_wf (governed_nil _ _ _) proposed_clean (list_elem_of_here _ _)
    (sample_unknown _ _)) as Ht.
  destruct Ht as (j' & Hrun & Hc' & _). set (e := drafted _ _ _ _ _ _ _ _) in *.
  exists (on_journal j' (fresh_run tt 0)), e. split; [|split; reflexivity]. constructor.
  - apply rtc_once. assert ((propose all_known sample_now sample_proposal_ (by_actor "ann") (run_journal (fresh_run tt 0))).1 = j') as <-.
    { unfold propose. rewrite prog_bind_eq. change (prepare_propose all_known sample_proposal_ (run_journal (fresh_run tt 0))) with
        (run_journal (fresh_run tt 0), Ok tt : result unit). cbv beta match. rewrite prog_bind_eq, append_first. cbv beta match.
      change (rp_id sample_proposal_) with "p1" in Hrun |- *. exact (f_equal fst Hrun). }
    by constructor.
  - exact Hc'.
  - apply (governed_snoc _ _ _ [] e sample_proposal_); [constructor|]. constructor.
    + split; [apply list_elem_of_here|split; reflexivity].
    + reflexivity.
    + reflexivity.
    + reflexivity.
    + reflexivity.
    + apply list_elem_of_here.
    + intros [=].
    + intros Hin. destruct (proposed_internal Hin).
    + intros [=].
    + intros [=].
  - split; intros ? ? []%elem_of_nil.
  - reflexivity.
Qed.
(** Checks that pass. *)
Lemma approval r H s : promoting r H s → ∃ r', promoting r' H s ∧ run_approved r' = ("p1", "bob") :: run_approved r ∧ run_governed r' = run_governed r.
Proof.
  intros [Hr Hc Hg Hp Hs]. eexists {| run_journal := run_journal r; run_approved := ("p1", "bob") :: run_approved r; run_governed := run_governed r |}.
  split; [|done]. constructor; [|exact Hc|done| |exact Hs].
  - eapply rtc_r; [exact Hr|]. apply step_approver. unfold _require_approver. prog_gets. rewrite prog_bind_eq. unfold lift.
    rewrite (readable_proposals sample_approvers all_known (Some sample_kinds) _ [sample_proposal_] H (clean_readable _ _ _ Hc) sample_wf Hg). reflexivity.
  - destruct Hp as [Ha Hb]. split; [|done]. intros pid actor [[= -> ->]|Hin]%elem_of_cons; [|by apply Ha].
    exists sample_proposal_. split; [apply list_elem_of_here|]. split; [done|]. split; [set_solver|done].
Qed.
Lemma evidence r H s : promoting r H s → ∃ r', promoting r' H s ∧ run_approved r' = run_approved r ∧ run_governed r' = ("p1", ["r"; "k"; "o"]) :: run_governed r.
Proof.
  intros [Hr Hc Hg Hp Hs]. eexists {| run_journal := run_journal r; run_approved := run_approved r; run_governed := ("p1", ["r"; "k"; "o"]) :: run_governed r |}.
  split; [|done]. constructor; [|exact Hc|done| |exact Hs].
  - eapply rtc_r; [exact Hr|]. apply step_evidence. unfold _require_governed_promotion_evidence. prog_gets. rewrite prog_bind_eq. unfold lift.
    rewrite (readable_proposals sample_approvers all_known (Some sample_kinds) _ [sample_proposal_] H (clean_readable _ _ _ Hc) sample_wf Hg). reflexivity.
  - destruct Hp as [Ha Hb]. split; [done|]. intros pid ids [[= -> ->]|Hin]%elem_of_cons; [|by apply Hb].
    exists sample_proposal_. split; [apply list_elem_of_here|]. split; [done|]. exists sample_kinds. split; [done|].
    intros k Hk. repeat (apply elem_of_cons in Hk as [->|Hk]; [|]); [by exists "r"; split; [set_solver|]|by exists "k"; split; [set_solver|]|
      by exists "o"; split; [set_solver|]|by apply elem_of_nil in Hk].
Qed.

Lemma free_cleared (r : Run (W:=unit)) to prov ids : needs_approver to = false → to ≠ PROMOTION_AUTHORIZED → cleared r "p1" to prov ids.
Proof. intros Hn Hp. split; [by rewrite Hn|done]. Qed.
Lemma bob_cleared (r : Run (W:=unit)) to A : run_approved r = ("p1", "bob") :: A → to ≠ PROMOTION_AUTHORIZED → cleared r "p1" to (by_actor "bob") ["r"].
Proof. intros Hr Hp. split; [intros _; rewrite Hr; apply list_elem_of_here|done]. Qed.
Lemma promoted_run : ∃ r H e, promoting r (H ++ [e]) (Some PROMOTED) ∧ rv_to_state e = PROMOTED ∧ rv_proposal_id e = "p1".
Proof.
  destruct start as (r0 & e1 & Hr0 & _). destruct (approval _ _ _ Hr0) as (r1 & Hr1 & Ha1 & _).
  destruct (advance _ _ _ CANARY_AUTHORIZED (by_actor "bob") ["r"] None Hr1) as (r2 & e2 & Hr2 & _ & _ & Ha2 & _);
    [by eapply bob_cleared|done|done|apply list_elem_of_here|].
  destruct (advance _ _ _ CANARY_PASSED (by_actor "ci") ["k"] (Some "log") Hr2) as (r3 & e3 & Hr3 & _ & _ & Ha3 & _);
    [by apply free_cleared|done|done|apply list_elem_of_here|].
  destruct (advance _ _ _ APPROVED (by_actor "bob") ["r"] None Hr3) as (r4 & e4 & Hr4 & _ & _ & Ha4 & _);
    [eapply bob_cleared; [by rewrite Ha3, Ha2, Ha1|done]|done|done|apply list_elem_of_here|].
  destruct (evidence _ _ _ Hr4) as (r5 & Hr5 & Ha5 & Hg5).
  destruct (advance _ _ _ PROMOTION_AUTHORIZED (by_actor "bob") ["r"; "k"; "o"] None Hr5) as (r6 & e6 & Hr6 & _);
    [split; [intros _; rewrite Ha5, Ha4, Ha3, Ha2, Ha1; apply list_elem_of_here|intros _; rewrite Hg5; apply list_elem_of_here]|
     done|done|apply list_elem_of_here|].
  destruct (advance _ _ _ PROMOTED (by_actor "ops") ["o"] (Some "done") Hr6) as (r7 & e7 & Hr7 & Ht7 & Hid7 & _);
    [by apply free_cleared|done|done|apply list_elem_of_here|].
  eexists r7, _, e7. done.
Qed.
Lemma promoted_events (r : Run (W:=unit)) H s : promoting r H s → events (run_journal r) = Ok H.
Proof. intros [_ Hc Hg _ _]. apply readable_events; [by apply (clean_readable _ [sample_proposal_])|by eapply governed_chained]. Qed.

Lemma promotion_governed_witness : ∃ (r : Run (W:=unit)) pre e, events (run_journal r) = Ok (pre ++ [e]) ∧ rv_to_state e = PROMOTED ∧ length (about "p1" pre) = 5.
Proof.
  destruct promoted_run as (r & pre & e & Hr & Hto & Hid). exists r, pre, e. pose proof (promoted_events _ _ _ Hr) as He. split; [exact He|]. split; [exact Hto|].
  destruct (promotion_governed sample_approvers all_known (Some sample_kinds) sample_now tt 0 r (pre ++ [e]) pre e [] (pr_reach _ _ _ Hr) He eq_refl Hto)
    as (p & e1 & e2 & e3 & e4 & e5 & Hab & _).
  rewrite Hid in Hab. rewrite Hab. reflexivity.
Defined.
Lemma transition_exact_witness : ∃ j' e, _transition all_known sample_now "p1" R_PROPOSED (by_actor "ann") ["r"] None (run_journal proposed_row) = (j', Ok e) ∧
  events j' = Ok [e].
Proof.
  destruct (transition_exact sample_approvers all_known (Some sample_kinds) sample_now (run_journal proposed_row) [sample_proposal_] [] sample_proposal_
    R_PROPOSED (by_actor "ann") ["r"] None (run_journal proposed_row) false sample_wf (governed_nil _ _ _) proposed_clean (list_elem_of_here _ _)
    (sample_unknown _ _)) as (j' & Hrun & _ & He).
  eexists j', _. split; [exact Hrun|exact He].
Defined.

(** ** Killed processes *)
(** A process killed inside the first append of [propose]. *)
Definition torn_proposal : Run (W:=unit) :=
  on_journal (killed_propose all_known sample_now sample_proposal_ (by_actor "ann") (InProposal 1) (run_journal (fresh_run tt 0))).1 (fresh_run tt 0).
Lemma long_row : 1 < String.length (line_text sample_proposal_).
Proof. apply Nat.ltb_lt. vm_compute. reflexivity. Qed.
Lemma torn_unreadable : ∃ err, proposals (run_journal torn_proposal) = Err err.
Proof.
  unfold proposals. change (rj_proposals (run_journal torn_proposal)) with
    (Some ("" +:+ String.substring 0 1 (line_nl (line_text sample_proposal_)))). cbv beta match.
  rewrite substring_line, (proj2 (Nat.leb_le 1 _)) by (pose proof long_row; lia).
  change ("" +:+ ?x) with (lines_text [] +:+ x). rewrite lines_of_tail; [|constructor|apply substring_one_line, line_one_line|].
  - destruct (read_proposals_bad [] (String.substring 0 1 (line_text sample_proposal_)) ∅) as [err ->]; [apply parse_line_cut, long_row|by exists err].
  - apply substring_nonempty; [apply line_nonempty|lia].
Qed.
Lemma unreadable_is_final_witness : ∃ err, proposals (run_journal torn_proposal) = Err err ∧
  is_ok (propose all_known sample_now sample_proposal_ (by_actor "ann") (run_journal torn_proposal)).2 = false ∧
  events (run_journal torn_proposal) = Ok [].
Proof.
  destruct torn_unreadable as [err Herr]. exists err.
  destruct (unreadable_is_final sample_approvers all_known (Some sample_kinds) sample_now torn_proposal torn_proposal
    err Herr (rtc_refl _ _)) as (_ & Hp & H & _).
  split; [exact Hp|]. split; [|vm_compute; reflexivity].
  apply (H _ (call_propose _ _ _ _ sample_proposal_ (by_actor "ann") eq_refl)).
Defined.

(** A process killed between the two appends of [propose] strands the proposal: it
    exists, so it cannot be proposed again, and it has no state that any other call
    continues. *)
Definition stranded : RefinementJournal (W:=unit) :=
  (killed_propose all_known sample_now sample_proposal_ (by_actor "ann") (InEvent 0) (run_journal (fresh_run tt 0))).1.
Lemma stranded_clean : clean stranded [sample_proposal_] [].
Proof.
  unfold stranded, killed_propose. rewrite prog_bind_eq. change (prepare_propose all_known sample_proposal_ (run_journal (fresh_run tt 0))) with
    (run_journal (fresh_run tt 0), Ok tt : result unit). cbv beta match. rewrite prog_bind_eq, append_first. cbv beta match.
  unfold killed_transition. rewrite prog_bind_eq. change (rp_id sample_proposal_) with "p1".
  pose proof (prepare_frame all_known sample_now "p1" R_PROPOSED (by_actor "ann") (rp_evidence_ids sample_proposal_) None (run_journal proposed_row)) as Hf.
  destruct (prepare_transition _ _ _ _ _ _ _ _) as [j' [e|err]]; simpl in Hf; destruct Hf as [Hp He].
  - unfold append_event_bytes, modify. cbn [fst]. unfold clean, put_events. cbn [rj_proposals rj_events]. rewrite Hp, He. split; [reflexivity|].
    change (rj_events (run_journal proposed_row)) with (@None string). change ("" +:+ String.substring 0 0 (line_nl (line_text e)) = "").
    by destruct (line_text e).
  - unfold clean. cbn [fst]. rewrite Hp, He. split; reflexivity.
Qed.
Theorem crash_between_rows_strands_proposal : state "p1" stranded = Ok None ∧
  (∀ prov, is_ok (propose all_known sample_now sample_proposal_ prov stranded).2 = false) ∧
  (∀ to prov ids receipt, to ≠ R_PROPOSED → is_ok (_transition all_known sample_now "p1" to prov ids receipt stranded).2 = false).
Proof.
  pose proof stranded_clean as Hc. pose proof (governed_nil sample_approvers (Some sample_kinds) [sample_proposal_]) as Hg.
  split; [|split].
  - unfold state. by rewrite (readable_events stranded [] (proj2 (clean_readable _ _ _ Hc)) I).
  - intros prov. unfold propose, prepare_propose. rewrite !prog_bind_eq, sample_unknown. cbv beta match. rewrite prog_bind_eq. cbn [raise_if mret prog_ret].
    cbv beta match. prog_gets. rewrite prog_bind_eq. unfold lift.
    rewrite (readable_proposals sample_approvers all_known (Some sample_kinds) _ [sample_proposal_] [] (clean_readable _ _ _ Hc) sample_wf Hg). reflexivity.
  - intros to prov ids receipt Hto.
    pose proof (transition_cases sample_approvers all_known (Some sample_kinds) sample_now stranded [sample_proposal_] [] sample_proposal_
      to prov ids receipt stranded false sample_wf Hg Hc (list_elem_of_here _ _) (sample_unknown _ _)) as Ht.
    unfold permitted in Ht. change (current_state [] _) with (@None RefinementState) in Ht. cbn [_REFINEMENT_TRANSITIONS] in Ht.
    rewrite (bool_decide_eq_false_2 (to ∈ [R_PROPOSED])), andb_false_r in Ht by (by rewrite list_elem_of_singleton).
    destruct Ht as (j' & msg & Hrun & _). change (rp_id sample_proposal_) with "p1" in Hrun. by rewrite Hrun.
Qed.
End RefinementSample.
