(* ===== verification/SwarmSamples.v ===== *)
(** * Teams at concrete inputs

    One module per component: the witnesses of its theorems, and the runs that show a
    defect. *)
From S2P Require Prelude PyDict PyFloat Canonical Sample Models Swarm SwarmDocs SwarmFacts Ledger SwarmControl SwarmControlFacts SwarmRecovery SwarmSafety SwarmGate SwarmGateFacts.


(** * A swarm at work

    A plan of a scout phase and a builder phase carried through: the scout's
    finding, result and receipt, the builder's contract bound to that receipt, its
    authorization and assignment, and the witnesses of the swarm theorems on them. *)
Module SwarmSample.
Import Prelude PyDict PyFloat Canonical Sample Models Swarm SwarmDocs SwarmFacts.
Local Open Scope Z_scope.
#[local] Existing Instance small_platform.

Definition sample_digest : string := "sha256:" +:+ hex_digits 64 255 "".
Definition sample_commit : string := hex_digits 40 4660 "".
Definition sample_identity : SwarmIdentity := {|
  si_card_id := "card-1"; si_card_hash := sample_digest; si_base_commit := sample_commit;
  si_evidence_id := sample_digest; si_trajectory_id := "trace-1" |}.
Definition scout_phase : SwarmPhaseSpec := {|
  ps_phase_id := "scout"; ps_role := SCOUT; ps_contract_ids := ["c-scout"];
  ps_predecessor_phase_ids := [] |}.
Definition build_phase : SwarmPhaseSpec := {|
  ps_phase_id := "build"; ps_role := BUILDER; ps_contract_ids := ["c-build"];
  ps_predecessor_phase_ids := ["scout"] |}.
Definition sample_plan : SwarmPlan := {|
  sp_plan_id := "plan-1"; sp_identity := sample_identity; sp_phases := [scout_phase; build_phase];
  sp_created_at := Aware 1 |}.
Definition sample_execution_budget : ExecutionBudget := {|
  eb_wall_seconds := 60 * f_unit; eb_token_limit := 1000; eb_tool_call_limit := 10;
  eb_cost_limit := f_unit |}.

Definition scout_contract : SubagentContract := {|
  sc_contract_id := "c-scout"; sc_team_id := "team"; sc_identity := sample_identity;
  sc_plan_hash := SwarmPlan_hash sample_plan; sc_phase_id := "scout";
  sc_parent_agent_id := "boss"; sc_child_agent_id := "eyes"; sc_role := SCOUT; sc_task := "look";
  sc_readable_paths := ["src"]; sc_writable_paths := []; sc_protected_paths := [];
  sc_tool_allowlist := ["read"]; sc_budget := sample_execution_budget; sc_lease_id := "l-scout";
  sc_worktree_id := "w"; sc_issued_at := Aware 2; sc_phase_inputs := []; sc_inputs_bound_at := None |}.
Definition build_contract : SubagentContract := {|
  sc_contract_id := "c-build"; sc_team_id := "team"; sc_identity := sample_identity;
  sc_plan_hash := SwarmPlan_hash sample_plan; sc_phase_id := "build";
  sc_parent_agent_id := "boss"; sc_child_agent_id := "hands"; sc_role := BUILDER; sc_task := "fix";
  sc_readable_paths := ["src"]; sc_writable_paths := ["src/a"]; sc_protected_paths := ["src/b"];
  sc_tool_allowlist := ["edit"]; sc_budget := sample_execution_budget; sc_lease_id := "l-build";
  sc_worktree_id := "w"; sc_issued_at := Aware 2; sc_phase_inputs := []; sc_inputs_bound_at := None |}.

Definition finding_detail : string := "the retry loop never backs off".
Definition sample_finding : ScoutFinding := {|
  sf_path := "src/a/x.py"; sf_line := Some 3; sf_detail := finding_detail;
  sf_digest := canonical_digest (finding_payload "src/a/x.py" (Some 3) finding_detail) |}.
Definition scout_result : SubagentResult := {|
  sr_contract_id := "c-scout"; sr_contract_hash := SubagentContract_hash scout_contract;
  sr_identity := sample_identity; sr_plan_hash := SwarmPlan_hash sample_plan; sr_phase_id := "scout";
  sr_lease_id := "l-scout"; sr_agent_id := "eyes"; sr_role := SCOUT;
  sr_disposition := Disposition.COMPLETED; sr_summary := "found it"; sr_reason_codes := [];
  sr_evidence_refs := [sf_digest sample_finding]; sr_observed_commit := None;
  sr_scout_assessment := Some Assessment.ACTIONABLE; sr_scout_findings := [sample_finding];
  sr_controller_terminal_reason := None; sr_started_at := Aware 3; sr_finished_at := Aware 4 |}.
Definition scout_receipt : PhaseReceipt := {|
  pr_receipt_id := "c-scout:" +:+ SubagentResult_hash scout_result;
  pr_plan_hash := SwarmPlan_hash sample_plan; pr_identity_hash := SwarmIdentity_hash sample_identity;
  pr_phase_id := "scout"; pr_contract_id := "c-scout";
  pr_contract_hash := SubagentContract_hash scout_contract; pr_lease_id := "l-scout"; pr_role := SCOUT;
  pr_result_hash := SubagentResult_hash scout_result; pr_disposition := Disposition.COMPLETED;
  pr_scout_assessment := Some Assessment.ACTIONABLE; pr_predecessor_receipt_hashes := [];
  pr_evidence_refs := [sf_digest sample_finding]; pr_scout_findings := [sample_finding];
  pr_input_commit := sample_commit; pr_output_commit := sample_commit;
  pr_result_finished_at := Aware 4; pr_recorded_at := Aware 5 |}.
Definition scout_input : PhaseInput := {|
  pi_source_phase_id := "scout"; pi_source_contract_id := "c-scout";
  pi_source_contract_hash := SubagentContract_hash scout_contract; pi_source_role := SCOUT;
  pi_source_receipt_hash := PhaseReceipt_hash scout_receipt;
  pi_source_result_hash := SubagentResult_hash scout_result;
  pi_identity_hash := SwarmIdentity_hash sample_identity;
  pi_evidence_refs := [sf_digest sample_finding]; pi_scout_findings := [sample_finding];
  pi_output_commit := sample_commit |}.
Definition bound_contract : SubagentContract := with_inputs [scout_input] (Some (Aware 6)) build_contract.
Definition build_authorization : PhaseAuthorization := {|
  pa_authorization_id := "c-build:authorize:" +:+ SubagentContract_hash bound_contract;
  pa_plan_hash := SwarmPlan_hash sample_plan; pa_identity_hash := SwarmIdentity_hash sample_identity;
  pa_phase_id := "build"; pa_contract_id := "c-build";
  pa_contract_hash := SubagentContract_hash bound_contract; pa_lease_id := "l-build";
  pa_predecessor_receipt_hashes := [PhaseReceipt_hash scout_receipt];
  pa_input_result_hashes := [SubagentResult_hash scout_result];
  pa_input_evidence_refs := [sf_digest sample_finding]; pa_input_commit := sample_commit;
  pa_authorized_by := "boss"; pa_authorized_at := Aware 7 |}.
Definition assignment : A2AEvent := {|
  ae_event_id := "e-1"; ae_contract_id := "c-build";
  ae_contract_hash := SubagentContract_hash bound_contract; ae_identity := sample_identity;
  ae_parent_agent_id := "boss"; ae_child_agent_id := "hands"; ae_sender_agent_id := "boss";
  ae_recipient_agent_id := "hands"; ae_kind := ASSIGNMENT; ae_sequence := 1; ae_body := "go";
  ae_created_at := Aware 8; ae_prior_event_id := None; ae_payload := [] |}.

Lemma sample_finding_ok : create_ScoutFinding "src/a/x.py" (Some 3) finding_detail = Ok sample_finding.
Proof. vm_compute. reflexivity. Qed.
Lemma sample_plan_ok : validate_SwarmPlan sample_plan = Ok sample_plan.
Proof. vm_compute. reflexivity. Qed.
Lemma scout_result_ok : result_from_contract scout_contract scout_result = Ok scout_result.
Proof. vm_compute. reflexivity. Qed.
Lemma scout_receipt_ok : from_result scout_contract scout_result [] (Aware 5) = Ok scout_receipt.
Proof. vm_compute. reflexivity. Qed.
Lemma bound_contract_ok : bind_phase_inputs build_contract [scout_receipt] sample_plan (Aware 6) = Ok bound_contract.
Proof. vm_compute. reflexivity. Qed.
Lemma bound_contract_valid : validate_SubagentContract bound_contract = Ok bound_contract.
Proof. vm_compute. reflexivity. Qed.
Lemma build_authorization_ok : issue bound_contract [scout_receipt] "boss" (Aware 7) = Ok build_authorization.
Proof. vm_compute. reflexivity. Qed.
Lemma assignment_ok : validate_A2AEvent assignment = Ok assignment.
Proof. vm_compute. reflexivity. Qed.

Lemma plan_is_topological_witness :
  plan_phase sample_plan "build" = Ok build_phase ∧
  (∀ d, d ∈ ["scout"] → ∃ j r, (j < 1)%nat ∧ sp_phases sample_plan !! j = Some r ∧ ps_phase_id r = d ∧
     (BUILDER = BUILDER → ps_role r = SCOUT) ∧ (BUILDER = TESTER → ps_role r = BUILDER)) ∧
  (BUILDER = TESTER → ["scout"] ≠ []) ∧
  (∀ j r c, sp_phases sample_plan !! j = Some r → c ∈ ["c-build"] → c ∈ ps_contract_ids r → j = 1%nat).
Proof. exact (plan_is_topological sample_plan 1 build_phase sample_plan_ok eq_refl). Defined.
Lemma contract_scopes_disjoint_witness :
  ¬ (under ["src"; "a"; "x.py"] "src/a" ∧ under ["src"; "a"; "x.py"] "src/b") ∧ BUILDER = BUILDER.
Proof. exact (contract_scopes_disjoint bound_contract "src/a" "src/b" ["src"; "a"; "x.py"] bound_contract_valid (list_elem_of_here _ _) (list_elem_of_here _ _)). Defined.
Lemma event_travels_edge_witness :
  "boss" ≠ "hands" ∧ ("boss", "hands") = ("boss", "hands").
Proof. exact (event_travels_edge assignment assignment_ok). Defined.
Lemma receipt_chain_witness :
  pr_input_commit scout_receipt = sample_commit ∧
  ∃ i, from_receipt scout_receipt = Ok i ∧ pi_source_receipt_hash i = PhaseReceipt_hash scout_receipt.
Proof.
  pose proof (receipt_chain _ _ _ _ _ scout_receipt_ok) as (_ & _ & _ & _ & _ & H & _ & i & Hi & Hh & _).
  exact (conj (H eq_refl) (ex_intro _ i (conj Hi Hh))).
Defined.
Lemma authorization_binds_contract_witness :
  require_contract build_authorization bound_contract "boss" = Ok tt ∧
  pr_output_commit scout_receipt = pa_input_commit build_authorization.
Proof.
  pose proof (authorization_binds_contract _ _ _ _ _ build_authorization_ok) as (H & _ & Hq & _).
  split; [exact H|]. exact (Hq scout_receipt (list_elem_of_here _ _)).
Defined.
Lemma bind_phase_inputs_exact_witness :
  NoDup (pr_contract_id <$> [scout_receipt]) ∧
  bind_phase_inputs bound_contract [scout_receipt] sample_plan (Aware 99) = Ok bound_contract.
Proof.
  pose proof (bind_phase_inputs_exact _ _ _ _ _ bound_contract_ok) as (? & ? & _ & _ & _ & _ & H & _ & Hid).
  split; [exact H|exact (Hid (Aware 99))].
Defined.
End SwarmSample.

(** * A team ledger at work

    Witnesses of the ledger theorems, and the run that shows what rounding does to
    a budget: reservations that fit one after the other whose settlements do not. *)
Module LedgerSample.
Import Prelude PyDict PyFloat Canonical Sample Models Swarm SwarmDocs SwarmFacts Ledger SwarmSample.
Local Open Scope Z_scope.

Definition tenth (n : Z) : float := f_ratio n 10.
Definition sample_team : TeamBudget := {|
  tb_team_id := "team"; tb_wall_seconds := 600 * f_unit; tb_token_limit := 9000;
  tb_tool_call_limit := 90; tb_cost_limit := tenth 6; tb_max_concurrency := 3 |}.
(** A read-only child that may spend [n] tenths. *)
Definition costing (id : string) (n : Z) : SubagentContract := {|
  sc_contract_id := id; sc_team_id := "team"; sc_identity := sample_identity; sc_plan_hash := sample_digest;
  sc_phase_id := "scout"; sc_parent_agent_id := "boss"; sc_child_agent_id := "eyes"; sc_role := SCOUT;
  sc_task := "look"; sc_readable_paths := ["src"]; sc_writable_paths := []; sc_protected_paths := [];
  sc_tool_allowlist := ["read"]; sc_budget := {| eb_wall_seconds := 60 * f_unit; eb_token_limit := 1000;
    eb_tool_call_limit := 10; eb_cost_limit := tenth n |};
  sc_lease_id := "l-" +:+ id; sc_worktree_id := "w"; sc_issued_at := Aware 2; sc_phase_inputs := [];
  sc_inputs_bound_at := None |}.
Definition spent (n : Z) : BudgetUsage := {|
  bu_wall_seconds := f_unit; bu_tokens := 1; bu_tool_calls := 1; bu_cost := tenth n |}.
Definition sample_ledger : TeamBudgetLedger := (reserve (costing "c3" 3) (new_TeamBudgetLedger sample_team)).1.

Lemma sample_ledger_reachable : ledger_reachable sample_team sample_ledger.
Proof. apply ledger_reserve, ledger_new. vm_compute. reflexivity. Qed.

Lemma ledger_never_overbooked_witness :
  usage_within (_consumed sample_ledger) sample_team ∧ outstanding eb_token_limit sample_ledger = 1000.
Proof.
  split; [apply (ledger_never_overbooked _ _ sample_ledger_reachable)|]. vm_compute. reflexivity.
Defined.
Lemma spent_valid n : 0 <= tenth n → usage_valid (spent n).
Proof. intros H. split_and!; simpl; try done; by vm_compute. Qed.
Lemma settle_exact_witness :
  is_ok (settle "c3" (spent 2) sample_ledger).2 = true ∧
  is_ok (reserve (costing "c3" 3) (settle "c3" (spent 2) sample_ledger).1).2 = false.
Proof.
  assert (_active sample_ledger !! "c3" = Some (costing "c3" 3)) as Hc by (vm_compute; reflexivity).
  assert (usage_valid (spent 2)) as Hv by (apply spent_valid; by vm_compute).
  assert (is_ok (settle "c3" (spent 2) sample_ledger).2 = true) as Hok by (vm_compute; reflexivity).
  split; [exact Hok|].
  pose proof (settle_exact _ _ "c3" _ sample_ledger_reachable Hv) as H. rewrite Hc in H.
  exact (proj1 (proj2 H Hok (costing "c3" 3) (spent 2) eq_refl)).
Defined.

(** A team may spend 0.6.  Three children reserve 0.3, 0.2 and 0.1, in this order,
    and are all admitted; each then reports exactly what it reserved.  Settled in
    the order 0.1, 0.2, 0.3 the sum rounds past 0.6: the last child, which kept
    its contract, is refused and its reservation stays. *)
Theorem rounding_blocks_settlement :
  let l3 := (reserve (costing "c1" 1) (reserve (costing "c2" 2) sample_ledger).1).1 in
  let l5 := (settle "c2" (spent 2) (settle "c1" (spent 1) l3).1).1 in
  keys (_active l3) = ["c3"; "c2"; "c1"] ∧ keys (_active l5) = ["c3"] ∧
  settle "c3" (spent 3) l5 =
    (l5, Err (Exn BudgetExceededError "aggregate child work exceeds the team budget")).
Proof. vm_compute. done. Qed.
End LedgerSample.

(** * A swarm scheduler at work

    One team carried through its plan, the witnesses of the scheduler's theorems on
    the way, and the legitimate histories whose checkpoints [recover] refuses. *)
Module SwarmControlSample.
Import Prelude PyDict PyFloat Canonical Sample Models Swarm SwarmDocs SwarmFacts Ledger SwarmSample LedgerSample SwarmControl SwarmControlFacts SwarmRecovery SwarmSafety.
Local Open Scope Z_scope.
#[local] Existing Instance small_platform.

Definition second_clock (n : nat) : float := Z.of_nat n * f_unit.
Definition sample_config : SwarmConfig := {|
  cf_budget := sample_team; cf_identity := sample_identity; cf_orchestrator_id := "boss";
  cf_lease_ttl_s := 600 * f_unit; cf_durable := true |}.
Definition sample_team_budget : TeamBudget := {|
  tb_team_id := "team"; tb_wall_seconds := 6000 * f_unit; tb_token_limit := 9000;
  tb_tool_call_limit := 90; tb_cost_limit := 9 * f_unit; tb_max_concurrency := 3 |}.
Definition work_config : SwarmConfig := {|
  cf_budget := sample_team_budget; cf_identity := sample_identity; cf_orchestrator_id := "boss";
  cf_lease_ttl_s := 30 * f_unit; cf_durable := true |}.
Definition fresh_scheduler (cfg : SwarmConfig) : SwarmScheduler :=
  match new_SwarmScheduler cfg None with
  | Ok s => s
  | Err _ => {| sw_config := cfg; sw_ledger := new_TeamBudgetLedger (cf_budget cfg); sw_plan := None;
      sw_contracts := ∅; sw_leases := ∅; sw_by_key := ∅; sw_usage_deliveries := ∅;
      sw_terminal_usage_deliveries := ∅; sw_receipts := ∅; sw_receipt_by_contract := ∅;
      sw_authorizations := ∅; sw_consumed_authorizations := ∅; sw_cancelled := false;
      sw_cancel_reason := None; sw_state_file := None; sw_ticks := 0 |}
  end.
Definition step (op : swarm_op) (s : SwarmScheduler) : SwarmScheduler := (run_op second_clock op s).1.

Definition small_usage : BudgetUsage := {|
  bu_wall_seconds := f_unit; bu_tokens := 10; bu_tool_calls := 1; bu_cost := 0 |}.
Definition st1 := step (OpRegisterPlan sample_plan) (fresh_scheduler work_config).
Definition st2 := step (OpRegister scout_contract) st1.
Definition st3 := step (OpAdmit "c-scout" "k1" None) st2.
Definition st4 := step (OpCharge "l-scout" small_usage "d1") st3.
Definition st5 := step (OpComplete "l-scout" scout_result) st4.
Definition st6 := step (OpReceipt "l-scout" [] (Aware 5)) st5.
Definition st7 := step (OpRegister bound_contract) st6.
Definition st8 := step (OpAuthorize "c-build" [PhaseReceipt_hash scout_receipt] (Aware 7)) st7.
Definition st9 := step (OpAdmit "c-build" "k2" (Some build_authorization)) st8.
Definition st10 := step (OpCancelTeam "enough") st9.

Lemma st_reach_step op s : swarm_reachable s → swarm_reachable (step op s).
Proof. intros (s0 & acks & H & Hr). exists s0. eexists. split; [done|]. by apply run_call. Qed.
Lemma fresh_reachable cfg : validate_TeamBudget (cf_budget cfg) = Ok (cf_budget cfg) →
  is_ok (new_SwarmScheduler cfg None) = true → swarm_reachable (fresh_scheduler cfg).
Proof.
  intros Hb H. exists (fresh_scheduler cfg), []. split; [|apply run_start]. exists cfg. split; [done|].
  unfold fresh_scheduler. by destruct (new_SwarmScheduler cfg None).
Qed.
Lemma fresh_work : swarm_reachable (fresh_scheduler work_config).
Proof. apply fresh_reachable; vm_compute; reflexivity. Qed.
Lemma st3_reachable : swarm_reachable st3.
Proof. do 3 apply st_reach_step. exact fresh_work. Qed.
Lemma st8_reachable : swarm_reachable st8.
Proof. do 5 apply st_reach_step. exact st3_reachable. Qed.
Lemma st9_reachable : swarm_reachable st9.
Proof. apply st_reach_step. exact st8_reachable. Qed.

Example st9_states : (λ l, (wl_lease_id l, wl_state l)) <$> vals (sw_leases st9) =
  [("l-scout", WorkerLeaseState.FINISHED); ("l-build", WorkerLeaseState.ACTIVE)].
Proof. vm_compute. reflexivity. Qed.

(** ** Witnesses *)
Definition scout_lease (s : SwarmScheduler) : option WorkerLease := sw_leases s !! "l-scout".
Lemma st9_scout : ∃ l, sw_leases st9 !! "l-scout" = Some l ∧ wl_state l = WorkerLeaseState.FINISHED.
Proof. eexists. split; vm_compute; reflexivity. Qed.
Lemma st9_build : ∃ l, sw_leases st9 !! "l-build" = Some l ∧ wl_state l = WorkerLeaseState.ACTIVE.
Proof. eexists. split; vm_compute; reflexivity. Qed.

Example st9_saved : sw_state_file st9 = Some (_state st9).
Proof. vm_compute. reflexivity. Qed.
Lemma st9_on_file id l : sw_leases st9 !! id = Some l → on_file st9 l.
Proof.
  intros Hl. exists (_state st9). split; [exact st9_saved|].
  apply (list_elem_of_fmap_2 lease_record), elem_of_sort_by. by eapply dict_lookup_vals.
Qed.
(** Over a call, and over a restart from the file. *)
Lemma worker_lease_lifecycle_witness :
  ∃ l, sw_leases st9 !! "l-scout" = Some l ∧
    (∃ l', sw_leases st10 !! "l-scout" = Some l' ∧ wl_state l' = wl_state l) ∧
    ∀ t, recover second_clock (_state st9) = Ok t →
      ∃ l', sw_leases t !! "l-scout" = Some l' ∧ wl_state l' = wl_state l.
Proof.
  destruct st9_scout as (l & Hl & Hf). assert (wl_state l ≠ WorkerLeaseState.ACTIVE) as Hn by (rewrite Hf; discriminate).
  exists l. split; [exact Hl|]. split.
  - destruct (worker_lease_lifecycle st9 [] st10 "l-scout" l st9_reachable Hl
      (or_introl (calls_call st9 second_clock (OpCancelTeam "enough") [] st9 (calls_start st9))))
      as (l' & Hl' & Hc & _ & _ & Hs & _).
    exact (ex_intro _ l' (conj Hl' (proj1 (Hs Hn)))).
  - intros t Ht. destruct (worker_lease_lifecycle st9 [] t "l-scout" l st9_reachable Hl
      (or_intror (conj (run_restart st9 second_clock [] st9 _ t (run_start st9) st9_saved Ht) (st9_on_file _ l Hl))))
      as (l' & Hl' & Hc & _ & _ & Hs & _).
    exact (ex_intro _ l' (conj Hl' (proj1 (Hs Hn)))).
Defined.
Lemma one_attempt_per_contract_witness :
  ∃ a, sw_leases st9 !! "l-scout" = Some a ∧ sw_contracts st9 !! sc_contract_id (wl_contract a) = Some (wl_contract a).
Proof.
  destruct st9_scout as (a & Ha & _).
  pose proof (one_attempt_per_contract st9 "l-scout" "l-scout" a a st9_reachable Ha Ha) as (_ & H & _).
  exact (ex_intro _ a (conj Ha H)).
Defined.
Lemma worker_usage_bounded_witness :
  usage_within (_consumed (sw_ledger st9)) (cf_budget (sw_config st9)) ∧
  ∃ l, sw_leases st9 !! "l-build" = Some l ∧ usage_le (wl_usage l) (limits (wl_contract l)).
Proof.
  destruct st9_build as (l & Hl & Ha).
  pose proof (worker_usage_bounded st9 "l-build" l st9_reachable Hl) as (H & _ & _ & _ & Hled).
  exact (conj Hled (ex_intro _ l (conj Hl (proj1 (H Ha))))).
Defined.
Lemma authorization_single_use_witness :
  sw_consumed_authorizations st8 !! PhaseAuthorization_hash build_authorization = None ∧
  ∃ s' r, admit_child second_clock "c-build" "k2" (Some build_authorization) st8 = (s', Ok r) ∧ sa_admitted r = true.
Proof.
  destruct (run_ok (admit_child second_clock "c-build" "k2" (Some build_authorization)) st8) as (s' & r & H);
    [vm_compute; reflexivity|].
  assert (match (admit_child second_clock "c-build" "k2" (Some build_authorization) st8).2 with
          | Ok r => sa_admitted r && negb (sa_duplicate r) | Err _ => false end = true) as Hr by (vm_compute; reflexivity).
  rewrite H in Hr. cbn [snd] in Hr. apply andb_prop in Hr as [Hadm Hdup]. apply negb_true_iff in Hdup.
  pose proof (authorization_single_use second_clock "c-build" "k2" (Some build_authorization) st8 s' r
    st8_reachable H Hadm Hdup) as (c & plan & phase & l & _ & _ & _ & _ & _ & _ & _ & _ & _ & Hc & _).
  exact (conj Hc (ex_intro _ s' (ex_intro _ r (conj H Hadm)))).
Defined.
Lemma recover_roundtrip_witness :
  ∃ t, recover second_clock (_state st9) = Ok t ∧ swarm_reachable t ∧
    sw_leases t !! "l-build" = sw_leases st9 !! "l-build".
Proof.
  destruct (recover second_clock (_state st9)) as [t|e] eqn:H.
  2:{ exfalso. assert (is_ok (recover second_clock (_state st9)) = true) as Hok by (vm_compute; reflexivity).
      rewrite H in Hok. discriminate. }
  pose proof (recover_roundtrip second_clock st9 t st9_reachable st9_saved H) as (Ht & _ & _ & Hl & _).
  specialize (Hl "l-build"). destruct st9_build as (l & E & _). rewrite E in Hl |- *.
  assert (option_map (λ l, is_active l && (lease_end l <=? second_clock 0)) (sw_leases st9 !! "l-build") = Some false) as Hb
    by (vm_compute; reflexivity).
  rewrite E in Hb. injection Hb as Hb. rewrite Hb in Hl. exact (ex_intro _ t (conj eq_refl (conj Ht Hl))).
Defined.

(** ** Expiry that a restart forgets

    A late charge times the worker out in memory and raises without writing the
    file, so a restart starts from the live lease: it times out again, here for
    another reason, or lives on when the clock was set back. *)
Definition at_second (n : Z) : nat → float := λ _, n * f_unit.
Definition expired_in_memory : SwarmScheduler := (run_op (at_second 50) (OpCharge "l-build" small_usage "d9") st9).1.
Definition build_state (s : SwarmScheduler) : option (WorkerLeaseState.t * option string) :=
  l ← sw_leases s !! "l-build"; Some (wl_state l, wl_terminal_reason l).
Definition recovered_build (clock : nat → float) : option (option (WorkerLeaseState.t * option string)) :=
  ck ← sw_state_file expired_in_memory;
  match recover clock ck with Ok s => Some (build_state s) | Err _ => None end.
Example expiry_is_not_saved :
  is_ok (charge (at_second 50) "l-build" small_usage "d9" st9).2 = false ∧
  build_state expired_in_memory = Some (WorkerLeaseState.TIMED_OUT, Some "heartbeat_expired") ∧
  recovered_build (at_second 9000) = Some (Some (WorkerLeaseState.TIMED_OUT, Some "hard_deadline_exceeded")) ∧
  recovered_build (at_second 20) = Some (Some (WorkerLeaseState.ACTIVE, None)).
Proof. split_and!; vm_compute; reflexivity. Qed.

(** ** Histories that cannot be recovered

    Two scouts on a team of 1500 tokens, 1000 per contract. *)
Definition twin_plan : SwarmPlan := {|
  sp_plan_id := "plan-2"; sp_identity := sample_identity; sp_phases := [{|
    ps_phase_id := "scout"; ps_role := SCOUT; ps_contract_ids := ["c-a"; "c-z"];
    ps_predecessor_phase_ids := [] |}]; sp_created_at := Aware 1 |}.
Definition twin (suffix : string) : SubagentContract := {|
  sc_contract_id := "c-" +:+ suffix; sc_team_id := "team"; sc_identity := sample_identity;
  sc_plan_hash := SwarmPlan_hash twin_plan; sc_phase_id := "scout"; sc_parent_agent_id := "boss";
  sc_child_agent_id := "eyes-" +:+ suffix; sc_role := SCOUT; sc_task := "look";
  sc_readable_paths := ["src"]; sc_writable_paths := []; sc_protected_paths := [];
  sc_tool_allowlist := ["read"]; sc_budget := sample_execution_budget; sc_lease_id := "l-" +:+ suffix;
  sc_worktree_id := "w"; sc_issued_at := Aware 2; sc_phase_inputs := []; sc_inputs_bound_at := None |}.
Definition twin_config : SwarmConfig := {|
  cf_budget := {| tb_team_id := "team"; tb_wall_seconds := 6000 * f_unit; tb_token_limit := 1500;
    tb_tool_call_limit := 90; tb_cost_limit := 9 * f_unit; tb_max_concurrency := 3 |};
  cf_identity := sample_identity; cf_orchestrator_id := "boss"; cf_lease_ttl_s := 600 * f_unit;
  cf_durable := true |}.
Definition run_all (ops : list swarm_op) : SwarmScheduler :=
  run_ops second_clock ops (fresh_scheduler twin_config).
Definition used (tokens : Z) (cost : float) : BudgetUsage := {|
  bu_wall_seconds := 0; bu_tokens := tokens; bu_tool_calls := 0; bu_cost := cost |}.
(** Every call of [ops] succeeds. *)
Fixpoint all_ok (ops : list swarm_op) (s : SwarmScheduler) : bool :=
  match ops with
  | [] => true
  | op :: ops => let '(s, r) := run_op second_clock op s in is_ok r && all_ok ops s
  end.
Definition setup : list swarm_op := [OpRegisterPlan twin_plan; OpRegister (twin "a"); OpRegister (twin "z")].

Lemma run_ops_reachable ops s : swarm_reachable s → swarm_reachable (run_ops second_clock ops s).
Proof. revert s. induction ops as [|op ops IH]; intros s H; [done|]. by apply IH, st_reach_step. Qed.
Lemma run_all_reachable ops : swarm_reachable (run_all ops).
Proof. apply run_ops_reachable, fresh_reachable; vm_compute; reflexivity. Qed.

(** The usage deliveries are summed again in the order of their ids: 0.1 + 0.2 + 0.3
    was recorded, 0.3 + 0.2 + 0.1 is compared, and the checkpoint is refused. *)
Definition out_of_order : list swarm_op := setup ++ [OpAdmit "c-a" "k" None;
  OpCharge "l-a" (used 1 (tenth 1)) "c"; OpCharge "l-a" (used 1 (tenth 2)) "b";
  OpCharge "l-a" (used 1 (tenth 3)) "a"].
Theorem delivery_order_breaks_recovery :
  all_ok out_of_order (fresh_scheduler twin_config) = true ∧
  recover second_clock (_state (run_all out_of_order)) =
    Err (Exn SwarmStateError "recorded usage does not match idempotent deliveries").
Proof. split; vm_compute; reflexivity. Qed.

(** The ledger is rebuilt by reserving every terminal contract in full in the order
    of the lease ids, not in the order of the history: [z] was settled at 100
    tokens before [a] reserved 1000 and used 600; rebuilt, [a]'s 600 leave no room
    for [z]'s 1000. *)
Definition sequential : list swarm_op := setup ++ [OpAdmit "c-z" "kz" None;
  OpCharge "l-z" (used 100 0) "dz"; OpCancelWorker "l-z" "done"; OpAdmit "c-a" "ka" None;
  OpCharge "l-a" (used 600 0) "da"; OpCancelWorker "l-a" "done"].
Theorem rebuild_order_breaks_recovery :
  all_ok sequential (fresh_scheduler twin_config) = true ∧
  recover second_clock (_state (run_all sequential)) =
    Err (Exn SwarmStateError "invalid swarm control checkpoint").
Proof. split; vm_compute; reflexivity. Qed.

(** A failed result recorded for a cancelled worker, then a late usage observation
    above its contract: both are accepted, together they are not recoverable. *)
Definition failed_result : SubagentResult := {|
  sr_contract_id := "c-a"; sr_contract_hash := SubagentContract_hash (twin "a");
  sr_identity := sample_identity; sr_plan_hash := SwarmPlan_hash twin_plan; sr_phase_id := "scout";
  sr_lease_id := "l-a"; sr_agent_id := "eyes-a"; sr_role := SCOUT;
  sr_disposition := Disposition.FAILED; sr_summary := "stopped"; sr_reason_codes := ["done"];
  sr_evidence_refs := []; sr_observed_commit := None; sr_scout_assessment := Some Assessment.BLOCKED;
  sr_scout_findings := []; sr_controller_terminal_reason := Some "done"; sr_started_at := Aware 3;
  sr_finished_at := Aware 4 |}.
Definition late_overage : list swarm_op := setup ++ [OpAdmit "c-a" "k" None;
  OpCancelWorker "l-a" "done"; OpTerminalResult "l-a" failed_result; OpObserve "l-a" (used 2000 0) "d"].
Theorem late_overage_breaks_recovery :
  validate_SubagentResult failed_result = Ok failed_result ∧
  all_ok late_overage (fresh_scheduler twin_config) = true ∧
  recover second_clock (_state (run_all late_overage)) =
    Err (Exn SwarmStateError "terminal overage result requires a budget reason").
Proof. split_and!; vm_compute; reflexivity. Qed.
End SwarmControlSample.

(** * The sample swarm at the completion gate

    The scout and builder of [SwarmSample] finished, their receipts, a signed
    attestation over them, and the gate's decision. *)
Module SwarmGateSample.
Import Prelude PyDict PyFloat Canonical Sample Models Swarm SwarmDocs SwarmFacts SwarmSample SwarmGate SwarmGateFacts.
Local Open Scope Z_scope.
#[local] Existing Instance small_platform.

Definition built_commit : string := hex_digits 40 43981 "".
Definition build_result : SubagentResult := {|
  sr_contract_id := "c-build"; sr_contract_hash := SubagentContract_hash bound_contract;
  sr_identity := sample_identity; sr_plan_hash := SwarmPlan_hash sample_plan; sr_phase_id := "build";
  sr_lease_id := "l-build"; sr_agent_id := "hands"; sr_role := BUILDER;
  sr_disposition := Disposition.COMPLETED; sr_summary := "fixed it"; sr_reason_codes := [];
  sr_evidence_refs := [sample_digest]; sr_observed_commit := Some built_commit;
  sr_scout_assessment := None; sr_scout_findings := [];
  sr_controller_terminal_reason := None; sr_started_at := Aware 8; sr_finished_at := Aware 9 |}.
Definition build_receipt : PhaseReceipt := {|
  pr_receipt_id := "c-build:" +:+ SubagentResult_hash build_result;
  pr_plan_hash := SwarmPlan_hash sample_plan; pr_identity_hash := SwarmIdentity_hash sample_identity;
  pr_phase_id := "build"; pr_contract_id := "c-build";
  pr_contract_hash := SubagentContract_hash bound_contract; pr_lease_id := "l-build"; pr_role := BUILDER;
  pr_result_hash := SubagentResult_hash build_result; pr_disposition := Disposition.COMPLETED;
  pr_scout_assessment := None; pr_predecessor_receipt_hashes := [PhaseReceipt_hash scout_receipt];
  pr_evidence_refs := [sample_digest]; pr_scout_findings := [];
  pr_input_commit := sample_commit; pr_output_commit := built_commit;
  pr_result_finished_at := Aware 9; pr_recorded_at := Aware 10 |}.
Definition sample_evidence : CriterionEvidence := {|
  ce_criterion_id := "tests-pass"; ce_passed := true; ce_artifact_digest := sample_digest;
  ce_observed_by := "judge"; ce_source := FROM_VERIFIER; ce_test_provenance := VERIFIER_AUTHORED |}.
Definition sample_attestation : VerifierAttestation := {|
  va_identity := sample_identity; va_plan_hash := SwarmPlan_hash sample_plan;
  va_phase_lineage_digest := phase_lineage_digest [scout_receipt; build_receipt];
  va_final_commit := built_commit; va_verifier_agent_id := "judge"; va_verdict := Verdict.APPROVED;
  va_subject_result_hashes := [SubagentResult_hash scout_result; SubagentResult_hash build_result];
  va_criteria := [sample_evidence]; va_created_at := Aware 11; va_signature := "sig" |}.
(** A signature is good when it is the text [sig]. *)
Definition sample_gate : SwarmCompletionGate := {|
  cg_plan := sample_plan; cg_required_criteria := ["tests-pass"]; cg_trusted_verifier_ids := ["judge"];
  cg_verify_signature a := Ok (bool_decide (va_signature a = "sig")) |}.

Lemma sample_gate_ok : is_ok (new_SwarmCompletionGate sample_plan ["tests-pass"; "tests-pass"] ["judge"]
  (cg_verify_signature sample_gate)) = true.
Proof. vm_compute. reflexivity. Qed.
Lemma build_receipt_ok : from_result bound_contract build_result [scout_receipt] (Aware 10) = Ok build_receipt.
Proof. vm_compute. reflexivity. Qed.
Lemma sample_attestation_ok : validate_VerifierAttestation sample_attestation = Ok sample_attestation.
Proof. vm_compute. reflexivity. Qed.
Lemma sample_phases_ok ph : ph ∈ sp_phases sample_plan → validate_SwarmPhaseSpec ph = Ok ph.
Proof.
  intros [->|[->|H]%elem_of_cons]%elem_of_cons; [vm_compute; reflexivity|vm_compute; reflexivity|].
  by apply elem_of_nil in H.
Qed.
Definition sample_decision : CompletionDecision := {|
  cd_authorized := true; cd_reasons := [];
  cd_verifier_attestation_digest := Some (VerifierAttestation_hash sample_attestation) |}.
Lemma sample_evaluate : evaluate sample_gate [scout_result; build_result] [scout_receipt; build_receipt]
  (Some sample_attestation) = Ok sample_decision.
Proof. vm_compute. reflexivity. Qed.

(** Without the attestation, and with the results out of order, completion is refused. *)
Example unsigned_refused : ∃ d,
  evaluate sample_gate [scout_result; build_result] [scout_receipt; build_receipt] None = Ok d ∧
  cd_reasons d = ["verifier_attestation_missing"].
Proof. eexists. split; vm_compute; reflexivity. Qed.
Example reordered_refused : ∃ d,
  evaluate sample_gate [build_result; scout_result] [scout_receipt; build_receipt] (Some sample_attestation) = Ok d ∧
  cd_reasons d = ["planned_result_order_mismatch"].
Proof. eexists. split; vm_compute; reflexivity. Qed.

Lemma gate_authorizes_exactly_witness :
  warranted sample_gate [scout_result; build_result] [scout_receipt; build_receipt] sample_attestation.
Proof.
  pose proof (gate_authorizes_exactly sample_gate [scout_result; build_result] [scout_receipt; build_receipt]
    (Some sample_attestation) sample_plan_ok) as Hgate.
  rewrite sample_evaluate in Hgate. destruct Hgate as (Hauth & _).
  - intros a Ha. injection Ha as <-. exact sample_attestation_ok.
  - destruct (proj1 Hauth eq_refl) as (a & Ha & Hw). injection Ha as <-. exact Hw.
Defined.
Lemma authorized_commit_flow_witness :
  pr_input_commit build_receipt = sample_commit ∧ built_commit ≠ sample_commit.
Proof.
  destruct (authorized_commit_flow sample_gate _ _ _ _ sample_plan_ok sample_phases_ok sample_attestation_ok
    sample_evaluate eq_refl) as (Hflow & _ & Hbuilt).
  split.
  - apply (proj1 (proj2 (Hflow build_phase "c-build" build_receipt
      (proj2 (elem_of_assignments sample_plan build_phase "c-build")
        (conj (list_elem_of_further _ _ _ (list_elem_of_here _ _)) (list_elem_of_here _ _)))
      (list_elem_of_further _ _ _ (list_elem_of_here _ _)) eq_refl)) eq_refl).
  - exact (Hbuilt build_phase (list_elem_of_further _ _ _ (list_elem_of_here _ _)) eq_refl).
Defined.
End SwarmGateSample.
