(* ===== verification/ServiceSamples.v ===== *)
(** * The session services at concrete inputs

    One module per component: the witnesses of its theorems, and the runs that show a
    defect. *)
From S2P Require Prelude Orders PyDict PyFloat Canonical Sample Models Store Json PyText JsonLines Control ControlFile ControlCodec ControlSample Activity ActivityFile ActivityCodec ActivityFacts ActivityHistory ActivityFleet Pool PoolFacts Autoscale AutoscaleFacts.
From Stdlib Require Import Ascii.

(** * The activity journal at work

    Two publications, the witnesses of the journal's theorems, and two effects of the
    code: redaction that outgrows the bound it follows, and a clock that steps back.
    The times are a few units of the least positive float, so that they evaluate
    fast. *)
Module ActivitySample.
Import Prelude Orders PyDict PyFloat Canonical Sample Json Models Store JsonLines Control ControlFile ControlCodec ControlSample Activity ActivityFile ActivityCodec ActivityFacts ActivityHistory ActivityFleet.
Local Open Scope Z_scope.
#[local] Existing Instance journal_platform.

Definition sample_context : ActivityContext := {|
  ac_session_id := "s"; ac_run_id := ""; ac_agent_id := ""; ac_job_id := ""; ac_role := ""; ac_phase := "";
  ac_source := "arena"; ac_card_id := ""; ac_card_hash := ""; ac_trajectory_id := ""; ac_team_id := "";
  ac_parent_agent_id := ""; ac_contract_id := ""; ac_contract_hash := ""; ac_plan_hash := ""; ac_lease_id := "";
  ac_attempt_id := ""; ac_base_commit := ""; ac_evidence_id := "" |}.
Definition sample_observation (summary : string) : Publication := {|
  pb_context := sample_context; pb_kind := ActivityKind.STATUS; pb_summary := summary; pb_data := []; pb_artifact_refs := [] |}.
Definition sample_journal : ActivityJournal := {| aj_node := "n"; aj_max_bytes := 2048; aj_max_event_bytes := 1024 |}.
Lemma sample_journal_new : new_ActivityJournal "n" 2048 1024 = Ok sample_journal.
Proof. vm_compute. reflexivity. Qed.
Definition first_event : ActivityEvent := observed (sample_observation "hello") 1 10.
Definition second_event : ActivityEvent := observed (sample_observation "bye") 2 5.
Definition acceptable_b (e : ActivityEvent) : bool :=
  is_ok (validate_ActivityEvent e) && (String.length (encoded_event e) <=? aj_max_event_bytes sample_journal)%nat.
Lemma acceptable_b_ok e : acceptable_b e = true → acceptable sample_journal e.
Proof.
  intros [Hv Hl%Nat.leb_le]%andb_prop. split; [|done]. destruct (validate_ActivityEvent e) as [e'|] eqn:H; [|done].
  by rewrite (validated_event _ _ H) in *.
Qed.
Lemma first_acceptable : acceptable sample_journal first_event.
Proof. apply acceptable_b_ok. vm_compute. reflexivity. Qed.
Lemma second_acceptable : acceptable sample_journal second_event.
Proof. apply acceptable_b_ok. vm_compute. reflexivity. Qed.

(** One publication that stays within the bound of the file. *)
Lemma publish_one f H o now : log_inv sample_journal f H → acceptable sample_journal (observed o (Z.of_nat (length H) + 1) now) →
  ∃ f', publish sample_journal o now f = (f', Ok (observed o (Z.of_nat (length H) + 1) now)) ∧
    log_inv sample_journal f' (H ++ [observed o (Z.of_nat (length H) + 1) now]).
Proof.
  intros Hi Ha. destruct (publish_inv sample_journal f H o now) as (f' & [(_ & Hp & Hi' & _)|(Hn & _)]);
    [vm_compute; lia|done|by exists f'|by destruct Hn].
Qed.
Lemma first_reachable : ∃ f, publish sample_journal (sample_observation "hello") 10 no_files = (f, Ok first_event) ∧
  reachable_log sample_journal f [first_event].
Proof.
  assert (reachable_log sample_journal no_files []) as H0 by (split; [by exists "n", 2048%nat, 1024%nat; apply sample_journal_new|done]).
  destruct (publish_one no_files [] (sample_observation "hello") 10 (log_reachable_inv _ _ _ H0) first_acceptable) as (f & Hp & _).
  exists f. split; [exact Hp|]. destruct H0 as [Hj _]. split; [exact Hj|]. apply rtc_once. exact (step_published sample_journal _ _ _ [] _ _ Hp).
Qed.

Lemma journal_is_numbered_suffix_witness : ∃ f w, window f = Ok w ∧ wi_head_cursor w = 1.
Proof.
  destruct first_reachable as (f & _ & Hr). destruct (journal_is_numbered_suffix sample_journal f [first_event] Hr) as (_ & kept & _ & _ & _ & Hw).
  exists f. eexists. split; [exact Hw|reflexivity].
Defined.
Lemma publish_exact_witness : ∃ f, read_after 0 1 no_filters f = Ok [norm_event first_event].
Proof.
  destruct first_reachable as (f & Hp & [Hj _]). exists f.
  destruct (publish_exact sample_journal no_files [] (sample_observation "hello") 10 f (Ok first_event) (conj Hj (rtc_refl _ _)) Hp)
    as (_ & _ & _ & _ & _ & H).
  exact H.
Defined.
Lemma replay_complete_witness : ∃ f kept fuel, _read_committed_unlocked f = Ok kept ∧
  replay fuel 0 1 no_filters f = Some (Ok (List.filter (after 0 no_filters) kept)).
Proof.
  destruct first_reachable as (f & _ & Hr). exists f.
  exact (replay_complete sample_journal f [first_event] 0 1 no_filters Hr ltac:(lia) ltac:(vm_compute; reflexivity)).
Defined.

(** ** A clock that steps back *)
(** The two rows and their head, as two publications leave them. *)
Definition two_rows : NodeFiles :=
  {| nf_events := Some (lines_text (texts [first_event; second_event])); nf_head := Some (head_text 2) |}.
Lemma two_rows_read : _read_committed_unlocked two_rows = Ok [norm_event first_event; norm_event second_event].
Proof.
  apply (read_committed_holds sample_journal two_rows [first_event; second_event] "").
  destruct first_acceptable as [Hv1 Hf1], second_acceptable as [Hv2 Hf2]. split.
  - cbn [two_rows nf_events default from_option id]. by rewrite str_app_nil_r.
  - done.
  - apply Forall_cons; split; [by apply observed_valid|]. apply Forall_singleton. by apply observed_valid.
  - apply Forall_cons; split; [exact Hf1|]. apply Forall_singleton. exact Hf2.
  - repeat constructor.
Qed.
Lemma two_rows_page seen : 0 <= cursor_of seen "n" →
  read_fleet seen 1 (Dict [("n", two_rows)]) =
    let page := take 1 (lex_sort fleet_key (pair "n" <$> pending_rows seen "n" [norm_event first_event; norm_event second_event])) in
    Ok (page, foldl advance seen page).
Proof.
  intros Hs. unfold read_fleet. change (iter_nodes _) with ["n"]. cbn [map_result]. unfold read_node at 1, read_after.
  rewrite (proj2 (Z.ltb_ge _ _)) by done. cbn [value_error err_if mbind result_bind].
  change (check_filters no_filters) with (Ok tt : result unit). cbn [mbind result_bind].
  change (default no_files _) with two_rows. rewrite two_rows_read. cbn [mbind result_bind].
  rewrite select_rows_take by (vm_compute; lia). cbn [mret result_ret mbind result_bind concat]. by rewrite app_nil_r.
Qed.
(** The second event was published at an earlier reading of the clock.  A viewer that
    takes one row at a time gets it first, with the cursor 2 for the node, and never
    gets the first event. *)
Lemma backwards_clock_skips_event :
  read_fleet ∅ 1 (Dict [("n", two_rows)]) = Ok ([("n", norm_event second_event)], Dict [("n", 2)]) ∧
  read_fleet (Dict [("n", 2)]) 1 (Dict [("n", two_rows)]) = Ok ([], Dict [("n", 2)]).
Proof. split; (rewrite two_rows_page by done); reflexivity. Qed.
(** With the clock running forward nothing is skipped. *)
Definition one_row : NodeFiles :=
  {| nf_events := Some (lines_text (texts [first_event])); nf_head := Some (head_text 1) |}.
Lemma one_row_read : _read_committed_unlocked one_row = Ok [norm_event first_event].
Proof.
  apply (read_committed_holds sample_journal one_row [first_event] ""). destruct first_acceptable as [Hv1 Hf1]. split.
  - cbn [one_row nf_events default from_option id]. by rewrite str_app_nil_r.
  - done.
  - apply Forall_singleton. by apply observed_valid.
  - by apply Forall_singleton.
  - repeat constructor.
Qed.
Lemma fleet_page_skips_nothing_witness : ∃ page cursors,
  read_fleet ∅ 1 (Dict [("n", one_row)]) = Ok (page, cursors) ∧ ("n", norm_event first_event) ∈ page.
Proof.
  assert (read_fleet ∅ 1 (Dict [("n", one_row)]) = Ok ([("n", norm_event first_event)], Dict [("n", 1)])) as Hread.
  { unfold read_fleet. change (iter_nodes _) with ["n"]. cbn [map_result]. unfold read_node at 1, read_after.
    change (cursor_of ∅ "n" <? 0) with false. cbn [value_error err_if mbind result_bind].
    change (check_filters no_filters) with (Ok tt : result unit). cbn [mbind result_bind].
    change (default no_files _) with one_row. rewrite one_row_read. cbn [mbind result_bind].
    rewrite select_rows_take by (vm_compute; lia). reflexivity. }
  destruct (fleet_page_skips_nothing ∅ 1 (Dict [("n", one_row)]) _ _ ltac:(repeat constructor; apply not_elem_of_nil) Hread) as [_ H].
  - intros n f es Hf Hes e e' He He' Hlt. unfold lookup, dict_lookup in Hf. simpl in Hf. case_decide; [|done]. injection Hf as <-.
    rewrite one_row_read in Hes. injection Hes as <-. apply list_elem_of_singleton in He as ->, He' as ->. lia.
  - eexists _, _. split; [exact Hread|]. eapply (H "n" one_row [norm_event first_event]);
      [vm_compute; left|reflexivity|apply one_row_read|left|]. split; reflexivity || discriminate.
Defined.

(** ** Redaction after bounding *)
Fixpoint repeated (n : nat) (s : string) : string := match n with O => "" | S n => s +:+ repeated n s end.
Definition many_tokens : string := repeated 512 "token:x ".
(** A summary of exactly the permitted length is bounded first and redacted after, and
    each redaction adds characters: the event it makes is refused as unbounded. *)
Lemma redaction_outgrows_bound :
  String.length many_tokens = MAX_SUMMARY_CHARS ∧
  (MAX_SUMMARY_CHARS <? String.length (sanitize_activity_text many_tokens MAX_SUMMARY_CHARS))%nat = true ∧
  validate_ActivityEvent (observed (sample_observation many_tokens) 1 10) =
    Err (Exn ValueError "activity summary is not bounded").
Proof. split_and!; vm_compute; reflexivity. Qed.
End ActivitySample.

(** * The pool and its policy at work

    A harness that names its panes [p], [pp], ..., the witnesses of the pool's theorems,
    and two calls that raise although the code says that they do not. *)
Module PoolSample.
Import Prelude Orders PyDict PyFloat Canonical Sample Json Models Store JsonLines PyText Control ControlFile ControlCodec ControlSample Activity ActivityFile Pool PoolFacts Autoscale AutoscaleFacts.
Local Open Scope Z_scope.
#[local] Existing Instance journal_platform.

(** The world counts the panes that were opened. *)
Fixpoint pane_name (n : nat) : string := match n with O => "p" | S n => String "p" (pane_name n) end.
Definition sample_spawn (d : SessionDescriptor) (prompt : string) : prog nat HarnessSession := λ n,
  (S n, Ok {| hs_sid := pane_name n; hs_descriptor := Some d; hs_status := "running"; hs_branch := sd_branch d |}).
Definition sample_archive (sid : string) : prog nat ArchiveResult := λ n,
  (n, Ok {| rs_sid := sid; rs_archived := true; rs_reason := None; rs_transcript_path := Some ("t/" +:+ sid) |}).
Definition sample_harness : Harness nat := {| harness_spawn := sample_spawn; harness_archive := sample_archive |}.

Lemma pane_name_length n : String.length (pane_name n) = S n.
Proof. induction n; simpl; congruence. Qed.
#[local] Program Instance sample_names : FreshNames sample_harness := {
  names_used n := list_to_set (pane_name <$> seq 0 n) }.
Next Obligation.
  intros d prompt n n' session. unfold sample_harness, sample_spawn. simpl. intros [= <- <-]. cbn [hs_sid]. split.
  - rewrite elem_of_list_to_set, list_elem_of_fmap. intros (k & E & Hk%elem_of_seq). apply (f_equal String.length) in E.
    rewrite !pane_name_length in E. lia.
  - intros sid. rewrite elem_of_union, elem_of_singleton, !elem_of_list_to_set, !list_elem_of_fmap.
    intros [->|(k & -> & Hk%elem_of_seq)]; eexists; (split; [reflexivity|]); apply elem_of_seq; lia.
Qed.

Definition sample_spec : PaneSpec := {|
  ps_lane := "a"; ps_repo := "r"; ps_branch := "main"; ps_prompt := ""; ps_model := ""; ps_quality := "sandbox"; ps_mode := "direct" |}.
Definition sample_clock (n : nat) : float := Z.of_nat n.
Definition empty_pool : PoolController (W:=nat) := {|
  pc_world := 0%nat; pc_pool := ∅; pc_ticks := 0; pc_files := no_files; pc_activity_ticks := 0 |}.
Definition sample_scale (target : Z) := scale sample_harness sample_clock sample_clock None sample_spec target.
(** Two panes in the lane [a]. *)
Definition two_panes : PoolController (W:=nat) := (sample_scale 2 empty_pool).1.

Lemma two_panes_ok : pool_ok sample_harness two_panes.
Proof.
  split.
  - change (pool_wf (pc_pool (sample_scale 2 empty_pool).1)).
    apply (scale_wf sample_harness sample_clock sample_clock None sample_spec 2 empty_pool). split; [constructor|done].
  - intros sid. unfold names_used, two_panes. vm_compute (keys _). vm_compute (pc_world _). simpl. set_solver.
Qed.

(** The same with a harness that notes the calls that it answers. *)
Definition noted_scale (target : Z) := scale (logged sample_harness) sample_clock sample_clock None sample_spec target.
Definition noted_panes : PoolController (W:=nat * list harness_call) := (noted_scale 2 {|
  pc_world := (0%nat, []); pc_pool := ∅; pc_ticks := 0; pc_files := no_files; pc_activity_ticks := 0 |}).1.
Lemma noted_panes_ok : pool_ok (logged sample_harness) noted_panes.
Proof.
  split.
  - apply (scale_wf (logged sample_harness) sample_clock sample_clock None sample_spec 2). split; [constructor|done].
  - intros sid. unfold names_used, logged_fresh, noted_panes. vm_compute (keys _). vm_compute (pc_world _).
    unfold names_used, sample_names. simpl. set_solver.
Qed.
Lemma scale_converges_witness : ∃ q active, noted_scale 1 noted_panes = (q, Ok active) ∧ pm_sid <$> active = ["pp"] ∧
  ∃ r, (pc_world q).2 = (pc_world noted_panes).2 ++ [Archived "p" r].
Proof.
  destruct (noted_scale 1 noted_panes) as [q [active|e]] eqn:Hs; [|vm_compute in Hs; discriminate Hs].
  exists q, active. split; [done|].
  destruct (scale_converges (logged sample_harness) sample_clock sample_clock None sample_spec 1 noted_panes q active noted_panes_ok Hs)
    as (_ & _ & _ & [(_ & _ & _ & _ & rs & Hp & Hall & _)|(Hle & _)]); [|vm_compute in Hle; by destruct Hle].
  split; [vm_compute in Hs; injection Hs as _ <-; vm_compute; reflexivity|].
  apply performs_logged in Hp. vm_compute (surplus _ _) in Hp, Hall.
  inversion Hall as [|v r vs rs' Hr Hrest E1 E2]. inversion Hrest. subst. exists r. exact Hp.
Defined.

(** A policy that keeps one pane in the lane, on any host. *)
Definition sample_target : RollingTarget := {|
  rt_target := 1; rt_safe_low := 1; rt_safe_high := 1; rt_mode := "min"; rt_hard_ceiling := 12; rt_schema := POLICY_SCHEMA |}.
Definition sample_policy : AutoscalePolicy := {| ap_rolling := sample_target; ap_parent_card := "card" |}.
Definition sample_resources (n : nat) : Resources := {| rc_cores := 4; rc_ram_gb := 0; rc_disk_gb := 0 |}.
Definition sample_authorize (pr : ScaleProposal) : prog nat bool := mret true.
Definition sample_record (pr : ScaleProposal) (t : TeardownPreflight) : prog nat unit := mret tt.
Definition sample_teardown : TeardownPreflight := {|
  tp_exact_lane := "a"; tp_exact_current := 2; tp_exact_target := 1; tp_host_healthy := true; tp_panes_healthy := true;
  tp_evidence_recorded := true; tp_parent_card_linked := "card"; tp_evidence_ref := "log" |}.
Definition sample_execute (pr : ScaleProposal) := execute sample_harness sample_clock sample_clock None sample_resources
  sample_policy pr sample_authorize "r" "main" "" "" "sandbox" "direct" (Some sample_teardown) (Some sample_record).
Lemma sample_proposal : ∃ o pr, evaluate_scale sample_resources sample_policy "a" two_panes = (o, Some pr) ∧
  (∃ q active, sample_execute pr two_panes = (q, Ok active)) ∧ sp_target pr = 1 ∧ sp_direction pr = "down".
Proof. eexists _, _. split; [reflexivity|]. split; [|done]. eexists _, _. vm_compute. reflexivity. Qed.

Lemma execute_guarded_witness : ∃ pr q active, sample_execute pr two_panes = (q, Ok active) ∧ length active = 1%nat ∧ vouched pr sample_teardown.
Proof.
  destruct sample_proposal as (o & pr & _ & (q & active & Hx) & Ht & Hd). exists pr, q, active. split; [done|].
  destruct (execute_guarded sample_harness sample_clock sample_clock None sample_resources sample_policy pr sample_authorize "r" "main" ""
    "" "sandbox" "direct" (Some sample_teardown) (Some sample_record) two_panes q (Ok active) (proj1 two_panes_ok) Hx)
    as [[_ [=]]|[(w & rs & (_ & _ & _ & w1 & _ & _ & Hv) & _) H]].
  destruct (H Hd active eq_refl) as [Hlen _]. rewrite Ht in Hlen. split; [lia|]. rewrite Hd in Hv. cbn in Hv.
  destruct Hv as (t & f & [= <-] & _ & Hv & _). exact Hv.
Defined.
Lemma execution_settles_witness : ∃ o pr q active, evaluate_scale sample_resources sample_policy "a" two_panes = (o, Some pr) ∧
  sample_execute pr two_panes = (q, Ok active) ∧ (evaluate_scale sample_resources sample_policy "a" q).2 = None.
Proof.
  destruct sample_proposal as (o & pr & He & (q & active & Hx) & _ & _). exists o, pr, q, active. split; [done|]. split; [done|].
  destruct (execution_settles sample_harness sample_clock sample_clock None sample_resources sample_policy sample_target "a" two_panes o pr
    sample_authorize "r" "main" "" "" "sandbox" "direct" (Some sample_teardown) (Some sample_record) q active)
    as (_ & _ & _ & _ & ->); [reflexivity|apply two_panes_ok|intros w; reflexivity|exact He|exact Hx|reflexivity|reflexivity].
Defined.

(** ** Calls that raise although they should not *)
Definition newline : string := String (ascii_of_N 10) "".
Definition broken_journal : PoolController (W:=nat) := {|
  pc_world := 0%nat; pc_pool := ∅; pc_ticks := 0;
  pc_files := {| nf_events := Some ("x" +:+ newline); nf_head := None |}; pc_activity_ticks := 0 |}.
Definition pool_journal : ActivityJournal := {| aj_node := "n"; aj_max_bytes := 2048; aj_max_event_bytes := 1024 |}.
(** A journal whose last row does not parse: the pane is opened and tracked, and the
    call that opened it raises. *)
Theorem corrupt_journal_fails_spawn :
  let '(q, r) := pool_spawn sample_harness sample_clock sample_clock (Some pool_journal) sample_spec broken_journal in
  keys (pc_pool q) = ["p"] ∧ pc_world q = 1%nat ∧
  match r with Ok _ => False | Err e => exn_isa (exn_kind e) ActivityError = true ∧ swallowed (exn_kind e) = false end.
Proof. vm_compute. repeat split. Qed.

(** A board with a card whose status is a list: the query raises [TypeError]. *)
Definition odd_board : string := dumps (JObj [("lane", JObj [("doing", JArr [JObj [("status", JArr [])]])])]).
Theorem odd_status_fails_poll : match poll_board (Some (Ok odd_board)) {["doing"]} ∅ with Err e => exn_kind e = TypeError | Ok _ => False end.
Proof. vm_compute. reflexivity. Qed.
End PoolSample.
